(* ===== verification/_CoqProject ===== *)
-Q . S2P
Prelude.v
Common.v
PageTable.v
Chunk.v
CacheLine.v
Queues.v
AddrPredictor.v
Shared.v
WriteHistory.v
PredictorTable.v
CompletedWrite.v
Backend.v
PendingTable.v
Frontend.v
LineSearch.v
Requests.v
Delivery.v
Promotion.v
System.v
Clock.v
EventQueue.v
EventLinks.v
EventSpec.v
Bridge.v
PredictorPorts.v
LruSet.v
MetadataCache.v
DramQueues.v
DramSafety.v
DramRank.v
DramTiming.v
DramPower.v
DramRefresh.v
DramRun.v
DramSched.v
DramController.v
Bmo.v
BmoSafety.v
PmemTx.v
CtreeMap.v
CtreeSpec.v
Primality.v
HashmapTx.v
HashmapSpec.v
HashmapOps.v
HashmapMap.v
MapApi.v
MapInstances.v
