(* ===== verification/Prelude.v ===== *)
(** * Verification of the PMWeaver write predictor

    PMWeaver is an extension of the gem5 simulator (under [src/gem5/src]) that
    predicts the address and the data of writes to persistent memory from the
    stores that lead to them, so that the memory controller can start the work of
    encryption, integrity verification or deduplication before the write arrives.
    This library models the predictor, the bridges it sits in, the memory
    controller it serves and workloads that the simulator runs, and proves what
    makes them correct.  File names below are relative to [src/gem5/src/mem] unless
    said otherwise.

    ** The program and its model

    The frontend ([predictor_frontend.cc]) sees every request of a core.  It
    accumulates stores by cache line, keeps a history of them, and, when a
    persistent line is written back, searches the history for the stores the
    line's address and words came from.  What it finds is a pattern of the
    predictor table, keyed by the hash of the path of store PCs.  When a path
    recurs, the pattern becomes a parent with entries in the pending table that
    wait for the stores; stores deliver their words, and a complete parent is
    sent to the backend ([predictor_backend.cc]), which keeps predictions in the
    result buffer by physical line and compares every persistent write with them.
    Frontend and backend are bridges ([bridge.cc]) with timing ports.  The memory
    controller ([dram_ctrl.cc]) reads the metadata caches for requests and
    predictions, computes the latency that is left of a predicted write, and
    queues requests for the device.

    - [Prelude]: faults and results, loops, machine integers, statistics, the
      traversal order of hash tables ([IterOrder]).
    - [Common] ([predictor/Common.hh], [Declarations.hh], [Constants.hh]),
      [PageTable] ([packet.hh], [request.hh], [page_table.cc]), [Chunk]
      ([predictor/ChunkInfo.hh]), [CacheLine], [Queues] ([DataStore.hh],
      [SimpleFixedSizeQueue.hh], [FixedSizeQueue.hh], [PCQueue.hh]),
      [AddrPredictor], [Shared] ([SharedArea]), [WriteHistory],
      [PredictorTable], [CompletedWrite], [PendingTable]: the data structures of
      [predictor/].
    - [Backend]: the handlers of [predictor_backend.cc].
    - [Frontend], [LineSearch], [Requests]: the handlers of
      [predictor_frontend.cc].  [Delivery], [Promotion] and [System] prove what
      they do and compose them with the backend.
    - [EventQueue] ([sim/eventq.hh], [sim/eventq.cc], [sim/eventq_impl.hh] and the
      main loop of [sim/simulate.cc]): the queue of events that drives the
      simulation, with its linked lists; [EventLinks] relates the lists to their
      contents and [EventSpec] states and proves what the queue promises.
    - [Clock] ([sim/clocked_object.hh], [base/intmath.hh], [sim/eventq_impl.hh])
      and [Bridge] ([bridge.cc]): the ports, with their two peers; what a
      predictor does at its ports is the interface [PortLogic], which
      [PredictorPorts] instantiates for frontend and backend.
    - [LruSet], [MetadataCache]: the counter and verification caches of
      [dram_ctrl.hh].  [DramQueues]: the queues of [dram_ctrl.cc] and
      [qos/mem_ctrl.cc]; [DramSafety] proves them correct.  [DramRank]: the banks
      and ranks of the device, the commands an access issues and the choice of
      the next access, which [DramSched] compares with the policy it stands for;
      [DramPower]: the events of a rank with its refresh and power states.
      [DramTiming] and [DramRefresh] prove that accesses and events keep the timing
      and the states of the device, and [DramRun] composes them in runs of the
      event queue.  [DramController] puts queues, scheduler, accesses and events
      together: one controller whose steps are the arrival of a request and the
      events of [dram_ctrl.cc].  [Bmo]: what the
      controller does for persistent requests, and its [recvTimingReq];
      [BmoSafety] composes it with the caches, the result buffer and the queues.
    - The workloads, under [src/pmdk/src/examples/libpmemobj]: the program
      [data_store] ([map/data_store.c]) stores items in a persistent map, through
      the table of operations of [map/map.c] ([MapApi]).  [PmemTx]: the
      transactions of libpmemobj as its documentation describes them, with a
      program logic for code in transactions.  [CtreeMap] ([tree_map/ctree_map.c])
      and [HashmapTx] ([hashmap/hashmap_tx.c]): two maps; [CtreeSpec] and
      [HashmapSpec], [HashmapOps], [HashmapMap] prove them correct, [Primality]
      serves the hash function, and [MapInstances] shows that both keep what the
      interface promises to [data_store].

    A C++ class is a module with its state as a record and one definition per
    function, under the function's name; a function that stops the simulation,
    throws or has undefined behaviour returns [Fail].  Integers are [Z] with the
    wrap-around of their width written out.  Objects that the code shares through
    pointers (the parents of the pending table, the burst helpers of split reads)
    live in a store keyed by identity.  An unordered map is a [gmap]; a loop over
    one takes its order from [IterOrder], and the theorems hold for every order.
    The workloads are in C; a call is a computation on the pool, a map from the
    fields of objects to values, that reads an oracle: at any store or library
    call the transaction may abort or the power may fail.
    Values that the code reads without a defined value (the result of an oversized
    shift, an unset hash) are variables of the
    sections that use them, or make the function return [Fail Undefined].  The words
    that the search of the history reads through a dangling pointer and shifts too far
    ([LineSearch.reread]) come from a record of such reads
    ([LineSearch.undefined_reads]), over which the theorems quantify.  It may lead to
    a failed check as well as to any word; theorems that need an intact read say so.

    ** What the theorems show

    - Composition.  [System]: a sequence of requests to frontend and backend, valid
      and within the bounds below, stops the simulation only where a write back reads
      a word that is not intact, with the fault of that read, and the invariants of
      all tables hold throughout; what
      a store, a write back, the promotion of a pattern and the delivery of a word
      do to the whole state.  [PredictorPorts]: the same through the ports.
    - Backend.  Every write is counted once, on the right branch; the newest
      matching prediction is the one used; the match predicate is equality on the
      words the prediction has.
    - Tables, lines and queues.  Each operation against a functional
      specification: additions, evictions and searches of the predictor and the
      pending table, the scan of the history, accumulation and retirement of
      lines, overlay and search of cache lines, the bounded queues as the last
      elements pushed, map and translate of the page table and the rounds of its
      loops.
    - Event queue.  The two-level linked list refines an agenda ordered by tick,
      priority and recency, under all calls and services; the main loop serves it
      without a failing assertion, never goes back in time, and reaches the exit
      event.
    - Bridges.  No assertion fails under any interleaving the protocol allows, the
      pair of ports refines two queues, and the queues drain when the peers accept.
    - Memory controller.  The metadata caches refine sets ordered by recency; a
      walk over the tree ends within twelve misses and makes the next one hit;
      addresses are decoded bijectively; every accepted request is answered
      exactly once within the bounds of the queues; the latency of a write is the
      work left, within fixed bounds; and a request is handled by all of these
      together without stopping.
    - Device.  In every order of events that the event queue allows, the only step
      that stops is a refresh event that comes too late ([DramRefresh.late]), and the
      commands of the ranks keep the protocol of the
      device: timing, open and closed banks, the window of activates, refreshes with
      all banks closed, and the data bus.  The power model is told every command
      once, in order.  Counters keep their types.  The scheduler serves the packet
      that FR-FCFS asks for, and finds one unless all ranks refresh.  All of it holds
      of the composed controller, with the bounds of its queues, and as long as a
      request waits an event is scheduled.
    - Workloads.  The crit-bit tree and the hash map implement a finite map, with
      failure atomicity: whatever aborts, and whenever the power fails, the pool
      holds the map before or after the operation, and the result tells which after
      an abort of the hash map.  A rebuild of the hash table
      keeps every entry, and the table stays within 2^33 buckets because the hash
      function is injective on 32-bit keys.  [data_store], proved against the
      interface of a map, ends with exactly the items it inserted, and after a
      power failure the pool holds a prefix of them; its assertions hold.  This is
      for runs without aborts: the first abort is undefined behaviour.
    - Defects.  Some theorems state what the code does where it does not do what it
      means to: the entries erased from the pending table, the prediction taken by
      the controller, the hit test with an unaligned address, and the empty queue
      an unpredicted write leaves in the result buffer, which makes the next
      insertion of the backend undefined, the key that clearing a crit-bit tree
      leaves behind, and the context that [data_store] uses after it was freed.
      The theorems of [System], [Backend] and
      [PredictorPorts] are therefore about runs in which the controller does not
      leave such a queue.

    ** Bounds

    Loops over containers are structural; the few [while] loops run on fuel
    computed from the size of what they consume, and the theorems show that
    [OutOfFuel] is never returned.  The runs of the predictor are bounded by 2^31
    requests and those of the metadata caches by 2^32 accesses, where 32-bit
    counters of the code would wrap.  Ticks stay below 2^63 and physical
    addresses below 2^62, so that sums of them do not wrap.  The words per store
    of a PC are fixed ([width]), as for a store instruction; the code panics
    otherwise.  A descent in the crit-bit tree has 65 rounds, one more than the
    bits of a key, and a walk along a chain of the hash map one more than there
    are objects in the pool; both are enough for every map that the operations
    build.  The keys of the crit-bit tree are 64-bit numbers other than 0, which
    the code takes for an unused entry; those of the hash map have 32 bits.
    The runs of the device have at most 250 reads in flight, since the counter of
    outstanding events has eight bits; the composed controller has a read buffer of at
    most 250, at most 32 banks in a rank, the width of the scheduler's masks, and ticks
    that fit in 64 bits.  Their timings satisfy [timing_ok] and [refresh_ok], as those
    of DDR4_2400_8x8 do, which [src/scripts/common.py] configures; those of PCM_200_8x8
    do not ([DramRun.late_data_stops_refresh]).  Their steps follow the event queue: of the events of a tick the
    newest goes first ([EventSpec.present_first]), so a power event, which is always
    scheduled at the present tick, goes before all others.

    ** Not modelled

    Counters of type [int] that only count entries ([addrMatches], the length of a
    chain) do not wrap in the model.  Statistics are modelled where a theorem or a
    handler reads them; trace and
    debug output, registration of statistics, parameter parsing and
    (un)serialization are not.  Of the memory controller, the energy of the device is
    computed by an external library, which appears as the commands it is given; a
    policy for the turnaround of the bus is not modelled; power-down and self-refresh are modelled, but the theorem on runs is
    for the default configuration, which does not use them; the tables of
    deduplication are never used.  The rest of gem5 (CPUs, caches, crossbars,
    pseudo instructions, the queues of other threads) appears as requests, responses and switches
    over which the theorems quantify.  The other workloads
    ([src/janus_workload], and the other maps, servers and command line tools
    under [src/pmdk/src/examples]) and libpmemobj itself are not modelled: of the
    library only the documented contract is used.  Scripts and disk images
    ([src/scripts], [src/pm_images]) are no programs of the simulator. *)

From stdpp Require Export base gmap list strings sorting.
From Stdlib Require Export ZArith Lia.

Open Scope Z_scope.

(** Hints of the development. *)
Create HintDb pmweaver.

(** ** Faults and results

    A handler of the simulator either returns or stops the simulation.  The
    ways it stops are kept apart: [Panic] is gem5's [panic]/[panic_if]/
    [panic_if_not], [AssertFailure] a failed [assert], [OutOfRange] the
    exception of [std::deque::at], [std::unordered_map::at] and the like, and
    [Undefined] an access the C++ language gives no meaning to (a raw array
    index past its end, [front()] of an empty deque, a null dereference).
    [OutOfFuel] belongs to the model: a [while] loop ran longer than the bound
    its model function computes; the theorems on such loops show it is never
    returned. *)

Inductive fault : Type :=
| Panic
| AssertFailure
| OutOfRange
| Undefined
| OutOfFuel.

#[global] Instance fault_eq_dec : EqDecision fault.
Proof. solve_decision. Defined.

Inductive res (A : Type) : Type :=
| Ok (a : A)
| Fail (f : fault).
Arguments Ok {A} a.
Arguments Fail {A} f.

#[global] Instance res_ret : MRet res := @Ok.
#[global] Instance res_bind : MBind res := fun A B f m =>
  match m with
  | Ok a => f a
  | Fail e => Fail e
  end.

Definition panic_if (c : bool) : res unit := if c then Fail Panic else Ok tt.
Definition panic_if_not (c : bool) : res unit := panic_if (negb c).
Definition assert_that (c : bool) : res unit := if c then Ok tt else Fail AssertFailure.

(** A container access that throws [std::out_of_range] when the key is absent. *)
Definition at_ {A} (o : option A) : res A :=
  match o with
  | Some a => Ok a
  | None => Fail OutOfRange
  end.

(** An access that has no defined behaviour when the element is absent. *)
Definition deref {A} (o : option A) : res A :=
  match o with
  | Some a => Ok a
  | None => Fail Undefined
  end.

(** *** Loops

    [for_each] is a range-based [for] whose body updates the loop state [s] and
    may stop the program; [search] is a [for] with a [break] at the first
    element that satisfies a test. *)
Fixpoint for_each {A S} (l : list A) (body : A -> S -> res S) (s : S) : res S :=
  match l with
  | [] => Ok s
  | x :: l' => s' ← body x s; for_each l' body s'
  end.

Fixpoint search {A} (l : list A) (test : A -> res bool) : res (option A) :=
  match l with
  | [] => Ok None
  | x :: l' => b ← test x; if b : bool then Ok (Some x) else search l' test
  end.

Definition is_ok {A} (r : res A) : Prop := exists a, r = Ok a.

Section ResultLemmas.
Context {A B S : Type}.

Lemma ok_inj (a b : A) : Ok a = Ok b -> a = b.
Proof. congruence. Qed.

(** A property of a result, from its evaluation. *)
Lemma ok_check (P : A -> Prop) (r : res A) a :
  r = Ok a -> match r with Ok x => P x | Fail _ => False end -> P a.
Proof. by intros ->. Qed.

Lemma bind_ok (m : res A) (f : A -> res B) b :
  (m ≫= f) = Ok b <-> exists a, m = Ok a /\ f a = Ok b.
Proof. destruct m; cbn; split; [eauto | naive_solver | done | naive_solver]. Qed.

Lemma panic_if_ok c u : panic_if c = Ok u <-> c = false.
Proof. destruct c, u; cbn; naive_solver. Qed.

Lemma panic_if_not_ok c u : panic_if_not c = Ok u <-> c = true.
Proof. destruct c, u; cbn; naive_solver. Qed.

Lemma assert_that_ok c u : assert_that c = Ok u <-> c = true.
Proof. destruct c, u; cbn; naive_solver. Qed.

Lemma at_ok (o : option A) a : at_ o = Ok a <-> o = Some a.
Proof. destruct o; cbn; naive_solver. Qed.

Lemma deref_ok (o : option A) a : deref o = Ok a <-> o = Some a.
Proof. destruct o; cbn; naive_solver. Qed.

Lemma for_each_app (l1 l2 : list A) (body : A -> S -> res S) s :
  for_each (l1 ++ l2) body s = (s' ← for_each l1 body s; for_each l2 body s').
Proof.
  revert s. induction l1 as [|x l1 IH]; intros s; cbn; [done|].
  destruct (body x s); cbn; auto.
Qed.

(** A loop whose body never stops and computes [g] is the fold of [g]. *)
Lemma for_each_pure (l : list A) (body : A -> S -> res S) (g : S -> A -> S)
    (I : S -> Prop) s :
  (forall x s, x ∈ l -> I s -> body x s = Ok (g s x) /\ I (g s x)) ->
  I s ->
  for_each l body s = Ok (foldl g s l) /\ I (foldl g s l).
Proof.
  revert s. induction l as [|x l IH]; intros s H Hs; cbn; [done|].
  destruct (H x s) as [-> Hg]; [set_solver | done |]. cbn.
  apply IH; [|done]. intros y t Hy. apply H. set_solver.
Qed.

(** An invariant of the body is an invariant of the loop. *)
Lemma for_each_inv (l : list A) (body : A -> S -> res S) (I : S -> Prop) s s' :
  (forall x s s', x ∈ l -> I s -> body x s = Ok s' -> I s') ->
  I s -> for_each l body s = Ok s' -> I s'.
Proof.
  revert s. induction l as [|x l IH]; cbn; intros s H Hs Hl; [naive_solver|].
  destruct (body x s) as [t|] eqn:E; cbn in Hl; [|done].
  eapply IH; [| |exact Hl]; [|eapply H; [|exact Hs|exact E]; set_solver].
  intros y u u' Hy. apply H. set_solver.
Qed.
End ResultLemmas.

(** Total correctness of a counting loop [for (i = 0; i < n; i++)]: a step that
    succeeds from every state of its index and leads to the next index's states
    makes the whole loop succeed. *)
Lemma for_each_seq {S} (I : nat -> S -> Prop) (n : nat) (body : nat -> S -> res S) s :
  I O s ->
  (forall i s, (i < n)%nat -> I i s -> exists s', body i s = Ok s' /\ I (Datatypes.S i) s') ->
  exists s', for_each (seq 0 n) body s = Ok s' /\ I n s'.
Proof.
  intros H0 Hstep. induction n as [|n IH].
  { exists s. done. }
  destruct IH as (s1 & E1 & H1); [intros i t Hi; apply Hstep; lia|].
  destruct (Hstep n s1) as (s2 & E2 & H2); [lia|done|].
  exists s2. split; [|done]. rewrite seq_S, for_each_app, E1. cbn. by rewrite E2.
Qed.

(** A counting loop over an array whose step [i] replaces the element at [i] by
    [f i] of it and moves the rest of its state by [g i] maps the array. *)
Lemma for_each_imap {A S} (f : nat -> A -> A) (g : nat -> A -> S -> S)
    (step : nat -> list A * S -> res (list A * S)) (l0 : list A) (s : S) :
  (forall i x l s, l0 !! i = Some x -> l !! i = Some x ->
     step i (l, s) = Ok (<[i := f i x]> l, g i x s)) ->
  for_each (seq 0 (length l0)) step (l0, s) =
    Ok (imap f l0, foldl (fun s ix => g ix.1 ix.2 s) s (imap pair l0)).
Proof.
  intros Hstep.
  destruct (for_each_seq (fun k st =>
      st = (imap f (take k l0) ++ drop k l0,
            foldl (fun s ix => g ix.1 ix.2 s) s (imap pair (take k l0))))
    (length l0) step (l0, s)) as (st & E & ->); [done| |].
  - intros i st Hi ->. destruct (lookup_lt_is_Some_2 l0 i Hi) as [x Hx].
    rewrite (Hstep i x _ _ Hx).
    + eexists. split; [done|]. rewrite (take_S_r _ _ _ Hx), !imap_app, foldl_app.
      rewrite length_take_le by lia. cbn. rewrite !Nat.add_0_r. f_equal.
      rewrite insert_app_r_alt by (rewrite length_imap, length_take; lia).
      rewrite length_imap, length_take_le, Nat.sub_diag by lia.
      rewrite (drop_S _ _ _ Hx). cbn. rewrite <- app_assoc. done.
    + rewrite lookup_app_r by (rewrite length_imap, length_take; lia).
      rewrite length_imap, length_take_le, Nat.sub_diag by lia.
      by rewrite lookup_drop, Nat.add_0_r.
  - rewrite E, take_ge, drop_ge, app_nil_r by done. done.
Qed.

(** Total correctness of a range-based [for] with an invariant. *)
Lemma for_each_total {A S} (I : S -> Prop) (l : list A) (body : A -> S -> res S) s :
  I s -> (forall x s, x ∈ l -> I s -> exists s', body x s = Ok s' /\ I s') ->
  exists s', for_each l body s = Ok s' /\ I s'.
Proof.
  revert s. induction l as [|x l IH]; intros s Hs H; cbn; [eauto|].
  destruct (H x s) as (s1 & -> & H1); [set_solver|done|]. cbn.
  apply IH; [done|]. intros y t Hy. apply H. set_solver.
Qed.

(** Loops with the same steps are the same. *)
Lemma for_each_ext {A S} (l : list A) (f g : A -> S -> res S) s :
  (forall x s, x ∈ l -> f x s = g x s) -> for_each l f s = for_each l g s.
Proof.
  revert s. induction l as [|x l IH]; intros s H; cbn; [done|].
  rewrite H by set_solver. destruct (g x s); cbn; [|done]. apply IH. set_solver.
Qed.

(** A search whose test never stops returns the first element it accepts. *)
Lemma search_find {A} (l : list A) (test : A -> res bool) (p : A -> bool) :
  (forall x, x ∈ l -> test x = Ok (p x)) -> search l test = Ok (List.find p l).
Proof.
  induction l as [|x l IH]; intros H; cbn; [done|].
  rewrite H by set_solver. cbn. destruct (p x); [done|]. apply IH. set_solver.
Qed.

Lemma find_forallb {A} (p : A -> bool) (l : list A) :
  match List.find p l with Some _ => false | None => true end = forallb (fun x => negb (p x)) l.
Proof. induction l as [|x l IH]; cbn; [done|]. by destruct (p x). Qed.

Lemma find_app {A} (p : A -> bool) (l1 l2 : list A) :
  List.find p (l1 ++ l2) =
    match List.find p l1 with Some x => Some x | None => List.find p l2 end.
Proof. induction l1 as [|x l1 IH]; cbn; [done|]. by destruct (p x). Qed.

(** What the first index accepted by a test satisfies. *)
Lemma find_seq_some p k n i :
  List.find p (seq k n) = Some i ->
  (k <= i < k + n)%nat /\ p i = true /\ forall j, (k <= j < i)%nat -> p j = false.
Proof.
  revert k. induction n as [|n IH]; intros k; cbn; [done|].
  destruct (p k) eqn:E; intros H.
  - injection H as <-. repeat split; [lia|lia|done|]. intros; lia.
  - apply IH in H as (? & ? & Hj). repeat split; [lia|lia|done|].
    intros j ?. destruct (decide (j = k)) as [->|]; [done|]. apply Hj. lia.
Qed.

Lemma find_seq_none p k n j :
  List.find p (seq k n) = None -> (k <= j < k + n)%nat -> p j = false.
Proof.
  intros H Hj. apply (List.find_none _ _ H). apply List.in_seq. lia.
Qed.

Lemma insert_alter {A} (f : A -> A) (l : list A) i x :
  l !! i = Some x -> <[i := f x]> l = alter f i l.
Proof.
  intros H. apply list_eq. intros j. destruct (decide (i = j)) as [<-|].
  - rewrite list_lookup_insert_eq, list_lookup_alter_eq, H by (by eapply lookup_lt_Some). done.
  - by rewrite list_lookup_insert_ne, list_lookup_alter_ne by done.
Qed.

(** An update of the array element at index [i] by a step that may stop. *)
Definition modify {A} (i : nat) (f : A -> res A) (l : list A) : res (list A) :=
  x ← deref (l !! i); y ← f x; Ok (<[i := y]> l).

Lemma modify_ok {A} i (f : A -> res A) l x y :
  l !! i = Some x -> f x = Ok y -> modify i f l = Ok (<[i := y]> l).
Proof. intros H1 H2. unfold modify. rewrite H1. cbn. by rewrite H2. Qed.

(** [res_inv] unfolds a successful computation [H : (.. ← ..; ..) = Ok _] into
    the successes of its steps. *)
Ltac res_step :=
  match goal with
  | H : (_ ≫= _) = Ok _ |- _ =>
      apply bind_ok in H;
      let x := fresh "r" in let Hx := fresh "E" in destruct H as (x & Hx & H)
  | H : panic_if _ = Ok _ |- _ => apply panic_if_ok in H
  | H : panic_if_not _ = Ok _ |- _ => apply panic_if_not_ok in H
  | H : assert_that _ = Ok _ |- _ => apply assert_that_ok in H
  | H : at_ _ = Ok _ |- _ => apply at_ok in H
  | H : deref _ = Ok _ |- _ => apply deref_ok in H
  | H : Ok _ = Ok _ |- _ => injection H; clear H; intros
  | H : mret _ = Ok _ |- _ => injection H; clear H; intros
  | H : Fail _ = Ok _ |- _ => discriminate H
  end.
Ltac res_inv := repeat (res_step; cbn beta iota zeta in *); subst.

(** ** Machine integers

    [uint64_t], [uint32_t] and [int64_t] values are integers of [Z] inside the
    type's range; an operation that can leave the range is followed by the
    conversion that C++ applies. *)
Definition u64 (z : Z) : Z := z mod 18446744073709551616.
Definition u32 (z : Z) : Z := z mod 4294967296.
Definition u16 (z : Z) : Z := z mod 65536.
Definition i32 (z : Z) : Z :=
  let w := u32 z in if w <? 2147483648 then w else w - 4294967296.
Definition i64 (z : Z) : Z :=
  let w := u64 z in if w <? 9223372036854775808 then w else w - 18446744073709551616.

(** [UINT64_MAX], also the value of [(size_t)-1] and [(Tick)-1]. *)
Definition UINT64_MAX : Z := 18446744073709551615.

Definition is_u64 (z : Z) : Prop := 0 <= z < 18446744073709551616.
Definition is_u32 (z : Z) : Prop := 0 <= z < 4294967296.

Lemma u64_range z : is_u64 (u64 z).
Proof. unfold is_u64, u64. apply Z.mod_pos_bound. lia. Qed.

Lemma u32_range z : is_u32 (u32 z).
Proof. unfold is_u32, u32. apply Z.mod_pos_bound. lia. Qed.

Lemma u64_id z : is_u64 z -> u64 z = z.
Proof. intros H. apply Z.mod_small, H. Qed.

Lemma u32_id z : is_u32 z -> u32 z = z.
Proof. intros H. apply Z.mod_small, H. Qed.

Lemma u16_id z : 0 <= z < 65536 -> u16 z = z.
Proof. apply Z.mod_small. Qed.

Lemma i32_id z : 0 <= z < 2147483648 -> i32 z = z.
Proof.
  intros H. unfold i32. rewrite u32_id by (unfold is_u32; lia).
  by destruct (Z.ltb_spec z 2147483648); [|lia].
Qed.

Definition is_i64 (z : Z) : Prop := -9223372036854775808 <= z < 9223372036854775808.

Lemma i64_range z : is_i64 (i64 z).
Proof.
  unfold is_i64, i64. pose proof (u64_range z) as H. unfold is_u64 in H.
  destruct (Z.ltb_spec (u64 z) 9223372036854775808); lia.
Qed.

(** The value modulo 2^64 is kept. *)
Lemma i64_shift z : exists k, i64 z = z + k * 18446744073709551616.
Proof.
  unfold i64, u64. pose proof (Z.div_mod z 18446744073709551616).
  destruct (Z.ltb_spec (z mod 18446744073709551616) 9223372036854775808).
  - exists (- (z / 18446744073709551616)). lia.
  - exists (- (z / 18446744073709551616) - 1). lia.
Qed.

Lemma i64_id z : is_i64 z -> i64 z = z.
Proof.
  intros H. pose proof (i64_range z). destruct (i64_shift z) as [k E]. unfold is_i64 in *. lia.
Qed.

(** Modular cancellation: what a wrapped difference adds back. *)
Lemma u64_add_i64_sub a b : is_u64 a -> u64 (b + i64 (a - b)) = a.
Proof.
  intros Ha. unfold i64, u64 in *. unfold is_u64 in Ha.
  case_match; Z.div_mod_to_equations; lia.
Qed.

(** ** Iteration order of [std::unordered_map]

    The C++ standard leaves the order of a range-based [for] over an
    [unordered_map] open.  A model function that iterates over one takes the
    order from an [IterOrder]; its theorems hold for every order, so the order
    may also differ from one call to the next. *)
Class IterOrder : Type := {
  iter : forall {V : Type}, gmap Z V -> list (Z * V);
  iter_perm : forall {V : Type} (m : gmap Z V), iter m ≡ₚ map_to_list m
}.

Section IterOrderLemmas.
Context `{O : IterOrder} {V : Type}.
Implicit Types m : gmap Z V.

Lemma elem_of_iter m k v : (k, v) ∈ iter m <-> m !! k = Some v.
Proof. rewrite iter_perm. apply elem_of_map_to_list. Qed.

Lemma NoDup_iter_fst m : NoDup (iter m).*1.
Proof. rewrite iter_perm. apply NoDup_fst_map_to_list. Qed.

Lemma NoDup_iter m : NoDup (iter m).
Proof. rewrite iter_perm. apply NoDup_map_to_list. Qed.

Lemma length_iter m : length (iter m) = size m.
Proof. rewrite iter_perm. apply length_map_to_list. Qed.

Lemma iter_nil m : iter m = [] <-> m = ∅.
Proof.
  rewrite <- map_to_list_empty_iff. split; intros H.
  - apply Permutation_nil. rewrite <- H. apply iter_perm.
  - apply Permutation_nil. rewrite <- H. symmetry. apply iter_perm.
Qed.
End IterOrderLemmas.

(** Two orders that witnesses evaluate with: the one of the tree that represents
    the map, and its reverse. *)
Definition tree_order : IterOrder := {|
  iter := fun V m => map_to_list m;
  iter_perm := fun V m => reflexivity _
|}.

Definition reversed_order : IterOrder := {|
  iter := fun V m => reverse (map_to_list m);
  iter_perm := fun V m => reverse_Permutation _
|}.

(** ** Simulator statistics

    gem5 statistics ([Stats::Scalar], [Stats::Distribution]) as named counters
    and named lists of samples, latest sample first. *)
Module Stats.
Record t := mk {
  scalar : gmap string Z;
  samples : gmap string (list Z)
}.

Definition empty : t := mk ∅ ∅.
Definition get (n : string) (s : t) : Z := default 0 (scalar s !! n).
Definition sampled (n : string) (s : t) : list Z := default [] (samples s !! n).
Definition set (n : string) (v : Z) (s : t) : t := mk (<[n := v]> (scalar s)) (samples s).
Definition add (n : string) (d : Z) (s : t) : t := set n (get n s + d) s.
Definition incr (n : string) (s : t) : t := add n 1 s.
Definition sample (n : string) (v : Z) (s : t) : t :=
  mk (scalar s) (<[n := v :: sampled n s]> (samples s)).

Lemma get_set n m v s : get m (set n v s) = if String.eqb n m then v else get m s.
Proof.
  unfold get, set; cbn. destruct (String.eqb_spec n m) as [->|Hne].
  - by rewrite lookup_insert_eq.
  - by rewrite lookup_insert_ne.
Qed.

Lemma get_add n m d s : get m (add n d s) = get m s + if String.eqb n m then d else 0.
Proof.
  unfold add. rewrite get_set. destruct (String.eqb_spec n m) as [->|]; lia.
Qed.

Lemma get_incr n m s : get m (incr n s) = get m s + if String.eqb n m then 1 else 0.
Proof. apply get_add. Qed.

Lemma get_sample n m v s : get m (sample n v s) = get m s.
Proof. done. Qed.

Lemma get_empty n : get n empty = 0.
Proof. done. Qed.
End Stats.

(** Rewrites every counter of the goal to its value before the updates. *)
Ltac stats_simpl :=
  repeat first
    [ rewrite Stats.get_incr | rewrite Stats.get_add
    | rewrite Stats.get_sample | rewrite Stats.get_set ];
  cbn [String.eqb Ascii.eqb Bool.eqb].
