(* ===== verification/Common.v ===== *)
(** * Addresses, flags, environment and confidence counters

    Models [mem/predictor/Common.hh], [Constants.hh] and [Declarations.hh]:
    the cache-line arithmetic on addresses, the classification of addresses as
    persistent or volatile memory, the flag words, the configuration read from
    environment variables, and the saturating [Confidence] counter. *)

From S2P Require Import Prelude.

(** ** Constants *)

Definition PMEM_MMAP_HINT : Z := 0x10000000000.
Definition PRED_CONFIDENCE_BITS : Z := 2.
Definition PRED_CONFIDENCE_MAX : Z := Z.shiftl 1 PRED_CONFIDENCE_BITS.
Definition CACHELINE_BITS : Z := 6.
Definition CACHELINE_MASK : Z := Z.shiftl 1 CACHELINE_BITS - 1.
Definition CACHELINE_SIZE : Z := 64.
Definition SIZEOF_DATACHUNK : Z := 4.
Definition DATA_CHUNK_COUNT : nat := 16.

(** ** Cache-line arithmetic *)

Definition cacheline_align (addr : Z) : Z :=
  Z.shiftl (Z.shiftr addr CACHELINE_BITS) CACHELINE_BITS.

Definition get_cacheline_off (addr : Z) : Z := Z.land addr CACHELINE_MASK.

(** The index of the first chunk an address denotes inside its line,
    [get_cacheline_off(addr)/sizeof(DataChunk)]. *)
Definition chunk_index (addr : Z) : nat := Z.to_nat (get_cacheline_off addr / SIZEOF_DATACHUNK).

Lemma cacheline_align_spec addr : cacheline_align addr = addr / 64 * 64.
Proof.
  unfold cacheline_align, CACHELINE_BITS.
  by rewrite Z.shiftl_mul_pow2, Z.shiftr_div_pow2 by lia.
Qed.

Lemma get_cacheline_off_spec addr : get_cacheline_off addr = addr mod 64.
Proof.
  unfold get_cacheline_off. change CACHELINE_MASK with (Z.ones 6).
  by rewrite Z.land_ones by lia.
Qed.

Lemma cacheline_split addr : cacheline_align addr + get_cacheline_off addr = addr.
Proof. rewrite cacheline_align_spec, get_cacheline_off_spec. Z.div_mod_to_equations; lia. Qed.

Lemma cacheline_off_bound addr : 0 <= get_cacheline_off addr < CACHELINE_SIZE.
Proof. rewrite get_cacheline_off_spec. unfold CACHELINE_SIZE. Z.div_mod_to_equations; lia. Qed.

Lemma cacheline_align_idemp addr :
  cacheline_align (cacheline_align addr) = cacheline_align addr.
Proof. rewrite !cacheline_align_spec. Z.div_mod_to_equations; lia. Qed.

Lemma cacheline_align_id addr : addr mod 64 = 0 -> cacheline_align addr = addr.
Proof. rewrite cacheline_align_spec. intros. Z.div_mod_to_equations; lia. Qed.

Lemma cacheline_align_mod addr : cacheline_align addr mod 64 = 0.
Proof. rewrite cacheline_align_spec. Z.div_mod_to_equations; lia. Qed.

Lemma cacheline_align_u64 addr : is_u64 addr -> is_u64 (cacheline_align addr).
Proof. rewrite cacheline_align_spec. unfold is_u64. intros. Z.div_mod_to_equations; lia. Qed.

Lemma chunk_index_bound addr : (chunk_index addr < DATA_CHUNK_COUNT)%nat.
Proof.
  unfold chunk_index, DATA_CHUNK_COUNT, SIZEOF_DATACHUNK.
  pose proof (cacheline_off_bound addr) as H. unfold CACHELINE_SIZE in H.
  Z.div_mod_to_equations; lia.
Qed.

#[export] Hint Resolve cacheline_off_bound cacheline_align_mod cacheline_align_u64
  chunk_index_bound : pmweaver.

(** ** Persistent and volatile memory *)

Definition is_paddr_pm (paddr : Z) : bool := 8 * 1024 * 1024 * 1024 <? paddr.
Definition is_paddr_volatile (paddr : Z) : bool := negb (is_paddr_pm paddr).

Definition is_vaddr_pm (vaddr : Z) : bool :=
  (PMEM_MMAP_HINT <=? vaddr) && (vaddr <? 2 * PMEM_MMAP_HINT).
Definition is_vaddr_volatile (vaddr : Z) : bool := negb (is_vaddr_pm vaddr).

(** A cache line lies on one side of the persistent-memory boundary. *)
Lemma is_vaddr_pm_align vaddr : is_vaddr_pm (cacheline_align vaddr) = is_vaddr_pm vaddr.
Proof.
  rewrite cacheline_align_spec. unfold is_vaddr_pm, PMEM_MMAP_HINT.
  apply eq_bool_prop_intro. rewrite !andb_True, !Is_true_true.
  rewrite !Z.leb_le, !Z.ltb_lt. Z.div_mod_to_equations; lia.
Qed.

(** ** Flag words *)

Definition set_flag (flags flag : Z) : Z := Z.lor flags flag.
Definition unset_flag (flags flag : Z) : Z := Z.land flags (Z.lnot flag).
Definition is_flag_set (flags flag : Z) : bool := negb (Z.land flags flag =? 0).

Section Flags.
Implicit Types f a b : Z.

Lemma is_flag_set_same f b : b <> 0 -> is_flag_set (set_flag f b) b = true.
Proof.
  intros Hb. unfold is_flag_set, set_flag. rewrite Z.land_lor_distr_l, Z.land_diag.
  destruct (Z.eqb_spec (Z.lor (Z.land f b) b) 0) as [E|]; [|done].
  apply Z.lor_eq_0_iff in E. naive_solver.
Qed.

Lemma is_flag_set_other f a b :
  Z.land a b = 0 -> is_flag_set (set_flag f a) b = is_flag_set f b.
Proof.
  intros Hab. unfold is_flag_set, set_flag.
  by rewrite Z.land_lor_distr_l, Hab, Z.lor_0_r.
Qed.

Lemma is_flag_unset_same f b : is_flag_set (unset_flag f b) b = false.
Proof.
  unfold is_flag_set, unset_flag.
  by rewrite <- Z.land_assoc, (Z.land_comm (Z.lnot b)), Z.land_lnot_diag, Z.land_0_r.
Qed.

Lemma is_flag_unset_other f a b :
  Z.land a b = 0 -> is_flag_set (unset_flag f a) b = is_flag_set f b.
Proof.
  intros Hab. unfold is_flag_set, unset_flag.
  rewrite <- Z.land_assoc. do 3 f_equal.
  apply Z.bits_inj'. intros n Hn. rewrite Z.land_spec, Z.lnot_spec by done.
  assert (Z.testbit (Z.land a b) n = false) as E by (by rewrite Hab, Z.bits_0).
  rewrite Z.land_spec in E. destruct (Z.testbit a n), (Z.testbit b n); done.
Qed.
End Flags.

(** Evaluates flag tests after updates of distinct flags. *)
Ltac flag_simpl :=
  repeat first
    [ rewrite is_flag_set_same by discriminate
    | rewrite is_flag_unset_same
    | rewrite is_flag_set_other by reflexivity
    | rewrite is_flag_unset_other by reflexivity ].

(** ** Configuration from the environment

    [getenv] is the process environment. *)
Section Env.
Variable getenv : string -> option string.

Definition get_env_val (str : string) : bool :=
  match getenv str with
  | Some val => negb (String.eqb val "0")
  | None => false
  end.

Definition get_env_str (str defaultVal : string) : res string :=
  if get_env_val str then
    match getenv str with
    | Some val => Ok val
    | None => Fail Panic
    end
  else Ok defaultVal.

Lemma get_env_str_spec str d :
  get_env_str str d =
    Ok (match getenv str with
        | Some v => if String.eqb v "0" then d else v
        | None => d
        end).
Proof.
  unfold get_env_str, get_env_val. destruct (getenv str) as [v|]; [|done].
  by destruct (String.eqb v "0").
Qed.
End Env.

(** [init_or_incr] on a map of counters. *)
Definition init_or_incr (m : gmap Z Z) (index initValue step : Z) : gmap Z Z :=
  match m !! index with
  | None => <[index := initValue]> m
  | Some v => <[index := v + step]> m
  end.

(** ** Saturating confidence counters *)

Module Confidence.
Record t := mk {
  init : Z;
  conf : Z;
  max : Z;
  min : Z;
  initialized : bool;
  hasChanged : bool
}.

(** [Confidence()]: nothing is initialised, the value reads are garbage the
    code never uses, since every operation checks [initialized]. *)
Definition default : t := mk 0 0 0 0 false false.

Definition make (init max min : Z) : t := mk init init max min true false.

(** [operator()]: the value, converted to [uint32_t]. *)
Definition value (c : t) : Z := u32 (conf c).

Definition add (val : Z) (c : t) : res t :=
  let c := mk (init c) (conf c) (max c) (min c) (initialized c) true in
  panic_if_not (initialized c) ;;
  let conf' :=
    if max c <? conf c + val then max c
    else if conf c + val <? min c then min c
    else conf c + val in
  Ok (mk (init c) conf' (max c) (min c) (initialized c) (hasChanged c)).

Definition sub (val : Z) (c : t) : res t :=
  panic_if_not (initialized c) ;; add (- val) c.

Definition is_changed (c : t) : bool := hasChanged c.

(** The counter is usable and its value lies in its range of 32-bit bounds. *)
Record wf (c : t) : Prop := {
  wf_init : initialized c = true;
  wf_range : min c <= conf c <= max c;
  wf_bounds : is_u32 (min c) /\ is_u32 (max c)
}.

Lemma make_wf i mx mn : mn <= i <= mx -> is_u32 mn -> is_u32 mx -> wf (make i mx mn).
Proof. split; cbn; auto. Qed.

Lemma value_wf c : wf c -> value c = conf c.
Proof. intros [_ ? [? ?]]. unfold value. apply u32_id. unfold is_u32 in *. lia. Qed.

(** Functional behaviour: the sum clamped to the range. *)
Lemma saturating_add_ok val c :
  wf c ->
  exists c', add val c = Ok c' /\ wf c' /\
    conf c' = Z.max (min c) (Z.min (max c) (conf c + val)) /\
    min c' = min c /\ max c' = max c /\ hasChanged c' = true.
Proof.
  intros [Hi Hr Hb]. unfold add. cbn. rewrite Hi. cbn. eexists. split; [done|].
  destruct (Z.ltb_spec (max c) (conf c + val)), (Z.ltb_spec (conf c + val) (min c));
    unfold is_u32 in *; repeat split; cbn; try tauto; lia.
Qed.

Lemma sub_spec val c :
  wf c ->
  exists c', sub val c = Ok c' /\ wf c' /\
    conf c' = Z.max (min c) (Z.min (max c) (conf c - val)) /\
    min c' = min c /\ max c' = max c /\ hasChanged c' = true.
Proof.
  intros Hwf. unfold sub. rewrite (wf_init _ Hwf). cbn.
  apply (saturating_add_ok (- val)) in Hwf. replace (conf c - val) with (conf c + - val) by lia. done.
Qed.

Lemma add_uninitialized val c : initialized c = false -> add val c = Fail Panic.
Proof. intros Hi. unfold add. cbn. by rewrite Hi. Qed.
End Confidence.
