(* ===== verification/PageTable.v ===== *)
(** * Packets and the emulated page table

    Models the part of [mem/packet.hh] and [mem/request.hh] the predictor reads,
    [is_vaddr_clwb] of [mem/predictor/Common.hh], and [class EmulationPageTable]
    of [mem/page_table.hh]/[page_table.cc], which turns the virtual addresses the
    frontend predicts into the physical addresses the backend matches. *)

From S2P Require Import Prelude Common.

(** ** Packets

    [Packet] with its [Request].  The optional fields carry the request's
    [VALID_VADDR], [VALID_PADDR] and [VALID_PC] flags; [data] is the payload seen
    as an array of [DataChunk]s, absent when no data is attached. *)
Module Packet.
Record t := mk {
  isWrite : bool;
  isRead : bool;
  hasData : bool;
  needsResponse : bool;
  cacheResponding : bool;
  isToPOC : bool;
  size : Z;
  reqSize : Z;
  addr : Z;
  vaddr : option Z;
  paddr : option Z;
  pc : option Z;
  data : option (list Z);
  headerDelay : Z;
  payloadDelay : Z;
  isCounterPacket : bool;
  isCounterCacheEviction : bool;
  isVerificationPacket : bool;
  isVerificationCacheEviction : bool;
  counterCacheHit : bool;
  verificationCacheHit : bool;
  verificationCacheMisses : Z
}.

Definition valid {A} (o : option A) : res A :=
  match o with
  | Some a => Ok a
  | None => Fail AssertFailure
  end.

Definition hasVaddr (p : t) : bool := bool_decide (is_Some (vaddr p)).
Definition getVaddr (p : t) : res Z := valid (vaddr p).
Definition hasPaddr (p : t) : bool := bool_decide (is_Some (paddr p)).
Definition getPaddr (p : t) : res Z := valid (paddr p).
Definition hasPC (p : t) : bool := bool_decide (is_Some (pc p)).
Definition getPC (p : t) : res Z := valid (pc p).
(** [getPtr<DataChunk>()] *)
Definition getPtr (p : t) : res (list Z) := valid (data p).

(** A plain store, for evaluating the model. *)
Definition store (v p c : Z) (words : list Z) : t :=
  let n := 4 * Z.of_nat (length words) in
  mk true false true true false false n n p (Some v) (Some p) (Some c) (Some words)
    0 0 false false false false false false 0.
End Packet.

Lemma valid_ok {A} (o : option A) a : Packet.valid o = Ok a <-> o = Some a.
Proof. destruct o; cbn; naive_solver. Qed.

(** A cache-line write back of a persistent line, as the frontend recognises it. *)
Definition is_vaddr_clwb (pkt : Packet.t) : res bool :=
  if Packet.isToPOC pkt && negb (Packet.hasData pkt) && (Packet.size pkt =? 1) then
    v ← Packet.getVaddr pkt; Ok (is_vaddr_pm v)
  else Ok false.

(** ** Page table *)
Module PageTable.
Record entry := mkEntry { epaddr : Z; eflags : Z }.

Record t := mk { pTable : gmap Z entry; pageSize : Z }.

Definition Clobber : Z := 1.

(** [offsetMask(mask(floorLog2(_pageSize)))] *)
Definition offsetMask (pt : t) : Z := Z.ones (Z.log2 (pageSize pt)).
Definition pageAlign (pt : t) (a : Z) : Z := Z.land a (Z.lnot (offsetMask pt)).
Definition pageOffset (pt : t) (a : Z) : Z := Z.land a (offsetMask pt).

Definition with_pTable (m : gmap Z entry) (pt : t) : t := mk m (pageSize pt).

(** The pages that [size] bytes from the start of a page reach into: the fuel of
    the loops.  [size] and [offset] have 64 bits and a sign; the page size has 64
    bits and no sign, so that their sums and differences wrap around. *)
Definition pages (pt : t) (size : Z) : nat := Z.to_nat ((size + pageSize pt - 1) / pageSize pt).

(** The [while (size > 0)] loop of [map]. *)
Fixpoint map_loop (fuel : nat) (vaddr paddr size flags : Z) (pt : t) : res t :=
  if 0 <? size then
    match fuel with
    | O => Fail OutOfFuel
    | S fuel =>
        (match pTable pt !! vaddr with
         | Some _ => panic_if (negb (is_flag_set flags Clobber))
         | None => Ok tt
         end) ;;
        map_loop fuel (u64 (vaddr + pageSize pt)) (u64 (paddr + pageSize pt))
          (i64 (size - pageSize pt)) flags
          (with_pTable (<[vaddr := mkEntry paddr flags]> (pTable pt)) pt)
    end
  else Ok pt.

Definition map_ (vaddr paddr size flags : Z) (pt : t) : res t :=
  assert_that (pageOffset pt vaddr =? 0) ;;
  map_loop (pages pt size) vaddr paddr size flags pt.

Fixpoint remap_loop (fuel : nat) (vaddr size new_vaddr : Z) (pt : t) : res t :=
  if 0 <? size then
    match fuel with
    | O => Fail OutOfFuel
    | S fuel =>
        match pTable pt !! vaddr, pTable pt !! new_vaddr with
        | Some e, None =>
            remap_loop fuel (u64 (vaddr + pageSize pt)) (i64 (size - pageSize pt))
              (u64 (new_vaddr + pageSize pt))
              (with_pTable (delete vaddr (<[new_vaddr := e]> (pTable pt))) pt)
        | _, _ => Fail AssertFailure
        end
    end
  else Ok pt.

Definition remap (vaddr size new_vaddr : Z) (pt : t) : res t :=
  assert_that (pageOffset pt vaddr =? 0) ;;
  assert_that (pageOffset pt new_vaddr =? 0) ;;
  remap_loop (pages pt size) vaddr size new_vaddr pt.

Fixpoint unmap_loop (fuel : nat) (vaddr size : Z) (pt : t) : res t :=
  if 0 <? size then
    match fuel with
    | O => Fail OutOfFuel
    | S fuel =>
        assert_that (bool_decide (is_Some (pTable pt !! vaddr))) ;;
        unmap_loop fuel (u64 (vaddr + pageSize pt)) (i64 (size - pageSize pt))
          (with_pTable (delete vaddr (pTable pt)) pt)
    end
  else Ok pt.

Definition unmap (vaddr size : Z) (pt : t) : res t :=
  assert_that (pageOffset pt vaddr =? 0) ;; unmap_loop (pages pt size) vaddr size pt.

Fixpoint isUnmapped_loop (fuel : nat) (vaddr offset size : Z) (pt : t) : res bool :=
  if offset <? size then
    match fuel with
    | O => Fail OutOfFuel
    | S fuel =>
        match pTable pt !! u64 (vaddr + offset) with
        | Some _ => Ok false
        | None => isUnmapped_loop fuel vaddr (i64 (offset + pageSize pt)) size pt
        end
    end
  else Ok true.

Definition isUnmapped (vaddr size : Z) (pt : t) : res bool :=
  assert_that (pageOffset pt vaddr =? 0) ;;
  isUnmapped_loop (pages pt size) vaddr 0 size pt.

Definition lookup_ (pt : t) (vaddr : Z) : option entry := pTable pt !! pageAlign pt vaddr.

(** [translate(vaddr, paddr)]: [Some] of the physical address, or [None] for
    the [false] that leaves [paddr] as it was. *)
Definition translate (pt : t) (vaddr : Z) : option Z :=
  match lookup_ pt vaddr with
  | None => None
  | Some e => Some (u64 (pageOffset pt vaddr + epaddr e))
  end.

(** *** Properties *)

(** The constructor asserts that the page size is a power of two. *)
Definition wf (pt : t) : Prop := exists k, 0 <= k < 64 /\ pageSize pt = 2 ^ k.

Lemma wf_pos pt : wf pt -> 1 <= pageSize pt.
Proof. intros (k & Hk & ->). pose proof (Z.pow_pos_nonneg 2 k). lia. Qed.

Lemma wf_size pt : wf pt -> 1 <= pageSize pt <= 9223372036854775808.
Proof.
  intros (k & Hk & ->). pose proof (Z.pow_pos_nonneg 2 k). split; [lia|].
  change 9223372036854775808 with (2 ^ 63). apply Z.pow_le_mono_r; lia.
Qed.

(** A round of a loop takes a page from what is left, which does not wrap. *)
Lemma size_left pt size :
  wf pt -> 0 < size < 9223372036854775808 ->
  i64 (size - pageSize pt) = size - pageSize pt /\ size - pageSize pt < 9223372036854775808.
Proof. intros Hwf%wf_size Hs. split; [apply i64_id|]; unfold is_i64; lia. Qed.

Lemma pages_enough pt size : wf pt -> size <= pageSize pt * Z.of_nat (pages pt size).
Proof.
  intros Hwf%wf_pos. unfold pages.
  pose proof (Z.div_mod (size + pageSize pt - 1) (pageSize pt)).
  pose proof (Z.mod_pos_bound (size + pageSize pt - 1) (pageSize pt)). nia.
Qed.

Lemma wf_with m pt : wf pt -> wf (with_pTable m pt).
Proof. done. Qed.

Lemma offsetMask_wf pt k : pageSize pt = 2 ^ k -> 0 <= k -> offsetMask pt = Z.ones k.
Proof. intros H Hk. unfold offsetMask. by rewrite H, Z.log2_pow2. Qed.

Lemma pageOffset_spec pt a : wf pt -> pageOffset pt a = a mod pageSize pt.
Proof.
  intros (k & Hk & E). unfold pageOffset. rewrite (offsetMask_wf pt k) by lia.
  by rewrite E, Z.land_ones by lia.
Qed.

Lemma pageAlign_spec pt a : wf pt -> pageAlign pt a = a - a mod pageSize pt.
Proof.
  intros (k & Hk & E). unfold pageAlign. rewrite (offsetMask_wf pt k) by lia.
  rewrite E, <- Z.land_ones, <- Z.ldiff_land by lia.
  pose proof (Z.sub_nocarry_ldiff a (Z.land a (Z.ones k))) as S.
  rewrite S.
  - apply Z.bits_inj'. intros n Hn. rewrite !Z.ldiff_spec, Z.land_spec.
    by destruct (Z.testbit a n), (Z.testbit (Z.ones k) n).
  - apply Z.bits_inj'. intros n Hn. rewrite Z.ldiff_spec, Z.land_spec, Z.bits_0.
    by destruct (Z.testbit a n), (Z.testbit (Z.ones k) n).
Qed.

Lemma pageAlign_mod pt a : wf pt -> pageAlign pt a mod pageSize pt = 0.
Proof.
  intros Hwf. rewrite pageAlign_spec by done. pose proof (wf_pos _ Hwf).
  rewrite Zminus_mod_idemp_r, Z.sub_diag. apply Z.mod_0_l. lia.
Qed.

(** Two page-aligned addresses are equal or at least a page apart. *)
Lemma aligned_apart ps a b : 1 <= ps -> a mod ps = 0 -> b mod ps = 0 -> a < b -> a + ps <= b.
Proof.
  intros Hp Ha%Z.mod_divide Hb%Z.mod_divide Hab; [|lia..].
  destruct Ha as [x ->], Hb as [y ->]. assert (x < y) by nia. nia.
Qed.

Definition mappable (flags vaddr size : Z) (pt : t) : Prop :=
  is_flag_set flags Clobber = true \/
  forall a, vaddr <= a < vaddr + size -> pTable pt !! a = None.

Lemma map_step_ok flags vaddr size pt :
  0 < size -> mappable flags vaddr size pt ->
  match pTable pt !! vaddr with
  | Some _ => panic_if (negb (is_flag_set flags Clobber))
  | None => Ok tt
  end = Ok tt.
Proof.
  intros Hs [->|H]; [by case_match|]. by rewrite H by lia.
Qed.

Lemma mappable_step flags vaddr paddr size pt :
  1 <= pageSize pt -> mappable flags vaddr size pt ->
  mappable flags (vaddr + pageSize pt) (size - pageSize pt)
    (with_pTable (<[vaddr := mkEntry paddr flags]> (pTable pt)) pt).
Proof.
  intros Hp [H|H]; [by left|right]. intros a Ha. cbn.
  rewrite lookup_insert_ne by lia. apply H. lia.
Qed.

Lemma map_loop_spec fuel flags vaddr paddr size pt :
  wf pt -> size <= pageSize pt * Z.of_nat fuel -> size < 9223372036854775808 ->
  (0 < size -> vaddr mod pageSize pt = 0 /\ 0 <= vaddr /\ 0 <= paddr /\
     vaddr + size <= 2 ^ 64 /\ paddr + size <= 2 ^ 64 /\ mappable flags vaddr size pt) ->
  exists pt', map_loop fuel vaddr paddr size flags pt = Ok pt' /\
    pageSize pt' = pageSize pt /\
    forall a, a mod pageSize pt = 0 ->
      pTable pt' !! a = if bool_decide (vaddr <= a < vaddr + size)
                       then Some (mkEntry (paddr + (a - vaddr)) flags) else pTable pt !! a.
Proof.
  revert vaddr paddr size pt. induction fuel as [|fuel IH]; intros v p n pt Hwf Hf Hn63 H;
    cbn [map_loop]; destruct (Z.ltb_spec 0 n) as [Hn|Hn]; try lia.
  1, 3: exists pt; repeat split; intros; rewrite bool_decide_false by lia; done.
  destruct (H Hn) as (Hv & Hv0 & Hp0 & Hv1 & Hp1 & Hm). pose proof (wf_pos _ Hwf) as Hps.
  rewrite (map_step_ok flags v n) by done. cbn [mbind res_bind].
  pose proof (mappable_step flags v p n pt Hps Hm) as Hm'.
  destruct (size_left pt n Hwf ltac:(lia)) as [-> Hl].
  set (q := with_pTable _ pt) in *.
  destruct (IH (u64 (v + pageSize pt)) (u64 (p + pageSize pt)) (n - pageSize pt) q)
    as (pt' & E & Hps' & L); [done|cbn; lia|done| |].
  - intros Hn'. cbn. change (pageSize q) with (pageSize pt) in *.
    rewrite !u64_id by (unfold is_u64; lia). repeat split; try lia; [|done].
    rewrite Z.add_mod, Hv, Z.mod_same, Z.mod_0_l by lia. done.
  - exists pt'. split; [exact E|]. split; [done|]. intros a Ha. rewrite L by done.
    unfold q. cbn. destruct (decide (a = v)) as [->|Hav].
    + rewrite (bool_decide_true (v <= v < _)) by lia. rewrite lookup_insert_eq.
      replace (p + (v - v)) with p by lia. case_bool_decide; [|done].
      rewrite !u64_id in * by (unfold is_u64; lia). lia.
    + rewrite lookup_insert_ne by done. pose proof (aligned_apart (pageSize pt) v a).
      pose proof (aligned_apart (pageSize pt) a v).
      destruct (decide (0 < n - pageSize pt)).
      * rewrite !u64_id by (unfold is_u64; lia).
        repeat case_bool_decide; try lia; [|done]. do 2 f_equal; lia.
      * rewrite !bool_decide_false; [done|lia|].
        pose proof (u64_range (v + pageSize pt)). lia.
Qed.

Lemma translate_mapped pt v e a :
  wf pt -> pTable pt !! pageAlign pt a = Some e -> epaddr e = v + pageAlign pt a ->
  is_u64 (v + a) -> translate pt a = Some (v + a).
Proof.
  intros Hwf L E Hu. unfold translate, lookup_. rewrite L, E.
  rewrite pageAlign_spec, pageOffset_spec by done. f_equal.
  rewrite u64_id; [lia|]. by replace (_ + (v + _)) with (v + a) by lia.
Qed.

(** Unmapping removes the pages of a mapped region. *)
Lemma unmap_loop_spec fuel vaddr size pt :
  wf pt -> size <= pageSize pt * Z.of_nat fuel -> size < 9223372036854775808 ->
  (0 < size -> vaddr mod pageSize pt = 0 /\ 0 <= vaddr /\ vaddr + size <= 2 ^ 64 /\
     forall a, a mod pageSize pt = 0 -> vaddr <= a < vaddr + size -> is_Some (pTable pt !! a)) ->
  exists pt', unmap_loop fuel vaddr size pt = Ok pt' /\ pageSize pt' = pageSize pt /\
    forall a, a mod pageSize pt = 0 ->
      pTable pt' !! a = if bool_decide (vaddr <= a < vaddr + size) then None else pTable pt !! a.
Proof.
  revert vaddr size pt. induction fuel as [|fuel IH]; intros v n pt Hwf Hf Hn63 H;
    cbn [unmap_loop]; destruct (Z.ltb_spec 0 n) as [Hn|Hn]; try lia.
  1, 3: exists pt; repeat split; intros; rewrite bool_decide_false by lia; done.
  destruct (H Hn) as (Hv & Hv0 & Hv1 & Hm). pose proof (wf_pos _ Hwf) as Hps.
  rewrite bool_decide_true by (apply Hm; lia). cbn [assert_that mbind res_bind].
  destruct (size_left pt n Hwf ltac:(lia)) as [-> Hl].
  set (q := with_pTable _ pt).
  destruct (IH (u64 (v + pageSize pt)) (n - pageSize pt) q) as (pt' & E & Hps' & L); [done|cbn; lia|done| |].
  - intros Hn'. change (pageSize q) with (pageSize pt). rewrite u64_id by (unfold is_u64; lia).
    split; [rewrite Z.add_mod, Hv, Z.mod_same, Z.mod_0_l by lia; done|]. split; [lia|]. split; [lia|].
    intros a Ha Hr. cbn. rewrite lookup_delete_ne by lia. apply Hm; [done|lia].
  - exists pt'. split; [exact E|]. split; [done|]. intros a Ha. rewrite L by done. unfold q. cbn.
    rewrite lookup_delete. pose proof (aligned_apart (pageSize pt) v a).
    destruct (decide (0 < n - pageSize pt)).
    + rewrite u64_id by (unfold is_u64; lia). repeat case_bool_decide; repeat case_decide; done || lia.
    + pose proof (u64_range (v + pageSize pt)).
      repeat case_bool_decide; repeat case_decide; done || lia.
Qed.

(** The pages of a region and those of an address around it. *)
Lemma page_in_region pt vaddr size a :
  wf pt -> vaddr mod pageSize pt = 0 -> vaddr <= a < vaddr + size ->
  vaddr <= pageAlign pt a < vaddr + size.
Proof.
  intros Hwf Hv Hr. pose proof (wf_pos _ Hwf) as Hp. rewrite pageAlign_spec by done.
  pose proof (Z.mod_pos_bound a (pageSize pt)). split; [|lia].
  destruct (Z.le_gt_cases vaddr (a - a mod pageSize pt)) as [?|Hlt]; [done|].
  rewrite <- pageAlign_spec in Hlt |- * by done.
  pose proof (aligned_apart (pageSize pt) _ vaddr Hp (pageAlign_mod pt a Hwf) Hv Hlt) as Hap.
  rewrite pageAlign_spec in Hap by done. lia.
Qed.

Lemma page_outside pt vaddr size a :
  wf pt -> a < vaddr \/ vaddr + size + pageSize pt <= a -> ~ (vaddr <= pageAlign pt a < vaddr + size).
Proof.
  intros Hwf Hr. pose proof (wf_pos _ Hwf). rewrite pageAlign_spec by done.
  pose proof (Z.mod_pos_bound a (pageSize pt)). lia.
Qed.

Lemma translate_page pt pt' a :
  wf pt -> pageSize pt' = pageSize pt -> pTable pt' !! pageAlign pt a = pTable pt !! pageAlign pt a ->
  translate pt' a = translate pt a.
Proof.
  intros Hwf Hps L. assert (wf pt') as Hwf' by (unfold wf in *; by rewrite Hps).
  unfold translate, lookup_. rewrite !pageAlign_spec in * by done. rewrite Hps, L.
  by rewrite !pageOffset_spec, Hps by done.
Qed.

(** Mapping a page-aligned region succeeds whenever the region is free
    or the mapping may clobber, and afterwards every address of the region
    translates to the physical address at the same distance from the region's
    start, while addresses of other pages translate as before.  Unmapping the
    region then succeeds too; no address of the region translates any more, and
    the others still as before. *)
Theorem map_translate pt vaddr paddr size flags :
  wf pt -> vaddr mod pageSize pt = 0 -> 0 <= vaddr -> 0 <= paddr ->
  size < 9223372036854775808 -> vaddr + size <= 2 ^ 64 -> paddr + size <= 2 ^ 64 ->
  mappable flags vaddr size pt ->
  exists pt' pt'', map_ vaddr paddr size flags pt = Ok pt' /\
    (forall a, vaddr <= a < vaddr + size -> translate pt' a = Some (paddr + (a - vaddr))) /\
    (forall a, a < vaddr \/ vaddr + size + pageSize pt <= a -> translate pt' a = translate pt a) /\
    unmap vaddr size pt' = Ok pt'' /\
    (forall a, vaddr <= a < vaddr + size -> translate pt'' a = None) /\
    (forall a, a < vaddr \/ vaddr + size + pageSize pt <= a -> translate pt'' a = translate pt a).
Proof.
  intros Hwf Hv Hv0 Hp0 Hs Hv1 Hp1 Hm. unfold map_. rewrite pageOffset_spec, Hv by done.
  cbn [Z.eqb assert_that mbind res_bind].
  destruct (map_loop_spec (pages pt size) flags vaddr paddr size pt) as (pt' & E & Hps & L);
    [done|by apply pages_enough|done|done|].
  assert (wf pt') as Hwf' by (unfold wf in *; by rewrite Hps).
  destruct (unmap_loop_spec (pages pt' size) vaddr size pt') as (pt'' & E' & Hps' & L');
    [done|by apply pages_enough|done| |].
  { intros Hs'. rewrite Hps. split; [done|]. split; [done|]. split; [done|].
    intros a Ha Hr. rewrite L, bool_decide_true by done. by eexists. }
  rewrite Hps in L'. assert (forall a, pageAlign pt' a = pageAlign pt a) as Ha'
    by (intros a; by rewrite !pageAlign_spec, Hps by done).
  assert (forall a, pageAlign pt'' a = pageAlign pt a) as Ha''
    by (intros a; rewrite !pageAlign_spec, Hps', Hps by (done || unfold wf in *; by rewrite Hps'); done).
  exists pt', pt''. split; [exact E|]. split; [|split; [|split; [|split]]].
  - intros a Hr. replace (paddr + (a - vaddr)) with (paddr - vaddr + a) by lia.
    eapply translate_mapped; [done| | |unfold is_u64; lia].
    + rewrite Ha', L by (by apply pageAlign_mod).
      rewrite bool_decide_true by (by apply page_in_region). done.
    + cbn. rewrite Ha'. lia.
  - intros a Hr. apply translate_page; [done|done|]. rewrite L by (by apply pageAlign_mod).
    by rewrite bool_decide_false by (by apply page_outside).
  - unfold unmap. rewrite pageOffset_spec, Hps, Hv by done. exact E'.
  - intros a Hr. unfold translate, lookup_. rewrite Ha'', L' by (by apply pageAlign_mod).
    by rewrite bool_decide_true by (by apply page_in_region).
  - intros a Hr. apply translate_page; [done|by rewrite Hps'|].
    rewrite L' by (by apply pageAlign_mod). rewrite bool_decide_false by (by apply page_outside).
    rewrite L by (by apply pageAlign_mod). by rewrite bool_decide_false by (by apply page_outside).
Qed.

(** A page starts at multiples of the page size, which divides 2^63. *)
Lemma wf_divides pt k : wf pt -> (k * 9223372036854775808) mod pageSize pt = 0.
Proof.
  intros (i & Hi & ->). apply Z.mod_divide; [pose proof (Z.pow_pos_nonneg 2 i); lia|].
  apply Z.divide_mul_r. change 9223372036854775808 with (2 ^ 63).
  exists (2 ^ (63 - i)). rewrite <- Z.pow_add_r by lia. f_equal. lia.
Qed.

Lemma aligned_shift pt a k :
  wf pt -> a mod pageSize pt = 0 -> (a + k * 9223372036854775808) mod pageSize pt = 0.
Proof.
  intros Hwf Ha. pose proof (wf_pos _ Hwf).
  rewrite Z.add_mod, Ha, wf_divides, Z.mod_0_l by (done || lia). done.
Qed.

(** The three loops that count a size down. *)
Lemma size_loops_end fuel vaddr other size flags pt :
  wf pt -> size <= pageSize pt * Z.of_nat fuel -> size < 9223372036854775808 ->
  map_loop fuel vaddr other size flags pt <> Fail OutOfFuel /\
  remap_loop fuel vaddr size other pt <> Fail OutOfFuel /\
  unmap_loop fuel vaddr size pt <> Fail OutOfFuel.
Proof.
  revert vaddr other size pt. induction fuel as [|fuel IH]; intros v o n q Hwf Hf Hn;
    cbn [map_loop remap_loop unmap_loop]; (destruct (Z.ltb_spec 0 n); [|done]); [lia|].
  destruct (size_left q n Hwf ltac:(lia)) as [-> Hl].
  assert (forall m, n - pageSize q <= pageSize (with_pTable m q) * Z.of_nat fuel) as Hf'
    by (intros m; cbn; lia).
  split; [|split].
  - destruct (match pTable q !! v with Some _ => _ | None => _ end) eqn:E; cbn [mbind res_bind];
      [by apply IH|]. unfold panic_if in E. intros [= ->]. repeat case_match; done.
  - destruct (pTable q !! v), (pTable q !! o); try done. by apply IH.
  - unfold assert_that. case_match; [|done]. cbn [mbind res_bind]. by apply (IH _ 0).
Qed.

Lemma isUnmapped_loop_ends fuel vaddr offset size pt :
  wf pt -> size - offset <= pageSize pt * Z.of_nat fuel -> 0 <= offset ->
  size + pageSize pt <= 9223372036854775808 ->
  isUnmapped_loop fuel vaddr offset size pt <> Fail OutOfFuel.
Proof.
  intros Hwf. pose proof (wf_pos _ Hwf). revert offset.
  induction fuel as [|fuel IH]; intros o Hf Ho Hs; cbn [isUnmapped_loop];
    (destruct (Z.ltb_spec o size); [|done]); [lia|]. case_match; [done|].
  rewrite i64_id by (unfold is_i64; lia). apply IH; lia.
Qed.

(** The offset never reaches a size within a page of 2^63: it wraps first. *)
Lemma isUnmapped_loop_wraps fuel vaddr offset size pt :
  wf pt -> is_i64 offset -> offset mod pageSize pt = 0 -> vaddr mod pageSize pt = 0 ->
  9223372036854775808 < size + pageSize pt ->
  (forall a, a mod pageSize pt = 0 -> pTable pt !! a = None) ->
  isUnmapped_loop fuel vaddr offset size pt = Fail OutOfFuel.
Proof.
  intros Hwf Ho Hm Hv Hs Hfree. pose proof (wf_pos _ Hwf) as Hp.
  revert offset Ho Hm. induction fuel as [|fuel IH]; intros o Ho Hm; cbn [isUnmapped_loop].
  all: pose proof (aligned_apart (pageSize pt) o 9223372036854775808 Hp Hm) as Ha.
  all: pose proof (wf_divides pt 1 Hwf) as Hd; rewrite Z.mul_1_l in Hd.
  all: unfold is_i64 in Ho; (destruct (Z.ltb_spec o size); [|lia]).
  { done. }
  rewrite Hfree.
  - apply IH; [apply i64_range|]. destruct (i64_shift (o + pageSize pt)) as [k ->].
    replace (o + _ + _) with (o + pageSize pt + (2 * k) * 9223372036854775808) by lia.
    apply aligned_shift; [done|]. by rewrite Z.add_mod, Hm, Z.mod_same, Z.mod_0_l by lia.
  - unfold u64. rewrite (Z.mod_eq (vaddr + o)) by lia.
    generalize ((vaddr + o) / 18446744073709551616). intros k.
    replace (vaddr + o - _) with (vaddr + o + (-2 * k) * 9223372036854775808) by lia.
    apply aligned_shift; [done|]. by rewrite Z.add_mod, Hm, Hv, Z.mod_0_l by lia.
Qed.

(** C40: the loops over the pages of a region, whose size is a signed 64-bit
    number.  For every alignment, every content of the table and every page size
    that is a power of two, [map], [remap] and [unmap] need no more rounds than the
    region has pages.  So does [isUnmapped] as long as the size is at least a page
    below 2^63.  Above that its signed offset wraps around before it reaches the
    size, and when no page is mapped the loop runs forever. *)
Theorem page_table_loops_end pt vaddr other size flags :
  wf pt -> is_i64 size ->
  map_ vaddr other size flags pt <> Fail OutOfFuel /\ remap vaddr size other pt <> Fail OutOfFuel /\
  unmap vaddr size pt <> Fail OutOfFuel /\
  (size + pageSize pt <= 2 ^ 63 -> isUnmapped vaddr size pt <> Fail OutOfFuel) /\
  (2 ^ 63 < size + pageSize pt -> vaddr mod pageSize pt = 0 ->
   (forall a, a mod pageSize pt = 0 -> pTable pt !! a = None) ->
   forall fuel, isUnmapped_loop fuel vaddr 0 size pt = Fail OutOfFuel).
Proof.
  intros Hwf Hs. change (2 ^ 63) with 9223372036854775808. unfold is_i64 in Hs.
  destruct (size_loops_end (pages pt size) vaddr other size flags pt) as (H1 & H2 & H3);
    [done|by apply pages_enough|lia|].
  unfold map_, remap, unmap, isUnmapped, assert_that. split; [|split; [|split; [|split]]].
  1, 2, 3: repeat (case_match; cbn [mbind res_bind]; try done).
  - intros Hle. case_match; cbn [mbind res_bind]; [|done]. pose proof (pages_enough pt size Hwf).
    apply isUnmapped_loop_ends; [done|lia..].
  - intros Hlt Hv Hfree fuel. pose proof (wf_pos _ Hwf).
    apply isUnmapped_loop_wraps; [done|unfold is_i64; lia|apply Z.mod_0_l; lia|done..].
Qed.

Lemma map_translate_witness :
  let pt := mk ∅ 4096 in
  exists pt', map_ 0x10000000000 0x200001000 8192 0 pt = Ok pt' /\
    translate pt' 0x10000001040 = Some 0x200002040 /\
    translate pt' 0x10000004000 = None.
Proof.
  intros pt.
  destruct (map_translate pt 0x10000000000 0x200001000 8192 0) as (pt' & pt'' & E & H1 & H2 & _);
    [by exists 12 | done | lia | lia | lia | lia | lia | by right |].
  exists pt'. split; [done|]. split; [rewrite H1 by lia; done|].
  rewrite H2 by (cbn; lia). done.
Defined.

Lemma page_table_loops_end_witness :
  let pt := mk ∅ 4096 in
  unmap 0x10000000000 8192 pt <> Fail OutOfFuel /\
  isUnmapped 0x10000000000 8192 pt <> Fail OutOfFuel /\
  isUnmapped_loop 1000 0x10000000000 0 (2 ^ 63 - 1) pt = Fail OutOfFuel.
Proof.
  intros pt. assert (wf pt) as Hwf by by exists 12.
  destruct (page_table_loops_end pt 0x10000000000 0 8192 0 Hwf) as (_ & _ & H3 & H4 & _);
    [unfold is_i64; lia|].
  split; [exact H3|]. split; [apply H4; cbn; lia|].
  destruct (page_table_loops_end pt 0x10000000000 0 (2 ^ 63 - 1) 0 Hwf) as (_ & _ & _ & _ & H5);
    [unfold is_i64; lia|].
  apply H5; [cbn; lia|done|]. intros a _. apply lookup_empty.
Defined.
End PageTable.
