(* ===== verification/Chunk.v ===== *)
(** * Chunks: one address or one 32-bit word of a predicted write

    Models [class ChunkInfo] of [mem/predictor/ChunkInfo.hh]: a tagged cell with
    a flag word that records which of its fields hold a value.  Accessors of a
    field that holds none panic, as in the code. *)

From S2P Require Import Prelude Common.

Module ChunkInfo.
Inductive ChunkType : Type :=
| ADDR
| DATA
| INVALID
| MAX.

#[global] Instance ChunkType_eq_dec : EqDecision ChunkType.
Proof. solve_decision. Defined.

Definition type_eqb (a b : ChunkType) : bool := bool_decide (a = b).

(** [enum Flags] *)
Definition HAS_GEN_PC : Z := Z.shiftl 1 1.
Definition HAS_DATA_FIELD_OFF : Z := Z.shiftl 1 2.
Definition HAS_OWNER_KEY : Z := Z.shiftl 1 4.
Definition HAS_TIME_OF_GEN : Z := Z.shiftl 1 5.
Definition CONST_0_PREDICTION : Z := Z.shiftl 1 6.
Definition HAS_DATA : Z := Z.shiftl 1 7.
Definition IS_FREE_PREDICTION : Z := Z.shiftl 1 8.
Definition CONSTANT_PREDICTION : Z := Z.shiftl 1 9.
Definition HAS_GEN_PC_IN_TICK : Z := Z.shiftl 1 11.
Definition WHB_SEARCH : Z := Z.shiftl 1 12.

(** The union [Content] is a 64-bit cell: [targetAddr] is the whole cell,
    [data] its low 32 bits (little-endian host).  Members a constructor leaves
    uninitialised are 0 here: [has_*] guards every read of them. *)
Record t := mk {
  generatingPC : Z;
  genPCTimeOfInsertion : Z;
  dataFieldOffset : Z;
  isComplete : bool;
  chunkType : ChunkType;
  content : Z;
  owner_key : Z;
  flags : Z;
  timeOfGen : Z
}.

(** Field updates. *)
Definition with_generatingPC v c := mk v (genPCTimeOfInsertion c) (dataFieldOffset c)
  (isComplete c) (chunkType c) (content c) (owner_key c) (flags c) (timeOfGen c).
Definition with_genPCTick v c := mk (generatingPC c) v (dataFieldOffset c)
  (isComplete c) (chunkType c) (content c) (owner_key c) (flags c) (timeOfGen c).
Definition with_dataFieldOffset v c := mk (generatingPC c) (genPCTimeOfInsertion c) v
  (isComplete c) (chunkType c) (content c) (owner_key c) (flags c) (timeOfGen c).
Definition with_isComplete v c := mk (generatingPC c) (genPCTimeOfInsertion c)
  (dataFieldOffset c) v (chunkType c) (content c) (owner_key c) (flags c) (timeOfGen c).
Definition with_chunkType v c := mk (generatingPC c) (genPCTimeOfInsertion c)
  (dataFieldOffset c) (isComplete c) v (content c) (owner_key c) (flags c) (timeOfGen c).
Definition with_content v c := mk (generatingPC c) (genPCTimeOfInsertion c)
  (dataFieldOffset c) (isComplete c) (chunkType c) v (owner_key c) (flags c) (timeOfGen c).
Definition with_owner_key v c := mk (generatingPC c) (genPCTimeOfInsertion c)
  (dataFieldOffset c) (isComplete c) (chunkType c) (content c) v (flags c) (timeOfGen c).
Definition with_flags v c := mk (generatingPC c) (genPCTimeOfInsertion c)
  (dataFieldOffset c) (isComplete c) (chunkType c) (content c) (owner_key c) v (timeOfGen c).
Definition with_timeOfGen v c := mk (generatingPC c) (genPCTimeOfInsertion c)
  (dataFieldOffset c) (isComplete c) (chunkType c) (content c) (owner_key c) (flags c) v.

Definition raise (flag : Z) (c : t) : t := with_flags (set_flag (flags c) flag) c.
Definition has (flag : Z) (c : t) : bool := is_flag_set (flags c) flag.

(** ** Constructors *)

(** [ChunkInfo()] *)
Definition new : t := mk 0 0 0 false INVALID 0 0 0 0.

(** [ChunkInfo(generatingPC, dataFieldOffset, isComplete, chunkType)] *)
Definition make (gpc off : Z) (complete : bool) (ty : ChunkType) : res t :=
  panic_if (off =? 24) ;;
  let c := mk gpc 0 off complete ty 0 0 0 0 in
  let c := if gpc =? 0 then c else raise HAS_GEN_PC c in
  let c := if off =? UINT64_MAX then c else raise HAS_DATA_FIELD_OFF c in
  Ok c.

(** ** Accessors *)

Definition has_generating_pc : t -> bool := has HAS_GEN_PC.
Definition get_generating_pc (c : t) : res Z :=
  panic_if_not (has_generating_pc c) ;; Ok (generatingPC c).
Definition set_generating_pc (pc : Z) (c : t) : t :=
  with_generatingPC pc (raise HAS_GEN_PC c).

Definition set_gen_pc_in_tick (tick : Z) (c : t) : t :=
  with_genPCTick tick (raise HAS_GEN_PC_IN_TICK c).
Definition get_gen_pc_in_tick (c : t) : res Z :=
  panic_if_not (has HAS_GEN_PC_IN_TICK c) ;; Ok (genPCTimeOfInsertion c).

Definition has_owner_key : t -> bool := has HAS_OWNER_KEY.
Definition get_owner_key (c : t) : res Z :=
  panic_if_not (has_owner_key c) ;; Ok (owner_key c).
Definition set_owner_key (key : Z) (c : t) : t := with_owner_key key (raise HAS_OWNER_KEY c).

Definition get_target_addr (c : t) : res Z :=
  panic_if_not (type_eqb (chunkType c) ADDR) ;; Ok (content c).
Definition set_target_addr (addr : Z) (c : t) : res t :=
  panic_if_not (type_eqb (chunkType c) ADDR) ;; Ok (with_content addr c).

Definition get_data (c : t) : res Z :=
  panic_if_not (has HAS_DATA c) ;;
  panic_if_not (type_eqb (chunkType c) DATA) ;;
  Ok (u32 (content c)).
Definition set_data (data : Z) (c : t) : res t :=
  let c := raise HAS_DATA c in
  panic_if_not (type_eqb (chunkType c) DATA) ;;
  Ok (with_content (content c - u32 (content c) + u32 data) c).

Definition set_time_of_gen (tick : Z) (c : t) : t :=
  with_timeOfGen tick (raise HAS_TIME_OF_GEN c).
Definition has_time_of_gen : t -> bool := has HAS_TIME_OF_GEN.
Definition get_time_of_gen (c : t) : res Z :=
  panic_if_not (has HAS_TIME_OF_GEN c) ;; Ok (timeOfGen c).

Definition has_data_field_offset : t -> bool := has HAS_DATA_FIELD_OFF.
Definition get_data_field_offset (c : t) : res Z :=
  panic_if_not (has HAS_DATA_FIELD_OFF c) ;; Ok (dataFieldOffset c).
Definition set_data_field_offset (off : Z) (c : t) : res t :=
  panic_if (off =? 24) ;;
  Ok (with_dataFieldOffset off (raise HAS_DATA_FIELD_OFF c)).

Definition is_valid (c : t) : res bool :=
  panic_if_not (negb (type_eqb (chunkType c) MAX)) ;;
  Ok (negb (type_eqb (chunkType c) INVALID)).
Definition is_invalid (c : t) : res bool := b ← is_valid c; Ok (negb b).

Definition get_completion (c : t) : bool := isComplete c.
Definition set_completion (b : bool) (c : t) : t := with_isComplete b c.
Definition get_chunk_type (c : t) : ChunkType := chunkType c.
Definition set_chunk_type (ty : ChunkType) (c : t) : t := with_chunkType ty c.

Definition is_const_0_pred : t -> bool := has CONST_0_PREDICTION.
Definition set_const_0_pred (c : t) : t := raise CONST_0_PREDICTION c.
Definition unset_const_0_pred (c : t) : t :=
  with_flags (unset_flag (flags c) CONST_0_PREDICTION) c.
Definition set_free_prediction (c : t) : t := raise IS_FREE_PREDICTION c.
Definition is_free_prediction : t -> bool := has IS_FREE_PREDICTION.
Definition is_constant_pred : t -> bool := has CONSTANT_PREDICTION.
Definition set_constant_pred (c : t) : t := raise CONSTANT_PREDICTION c.
Definition is_whb_search : t -> bool := has WHB_SEARCH.
Definition set_whb_search (c : t) : t := raise WHB_SEARCH c.

(** [clear()]: drops everything; the cell keeps the value 0 it stores. *)
Definition clear (c : t) : res t :=
  let c := with_flags 0 c in
  let c := with_isComplete false (with_generatingPC 1 (with_dataFieldOffset UINT64_MAX c)) in
  c ← set_data 0 (with_chunkType DATA c);
  Ok (with_chunkType INVALID c).

(** [valid_count(chunks, chunkCount)] *)
Definition valid_count (chunks : list t) : res Z :=
  for_each chunks (fun c n => b ← is_valid c; Ok (if b : bool then n + 1 else n)) 0.

(** ** Views

    [validb] is the test [is_valid] performs on a chunk whose tag is one of
    the three legal ones; [datum] is the word of a data chunk that was set. *)
Definition legal (c : t) : Prop := chunkType c <> MAX.
Definition validb (c : t) : bool := negb (type_eqb (chunkType c) INVALID).
Definition datab (c : t) : bool := type_eqb (chunkType c) DATA.
Definition datum (c : t) : Z := u32 (content c).
Definition readable (c : t) : Prop := datab c = true -> has HAS_DATA c = true.

(** A well-formed chunk of a cache line: invalid, or data that was written. *)
Definition line_chunk (c : t) : Prop :=
  chunkType c = INVALID \/ (chunkType c = DATA /\ has HAS_DATA c = true).

Lemma type_eqb_true a b : type_eqb a b = true <-> a = b.
Proof. apply bool_decide_eq_true. Qed.

Lemma is_valid_legal c : legal c -> is_valid c = Ok (validb c).
Proof. unfold legal, is_valid, validb. by destruct (chunkType c). Qed.

Lemma is_invalid_legal c : legal c -> is_invalid c = Ok (negb (validb c)).
Proof. intros. unfold is_invalid. by rewrite is_valid_legal. Qed.

Lemma line_chunk_legal c : line_chunk c -> legal c.
Proof. intros [H|[H _]]; unfold legal; by rewrite H. Qed.

Lemma line_chunk_valid c : line_chunk c -> validb c = datab c.
Proof. intros [H|[H _]]; unfold validb, datab; by rewrite H. Qed.

Lemma get_data_ok c : datab c = true -> has HAS_DATA c = true -> get_data c = Ok (datum c).
Proof. intros H1 H2. unfold get_data. rewrite H2. cbn. unfold datab in H1. by rewrite H1. Qed.

Lemma get_data_line c : line_chunk c -> validb c = true -> get_data c = Ok (datum c).
Proof.
  intros H Hv. rewrite line_chunk_valid in Hv by done.
  apply get_data_ok; [done|]. destruct H as [H|[_ H]]; [|done].
  unfold datab in Hv. by rewrite H in Hv.
Qed.

Lemma get_data_untyped c : datab c = false -> get_data c = Fail Panic.
Proof.
  intros H. unfold get_data. unfold datab in H. rewrite H.
  by destruct (has HAS_DATA c).
Qed.

Lemma set_data_ok d c :
  datab c = true ->
  set_data d c = Ok (with_content (content c - u32 (content c) + u32 d) (raise HAS_DATA c)).
Proof. intros H. unfold set_data. cbn. unfold datab in H. by rewrite H. Qed.

Lemma content_low a d : u32 (a - u32 a + u32 d) = u32 d.
Proof. unfold u32. Z.div_mod_to_equations; lia. Qed.

(** Writing data and reading it back gives the low 32 bits written. *)
Lemma get_set_data d c c' : set_data d c = Ok c' -> get_data c' = Ok (u32 d).
Proof.
  unfold set_data. intros H. res_inv. cbn in E.
  unfold get_data, has. cbn [flags with_content raise with_flags chunkType content].
  flag_simpl. cbn. rewrite E. cbn. by rewrite content_low.
Qed.

Lemma get_set_target_addr a c c' : set_target_addr a c = Ok c' -> get_target_addr c' = Ok a.
Proof.
  unfold set_target_addr, get_target_addr. intros H. res_inv. cbn. by rewrite E.
Qed.

Lemma clear_invalid c c' : clear c = Ok c' -> is_valid c' = Ok false.
Proof. unfold clear. intros H. res_inv. done. Qed.

Lemma new_line_chunk : line_chunk new.
Proof. by left. Qed.

(** A data chunk whose word was set is a line chunk. *)
Lemma set_data_line d c c' : set_data d c = Ok c' -> line_chunk c'.
Proof.
  unfold set_data. intros H. res_inv. right. split.
  - by apply type_eqb_true.
  - unfold has. cbn [flags with_content raise with_flags]. by flag_simpl.
Qed.

Lemma valid_count_legal chunks n :
  Forall legal chunks ->
  for_each chunks (fun c n => b ← is_valid c; Ok (if b : bool then n + 1 else n)) n =
    Ok (n + Z.of_nat (length (filter (fun c => validb c = true) chunks))).
Proof.
  intros H. revert n. induction H as [|c l Hc _ IH]; intros n; [cbn; f_equal; lia|].
  rewrite filter_cons. cbn [for_each]. rewrite is_valid_legal by done.
  destruct (validb c); cbn [mbind res_bind decide]; rewrite IH; case_decide;
    try done; cbn [length]; f_equal; lia.
Qed.
End ChunkInfo.

#[export] Hint Resolve ChunkInfo.line_chunk_legal ChunkInfo.new_line_chunk : pmweaver.
