(* ===== verification/CacheLine.v ===== *)
(** * Cache lines of chunks

    Models [class CacheLine] of [mem/predictor/CacheLine.hh]: sixteen 32-bit
    chunks, each present or absent, with the searches the predictor performs on
    the lines of the write history and the overlay of one line on another. *)

From S2P Require Import Prelude Common PageTable Chunk.

Module CacheLine.
Import ChunkInfo.

Record t := mk {
  addr : Z;
  hasAddr : bool;
  dataChunks : list ChunkInfo.t;
  timeOfCreation : Z;
  timeOfLastUpdate : Z;
  hasTimeOfLastUpdate : bool;
  isDirty : bool
}.

Definition with_addr a l := mk a true (dataChunks l) (timeOfCreation l)
  (timeOfLastUpdate l) (hasTimeOfLastUpdate l) (isDirty l).
Definition with_chunks cs l := mk (addr l) (hasAddr l) cs (timeOfCreation l)
  (timeOfLastUpdate l) (hasTimeOfLastUpdate l) (isDirty l).

Definition get_lower_32_bits (num : Z) : Z := u32 (Z.shiftr (u64 (Z.shiftl num 32)) 32).
Definition get_higher_32_bits (num : Z) : Z := u32 (Z.shiftr num 32).

(** ** Constructors; [now] is [curTick()] *)

Definition new (now : Z) : t :=
  mk 0 false (replicate DATA_CHUNK_COUNT ChunkInfo.new) now 0 false false.

(** One iteration of the loops that fill a line:
    [dataChunks[index].set_chunk_type(DATA); dataChunks[index].set_data(d)]. *)
Definition fill (index : nat) (d : Z) (cs : list ChunkInfo.t) : res (list ChunkInfo.t) :=
  panic_if (bool_decide (DATA_CHUNK_COUNT < index)%nat) ;;
  modify index (fun c => set_data d (set_chunk_type DATA c)) cs.

(** [CacheLine(addr, dataChunks, count, alignCacheline)] *)
Definition of_chunks (now a : Z) (data : list Z) (count : nat) (alignCacheline : bool) : res t :=
  panic_if (bool_decide (DATA_CHUNK_COUNT < count)%nat) ;;
  let l := with_addr a (new now) in
  let offset := if alignCacheline then chunk_index a else O in
  cs ← for_each (seq 0 count)
         (fun i cs => d ← deref (data !! i); fill (i + offset) d cs)
         (map (set_chunk_type DATA) (dataChunks l));
  Ok (with_chunks cs l).

(** [CacheLine(paddr, cacheObj)]: [block] is the data of the valid block
    [findBlock] returns, [fresh] the contents of the [new DataChunk[16]] used
    when there is none. *)
Definition of_cache (now paddr : Z) (block : option (list Z)) (fresh : list Z) : res t :=
  let cacheData := match block with Some d => d | None => fresh end in
  let l := with_addr paddr (new now) in
  cs ← for_each (seq 0 DATA_CHUNK_COUNT)
         (fun i cs => d ← deref (cacheData !! i); fill i d cs)
         (map (set_chunk_type DATA) (dataChunks l));
  Ok (with_chunks cs l).

(** [CacheLine(pkt, useVaddr)]: the object keeps no address. *)
Definition of_packet (now : Z) (pkt : Packet.t) (useVaddr : bool) : res t :=
  a ← (if useVaddr then Packet.getVaddr pkt else Packet.getPaddr pkt);
  let chunkCount := Packet.size pkt / SIZEOF_DATACHUNK in
  panic_if (bool_decide (Z.of_nat DATA_CHUNK_COUNT < chunkCount)) ;;
  let offset := chunk_index a in
  pktData ← Packet.getPtr pkt;
  let l := new now in
  cs ← for_each (seq 0 (Z.to_nat chunkCount))
         (fun i cs => d ← deref (pktData !! i); fill (i + offset) d cs) (dataChunks l);
  Ok (with_chunks cs l).

(** ** Searches *)

(** The test of one iteration of [get_addr_offset]. *)
Definition addr_at (l : t) (addrHigh addrLow : Z) (i : nat) : res bool :=
  c ← deref (dataChunks l !! i);
  c' ← deref (dataChunks l !! S i);
  if type_eqb (get_chunk_type c) DATA && type_eqb (get_chunk_type c') DATA then
    d ← get_data c;
    if u32 (cacheline_align d) =? addrHigh then d' ← get_data c'; Ok (d' =? addrLow)
    else Ok false
  else Ok false.

Definition int_result (o : option nat) : Z :=
  match o with
  | Some i => Z.of_nat i
  | None => -1
  end.

Definition get_addr_offset (l : t) (a : Z) (reverseHalfWords : bool) : res Z :=
  let alignedAddr := cacheline_align a in
  let addrLow := get_lower_32_bits alignedAddr in
  let addrHigh := get_higher_32_bits alignedAddr in
  let '(addrLow, addrHigh) :=
    if reverseHalfWords then
      let addrLow := Z.lxor addrLow addrHigh in
      let addrHigh := Z.lxor addrLow addrHigh in
      let addrLow := Z.lxor addrLow addrHigh in
      (addrLow, addrHigh)
    else (addrLow, addrHigh) in
  r ← search (seq 0 (DATA_CHUNK_COUNT - 1)) (addr_at l addrHigh addrLow);
  Ok (int_result r).

Definition get_data_offset (l : t) (d : Z) : res Z :=
  r ← search (seq 0 DATA_CHUNK_COUNT)
        (fun i => c ← deref (dataChunks l !! i);
           if type_eqb (get_chunk_type c) DATA then x ← get_data c; Ok (x =? d)
           else Ok false);
  Ok (int_result r).

Definition are_all_complete (l : t) : bool := forallb get_completion (dataChunks l).

Definition set_addr (a : Z) (l : t) : t := with_addr a l.
Definition get_addr (l : t) : res Z := assert_that (hasAddr l) ;; Ok (addr l).

Definition all_invalid (l : t) : res bool :=
  for_each (dataChunks l) (fun c r => v ← is_valid c; Ok (if v : bool then false else r)) true.

Definition find_first_valid_index (l : t) : res Z :=
  r ← search (seq 0 DATA_CHUNK_COUNT) (fun i => c ← deref (dataChunks l !! i); is_valid c);
  Ok (match r with Some i => Z.of_nat i | None => UINT64_MAX end).

Definition clear (l : t) : res t :=
  cs ← for_each (dataChunks l) (fun c acc => c' ← ChunkInfo.clear c; Ok (acc ++ [c'])) [];
  Ok (with_chunks cs l).

Definition get_time_of_gen (l : t) : res Z :=
  r ← for_each (dataChunks l)
        (fun c r =>
           v ← is_valid c;
           if v && has_time_of_gen c then
             g ← ChunkInfo.get_time_of_gen c; Ok (if r <? g then g else r)
           else Ok r) 0;
  panic_if (r =? 0) ;; Ok r.

Definition all_zeros (l : t) : res bool :=
  r ← search (dataChunks l)
        (fun c => v ← is_valid c;
           if v : bool then d ← get_data c; Ok (negb (d =? 0)) else Ok false);
  Ok (match r with Some _ => false | None => true end).

(** [operator<<] of a line: the text is not modelled, the checks are. *)
Definition print (l : t) : res unit :=
  for_each (dataChunks l)
    (fun c _ =>
       v ← is_valid c;
       panic_if (v && negb (type_eqb (get_chunk_type c) DATA)) ;;
       if type_eqb (get_chunk_type c) DATA then _ ← get_data c; Ok tt else Ok tt) tt.

Definition get_time_of_creation (l : t) : Z := timeOfCreation l.
Definition set_time_of_creation (tick : Z) (l : t) : t := mk (addr l) (hasAddr l)
  (dataChunks l) tick (timeOfLastUpdate l) (hasTimeOfLastUpdate l) (isDirty l).
Definition get_time_of_last_update (l : t) : res Z :=
  panic_if_not (hasTimeOfLastUpdate l) ;; Ok (timeOfLastUpdate l).
Definition set_time_of_last_update (tick : Z) (l : t) : t := mk (addr l) (hasAddr l)
  (dataChunks l) (timeOfCreation l) tick true (isDirty l).

(** ** Overlay *)

(** One iteration of the loop shared by [overwriteFrom] and [overwriteTo]:
    the chunk [src[i]] replaces [dest[i]] when it is valid. *)
Definition overwrite_chunk (src : list ChunkInfo.t) (i : nat)
    (s : list ChunkInfo.t * Z) : res (list ChunkInfo.t * Z) :=
  let '(dest, replaceCounter) := s in
  sc ← deref (src !! i);
  v ← is_valid sc;
  if v : bool then
    dc ← deref (dest !! i);
    inv ← is_invalid dc;
    changed ← (if inv : bool then Ok true
               else a ← get_data dc; b ← get_data sc; Ok (negb (a =? b)));
    Ok (<[i := sc]> dest, if changed : bool then replaceCounter + 1 else replaceCounter)
  else Ok (dest, replaceCounter).

Definition overwriteFrom (srcCacheline : t) (l : t) : res (t * Z) :=
  '(dest, n) ← for_each (seq 0 DATA_CHUNK_COUNT) (overwrite_chunk (dataChunks srcCacheline))
                 (dataChunks l, 0);
  Ok (with_chunks dest l, n).

(** [overwriteTo(destCacheline)]: the argument is a copy, so only [*this]
    changes; it becomes the overlaid destination. *)
Definition overwriteTo (destCacheline : t) (l : t) : res (t * Z) :=
  '(dest, n) ← for_each (seq 0 DATA_CHUNK_COUNT) (overwrite_chunk (dataChunks l))
                 (dataChunks destCacheline, 0);
  Ok (with_chunks dest l, n).

Definition is_dirty (l : t) : bool := isDirty l.
Definition set_dirtiness (b : bool) (l : t) : t := mk (addr l) (hasAddr l)
  (dataChunks l) (timeOfCreation l) (timeOfLastUpdate l) (hasTimeOfLastUpdate l) b.
Definition set_dirty (l : t) : t := set_dirtiness true l.
Definition set_clean (l : t) : t := set_dirtiness false l.

Definition invalid_chunk_count (l : t) : res Z :=
  for_each (dataChunks l) (fun c n => b ← is_invalid c; Ok (if b : bool then n + 1 else n)) 0.
Definition valid_chunk_count (l : t) : res Z :=
  n ← invalid_chunk_count l; Ok (Z.of_nat DATA_CHUNK_COUNT - n).

(** ** Specification

    A line abstracts to the words it holds: [view cs i] is the word at index
    [i], if any. *)
Definition view (cs : list ChunkInfo.t) (i : nat) : option Z :=
  match cs !! i with
  | Some c => if validb c then Some (datum c) else None
  | None => None
  end.

Record wf_chunks (cs : list ChunkInfo.t) : Prop := {
  wf_length : length cs = DATA_CHUNK_COUNT;
  wf_line : Forall line_chunk cs
}.

Definition wf (l : t) : Prop := wf_chunks (dataChunks l).

Lemma wf_lookup cs i :
  wf_chunks cs -> (i < DATA_CHUNK_COUNT)%nat ->
  exists c, cs !! i = Some c /\ line_chunk c.
Proof.
  intros [Hl Hf] Hi. destruct (cs !! i) as [c|] eqn:E.
  - exists c. split; [done|]. by eapply Forall_lookup_1.
  - apply lookup_ge_None in E. lia.
Qed.

Lemma wf_legal cs : wf_chunks cs -> Forall legal cs.
Proof. intros [_ H]. eapply Forall_impl; [exact H|]. apply line_chunk_legal. Qed.

Lemma view_data cs i c :
  cs !! i = Some c -> line_chunk c ->
  view cs i = if datab c then Some (datum c) else None.
Proof. intros H Hc. unfold view. by rewrite H, line_chunk_valid. Qed.

Lemma view_range cs i d : view cs i = Some d -> is_u32 d.
Proof.
  unfold view. repeat case_match; try done. intros [= <-]. apply u32_range.
Qed.

Lemma view_bound cs i d : wf_chunks cs -> view cs i = Some d -> (i < DATA_CHUNK_COUNT)%nat.
Proof.
  intros [Hl _]. unfold view. case_match eqn:E; [|done]. intros _.
  apply lookup_lt_Some in E. lia.
Qed.

Lemma line_new_wf now : wf (new now).
Proof.
  split; [done|]. apply Forall_replicate. apply new_line_chunk.
Qed.

Lemma new_view now i : view (dataChunks (new now)) i = None.
Proof.
  unfold view, new. cbn [dataChunks]. destruct (replicate _ _ !! i) eqn:R; [|done].
  by apply lookup_replicate in R as [-> _].
Qed.

(** *** Addresses as pairs of words *)

Lemma lower_spec n : is_u64 n -> get_lower_32_bits n = n mod 2 ^ 32.
Proof.
  intros H. unfold get_lower_32_bits, u32, u64.
  rewrite Z.shiftl_mul_pow2, Z.shiftr_div_pow2 by lia. Z.div_mod_to_equations; lia.
Qed.

Lemma higher_spec n : is_u64 n -> get_higher_32_bits n = n / 2 ^ 32.
Proof.
  intros H. unfold get_higher_32_bits. rewrite Z.shiftr_div_pow2 by lia.
  apply u32_id. unfold is_u64, is_u32 in *. Z.div_mod_to_equations; lia.
Qed.

(** The exchange by three exclusive-ors. *)
Lemma xor_swap x y :
  Z.lxor (Z.lxor x y) y = x /\ Z.lxor (Z.lxor x y) (Z.lxor (Z.lxor x y) y) = y.
Proof.
  rewrite (Z.lxor_assoc x y y), Z.lxor_nilpotent, Z.lxor_0_r. split; [done|].
  by rewrite (Z.lxor_comm x y), Z.lxor_assoc, Z.lxor_nilpotent, Z.lxor_0_r.
Qed.

(** [points cs a i]: the 64-bit little-endian word at [i] is an address of
    the cache line of [a]. *)
Definition pointsb (cs : list ChunkInfo.t) (a : Z) (i : nat) : bool :=
  match view cs i, view cs (S i) with
  | Some lo, Some hi => cacheline_align (lo + 2 ^ 32 * hi) =? cacheline_align a
  | _, _ => false
  end.

Lemma split_align lo hi a :
  is_u32 lo -> is_u32 hi -> is_u64 a ->
  (u32 (cacheline_align lo) =? cacheline_align a mod 2 ^ 32) &&
  (hi =? cacheline_align a / 2 ^ 32) =
  (cacheline_align (lo + 2 ^ 32 * hi) =? cacheline_align a).
Proof.
  rewrite !cacheline_align_spec. unfold is_u32, is_u64, u32. intros.
  apply eq_bool_prop_intro. rewrite andb_True, !Is_true_true, !Z.eqb_eq.
  Z.div_mod_to_equations; lia.
Qed.

Lemma addr_at_points l a i :
  wf l -> is_u64 a -> (i < DATA_CHUNK_COUNT - 1)%nat ->
  addr_at l (cacheline_align a mod 2 ^ 32) (cacheline_align a / 2 ^ 32) i =
    Ok (pointsb (dataChunks l) a i).
Proof.
  intros Hwf Ha Hi. unfold DATA_CHUNK_COUNT in Hi.
  destruct (wf_lookup _ i Hwf) as (c & E & Hc); [unfold DATA_CHUNK_COUNT; lia|].
  destruct (wf_lookup _ (S i) Hwf) as (c' & E' & Hc'); [unfold DATA_CHUNK_COUNT; lia|].
  unfold addr_at, pointsb. rewrite (view_data _ _ _ E Hc), (view_data _ _ _ E' Hc'), E, E'.
  cbn [deref mbind res_bind]. unfold get_chunk_type. fold (datab c) (datab c').
  destruct (datab c) eqn:D; [|done]. destruct (datab c') eqn:D'; [|done]. cbn [andb].
  rewrite !get_data_line by (done || by rewrite line_chunk_valid).
  cbn [mbind res_bind]. rewrite <- split_align; try done; try apply u32_range.
  by destruct (u32 (cacheline_align (datum c)) =? _).
Qed.

Lemma pointsb_bound cs a i :
  wf_chunks cs -> pointsb cs a i = true -> (i < DATA_CHUNK_COUNT - 1)%nat.
Proof.
  intros Hwf. unfold pointsb. repeat case_match; try done. intros _.
  match goal with H : view cs (S i) = Some _ |- _ => apply view_bound in H; [|done] end.
  lia.
Qed.

Lemma get_addr_offset_find l a :
  wf l -> is_u64 a ->
  get_addr_offset l a true =
    Ok (int_result (List.find (pointsb (dataChunks l) a) (seq 0 (DATA_CHUNK_COUNT - 1)))).
Proof.
  intros Hwf Ha. unfold get_addr_offset.
  destruct (xor_swap (get_lower_32_bits (cacheline_align a))
              (get_higher_32_bits (cacheline_align a))) as [-> ->].
  rewrite lower_spec, higher_spec by auto with pmweaver.
  rewrite (search_find _ _ (pointsb (dataChunks l) a)); [done|].
  intros i Hi%elem_of_seq. apply addr_at_points; [done..|lia].
Qed.

(** What an [int]-returning search over the indices means: -1 when no index
    satisfies the test, the least such index otherwise. *)
Definition first_index (p : nat -> bool) (r : Z) : Prop :=
  (r = -1 /\ forall i, p i = false) \/
  (exists i, r = Z.of_nat i /\ p i = true /\ forall j, (j < i)%nat -> p j = false).

Lemma first_index_find p n :
  (forall i, p i = true -> (i < n)%nat) ->
  first_index p (int_result (List.find p (seq 0 n))).
Proof.
  intros Hb. destruct (List.find p (seq 0 n)) as [i|] eqn:E.
  - right. apply find_seq_some in E as (? & ? & H). exists i. repeat split; [done|].
    intros j Hj. apply H. lia.
  - left. split; [done|]. intros i. destruct (p i) eqn:Ei; [|done].
    rewrite <- Ei. eapply find_seq_none; [exact E|]. apply Hb in Ei. lia.
Qed.

(** The address search of a well-formed line never
    stops the simulation and returns the first chunk index whose 64-bit
    little-endian word lies in the same cache line as the address, or -1 when
    no word of the line does. *)
Theorem get_addr_offset_spec l a :
  wf l -> is_u64 a ->
  exists r, get_addr_offset l a true = Ok r /\ first_index (pointsb (dataChunks l) a) r.
Proof.
  intros Hwf Ha. eexists. split; [by apply get_addr_offset_find|].
  apply first_index_find. intros i. by apply pointsb_bound.
Qed.

Definition holdsb (cs : list ChunkInfo.t) (d : Z) (i : nat) : bool :=
  match view cs i with
  | Some x => x =? d
  | None => false
  end.

Lemma get_data_offset_find l d :
  wf l ->
  get_data_offset l d = Ok (int_result (List.find (holdsb (dataChunks l) d)
                                           (seq 0 DATA_CHUNK_COUNT))).
Proof.
  intros Hwf. unfold get_data_offset.
  rewrite (search_find _ _ (holdsb (dataChunks l) d)); [done|].
  intros i Hi%elem_of_seq. destruct (wf_lookup _ i Hwf) as (c & E & Hc); [lia|].
  unfold holdsb. rewrite (view_data _ _ _ E Hc), E. cbn [deref mbind res_bind].
  unfold get_chunk_type. fold (datab c). destruct (datab c) eqn:D; [|done].
  by rewrite get_data_line by (done || by rewrite line_chunk_valid).
Qed.

(** The data search of a well-formed line returns the first index that holds
    the word, or -1 when none does. *)
Lemma get_data_offset_spec l d :
  wf l -> exists r, get_data_offset l d = Ok r /\ first_index (holdsb (dataChunks l) d) r.
Proof.
  intros Hwf. eexists. split; [by apply get_data_offset_find|].
  apply first_index_find. intros i. unfold holdsb. case_match eqn:E; [|done].
  intros _. by eapply view_bound.
Qed.

(** *** Overlay *)

Definition overlay (src dst : list ChunkInfo.t) : list ChunkInfo.t :=
  zip_with (fun s d => if validb s then s else d) src dst.

(** The source has a word at [i] and the destination a different one or none. *)
Definition differsb (src dst : list ChunkInfo.t) (i : nat) : bool :=
  match view src i with
  | Some d => bool_decide (view dst i <> Some d)
  | None => false
  end.

Definition differences (src dst : list ChunkInfo.t) (n : nat) : Z :=
  Z.of_nat (length (filter (fun i => differsb src dst i = true) (seq 0 n))).

Lemma differences_S src dst n :
  differences src dst (S n) = differences src dst n + if differsb src dst n then 1 else 0.
Proof.
  unfold differences. rewrite seq_S, filter_app, length_app, filter_cons, filter_nil. cbn.
  destruct (differsb src dst n); case_decide; try done; cbn; lia.
Qed.

Lemma overlay_wf src dst : wf_chunks src -> wf_chunks dst -> wf_chunks (overlay src dst).
Proof.
  intros [Hl Hf] [Hl' Hf']. split.
  - unfold overlay. rewrite length_zip_with. lia.
  - apply Forall_lookup. intros i c H. apply lookup_zip_with_Some in H.
    destruct H as (s & d & -> & Hs & Hd). destruct (validb s); by eapply Forall_lookup_1; cycle 1.
Qed.

Lemma overlay_lookup src dst i s d :
  src !! i = Some s -> dst !! i = Some d ->
  overlay src dst !! i = Some (if validb s then s else d).
Proof. intros Hs Hd. apply lookup_zip_with_Some. eauto. Qed.

Lemma view_overlay src dst i :
  wf_chunks src -> wf_chunks dst ->
  view (overlay src dst) i = match view src i with Some d => Some d | None => view dst i end.
Proof.
  intros Hs Hd. destruct (decide (i < DATA_CHUNK_COUNT)%nat) as [Hi|Hi].
  - destruct (wf_lookup _ i Hs Hi) as (s & Es & Ls), (wf_lookup _ i Hd Hi) as (d & Ed & Ld).
    unfold view. rewrite (overlay_lookup _ _ _ _ _ Es Ed), Es, Ed.
    destruct (validb s) eqn:V; [by rewrite V|done].
  - unfold view. pose proof (wf_length _ (overlay_wf _ _ Hs Hd)).
    pose proof (wf_length _ Hs). pose proof (wf_length _ Hd).
    by rewrite !lookup_ge_None_2 by lia.
Qed.

Lemma overwrite_chunk_ok src dst k dest n :
  wf_chunks src -> wf_chunks dst -> (k < DATA_CHUNK_COUNT)%nat ->
  dest !! k = dst !! k ->
  exists s d, src !! k = Some s /\ dst !! k = Some d /\
    overwrite_chunk src k (dest, n) =
      Ok (if validb s then <[k := s]> dest else dest,
          n + if differsb src dst k then 1 else 0).
Proof.
  intros Hs Hd Hk Hdest.
  destruct (wf_lookup _ k Hs Hk) as (s & Es & Ls), (wf_lookup _ k Hd Hk) as (d & Ed & Ld).
  exists s, d. split; [done|]. split; [done|]. unfold overwrite_chunk, differsb, view.
  rewrite Hdest, Es, Ed. cbn [deref mbind res_bind].
  rewrite is_valid_legal, is_invalid_legal by auto with pmweaver. cbn [mbind res_bind].
  destruct (validb s) eqn:Vs; [|do 2 f_equal; lia].
  destruct (validb d) eqn:Vd; cbn [negb mbind res_bind]; [|done].
  rewrite !get_data_line by done. cbn [mbind res_bind].
  destruct (Z.eqb_spec (datum d) (datum s)) as [->|Hne]; cbn [negb].
  - rewrite bool_decide_false by naive_solver. do 2 f_equal; lia.
  - by rewrite bool_decide_true by naive_solver.
Qed.

(** The loop of [overwriteFrom] and [overwriteTo] computes the overlay and
    counts the indices where it changes the destination's word. *)
Lemma overwrite_loop src dst :
  wf_chunks src -> wf_chunks dst ->
  for_each (seq 0 DATA_CHUNK_COUNT) (overwrite_chunk src) (dst, 0) =
    Ok (overlay src dst, differences src dst DATA_CHUNK_COUNT).
Proof.
  intros Hs Hd.
  destruct (for_each_seq (fun k st =>
      length st.1 = DATA_CHUNK_COUNT /\ st.2 = differences src dst k /\
      forall j, st.1 !! j = if decide (j < k)%nat then overlay src dst !! j else dst !! j)
    DATA_CHUNK_COUNT (overwrite_chunk src) (dst, 0)) as ([dest n] & -> & Hl & Hn & Hj).
  - split; [apply Hd|done].
  - intros k [dest n] Hk (Hl & Hn & Hj). cbn in Hl, Hn, Hj. subst n.
    destruct (overwrite_chunk_ok src dst k dest (differences src dst k))
      as (s & d & Es & Ed & ->); [done..|by rewrite Hj, decide_False by lia|].
    eexists. split; [done|]. cbn. split; [|split].
    + destruct (validb s); [by rewrite length_insert|done].
    + by rewrite differences_S.
    + intros j. destruct (decide (j = k)) as [->|Hne].
      * rewrite decide_True by lia. rewrite (overlay_lookup _ _ _ _ _ Es Ed).
        destruct (validb s); [by rewrite list_lookup_insert_eq by lia|].
        by rewrite Hj, decide_False, Ed by lia.
      * transitivity (dest !! j);
          [destruct (validb s); [by rewrite list_lookup_insert_ne|done]|].
        rewrite Hj. repeat case_decide; try done; lia.
  - cbn in *. subst n. do 2 f_equal. apply list_eq. intros i. rewrite Hj.
    case_decide; [done|]. pose proof (wf_length _ Hd).
    pose proof (wf_length _ (overlay_wf _ _ Hs Hd)). by rewrite !lookup_ge_None_2 by lia.
Qed.

Lemma overwriteFrom_ok src l :
  wf src -> wf l ->
  overwriteFrom src l =
    Ok (with_chunks (overlay (dataChunks src) (dataChunks l)) l,
        differences (dataChunks src) (dataChunks l) DATA_CHUNK_COUNT).
Proof. intros Hs Hl. unfold overwriteFrom. by rewrite overwrite_loop. Qed.

Lemma overwriteTo_ok dest l :
  wf dest -> wf l ->
  overwriteTo dest l =
    Ok (with_chunks (overlay (dataChunks l) (dataChunks dest)) l,
        differences (dataChunks l) (dataChunks dest) DATA_CHUNK_COUNT).
Proof. intros Hs Hl. unfold overwriteTo. by rewrite overwrite_loop. Qed.

(** Overlaying a well-formed line on another never stops,
    gives a well-formed line that holds the source's word wherever the source
    has one and its own word elsewhere, keeps the line's address and times,
    and returns the number of words the overlay changed. *)
Theorem overwriteFrom_spec src l :
  wf src -> wf l ->
  exists l' n, overwriteFrom src l = Ok (l', n) /\ wf l' /\
    addr l' = addr l /\ hasAddr l' = hasAddr l /\ timeOfCreation l' = timeOfCreation l /\
    (forall i, view (dataChunks l') i =
       match view (dataChunks src) i with
       | Some d => Some d
       | None => view (dataChunks l) i
       end) /\
    n = Z.of_nat (length (filter (fun i => view (dataChunks l') i <> view (dataChunks l) i)
                            (seq 0 DATA_CHUNK_COUNT))).
Proof.
  intros Hs Hl. do 2 eexists. split; [by apply overwriteFrom_ok|].
  cbn [with_chunks dataChunks addr hasAddr timeOfCreation].
  split; [by apply overlay_wf|]. do 3 (split; [done|]).
  split; [intros; by apply view_overlay|]. unfold differences. do 2 f_equal.
  apply list_filter_iff. intros i. rewrite view_overlay by done. unfold differsb.
  destruct (view (dataChunks src) i); [|naive_solver].
  rewrite bool_decide_eq_true. naive_solver.
Qed.

Lemma overwriteFrom_spec_witness :
  exists src l l' n,
    of_chunks 5 0x10000000040 (replicate 16 7) 16 false = Ok src /\
    overwriteFrom src l = Ok (l', n) /\ n = 16 /\ view (dataChunks l') 3 = Some 7.
Proof.
  destruct (of_chunks 5 0x10000000040 (replicate 16 7) 16 false) as [src|] eqn:E; [|done].
  vm_compute in E. injection E as E.
  destruct (overwriteFrom_spec src (new 9)) as (l' & n & H & _ & _ & _ & _ & V & N).
  - subst src. split; [done|]. repeat (constructor; [by right|]). constructor.
  - split; [done|]. repeat (constructor; [by left|]). constructor.
  - exists src, (new 9), l', n. split; [done|]. split; [done|]. split.
    + subst src. unfold overwriteFrom in H. vm_compute in H. congruence.
    + rewrite V. by subst src.
Defined.

(** *** Filling a line *)

Lemma fill_ok index d cs c :
  cs !! index = Some c -> (index < DATA_CHUNK_COUNT)%nat ->
  exists c', fill index d cs = Ok (<[index := c']> cs) /\
    line_chunk c' /\ validb c' = true /\ datum c' = u32 d.
Proof.
  intros Hc Hi. unfold fill. rewrite bool_decide_false by lia. cbn [panic_if mbind res_bind].
  eexists. split.
  - eapply modify_ok; [exact Hc|]. by apply set_data_ok.
  - split; [|split; [done|apply content_low]]. right. split; [done|].
    unfold has. cbn [flags with_content raise with_flags]. by flag_simpl.
Qed.

Definition filled (data : list Z) (offset count : nat) (cs0 cs : list ChunkInfo.t) : Prop :=
  length cs = DATA_CHUNK_COUNT /\
  forall j, if decide (offset <= j < offset + count)%nat then
    exists c x, cs !! j = Some c /\ data !! (j - offset)%nat = Some x /\
      line_chunk c /\ validb c = true /\ datum c = u32 x
  else cs !! j = cs0 !! j.

(** The loops of the constructors: word [i] of the data lands at index
    [offset + i], the other chunks stay as they are. *)
Lemma fill_loop data offset count cs0 :
  length cs0 = DATA_CHUNK_COUNT -> (offset + count <= DATA_CHUNK_COUNT)%nat ->
  (count <= length data)%nat ->
  exists cs, for_each (seq 0 count) (fun i cs => d ← deref (data !! i); fill (i + offset) d cs)
      cs0 = Ok cs /\ filled data offset count cs0 cs.
Proof.
  intros Hl Ho Hd. apply (for_each_seq (fun k cs => filled data offset k cs0 cs)).
  { split; [done|]. intros j. by rewrite decide_False by lia. }
  intros k cs Hk [Hcs H].
  destruct (lookup_lt_is_Some_2 data k) as [x Hx]; [lia|].
  destruct (lookup_lt_is_Some_2 cs (k + offset)) as [c Hc]; [lia|].
  destruct (fill_ok (k + offset) x cs c Hc) as (c' & E & Hc'); [lia|].
  rewrite Hx. cbn. rewrite E. eexists. split; [done|]. split; [by rewrite length_insert|].
  intros j. specialize (H j). destruct (decide (j = k + offset)%nat) as [->|Hne].
  - rewrite decide_True by lia. exists c', x.
    rewrite list_lookup_insert_eq by lia. by replace (k + offset - offset)%nat with k by lia.
  - rewrite list_lookup_insert_ne by done.
    repeat case_decide; try done; lia.
Qed.

Lemma filled_view data offset count cs0 cs j :
  filled data offset count cs0 cs ->
  view cs j = if decide (offset <= j < offset + count)%nat
              then u32 <$> data !! (j - offset)%nat else view cs0 j.
Proof.
  intros [_ H]. specialize (H j). unfold view. case_decide; [|by rewrite H].
  destruct H as (c & x & -> & -> & _ & -> & Hc). cbn. by rewrite Hc.
Qed.

Lemma filled_wf data offset count cs0 cs :
  (forall j c, cs0 !! j = Some c -> (offset <= j < offset + count)%nat \/ line_chunk c) ->
  filled data offset count cs0 cs -> wf_chunks cs.
Proof.
  intros H0 [Hl H]. split; [done|]. apply Forall_lookup. intros j c Hj.
  specialize (H j). case_decide; [naive_solver|].
  rewrite H in Hj. apply H0 in Hj as [?|?]; [lia|done].
Qed.

Lemma of_packet_ok now pkt (useVaddr : bool) a data :
  (if useVaddr then Packet.vaddr pkt else Packet.paddr pkt) = Some a -> Packet.data pkt = Some data -> 0 <= Packet.size pkt ->
  (Z.to_nat (Packet.size pkt / 4) <= length data)%nat ->
  get_cacheline_off a / 4 + Packet.size pkt / 4 <= 16 ->
  exists l, of_packet now pkt useVaddr = Ok l /\ wf l /\ hasAddr l = false /\
    forall i, view (dataChunks l) i =
      if decide (chunk_index a <= i < chunk_index a + Z.to_nat (Packet.size pkt / 4))%nat
      then u32 <$> data !! (i - chunk_index a)%nat else None.
Proof.
  intros Ha Hd Hs Hl Hfit. unfold of_packet, Packet.getVaddr, Packet.getPaddr, Packet.getPtr.
  replace (if useVaddr then Packet.valid (Packet.vaddr pkt) else Packet.valid (Packet.paddr pkt))
    with (Ok a) by (by destruct useVaddr; rewrite Ha).
  rewrite Hd. cbn [Packet.valid mbind res_bind]. unfold SIZEOF_DATACHUNK in *.
  assert (0 <= get_cacheline_off a / 4) by
    (pose proof (cacheline_off_bound a); apply Z.div_pos; lia).
  assert (0 <= Packet.size pkt / 4) by (apply Z.div_pos; lia).
  rewrite bool_decide_false by (unfold DATA_CHUNK_COUNT; lia).
  cbn [panic_if mbind res_bind].
  destruct (fill_loop data (chunk_index a) (Z.to_nat (Packet.size pkt / 4))
              (dataChunks (new now))) as (cs & E & F); [done| |done|].
  { unfold chunk_index, SIZEOF_DATACHUNK, DATA_CHUNK_COUNT. lia. }
  rewrite E. eexists. split; [done|]. split; [|split; [done|]].
  - eapply filled_wf; [|exact F]. intros j c Hj. right.
    eapply Forall_lookup_1; [apply (wf_line _ (line_new_wf now))|exact Hj].
  - intros i. cbn [dataChunks with_chunks]. rewrite (filled_view _ _ _ _ _ _ F).
    case_decide; [done|]. unfold view. cbn [dataChunks new].
    destruct (replicate _ _ !! i) eqn:R; [|done].
    apply lookup_replicate in R as [-> _]. done.
Qed.

(** A packet whose words fit between its address and the end
    of the cache line becomes a well-formed line that holds exactly the
    packet's words, each at the index of its address inside the line. *)
Theorem of_packet_spec now pkt (useVaddr : bool) a data :
  (if useVaddr then Packet.vaddr pkt else Packet.paddr pkt) = Some a -> Packet.data pkt = Some data -> 0 <= Packet.size pkt ->
  (Z.to_nat (Packet.size pkt / 4) <= length data)%nat ->
  get_cacheline_off a / 4 + Packet.size pkt / 4 <= 16 ->
  exists l, of_packet now pkt useVaddr = Ok l /\ wf l /\ hasAddr l = false /\
    forall i, view (dataChunks l) i =
      if decide (chunk_index a <= i < chunk_index a + Z.to_nat (Packet.size pkt / 4))%nat
      then u32 <$> data !! (i - chunk_index a)%nat else None.
Proof. apply of_packet_ok. Qed.

Lemma of_packet_spec_witness :
  exists l, of_packet 3 (Packet.store 0x10000000048 0x200000048 0x400 [11; 12]) true = Ok l /\
    view (dataChunks l) 2 = Some 11 /\ view (dataChunks l) 3 = Some 12 /\
    view (dataChunks l) 4 = None.
Proof.
  destruct (of_packet_spec 3 (Packet.store 0x10000000048 0x200000048 0x400 [11; 12]) true
              0x10000000048 [11; 12]) as (l & E & _ & _ & V);
    [done | done | done | vm_compute; lia | vm_compute; done |].
  exists l. rewrite !V. vm_compute. split; [exact E|done].
Defined.

Lemma get_addr_offset_spec_witness :
  exists l r, of_packet 3 (Packet.store 0x10000000048 0x200000048 0x400 [0x45; 0x100]) true = Ok l /\
    get_addr_offset l 0x10000000050 true = Ok r /\ r = 2.
Proof.
  destruct (of_packet 3 (Packet.store 0x10000000048 0x200000048 0x400 [0x45; 0x100]) true)
    as [l|] eqn:E; [|done].
  vm_compute in E. injection E as E.
  destruct (get_addr_offset_spec l 0x10000000050) as (r & H & _).
  - subst l. split; [done|]. repeat (constructor; [by (left + right)|]). constructor.
  - done.
  - exists l, r. split; [done|]. split; [done|]. subst l. vm_compute in H. congruence.
Defined.

(** The bound [index > DATA_CHUNK_COUNT] of the constructors lets the index 16
    through: a packet that runs past its line writes past the array instead of
    stopping with a panic. *)
Lemma of_packet_overrun now a p c d0 d1 :
  get_cacheline_off a = 60 ->
  of_packet now (Packet.store a p c [d0; d1]) true = Fail Undefined.
Proof.
  intros H. unfold of_packet. cbn [Packet.getVaddr Packet.getPtr Packet.store Packet.vaddr
    Packet.data Packet.valid Packet.size length mbind res_bind].
  unfold chunk_index. rewrite H. reflexivity.
Qed.

(** A full line built from sixteen words. *)
Lemma fill_full now a data :
  length data = DATA_CHUNK_COUNT ->
  exists cs, for_each (seq 0 DATA_CHUNK_COUNT)
      (fun i cs => d ← deref (data !! i); fill (i + 0) d cs)
      (map (set_chunk_type DATA) (dataChunks (with_addr a (new now)))) = Ok cs /\
    wf_chunks cs /\ forall i, view cs i = u32 <$> data !! i.
Proof.
  intros Hd.
  destruct (fill_loop data 0 DATA_CHUNK_COUNT (map (set_chunk_type DATA)
    (dataChunks (with_addr a (new now))))) as (cs & E & F);
    [by rewrite length_map|lia|lia|].
  exists cs. split; [done|]. split.
  - eapply filled_wf; [|exact F]. intros j c Hj%lookup_lt_Some.
    rewrite length_map in Hj. left. cbn [with_addr new dataChunks] in Hj.
    rewrite length_replicate in Hj. lia.
  - intros i. rewrite (filled_view _ _ _ _ _ _ F).
    case_decide; [by rewrite Nat.sub_0_r|].
    rewrite (lookup_ge_None_2 data) by lia. unfold view.
    rewrite lookup_ge_None_2; [done|].
    rewrite length_map. cbn [with_addr new dataChunks]. rewrite length_replicate. lia.
Qed.

Lemma of_chunks_full now a data (align : bool) :
  length data = DATA_CHUNK_COUNT -> (align = true -> chunk_index a = O) ->
  exists l, of_chunks now a data DATA_CHUNK_COUNT align = Ok l /\ wf l /\
    hasAddr l = true /\ addr l = a /\
    forall i, view (dataChunks l) i = u32 <$> data !! i.
Proof.
  intros Hd Ha. unfold of_chunks. rewrite bool_decide_false by lia.
  cbn [panic_if mbind res_bind].
  assert ((if align then chunk_index a else O) = O) as -> by (destruct align; auto).
  destruct (fill_full now a data Hd) as (cs & -> & Hw & Hv). by eexists.
Qed.

(** The line of a cached block holds its words. *)
Lemma of_cache_ok now a block fresh :
  length (match block with Some d => d | None => fresh end) = DATA_CHUNK_COUNT ->
  exists l, of_cache now a block fresh = Ok l /\ wf l /\ hasAddr l = true /\ addr l = a /\
    forall i, view (dataChunks l) i = u32 <$> match block with Some d => d | None => fresh end !! i.
Proof.
  intros Hd. unfold of_cache. set (data := match block with Some d => d | None => fresh end) in *.
  rewrite (for_each_ext _ _ (fun i cs => d ← deref (data !! i); fill (i + 0) d cs))
    by (intros i cs' _; by rewrite Nat.add_0_r).
  destruct (fill_full now a data Hd) as (cs & -> & Hw & Hv). by eexists.
Qed.

(** *** Tests on the whole line *)

Lemma all_invalid_legal l :
  Forall legal (dataChunks l) -> all_invalid l = Ok (negb (existsb validb (dataChunks l))).
Proof.
  intros Hl. unfold all_invalid.
  assert (forall cs r, Forall legal cs ->
    for_each cs (fun c r => v ← is_valid c; Ok (if v : bool then false else r)) r =
      Ok (if existsb validb cs then false else r)) as H.
  { intros cs r H. revert r. induction H as [|c cs Hc _ IH]; intros r; [done|].
    cbn [for_each existsb]. rewrite is_valid_legal by done. cbn [mbind res_bind].
    destruct (validb c); cbn [orb]; rewrite IH; by destruct (existsb validb cs). }
  rewrite H by done. by destruct (existsb _ _).
Qed.

Lemma all_zeros_ok l : wf l -> exists b, all_zeros l = Ok b.
Proof.
  intros [_ Hf]. unfold all_zeros.
  rewrite (search_find _ _ (fun c => validb c && negb (datum c =? 0))).
  - cbn [mbind res_bind]. by eexists.
  - intros c Hc. rewrite Forall_forall in Hf. specialize (Hf c Hc).
    rewrite is_valid_legal by (by apply line_chunk_legal). cbn [mbind res_bind].
    destruct (validb c) eqn:V; [|done]. by rewrite (get_data_line c).
Qed.

Lemma print_ok l : wf l -> print l = Ok tt.
Proof.
  intros [_ Hf]. unfold print.
  destruct (for_each_total (fun _ : unit => True) (dataChunks l)
    (fun c _ => v ← is_valid c; panic_if (v && negb (type_eqb (get_chunk_type c) DATA)) ;;
       if type_eqb (get_chunk_type c) DATA then _ ← get_data c; Ok tt else Ok tt) tt)
    as ([] & -> & _); [done| |done].
  intros c [] Hc _. rewrite Forall_forall in Hf. specialize (Hf c Hc).
  rewrite is_valid_legal by (by apply line_chunk_legal). cbn [mbind res_bind].
  exists tt. split; [|done]. unfold get_chunk_type, validb.
  destruct Hf as [->|[E Hd]]; [done|]. unfold get_data. by rewrite E, Hd.
Qed.

(** *** Counting and time of generation *)

Definition word_count (cs : list ChunkInfo.t) : nat :=
  length (filter (fun c => validb c = true) cs).

Lemma invalid_chunk_count_legal cs n :
  Forall legal cs ->
  for_each cs (fun c n => b ← is_invalid c; Ok (if b : bool then n + 1 else n)) n =
    Ok (n + Z.of_nat (length cs) - Z.of_nat (word_count cs)).
Proof.
  intros H. unfold word_count. revert n. induction H as [|c l Hc _ IH]; intros n.
  { cbn. f_equal. lia. }
  rewrite filter_cons. cbn [for_each]. rewrite is_invalid_legal by done.
  destruct (validb c); cbn [mbind res_bind decide negb]; rewrite IH; case_decide;
    try done; cbn [length]; f_equal; lia.
Qed.

Lemma valid_chunk_count_ok l :
  wf l -> valid_chunk_count l = Ok (Z.of_nat (word_count (dataChunks l))).
Proof.
  intros H. unfold valid_chunk_count, invalid_chunk_count.
  rewrite invalid_chunk_count_legal by (by apply wf_legal).
  rewrite (wf_length _ H). cbn [mbind res_bind]. f_equal. lia.
Qed.

Lemma find_first_valid_index_ok l :
  wf l ->
  find_first_valid_index l =
    Ok (match List.find (fun i => bool_decide (is_Some (view (dataChunks l) i)))
                (seq 0 DATA_CHUNK_COUNT) with
        | Some i => Z.of_nat i
        | None => UINT64_MAX
        end).
Proof.
  intros H. unfold find_first_valid_index.
  rewrite (search_find _ _ (fun i => bool_decide (is_Some (view (dataChunks l) i)))); [done|].
  intros i Hi%elem_of_seq. destruct (wf_lookup _ i H) as (c & E & Hc); [lia|].
  unfold view. rewrite E. cbn [deref mbind res_bind].
  rewrite is_valid_legal by auto with pmweaver. by destruct (validb c).
Qed.
End CacheLine.
