(* ===== verification/Queues.v ===== *)
(** * Bounded queues

    Models [DataStore.hh] (access statistics), [SimpleFixedSizeQueue.hh],
    [FixedSizeQueue.hh] and [PCQueue.hh] of [mem/predictor], and states once
    what the bounded queues promise their clients: a queue of capacity [n]
    always holds the last [n] elements pushed. *)

From S2P Require Import Prelude Common.

(** ** The promise of a bounded queue *)

Definition lastn {A} (n : nat) (l : list A) : list A := drop (length l - n) l.

Class BoundedQueue (Q : Type -> Type) : Type := {
  q_push : forall {A}, A -> Q A -> res (Q A);
  q_items : forall {A}, Q A -> list A;
  q_cap : forall {A}, Q A -> nat;
  q_ok : forall {A}, Q A -> Prop;
  q_ok_bound : forall {A} (q : Q A), q_ok q -> (length (q_items q) <= q_cap q)%nat;
  q_push_ok : forall {A} (x : A) (q : Q A), q_ok q ->
    exists q', q_push x q = Ok q' /\ q_ok q' /\ q_cap q' = q_cap q /\
      q_items q' = lastn (q_cap q) (q_items q ++ [x])
}.

Section Lastn.
Context {A : Type}.
Implicit Types l : list A.

Lemma length_lastn n l : length (lastn n l) = (n `min` length l)%nat.
Proof. unfold lastn. rewrite length_drop. lia. Qed.

Lemma lastn_all n l : (length l <= n)%nat -> lastn n l = l.
Proof. intros H. unfold lastn. by replace (length l - n)%nat with O by lia. Qed.

Lemma lastn_app n l1 l2 : lastn n (lastn n l1 ++ l2) = lastn n (l1 ++ l2).
Proof.
  unfold lastn. rewrite !length_app, length_drop.
  destruct (decide (length l1 <= n)%nat) as [H|H].
  - replace (length l1 - n)%nat with O by lia. rewrite drop_0. f_equal. lia.
  - rewrite <- (drop_app_le l1 l2) by lia. rewrite drop_drop. f_equal. lia.
Qed.

Lemma lastn_prefix n l1 l2 : (n <= length l2)%nat -> lastn n (l1 ++ l2) = lastn n l2.
Proof.
  intros H. unfold lastn. rewrite length_app, drop_app_ge by lia. f_equal. lia.
Qed.

Lemma lastn_snoc_full n l x :
  length l = n -> (1 <= n)%nat -> lastn n (l ++ [x]) = drop 1 l ++ [x].
Proof.
  intros H Hn. unfold lastn. rewrite length_app. cbn.
  replace (length l + 1 - n)%nat with 1%nat by lia. rewrite drop_app_le by lia. done.
Qed.
End Lastn.

Section BoundedQueueClient.
Context `{BQ : BoundedQueue Q} {A : Type}.

Definition push_all (xs : list A) (q : Q A) : res (Q A) := for_each xs q_push q.

(** Against the interface alone: pushing any sequence succeeds and leaves the
    last [q_cap q] elements of everything the queue ever held. *)
Lemma push_all_items xs (q : Q A) :
  q_ok q ->
  exists q', push_all xs q = Ok q' /\ q_ok q' /\ q_cap q' = q_cap q /\
    q_items q' = lastn (q_cap q) (q_items q ++ xs).
Proof.
  unfold push_all. revert q. induction xs as [|x xs IH]; intros q Hq; cbn.
  - exists q. rewrite app_nil_r, lastn_all by (by apply q_ok_bound). done.
  - destruct (q_push_ok x q Hq) as (q1 & -> & Hq1 & Hc & Hi). cbn.
    destruct (IH q1 Hq1) as (q2 & -> & Hq2 & Hc2 & Hi2). exists q2.
    split; [done|]. split; [done|]. split; [congruence|].
    rewrite Hi2, Hi, Hc, lastn_app, <- app_assoc. done.
Qed.
End BoundedQueueClient.

(** ** Access statistics *)
Module DataStore.
Record t := mk {
  statsEnabled : bool;
  totalInsertions : Z;
  totalDeletions : Z;
  totalAccess : Z
}.

(** [DataStore(parentName)] *)
Definition new (parentName : string) : t := mk (negb (String.eqb parentName "")) 0 0 0.

Definition add (d : t) : t :=
  if statsEnabled d then
    mk (statsEnabled d) (totalInsertions d + 1) (totalDeletions d) (totalAccess d)
  else d.
Definition add_back : t -> t := add.
Definition remove (d : t) : t :=
  if statsEnabled d then
    mk (statsEnabled d) (totalInsertions d) (totalDeletions d + 1) (totalAccess d)
  else d.
Definition get (d : t) : t :=
  if statsEnabled d then
    mk (statsEnabled d) (totalInsertions d) (totalDeletions d) (totalAccess d + 1)
  else d.

(** Insertions minus deletions, when they are counted, is the size. *)
Definition balanced (d : t) (size : nat) : Prop :=
  statsEnabled d = true -> totalInsertions d - totalDeletions d = Z.of_nat size.

Lemma balanced_add d n : balanced d n -> balanced (add d) (S n).
Proof.
  unfold balanced, add. destruct (statsEnabled d) eqn:S; cbn; [|congruence].
  intros H _. specialize (H eq_refl). lia.
Qed.

Lemma balanced_remove d n : balanced d (S n) -> balanced (remove d) n.
Proof.
  unfold balanced, remove. destruct (statsEnabled d) eqn:S; cbn; [|congruence].
  intros H _. specialize (H eq_refl). lia.
Qed.

Lemma balanced_replace d n : balanced d n -> balanced (remove (add d)) n.
Proof. intros H. by apply balanced_remove, balanced_add. Qed.
End DataStore.

(** ** [SimpleFixedSizeQueue] *)
Module SimpleFixedSizeQueue.
Record t (T : Type) := mk { sz : nat; queue : list T }.
Arguments mk {T} sz queue.
Arguments sz {T} t.
Arguments queue {T} t.

Section Ops.
Context {T : Type}.
Implicit Types q : t T.

Definition new (size : nat) : t T := mk size [].
Definition new_filled (size : nat) (initValue : T) : t T := mk size (replicate size initValue).

(** [pop_front()] of an empty deque is undefined. *)
Definition pop_front (l : list T) : res (list T) :=
  match l with
  | [] => Fail Undefined
  | _ :: l' => Ok l'
  end.

Definition push_back (elem : T) (q : t T) : res (t T) :=
  assert_that (bool_decide (length (queue q) <= sz q)%nat) ;;
  l ← (if bool_decide (length (queue q) = sz q) then pop_front (queue q) else Ok (queue q));
  Ok (mk (sz q) (l ++ [elem])).

Definition back (q : t T) : res T := deref (last (queue q)).
Definition front (q : t T) : res T := deref (head (queue q)).
Definition get (index : nat) (q : t T) : res T := at_ (queue q !! index).
Definition get_size (q : t T) : res nat :=
  assert_that (bool_decide (length (queue q) <= sz q)%nat) ;; Ok (length (queue q)).
Definition get_max_size (q : t T) : nat := sz q.
Definition remove (q : t T) : res (t T) :=
  assert_that (bool_decide (0 < length (queue q))%nat) ;;
  l ← pop_front (queue q); Ok (mk (sz q) l).

(** [clear()]: removes the front until the queue is empty; one unit of fuel
    per element. *)
Fixpoint clear_loop (fuel : nat) (q : t T) : res (t T) :=
  n ← get_size q;
  match n, fuel with
  | O, _ => Ok q
  | S _, O => Fail OutOfFuel
  | S _, S fuel => q ← remove q; clear_loop fuel q
  end.
Definition clear (q : t T) : res (t T) := clear_loop (length (queue q)) q.

Definition ok (q : t T) : Prop := (1 <= sz q)%nat /\ (length (queue q) <= sz q)%nat.

Lemma simple_push_ok x q :
  ok q ->
  push_back x q = Ok (mk (sz q) (lastn (sz q) (queue q ++ [x]))).
Proof.
  intros [H1 Hle]. unfold push_back. rewrite (bool_decide_true (_ <= _)%nat) by done. cbn.
  case_bool_decide as E.
  - rewrite lastn_snoc_full by lia. destruct (queue q) eqn:Q; [cbn in E; lia|]. done.
  - rewrite lastn_all; [done|]. rewrite length_app. cbn. lia.
Qed.

Lemma ok_lastn q l : ok q -> ok (mk (sz q) (lastn (sz q) l)).
Proof. intros [? ?]. split; cbn; [done|]. rewrite length_lastn. lia. Qed.

(** [clear] of a queue within its bound empties it. *)
Lemma clear_ok q : ok q -> clear q = Ok (mk (sz q) []).
Proof.
  destruct q as [n l]. unfold clear, ok. cbn. induction l as [|x l IH]; intros [? Hle].
  - unfold clear_loop, get_size. cbn. by rewrite bool_decide_true by lia.
  - cbn [length clear_loop]. unfold get_size. cbn [queue sz length].
    rewrite bool_decide_true by (cbn in Hle; lia). cbn. apply IH. cbn in Hle. lia.
Qed.
End Ops.
End SimpleFixedSizeQueue.

#[export, program] Instance SimpleFixedSizeQueue_bounded : BoundedQueue SimpleFixedSizeQueue.t := {|
  q_push A := SimpleFixedSizeQueue.push_back;
  q_items A := SimpleFixedSizeQueue.queue;
  q_cap A := SimpleFixedSizeQueue.sz;
  q_ok A := SimpleFixedSizeQueue.ok
|}.
Next Obligation. intros A q [_ H]. exact H. Qed.
Next Obligation.
  intros A x q H. eexists. split; [by apply SimpleFixedSizeQueue.simple_push_ok|].
  split; [by apply SimpleFixedSizeQueue.ok_lastn|done].
Qed.

(** ** [FixedSizeQueue]

    The queue owns its elements through [unique_ptr]; an element is its value. *)
Module FixedSizeQueue.
Record t (T : Type) := mk { store : DataStore.t; sz : nat; queue : list T }.
Arguments mk {T} store sz queue.
Arguments store {T} t.
Arguments sz {T} t.
Arguments queue {T} t.

Section Ops.
Context {T : Type}.
Implicit Types q : t T.

Definition new (parentName : string) (size : nat) : t T :=
  mk (DataStore.new parentName) size [].

Definition push_back (elem : T) (q : t T) : res (t T) :=
  let st := DataStore.add_back (store q) in
  '(st, l) ← (if bool_decide (length (queue q) = sz q) then
                l ← SimpleFixedSizeQueue.pop_front (queue q); Ok (DataStore.remove st, l)
              else Ok (st, queue q));
  Ok (mk st (sz q) (l ++ [elem])).

Definition get_front (q : t T) : res T := deref (head (queue q)).
Definition get_size (q : t T) : res nat :=
  assert_that (bool_decide (length (queue q) <= sz q)%nat) ;; Ok (length (queue q)).
Definition get_max_size (q : t T) : nat := sz q.
Definition get (index : nat) (q : t T) : res T :=
  n ← get_size q;
  panic_if (bool_decide (n < index)%nat) ;;
  at_ (queue q !! index).
Definition remove (q : t T) : res (t T) :=
  l ← SimpleFixedSizeQueue.pop_front (queue q);
  Ok (mk (DataStore.remove (store q)) (sz q) l).

Record ok (q : t T) : Prop := {
  ok_pos : (1 <= sz q)%nat;
  ok_size : (length (queue q) <= sz q)%nat;
  ok_stats : DataStore.balanced (store q) (length (queue q))
}.

Lemma new_ok name n : (1 <= n)%nat -> ok (new name n).
Proof. intros Hn. split; cbn; [done|lia|]. intros _. done. Qed.

Lemma push_back_ok x q :
  ok q ->
  exists q', push_back x q = Ok q' /\ ok q' /\ sz q' = sz q /\
    queue q' = lastn (sz q) (queue q ++ [x]).
Proof.
  intros [H1 Hle Hst]. unfold push_back. case_bool_decide as E.
  - destruct (queue q) as [|y l] eqn:Q; [cbn in E; lia|]. cbn in E.
    rewrite (lastn_snoc_full _ (y :: l)) by (cbn; lia). cbn. eexists. split; [done|].
    split; [|done]. split; cbn; [lia|rewrite length_app; cbn; lia|].
    apply DataStore.balanced_replace in Hst. by rewrite length_app, Nat.add_1_r.
  - cbn. eexists. split; [done|]. rewrite lastn_all by (rewrite length_app; cbn; lia).
    split; [|done]. split; cbn; [lia|rewrite length_app; cbn; lia|].
    rewrite length_app, Nat.add_1_r. by apply DataStore.balanced_add.
Qed.

(** An index equal to the size passes the panic's test and reaches
    [deque::at], which throws. *)
Lemma get_at_size q : ok q -> get (length (queue q)) q = Fail OutOfRange.
Proof.
  intros [_ H _]. unfold get, get_size. rewrite (bool_decide_true (_ <= _)%nat) by done.
  cbn. rewrite bool_decide_false by lia. cbn. by rewrite lookup_ge_None_2 by lia.
Qed.
End Ops.
End FixedSizeQueue.

#[export, program] Instance FixedSizeQueue_bounded : BoundedQueue FixedSizeQueue.t := {|
  q_push A := FixedSizeQueue.push_back;
  q_items A := FixedSizeQueue.queue;
  q_cap A := FixedSizeQueue.sz;
  q_ok A := FixedSizeQueue.ok
|}.
Next Obligation. intros A q H. apply (FixedSizeQueue.ok_size _ H). Qed.
Next Obligation. intros A x q H. by apply FixedSizeQueue.push_back_ok. Qed.

(** A [FixedSizeQueue] of positive capacity accepts
    every sequence of insertions; it then holds exactly the last [size]
    elements, in order, and its insertion and deletion statistics differ by the
    number of elements held. *)
Theorem fixed_size_queue_history {T} (name : string) (size : nat) (xs : list T) :
  (1 <= size)%nat ->
  exists q, for_each xs FixedSizeQueue.push_back (FixedSizeQueue.new name size) = Ok q /\
    FixedSizeQueue.queue q = lastn size xs /\
    FixedSizeQueue.get_size q = Ok (size `min` length xs)%nat /\
    DataStore.balanced (FixedSizeQueue.store q) (size `min` length xs).
Proof.
  intros Hn.
  destruct (push_all_items xs (FixedSizeQueue.new name size)) as (q & E & Hq & Hc & Hi);
    [by apply FixedSizeQueue.new_ok|].
  change (FixedSizeQueue.queue q = lastn size xs) in Hi. exists q. split; [exact E|]. split; [exact Hi|].
  rewrite <- length_lastn, <- Hi. destruct Hq as [_ Hs Hst]. split; [|done].
  unfold FixedSizeQueue.get_size. by rewrite bool_decide_true by done.
Qed.

Lemma fixed_size_queue_history_witness :
  exists q, for_each [1; 2; 3; 4] FixedSizeQueue.push_back (FixedSizeQueue.new "whb" 3) = Ok q /\
    FixedSizeQueue.queue q = [2; 3; 4].
Proof.
  destruct (fixed_size_queue_history "whb" 3 [1; 2; 3; 4]) as (q & E & Hq & _); [lia|].
  exists q. split; [exact E|]. rewrite Hq. reflexivity.
Defined.

(** ** [PCQueue] *)
Module PCQueue.
Record pcQueueEntry_t := mkEntry { pc : Z; tick : Z }.

(** [queue] is the priority queue (top first) and [uniqPCs] is left out: the
    code that fills both follows an unconditional [return]. *)
Record t := mk { queue : list pcQueueEntry_t; queue_n : list pcQueueEntry_t }.

Definition new : t := mk [] [].

Definition get_oldest_entry (q : t) : Z :=
  foldl (fun oldest e => if tick e <? oldest then tick e else oldest) UINT64_MAX (queue q).

Definition exists_ (entry : pcQueueEntry_t) (q : t) : bool :=
  existsb (fun e => pc e =? pc entry) (queue_n q).

Definition get_size (q : t) : nat := length (queue_n q).
Definition push_back (entry : pcQueueEntry_t) (q : t) : t := mk (queue q) (queue_n q ++ [entry]).
Definition pop (q : t) : res t :=
  l ← SimpleFixedSizeQueue.pop_front (queue_n q); Ok (mk (queue q) l).
Definition top (q : t) : res pcQueueEntry_t := deref (head (queue_n q)).
Definition top_n_pc (n : nat) (q : t) : list Z :=
  map (fun i => match queue_n q !! i with Some e => pc e | None => 0 end) (seq 0 n).

(** The operations a queue goes through. *)
Inductive op :=
| Push (e : pcQueueEntry_t)
| Pop.

Definition run (o : op) (q : t) : res t :=
  match o with
  | Push e => Ok (push_back e q)
  | Pop => pop q
  end.

(** However it is used, [get_oldest_entry] answers [UINT64_MAX]: the priority
    queue it scans stays empty. *)
Lemma get_oldest_entry_constant ops q :
  for_each ops run new = Ok q -> get_oldest_entry q = UINT64_MAX.
Proof.
  intros H. assert (queue q = []) as E.
  { apply (for_each_inv ops run (fun q => queue q = []) new q); [|done|exact H].
    intros [e|] s s' _ Hs Hr; cbn in Hr; [injection Hr as <-; done|].
    unfold pop in Hr. by res_inv. }
  unfold get_oldest_entry. by rewrite E.
Qed.

Lemma exists_push e e' q :
  exists_ e (push_back e' q) = exists_ e q || (pc e' =? pc e).
Proof. unfold exists_. cbn. rewrite existsb_app. cbn. by rewrite orb_false_r. Qed.

(** First in, first out. *)
Lemma pop_push_empty e q : queue_n q = [] -> pop (push_back e q) = Ok q.
Proof. destruct q. cbn. intros ->. done. Qed.
End PCQueue.
