(* ===== verification/AddrPredictor.v ===== *)
(** * The delta address predictor

    Models [class AddrPredictor] of [mem/predictor/AddrPredictor.hh]: it keeps
    the last four differences between addresses and predicts the next address
    when they agree. *)

From S2P Require Import Prelude Common Queues.

Module AddrPredictor.
Module SQ := SimpleFixedSizeQueue.

Definition TRACKING_SIZE : nat := 4.

Record t := mk { lastSeenAddr : Z; addrDiff : SQ.t Z }.

Definition new : t := mk 0 (SQ.new TRACKING_SIZE).

Definition set_last_seen_addr (addr : Z) (p : t) : res t :=
  q ← SQ.push_back (i64 (addr - lastSeenAddr p)) (addrDiff p);
  Ok (mk addr q).

(** [size_t] converted to [bool] *)
Definition addr_q_size (p : t) : res bool :=
  n ← SQ.get_size (addrDiff p); Ok (negb (Z.of_nat n =? 0)).

(** The loop [for (size_t i = 0; i < get_size() - 1; i++)]: [true] when the
    bound is reached, [false] at the [break]. *)
Fixpoint diffs_agree (fuel : nat) (i : nat) (p : t) : res bool :=
  n ← SQ.get_size (addrDiff p);
  if Z.of_nat i <? u64 (Z.of_nat n - 1) then
    match fuel with
    | O => Fail OutOfFuel
    | S fuel =>
        a ← SQ.get i (addrDiff p);
        b ← SQ.get (i + 1) (addrDiff p);
        if negb (a =? b) then Ok false else diffs_agree fuel (i + 1) p
    end
  else Ok true.

Definition b2z (b : bool) : Z := if b then 1 else 0.

(** [not addr_q_size() > 1] parses as [(not addr_q_size()) > 1]. *)
Definition can_pred_addr (p : t) : res bool :=
  result ← diffs_agree (S (length (SQ.queue (addrDiff p)))) 0 p;
  s ← addr_q_size p;
  Ok (if 1 <? b2z (negb s) then false else result).

Definition predict_addr (p : t) : res Z :=
  c ← can_pred_addr p;
  if c : bool then d ← SQ.back (addrDiff p); Ok (u64 (lastSeenAddr p + d))
  else Ok 0.

Definition observe (addrs : list Z) (p : t) : res t := for_each addrs set_last_seen_addr p.

(** ** Properties *)

Definition ok (p : t) : Prop :=
  SQ.sz (addrDiff p) = TRACKING_SIZE /\ (length (SQ.queue (addrDiff p)) <= TRACKING_SIZE)%nat.

Lemma ok_queue p : ok p -> SQ.ok (addrDiff p).
Proof. intros [H1 H2]. split; rewrite H1; [unfold TRACKING_SIZE; lia|done]. Qed.

Lemma predictor_new_ok : ok new.
Proof. by split; cbn; [|unfold TRACKING_SIZE; lia]. Qed.

Lemma get_size_ok p : ok p -> SQ.get_size (addrDiff p) = Ok (length (SQ.queue (addrDiff p))).
Proof. intros H. unfold SQ.get_size. by rewrite bool_decide_true by apply (ok_queue _ H). Qed.

Lemma set_last_seen_addr_ok a p :
  ok p ->
  exists p', set_last_seen_addr a p = Ok p' /\ ok p' /\ lastSeenAddr p' = a /\
    SQ.queue (addrDiff p') =
      lastn TRACKING_SIZE (SQ.queue (addrDiff p) ++ [i64 (a - lastSeenAddr p)]).
Proof.
  intros H. unfold set_last_seen_addr. rewrite SQ.simple_push_ok by (by apply ok_queue).
  destruct H as [H1 H2]. eexists. split; [done|]. cbn [addrDiff SQ.sz SQ.queue lastSeenAddr].
  rewrite H1. split; [|done]. split; cbn [addrDiff SQ.sz SQ.queue]; [done|].
  rewrite length_lastn. lia.
Qed.

(** The differences between consecutive addresses, starting after [prev]. *)
Fixpoint deltas (prev : Z) (addrs : list Z) : list Z :=
  match addrs with
  | [] => []
  | a :: l => i64 (a - prev) :: deltas a l
  end.

Lemma length_deltas prev l : length (deltas prev l) = length l.
Proof. revert prev. induction l; intros; cbn; auto. Qed.

(** After any stream of addresses the queue holds its last four differences. *)
Lemma observe_ok addrs p :
  ok p ->
  exists p', observe addrs p = Ok p' /\ ok p' /\
    lastSeenAddr p' = default (lastSeenAddr p) (last addrs) /\
    SQ.queue (addrDiff p') =
      lastn TRACKING_SIZE (SQ.queue (addrDiff p) ++ deltas (lastSeenAddr p) addrs).
Proof.
  unfold observe. revert p. induction addrs as [|a l IH]; intros p Hp; cbn [for_each deltas].
  - exists p. rewrite app_nil_r, lastn_all by apply Hp. done.
  - destruct (set_last_seen_addr_ok a p Hp) as (q & -> & Hq & Ha & Eq). cbn [mbind res_bind].
    destruct (IH q Hq) as (r & -> & Hr & Hl & Er). exists r. split; [done|]. split; [done|].
    split; [rewrite Hl, Ha, last_cons; by destruct (last l)|].
    rewrite Er, Eq, Ha, lastn_app, <- app_assoc. done.
Qed.

(** The test of the loop succeeds on a queue of equal differences. *)
Lemma diffs_agree_const p d n k fuel i :
  ok p -> SQ.queue (addrDiff p) = replicate (S n) d -> (i + k = n)%nat -> (k <= fuel)%nat ->
  diffs_agree fuel i p = Ok true.
Proof.
  intros Hp Hq. assert (S n <= TRACKING_SIZE)%nat as Hn.
  { destruct Hp as [_ H]. rewrite Hq, length_replicate in H. done. }
  unfold TRACKING_SIZE in Hn. revert k i. induction fuel as [|fuel IH]; intros k i Hik Hk;
    cbn [diffs_agree]; rewrite get_size_ok, Hq, length_replicate by done;
    cbn [mbind res_bind]; rewrite u64_id by (unfold is_u64; lia).
  - destruct (Z.ltb_spec (Z.of_nat i) (Z.of_nat (S n) - 1)); [lia|done].
  - destruct (Z.ltb_spec (Z.of_nat i) (Z.of_nat (S n) - 1)) as [H|H]; [|done].
    unfold SQ.get. rewrite Hq, !lookup_replicate_2 by lia. cbn [at_ mbind res_bind].
    rewrite Z.eqb_refl. cbn [negb]. apply (IH (k - 1)%nat); lia.
Qed.

Lemma predict_const p d n :
  ok p -> SQ.queue (addrDiff p) = replicate (S n) d ->
  predict_addr p = Ok (u64 (lastSeenAddr p + d)).
Proof.
  intros Hp Hq. unfold predict_addr, can_pred_addr, addr_q_size.
  rewrite (diffs_agree_const p d n n) by (done || rewrite Hq, ?length_replicate; lia).
  cbn [mbind res_bind]. rewrite get_size_ok, Hq, length_replicate by done.
  cbn [mbind res_bind Z.of_nat Z.eqb negb b2z Z.ltb Z.compare]. unfold SQ.back. rewrite Hq, replicate_S_end, last_snoc. done.
Qed.

(** With at least one difference the loop stops inside the queue. *)
Lemma diffs_agree_total p k fuel i :
  ok p -> SQ.queue (addrDiff p) <> [] -> (i + k + 1 = length (SQ.queue (addrDiff p)))%nat ->
  (k <= fuel)%nat -> exists b, diffs_agree fuel i p = Ok b.
Proof.
  intros Hp Hq. pose proof (proj2 Hp) as Hn. unfold TRACKING_SIZE in Hn. revert k i.
  induction fuel as [|fuel IH]; intros k i Hik Hk; cbn [diffs_agree];
    rewrite get_size_ok by done; cbn [mbind res_bind]; rewrite u64_id by (unfold is_u64; lia).
  - destruct (Z.ltb_spec (Z.of_nat i) (Z.of_nat (length (SQ.queue (addrDiff p))) - 1)); [lia|eauto].
  - destruct (Z.ltb_spec (Z.of_nat i) (Z.of_nat (length (SQ.queue (addrDiff p))) - 1)); [|eauto].
    unfold SQ.get. destruct (lookup_lt_is_Some_2 (SQ.queue (addrDiff p)) i) as [x ->]; [lia|].
    destruct (lookup_lt_is_Some_2 (SQ.queue (addrDiff p)) (i + 1)) as [y ->]; [lia|].
    cbn [at_ mbind res_bind]. destruct (x =? y); [|cbn; eauto].
    cbn [negb]. apply (IH (k - 1)%nat); lia.
Qed.

Lemma can_predict_ok p :
  ok p -> SQ.queue (addrDiff p) <> [] ->
  exists b a, can_pred_addr p = Ok b /\ predict_addr p = Ok a.
Proof.
  intros Hp Hq. assert (0 < length (SQ.queue (addrDiff p)))%nat as Hpos
    by (destruct (SQ.queue (addrDiff p)); cbn; [done|lia]).
  destruct (diffs_agree_total p (length (SQ.queue (addrDiff p)) - 1)
    (S (length (SQ.queue (addrDiff p)))) 0 Hp Hq) as [b Eb]; [lia|lia|].
  assert (exists b, can_pred_addr p = Ok b) as [c Ec].
  { unfold can_pred_addr, addr_q_size. rewrite Eb. cbn [mbind res_bind].
    rewrite get_size_ok by done. cbn [mbind res_bind]. eauto. }
  exists c. unfold predict_addr. rewrite Ec. cbn [mbind res_bind]. destruct c; [|eauto].
  unfold SQ.back. destruct (last (SQ.queue (addrDiff p))) eqn:El; [cbn; eauto|].
  by apply last_None in El.
Qed.

(** The addresses of a stream with stride [d]. *)
Definition strided (a d : Z) (k n : nat) : list Z :=
  map (fun i => u64 (a + Z.of_nat i * d)) (seq k n).

Lemma deltas_strided a d k n :
  is_u64 (d + 9223372036854775808) ->
  deltas (u64 (a + Z.of_nat k * d)) (strided a d (S k) n) = replicate n d.
Proof.
  intros Hd. revert k. induction n as [|n IH]; intros k; [done|].
  unfold strided in *. cbn [seq map deltas replicate]. rewrite IH. f_equal.
  unfold i64, u64, is_u64 in *.
  replace (a + Z.of_nat (S k) * d) with (a + Z.of_nat k * d + d) by lia.
  generalize (a + Z.of_nat k * d). intros z.
  case_match; Z.div_mod_to_equations; lia.
Qed.

(** Once the predictor has seen five or more consecutive
    addresses of a stream with a constant stride, whatever it saw before, it
    predicts the next address of the stream (modulo the width of addresses). *)
Theorem stride_predicted p a d n :
  ok p -> - 9223372036854775808 <= d < 9223372036854775808 -> (4 <= n)%nat ->
  exists p', observe (strided a d 0 (S n)) p = Ok p' /\
    predict_addr p' = Ok (u64 (a + Z.of_nat (S n) * d)).
Proof.
  intros Hp Hd Hn.
  destruct (observe_ok (strided a d 0 (S n)) p Hp) as (q & E & Hq & Hl & Eq).
  exists q. split; [done|].
  rewrite (predict_const q d 3); [|done|].
  - rewrite Hl. unfold strided. rewrite seq_S, map_app. cbn [map]. rewrite last_snoc.
    cbn [default from_option id]. f_equal. unfold u64. rewrite Zplus_mod_idemp_l. f_equal. lia.
  - rewrite Eq. unfold strided. cbn [seq map deltas].
    change (map (fun i => u64 (a + Z.of_nat i * d)) (seq 1 n)) with (strided a d 1 n).
    rewrite deltas_strided by (unfold is_u64; lia).
    rewrite (app_assoc _ [_] (replicate n d) : _ ++ (_ :: replicate n d) = _).
    rewrite lastn_prefix by (rewrite length_replicate; done).
    unfold lastn, TRACKING_SIZE. rewrite length_replicate, drop_replicate. f_equal. lia.
Qed.

Lemma stride_predicted_witness :
  exists p', observe [0x10000000000; 0x10000000040; 0x10000000080; 0x100000000c0;
                      0x10000000100] new = Ok p' /\
    predict_addr p' = Ok 0x10000000140.
Proof.
  destruct (stride_predicted new 0x10000000000 0x40 4) as (p' & E & H);
    [apply predictor_new_ok | lia | lia |].
  exists p'. split; [exact E|exact H].
Defined.

(** A single observed address already yields a prediction, twice the address:
    the guard on the number of differences never applies. *)
Lemma predicts_after_one a :
  is_u64 a ->
  exists p', observe [a] new = Ok p' /\ predict_addr p' = Ok (u64 (a + a)).
Proof.
  intros Ha. destruct (observe_ok [a] new predictor_new_ok) as (q & E & Hq & Hl & Eq).
  exists q. split; [done|]. rewrite (predict_const q (i64 (a - 0)) 0 Hq Eq), Hl. cbn.
  f_equal. unfold i64, u64, is_u64 in *. case_match; Z.div_mod_to_equations; lia.
Qed.

(** Before any address the loop bound wraps around and the first access throws. *)
Lemma predict_new : predict_addr new = Fail OutOfRange.
Proof. reflexivity. Qed.
End AddrPredictor.
