(* ===== verification/Shared.v ===== *)
(** * State shared by frontends and backend

    Models the static members of [class SharedArea] ([mem/predictor/SharedArea.hh],
    [SharedArea.cc]) and the confidence table of [class PredictorBackend] that
    the predictor table consults ([PredictorBackend::confidenceTable],
    [initConf], [getConfidenceForLoc], [broadcastPrediction]). *)

From S2P Require Import Prelude Common.

Module SharedArea.
(** [struct constChunkLocator] with its default member initialisers. *)
Record constChunkLocator := mkLocator { constOffset : Z; timesFound : Z; lastData : Z }.
Definition new_locator : constChunkLocator := mkLocator UINT64_MAX 0 4294967295.

(** [confidenceTable] is the backend's static table, shared in the same way. *)
Record t := mk {
  correctPredictions : gmap Z (Z * Z);
  genPCConf : gmap Z Confidence.t;
  constPredTracker : gmap Z (gmap Z constChunkLocator);
  confidenceTable : gmap Z Z
}.

Definition new : t := mk ∅ ∅ ∅ ∅.

Definition with_correctPredictions v s := mk v (genPCConf s) (constPredTracker s) (confidenceTable s).
Definition with_genPCConf v s := mk (correctPredictions s) v (constPredTracker s) (confidenceTable s).
Definition with_constPredTracker v s := mk (correctPredictions s) (genPCConf s) v (confidenceTable s).
Definition with_confidenceTable v s := mk (correctPredictions s) (genPCConf s) (constPredTracker s) v.

(** [PredictorBackend::initConf] *)
Definition initConf (hash : Z) (s : t) : t :=
  match confidenceTable s !! hash with
  | Some _ => s
  | None => with_confidenceTable (<[hash := PRED_CONFIDENCE_MAX - 1]> (confidenceTable s)) s
  end.

(** The value [confidenceTable[hash]] reads. *)
Definition confidence (hash : Z) (s : t) : Z := default 0 (confidenceTable s !! hash).

(** [PredictorBackend::getConfidenceForLoc]: a [float] that holds -1 or a
    16-bit counter, converted to [size_t]; the conversion of -1 is undefined. *)
Definition getConfidenceForLoc (hash : Z) (s : t) : res Z :=
  match confidenceTable s !! hash with
  | Some c => Ok c
  | None => Fail Undefined
  end.

(** The saturating increment of [handleNonVolatileWrite]. *)
Definition raise_confidence (hash : Z) (s : t) : t :=
  let c := confidence hash s in
  with_confidenceTable
    (<[hash := if c =? PRED_CONFIDENCE_MAX then PRED_CONFIDENCE_MAX else u16 (c + 1)]>
       (confidenceTable s)) s.

(** [PredictorBackend::broadcastPrediction] *)
Definition broadcastPrediction (hash : Z) (addrPredicted dataPredicted : bool) (s : t) : t :=
  let s :=
    if addrPredicted then
      let '(a, d) := default (0, 0) (correctPredictions s !! hash) in
      with_correctPredictions (<[hash := (a + 1, d)]> (correctPredictions s)) s
    else s in
  if dataPredicted then
    let '(a, d) := default (0, 0) (correctPredictions s !! hash) in
    with_correctPredictions (<[hash := (a, d + 1)]> (correctPredictions s)) s
  else s.

(** ** Invariant: confidences stay in their range *)

Definition conf_bounded (s : t) : Prop :=
  forall h c, confidenceTable s !! h = Some c -> 0 <= c <= PRED_CONFIDENCE_MAX.

Definition gen_pc_wf (s : t) : Prop :=
  forall pc c, genPCConf s !! pc = Some c -> Confidence.wf c.

Lemma initConf_bounded h s : conf_bounded s -> conf_bounded (initConf h s).
Proof.
  intros H. unfold initConf. destruct (confidenceTable s !! h) eqn:E; [done|].
  intros k c. cbn. destruct (decide (k = h)) as [->|Hne].
  - rewrite lookup_insert_eq. intros [= <-]. done.
  - rewrite lookup_insert_ne by done. apply H.
Qed.

Lemma initConf_is_Some h s : is_Some (confidenceTable (initConf h s) !! h).
Proof.
  unfold initConf. destruct (confidenceTable s !! h) eqn:E; [by rewrite E|].
  cbn. rewrite lookup_insert_eq. done.
Qed.

Lemma raise_confidence_bounded h s :
  conf_bounded s -> conf_bounded (raise_confidence h s).
Proof.
  intros H k c. unfold raise_confidence, confidence. cbn.
  destruct (decide (k = h)) as [->|Hne].
  - rewrite lookup_insert_eq. intros [= <-].
    assert (0 <= default 0 (confidenceTable s !! h) <= PRED_CONFIDENCE_MAX).
    { destruct (confidenceTable s !! h) as [c|] eqn:E; cbn; [by apply (H h)|done]. }
    destruct (Z.eqb_spec (default 0 (confidenceTable s !! h)) PRED_CONFIDENCE_MAX); [done|].
    change PRED_CONFIDENCE_MAX with 4 in *. rewrite u16_id by lia. lia.
  - rewrite lookup_insert_ne by done. apply H.
Qed.

Lemma broadcast_confidence h a d s :
  confidenceTable (broadcastPrediction h a d s) = confidenceTable s /\
  genPCConf (broadcastPrediction h a d s) = genPCConf s /\
  constPredTracker (broadcastPrediction h a d s) = constPredTracker s.
Proof.
  unfold broadcastPrediction.
  destruct a, d; cbn; try done; repeat (destruct (default _ _); cbn); done.
Qed.

(** A broadcast of a correct prediction adds one to both counters of the hash. *)
Lemma broadcast_both h s :
  correctPredictions (broadcastPrediction h true true s) =
    <[h := let '(a, d) := default (0, 0) (correctPredictions s !! h) in (a + 1, d + 1)]>
      (correctPredictions s).
Proof.
  unfold broadcastPrediction. destruct (default (0, 0) (correctPredictions s !! h)) as [a d].
  cbn. rewrite lookup_insert_eq. cbn. by rewrite insert_insert_eq.
Qed.
End SharedArea.

#[export] Hint Resolve SharedArea.initConf_bounded SharedArea.raise_confidence_bounded : pmweaver.
