(* ===== verification/WriteHistory.v ===== *)
(** * Entries of the write history buffer

    Models [class WriteHistoryBufferEntry] of
    [mem/predictor/WriteHistoryBuffer.hh]/[.cc].  The buffer itself is the
    [FixedSizeQueue] of these entries that the frontend owns. *)

From S2P Require Import Prelude Common PageTable Chunk CacheLine Queues.

Module WriteHistoryBufferEntry.
Import ChunkInfo.

(** [id] and [size] have no initialiser; they are 0 until set. *)
Record t := mk {
  id : Z;
  pc : Z;
  cacheLine : CacheLine.t;
  genTick : Z;
  pathHash : Z;
  size : Z;
  hasGenTick : bool;
  isUsed : bool;
  hasPathHash : bool;
  hasSize : bool
}.

Definition of_line (pc_ : Z) (line : CacheLine.t) : t :=
  mk 0 pc_ line 0 0 0 false false false true.

(** The loop of the constructor from raw words, for the chunk at index [i]. *)
Definition fill_word (pc_ addr : Z) (data : list Z) (addrOffset i : nat)
    (line : CacheLine.t) : res CacheLine.t :=
  panic_if (bool_decide (DATA_CHUNK_COUNT <= i)%nat) ;;
  d ← deref (data !! (i - addrOffset)%nat);
  cs ← modify i (fun c => c ← set_data d (set_chunk_type DATA c);
                           Ok (set_generating_pc pc_ c)) (CacheLine.dataChunks line);
  Ok (CacheLine.set_addr (cacheline_align addr) (CacheLine.with_chunks cs line)).

(** [WriteHistoryBufferEntry(pc, addr, dataChunks, dataChunkCount, hash)] *)
Definition of_words (now pc_ addr : Z) (data : list Z) (dataChunkCount : nat) (hash : Z)
    : res t :=
  let addrOffset := chunk_index addr in
  line ← for_each (seq addrOffset dataChunkCount) (fill_word pc_ addr data addrOffset)
           (CacheLine.new now);
  Ok (mk 0 pc_ line 0 hash 0 false false true true).

Definition set_cacheline (l : CacheLine.t) (e : t) : t := mk (id e) (pc e) l (genTick e)
  (pathHash e) (size e) (hasGenTick e) (isUsed e) (hasPathHash e) (hasSize e).
Definition get_cacheline (e : t) : CacheLine.t := cacheLine e.
Definition set_pc (p : Z) (e : t) : t := mk (id e) p (cacheLine e) (genTick e)
  (pathHash e) (size e) (hasGenTick e) (isUsed e) (hasPathHash e) (hasSize e).
Definition get_pc (e : t) : Z := pc e.
Definition get_gen_tick (e : t) : res Z := assert_that (hasGenTick e) ;; Ok (genTick e).
Definition set_gen_tick (tick : Z) (e : t) : t := mk (id e) (pc e) (cacheLine e) tick
  (pathHash e) (size e) true (isUsed e) (hasPathHash e) (hasSize e).
Definition set_id (i : Z) (e : t) : t := mk i (pc e) (cacheLine e) (genTick e)
  (pathHash e) (size e) (hasGenTick e) (isUsed e) (hasPathHash e) (hasSize e).
Definition get_id (e : t) : Z := id e.
Definition use (e : t) : t := mk (id e) (pc e) (cacheLine e) (genTick e)
  (pathHash e) (size e) (hasGenTick e) true (hasPathHash e) (hasSize e).
Definition is_used (e : t) : bool := isUsed e.
Definition get_path_hash (e : t) : res Z := panic_if_not (hasPathHash e) ;; Ok (pathHash e).
Definition set_path_hash (h : Z) (e : t) : t := mk (id e) (pc e) (cacheLine e) (genTick e)
  h (size e) (hasGenTick e) (isUsed e) true (hasSize e).
Definition get_size (e : t) : res Z := panic_if_not (hasSize e) ;; Ok (size e).
Definition set_size (s : Z) (e : t) : t := mk (id e) (pc e) (cacheLine e) (genTick e)
  (pathHash e) s (hasGenTick e) (isUsed e) (hasPathHash e) true.

(** ** Properties *)

Definition wf (e : t) : Prop := CacheLine.wf (cacheLine e).

Lemma set_generating_pc_line p c :
  line_chunk c -> line_chunk (set_generating_pc p c) /\
    validb (set_generating_pc p c) = validb c /\ datum (set_generating_pc p c) = datum c.
Proof.
  intros H. split; [|done]. destruct H as [H|[H1 H2]]; [by left|right].
  split; [done|]. unfold has, set_generating_pc. cbn. by flag_simpl.
Qed.

Lemma fill_word_ok p a data off i l d :
  CacheLine.wf l -> (i < DATA_CHUNK_COUNT)%nat -> data !! (i - off)%nat = Some d ->
  exists l', fill_word p a data off i l = Ok l' /\ CacheLine.wf l' /\
    CacheLine.hasAddr l' = true /\ CacheLine.addr l' = cacheline_align a /\
    forall j, CacheLine.view (CacheLine.dataChunks l') j =
      if decide (j = i) then Some (u32 d) else CacheLine.view (CacheLine.dataChunks l) j.
Proof.
  intros Hwf Hi Hd. unfold fill_word. rewrite bool_decide_false by lia.
  cbn [panic_if mbind res_bind]. rewrite Hd. cbn [deref mbind res_bind].
  destruct (CacheLine.wf_lookup _ _ Hwf Hi) as (c & Ec & Hc).
  destruct (set_data d (set_chunk_type DATA c)) as [c1|] eqn:E1;
    [|by rewrite set_data_ok in E1].
  assert (line_chunk c1 /\ validb c1 = true /\ datum c1 = u32 d) as (L1 & V1 & D1).
  { split; [by eapply set_data_line|]. rewrite set_data_ok in E1 by done.
    injection E1 as <-. split; [done|apply content_low]. }
  destruct (set_generating_pc_line p c1 L1) as (L2 & V2 & D2).
  erewrite modify_ok; [|exact Ec|rewrite E1; reflexivity].
  eexists. split; [done|]. destruct Hwf as [Hlen Hall]. split; [|split; [done|split; [done|]]].
  - split; cbn; [by rewrite length_insert|]. by apply Forall_insert.
  - intros j. unfold CacheLine.view. cbn [CacheLine.dataChunks CacheLine.with_chunks
      CacheLine.set_addr CacheLine.with_addr]. case_decide as Hj.
    + subst. rewrite list_lookup_insert_eq by lia. by rewrite V2, V1, D2, D1.
    + by rewrite list_lookup_insert_ne by done.
Qed.

(** A store that fits its line becomes an entry with exactly its words. *)
Lemma of_words_ok now p a data n h :
  (chunk_index a + n <= DATA_CHUNK_COUNT)%nat -> (n <= length data)%nat ->
  exists e, of_words now p a data n h = Ok e /\ wf e /\ pc e = p /\
    get_path_hash e = Ok h /\
    forall j, CacheLine.view (CacheLine.dataChunks (cacheLine e)) j =
      if decide (chunk_index a <= j < chunk_index a + n)%nat
      then u32 <$> data !! (j - chunk_index a)%nat else None.
Proof.
  intros Hfit Hn. unfold of_words. set (off := chunk_index a) in *.
  assert (exists l, for_each (seq off n) (fill_word p a data off) (CacheLine.new now) = Ok l /\
    CacheLine.wf l /\ forall j, CacheLine.view (CacheLine.dataChunks l) j =
      if decide (off <= j < off + n)%nat then u32 <$> data !! (j - off)%nat else None)
    as (l & -> & Hl & Hv).
  { induction n as [|n IH].
    - exists (CacheLine.new now). split; [done|]. split; [apply CacheLine.line_new_wf|].
      intros j. rewrite decide_False by lia. apply CacheLine.new_view.
    - destruct IH as (l & E & Hl & Hv); [lia|lia|].
      destruct (lookup_lt_is_Some_2 data n) as [d Hd]; [lia|].
      destruct (fill_word_ok p a data off (off + n) l d) as (l' & E' & Hl' & _ & _ & Hv');
        [done|lia|by replace (off + n - off)%nat with n by lia|].
      exists l'. rewrite seq_S, for_each_app, E. cbn. rewrite E'.
      split; [done|]. split; [done|]. intros j. rewrite Hv', Hv.
      destruct (decide (j = off + n)%nat) as [->|].
      + rewrite decide_True by lia. by replace (off + n - off)%nat with n by lia; rewrite Hd.
      + repeat case_decide; try done; lia. }
  cbn. eexists. split; [done|]. done.
Qed.
End WriteHistoryBufferEntry.
