(* ===== verification/PredictorTable.v ===== *)
(** * The predictor table

    Models [class PredictorTableEntry], [class IHB_Entry] and
    [class PredictorTable] of [mem/predictor/PredictorTable.hh]/[.cc]: the table
    that maps the hash of a path of store PCs to the pattern of chunks a
    persistent write was made of. *)

From S2P Require Import Prelude Common PageTable Chunk CacheLine Queues Shared.

(** ** Entries *)
Module PredictorTableEntry.
Import ChunkInfo.

(** Read once per object from the environment; [hasHash0] is the value the
    member [hasHash] holds before it is set, which no constructor does. *)
Record config := mkConfig { addrReward : Z; dataReward : Z; hasHash0 : bool }.

Record t := mk {
  destAddr_diag : Z;
  addrChunk : ChunkInfo.t;
  dataChunks : list ChunkInfo.t;
  pcSig : list Z;
  used : bool;
  insertionOrder : Z;
  hasAge : bool;
  CORRECT_ADDR_PREDICTION_AGE_REWARD : Z;
  CORRECT_DATA_PREDICTION_AGE_REWARD : Z;
  originalCacheLine : CacheLine.t;
  hasOrigCL : bool;
  addrOnlyPrediction : bool;
  hash : Z;
  hasHash : bool;
  addrConf : Confidence.t;
  dataConf : Confidence.t
}.

Definition CONF_MAX : Z := 7.
Definition CONF_MIN : Z := 0.
Definition CONF_INIT : Z := 6.

(** [PredictorTableEntry()] *)
Definition new (cfg : config) (now : Z) : t :=
  mk 0 ChunkInfo.new (replicate DATA_CHUNK_COUNT ChunkInfo.new) [0; 0; 0] false 0 false
    (addrReward cfg) (dataReward cfg) (CacheLine.new now) false false 0 (hasHash0 cfg)
    (Confidence.make CONF_INIT CONF_MAX CONF_MIN) (Confidence.make CONF_INIT CONF_MAX CONF_MIN).

Definition with_addrChunk v e := mk (destAddr_diag e) v (dataChunks e) (pcSig e) (used e)
  (insertionOrder e) (hasAge e) (CORRECT_ADDR_PREDICTION_AGE_REWARD e)
  (CORRECT_DATA_PREDICTION_AGE_REWARD e) (originalCacheLine e) (hasOrigCL e)
  (addrOnlyPrediction e) (hash e) (hasHash e) (addrConf e) (dataConf e).
Definition with_dataChunks v e := mk (destAddr_diag e) (addrChunk e) v (pcSig e) (used e)
  (insertionOrder e) (hasAge e) (CORRECT_ADDR_PREDICTION_AGE_REWARD e)
  (CORRECT_DATA_PREDICTION_AGE_REWARD e) (originalCacheLine e) (hasOrigCL e)
  (addrOnlyPrediction e) (hash e) (hasHash e) (addrConf e) (dataConf e).
Definition with_order v e := mk (destAddr_diag e) (addrChunk e) (dataChunks e) (pcSig e)
  (used e) v (hasAge e) (CORRECT_ADDR_PREDICTION_AGE_REWARD e)
  (CORRECT_DATA_PREDICTION_AGE_REWARD e) (originalCacheLine e) (hasOrigCL e)
  (addrOnlyPrediction e) (hash e) (hasHash e) (addrConf e) (dataConf e).
Definition with_confs a d e := mk (destAddr_diag e) (addrChunk e) (dataChunks e) (pcSig e)
  (used e) (insertionOrder e) (hasAge e) (CORRECT_ADDR_PREDICTION_AGE_REWARD e)
  (CORRECT_DATA_PREDICTION_AGE_REWARD e) (originalCacheLine e) (hasOrigCL e)
  (addrOnlyPrediction e) (hash e) (hasHash e) a d.

Definition get_pc (e : t) : list Z := pcSig e.
Definition set_pc (sig : list Z) (e : t) : t := mk (destAddr_diag e) (addrChunk e)
  (dataChunks e) sig (used e) (insertionOrder e) (hasAge e)
  (CORRECT_ADDR_PREDICTION_AGE_REWARD e) (CORRECT_DATA_PREDICTION_AGE_REWARD e)
  (originalCacheLine e) (hasOrigCL e) (addrOnlyPrediction e) (hash e) (hasHash e)
  (addrConf e) (dataConf e).

Definition set_addr_chunk (c : ChunkInfo.t) (e : t) : res t :=
  assert_that (type_eqb (get_chunk_type c) ADDR) ;; Ok (with_addrChunk c e).

(** [PredictorTableEntry(dataChunks)] *)
Definition of_chunks (cfg : config) (now : Z) (chunks : list ChunkInfo.t) : res t :=
  cs ← for_each (seq 0 DATA_CHUNK_COUNT)
         (fun i cs => c ← deref (chunks !! i); Ok (cs ++ [c])) [];
  Ok (with_dataChunks cs (new cfg now)).

(** [operator=]: the confidences, the rewards and [addrOnlyPrediction] of the
    assigned object stay. *)
Definition assign (e pte : t) : t :=
  mk (destAddr_diag pte) (addrChunk pte) (dataChunks pte) (pcSig pte) (used pte)
    (insertionOrder pte) (hasAge pte) (CORRECT_ADDR_PREDICTION_AGE_REWARD e)
    (CORRECT_DATA_PREDICTION_AGE_REWARD e) (originalCacheLine pte) (hasOrigCL pte)
    (addrOnlyPrediction e) (hash pte) (hasHash pte) (addrConf e) (dataConf e).

Definition is_used (e : t) : bool := used e.
Definition use (e : t) : res t :=
  panic_if (is_used e) ;;
  Ok (mk (destAddr_diag e) (addrChunk e) (dataChunks e) (pcSig e) false
        (insertionOrder e) (hasAge e) (CORRECT_ADDR_PREDICTION_AGE_REWARD e)
        (CORRECT_DATA_PREDICTION_AGE_REWARD e) (originalCacheLine e) (hasOrigCL e)
        (addrOnlyPrediction e) (hash e) (hasHash e) (addrConf e) (dataConf e)).

Definition set_order (order : Z) (e : t) : t :=
  mk (destAddr_diag e) (addrChunk e) (dataChunks e) (pcSig e) (used e) order true
    (CORRECT_ADDR_PREDICTION_AGE_REWARD e) (CORRECT_DATA_PREDICTION_AGE_REWARD e)
    (originalCacheLine e) (hasOrigCL e) (addrOnlyPrediction e) (hash e) (hasHash e)
    (addrConf e) (dataConf e).

Definition get_age (currentOrder : Z) (e : t) : res Z :=
  panic_if_not (hasAge e) ;;
  panic_if (currentOrder <? insertionOrder e) ;;
  Ok (currentOrder - insertionOrder e).

Definition notify_confidence (addrPrediction dataPrediction : bool) (e : t) : res t :=
  a ← (if addrPrediction then Confidence.add 1 (addrConf e) else Confidence.sub 1 (addrConf e));
  d ← (if dataPrediction then Confidence.add 1 (dataConf e) else Confidence.sub 1 (dataConf e));
  Ok (with_confs a d e).

Definition notify_correct_prediction (wasAddrPredicted wasDataPredicted : bool) (e : t) : t :=
  let o := insertionOrder e in
  let o := if wasAddrPredicted then o - CORRECT_ADDR_PREDICTION_AGE_REWARD e else o in
  let o := if wasDataPredicted then o - CORRECT_DATA_PREDICTION_AGE_REWARD e else o in
  with_order o e.

Definition set_original_cacheline (l : CacheLine.t) (e : t) : t :=
  mk (destAddr_diag e) (addrChunk e) (dataChunks e) (pcSig e) (used e) (insertionOrder e)
    (hasAge e) (CORRECT_ADDR_PREDICTION_AGE_REWARD e) (CORRECT_DATA_PREDICTION_AGE_REWARD e)
    l true (addrOnlyPrediction e) (hash e) (hasHash e) (addrConf e) (dataConf e).
Definition get_original_cacheline (e : t) : res CacheLine.t :=
  panic_if_not (hasOrigCL e) ;; Ok (originalCacheLine e).
Definition has_orig_cacheline (e : t) : bool := hasOrigCL e.

Definition set_addr_only_pred (e : t) : t :=
  mk (destAddr_diag e) (addrChunk e) (dataChunks e) (pcSig e) (used e) (insertionOrder e)
    (hasAge e) (CORRECT_ADDR_PREDICTION_AGE_REWARD e) (CORRECT_DATA_PREDICTION_AGE_REWARD e)
    (originalCacheLine e) (hasOrigCL e) true (hash e) (hasHash e) (addrConf e) (dataConf e).
Definition is_addr_only_pred (e : t) : bool := addrOnlyPrediction e.

Definition has_hash (e : t) : bool := hasHash e.
Definition get_hash (e : t) : res Z := panic_if_not (has_hash e) ;; Ok (hash e).
Definition set_hash (h : Z) (e : t) : t :=
  mk (destAddr_diag e) (addrChunk e) (dataChunks e) (pcSig e) (used e) (insertionOrder e)
    (hasAge e) (CORRECT_ADDR_PREDICTION_AGE_REWARD e) (CORRECT_DATA_PREDICTION_AGE_REWARD e)
    (originalCacheLine e) (hasOrigCL e) (addrOnlyPrediction e) h true (addrConf e) (dataConf e).

(** [gen_pc_as_cl]: a line whose words are the generating PCs, cut to 32 bits. *)
Definition gen_pc_as_cl (now : Z) (e : t) : res CacheLine.t :=
  let result := CacheLine.new now in
  cs ← for_each (seq 0 DATA_CHUNK_COUNT)
         (fun i cs =>
            src ← deref (dataChunks e !! i);
            v ← is_valid src;
            if v : bool then
              pc ← get_generating_pc src;
              modify i (fun tgt => set_data pc (set_chunk_type DATA tgt)) cs
            else Ok cs) (CacheLine.dataChunks result);
  pc ← get_generating_pc (addrChunk e);
  Ok (CacheLine.set_addr pc (CacheLine.with_chunks cs result)).

(** The earliest tick among the first three entries of the queue. *)
Definition earliest_tick (q : PCQueue.t) : Z :=
  foldl (fun earliest e => if PCQueue.tick e <? earliest then PCQueue.tick e else earliest)
    UINT64_MAX (take 3 (PCQueue.queue_n q)).

(** [find_if(begin(), begin()+3, ...) != begin()+3]: the range runs past the
    end of a queue shorter than three. *)
Definition in_first_three (pc : Z) (q : PCQueue.t) : res bool :=
  r ← search (seq 0 3) (fun i => e ← deref (PCQueue.queue_n q !! i); Ok (PCQueue.pc e =? pc));
  Ok (bool_decide (is_Some r)).

Definition mark_pred_for_whb_search (q : PCQueue.t) (e : t) : res t :=
  let earliestTick := earliest_tick q in
  cs ← for_each (seq 0 DATA_CHUNK_COUNT)
         (fun i cs =>
            c ← deref (cs !! i);
            v ← is_valid c;
            if v : bool then
              pc ← get_generating_pc c;
              inPCQueue ← in_first_three pc q;
              tick ← get_gen_pc_in_tick c;
              if (tick <? earliestTick) && negb inPCQueue then
                Ok (<[i := set_whb_search c]> cs)
              else Ok cs
            else Ok cs) (dataChunks e);
  let e := with_dataChunks cs e in
  v ← is_valid (addrChunk e);
  if v : bool then
    tick ← get_gen_pc_in_tick (addrChunk e);
    Ok (if tick <? earliestTick then with_addrChunk (set_whb_search (addrChunk e)) e else e)
  else Ok e.
End PredictorTableEntry.

(** ** Entries of the index history buffer *)
Module IHB_Entry.
(** [dataChunks] is the copy the constructor makes, absent for [IHB_Entry()]. *)
Record t := mk { valid : bool; pc : Z; dataChunks : option (list Z); count : Z }.

Definition new : t := mk false UINT64_MAX None 0.
Definition make (p : Z) (data : list Z) (n : nat) : res t :=
  d ← for_each (seq 0 n) (fun i acc => x ← deref (data !! i); Ok (acc ++ [x])) [];
  Ok (mk true p (Some d) (Z.of_nat n)).

Definition present (e : t) : bool := bool_decide (is_Some (dataChunks e)).
Definition get_pc (e : t) : res Z := panic_if_not (present e) ;; Ok (pc e).
Definition get_data_chunks (e : t) : res (list Z) :=
  panic_if_not (present e) ;; deref (dataChunks e).
Definition is_valid (e : t) : bool := valid e.
Definition get_count (e : t) : res Z := panic_if_not (present e) ;; Ok (count e).
End IHB_Entry.

(** ** The table *)
Module PredictorTable.
Module PTE := PredictorTableEntry.
Module SQ := SimpleFixedSizeQueue.
Import ChunkInfo.

(** What the constructor reads from the environment; [clock0] is the value of
    the member [clock], which it does not initialise. *)
Record config := mkConfig {
  MAX_SIZE : Z;
  STALE_ENTRY_AGE_THRESHOLD : Z;
  PATH_HISTORY_SIZE : nat;
  const0PredEnabled : bool;
  disableConfidence : bool;
  clock0 : Z;
  entry_config : PTE.config
}.

Definition CLOCK_PERIOD : Z := 2.
Definition LOW_CONF_TRESH : Z := 1.

Record t := mk {
  cfg : config;
  store : DataStore.t;
  size : Z;
  predictorTable : gmap Z PTE.t;
  lastFoundHashes : list Z;
  currentOrder : Z;
  clock : Z;
  pathHistory : SQ.t Z;
  stats : Stats.t
}.

Definition new (c : config) (name : string) : t :=
  mk c (DataStore.new name) 0 ∅ [] 0 (clock0 c) (SQ.new (PATH_HISTORY_SIZE c)) Stats.empty.

Definition with_store v p := mk (cfg p) v (size p) (predictorTable p) (lastFoundHashes p)
  (currentOrder p) (clock p) (pathHistory p) (stats p).
Definition with_table v p := mk (cfg p) (store p) (size p) v (lastFoundHashes p)
  (currentOrder p) (clock p) (pathHistory p) (stats p).
Definition with_lastFound v p := mk (cfg p) (store p) (size p) (predictorTable p) v
  (currentOrder p) (clock p) (pathHistory p) (stats p).
Definition with_order v p := mk (cfg p) (store p) (size p) (predictorTable p)
  (lastFoundHashes p) v (clock p) (pathHistory p) (stats p).
Definition with_clock v p := mk (cfg p) (store p) (size p) (predictorTable p)
  (lastFoundHashes p) (currentOrder p) v (pathHistory p) (stats p).
Definition with_path v p := mk (cfg p) (store p) (size p) (predictorTable p)
  (lastFoundHashes p) (currentOrder p) (clock p) v (stats p).
Definition with_stats f p := mk (cfg p) (store p) (size p) (predictorTable p)
  (lastFoundHashes p) (currentOrder p) (clock p) (pathHistory p) (f (stats p)).

(** [unordered_map::insert]: an existing mapping stays. *)
Definition map_insert {A} (k : Z) (v : A) (m : gmap Z A) : gmap Z A :=
  match m !! k with
  | Some _ => m
  | None => <[k := v]> m
  end.

Definition contains (h : Z) (p : t) : bool := bool_decide (is_Some (predictorTable p !! h)).
Definition get_size (p : t) : nat := base.size (predictorTable p).
Definition get (h : Z) (p : t) : res (PTE.t * t) :=
  e ← at_ (predictorTable p !! h); Ok (e, with_store (DataStore.get (store p)) p).
Definition remove_elem (h : Z) (p : t) : t :=
  with_table (delete h (predictorTable p)) (with_store (DataStore.remove (store p)) p).

(** [get_path_hash]: a shift by 64 or more is undefined. *)
Definition get_path_hash (p : t) : res Z :=
  n ← SQ.get_size (pathHistory p);
  for_each (seq 0 n)
    (fun i result =>
       pc ← SQ.get i (pathHistory p);
       if bool_decide (64 <= i)%nat then Fail Undefined
       else Ok (Z.lxor result (u64 (Z.shiftl pc (Z.of_nat i))))) 0.

Section Iteration.
Context `{O : IterOrder}.

Definition getEvictionIndex (p : t) : res Z :=
  if negb (disableConfidence (cfg p)) then
    for_each (iter (predictorTable p))
      (fun '(h, e) result =>
         Ok (if Confidence.value (PTE.addrConf e) <=? LOW_CONF_TRESH then h else result)) 0
  else
    for_each (iter (predictorTable p))
      (fun '(h, e) result =>
         age ← PTE.get_age (currentOrder p) e;
         Ok (if STALE_ENTRY_AGE_THRESHOLD (cfg p) <? age then h else result)) 0.

Definition has_hash (h : Z) (p : t) : res bool :=
  r ← search (iter (predictorTable p)) (fun '(_, e) => eh ← PTE.get_hash e; Ok (eh =? h));
  Ok (bool_decide (is_Some r)).

Definition get_with_hash (now h : Z) (p : t) : res PTE.t :=
  '(result, found) ← for_each (iter (predictorTable p))
     (fun '(_, e) '(result, found) =>
        eh ← PTE.get_hash e;
        Ok (if eh =? h then (PTE.assign result e, true) else (result, found)))
     (PTE.new (entry_config (cfg p)) now, false);
  panic_if (negb found) ;; Ok result.

(** First loop of [cleanup_stale_entries]: the keys to delete. *)
Definition stale_step (p : t) (x : Z * PTE.t) (st : list Z * SharedArea.t)
    : res (list Z * SharedArea.t) :=
  let '(h, e) := x in
  let '(deletionQ, sh) := st in
  let sh := SharedArea.initConf h sh in
  age ← PTE.get_age (currentOrder p) e;
  Ok (if (STALE_ENTRY_AGE_THRESHOLD (cfg p) <? age)
         && (SharedArea.confidence h sh <? PRED_CONFIDENCE_MAX)
      then (deletionQ ++ [h], sh) else (deletionQ, sh)).

Definition find_stale (p : t) (sh : SharedArea.t) : res (list Z * SharedArea.t) :=
  for_each (iter (predictorTable p)) (stale_step p) ([], sh).

Definition cleanup_stale_entries (p : t) (sh : SharedArea.t) : res (t * SharedArea.t) :=
  '(deletionQ, sh) ← find_stale p sh;
  let p := foldl (fun p h => with_stats (Stats.incr "staleEntryDeletionCounter")
                               (remove_elem h p)) p deletionQ in
  Ok (p, sh).

Definition tick (p : t) (sh : SharedArea.t) : res (t * SharedArea.t) :=
  '(p, sh) ← (if clock p mod CLOCK_PERIOD =? 0 then
                '(p, sh) ← cleanup_stale_entries p sh;
                Ok (with_stats (Stats.incr "predictorTableTicks") p, sh)
              else Ok (p, sh));
  Ok (with_clock (u64 (clock p + 1)) p, sh).
End Iteration.

Definition notify_correct_prediction (h : Z) (addrPrediction dataPrediction : bool) (p : t)
    : res t :=
  let p := with_stats (Stats.incr "notifications") p in
  match predictorTable p !! h with
  | Some e =>
      e ← PTE.notify_confidence addrPrediction dataPrediction e;
      let e := PTE.notify_correct_prediction addrPrediction dataPrediction e in
      Ok (with_table (<[h := e]> (predictorTable p)) p)
  | None => Ok p
  end.

(** The checks both loops of [update_entry_for_0_pred_handler] make before
    they compare the target's and the source's word at index [i]. *)
Definition both_words (i : nat) (target source : list ChunkInfo.t)
    : res (option (ChunkInfo.t * Z * Z)) :=
  tc ← deref (target !! i);
  sc ← deref (source !! i);
  targetValid ← is_valid tc;
  sourceValid ← is_valid sc;
  if targetValid && sourceValid then
    panic_if (negb (type_eqb (get_chunk_type tc) DATA)) ;;
    panic_if (negb (type_eqb (get_chunk_type sc) DATA)) ;;
    td ← get_data tc;
    sd ← get_data sc;
    Ok (Some (tc, td, sd))
  else Ok None.

Definition set_zero_chunk (source : list ChunkInfo.t) (i : nat)
    (st : list ChunkInfo.t * Stats.t) : res (list ChunkInfo.t * Stats.t) :=
  let '(target, stats) := st in
  w ← both_words i target source;
  Ok (match w with
      | Some (tc, td, sd) =>
          if (td =? sd) && (td =? 0) then
            (<[i := set_const_0_pred tc]> target, Stats.incr "const0PredUpdates" stats)
          else (target, stats)
      | None => (target, stats)
      end).

Definition unset_zero_chunk (source : list ChunkInfo.t) (i : nat)
    (st : list ChunkInfo.t * Stats.t) : res (list ChunkInfo.t * Stats.t) :=
  let '(target, stats) := st in
  w ← both_words i target source;
  Ok (match w with
      | Some (tc, td, sd) =>
          if negb (td =? sd) && is_const_0_pred tc then
            (<[i := unset_const_0_pred tc]> target, Stats.incr "const0PredDeletions" stats)
          else (target, stats)
      | None => (target, stats)
      end).

Definition update_entry_for_0_pred_handler (elem : PTE.t) (p : t) : res t :=
  h ← PTE.get_hash elem;
  panic_if (negb (bool_decide (is_Some (predictorTable p !! h)))) ;;
  targetEntry ← at_ (predictorTable p !! h);
  let source := PTE.dataChunks elem in
  st ← for_each (seq 0 DATA_CHUNK_COUNT) (set_zero_chunk source)
         (PTE.dataChunks targetEntry, stats p);
  '(target, stats') ← for_each (seq 0 DATA_CHUNK_COUNT) (unset_zero_chunk source) st;
  Ok (with_stats (fun _ => stats')
        (with_table (<[h := PTE.with_dataChunks target targetEntry]> (predictorTable p)) p)).

Definition update_entry_for_0_pred (elem : PTE.t) (p : t) : res t :=
  if const0PredEnabled (cfg p) then update_entry_for_0_pred_handler elem p else Ok p.

Section Updates.
Context `{O : IterOrder}.

(** The branch of [add] for a hash that is in the table. *)
Definition add_existing (elem : PTE.t) (h : Z) (old : PTE.t) (p : t) : res t :=
  let shouldReplace :=
    (Confidence.value (PTE.addrConf old) <=? LOW_CONF_TRESH)
    || (Confidence.value (PTE.dataConf old) <=? LOW_CONF_TRESH) in
  if shouldReplace then
    let p := with_stats (Stats.incr "entryReplacementCounter") p in
    Ok (with_table (map_insert h elem (predictorTable p)) p)
  else
    let p := with_stats (Stats.incr "droppedAdditions") p in
    d ← Confidence.sub 1 (PTE.dataConf old);
    let old := PTE.with_confs (PTE.addrConf old) d old in
    update_entry_for_0_pred elem (with_table (<[h := old]> (predictorTable p)) p).

(** The branch for a new hash. *)
Definition add_fresh (elem : PTE.t) (h : Z) (p : t) : res t :=
  p ← (if MAX_SIZE (cfg p) <? size p + 1 then
         indexToEvict ← getEvictionIndex p;
         Ok (if indexToEvict =? 0 then p
             else with_table (delete indexToEvict (predictorTable p))
                    (with_stats (Stats.incr "capacityEvictions") p))
       else Ok p);
  Ok (with_table (map_insert h elem (predictorTable p)) p).

Definition add (elem : PTE.t) (p : t) (sh : SharedArea.t) : res (t * SharedArea.t) :=
  panic_if_not (PTE.has_orig_cacheline elem) ;;
  let p := with_store (DataStore.add (store p)) p in
  '(p, sh) ← tick p sh;
  let elem := PTE.set_order (currentOrder p) elem in
  let p := with_order (currentOrder p + 1) p in
  h ← PTE.get_hash elem;
  p ← match predictorTable p !! h with
      | Some old => add_existing elem h old p
      | None => add_fresh elem h p
      end;
  panic_if_not (size p <=? MAX_SIZE (cfg p)) ;;
  Ok (p, sh).

(** The inner loop of [check_shared_area]: one notification per correct
    address prediction; [int]s as in the code. *)
Definition notify_all (h correctAddrPred correctDataPred : Z) (p : t) : res t :=
  for_each (seq 0 (Z.to_nat correctAddrPred))
    (fun i p =>
       let wasDataPredicted := 0 <=? correctDataPred - Z.of_nat i in
       p ← notify_correct_prediction h true wasDataPredicted p;
       Ok (if wasDataPredicted then with_stats (Stats.incr "correctPredictionCounter") p
           else p)) p.

Definition check_shared_area (p : t) (sh : SharedArea.t) : res (t * SharedArea.t) :=
  p ← for_each (iter (SharedArea.correctPredictions sh))
        (fun '(h, (a, d)) p => notify_all h (i32 a) (i32 d) p) p;
  Ok (p, SharedArea.with_correctPredictions ∅ sh).

(** [update_ihb]: the padded copy of a store smaller than a chunk is made
    and never used, only the access to the packet's data remains of it. *)
Definition update_ihb (pkt : Packet.t) (p : t) (sh : SharedArea.t)
    : res (bool * t * SharedArea.t) :=
  '(p, sh) ← check_shared_area p sh;
  panic_if (negb (Packet.isWrite pkt)) ;;
  pc ← Packet.getPC pkt;
  (if Packet.size pkt <? 4 then
     if (Packet.size pkt =? 1) || (Packet.size pkt =? 2)
     then _ ← Packet.getPtr pkt; Ok tt else Ok tt
   else _ ← Packet.getPtr pkt; Ok tt) ;;
  q ← SQ.push_back pc (pathHistory p);
  let p := with_lastFound [] (with_path q p) in
  h ← get_path_hash p;
  found ← has_hash h p;
  if found : bool then Ok (true, with_lastFound [h] p, sh)
  else Ok (false, p, sh).
End Updates.

(** ** Invariant *)

Record entry_ok (order k : Z) (e : PTE.t) : Prop := {
  eo_hash : PTE.hasHash e = true /\ PTE.hash e = k;
  eo_age : PTE.hasAge e = true /\ PTE.insertionOrder e <= order;
  eo_confs : Confidence.wf (PTE.addrConf e) /\ Confidence.wf (PTE.dataConf e);
  eo_rewards : 0 <= PTE.CORRECT_ADDR_PREDICTION_AGE_REWARD e /\
               0 <= PTE.CORRECT_DATA_PREDICTION_AGE_REWARD e;
  eo_chunks : CacheLine.wf_chunks (PTE.dataChunks e)
}.

Definition table_ok (order : Z) (m : gmap Z PTE.t) : Prop :=
  forall k e, m !! k = Some e -> entry_ok order k e.

(** The member [size] is never written, so it stays 0. *)
Record wf (p : t) : Prop := {
  wf_table : table_ok (currentOrder p) (predictorTable p);
  wf_size : size p = 0;
  wf_max : 1 <= MAX_SIZE (cfg p);
  wf_path : SQ.ok (pathHistory p) /\ (SQ.sz (pathHistory p) <= 64)%nat
}.

(** An entry that may be added. *)
Record elem_ok (e : PTE.t) : Prop := {
  el_orig : PTE.hasOrigCL e = true;
  el_hash : PTE.hasHash e = true;
  el_confs : Confidence.wf (PTE.addrConf e) /\ Confidence.wf (PTE.dataConf e);
  el_rewards : 0 <= PTE.CORRECT_ADDR_PREDICTION_AGE_REWARD e /\
               0 <= PTE.CORRECT_DATA_PREDICTION_AGE_REWARD e;
  el_chunks : CacheLine.wf_chunks (PTE.dataChunks e)
}.

Lemma table_new_wf c name :
  1 <= MAX_SIZE c -> (1 <= PATH_HISTORY_SIZE c <= 64)%nat -> wf (new c name).
Proof.
  intros H1 H2. split; cbn; [|done|done|].
  - intros k e. by rewrite lookup_empty.
  - split; [split; cbn; lia|lia].
Qed.

Lemma entry_ok_weaken o o' k e : o <= o' -> entry_ok o k e -> entry_ok o' k e.
Proof. intros Ho [? [? ?] ? ? ?]. split; try done. split; [done|lia]. Qed.

Lemma table_ok_insert o m k e :
  table_ok o m -> entry_ok o k e -> table_ok o (<[k := e]> m).
Proof.
  intros Hm He j e'. destruct (decide (j = k)) as [->|].
  - rewrite lookup_insert_eq. by intros [= <-].
  - rewrite lookup_insert_ne by done. apply Hm.
Qed.

Lemma get_hash_ok e h : PTE.hasHash e = true -> PTE.hash e = h -> PTE.get_hash e = Ok h.
Proof. intros H <-. unfold PTE.get_hash, PTE.has_hash. by rewrite H. Qed.

Lemma get_age_ok order k e :
  entry_ok order k e -> PTE.get_age order e = Ok (order - PTE.insertionOrder e).
Proof.
  intros [_ [Ha Ho] _ _ _]. unfold PTE.get_age. rewrite Ha. cbn.
  by destruct (Z.ltb_spec order (PTE.insertionOrder e)); [lia|].
Qed.

(** *** Lookups by hash *)
Section Lookup.
Context `{O : IterOrder}.

(** The search over all entries agrees with a lookup of the key, for every
    iteration order. *)
Lemma has_hash_contains h p : wf p -> has_hash h p = Ok (contains h p).
Proof.
  intros Hwf. unfold has_hash, contains.
  rewrite (search_find _ _ (fun x => x.1 =? h)).
  - cbn. f_equal. apply bool_decide_ext. split.
    + intros [[k e] H]. apply List.find_some in H as [Hin Heq].
      apply Z.eqb_eq in Heq. cbn in Heq. subst.
      apply list_elem_of_In, elem_of_iter in Hin. by exists e.
    + intros [e He]. destruct (List.find _ _) as [x|] eqn:F; [done|].
      apply elem_of_iter, list_elem_of_In in He.
      apply (List.find_none _ _ F) in He. cbn in He. lia.
  - intros [k e] Hin%elem_of_iter. destruct (wf_table _ Hwf k e Hin) as [[Hh Hk] _ _ _ _].
    rewrite (get_hash_ok e k) by done. done.
Qed.

(** [get_with_hash] on a list of entries with distinct keys. *)
Lemma get_with_hash_loop order h l r f :
  NoDup l.*1 -> (forall k e, (k, e) ∈ l -> entry_ok order k e) ->
  for_each l (fun '(_, e) '(result, found) =>
        eh ← PTE.get_hash e;
        Ok (if eh =? h then (PTE.assign result e, true) else (result, found))) (r, f) =
    Ok (match List.find (fun x => x.1 =? h) l with
        | Some (_, e) => (PTE.assign r e, true)
        | None => (r, f)
        end).
Proof.
  revert r f. induction l as [|[k e] l IH]; intros r f Hnd Hok; [done|].
  destruct (Hok k e) as [[Hh Hk] _ _ _ _]; [set_solver|].
  cbn. rewrite (get_hash_ok e k) by done. cbn. apply NoDup_cons in Hnd as [Hni Hnd].
  assert (forall k' e', (k', e') ∈ l -> entry_ok order k' e') as Hok' by set_solver.
  destruct (Z.eqb_spec k h) as [->|]; rewrite IH by done; [|done].
  destruct (List.find _ l) as [[k' e']|] eqn:F; [|done].
  apply List.find_some in F as [Hin Heq%Z.eqb_eq]. cbn in Heq. subst k'. exfalso.
  apply Hni, list_elem_of_fmap. exists (h, e'). split; [done|]. by apply list_elem_of_In.
Qed.

(** [get_with_hash] returns the entry of the hash, except for the members
    its assignment operator leaves out: the confidences, the rewards and the
    address-only mark are those of a new entry. *)
Lemma get_with_hash_ok now h p :
  wf p ->
  get_with_hash now h p =
    match predictorTable p !! h with
    | Some e => Ok (PTE.assign (PTE.new (entry_config (cfg p)) now) e)
    | None => Fail Panic
    end.
Proof.
  intros Hwf. unfold get_with_hash.
  rewrite (get_with_hash_loop (currentOrder p)).
  - destruct (List.find _ _) as [[k e]|] eqn:F.
    + apply List.find_some in F as [Hin Heq%Z.eqb_eq]. cbn in Heq. subst.
      apply list_elem_of_In, elem_of_iter in Hin. by rewrite Hin.
    + destruct (predictorTable p !! h) as [e|] eqn:E; [|done].
      apply elem_of_iter, list_elem_of_In in E.
      apply (List.find_none _ _ F) in E. cbn in E. lia.
  - apply NoDup_iter_fst.
  - intros k e Hin%elem_of_iter. by apply (wf_table _ Hwf).
Qed.
End Lookup.

(** *** Removal of stale entries *)

(** An entry is stale when its age exceeds the threshold and the backend's
    confidence in its hash is not at its maximum. *)
Definition staleb (p : t) (sh : SharedArea.t) (x : Z * PTE.t) : bool :=
  (STALE_ENTRY_AGE_THRESHOLD (cfg p) <? currentOrder p - PTE.insertionOrder x.2) &&
  (default (PRED_CONFIDENCE_MAX - 1) (SharedArea.confidenceTable sh !! x.1)
     <? PRED_CONFIDENCE_MAX).

Definition live (p : t) (sh : SharedArea.t) : gmap Z PTE.t :=
  filter (fun x => staleb p sh x = false) (predictorTable p).

Lemma confidence_initConf h sh :
  SharedArea.confidence h (SharedArea.initConf h sh) =
    default (PRED_CONFIDENCE_MAX - 1) (SharedArea.confidenceTable sh !! h).
Proof.
  unfold SharedArea.confidence, SharedArea.initConf.
  destruct (SharedArea.confidenceTable sh !! h) eqn:E; cbn; [by rewrite E|].
  by rewrite lookup_insert_eq.
Qed.

Lemma initConf_other h k sh :
  h <> k ->
  SharedArea.confidenceTable (SharedArea.initConf h sh) !! k = SharedArea.confidenceTable sh !! k.
Proof.
  intros. unfold SharedArea.initConf. case_match; [done|]. cbn. by rewrite lookup_insert_ne.
Qed.

(** What the loops leave of the shared state: only confidences of keys the
    table holds are initialised. *)
Definition same_predictions (sh sh' : SharedArea.t) : Prop :=
  SharedArea.correctPredictions sh' = SharedArea.correctPredictions sh /\
  SharedArea.genPCConf sh' = SharedArea.genPCConf sh /\
  SharedArea.constPredTracker sh' = SharedArea.constPredTracker sh.

Lemma initConf_same h sh : same_predictions sh (SharedArea.initConf h sh).
Proof. unfold SharedArea.initConf. by case_match. Qed.

Lemma stale_step_ok p k e q sh sh0 :
  entry_ok (currentOrder p) k e ->
  SharedArea.confidenceTable sh !! k = SharedArea.confidenceTable sh0 !! k ->
  stale_step p (k, e) (q, sh) =
    Ok (q ++ (if staleb p sh0 (k, e) then [k] else []), SharedArea.initConf k sh).
Proof.
  intros He Hk. unfold stale_step, staleb. rewrite (get_age_ok _ k) by done.
  cbn [mbind res_bind fst snd]. rewrite confidence_initConf, Hk.
  by destruct (_ && _); rewrite ?app_nil_r.
Qed.

Lemma find_stale_loop p l q sh sh0 :
  NoDup l.*1 ->
  (forall k e, (k, e) ∈ l -> entry_ok (currentOrder p) k e /\
     SharedArea.confidenceTable sh !! k = SharedArea.confidenceTable sh0 !! k) ->
  SharedArea.conf_bounded sh ->
  exists sh', for_each l (stale_step p) (q, sh) =
      Ok (q ++ (filter (fun x => staleb p sh0 x = true) l).*1, sh') /\
    SharedArea.conf_bounded sh' /\ same_predictions sh sh'.
Proof.
  revert q sh. induction l as [|[k e] l IH]; intros q sh Hnd Hok Hb.
  { exists sh. cbn. rewrite app_nil_r. done. }
  apply NoDup_cons in Hnd as [Hni Hnd].
  destruct (Hok k e) as [He Hk]; [set_solver|].
  cbn [for_each]. rewrite (stale_step_ok p k e q sh sh0) by done. cbn [mbind res_bind].
  destruct (IH (q ++ if staleb p sh0 (k, e) then [k] else []) (SharedArea.initConf k sh))
    as (sh' & E & Hb' & Hs'); [done| |by apply SharedArea.initConf_bounded|].
  { intros k' e' Hin. destruct (Hok k' e') as [? ?]; [set_solver|]. split; [done|].
    rewrite initConf_other; [done|]. intros ->. apply Hni, list_elem_of_fmap.
    by exists (k', e'). }
  exists sh'. rewrite filter_cons.
  assert (same_predictions sh sh') as Hs''.
  { destruct (initConf_same k sh) as (? & ? & ?), Hs' as (? & ? & ?).
    repeat split; congruence. }
  rewrite E, <- app_assoc. split; [|done].
  by destruct (staleb p sh0 (k, e)); case_decide.
Qed.

Lemma remove_all_lookup (q : list Z) p k :
  predictorTable (foldl (fun p h => with_stats (Stats.incr "staleEntryDeletionCounter")
                                     (remove_elem h p)) p q) !! k =
    if decide (k ∈ q) then None else predictorTable p !! k.
Proof.
  revert p. induction q as [|h q IH]; intros p; cbn [foldl].
  { rewrite decide_False by set_solver. done. }
  rewrite IH. cbn. destruct (decide (k = h)) as [->|Hne].
  - rewrite lookup_delete_eq. rewrite (decide_True (P := h ∈ h :: q)) by set_solver.
    by case_decide.
  - rewrite lookup_delete_ne by done. apply decide_ext. set_solver.
Qed.

Lemma remove_all_frame (q : list Z) p :
  let p' := foldl (fun p h => with_stats (Stats.incr "staleEntryDeletionCounter")
                                (remove_elem h p)) p q in
  cfg p' = cfg p /\ size p' = size p /\ currentOrder p' = currentOrder p /\
  clock p' = clock p /\ pathHistory p' = pathHistory p /\
  lastFoundHashes p' = lastFoundHashes p.
Proof.
  revert p. induction q as [|h q IH]; intros p; cbn [foldl]; [done|].
  destruct (IH (with_stats (Stats.incr "staleEntryDeletionCounter") (remove_elem h p)))
    as (-> & -> & -> & -> & -> & ->). done.
Qed.

Lemma keys_of_stale `{O : IterOrder} p sh k :
  k ∈ (filter (fun x => staleb p sh x = true) (iter (predictorTable p))).*1 <->
  exists e, predictorTable p !! k = Some e /\ staleb p sh (k, e) = true.
Proof.
  rewrite list_elem_of_fmap. split.
  - intros [[k' e] [-> H]]. apply list_elem_of_filter in H as [Hs Hin].
    exists e. split; [by apply elem_of_iter|done].
  - intros [e [He Hs]]. exists (k, e). split; [done|]. apply list_elem_of_filter.
    split; [done|by apply elem_of_iter].
Qed.

(** Cleaning removes exactly the stale entries, whatever the iteration order. *)
Lemma cleanup_ok `{O : IterOrder} p sh :
  wf p -> SharedArea.conf_bounded sh ->
  exists p' sh', cleanup_stale_entries p sh = Ok (p', sh') /\
    predictorTable p' = live p sh /\ cfg p' = cfg p /\ size p' = size p /\
    currentOrder p' = currentOrder p /\ clock p' = clock p /\
    pathHistory p' = pathHistory p /\ lastFoundHashes p' = lastFoundHashes p /\
    SharedArea.conf_bounded sh' /\ same_predictions sh sh'.
Proof.
  intros Hwf Hb. unfold cleanup_stale_entries, find_stale.
  destruct (find_stale_loop p (iter (predictorTable p)) [] sh sh) as (sh' & -> & Hb' & Hs);
    [apply NoDup_iter_fst | | done |].
  { intros k e Hin%elem_of_iter. split; [by apply (wf_table _ Hwf)|done]. }
  cbn [app mbind res_bind]. eexists _, sh'. split; [done|].
  destruct (remove_all_frame (filter (fun x => staleb p sh x = true)
    (iter (predictorTable p))).*1 p) as (? & ? & ? & ? & ? & ?).
  split; [|done]. apply map_eq. intros k. rewrite remove_all_lookup. unfold live.
  destruct (decide (k ∈ _)) as [Hk|Hk]; rewrite keys_of_stale in Hk.
  - destruct Hk as (e & He & Hst). symmetry. apply map_lookup_filter_None. right.
    intros e' He'. naive_solver congruence.
  - destruct (predictorTable p !! k) as [e|] eqn:He.
    + symmetry. apply map_lookup_filter_Some. split; [done|].
      destruct (staleb p sh (k, e)) eqn:Hst; [|done]. exfalso. eauto.
    + symmetry. apply map_lookup_filter_None. by left.
Qed.

(** *** Constant-zero marks *)

Lemma both_words_ok i target source tc sc :
  target !! i = Some tc -> source !! i = Some sc -> line_chunk tc -> line_chunk sc ->
  both_words i target source =
    Ok (if validb tc && validb sc then Some (tc, datum tc, datum sc) else None).
Proof.
  intros Ht Hs Lt Ls. unfold both_words. rewrite Ht, Hs. cbn [deref mbind res_bind].
  rewrite !is_valid_legal by auto with pmweaver. cbn [mbind res_bind].
  destruct (validb tc) eqn:Vt; [|done]. destruct (validb sc) eqn:Vs; [|done]. cbn [andb].
  unfold get_chunk_type. fold (datab tc) (datab sc).
  rewrite <- !line_chunk_valid, Vt, Vs by done. cbn [negb panic_if mbind res_bind].
  by rewrite !get_data_line by done.
Qed.

Definition mark_zero (source : list ChunkInfo.t) (i : nat) (tc : ChunkInfo.t) : ChunkInfo.t :=
  match CacheLine.view source i with
  | Some sd => if validb tc && (datum tc =? sd) && (datum tc =? 0) then set_const_0_pred tc else tc
  | None => tc
  end.

Definition unmark_zero (source : list ChunkInfo.t) (i : nat) (tc : ChunkInfo.t) : ChunkInfo.t :=
  match CacheLine.view source i with
  | Some sd =>
      if validb tc && negb (datum tc =? sd) && is_const_0_pred tc then unset_const_0_pred tc else tc
  | None => tc
  end.

(** Setting or clearing the mark keeps a chunk's validity and word. *)
Lemma mark_zero_keeps source i tc :
  line_chunk tc -> line_chunk (mark_zero source i tc) /\
    validb (mark_zero source i tc) = validb tc /\ datum (mark_zero source i tc) = datum tc.
Proof.
  intros H. unfold mark_zero. repeat case_match; try done. split; [|done].
  destruct H as [H|[? ?]]; [by left|right]. split; [done|].
  unfold has, set_const_0_pred. cbn. by flag_simpl.
Qed.

Lemma unmark_zero_keeps source i tc :
  line_chunk tc -> line_chunk (unmark_zero source i tc) /\
    validb (unmark_zero source i tc) = validb tc /\ datum (unmark_zero source i tc) = datum tc.
Proof.
  intros H. unfold unmark_zero. repeat case_match; try done. split; [|done].
  destruct H as [H|[? ?]]; [by left|right]. split; [done|].
  unfold has, unset_const_0_pred. cbn. by flag_simpl.
Qed.

Lemma imap_wf (f : nat -> ChunkInfo.t -> ChunkInfo.t) cs :
  (forall i c, line_chunk c -> line_chunk (f i c)) ->
  CacheLine.wf_chunks cs -> CacheLine.wf_chunks (imap f cs).
Proof.
  intros Hf [Hl Hc]. split; [by rewrite length_imap|]. apply Forall_lookup.
  intros i c. rewrite list_lookup_imap. destruct (cs !! i) as [x|] eqn:E; cbn; [|done].
  intros [= <-]. apply Hf. by eapply Forall_lookup_1.
Qed.

Lemma set_zero_loop source target st :
  CacheLine.wf_chunks source -> CacheLine.wf_chunks target ->
  exists st', for_each (seq 0 DATA_CHUNK_COUNT) (set_zero_chunk source) (target, st) =
    Ok (imap (mark_zero source) target, st').
Proof.
  intros Hs Ht. rewrite <- (CacheLine.wf_length _ Ht). eexists.
  apply (for_each_imap (mark_zero source) (fun i tc s =>
    match CacheLine.view source i with
    | Some sd => if validb tc && (datum tc =? sd) && (datum tc =? 0)
                 then Stats.incr "const0PredUpdates" s else s
    | None => s
    end)).
  intros i tc l s Hi Hl. assert (i < DATA_CHUNK_COUNT)%nat as Hlt
    by (apply lookup_lt_Some in Hi; by rewrite <- (CacheLine.wf_length _ Ht)).
  destruct (CacheLine.wf_lookup _ i Hs Hlt) as (sc & Es & Ls).
  assert (line_chunk tc) as Lt by (by eapply Forall_lookup_1; [apply Ht|]).
  unfold set_zero_chunk. rewrite (both_words_ok i l source tc sc) by done. cbn [mbind res_bind].
  unfold mark_zero, CacheLine.view. rewrite Es.
  destruct (validb tc), (validb sc); cbn [andb]; try case_match; rewrite ?(list_insert_id l i tc); done.
Qed.

Lemma unset_zero_loop source target st :
  CacheLine.wf_chunks source -> CacheLine.wf_chunks target ->
  exists st', for_each (seq 0 DATA_CHUNK_COUNT) (unset_zero_chunk source) (target, st) =
    Ok (imap (unmark_zero source) target, st').
Proof.
  intros Hs Ht. rewrite <- (CacheLine.wf_length _ Ht). eexists.
  apply (for_each_imap (unmark_zero source) (fun i tc s =>
    match CacheLine.view source i with
    | Some sd => if validb tc && negb (datum tc =? sd) && is_const_0_pred tc
                 then Stats.incr "const0PredDeletions" s else s
    | None => s
    end)).
  intros i tc l s Hi Hl. assert (i < DATA_CHUNK_COUNT)%nat as Hlt
    by (apply lookup_lt_Some in Hi; by rewrite <- (CacheLine.wf_length _ Ht)).
  destruct (CacheLine.wf_lookup _ i Hs Hlt) as (sc & Es & Ls).
  assert (line_chunk tc) as Lt by (by eapply Forall_lookup_1; [apply Ht|]).
  unfold unset_zero_chunk. rewrite (both_words_ok i l source tc sc) by done.
  cbn [mbind res_bind]. unfold unmark_zero, CacheLine.view. rewrite Es.
  destruct (validb tc), (validb sc); cbn [andb]; try case_match; rewrite ?(list_insert_id l i tc); done.
Qed.

(** The chunks the handler leaves in the existing entry. *)
Definition zero_marked (source target : list ChunkInfo.t) : list ChunkInfo.t :=
  imap (unmark_zero source) (imap (mark_zero source) target).

Lemma zero_marked_wf source target :
  CacheLine.wf_chunks target -> CacheLine.wf_chunks (zero_marked source target).
Proof.
  intros H. apply imap_wf; [intros; by apply unmark_zero_keeps|].
  apply imap_wf; [intros; by apply mark_zero_keeps|done].
Qed.

Lemma zero_marked_view source target i :
  CacheLine.wf_chunks target ->
  CacheLine.view (zero_marked source target) i = CacheLine.view target i.
Proof.
  intros H. unfold CacheLine.view, zero_marked. rewrite !list_lookup_imap.
  destruct (target !! i) as [tc|] eqn:E; cbn; [|done].
  assert (line_chunk tc) as Lt by (by eapply Forall_lookup_1; [apply H|]).
  destruct (mark_zero_keeps source i tc Lt) as (L1 & V1 & D1).
  destruct (unmark_zero_keeps source i _ L1) as (_ & V2 & D2).
  by rewrite V2, V1, D2, D1.
Qed.

(** A chunk of the entry is marked exactly when it was and the new write does
    not contradict it, or both writes hold zero there. *)
Lemma zero_marked_flag source target i tc :
  target !! i = Some tc ->
  is_const_0_pred <$> zero_marked source target !! i =
    Some (match CacheLine.view source i with
          | Some sd =>
              if validb tc then
                if datum tc =? sd then is_const_0_pred tc || (datum tc =? 0) else false
              else is_const_0_pred tc
          | None => is_const_0_pred tc
          end).
Proof.
  intros H. unfold zero_marked. rewrite !list_lookup_imap, H. cbn. f_equal.
  unfold unmark_zero, mark_zero. destruct (CacheLine.view source i) as [sd|]; [|done].
  destruct (validb tc && (datum tc =? sd) && (datum tc =? 0)) eqn:C.
  - change (validb (set_const_0_pred tc)) with (validb tc).
    change (datum (set_const_0_pred tc)) with (datum tc).
    destruct (validb tc), (datum tc =? sd), (datum tc =? 0); try done. cbn.
    rewrite orb_true_r. unfold is_const_0_pred, has, set_const_0_pred. cbn. by flag_simpl.
  - destruct (validb tc); [|done]. cbn [andb] in *.
    destruct (datum tc =? sd); cbn [andb negb] in *; [by rewrite C, orb_false_r|].
    destruct (is_const_0_pred tc) eqn:F; [|done].
    unfold is_const_0_pred, has, unset_const_0_pred. cbn. by flag_simpl.
Qed.

(** *** Additions *)

(** The table after the periodic cleaning that opens every addition. *)
Definition ticked (p : t) (sh : SharedArea.t) : gmap Z PTE.t :=
  if clock p mod CLOCK_PERIOD =? 0 then live p sh else predictorTable p.

Lemma tick_ok `{O : IterOrder} p sh :
  wf p -> SharedArea.conf_bounded sh ->
  exists p' sh', tick p sh = Ok (p', sh') /\ predictorTable p' = ticked p sh /\
    cfg p' = cfg p /\ size p' = size p /\ currentOrder p' = currentOrder p /\
    pathHistory p' = pathHistory p /\ SharedArea.conf_bounded sh' /\ same_predictions sh sh'.
Proof.
  intros Hwf Hb. unfold tick, ticked. destruct (clock p mod CLOCK_PERIOD =? 0).
  - destruct (cleanup_ok p sh Hwf Hb)
      as (p' & sh' & -> & Ht & Hc & Hs & Ho & Hcl & Hp & Hl & Hb' & Hsame).
    cbn. eexists _, sh'. split; [done|]. done.
  - cbn. eexists _, sh. split; [done|]. done.
Qed.

Lemma ticked_ok p sh : wf p -> table_ok (currentOrder p) (ticked p sh).
Proof.
  intros Hwf k e. unfold ticked, live. destruct (clock p mod CLOCK_PERIOD =? 0).
  - rewrite map_lookup_filter_Some. intros [H _]. by apply (wf_table _ Hwf).
  - apply (wf_table _ Hwf).
Qed.

Definition low_confidence (e : PTE.t) : bool :=
  (Confidence.conf (PTE.addrConf e) <=? LOW_CONF_TRESH) ||
  (Confidence.conf (PTE.dataConf e) <=? LOW_CONF_TRESH).

(** The entry an addition for a known hash leaves in the table. *)
Definition kept (c : config) (elem old : PTE.t) : res PTE.t :=
  if low_confidence old then Ok old
  else
    d ← Confidence.sub 1 (PTE.dataConf old);
    let old' := PTE.with_confs (PTE.addrConf old) d old in
    Ok (if const0PredEnabled c then
          PTE.with_dataChunks (zero_marked (PTE.dataChunks elem) (PTE.dataChunks old)) old'
        else old').

Lemma add_existing_ok elem h old p order :
  elem_ok elem -> PTE.hash elem = h -> entry_ok order h old ->
  predictorTable p !! h = Some old ->
  exists p' e', kept (cfg p) elem old = Ok e' /\ entry_ok order h e' /\
    (forall i, CacheLine.view (PTE.dataChunks e') i = CacheLine.view (PTE.dataChunks old) i) /\
    add_existing elem h old p = Ok p' /\ predictorTable p' = <[h := e']> (predictorTable p) /\
    cfg p' = cfg p /\ size p' = size p /\ currentOrder p' = currentOrder p /\
    pathHistory p' = pathHistory p.
Proof.
  intros He Hh Hold Hp. pose proof Hold as [Hhash Hage [Ha Hd] Hr Hc].
  unfold add_existing, kept, low_confidence. rewrite !Confidence.value_wf by done.
  destruct (_ || _).
  { eexists _, old. do 4 (split; [done|]). cbn. unfold map_insert. rewrite Hp.
    split; [by rewrite insert_id|done]. }
  destruct (Confidence.sub_spec 1 _ Hd) as (d & E & Hd' & _). rewrite E. cbn [mbind res_bind].
  unfold update_entry_for_0_pred. cbn [cfg with_table with_stats].
  destruct (const0PredEnabled (cfg p)).
  - unfold update_entry_for_0_pred_handler.
    rewrite (get_hash_ok elem h) by (apply He || done). cbn [mbind res_bind].
    cbn [predictorTable with_table with_stats]. rewrite lookup_insert_eq.
    cbn [at_ mbind res_bind PTE.dataChunks PTE.with_confs panic_if negb bool_decide].
    rewrite bool_decide_true by done. cbn [panic_if negb mbind res_bind].
    destruct (set_zero_loop (PTE.dataChunks elem) (PTE.dataChunks old)
      (stats (with_table (<[h := PTE.with_confs (PTE.addrConf old) d old]> (predictorTable p))
         (with_stats (Stats.incr "droppedAdditions") p)))) as (st1 & E1); [apply He|done|].
    rewrite E1. cbn [mbind res_bind].
    destruct (unset_zero_loop (PTE.dataChunks elem) (imap (mark_zero (PTE.dataChunks elem))
      (PTE.dataChunks old)) st1) as (st2 & E2);
      [apply He|apply imap_wf; [intros; by apply mark_zero_keeps|done]|].
    rewrite E2. eexists _, _. split; [done|]. split; [|split; [|split; [done|]]].
    + split; cbn; try done. by apply zero_marked_wf.
    + intros i. by apply zero_marked_view.
    + cbn. split; [|done]. by rewrite insert_insert_eq.
  - eexists _, _. split; [done|]. split; [|done]. by split.
Qed.

Lemma add_fresh_ok `{O : IterOrder} elem h p :
  size p = 0 -> 1 <= MAX_SIZE (cfg p) -> predictorTable p !! h = None ->
  add_fresh elem h p = Ok (with_table (<[h := elem]> (predictorTable p)) p).
Proof.
  intros Hs Hm Hn. unfold add_fresh. rewrite Hs.
  destruct (Z.ltb_spec (MAX_SIZE (cfg p)) (0 + 1)); [lia|]. cbn.
  unfold map_insert. by rewrite Hn.
Qed.

(** What the table holds for a hash after an addition of [elem] with it. *)
Definition stored (p : t) (sh : SharedArea.t) (elem : PTE.t) : res PTE.t :=
  match ticked p sh !! PTE.hash elem with
  | Some old => kept (cfg p) elem old
  | None => Ok (PTE.set_order (currentOrder p) elem)
  end.

Lemma table_ok_weaken o o' m : o <= o' -> table_ok o m -> table_ok o' m.
Proof. intros Ho H k e Hk. eapply entry_ok_weaken; [done|by apply H]. Qed.

Lemma elem_entry_ok e o : elem_ok e -> entry_ok o (PTE.hash e) (PTE.set_order o e).
Proof. intros [? ? ? ? ?]. split; cbn; try done. Qed.

Lemma add_ok `{O : IterOrder} elem p sh :
  wf p -> elem_ok elem -> SharedArea.conf_bounded sh ->
  exists p' sh' e', add elem p sh = Ok (p', sh') /\ wf p' /\ SharedArea.conf_bounded sh' /\
    currentOrder p' = currentOrder p + 1 /\ stored p sh elem = Ok e' /\
    predictorTable p' = <[PTE.hash elem := e']> (ticked p sh) /\
    (forall old i, ticked p sh !! PTE.hash elem = Some old ->
       CacheLine.view (PTE.dataChunks e') i = CacheLine.view (PTE.dataChunks old) i) /\
    cfg p' = cfg p /\ pathHistory p' = pathHistory p /\ same_predictions sh sh'.
Proof.
  intros Hwf He Hb. unfold add. unfold PTE.has_orig_cacheline. rewrite (el_orig _ He).
  cbn [panic_if_not panic_if negb mbind res_bind].
  set (p0 := with_store (DataStore.add (store p)) p).
  destruct (tick_ok p0 sh) as (p1 & sh1 & E1 & T1 & C1 & S1 & O1 & Q1 & Hb1 & P1);
    [by destruct Hwf; split|done|].
  rewrite E1. cbn [mbind res_bind]. change (ticked p0 sh) with (ticked p sh) in T1.
  rewrite (get_hash_ok _ (PTE.hash elem)) by (apply He || done). cbn [mbind res_bind].
  cbn [predictorTable with_order]. rewrite T1, O1. change (currentOrder p0) with (currentOrder p).
  set (elem' := PTE.set_order (currentOrder p) elem).
  set (p2 := with_order (currentOrder p + 1) p1).
  assert (table_ok (currentOrder p) (ticked p sh)) as Htk by (by apply ticked_ok).
  assert (cfg p2 = cfg p /\ size p2 = 0 /\ pathHistory p2 = pathHistory p) as (C2 & S2 & Q2).
  { cbn. rewrite C1, S1, Q1. cbn. by rewrite (wf_size _ Hwf). }
  assert (wf_next : forall p' e', entry_ok (currentOrder p) (PTE.hash elem) e' ->
    predictorTable p' = <[PTE.hash elem := e']> (ticked p sh) -> cfg p' = cfg p ->
    size p' = 0 -> currentOrder p' = currentOrder p + 1 -> pathHistory p' = pathHistory p ->
    wf p').
  { intros p' e' Hok Ht Hc Hs Ho Hq. split; [|done|rewrite Hc; apply Hwf|rewrite Hq; apply Hwf].
    rewrite Ho, Ht. apply (table_ok_weaken (currentOrder p)); [lia|].
    by apply table_ok_insert. }
  pose proof (wf_max _ Hwf) as Hmax. unfold stored.
  destruct (ticked p sh !! PTE.hash elem) as [old|] eqn:L.
  - destruct (add_existing_ok elem' (PTE.hash elem) old p2 (currentOrder p))
      as (p3 & e' & Hk & Hok & Hv & E3 & T3 & C3 & S3 & O3 & Q3);
      [by destruct He; split|done|by apply Htk|cbn; by rewrite T1|].
    rewrite E3. cbn [mbind res_bind]. rewrite S3, C3, S2, C2.
    destruct (Z.leb_spec 0 (MAX_SIZE (cfg p))); [|lia].
    exists p3, sh1, e'. split; [done|]. cbn in T3, O3. rewrite T1 in T3. rewrite C2 in Hk.
    split; [apply (wf_next p3 e'); try done; congruence|].
    do 4 (split; [done || congruence|]). split; [intros ? i [= <-]; apply Hv|].
    split; [congruence|]. split; [congruence|done].
  - rewrite add_fresh_ok; [|done|by rewrite C2|cbn; by rewrite T1].
    cbn [mbind res_bind]. change (size (with_table _ p2)) with (size p2).
    change (cfg (with_table _ p2)) with (cfg p2). rewrite S2, C2. destruct (Z.leb_spec 0 (MAX_SIZE (cfg p))); [|lia].
    eexists _, sh1, elem'. split; [done|]. cbn [predictorTable with_table p2 with_order].
    rewrite T1. split; [|done].
    apply (wf_next _ elem'); try done. by apply elem_entry_ok.
Qed.

(** *** The pattern of an entry *)

(** What an entry predicts: its chunks and the line it was made for. *)
Definition same_pattern (e e' : PTE.t) : Prop :=
  PTE.addrChunk e' = PTE.addrChunk e /\ PTE.dataChunks e' = PTE.dataChunks e /\
  PTE.originalCacheLine e' = PTE.originalCacheLine e /\ PTE.hasOrigCL e' = PTE.hasOrigCL e.

(** A chunk that names the same store, whatever its constant-zero mark. *)
Record same_source (c c' : ChunkInfo.t) : Prop := {
  ss_type : chunkType c' = chunkType c;
  ss_pc : generatingPC c' = generatingPC c;
  ss_offset : dataFieldOffset c' = dataFieldOffset c;
  ss_flags : has HAS_GEN_PC c' = has HAS_GEN_PC c /\
    has HAS_DATA_FIELD_OFF c' = has HAS_DATA_FIELD_OFF c /\
    has WHB_SEARCH c' = has WHB_SEARCH c
}.

(** An entry that waits for the same stores and the same line. *)
Record same_sources (e e' : PTE.t) : Prop := {
  sp_addr : PTE.addrChunk e' = PTE.addrChunk e;
  sp_chunks : Forall2 same_source (PTE.dataChunks e) (PTE.dataChunks e');
  sp_orig : PTE.originalCacheLine e' = PTE.originalCacheLine e /\ PTE.hasOrigCL e' = PTE.hasOrigCL e
}.

Lemma same_source_refl c : same_source c c.
Proof. by split. Qed.
Lemma sources_refl cs : Forall2 same_source cs cs.
Proof. apply Forall_Forall2_diag, Forall_true, same_source_refl. Qed.
Lemma same_sources_refl e : same_sources e e.
Proof. split; [done|apply sources_refl|done]. Qed.

Lemma same_pattern_sources e e' : same_pattern e e' -> same_sources e e'.
Proof.
  intros (Ha & Hd & Ho & Hh). split; [done| |done]. rewrite Hd. apply sources_refl.
Qed.

Lemma zero_marked_sources source target : Forall2 same_source target (zero_marked source target).
Proof.
  unfold zero_marked. apply Forall2_same_length_lookup. split; [by rewrite !length_imap|].
  intros i c c' Hc Hc'. rewrite !list_lookup_imap, Hc in Hc'. cbn in Hc'. injection Hc' as <-.
  assert (same_source c (mark_zero source i c)) as [H1 H2 H3 (H4 & H5 & H6)].
  { unfold mark_zero. repeat case_match; try apply same_source_refl.
    split; try done. unfold has, set_const_0_pred. cbn. by flag_simpl. }
  set (c1 := mark_zero source i c) in *. clearbody c1.
  unfold unmark_zero. repeat case_match; try by split.
  split; cbn; try done. unfold has, unset_const_0_pred in *. cbn. by flag_simpl.
Qed.

(** The entry a known hash keeps waits for the same stores. *)
Lemma kept_sources c elem old e : kept c elem old = Ok e -> same_sources old e.
Proof.
  unfold kept. intros H. destruct (low_confidence old); [injection H as <-; apply same_sources_refl|].
  res_inv. destruct (const0PredEnabled c); [|split; try done; apply sources_refl].
  split; try done. apply zero_marked_sources.
Qed.

(** The constant-zero mark of a chunk [tc] after another write, whose word there is
    [word] if it has one: lost when the words differ, given when both are zero. *)
Definition zero_mark (word : option Z) (tc : ChunkInfo.t) : bool :=
  match word with
  | Some d => if validb tc then (if datum tc =? d then is_const_0_pred tc || (datum tc =? 0) else false)
              else is_const_0_pred tc
  | None => is_const_0_pred tc
  end.

(** The entry [e] that stays for a known hash when [elem] is added: one of low
    confidence is not touched. *)
Record weakened (c : config) (elem old e : PTE.t) : Prop := {
  wk_sources : same_sources old e;
  wk_words : forall i, CacheLine.view (PTE.dataChunks e) i = CacheLine.view (PTE.dataChunks old) i;
  wk_addr : PTE.addrConf e = PTE.addrConf old;
  wk_data : Confidence.conf (PTE.dataConf e) =
    Z.max (Confidence.min (PTE.dataConf old)) (Confidence.conf (PTE.dataConf old) - 1);
  wk_marks : forall i tc, PTE.dataChunks old !! i = Some tc ->
    is_const_0_pred <$> PTE.dataChunks e !! i =
      Some (if const0PredEnabled c then zero_mark (CacheLine.view (PTE.dataChunks elem) i) tc
            else is_const_0_pred tc)
}.

Lemma kept_weakened c elem order h old e :
  entry_ok order h old -> kept c elem old = Ok e ->
  (forall i, CacheLine.view (PTE.dataChunks e) i = CacheLine.view (PTE.dataChunks old) i) ->
  if low_confidence old then e = old else weakened c elem old e.
Proof.
  intros [_ _ [_ Hd] _ _] Hk Hv. pose proof (kept_sources c elem old e Hk) as Hs. unfold kept in Hk.
  destruct (low_confidence old); [by injection Hk as <-|].
  destruct (Confidence.sub_spec 1 _ Hd) as (d & Ed & Hd' & Hc). rewrite Ed in Hk.
  cbn [mbind res_bind] in Hk. injection Hk as <-. pose proof (Confidence.wf_range _ Hd) as Hr. split.
  - exact Hs.
  - exact Hv.
  - by destruct (const0PredEnabled c).
  - destruct (const0PredEnabled c); cbn; lia.
  - intros i tc Hi. destruct (const0PredEnabled c); cbn; [by rewrite (zero_marked_flag _ _ _ _ Hi)|].
    by rewrite Hi.
Qed.

(** C39: adding a complete entry to a well-formed table never stops the simulation
    and keeps the table well-formed, for every iteration order.  The addition first
    drops the stale entries (on every second call) and leaves the entries of other
    hashes alone.  When its hash is new the entry is stored.  When the hash is known
    the old pattern stays: an entry whose address or data confidence is low is not
    touched; any other keeps its stores, its words and its address confidence, its
    data confidence falls by one down to the minimum, and, where constant-zero
    predictions are enabled, a word loses its constant-zero mark if the new entry has
    another word there and gets it if both words are zero. *)
Theorem add_spec `{O : IterOrder} elem p sh :
  wf p -> elem_ok elem -> SharedArea.conf_bounded sh ->
  exists p' sh' e', add elem p sh = Ok (p', sh') /\ wf p' /\ SharedArea.conf_bounded sh' /\
    currentOrder p' = currentOrder p + 1 /\
    predictorTable p' = <[PTE.hash elem := e']> (ticked p sh) /\
    match ticked p sh !! PTE.hash elem with
    | None => e' = PTE.set_order (currentOrder p) elem
    | Some old => if low_confidence old then e' = old else weakened (cfg p) elem old e'
    end.
Proof.
  intros Hwf He Hb. destruct (add_ok elem p sh Hwf He Hb)
    as (p' & sh' & e' & E & Hwf' & Hb' & Ho & Hst & Ht & Hv & _).
  exists p', sh', e'. do 5 (split; [done|]). unfold stored in Hst.
  destruct (ticked p sh !! PTE.hash elem) as [old|] eqn:L; [|congruence].
  eapply kept_weakened; [exact (ticked_ok p sh Hwf _ _ L)|done|]. intros i. by apply Hv.
Qed.

(** *** Feedback from the backend *)

(** The entry [e] after [n] notifications of correct address predictions of
    which the first [m] count as correct data predictions. *)
Record rewarded (order h n m : Z) (e e' : PTE.t) : Prop := {
  rw_ok : entry_ok order h e';
  rw_order : PTE.insertionOrder e' =
    PTE.insertionOrder e - n * PTE.CORRECT_ADDR_PREDICTION_AGE_REWARD e
                         - m * PTE.CORRECT_DATA_PREDICTION_AGE_REWARD e;
  rw_pattern : same_pattern e e';
  rw_rewards : PTE.CORRECT_ADDR_PREDICTION_AGE_REWARD e' = PTE.CORRECT_ADDR_PREDICTION_AGE_REWARD e /\
    PTE.CORRECT_DATA_PREDICTION_AGE_REWARD e' = PTE.CORRECT_DATA_PREDICTION_AGE_REWARD e
}.

Lemma rewarded_refl order h e : entry_ok order h e -> rewarded order h 0 0 e e.
Proof. intros H. split; [done|lia|done|done]. Qed.

Definition b2z (b : bool) : Z := if b then 1 else 0.

Lemma conf_notify_ok (b : bool) c :
  Confidence.wf c ->
  exists c', (if b then Confidence.add 1 c else Confidence.sub 1 c) = Ok c' /\ Confidence.wf c'.
Proof.
  intros H. destruct b.
  - destruct (Confidence.saturating_add_ok 1 c H) as (c' & ? & ? & _). eauto.
  - destruct (Confidence.sub_spec 1 c H) as (c' & ? & ? & _). eauto.
Qed.

Lemma notify_entry_ok order h n m (d : bool) e0 e :
  rewarded order h n m e0 e ->
  exists e', PTE.notify_confidence true d e = Ok e' /\
    rewarded order h (n + 1) (m + b2z d) e0 (PTE.notify_correct_prediction true d e').
Proof.
  intros [[Hh [Ha Ho] [Hc1 Hc2] [Hr1 Hr2] Hch] Hord Hdc [Hra Hrd]]. unfold PTE.notify_confidence.
  destruct (conf_notify_ok true _ Hc1) as (c1 & E1 & W1).
  destruct (conf_notify_ok d _ Hc2) as (c2 & E2 & W2).
  rewrite E1. cbn [mbind res_bind]. rewrite E2. cbn [mbind res_bind].
  eexists. split; [done|]. unfold b2z.
  split; [split|..]; cbn; try done; try (by destruct d; cbn; lia).
  split; [done|]. destruct d; cbn; lia.
Qed.

Definition same_frame (p p' : t) : Prop :=
  cfg p' = cfg p /\ size p' = size p /\ currentOrder p' = currentOrder p /\
  clock p' = clock p /\ pathHistory p' = pathHistory p.

(** What a table becomes when entry [h] receives the feedback [(n, m)]. *)
Definition feedback (h n m : Z) (p p' : t) : Prop :=
  same_frame p p' /\
  match predictorTable p !! h with
  | None => predictorTable p' = predictorTable p
  | Some e => exists e', predictorTable p' = <[h := e']> (predictorTable p) /\
                rewarded (currentOrder p) h n m e e'
  end.

Lemma feedback_step h n m (d : bool) p0 p :
  feedback h n m p0 p ->
  exists p', notify_correct_prediction h true d p = Ok p' /\
    feedback h (n + 1) (m + b2z d) p0 p'.
Proof.
  intros [Hf Ht]. unfold notify_correct_prediction. cbn [predictorTable with_stats].
  unfold feedback. destruct (predictorTable p0 !! h) as [e0|] eqn:E0.
  - destruct Ht as (e & Ht & Hr). rewrite Ht, lookup_insert_eq.
    destruct (notify_entry_ok _ _ _ _ d _ _ Hr) as (e' & -> & Hr').
    cbn [mbind res_bind]. eexists. split; [done|]. split; [done|].
    eexists. split; [|exact Hr']. cbn. by rewrite insert_insert_eq.
  - rewrite Ht, E0. eexists. split; [done|]. done.
Qed.

(** Of the [n] notifications, those with index at most [d] count as data hits. *)
Definition data_hits (n d : Z) : Z := Z.min n (d + 1).

Lemma notify_all_ok h a d p :
  0 <= a -> 0 <= d -> (forall e, predictorTable p !! h = Some e -> entry_ok (currentOrder p) h e) ->
  exists p', notify_all h a d p = Ok p' /\ feedback h a (data_hits a d) p p'.
Proof.
  intros Ha Hd Hok. destruct (Z_of_nat_complete a Ha) as [n ->].
  unfold notify_all. rewrite Nat2Z.id.
  apply (for_each_seq (fun k p' => feedback h (Z.of_nat k) (data_hits (Z.of_nat k) d) p p')).
  - split; [done|]. destruct (predictorTable p !! h) as [e|] eqn:E; [|done].
    exists e. split; [by rewrite insert_id|].
    replace (data_hits (Z.of_nat 0) d) with 0 by (unfold data_hits; lia).
    apply rewarded_refl. by apply Hok.
  - intros k q Hk Hq. destruct (feedback_step _ _ _ (0 <=? d - Z.of_nat k) _ _ Hq)
      as (q' & E & Hq').
    rewrite E. cbn [mbind res_bind]. eexists. split; [done|].
    replace (Z.of_nat (S k)) with (Z.of_nat k + 1) by lia.
    replace (data_hits (Z.of_nat k + 1) d) with
      (data_hits (Z.of_nat k) d + b2z (0 <=? d - Z.of_nat k)); [by destruct (0 <=? _)|].
    unfold data_hits, b2z. destruct (Z.leb_spec 0 (d - Z.of_nat k)); lia.
Qed.

(** The counts a broadcast accumulates between two visits of a frontend. *)
Definition counts_ok (m : gmap Z (Z * Z)) : Prop :=
  forall h a d, m !! h = Some (a, d) -> 0 <= a < 2147483648 /\ 0 <= d < 2147483648.

(** The entry for [k] after the feedback [m]. *)
Definition fed_back (order : Z) (m : option (Z * Z)) (k : Z) (o o' : option PTE.t) : Prop :=
  match o with
  | None => o' = None
  | Some e => exists e', o' = Some e' /\
      match m with
      | Some (a, d) => rewarded order k a (data_hits a d) e e'
      | None => e' = e
      end
  end.

Lemma feedback_loop (l : list (Z * (Z * Z))) p :
  NoDup l.*1 -> table_ok (currentOrder p) (predictorTable p) ->
  (forall h a d, (h, (a, d)) ∈ l -> 0 <= a < 2147483648 /\ 0 <= d < 2147483648) ->
  exists p', for_each l (fun '(h, (a, d)) p => notify_all h (i32 a) (i32 d) p) p = Ok p' /\
    same_frame p p' /\
    forall k, fed_back (currentOrder p) (snd <$> List.find (fun x => x.1 =? k) l) k
                (predictorTable p !! k) (predictorTable p' !! k).
Proof.
  revert p. induction l as [|[h [a d]] l IH]; intros p Hnd Hok Hl.
  { exists p. split; [done|]. split; [done|]. intros k. cbn.
    unfold fed_back. destruct (predictorTable p !! k); eauto. }
  apply NoDup_cons in Hnd as [Hni Hnd]. destruct (Hl h a d) as [Ha Hd]; [set_solver|].
  cbn [for_each]. rewrite !i32_id by done.
  destruct (notify_all_ok h a d p) as (p1 & -> & F1 & T1); [lia|lia|apply Hok|].
  cbn [mbind res_bind]. destruct F1 as (C1 & S1 & O1 & K1 & Q1).
  destruct (IH p1) as (p2 & -> & F2 & T2); [done| |set_solver|].
  { rewrite O1. destruct (predictorTable p !! h) as [e|] eqn:E; [|by rewrite T1].
    destruct T1 as (e' & -> & Hr). apply table_ok_insert; [done|apply Hr]. }
  exists p2. split; [done|]. destruct F2 as (C2 & S2 & O2 & K2 & Q2).
  split; [repeat split; congruence|]. intros k. specialize (T2 k). rewrite O1 in T2.
  cbn [List.find fst]. destruct (Z.eqb_spec h k) as [->|Hne]; cbn [fmap option_fmap option_map snd].
  - assert (List.find (fun x => x.1 =? k) l = None) as Hf.
    { destruct (List.find _ l) as [[k' v]|] eqn:F; [|done].
      apply List.find_some in F as [Hin Heq%Z.eqb_eq]. cbn in Heq. subst k'. exfalso.
      apply Hni, list_elem_of_fmap. exists (k, v). split; [done|]. by apply list_elem_of_In. }
    rewrite Hf in T2. cbn in T2.
    destruct (predictorTable p !! k) as [e|] eqn:E; cbn [fed_back].
    + destruct T1 as (e' & T1 & Hr). rewrite T1, lookup_insert_eq in T2.
      destruct T2 as (e2 & -> & ->). eauto.
    + rewrite T1, E in T2. done.
  - destruct (predictorTable p !! h) as [e|] eqn:E.
    + destruct T1 as (e' & T1 & Hr). by rewrite T1, lookup_insert_ne in T2.
    + by rewrite T1 in T2.
Qed.

Lemma find_iter `{O : IterOrder} {V} (m : gmap Z V) k :
  snd <$> List.find (fun x => x.1 =? k) (iter m) = m !! k.
Proof.
  destruct (List.find _ _) as [[k' v]|] eqn:F; cbn.
  - apply List.find_some in F as [Hin Heq%Z.eqb_eq]. cbn in Heq. subst.
    symmetry. by apply elem_of_iter, list_elem_of_In.
  - destruct (m !! k) as [v|] eqn:E; [|done].
    apply elem_of_iter, list_elem_of_In in E. apply (List.find_none _ _ F) in E. cbn in E. lia.
Qed.

Lemma check_shared_area_ok `{O : IterOrder} p sh :
  wf p -> counts_ok (SharedArea.correctPredictions sh) ->
  exists p', check_shared_area p sh = Ok (p', SharedArea.with_correctPredictions ∅ sh) /\
    wf p' /\ same_frame p p' /\
    forall k, fed_back (currentOrder p) (SharedArea.correctPredictions sh !! k) k
                (predictorTable p !! k) (predictorTable p' !! k).
Proof.
  intros Hwf Hc. unfold check_shared_area.
  destruct (feedback_loop (iter (SharedArea.correctPredictions sh)) p) as (p' & -> & Hf & Ht);
    [apply NoDup_iter_fst|apply Hwf| |].
  { intros h a d Hin%elem_of_iter. by apply (Hc h). }
  exists p'. split; [done|]. setoid_rewrite find_iter in Ht. split; [|done].
  destruct Hf as (C & S & O1 & K & Q). destruct Hwf as [W1 W2 W3 W4].
  split; [|congruence|congruence|congruence].
  intros k e' He'. specialize (Ht k). rewrite O1. unfold fed_back in Ht.
  destruct (predictorTable p !! k) as [e|] eqn:E; [|congruence].
  destruct Ht as (e2 & E2 & H2). assert (e2 = e') as -> by congruence.
  destruct (SharedArea.correctPredictions sh !! k) as [[a d]|]; [apply H2|].
  subst. by apply W1.
Qed.

(** The feedback of the backend is consumed in one
    visit, independently of the iteration order: an entry whose hash was
    reported with [a] address and [d] data predictions grows younger by [a]
    address rewards and [min a (d+1)] data rewards, every other entry and every
    stored pattern is unchanged, and the shared counters are empty afterwards.
    The [d+1] is one reward more than the number of data predictions. *)
Theorem check_shared_area_spec `{O : IterOrder} p sh :
  wf p -> counts_ok (SharedArea.correctPredictions sh) ->
  exists p', check_shared_area p sh = Ok (p', SharedArea.with_correctPredictions ∅ sh) /\
    wf p' /\ same_frame p p' /\
    forall k, fed_back (currentOrder p) (SharedArea.correctPredictions sh !! k) k
                (predictorTable p !! k) (predictorTable p' !! k).
Proof. apply check_shared_area_ok. Qed.

(** *** Path history *)

(** The hash of a path: PC number [i] shifted left by [i], combined by
    exclusive or. *)
Definition path_hash (l : list Z) : Z :=
  foldl (fun r i => Z.lxor r (u64 (Z.shiftl (default 0 (l !! i)) (Z.of_nat i)))) 0
    (seq 0 (length l)).

Lemma table_path_hash_ok p :
  SQ.ok (pathHistory p) -> (SQ.sz (pathHistory p) <= 64)%nat ->
  get_path_hash p = Ok (path_hash (SQ.queue (pathHistory p))).
Proof.
  intros [H1 H2] H3. unfold get_path_hash, SQ.get_size.
  rewrite (bool_decide_true (_ <= _)%nat) by done. cbn [assert_that mbind res_bind].
  eapply (for_each_pure _ _ _ (fun _ => True)); [|done].
  intros i r Hi%elem_of_seq _. split; [|done]. unfold SQ.get.
  destruct (lookup_lt_is_Some_2 (SQ.queue (pathHistory p)) i) as [pc Hpc]; [lia|].
  rewrite Hpc. cbn [at_ mbind res_bind default from_option id].
  by rewrite bool_decide_false by lia.
Qed.

(** Packets whose store the predictor table looks at. *)
Definition store_pkt (pkt : Packet.t) (pc : Z) : Prop :=
  Packet.isWrite pkt = true /\ Packet.pc pkt = Some pc /\ is_Some (Packet.data pkt).

Lemma packet_access_ok pkt :
  is_Some (Packet.data pkt) ->
  (if Packet.size pkt <? 4 then
     if (Packet.size pkt =? 1) || (Packet.size pkt =? 2)
     then _ ← Packet.getPtr pkt; Ok tt else Ok tt
   else _ ← Packet.getPtr pkt; Ok tt) = Ok tt.
Proof. intros [d Hd]. unfold Packet.getPtr. rewrite Hd. by repeat case_match. Qed.

Lemma update_ihb_ok `{O : IterOrder} pkt pc p sh :
  wf p -> counts_ok (SharedArea.correctPredictions sh) -> store_pkt pkt pc ->
  exists p' sh' path, update_ihb pkt p sh = Ok (contains (path_hash path) p', p', sh') /\
    path = lastn (SQ.sz (pathHistory p)) (SQ.queue (pathHistory p) ++ [pc]) /\
    SQ.queue (pathHistory p') = path /\ wf p' /\
    lastFoundHashes p' = (if contains (path_hash path) p' then [path_hash path] else []) /\
    sh' = SharedArea.with_correctPredictions ∅ sh /\ cfg p' = cfg p /\
    (forall k, contains k p' = contains k p) /\
    (forall k e', predictorTable p' !! k = Some e' ->
       exists e, predictorTable p !! k = Some e /\ same_pattern e e').
Proof.
  intros Hwf Hc (Hw & Hpc & Hd). unfold update_ihb.
  destruct (check_shared_area_ok p sh Hwf Hc) as (p1 & -> & W1 & (C1 & _ & _ & _ & Q1) & T1).
  cbn [mbind res_bind]. rewrite Hw. cbn [negb panic_if mbind res_bind].
  unfold Packet.getPC. rewrite Hpc. cbn [Packet.valid mbind res_bind].
  rewrite packet_access_ok by done. cbn [mbind res_bind].
  destruct (wf_path _ W1) as [Hq Hn]. rewrite SQ.simple_push_ok by done. cbn [mbind res_bind].
  set (p2 := with_lastFound [] _).
  assert (wf p2) as W2.
  { destruct W1. split; cbn [p2 predictorTable size cfg currentOrder with_lastFound with_path];
      try done. split; [by apply SQ.ok_lastn|done]. }
  rewrite table_path_hash_ok by apply (wf_path _ W2). cbn [mbind res_bind].
  rewrite has_hash_contains by done. cbn [mbind res_bind].
  set (path := SQ.queue (pathHistory p2)).
  assert (path = lastn (SQ.sz (pathHistory p)) (SQ.queue (pathHistory p) ++ [pc])) as Hpath
    by (cbn; by rewrite Q1).
  assert (forall k q, predictorTable q = predictorTable p1 -> contains k q = contains k p) as Hk.
  { intros k q Hq'. unfold contains. rewrite Hq'. specialize (T1 k). unfold fed_back in T1.
    destruct (predictorTable p !! k); [|by rewrite T1].
    destruct T1 as (e' & -> & _). by rewrite !bool_decide_true by done. }
  assert (forall k e', predictorTable p1 !! k = Some e' ->
    exists e, predictorTable p !! k = Some e /\ same_pattern e e') as Hpat.
  { intros k e' He'. specialize (T1 k). unfold fed_back in T1.
    destruct (predictorTable p !! k) as [e|]; [|congruence]. destruct T1 as (e2 & E2 & H2).
    exists e. split; [done|]. assert (e2 = e') as -> by congruence.
    destruct (SharedArea.correctPredictions sh !! k) as [[a d]|]; [apply H2|by subst]. }
  destruct (contains (path_hash path) p2) eqn:C.
  - exists (with_lastFound [path_hash path] p2), (SharedArea.with_correctPredictions ∅ sh), path.
    change (contains (path_hash path) (with_lastFound [path_hash path] p2))
      with (contains (path_hash path) p2). rewrite C.
    repeat (split; [done || by destruct W2|]). split; [by intros k; apply Hk|exact Hpat].
  - exists p2, (SharedArea.with_correctPredictions ∅ sh), path. rewrite C.
    repeat (split; [done|]). split; [by intros k; apply Hk|exact Hpat].
Qed.

(** A store makes the table consume the backend's feedback
    and append the store's PC to the path history, of which the last
    [PATH_HISTORY_SIZE] PCs remain; it reports a hit exactly when the table has
    an entry for the hash of that path, and remembers that hash. *)
Theorem update_ihb_spec `{O : IterOrder} pkt pc p sh :
  wf p -> counts_ok (SharedArea.correctPredictions sh) -> store_pkt pkt pc ->
  exists p' sh' path, update_ihb pkt p sh = Ok (contains (path_hash path) p', p', sh') /\
    path = lastn (SQ.sz (pathHistory p)) (SQ.queue (pathHistory p) ++ [pc]) /\
    SQ.queue (pathHistory p') = path /\ wf p' /\
    lastFoundHashes p' = (if contains (path_hash path) p' then [path_hash path] else []) /\
    SharedArea.correctPredictions sh' = ∅ /\
    (forall k, contains k p' = contains k p).
Proof.
  intros Hwf Hc Hp. destruct (update_ihb_ok pkt pc p sh Hwf Hc Hp)
    as (p' & sh' & path & ? & ? & ? & ? & ? & -> & _ & ? & _).
  by exists p', (SharedArea.with_correctPredictions ∅ sh), path.
Qed.

(** An addition for a hash whose entry has low confidence is counted as a
    replacement, and the table still holds the old entry. *)
Lemma replacement_keeps_old `{O : IterOrder} elem p sh old :
  wf p -> elem_ok elem -> SharedArea.conf_bounded sh ->
  ticked p sh !! PTE.hash elem = Some old -> low_confidence old = true ->
  exists p' sh', add elem p sh = Ok (p', sh') /\
    predictorTable p' !! PTE.hash elem = Some old.
Proof.
  intros Hwf He Hb Hold Hlow.
  destruct (add_ok elem p sh Hwf He Hb) as (p' & sh' & e' & E & _ & _ & _ & Hst & Ht & _).
  exists p', sh'. split; [done|]. rewrite Ht, lookup_insert_eq.
  unfold stored, kept in Hst. rewrite Hold, Hlow in Hst. congruence.
Qed.

(** *** Evaluation *)

Definition sample_config : config :=
  mkConfig 32 200 32 true false 0 (PTE.mkConfig 20 80 false).

Definition sample_entry (h : Z) : PTE.t :=
  PTE.set_hash h (PTE.set_original_cacheline (CacheLine.new 1)
    (PTE.new (entry_config sample_config) 1)).

Definition sample_table : t := new sample_config "predictorTable".

Lemma sample_table_wf : wf sample_table.
Proof. apply table_new_wf; cbn; lia. Qed.

Lemma sample_elem_ok h : elem_ok (sample_entry h).
Proof.
  split; [done|done| |by cbn|apply (CacheLine.line_new_wf 1)].
  split; apply Confidence.make_wf; done.
Qed.

Lemma sample_conf_bounded : SharedArea.conf_bounded SharedArea.new.
Proof. intros h c. cbn. by rewrite lookup_empty. Qed.

Definition add_many `{O : IterOrder} (hs : list Z) (st : t * SharedArea.t)
    : res (t * SharedArea.t) :=
  for_each hs (fun h '(p, sh) => add (sample_entry h) p sh) st.

(** Forty additions to a table whose [MAX_SIZE] is 32 leave forty entries. *)
Lemma capacity_not_enforced :
  match @add_many tree_order (map Z.of_nat (seq 1 40)) (sample_table, SharedArea.new) with
  | Ok (p, _) => MAX_SIZE (cfg p) = 32 /\ get_size p = 40%nat
  | Fail _ => False
  end.
Proof. vm_compute. done. Qed.

Lemma add_spec_witness :
  exists p' sh', @add reversed_order (sample_entry 7) sample_table SharedArea.new = Ok (p', sh') /\
    contains 7 p' = true /\ contains 8 p' = false.
Proof.
  destruct (@add_spec reversed_order (sample_entry 7) sample_table SharedArea.new)
    as (p' & sh' & e' & E & _ & _ & _ & Ht & _);
    [apply sample_table_wf | apply sample_elem_ok | apply sample_conf_bounded |].
  exists p', sh'. split; [exact E|]. unfold contains. by rewrite Ht.
Defined.

Lemma check_shared_area_spec_witness :
  exists p', @check_shared_area tree_order sample_table
      (SharedArea.broadcastPrediction 7 true true SharedArea.new) =
      Ok (p', SharedArea.with_correctPredictions ∅
                (SharedArea.broadcastPrediction 7 true true SharedArea.new)) /\
    contains 7 p' = false.
Proof.
  destruct (@check_shared_area_spec tree_order sample_table
    (SharedArea.broadcastPrediction 7 true true SharedArea.new)) as (p' & E & _ & _ & H).
  - apply sample_table_wf.
  - intros h a d. rewrite SharedArea.broadcast_both. cbn. intros H.
    apply lookup_insert_Some in H as [[_ [= <- <-]]|[_ H]]; [vm_compute; by split|].
    by rewrite lookup_empty in H.
  - exists p'. split; [exact E|]. specialize (H 7). cbn in H. unfold contains. by rewrite H.
Defined.

Lemma update_ihb_spec_witness :
  exists p' sh', @update_ihb tree_order (Packet.store 0x10000000040 0x200000040 0x400 [1])
      sample_table SharedArea.new = Ok (false, p', sh') /\
    SQ.queue (pathHistory p') = [0x400].
Proof.
  destruct (@update_ihb_spec tree_order (Packet.store 0x10000000040 0x200000040 0x400 [1])
    0x400 sample_table SharedArea.new) as (p' & sh' & path & E & Hp & Hq & _ & _ & _ & Hk).
  - apply sample_table_wf.
  - intros h a d. cbn. by rewrite lookup_empty.
  - by split; [|split; [|eexists]].
  - exists p', sh'. rewrite Hk in E. split; [exact E|]. by rewrite Hq, Hp.
Defined.
End PredictorTable.
