(* ===== verification/CompletedWrite.v ===== *)
(** * Completed predictions

    Models [class CompletedWriteEntry] of [mem/predictor/CompletedWriteEntry.hh]:
    a prediction whose address and words are known, as the frontend hands it to
    the backend. *)

From S2P Require Import Prelude Common PageTable Chunk CacheLine.

Module CompletedWriteEntry.
(** [enum Flags] *)
Definition F_ADDR : Z := Z.shiftl 1 1.
Definition F_GEN_HASH : Z := Z.shiftl 1 2.
Definition F_TIME_OF_ADDR_GEN : Z := Z.shiftl 1 3.
Definition F_TIME_OF_DATA_GEN : Z := Z.shiftl 1 4.
Definition F_HAS_CACHE_LINE : Z := Z.shiftl 1 5.
Definition F_VERIFICATION_CACHE_HIT : Z := Z.shiftl 1 6.
Definition F_COUNTER_CACHE_HIT : Z := Z.shiftl 1 7.
Definition F_ORIGNAL_CACHELINE : Z := Z.shiftl 1 8.
Definition F_IHB_PATTERN_MATCH_INDEX : Z := Z.shiftl 1 9.
Definition F_TIME_OF_CREATION : Z := Z.shiftl 1 10.

Record t := mk {
  flags : Z;
  addr : Z;
  cacheline : CacheLine.t;
  generatorHash : Z;
  timeOfAddrGen : Z;
  timeOfDataGen : Z;
  timeOfCreation : Z;
  ihbPatternMatchIndex : Z;
  orignalCacheLine : CacheLine.t;
  used : bool
}.

Definition with_flags v e := mk v (addr e) (cacheline e) (generatorHash e) (timeOfAddrGen e)
  (timeOfDataGen e) (timeOfCreation e) (ihbPatternMatchIndex e) (orignalCacheLine e) (used e).
(** Writes through the reference [get_cacheline()] returns. *)
Definition with_cacheline v e := mk (flags e) (addr e) v (generatorHash e) (timeOfAddrGen e)
  (timeOfDataGen e) (timeOfCreation e) (ihbPatternMatchIndex e) (orignalCacheLine e) (used e).
Definition raise (f : Z) (e : t) : t := with_flags (set_flag (flags e) f) e.
Definition lower (f : Z) (e : t) : t := with_flags (unset_flag (flags e) f) e.
Definition has (f : Z) (e : t) : bool := is_flag_set (flags e) f.

(** [CompletedWriteEntry()] *)
Definition new (now : Z) : t :=
  mk 0 0 (CacheLine.new now) 0 UINT64_MAX UINT64_MAX UINT64_MAX 0 (CacheLine.new now) false.

(** [CompletedWriteEntry(addr, cacheline, generatorHash)] *)
Definition make (now a : Z) (line : CacheLine.t) (hash : Z) : t :=
  raise F_GEN_HASH (raise F_HAS_CACHE_LINE (raise F_ADDR
    (mk 0 a line hash UINT64_MAX UINT64_MAX UINT64_MAX 0 (CacheLine.new now) false))).

Definition get_generator_hash (e : t) : res Z :=
  panic_if (negb (has F_GEN_HASH e)) ;; Ok (generatorHash e).
Definition has_generator_hash : t -> bool := has F_GEN_HASH.
Definition get_cacheline (e : t) : CacheLine.t := cacheline e.

Definition set_addr (a : Z) (e : t) : t :=
  mk (set_flag (flags e) F_ADDR) a (cacheline e) (generatorHash e) (timeOfAddrGen e)
    (timeOfDataGen e) (timeOfCreation e) (ihbPatternMatchIndex e) (orignalCacheLine e) (used e).
Definition get_addr (e : t) : res Z := panic_if (negb (has F_ADDR e)) ;; Ok (addr e).
Definition has_addr : t -> bool := has F_ADDR.

Definition use (e : t) : res t :=
  panic_if (used e) ;;
  Ok (mk (flags e) (addr e) (cacheline e) (generatorHash e) (timeOfAddrGen e)
        (timeOfDataGen e) (timeOfCreation e) (ihbPatternMatchIndex e) (orignalCacheLine e) true).
Definition is_used (e : t) : bool := used e.

Definition get_time_of_addr_gen (e : t) : res Z :=
  panic_if (negb (has F_TIME_OF_ADDR_GEN e)) ;; Ok (timeOfAddrGen e).
Definition set_time_of_addr_gen (tick : Z) (e : t) : t :=
  mk (set_flag (flags e) F_TIME_OF_ADDR_GEN) (addr e) (cacheline e) (generatorHash e) tick
    (timeOfDataGen e) (timeOfCreation e) (ihbPatternMatchIndex e) (orignalCacheLine e) (used e).
Definition has_time_of_addr_gen : t -> bool := has F_TIME_OF_ADDR_GEN.

Definition get_time_of_data_gen (e : t) : res Z :=
  panic_if (negb (has F_TIME_OF_DATA_GEN e)) ;; Ok (timeOfDataGen e).
Definition set_time_of_data_gen (tick : Z) (e : t) : t :=
  mk (set_flag (flags e) F_TIME_OF_DATA_GEN) (addr e) (cacheline e) (generatorHash e)
    (timeOfAddrGen e) tick (timeOfCreation e) (ihbPatternMatchIndex e) (orignalCacheLine e) (used e).
Definition has_time_of_data_gen : t -> bool := has F_TIME_OF_DATA_GEN.

Definition get_time_of_creation (e : t) : res Z :=
  panic_if (negb (has F_TIME_OF_CREATION e)) ;; Ok (timeOfCreation e).
Definition set_time_of_creation (tick : Z) (e : t) : t :=
  mk (set_flag (flags e) F_TIME_OF_CREATION) (addr e) (cacheline e) (generatorHash e)
    (timeOfAddrGen e) (timeOfDataGen e) tick (ihbPatternMatchIndex e) (orignalCacheLine e) (used e).
Definition has_time_of_creation : t -> bool := has F_TIME_OF_CREATION.

(** [vector({addrGen, dataGen})[addrGen < dataGen]] *)
Definition get_time_of_gen (e : t) : res Z :=
  a ← get_time_of_addr_gen e;
  d ← get_time_of_data_gen e;
  Ok (if a <? d then d else a).
Definition get_least_time_of_gen (e : t) : res Z :=
  a ← get_time_of_addr_gen e; d ← get_time_of_data_gen e; Ok (Z.min a d).

Definition set_counter_cache_hit (b : bool) (e : t) : t :=
  if b then raise F_COUNTER_CACHE_HIT e else lower F_COUNTER_CACHE_HIT e.
Definition set_verification_cache_hit (b : bool) (e : t) : t :=
  if b then raise F_VERIFICATION_CACHE_HIT e else lower F_VERIFICATION_CACHE_HIT e.
Definition was_counter_cache_hit : t -> bool := has F_COUNTER_CACHE_HIT.
Definition was_verification_cache_hit : t -> bool := has F_VERIFICATION_CACHE_HIT.

Definition set_orig_cacheline (l : CacheLine.t) (e : t) : t :=
  mk (set_flag (flags e) F_ORIGNAL_CACHELINE) (addr e) (cacheline e) (generatorHash e)
    (timeOfAddrGen e) (timeOfDataGen e) (timeOfCreation e) (ihbPatternMatchIndex e) l (used e).
Definition get_orig_cacheline (e : t) : res CacheLine.t :=
  panic_if_not (has F_ORIGNAL_CACHELINE e) ;; Ok (orignalCacheLine e).

Definition set_ihb_pattern_match_index (i : Z) (e : t) : t :=
  mk (set_flag (flags e) F_IHB_PATTERN_MATCH_INDEX) (addr e) (cacheline e) (generatorHash e)
    (timeOfAddrGen e) (timeOfDataGen e) (timeOfCreation e) i (orignalCacheLine e) (used e).
Definition get_ihb_pattern_match_index (e : t) : res Z :=
  panic_if_not (has F_IHB_PATTERN_MATCH_INDEX e) ;; Ok (ihbPatternMatchIndex e).

(** ** Properties *)

(** A prediction the backend can process: every field it reads is set and its
    lines are well-formed. *)
Record wf (e : t) : Prop := {
  wf_addr : has F_ADDR e = true;
  wf_hash : has F_GEN_HASH e = true;
  wf_addr_gen : has F_TIME_OF_ADDR_GEN e = true;
  wf_data_gen : has F_TIME_OF_DATA_GEN e = true;
  wf_creation : has F_TIME_OF_CREATION e = true;
  wf_orig : has F_ORIGNAL_CACHELINE e = true;
  wf_line : CacheLine.wf (cacheline e);
  wf_orig_line : CacheLine.wf (orignalCacheLine e)
}.

Lemma get_addr_ok e : wf e -> get_addr e = Ok (addr e).
Proof. intros H. unfold get_addr. by rewrite (wf_addr _ H). Qed.
Lemma get_generator_hash_ok e : wf e -> get_generator_hash e = Ok (generatorHash e).
Proof. intros H. unfold get_generator_hash. by rewrite (wf_hash _ H). Qed.
Lemma get_time_of_addr_gen_ok e : wf e -> get_time_of_addr_gen e = Ok (timeOfAddrGen e).
Proof. intros H. unfold get_time_of_addr_gen. by rewrite (wf_addr_gen _ H). Qed.
Lemma get_time_of_data_gen_ok e : wf e -> get_time_of_data_gen e = Ok (timeOfDataGen e).
Proof. intros H. unfold get_time_of_data_gen. by rewrite (wf_data_gen _ H). Qed.
Lemma get_time_of_creation_ok e : wf e -> get_time_of_creation e = Ok (timeOfCreation e).
Proof. intros H. unfold get_time_of_creation. by rewrite (wf_creation _ H). Qed.
Lemma get_orig_cacheline_ok e : wf e -> get_orig_cacheline e = Ok (orignalCacheLine e).
Proof. intros H. unfold get_orig_cacheline. by rewrite (wf_orig _ H). Qed.

Lemma get_least_time_of_gen_ok e :
  wf e -> get_least_time_of_gen e = Ok (Z.min (timeOfAddrGen e) (timeOfDataGen e)).
Proof.
  intros H. unfold get_least_time_of_gen.
  by rewrite get_time_of_addr_gen_ok, get_time_of_data_gen_ok by done.
Qed.

(** The time of generation is the later of the two times, indexed by a
    comparison. *)
Lemma get_time_of_gen_max e :
  wf e -> get_time_of_gen e = Ok (Z.max (timeOfAddrGen e) (timeOfDataGen e)).
Proof.
  intros H. unfold get_time_of_gen.
  rewrite get_time_of_addr_gen_ok, get_time_of_data_gen_ok by done. cbn.
  f_equal. destruct (Z.ltb_spec (timeOfAddrGen e) (timeOfDataGen e)); lia.
Qed.

Definition mark_used (e : t) : t :=
  mk (flags e) (addr e) (cacheline e) (generatorHash e) (timeOfAddrGen e) (timeOfDataGen e)
    (timeOfCreation e) (ihbPatternMatchIndex e) (orignalCacheLine e) true.

Lemma use_ok e : used e = false -> use e = Ok (mark_used e).
Proof. intros H. unfold use. by rewrite H. Qed.

Lemma mark_used_wf e : wf e -> wf (mark_used e).
Proof. intros [? ? ? ? ? ? ? ?]. by split. Qed.

Lemma set_time_of_addr_gen_wf t e : wf e -> wf (set_time_of_addr_gen t e).
Proof.
  intros [? ? ? ? ? ? ? ?]. split; unfold has, set_time_of_addr_gen in *; cbn; try done;
    by flag_simpl.
Qed.

Lemma set_addr_wf a e : wf e -> wf (set_addr a e).
Proof.
  intros [? ? ? ? ? ? ? ?]. split; unfold has, set_addr in *; cbn; try done; by flag_simpl.
Qed.

Lemma set_hits_wf b c e :
  wf e -> wf (set_verification_cache_hit b (set_counter_cache_hit c e)).
Proof.
  intros [? ? ? ? ? ? ? ?].
  split; unfold has, set_verification_cache_hit, set_counter_cache_hit, raise, lower in *;
    destruct b, c; cbn; try done; by flag_simpl.
Qed.
End CompletedWriteEntry.
