(* ===== verification/Backend.v ===== *)
(** * The predictor backend

    Models the request handling of [class PredictorBackend]
    ([mem/predictor_backend.hh]/[.cc]): the result buffer of completed
    predictions, the insertion of a prediction, and the comparison of every
    write that reaches the memory controller with the predictions for its
    address.  Trace output ([DTRACE], [DPRINTF], [std::cout], [dumpTrace]) is
    left out; the ports are in [Bridge] and [PredictorPorts]. *)

From S2P Require Import Prelude Common PageTable Chunk CacheLine Queues Shared CompletedWrite.

Module Backend.
Module CWE := CompletedWriteEntry.
Import ChunkInfo.

(** The static limits and the environment variable the handlers read. *)
Record config := mkConfig {
  MAX_COMPLETED_QUEUE_LINE_SIZE : Z;
  RESULT_BUFFER_MAX_SIZE : Z;
  disable_invalidation : bool
}.

Record t := mk {
  cfg : config;
  completedWrites : gmap Z (list CWE.t);
  addrMatches : gmap Z Z;
  pendingPredictionQueue : list CWE.t;
  capacityEvictionStatic : Z;
  usePredictor : bool;
  predictorEnabled : bool;
  writebackDistMap : gmap Z Z;
  stats : Stats.t
}.

Definition new (c : config) : t := mk c ∅ ∅ [] 0 false false ∅ Stats.empty.

Definition with_writes v b := mk (cfg b) v (addrMatches b) (pendingPredictionQueue b)
  (capacityEvictionStatic b) (usePredictor b) (predictorEnabled b) (writebackDistMap b) (stats b).
Definition with_matches v b := mk (cfg b) (completedWrites b) v (pendingPredictionQueue b)
  (capacityEvictionStatic b) (usePredictor b) (predictorEnabled b) (writebackDistMap b) (stats b).
Definition with_pending v b := mk (cfg b) (completedWrites b) (addrMatches b) v
  (capacityEvictionStatic b) (usePredictor b) (predictorEnabled b) (writebackDistMap b) (stats b).
Definition evicted b := mk (cfg b) (completedWrites b) (addrMatches b) (pendingPredictionQueue b)
  (capacityEvictionStatic b + 1) (usePredictor b) (predictorEnabled b) (writebackDistMap b) (stats b).
Definition with_wbdist v b := mk (cfg b) (completedWrites b) (addrMatches b)
  (pendingPredictionQueue b) (capacityEvictionStatic b) (usePredictor b) (predictorEnabled b) v
  (stats b).
Definition with_stats f b := mk (cfg b) (completedWrites b) (addrMatches b)
  (pendingPredictionQueue b) (capacityEvictionStatic b) (usePredictor b) (predictorEnabled b)
  (writebackDistMap b) (f (stats b)).

(** The chunk [get_cacheline().get_datachunks()[0]] tells free predictions. *)
Definition is_free (e : CWE.t) : res bool :=
  c ← deref (CacheLine.dataChunks (CWE.get_cacheline e) !! 0%nat); Ok (is_free_prediction c).

(** ** Insertion of a prediction *)
Section Insertion.
Context `{O : IterOrder}.
(** The page table and the hit tests of the metadata caches in [DRAMCtrl]. *)
Variable pt : PageTable.t.
Variables isCounterCacheHit isVerificationCacheHit : Z -> bool.
Variable now : Z.

(** Lines 574-609: translate, remember, queue, and keep the line's queue
    within its bound. *)
Definition enqueue (entry : CWE.t) (paddr : Z) (b : t) : res t :=
  let b := with_matches (<[paddr := default 0 (addrMatches b !! paddr) + 1]> (addrMatches b)) b in
  let entry := CWE.set_addr paddr entry in
  let entry := CWE.set_counter_cache_hit (isCounterCacheHit paddr) entry in
  let entry := CWE.set_verification_cache_hit (isVerificationCacheHit paddr) entry in
  let b := with_pending (pendingPredictionQueue b ++ [entry]) b in
  let q := default [] (completedWrites b !! paddr) ++ [entry] in
  if MAX_COMPLETED_QUEUE_LINE_SIZE (cfg b) + 1 <=? Z.of_nat (length q) then
    entryToEvict ← deref (head q);
    CacheLine.print (CWE.get_cacheline entryToEvict) ;;
    q ← SimpleFixedSizeQueue.pop_front q;
    _ ← CWE.get_generator_hash entryToEvict;
    Ok (evicted (with_writes (<[paddr := q]> (completedWrites b)) b))
  else Ok (with_writes (<[paddr := q]> (completedWrites b)) b).

(** Lines 624-637: the queues found empty are erased in a loop over
    [addrToRemove] that pops the element its own iterator points to, so a
    single empty queue makes the loop's increment undefined. *)
Definition remove_empty (b : t) : res t :=
  let addrToRemove := filter (fun x => x.2 = []) (iter (completedWrites b)) in
  match addrToRemove with
  | [] => Ok b
  | _ => Fail Undefined
  end.

Definition totalEntries (b : t) : Z :=
  foldl (fun n x => n + Z.of_nat (length x.2)) 0 (iter (completedWrites b)).

(** One entry of the scan of lines 683-706; the state is [oldestAddr]. *)
Definition scan_entry (a : Z) (write : CWE.t) (oldestAddr : Z) : res Z :=
  created ← CWE.get_time_of_creation write;
  free ← is_free write;
  let age := u64 (now - created) in
  let oldestAddr := if (25000000 <? age) && free then a else oldestAddr in
  Ok (if (3 * 10000000 <? age) && negb free then a else oldestAddr).

Definition find_oldest (b : t) : res Z :=
  if RESULT_BUFFER_MAX_SIZE (cfg b) <? totalEntries b then
    for_each (iter (completedWrites b))
      (fun '(a, q) oldest => for_each q (fun write oldest => scan_entry a write oldest) oldest) 0
  else Ok 0.

Definition addCompletedWrite (entry : CWE.t) (b : t) : res t :=
  addr ← CWE.get_addr entry;
  match PageTable.lookup_ pt addr with
  | Some _ =>
      if usePredictor b then
        let paddr := default 0 (PageTable.translate pt addr) in
        b ← enqueue entry paddr b;
        b ← remove_empty b;
        q ← at_ (completedWrites b !! paddr);
        panic_if (MAX_COMPLETED_QUEUE_LINE_SIZE (cfg b) <? Z.of_nat (length q)) ;;
        oldestAddr ← find_oldest b;
        Ok (if oldestAddr =? 0 then b
            else evicted (with_writes (delete oldestAddr (completedWrites b)) b))
      else Ok b
  | None => Ok b
  end.
End Insertion.

(** ** Comparison of a write with a prediction *)

Definition isPktEqualCompletedEntryAddr (pkt : Packet.t) (e : CWE.t) : res bool :=
  completedAddr ← CWE.get_addr e;
  pktAddr ← Packet.getPaddr pkt;
  Ok (completedAddr =? pktAddr).

(** The chunk of the prediction at [i] and the packet's word there. *)
Definition chunk_at (e : CWE.t) (i : nat) : res ChunkInfo.t :=
  deref (CacheLine.dataChunks (CWE.get_cacheline e) !! i).

Definition mismatch (words : list Z) (e : CWE.t) (i : nat) : res bool :=
  c ← chunk_at e i;
  v ← is_valid c;
  if v : bool then
    w ← deref (words !! i); d ← get_data c; Ok (negb (w =? d))
  else Ok false.

Definition getMatchingChunkCount (pkt : Packet.t) (e : CWE.t) : res Z :=
  dataChunks ← Packet.getPtr pkt;
  for_each (seq 0 DATA_CHUNK_COUNT)
    (fun i result => m ← mismatch dataChunks e i; Ok (if m : bool then result + 1 else result)) 0.

Definition isPktEqualCompletedEntryData (pkt : Packet.t) (e : CWE.t) : res bool :=
  dataChunks ← Packet.getPtr pkt;
  r ← search (seq 0 DATA_CHUNK_COUNT) (mismatch dataChunks e);
  inv ← CacheLine.all_invalid (CWE.get_cacheline e);
  Ok (if inv : bool then false else match r with Some _ => false | None => true end).

Definition isPktEqualCompletedEntry (pkt : Packet.t) (e : CWE.t) : res bool :=
  panic_if (negb (Packet.size pkt =? CACHELINE_SIZE)) ;;
  a ← isPktEqualCompletedEntryAddr pkt e;
  if a : bool then isPktEqualCompletedEntryData pkt e else Ok false.

Definition update_stats_for_const_pred (e : CWE.t) (b : t) : res t :=
  for_each (CacheLine.dataChunks (CWE.get_cacheline e))
    (fun c b => v ← is_valid c;
       Ok (if v && is_const_0_pred c then with_stats (Stats.incr "correctConst0Pred") b else b)) b.

(** A [bitset] of sixteen bits, bit 0 first. *)
Definition dataChunkMatchVec (e : CWE.t) (pkt : Packet.t) : res (list bool) :=
  dataChunks ← Packet.getPtr pkt;
  for_each (seq 0 DATA_CHUNK_COUNT)
    (fun i bits =>
       c ← chunk_at e i;
       v ← is_valid c;
       if v : bool then
         w ← deref (dataChunks !! i); d ← get_data c; Ok (bits ++ [w =? d])
       else Ok (bits ++ [false])) [].

Definition dataChunkConstVec (e : CWE.t) : res (list bool) :=
  for_each (seq 0 DATA_CHUNK_COUNT)
    (fun i bits => c ← chunk_at e i; v ← is_valid c;
       Ok (bits ++ [v && is_constant_pred c])) [].

Definition bit_count (bits : list bool) : Z :=
  Z.of_nat (length (filter (fun b => b = true) bits)).

(** ** Feedback to the frontends *)

(** One chunk of [updatePCConf]. *)
Definition updatePCConf_chunk (dataChunks : list Z) (e : CWE.t) (i : nat) (sh : SharedArea.t)
    : res SharedArea.t :=
  c ← chunk_at e i;
  v ← is_valid c;
  if v && negb (is_free_prediction c) then
    targetPC ← get_generating_pc c;
    let m := SharedArea.genPCConf sh in
    let m := match m !! targetPC with
             | Some _ => m
             | None => <[targetPC := Confidence.make 6 7 0]> m
             end in
    w ← deref (dataChunks !! i);
    d ← get_data c;
    if negb (w =? d) then
      conf ← at_ (m !! targetPC);
      conf ← Confidence.sub 1 conf;
      Ok (SharedArea.with_genPCConf (<[targetPC := conf]> m) sh)
    else Ok (SharedArea.with_genPCConf m sh)
  else Ok sh.

Definition updatePCConf (pkt : Packet.t) (e : CWE.t) (sh : SharedArea.t) : res SharedArea.t :=
  dataChunks ← Packet.getPtr pkt;
  for_each (seq 0 DATA_CHUNK_COUNT) (updatePCConf_chunk dataChunks e) sh.

Section Invalidation.
Context `{O : IterOrder}.
Variable now : Z.

(** The body of the loop over one address's queue. *)
Definition restamp (e : CWE.t) : CWE.t :=
  if CWE.is_used e then e else CWE.set_time_of_addr_gen now e.

Definition invalidateAllAddr (b : t) : t :=
  if negb (disable_invalidation (cfg b)) then
    foldl (fun b x =>
             let q := map restamp (default [] (completedWrites b !! x.1)) in
             let b := with_writes (<[x.1 := q]> (completedWrites b)) b in
             match q with
             | [] => b
             | _ => with_stats (Stats.incr "invalidatedPredictions") b
             end) b (iter (completedWrites b))
  else b.
End Invalidation.

(** [map[o];]: creates the record with its default values when absent. *)
Definition create_locator (o : Z) (m : gmap Z SharedArea.constChunkLocator)
    : gmap Z SharedArea.constChunkLocator :=
  match m !! o with
  | Some _ => m
  | None => <[o := SharedArea.new_locator]> m
  end.

(** [updateConstChunks], the entry of the tracker for one chunk (lines 953-980);
    [w] is the packet's word at [offset]. *)
Definition track_const (hash addr : Z) (offset : nat) (w : Z)
    (tr : gmap Z (gmap Z SharedArea.constChunkLocator))
    : res (gmap Z (gmap Z SharedArea.constChunkLocator)) :=
  let o := Z.of_nat offset in
  let tr := match tr !! hash with
            | Some _ => tr
            | None => <[hash := create_locator o ∅]> tr
            end in
  m ← at_ (tr !! hash);
  let m := match m !! addr with Some _ => m | None => create_locator o m end in
  loc ← at_ (m !! o);
  let loc' :=
    if SharedArea.lastData loc =? w then
      let times := u64 (SharedArea.timesFound loc + 1) in
      let times := if times =? 10 then 10 else times in
      SharedArea.mkLocator o times (SharedArea.lastData loc)
    else
      let times := if 0 <? SharedArea.timesFound loc then SharedArea.timesFound loc - 1
                   else SharedArea.timesFound loc in
      SharedArea.mkLocator (SharedArea.constOffset loc) times w in
  Ok (<[hash := <[o := loc']> m]> tr).

Definition updateConst_chunk (hash addr : Z) (words : list Z) (e : CWE.t) (offset : nat)
    (sh : SharedArea.t) : res SharedArea.t :=
  c ← chunk_at e offset;
  v ← is_valid c;
  if v : bool then
    orig ← CWE.get_orig_cacheline e;
    oc ← deref (CacheLine.dataChunks orig !! offset);
    ov ← is_valid oc;
    if ov : bool then
      d ← get_data c;
      w ← deref (words !! offset);
      if negb (d =? w) then
        tr ← track_const hash addr offset w (SharedArea.constPredTracker sh);
        Ok (SharedArea.with_constPredTracker tr sh)
      else Ok sh
    else Ok sh
  else Ok sh.

Definition updateConstChunks (maxDataMatchHash addr : Z) (pkt : Packet.t) (b : t)
    (sh : SharedArea.t) : res SharedArea.t :=
  q ← at_ (completedWrites b !! addr);
  target ← search q (fun e => h ← CWE.get_generator_hash e; Ok (h =? maxDataMatchHash));
  match target with
  | Some e =>
      words ← Packet.getPtr pkt;
      for_each (seq 0 DATA_CHUNK_COUNT) (updateConst_chunk maxDataMatchHash addr words e) sh
  | None => Ok sh
  end.

(** ** A persistent write reaches the backend *)

(** Lines 1083-1094: counts the write as predicted by a non-free prediction. *)
Definition count_non_free (pkt : Packet.t) (q : list CWE.t) (b : t) : res t :=
  r ← search (reverse q)
        (fun e => eq ← isPktEqualCompletedEntry pkt e;
           if eq : bool then
             free ← is_free e; Ok (negb free && negb (CWE.is_used e))
           else Ok false);
  Ok (match r with
      | Some _ => with_stats (Stats.incr "correctlyPredNonFreeWr") b
      | None => b
      end).

(** The state of the search loop: statistics, shared area, and the best
    partial match so far ([maxDataMatchCount], [maxDataMatchHash]). *)
Record scan := mkScan {
  sc_b : t;
  sc_sh : SharedArea.t;
  sc_count : Z;
  sc_hash : Z
}.

(** Lines 1117-1154: the entry equals the write. *)
Definition credit (now : Z) (e : CWE.t) (s : scan) : res scan :=
  let confKey := CWE.generatorHash e in
  let b := with_stats (Stats.incr "correctlyPredictedPWrites") (sc_b s) in
  free ← is_free e;
  h ← CWE.get_generator_hash e;
  let '(b, sh) :=
    if free : bool then (with_stats (Stats.incr "correctlyPredictedFreeWrites") b, sc_sh s)
    else (b, SharedArea.broadcastPrediction h true true (sc_sh s)) in
  least ← CWE.get_least_time_of_gen e;
  dataGen ← CWE.get_time_of_data_gen e;
  let b := with_stats (fun st => Stats.sample "dataMatchDist" (u64 (now - dataGen) / 1000)
             (Stats.sample "pmWriteMatchDistance" (u64 (now - least) / 1000) st)) b in
  let sh := SharedArea.raise_confidence confKey sh in
  b ← update_stats_for_const_pred e b;
  Ok (mkScan b sh (sc_count s) (sc_hash s)).

(** Lines 1155-1195: same address, different words. *)
Definition discredit (pkt : Packet.t) (e : CWE.t) (s : scan) : res scan :=
  sh ← updatePCConf pkt e (sc_sh s);
  let b := with_stats (Stats.incr "incorrectlyPredictedPWrites") (sc_b s) in
  matchVec ← dataChunkMatchVec e pkt;
  _ ← dataChunkConstVec e;
  let matchCount := bit_count matchVec in
  if sc_count s <? matchCount then
    h ← CWE.get_generator_hash e; Ok (mkScan b sh matchCount h)
  else Ok (mkScan b sh (sc_count s) (sc_hash s)).

(** Lines 1102-1200: one entry; [true] is the [break]. *)
Definition match_entry (now : Z) (pkt : Packet.t) (e : CWE.t) (s : scan) : res (scan * bool) :=
  confKey ← CWE.get_generator_hash e;
  let s := mkScan (sc_b s) (SharedArea.initConf confKey (sc_sh s)) (sc_count s) (sc_hash s) in
  s ← (if CWE.is_used e then Ok s
       else least ← CWE.get_least_time_of_gen e;
            Ok (mkScan (with_stats (Stats.sample "addrPmWriteMatchDistance"
                                      (u64 (now - least) / 1000)) (sc_b s))
                  (sc_sh s) (sc_count s) (sc_hash s)));
  sameAddr ← isPktEqualCompletedEntryAddr pkt e;
  if sameAddr && negb (CWE.is_used e) then
    n ← getMatchingChunkCount pkt e;
    let s := mkScan (with_stats (Stats.add "avgDataMatchForAddrMatch" n) (sc_b s))
               (sc_sh s) (sc_count s) (sc_hash s) in
    eq ← isPktEqualCompletedEntry pkt e;
    if eq : bool then s ← credit now e s; Ok (s, true)
    else s ← discredit pkt e s; Ok (s, false)
  else Ok (s, false).

(** Lines 1100-1203: the loop from the newest entry; the result is the
    distance from the newest entry at the [break]. *)
Fixpoint match_loop (now : Z) (pkt : Packet.t) (l : list CWE.t) (i : nat) (s : scan)
    : res (scan * option nat) :=
  match l with
  | [] => Ok (s, None)
  | e :: l' =>
      '(s, found) ← match_entry now pkt e s;
      if found : bool then Ok (s, Some i) else match_loop now pkt l' (S i) s
  end.

(** Lines 1263-1285: the end of the predicted branch. *)
Definition settle (now paddr : Z) (q : list CWE.t) (found : option nat) (b : t) : res t :=
  b ← match q with
      | [] => Ok b
      | e :: _ =>
          g ← CWE.get_time_of_addr_gen e;
          Ok (with_stats (Stats.sample "addrMatchDist" (u64 (now - g) / 1000)) b)
      end;
  match found with
  | Some i =>
      q ← modify (length q - 1 - i) CWE.use q;
      Ok (with_writes (<[paddr := q]> (completedWrites b)) b)
  | None => Ok (with_stats (Stats.incr "dataMissPredictedPWrites") b)
  end.

Section Handler.
Context `{O : IterOrder}.
Variable now : Z.
(** The value [maxDataMatchHash] holds before the loop assigns it. *)
Variable hash0 : Z.

(** Lines 1064-1286 *)
Definition handlePredicted (pkt : Packet.t) (paddr : Z) (q : list CWE.t) (b : t)
    (sh : SharedArea.t) : res (t * SharedArea.t) :=
  b ← count_non_free pkt q b;
  '(s, found) ← match_loop now pkt (reverse q) 0 (mkScan b sh 0 hash0);
  _ ← (if negb (sc_hash s =? 0) then
         for_each q (fun e _ => _ ← CWE.get_generator_hash e; Ok tt) tt
       else Ok tt);
  a ← Packet.getPaddr pkt;
  sh ← updateConstChunks (sc_hash s) a pkt (sc_b s) (sc_sh s);
  b ← settle now paddr q found (sc_b s);
  Ok (b, sh).

Definition handleNonVolatileWrite (pkt : Packet.t) (b : t) (sh : SharedArea.t)
    : res (t * SharedArea.t) :=
  line ← CacheLine.of_packet now pkt false;
  n ← CacheLine.valid_chunk_count line;
  let b := with_stats (fun st => Stats.incr "totalPWrites" (Stats.add "validChunks" n st)) b in
  paddr ← Packet.getPaddr pkt;
  let b := if 0 <? default 0 (addrMatches b !! paddr)
           then with_stats (Stats.incr "addrPredictions") b else b in
  match completedWrites b !! paddr with
  | None =>
      let b := with_stats (Stats.incr "nonPredictedPWrites") b in
      Ok (invalidateAllAddr now b, sh)
  | Some q => handlePredicted pkt paddr q b sh
  end.

Definition predictorHandleRequest (pkt : Packet.t) (b : t) (sh : SharedArea.t)
    : res (t * SharedArea.t) :=
  if negb (predictorEnabled b) || negb (usePredictor b) then Ok (b, sh)
  else
    let isClwb := Packet.isToPOC pkt && (Packet.reqSize pkt =? 1) in
    let addr := Packet.addr pkt in
    '(b, sh) ← (if is_paddr_pm addr && Packet.isWrite pkt && negb isClwb
                then handleNonVolatileWrite pkt b sh else Ok (b, sh));
    if is_paddr_pm addr then
      if isClwb then
        match writebackDistMap b !! cacheline_align addr with
        | Some t0 =>
            let d := u64 (now - t0) / 1000 in
            Ok (with_stats (fun st => Stats.sample "writebackDistStatMicro" d
                              (Stats.sample "writebackDistStat" d st)) b, sh)
        | None => Ok (b, sh)
        end
      else Ok (with_wbdist (<[cacheline_align addr := now]> (writebackDistMap b)) b, sh)
    else Ok (b, sh).
End Handler.

(** ** Specification of a match *)

(** The words of a full-line packet. *)
Definition line_pkt (pkt : Packet.t) (paddr : Z) (words : list Z) : Prop :=
  Packet.size pkt = CACHELINE_SIZE /\ Packet.paddr pkt = Some paddr /\
  Packet.data pkt = Some words /\ length words = DATA_CHUNK_COUNT.

Definition mismatchb (words : list Z) (cs : list ChunkInfo.t) (i : nat) : bool :=
  match CacheLine.view cs i, words !! i with
  | Some d, Some w => negb (w =? d)
  | _, _ => false
  end.

Lemma mismatch_ok words e i :
  CacheLine.wf (CWE.cacheline e) -> length words = DATA_CHUNK_COUNT ->
  (i < DATA_CHUNK_COUNT)%nat ->
  mismatch words e i = Ok (mismatchb words (CacheLine.dataChunks (CWE.cacheline e)) i).
Proof.
  intros Hwf Hl Hi. destruct (CacheLine.wf_lookup _ i Hwf Hi) as (c & Ec & Lc).
  destruct (lookup_lt_is_Some_2 words i) as [w Hw]; [lia|].
  unfold mismatch, chunk_at, mismatchb, CacheLine.view, CWE.get_cacheline.
  rewrite Ec, Hw. cbn [deref mbind res_bind].
  rewrite is_valid_legal by auto with pmweaver. cbn [mbind res_bind].
  destruct (validb c) eqn:V; [|done]. by rewrite get_data_line by done.
Qed.

(** [matches words cs]: the line has a word and every word it has is the
    packet's. *)
Definition matches (words : list Z) (cs : list ChunkInfo.t) : bool :=
  forallb (fun i => negb (mismatchb words cs i)) (seq 0 DATA_CHUNK_COUNT) &&
  existsb (fun i => bool_decide (is_Some (CacheLine.view cs i))) (seq 0 DATA_CHUNK_COUNT).

Lemma all_invalid_ok l :
  CacheLine.wf l ->
  CacheLine.all_invalid l =
    Ok (negb (existsb validb (CacheLine.dataChunks l))).
Proof.
  intros Hwf. by apply CacheLine.all_invalid_legal, CacheLine.wf_legal.
Qed.

Lemma existsb_view cs :
  CacheLine.wf_chunks cs ->
  existsb (fun i => bool_decide (is_Some (CacheLine.view cs i))) (seq 0 DATA_CHUNK_COUNT) =
    existsb validb cs.
Proof.
  intros Hwf. apply eq_bool_prop_intro. rewrite !existb_True, !Exists_exists. split.
  - intros (i & _ & Hi). apply Is_true_true, bool_decide_eq_true in Hi as [d Hd].
    unfold CacheLine.view in Hd. destruct (cs !! i) as [c|] eqn:E; [|done].
    exists c. split; [by eapply list_elem_of_lookup_2|]. by destruct (validb c).
  - intros (c & Hc & V). apply list_elem_of_lookup in Hc as [i E]. exists i. split.
    + apply elem_of_seq. apply lookup_lt_Some in E. rewrite (CacheLine.wf_length _ Hwf) in E. lia.
    + apply Is_true_true, bool_decide_eq_true. unfold CacheLine.view. rewrite E.
      by destruct (validb c).
Qed.

Lemma isPktEqualCompletedEntry_ok pkt paddr words e :
  line_pkt pkt paddr words -> CWE.wf e ->
  isPktEqualCompletedEntry pkt e =
    Ok ((CWE.addr e =? paddr) && matches words (CacheLine.dataChunks (CWE.cacheline e))).
Proof.
  intros (Hs & Hp & Hd & Hl) He. unfold isPktEqualCompletedEntry, isPktEqualCompletedEntryAddr.
  rewrite Hs. cbn [Z.eqb CACHELINE_SIZE negb panic_if mbind res_bind Pos.eqb].
  rewrite CWE.get_addr_ok by done. unfold Packet.getPaddr. rewrite Hp.
  cbn [Packet.valid mbind res_bind]. destruct (CWE.addr e =? paddr); [|done]. cbn [andb].
  unfold isPktEqualCompletedEntryData, Packet.getPtr. rewrite Hd. cbn [Packet.valid mbind res_bind].
  pose proof (CWE.wf_line _ He) as Hw.
  rewrite (search_find _ _ (mismatchb words (CacheLine.dataChunks (CWE.cacheline e)))).
  - cbn [mbind res_bind]. unfold CWE.get_cacheline. rewrite all_invalid_ok by done.
    cbn [mbind res_bind]. unfold matches. rewrite find_forallb, existsb_view by done.
    destruct (existsb validb _); cbn [negb]; by rewrite ?andb_true_r, ?andb_false_r.
  - intros i Hi%elem_of_seq. apply mismatch_ok; done || lia.
Qed.

(** A full-line write equals a prediction exactly when
    the addresses are equal, the prediction has at least one word, and every
    word it has is the write's word at that position. *)
Theorem match_predicate_spec pkt paddr words e :
  line_pkt pkt paddr words -> CWE.wf e ->
  exists r, isPktEqualCompletedEntry pkt e = Ok r /\
    (r = true <->
     CWE.addr e = paddr /\
     (exists i d, CacheLine.view (CacheLine.dataChunks (CWE.cacheline e)) i = Some d) /\
     forall i d, CacheLine.view (CacheLine.dataChunks (CWE.cacheline e)) i = Some d ->
       words !! i = Some d).
Proof.
  intros Hp He. eexists. split; [by apply isPktEqualCompletedEntry_ok|].
  set (cs := CacheLine.dataChunks (CWE.cacheline e)).
  assert (CacheLine.wf_chunks cs) as Hw by apply (CWE.wf_line _ He).
  destruct Hp as (_ & _ & _ & Hl). unfold matches.
  rewrite !andb_true_iff, Z.eqb_eq, forallb_forall, existsb_exists. split.
  - intros (Ha & Hall & i & _ & Hi%bool_decide_eq_true). split; [done|]. split.
    + destruct Hi as [d Hd]. eauto.
    + intros j d Hj. assert (j < DATA_CHUNK_COUNT)%nat as Hlt by (by eapply CacheLine.view_bound).
      specialize (Hall j). rewrite in_seq in Hall. specialize (Hall ltac:(lia)).
      unfold mismatchb in Hall. rewrite Hj in Hall.
      destruct (lookup_lt_is_Some_2 words j) as [w Hw']; [lia|]. rewrite Hw' in *.
      f_equal. destruct (Z.eqb_spec w d); [done|by cbn in Hall].
  - intros (Ha & (i & d & Hi) & Hall). split; [done|]. split.
    + intros j _. unfold mismatchb. destruct (CacheLine.view cs j) as [x|] eqn:E; [|done].
      rewrite (Hall j x E). by rewrite Z.eqb_refl.
    + exists i. split; [apply in_seq; apply CacheLine.view_bound in Hi; [lia|done]|].
      apply bool_decide_eq_true. eauto.
Qed.

Lemma mismatch_count_ok words e n :
  CacheLine.wf (CWE.cacheline e) -> length words = DATA_CHUNK_COUNT ->
  for_each (seq 0 DATA_CHUNK_COUNT)
    (fun i result => m ← mismatch words e i; Ok (if m : bool then result + 1 else result)) n =
    Ok (foldl (fun r i => if mismatchb words (CacheLine.dataChunks (CWE.cacheline e)) i
                          then r + 1 else r) n (seq 0 DATA_CHUNK_COUNT)).
Proof.
  intros Hw Hl. eapply (for_each_pure _ _ _ (fun _ => True)); [|done].
  intros i r Hi%elem_of_seq _. by rewrite mismatch_ok by (done || lia).
Qed.

(** [getMatchingChunkCount] counts the words that differ: it is 0 on an exact
    match of the words. *)
Lemma getMatchingChunkCount_ok pkt paddr words e :
  line_pkt pkt paddr words -> CWE.wf e ->
  exists n, getMatchingChunkCount pkt e = Ok n /\
    (matches words (CacheLine.dataChunks (CWE.cacheline e)) = true -> n = 0).
Proof.
  intros (_ & _ & Hd & Hl) He. unfold getMatchingChunkCount, Packet.getPtr. rewrite Hd.
  cbn [Packet.valid mbind res_bind]. rewrite mismatch_count_ok by (apply He || done).
  eexists. split; [done|]. unfold matches. rewrite andb_true_iff, forallb_forall.
  intros [H _]. set (l := seq 0 DATA_CHUNK_COUNT) in *. clearbody l.
  induction l as [|i l IH]; [done|]. cbn [foldl].
  pose proof (H i (or_introl eq_refl)) as Hi. destruct (mismatchb _ _ i); [done|].
  apply IH. intros j Hj. apply H. by right.
Qed.

(** ** Invariants *)

(** Every word that may lower a PC's confidence names its PC. *)
Definition pcs_known (e : CWE.t) : Prop :=
  forall c, c ∈ CacheLine.dataChunks (CWE.cacheline e) ->
    validb c = true -> is_free_prediction c = false -> has_generating_pc c = true.

Record entry_ok (a : Z) (e : CWE.t) : Prop := {
  eo_wf : CWE.wf e;
  eo_addr : CWE.addr e = a;
  eo_pcs : pcs_known e
}.

Definition queue_ok (c : config) (a : Z) (q : list CWE.t) : Prop :=
  q <> [] /\ Z.of_nat (length q) <= MAX_COMPLETED_QUEUE_LINE_SIZE c /\ Forall (entry_ok a) q.

Record wf (b : t) : Prop := {
  wf_queues : forall a q, completedWrites b !! a = Some q -> queue_ok (cfg b) a q;
  wf_limit : 1 <= MAX_COMPLETED_QUEUE_LINE_SIZE (cfg b)
}.

(** The same, but for queues that may be empty. *)
Record lines_ok (b : t) : Prop := {
  lk_queues : forall a q, completedWrites b !! a = Some q ->
    Z.of_nat (length q) <= MAX_COMPLETED_QUEUE_LINE_SIZE (cfg b) /\ Forall (entry_ok a) q;
  lk_limit : 1 <= MAX_COMPLETED_QUEUE_LINE_SIZE (cfg b)
}.

Lemma wf_lines b : wf b -> lines_ok b.
Proof. intros [H1 H2]. split; [|done]. intros a q Hq. by destruct (H1 a q Hq) as (_ & ? & ?). Qed.

(** The tracker of constant chunks is keyed by chunk offsets. *)
Definition tracker_ok (tr : gmap Z (gmap Z SharedArea.constChunkLocator)) : Prop :=
  forall h m k loc, tr !! h = Some m -> m !! k = Some loc -> 0 <= k < 16.

(** No frontend has more than [n] correct predictions of a hash to collect. *)
Definition counts_le (n : Z) (m : gmap Z (Z * Z)) : Prop :=
  forall h a d, m !! h = Some (a, d) -> 0 <= a <= n /\ 0 <= d <= n.

Record shared_ok (n : Z) (sh : SharedArea.t) : Prop := {
  so_conf : SharedArea.conf_bounded sh;
  so_pc : SharedArea.gen_pc_wf sh;
  so_tracker : tracker_ok (SharedArea.constPredTracker sh);
  so_counts : counts_le n (SharedArea.correctPredictions sh)
}.

Lemma shared_ok_weaken n m sh : n <= m -> shared_ok n sh -> shared_ok m sh.
Proof.
  intros Hnm [H1 H2 H3 H4]. split; try done. intros h a d Hh. destruct (H4 h a d Hh). lia.
Qed.

Lemma chunk_at_ok e i :
  CacheLine.wf (CWE.cacheline e) -> (i < DATA_CHUNK_COUNT)%nat ->
  exists c, chunk_at e i = Ok c /\ line_chunk c /\
    c ∈ CacheLine.dataChunks (CWE.cacheline e) /\
    CacheLine.dataChunks (CWE.cacheline e) !! i = Some c.
Proof.
  intros Hw Hi. destruct (CacheLine.wf_lookup _ i Hw Hi) as (c & Ec & Lc).
  exists c. unfold chunk_at, CWE.get_cacheline. rewrite Ec. split; [done|]. split; [done|].
  split; [by eapply list_elem_of_lookup_2|done].
Qed.

Lemma is_free_ok e : CacheLine.wf (CWE.cacheline e) -> exists f, is_free e = Ok f.
Proof.
  intros Hw. destruct (CacheLine.wf_lookup _ 0 Hw) as (c & Ec & _);
    [unfold DATA_CHUNK_COUNT; lia|].
  unfold is_free, CWE.get_cacheline. rewrite Ec. by eexists.
Qed.

(** *** Steps on the shared area *)

Lemma gen_pc_insert sh pc c :
  SharedArea.gen_pc_wf sh -> Confidence.wf c ->
  SharedArea.gen_pc_wf (SharedArea.with_genPCConf (<[pc := c]> (SharedArea.genPCConf sh)) sh).
Proof.
  intros Hs Hc k c'. cbn. destruct (decide (k = pc)) as [->|].
  - rewrite lookup_insert_eq. by intros [= <-].
  - rewrite lookup_insert_ne by done. apply Hs.
Qed.

Lemma updatePCConf_chunk_ok n words e i sh :
  CWE.wf e -> pcs_known e -> length words = DATA_CHUNK_COUNT -> (i < DATA_CHUNK_COUNT)%nat ->
  shared_ok n sh ->
  exists sh', updatePCConf_chunk words e i sh = Ok sh' /\ shared_ok n sh'.
Proof.
  intros He Hpc Hl Hi [H1 H2 H3 H4]. unfold updatePCConf_chunk.
  destruct (chunk_at_ok e i (CWE.wf_line _ He) Hi) as (c & -> & Lc & Hin & _).
  cbn [mbind res_bind]. rewrite is_valid_legal by auto with pmweaver. cbn [mbind res_bind].
  destruct (validb c) eqn:V; [|by exists sh; split; [|split]].
  destruct (is_free_prediction c) eqn:F; [by exists sh; split; [|split]|]. cbn [andb negb].
  unfold get_generating_pc. rewrite (Hpc c Hin V F). cbn [panic_if_not panic_if negb mbind res_bind].
  destruct (lookup_lt_is_Some_2 words i) as [w ->]; [lia|]. cbn [deref mbind res_bind].
  rewrite get_data_line by done. cbn [mbind res_bind].
  set (m := match SharedArea.genPCConf sh !! generatingPC c with
            | Some _ => SharedArea.genPCConf sh | None => _ end).
  assert (exists cf, m !! generatingPC c = Some cf /\ Confidence.wf cf /\
            SharedArea.gen_pc_wf (SharedArea.with_genPCConf m sh)) as (cf & Em & Wc & Wm).
  { subst m. destruct (SharedArea.genPCConf sh !! generatingPC c) as [cf|] eqn:E.
    - exists cf. split; [done|]. split; [by eapply H2|done].
    - assert (Confidence.wf (Confidence.make 6 7 0)) by (by apply Confidence.make_wf).
      exists (Confidence.make 6 7 0). rewrite lookup_insert_eq. split; [done|].
      split; [done|by apply gen_pc_insert]. }
  destruct (negb (w =? datum c)).
  - rewrite Em. cbn [at_ mbind res_bind].
    destruct (Confidence.sub_spec 1 cf Wc) as (cf' & -> & Wc' & _). cbn [mbind res_bind].
    eexists. split; [done|]. split; [done| |done|done].
    by apply (gen_pc_insert (SharedArea.with_genPCConf m sh)).
  - eexists. split; [done|]. by split.
Qed.

Lemma updatePCConf_ok n pkt paddr words e sh :
  line_pkt pkt paddr words -> CWE.wf e -> pcs_known e -> shared_ok n sh ->
  exists sh', updatePCConf pkt e sh = Ok sh' /\ shared_ok n sh'.
Proof.
  intros (_ & _ & Hd & Hl) He Hpc Hs. unfold updatePCConf, Packet.getPtr. rewrite Hd.
  cbn [Packet.valid mbind res_bind]. apply (for_each_total (shared_ok n)); [done|].
  intros i s Hi%elem_of_seq Hs'. apply updatePCConf_chunk_ok; done || lia.
Qed.

Lemma locator_insert tr h m o loc :
  tracker_ok tr -> 0 <= o < 16 -> (forall k l, m !! k = Some l -> 0 <= k < 16) ->
  tracker_ok (<[h := <[o := loc]> m]> tr).
Proof.
  intros Ht Ho Hm h' m' k l. destruct (decide (h' = h)) as [->|].
  - rewrite lookup_insert_eq. intros [= <-]. destruct (decide (k = o)) as [->|]; [done|].
    rewrite lookup_insert_ne by done. apply Hm.
  - rewrite lookup_insert_ne by done. apply Ht.
Qed.

(** The lookup of the tracker by the write's address instead of the chunk's
    offset never finds anything, so the record for the offset is created. *)
Lemma track_const_ok hash addr offset w tr :
  tracker_ok tr -> 16 <= addr -> (offset < DATA_CHUNK_COUNT)%nat ->
  exists tr', track_const hash addr offset w tr = Ok tr' /\ tracker_ok tr'.
Proof.
  intros Ht Ha Ho. unfold DATA_CHUNK_COUNT in Ho. unfold track_const.
  set (tr1 := match tr !! hash with Some _ => tr | None => _ end).
  assert (forall m : gmap Z SharedArea.constChunkLocator,
    (forall k l, m !! k = Some l -> 0 <= k < 16) ->
    (exists l, create_locator (Z.of_nat offset) m !! Z.of_nat offset = Some l) /\
    forall k l, create_locator (Z.of_nat offset) m !! k = Some l -> 0 <= k < 16) as Hcr.
  { intros m Hm. unfold create_locator. destruct (m !! Z.of_nat offset) as [l|] eqn:E; [by eauto|].
    split; [rewrite lookup_insert_eq; eauto|]. intros k l.
    destruct (decide (k = Z.of_nat offset)) as [->|]; [lia|].
    rewrite lookup_insert_ne by done. apply Hm. }
  assert (tracker_ok tr1 /\ exists m, tr1 !! hash = Some m /\
    forall k l, m !! k = Some l -> 0 <= k < 16) as (Ht1 & m & -> & Hm).
  { subst tr1. destruct (tr !! hash) as [m|] eqn:E; [split; [done|]; eauto|].
    destruct (Hcr ∅) as [_ H0]; [intros k l; by rewrite lookup_empty|].
    rewrite lookup_insert_eq. split; [|by eauto].
    intros h m k l. destruct (decide (h = hash)) as [->|].
    - rewrite lookup_insert_eq. intros [= <-]. apply H0.
    - rewrite lookup_insert_ne by done. apply Ht. }
  cbn [at_ mbind res_bind].
  destruct (m !! addr) as [l|] eqn:E; [apply Hm in E; lia|].
  destruct (Hcr m Hm) as [[l ->] Hm']. cbn [at_ mbind res_bind].
  eexists. split; [done|]. apply locator_insert; [done|lia|done].
Qed.

Lemma updateConst_chunk_ok n hash addr words e i sh :
  CWE.wf e -> length words = DATA_CHUNK_COUNT -> (i < DATA_CHUNK_COUNT)%nat -> 16 <= addr ->
  shared_ok n sh ->
  exists sh', updateConst_chunk hash addr words e i sh = Ok sh' /\ shared_ok n sh'.
Proof.
  intros He Hl Hi Ha Hs. unfold updateConst_chunk.
  destruct (chunk_at_ok e i (CWE.wf_line _ He) Hi) as (c & -> & Lc & _ & _).
  cbn [mbind res_bind]. rewrite is_valid_legal by auto with pmweaver. cbn [mbind res_bind].
  destruct (validb c) eqn:V; [|by exists sh]. rewrite CWE.get_orig_cacheline_ok by done.
  cbn [mbind res_bind].
  destruct (CacheLine.wf_lookup _ i (CWE.wf_orig_line _ He) Hi) as (oc & -> & Loc).
  cbn [deref mbind res_bind]. rewrite is_valid_legal by auto with pmweaver. cbn [mbind res_bind].
  destruct (validb oc); [|by exists sh].
  rewrite get_data_line by done. cbn [mbind res_bind].
  destruct (lookup_lt_is_Some_2 words i) as [w ->]; [lia|]. cbn [deref mbind res_bind].
  destruct (negb (datum c =? w)); [|by exists sh]. destruct Hs as [H1 H2 H3 H4].
  destruct (track_const_ok hash addr i w _ H3 Ha Hi) as (tr & -> & Ht). cbn [mbind res_bind].
  eexists. split; [done|]. by split.
Qed.

Lemma updateConstChunks_ok n hash paddr pkt words b sh q :
  line_pkt pkt paddr words -> completedWrites b !! paddr = Some q -> Forall (entry_ok paddr) q ->
  16 <= paddr -> shared_ok n sh ->
  exists sh', updateConstChunks hash paddr pkt b sh = Ok sh' /\ shared_ok n sh'.
Proof.
  intros (_ & _ & Hd & Hl) Hq Hok Ha Hs. unfold updateConstChunks. rewrite Hq.
  cbn [at_ mbind res_bind].
  rewrite (search_find _ _ (fun e => CWE.generatorHash e =? hash)).
  - cbn [mbind res_bind]. destruct (List.find _ q) as [e|] eqn:F; [|by exists sh].
    apply List.find_some in F as [Hin%list_elem_of_In _].
    unfold Packet.getPtr. rewrite Hd. cbn [Packet.valid mbind res_bind].
    rewrite Forall_forall in Hok. destruct (Hok e Hin) as [He _ _].
    apply (for_each_total (shared_ok n)); [done|].
    intros i s Hi%elem_of_seq Hs'. apply updateConst_chunk_ok; done || lia.
  - intros e Hin. rewrite Forall_forall in Hok. destruct (Hok e Hin) as [He _ _].
    by rewrite CWE.get_generator_hash_ok.
Qed.

Lemma dataChunkMatchVec_ok pkt paddr words e :
  line_pkt pkt paddr words -> CWE.wf e -> exists v, dataChunkMatchVec e pkt = Ok v.
Proof.
  intros (_ & _ & Hd & Hl) He. unfold dataChunkMatchVec, Packet.getPtr. rewrite Hd.
  cbn [Packet.valid mbind res_bind].
  destruct (for_each_total (fun _ : list bool => True) (seq 0 DATA_CHUNK_COUNT)
    (fun i bits => c ← chunk_at e i; v ← is_valid c;
       if v : bool then w ← deref (words !! i); d ← get_data c; Ok (bits ++ [w =? d])
       else Ok (bits ++ [false])) []) as (v & E & _); [done| |by exists v].
  intros i bits Hi%elem_of_seq _.
  destruct (chunk_at_ok e i (CWE.wf_line _ He)) as (c & -> & Lc & _ & _); [lia|].
  cbn [mbind res_bind]. rewrite is_valid_legal by auto with pmweaver. cbn [mbind res_bind].
  destruct (validb c) eqn:V; [|by eexists].
  destruct (lookup_lt_is_Some_2 words i) as [w ->]; [lia|]. cbn [deref mbind res_bind].
  rewrite get_data_line by done. by eexists.
Qed.

Lemma dataChunkConstVec_ok e : CWE.wf e -> exists v, dataChunkConstVec e = Ok v.
Proof.
  intros He. unfold dataChunkConstVec.
  destruct (for_each_total (fun _ : list bool => True) (seq 0 DATA_CHUNK_COUNT)
    (fun i bits => c ← chunk_at e i; v ← is_valid c;
       Ok (bits ++ [v && is_constant_pred c])) []) as (v & E & _); [done| |by exists v].
  intros i bits Hi%elem_of_seq _.
  destruct (chunk_at_ok e i (CWE.wf_line _ He)) as (c & -> & Lc & _ & _); [lia|].
  cbn [mbind res_bind]. rewrite is_valid_legal by auto with pmweaver. by eexists.
Qed.

(** *** Steps on the backend's state change only the statistics *)

(** The four counters of the classification of writes. *)
Definition tally (st : Stats.t) : Z * Z * Z * Z :=
  (Stats.get "totalPWrites" st, Stats.get "nonPredictedPWrites" st,
   Stats.get "correctlyPredictedPWrites" st, Stats.get "dataMissPredictedPWrites" st).

Definition hits (n : Z) (v : Z * Z * Z * Z) : Z * Z * Z * Z :=
  let '(total, non, correct, miss) := v in (total, non, correct + n, miss).

Definition misses (v : Z * Z * Z * Z) : Z * Z * Z * Z :=
  let '(total, non, correct, miss) := v in (total, non, correct, miss + 1).

Lemma hits_0 v : hits 0 v = v.
Proof. destruct v as [[[? ?] ?] ?]. cbn. do 2 f_equal. lia. Qed.

(** [b'] is [b] with other statistics, with [n] more correct predictions. *)
Definition counted (n : Z) (b b' : t) : Prop :=
  (exists st, b' = with_stats (fun _ => st) b) /\ tally (stats b') = hits n (tally (stats b)).

Lemma counted_refl b : counted 0 b b.
Proof. split; [exists (stats b); by destruct b|]. by rewrite hits_0. Qed.

Lemma counted_trans n m b1 b2 b3 : counted n b1 b2 -> counted m b2 b3 -> counted (n + m) b1 b3.
Proof.
  intros [[s1 ->] H1] [[s2 ->] H2]. split; [by exists s2|]. rewrite H2, H1.
  destruct (tally (stats b1)) as [[[? ?] ?] ?]. cbn. do 2 f_equal. lia.
Qed.

Lemma counted_stats n f b :
  (forall st, tally (f st) = hits n (tally st)) -> counted n b (with_stats f b).
Proof. intros H. split; [by exists (f (stats b))|]. apply H. Qed.

(** A counter or sample other than the four leaves the tally alone. *)
Ltac tally_simpl :=
  intros; unfold tally, hits, misses; cbn [stats with_stats]; stats_simpl;
  rewrite ?Z.add_0_r; reflexivity.

Lemma update_stats_for_const_pred_ok e b :
  CWE.wf e -> exists b', update_stats_for_const_pred e b = Ok b' /\ counted 0 b b'.
Proof.
  intros He. unfold update_stats_for_const_pred.
  apply (for_each_total (counted 0 b)); [apply counted_refl|].
  intros c b' Hin Hb. rewrite is_valid_legal.
  - cbn [mbind res_bind]. eexists. split; [done|].
    destruct (validb c && is_const_0_pred c); [|done].
    apply (counted_trans 0 0 _ _ _ Hb), counted_stats. tally_simpl.
  - pose proof (CacheLine.wf_legal _ (CWE.wf_line _ He)) as Hall.
    rewrite Forall_forall in Hall. by apply Hall.
Qed.

Lemma shared_initConf n h sh : shared_ok n sh -> shared_ok n (SharedArea.initConf h sh).
Proof.
  intros [? ? ? ?]. split; [by apply SharedArea.initConf_bounded|..];
    unfold SharedArea.initConf; by case_match.
Qed.

Lemma shared_raise n h sh : shared_ok n sh -> shared_ok n (SharedArea.raise_confidence h sh).
Proof. intros [? ? ? ?]. by split; [apply SharedArea.raise_confidence_bounded|..]. Qed.

Lemma counts_bump n h a d (m : gmap Z (Z * Z)) x y :
  0 <= n -> counts_le n m -> default (0, 0) (m !! h) = (a, d) -> 0 <= x <= a + 1 -> 0 <= y <= d + 1 ->
  counts_le (n + 1) (<[h := (x, y)]> m).
Proof.
  intros Hn Hm Hd Hx Hy h' a' d'. destruct (decide (h' = h)) as [->|].
  - rewrite lookup_insert_eq. intros [= <- <-].
    destruct (m !! h) as [[a1 d1]|] eqn:E; cbn in Hd; simplify_eq; [destruct (Hm _ _ _ E)|]; lia.
  - rewrite lookup_insert_ne by done. intros E. destruct (Hm _ _ _ E). lia.
Qed.

Lemma shared_broadcast n h sh :
  0 <= n -> shared_ok n sh -> shared_ok (n + 1) (SharedArea.broadcastPrediction h true true sh).
Proof.
  intros Hn [H1 H2 H3 H4].
  destruct (SharedArea.broadcast_confidence h true true sh) as (E1 & E2 & E3).
  split.
  - intros k c. rewrite E1. apply H1.
  - intros k c. rewrite E2. apply H2.
  - by rewrite E3.
  - rewrite SharedArea.broadcast_both. destruct (default _ _) as [a d] eqn:E.
    assert (0 <= a /\ 0 <= d) as [? ?].
    { destruct (SharedArea.correctPredictions sh !! h) as [[? ?]|] eqn:F; cbn in E; simplify_eq;
        [destruct (H4 _ _ _ F)|]; lia. }
    apply (counts_bump n h a d); [done|done|done|lia|lia].
Qed.

Lemma credit_ok n now e s :
  CWE.wf e -> 0 <= n -> shared_ok n (sc_sh s) ->
  exists s', credit now e s = Ok s' /\ counted 1 (sc_b s) (sc_b s') /\ shared_ok (n + 1) (sc_sh s').
Proof.
  intros He Hn Hs. unfold credit. destruct (is_free_ok e (CWE.wf_line _ He)) as [f ->].
  cbn [mbind res_bind]. rewrite CWE.get_generator_hash_ok by done. cbn [mbind res_bind].
  set (b1 := with_stats (Stats.incr "correctlyPredictedPWrites") (sc_b s)).
  assert (counted 1 (sc_b s) b1) as C1 by (apply counted_stats; tally_simpl).
  set (p := if f then _ else _).
  assert (counted 0 b1 p.1 /\ shared_ok (n + 1) p.2) as [C2 S2].
  { subst p. destruct f; cbn [fst snd].
    - split; [apply counted_stats; tally_simpl|apply (shared_ok_weaken n); [lia|done]].
    - split; [apply counted_refl|by apply shared_broadcast]. }
  destruct p as [b2 sh2]. cbn [fst snd] in *.
  rewrite CWE.get_least_time_of_gen_ok, CWE.get_time_of_data_gen_ok by done.
  cbn [mbind res_bind]. set (b3 := with_stats _ b2).
  assert (counted 0 b2 b3) as C3 by (apply counted_stats; tally_simpl).
  destruct (update_stats_for_const_pred_ok e b3 He) as (b4 & -> & C4). cbn [mbind res_bind].
  eexists. split; [done|]. cbn [sc_b sc_sh]. split; [|by apply shared_raise].
  pose proof (counted_trans _ _ _ _ _ C1 (counted_trans _ _ _ _ _ C2
    (counted_trans _ _ _ _ _ C3 C4))) as C. exact C.
Qed.

Lemma discredit_ok n pkt paddr words e s :
  line_pkt pkt paddr words -> CWE.wf e -> pcs_known e -> shared_ok n (sc_sh s) ->
  exists s', discredit pkt e s = Ok s' /\ counted 0 (sc_b s) (sc_b s') /\ shared_ok n (sc_sh s').
Proof.
  intros Hp He Hpc Hs. unfold discredit.
  destruct (updatePCConf_ok n pkt paddr words e _ Hp He Hpc Hs) as (sh & -> & Hsh).
  cbn [mbind res_bind]. destruct (dataChunkMatchVec_ok pkt paddr words e Hp He) as [v ->].
  cbn [mbind res_bind]. destruct (dataChunkConstVec_ok e He) as [v' ->]. cbn [mbind res_bind].
  assert (counted 0 (sc_b s) (with_stats (Stats.incr "incorrectlyPredictedPWrites") (sc_b s)))
    by (apply counted_stats; tally_simpl).
  destruct (sc_count s <? bit_count v); [|by eexists].
  rewrite CWE.get_generator_hash_ok by done. by eexists.
Qed.

Definition b2z (b : bool) : Z := if b then 1 else 0.

(** An entry takes a write when it is unused and matches it. *)
Definition takes (words : list Z) (e : CWE.t) : bool :=
  negb (CWE.used e) && matches words (CacheLine.dataChunks (CWE.cacheline e)).

Lemma match_entry_ok n now pkt paddr words e s :
  line_pkt pkt paddr words -> entry_ok paddr e -> 0 <= n -> shared_ok n (sc_sh s) ->
  exists s', match_entry now pkt e s = Ok (s', takes words e) /\
    counted (b2z (takes words e)) (sc_b s) (sc_b s') /\
    shared_ok (n + b2z (takes words e)) (sc_sh s').
Proof.
  intros Hp [He Ha Hpc] Hn Hs. unfold match_entry. rewrite CWE.get_generator_hash_ok by done.
  cbn [mbind res_bind]. unfold CWE.is_used, takes.
  set (s1 := mkScan _ _ _ _).
  assert (shared_ok n (sc_sh s1)) as Hs1 by (by apply shared_initConf).
  assert (isPktEqualCompletedEntryAddr pkt e = Ok true) as Haddr.
  { unfold isPktEqualCompletedEntryAddr, Packet.getPaddr. rewrite CWE.get_addr_ok by done.
    destruct Hp as (_ & -> & _). cbn. by rewrite Ha, Z.eqb_refl. }
  destruct (CWE.used e) eqn:U; cbn [negb andb mbind res_bind].
  { rewrite Haddr. cbn [mbind res_bind andb]. eexists. split; [done|].
    split; [apply counted_refl|by rewrite Z.add_0_r]. }
  rewrite CWE.get_least_time_of_gen_ok by done. cbn [mbind res_bind]. rewrite Haddr.
  cbn [mbind res_bind andb].
  destruct (getMatchingChunkCount_ok pkt paddr words e Hp He) as (k & -> & _).
  cbn [mbind res_bind sc_b sc_sh sc_count sc_hash].
  rewrite (isPktEqualCompletedEntry_ok pkt paddr words) by done.
  rewrite Ha, Z.eqb_refl. cbn [andb mbind res_bind].
  set (s2 := mkScan _ _ _ _).
  assert (counted 0 (sc_b s) (sc_b s2)) as C2.
  { cbn. eapply (counted_trans 0 0); apply counted_stats; tally_simpl. }
  destruct (matches words _).
  - destruct (credit_ok n now e s2 He Hn Hs1) as (s3 & -> & C3 & Hs3). cbn [mbind res_bind].
    eexists. split; [done|]. split; [|done]. by apply (counted_trans 0 1 _ _ _ C2).
  - destruct (discredit_ok n pkt paddr words e s2 Hp He Hpc Hs1) as (s3 & -> & C3 & Hs3).
    cbn [mbind res_bind]. eexists. split; [done|]. split; [|by rewrite Z.add_0_r].
    by apply (counted_trans 0 0 _ _ _ C2).
Qed.

(** The distance from the head of the first entry of a list that takes the write. *)
Fixpoint first_taker (words : list Z) (l : list CWE.t) (i : nat) : option nat :=
  match l with
  | [] => None
  | e :: l' => if takes words e then Some i else first_taker words l' (S i)
  end.

Lemma match_loop_ok n now pkt paddr words l i s :
  line_pkt pkt paddr words -> Forall (entry_ok paddr) l -> 0 <= n -> shared_ok n (sc_sh s) ->
  exists s', match_loop now pkt l i s = Ok (s', first_taker words l i) /\
    counted (b2z (bool_decide (is_Some (first_taker words l i)))) (sc_b s) (sc_b s') /\
    shared_ok (n + b2z (bool_decide (is_Some (first_taker words l i)))) (sc_sh s').
Proof.
  intros Hp Hl Hn. revert i s. induction Hl as [|e l He Hl IH]; intros i s Hs.
  { exists s. split; [done|]. split; [apply counted_refl|by rewrite Z.add_0_r]. }
  cbn [match_loop first_taker].
  destruct (match_entry_ok n now pkt paddr words e s Hp He Hn Hs) as (s1 & -> & C1 & Hs1).
  cbn [mbind res_bind]. destruct (takes words e).
  - exists s1. by rewrite bool_decide_true by done.
  - cbn [b2z] in Hs1. rewrite Z.add_0_r in Hs1. destruct (IH (S i) s1 Hs1) as (s2 & -> & C2 & Hs2). exists s2. split; [done|].
    split; [|done]. by apply (counted_trans 0 _ _ _ _ C1).
Qed.

(** *** The whole handler *)

Lemma first_taker_spec words l i k :
  first_taker words l i = Some k ->
  exists e, (i <= k)%nat /\ l !! (k - i)%nat = Some e /\ takes words e = true /\
    forall j e', (j < k - i)%nat -> l !! j = Some e' -> takes words e' = false.
Proof.
  revert i. induction l as [|e l IH]; intros i; cbn [first_taker]; [done|].
  destruct (takes words e) eqn:T.
  - intros [= <-]. exists e. rewrite Nat.sub_diag. repeat split; [lia|done|intros; lia].
  - intros H. apply IH in H as (e' & Hi & Hl & Ht & Hmin). exists e'.
    split; [lia|]. replace (k - i)%nat with (S (k - S i)) by lia. split; [done|].
    split; [done|]. intros [|j] e'' Hj Hlook; cbn in Hlook; [congruence|].
    eapply Hmin; [|exact Hlook]. lia.
Qed.

Lemma first_taker_none words l i e :
  first_taker words l i = None -> e ∈ l -> takes words e = false.
Proof.
  revert i. induction l as [|x l IH]; intros i; cbn [first_taker]; [set_solver|].
  destruct (takes words x) eqn:T; [done|]. intros H [->|Hin]%elem_of_cons; eauto.
Qed.

Lemma count_non_free_ok pkt paddr words q b :
  line_pkt pkt paddr words -> Forall (entry_ok paddr) q ->
  exists b', count_non_free pkt q b = Ok b' /\ counted 0 b b'.
Proof.
  intros Hp Hq. unfold count_non_free.
  assert (exists r, search (reverse q)
        (fun e => eq ← isPktEqualCompletedEntry pkt e;
           if eq : bool then
             free ← is_free e; Ok (negb free && negb (CWE.is_used e))
           else Ok false) = Ok r) as [r ->].
  { apply Forall_reverse in Hq. induction Hq as [|e l He _ IH]; [by eexists|].
    cbn [search]. destruct He as [He _ _].
    rewrite (isPktEqualCompletedEntry_ok pkt paddr words) by done. cbn [mbind res_bind].
    destruct (is_free_ok e (CWE.wf_line _ He)) as [f Hf].
    destruct (_ && matches _ _); [rewrite Hf|]; cbn [mbind res_bind]; [|done].
    destruct (negb f && _); [by eexists|done]. }
  cbn [mbind res_bind]. eexists. split; [done|]. destruct r; [|apply counted_refl].
  apply counted_stats. tally_simpl.
Qed.

(** The queue after a write with these words: the newest entry that takes it
    is marked used. *)
Definition settled (words : list Z) (q : list CWE.t) : list CWE.t :=
  match first_taker words (reverse q) 0 with
  | Some i => alter CWE.mark_used (length q - 1 - i)%nat q
  | None => q
  end.

Lemma taker_index words q i :
  first_taker words (reverse q) 0 = Some i ->
  exists e, q !! (length q - 1 - i)%nat = Some e /\ CWE.used e = false.
Proof.
  intros H. apply first_taker_spec in H as (e & _ & Hl & Ht & _). rewrite Nat.sub_0_r in Hl.
  pose proof (lookup_lt_Some _ _ _ Hl) as Hlt. rewrite length_reverse in Hlt.
  rewrite reverse_lookup in Hl by done. exists e.
  split; [|unfold takes in Ht; by destruct (CWE.used e)].
  by replace (length q - 1 - i)%nat with (length q - S i)%nat by lia.
Qed.

Lemma settled_ok c a words q : queue_ok c a q -> queue_ok c a (settled words q).
Proof.
  intros (Hne & Hlen & Hall). unfold settled.
  destruct (first_taker words (reverse q) 0) as [i|]; [|done].
  split; [|split].
  - intros H. apply Hne. apply (f_equal length) in H. rewrite length_alter in H.
    by apply nil_length_inv.
  - by rewrite length_alter.
  - apply Forall_alter; [done|]. intros e _ [He Ha Hp].
    split; [by apply CWE.mark_used_wf|done|done].
Qed.

Lemma settle_ok now paddr words q b :
  Forall (entry_ok paddr) q -> completedWrites b !! paddr = Some q ->
  exists b', settle now paddr q (first_taker words (reverse q) 0) b = Ok b' /\
    cfg b' = cfg b /\ usePredictor b' = usePredictor b /\ predictorEnabled b' = predictorEnabled b /\
    completedWrites b' = <[paddr := settled words q]> (completedWrites b) /\
    tally (stats b') = if bool_decide (is_Some (first_taker words (reverse q) 0))
                       then tally (stats b) else misses (tally (stats b)).
Proof.
  intros Hq Hb. unfold settle, settled.
  assert (exists b1, (match q with
      | [] => Ok b
      | e :: _ => g ← CWE.get_time_of_addr_gen e;
          Ok (with_stats (Stats.sample "addrMatchDist" (u64 (now - g) / 1000)) b)
      end) = Ok b1 /\ counted 0 b b1) as (b1 & -> & [[st ->] C1]).
  { destruct Hq as [|e l [He _ _] _]; [exists b; split; [done|apply counted_refl]|].
    rewrite CWE.get_time_of_addr_gen_ok by done. eexists. split; [done|].
    apply counted_stats. tally_simpl. }
  cbn [mbind res_bind]. rewrite hits_0 in C1.
  destruct (first_taker words (reverse q) 0) as [i|] eqn:F.
  - destruct (taker_index words q i F) as (e & Hi & Hu).
    rewrite (modify_ok _ _ _ e (CWE.mark_used e)) by (done || by apply CWE.use_ok).
    cbn [mbind res_bind]. eexists. split; [done|]. do 3 (split; [done|]).
    split; [|rewrite bool_decide_true by done; exact C1]. cbn.
    by rewrite (insert_alter CWE.mark_used q _ e).
  - eexists. split; [done|]. repeat (split; [done|]). split; [cbn; by rewrite insert_id|].
    rewrite bool_decide_false by (intros [? ?]; done). rewrite <- C1. tally_simpl.
Qed.

Lemma handlePredicted_ok n now hash0 pkt paddr words q b sh :
  line_pkt pkt paddr words -> wf b -> 0 <= n -> shared_ok n sh -> 16 <= paddr ->
  completedWrites b !! paddr = Some q ->
  exists b' sh', handlePredicted now hash0 pkt paddr q b sh = Ok (b', sh') /\
    shared_ok (n + 1) sh' /\
    cfg b' = cfg b /\ usePredictor b' = usePredictor b /\ predictorEnabled b' = predictorEnabled b /\
    completedWrites b' = <[paddr := settled words q]> (completedWrites b) /\
    tally (stats b') = if bool_decide (is_Some (first_taker words (reverse q) 0))
                       then hits 1 (tally (stats b)) else misses (tally (stats b)).
Proof.
  intros Hp Hb Hn Hs Ha Hq. destruct (wf_queues _ Hb _ _ Hq) as (_ & _ & Hall).
  unfold handlePredicted.
  destruct (count_non_free_ok pkt paddr words q b Hp Hall) as (b1 & -> & [[st1 ->] C1]).
  cbn [mbind res_bind].
  destruct (match_loop_ok n now pkt paddr words (reverse q) 0
    (mkScan (with_stats (fun _ => st1) b) sh 0 hash0)) as (s & -> & [[st2 C2] T2] & Hs2);
    [done|by apply Forall_reverse|done|done|].
  apply (shared_ok_weaken _ (n + 1)) in Hs2; [|case_bool_decide; cbn [b2z]; lia].
  cbn [mbind res_bind sc_b] in *.
  assert (for_each q (fun e _ => _ ← CWE.get_generator_hash e; Ok tt) tt = Ok tt) as Hh.
  { clear -Hall. induction Hall as [|e l [He _ _] _ IH]; [done|].
    cbn [for_each]. by rewrite CWE.get_generator_hash_ok. }
  replace (if negb (sc_hash s =? 0) then _ else Ok tt) with (Ok tt : res unit)
    by (by destruct (negb (sc_hash s =? 0))).
  cbn [mbind res_bind]. pose proof Hp as (_ & Hpa & _). unfold Packet.getPaddr. rewrite Hpa.
  cbn [Packet.valid mbind res_bind].
  destruct (updateConstChunks_ok (n + 1) (sc_hash s) paddr pkt words (sc_b s) (sc_sh s) q)
    as (sh' & -> & Hsh'); [done|by rewrite C2|done|done|done|].
  cbn [mbind res_bind].
  destruct (settle_ok now paddr words q (sc_b s) Hall) as (b' & -> & Hc & Hu & He & Hw & Ht);
    [by rewrite C2|].
  cbn [mbind res_bind]. exists b', sh'. split; [done|]. split; [done|].
  rewrite C2 in Hc, Hu, He, Hw. do 4 (split; [done|]). rewrite Ht, T2, C1.
  rewrite hits_0. case_bool_decide; cbn [b2z]; [done|]. by rewrite hits_0.
Qed.

Lemma restamp_ok now a e : entry_ok a e -> entry_ok a (restamp now e).
Proof.
  intros [He Ha Hp]. unfold restamp. destruct (CWE.is_used e); [by split|].
  split; [by apply CWE.set_time_of_addr_gen_wf|done|done].
Qed.

(** The loop of [invalidateAllAddr] over a list of distinct addresses. *)
Lemma invalidate_loop now (l : list (Z * list CWE.t)) b :
  NoDup l.*1 ->
  let b' := foldl (fun b x =>
               let q := map (restamp now) (default [] (completedWrites b !! x.1)) in
               let b := with_writes (<[x.1 := q]> (completedWrites b)) b in
               match q with
               | [] => b
               | _ => with_stats (Stats.incr "invalidatedPredictions") b
               end) b l in
  cfg b' = cfg b /\ usePredictor b' = usePredictor b /\ predictorEnabled b' = predictorEnabled b /\
  tally (stats b') = tally (stats b) /\
  forall k, completedWrites b' !! k =
    if decide (k ∈ l.*1) then Some (map (restamp now) (default [] (completedWrites b !! k)))
    else completedWrites b !! k.
Proof.
  revert b. induction l as [|[a q0] l IH]; intros b Hnd; cbn [foldl fst].
  { repeat (split; [done|]). intros k. cbn. by rewrite decide_False by set_solver. }
  cbn [fmap list_fmap fst] in Hnd. apply NoDup_cons in Hnd as [Hni Hnd].
  set (q := map (restamp now) (default [] (completedWrites b !! a))).
  set (b1 := match q with [] => _ | _ => _ end).
  assert (cfg b1 = cfg b /\ usePredictor b1 = usePredictor b /\
    predictorEnabled b1 = predictorEnabled b /\ tally (stats b1) = tally (stats b) /\
    completedWrites b1 = <[a := q]> (completedWrites b)) as (Hc & Hu & He & Ht & Hw).
  { subst b1. destruct q; repeat (split; [done|]); [done|]. split; [tally_simpl|done]. }
  destruct (IH b1 Hnd) as (Hc' & Hu' & He' & Ht' & Hw'). cbn zeta in *.
  split; [congruence|]. split; [congruence|]. split; [congruence|]. split; [congruence|].
  intros k. rewrite Hw', Hw. cbn [fmap list_fmap fst].
  destruct (decide (k = a)) as [->|Hne].
  - rewrite lookup_insert_eq, decide_False by done. by rewrite decide_True by set_solver.
  - rewrite lookup_insert_ne by done. apply decide_ext. set_solver.
Qed.

(** Invalidation restamps every unused prediction and nothing else. *)
Lemma invalidateAllAddr_ok `{O : IterOrder} now b :
  let b' := invalidateAllAddr now b in
  cfg b' = cfg b /\ usePredictor b' = usePredictor b /\ predictorEnabled b' = predictorEnabled b /\
  tally (stats b') = tally (stats b) /\
  completedWrites b' = if disable_invalidation (cfg b) then completedWrites b
                       else map (restamp now) <$> completedWrites b.
Proof.
  unfold invalidateAllAddr. destruct (disable_invalidation (cfg b)); cbn [negb]; [done|].
  destruct (invalidate_loop now (iter (completedWrites b)) b (NoDup_iter_fst _))
    as (Hc & Hu & He & Ht & Hw).
  do 4 (split; [done|]). apply map_eq. intros k. rewrite Hw, lookup_fmap.
  case_decide as Hk.
  - apply list_elem_of_fmap in Hk as [[k' q] [-> Hin%elem_of_iter]]. cbn. by rewrite Hin.
  - destruct (completedWrites b !! k) as [q|] eqn:E; [|done]. exfalso. apply Hk.
    apply list_elem_of_fmap. exists (k, q). split; [done|]. by apply elem_of_iter.
Qed.

(** A full-line write to persistent memory. *)
Record pm_write (pkt : Packet.t) (paddr : Z) (words : list Z) : Prop := {
  pw_line : line_pkt pkt paddr words;
  pw_write : Packet.isWrite pkt = true;
  pw_addr : Packet.addr pkt = paddr;
  pw_aligned : get_cacheline_off paddr = 0;
  pw_pm : is_paddr_pm paddr = true;
  pw_size : Packet.reqSize pkt = CACHELINE_SIZE
}.

Lemma pm_high paddr : is_paddr_pm paddr = true -> 16 <= paddr.
Proof. unfold is_paddr_pm. lia. Qed.

Lemma pm_line now pkt paddr words :
  pm_write pkt paddr words ->
  exists l, CacheLine.of_packet now pkt false = Ok l /\ CacheLine.wf l.
Proof.
  intros [(Hs & Hp & Hd & Hl) _ _ Ho _ _].
  destruct (CacheLine.of_packet_ok now pkt false paddr words) as (l & E & Hw & _); [done|done|..].
  - by rewrite Hs.
  - rewrite Hs, Hl. vm_compute. lia.
  - rewrite Ho, Hs. done.
  - by exists l.
Qed.

(** What the result buffer becomes when a write to [paddr] is compared with it. *)
Definition after_write (now paddr : Z) (words : list Z) (b : t) : gmap Z (list CWE.t) :=
  match completedWrites b !! paddr with
  | Some q => <[paddr := settled words q]> (completedWrites b)
  | None => if disable_invalidation (cfg b) then completedWrites b
            else map (restamp now) <$> completedWrites b
  end.

(** How the write is classified. *)
Definition classify (words : list Z) (o : option (list CWE.t)) (v : Z * Z * Z * Z)
    : Z * Z * Z * Z :=
  let '(total, non, correct, miss) := v in
  match o with
  | None => (total + 1, non + 1, correct, miss)
  | Some q => match first_taker words (reverse q) 0 with
              | Some _ => (total + 1, non, correct + 1, miss)
              | None => (total + 1, non, correct, miss + 1)
              end
  end.

Lemma wf_after_write now paddr words b b' :
  wf b -> cfg b' = cfg b -> completedWrites b' = after_write now paddr words b -> wf b'.
Proof.
  intros [Hq Hl] Hc Hw. split; rewrite Hc; [|done]. intros a q. rewrite Hw. unfold after_write.
  destruct (completedWrites b !! paddr) as [q0|] eqn:E0.
  - destruct (decide (a = paddr)) as [->|].
    + rewrite lookup_insert_eq. intros [= <-]. apply settled_ok. by apply Hq.
    + rewrite lookup_insert_ne by done. apply Hq.
  - destruct (disable_invalidation (cfg b)); [apply Hq|]. rewrite lookup_fmap.
    destruct (completedWrites b !! a) as [q1|] eqn:E1; cbn; [|done]. intros [= <-].
    destruct (Hq _ _ E1) as (Hne & Hlen & Hall). split; [|split].
    + by destruct q1.
    + by rewrite length_map.
    + apply Forall_map. eapply Forall_impl; [exact Hall|]. intros e. apply restamp_ok.
Qed.

Lemma handleNonVolatileWrite_ok `{O : IterOrder} n now hash0 pkt paddr words b sh :
  pm_write pkt paddr words -> wf b -> 0 <= n -> shared_ok n sh ->
  exists b' sh', handleNonVolatileWrite now hash0 pkt b sh = Ok (b', sh') /\
    wf b' /\ shared_ok (n + 1) sh' /\ cfg b' = cfg b /\
    usePredictor b' = usePredictor b /\ predictorEnabled b' = predictorEnabled b /\
    completedWrites b' = after_write now paddr words b /\
    tally (stats b') = classify words (completedWrites b !! paddr) (tally (stats b)).
Proof.
  intros Hpw Hb Hn Hs. unfold handleNonVolatileWrite.
  destruct (pm_line now pkt paddr words Hpw) as (l & -> & Hl). cbn [mbind res_bind].
  rewrite CacheLine.valid_chunk_count_ok by done. cbn [mbind res_bind].
  destruct Hpw as [Hp _ _ _ Hpm _]. pose proof Hp as (_ & Hpa & _).
  unfold Packet.getPaddr. rewrite Hpa. cbn [Packet.valid mbind res_bind].
  set (b1 := with_stats _ b). set (b2 := if _ <? _ then _ else b1).
  assert (exists st, b2 = with_stats (fun _ => st) b /\
    tally st = let '(t0, n, c, m) := tally (stats b) in (t0 + 1, n, c, m)) as (st & E2 & T2).
  { subst b2. destruct (0 <? _).
    - eexists. split; [done|]. subst b1. tally_simpl.
    - eexists (stats b1). split; [done|]. subst b1. tally_simpl. }
  clearbody b2. subst b2. cbn [completedWrites with_stats].
  unfold after_write, classify. destruct (completedWrites b !! paddr) as [q|] eqn:Eq.
  - destruct (handlePredicted_ok n now hash0 pkt paddr words q (with_stats (fun _ => st) b) sh)
      as (b' & sh' & -> & Hs' & Hc & Hu & He & Hw & Ht); [done|by destruct Hb|done|done| |done|].
    { by apply pm_high. }
    exists b', sh'. split; [done|]. split.
    { eapply (wf_after_write now paddr words b); [done|done|]. unfold after_write. by rewrite Eq. }
    do 4 (split; [done|]). split; [done|]. rewrite Ht. cbn [stats with_stats]. rewrite T2.
    destruct (tally (stats b)) as [[[? ?] ?] ?].
    destruct (first_taker words (reverse q) 0); by rewrite ?bool_decide_true, ?bool_decide_false
      by (done || by intros [? ?]).
  - set (b3 := with_stats (Stats.incr "nonPredictedPWrites") _).
    destruct (invalidateAllAddr_ok now b3) as (Hc & Hu & He & Ht & Hw).
    eexists _, sh. split; [done|]. split.
    { eapply (wf_after_write now paddr words b); [done|done|]. unfold after_write. by rewrite Eq. }
    split; [apply (shared_ok_weaken n); [lia|done]|]. do 3 (split; [done|]). split; [done|]. rewrite Ht.
    transitivity (let '(t0, n, c, m) := tally st in (t0, n + 1, c, m));
      [subst b3; tally_simpl|]. rewrite T2. by destruct (tally (stats b)) as [[[? ?] ?] ?].
Qed.

(** *** Insertion *)
Section InsertionLemmas.
Context `{O : IterOrder}.
Variable pt : PageTable.t.
Variables isCounterCacheHit isVerificationCacheHit : Z -> bool.
Variable now : Z.

(** The entry as it is queued under its physical address. *)
Definition placed (paddr : Z) (entry : CWE.t) : CWE.t :=
  CWE.set_verification_cache_hit (isVerificationCacheHit paddr)
    (CWE.set_counter_cache_hit (isCounterCacheHit paddr) (CWE.set_addr paddr entry)).

Lemma placed_ok paddr entry :
  CWE.wf entry -> pcs_known entry -> entry_ok paddr (placed paddr entry).
Proof.
  intros He Hp. unfold placed. split.
  - by apply CWE.set_hits_wf, CWE.set_addr_wf.
  - by destruct (isVerificationCacheHit paddr), (isCounterCacheHit paddr).
  - unfold pcs_known.
    by destruct (isVerificationCacheHit paddr), (isCounterCacheHit paddr).
Qed.

Definition max_line (b : t) : nat := Z.to_nat (MAX_COMPLETED_QUEUE_LINE_SIZE (cfg b)).

Lemma queued_ok b paddr entry :
  wf b -> CWE.wf entry -> pcs_known entry ->
  queue_ok (cfg b) paddr
    (lastn (max_line b) (default [] (completedWrites b !! paddr) ++ [placed paddr entry])).
Proof.
  intros [Hq Hl] He Hp. unfold max_line. split; [|split].
  - intros H. apply (f_equal length) in H. rewrite length_lastn, length_app in H. cbn in H. lia.
  - rewrite length_lastn. lia.
  - unfold lastn. apply Forall_drop, Forall_app. split.
    + destruct (completedWrites b !! paddr) as [q|] eqn:E; cbn; [|constructor].
      by apply (Hq _ _ E).
    + constructor; [by apply placed_ok|constructor].
Qed.

Lemma enqueue_ok entry paddr b :
  lines_ok b -> CWE.wf entry -> pcs_known entry ->
  exists b', enqueue isCounterCacheHit isVerificationCacheHit entry paddr b = Ok b' /\
    cfg b' = cfg b /\ stats b' = stats b /\
    usePredictor b' = usePredictor b /\ predictorEnabled b' = predictorEnabled b /\
    completedWrites b' = <[paddr := lastn (max_line b)
      (default [] (completedWrites b !! paddr) ++ [placed paddr entry])]> (completedWrites b).
Proof.
  intros Hb He Hp. pose proof (lk_limit _ Hb) as Hlim. unfold enqueue.
  cbn [cfg completedWrites with_pending with_matches]. fold (placed paddr entry).
  set (q := default [] (completedWrites b !! paddr)).
  assert (Z.of_nat (length q) <= MAX_COMPLETED_QUEUE_LINE_SIZE (cfg b) /\
          Forall (entry_ok paddr) q) as [Hlen Hall].
  { subst q. destruct (completedWrites b !! paddr) as [q|] eqn:E; cbn.
    - by apply (lk_queues _ Hb).
    - split; [lia|constructor]. }
  unfold max_line. rewrite length_app. cbn [length].
  destruct (Z.leb_spec (MAX_COMPLETED_QUEUE_LINE_SIZE (cfg b) + 1) (Z.of_nat (length q + 1))).
  - rewrite lastn_snoc_full by lia. destruct q as [|e q']; [cbn in *; lia|].
    apply Forall_cons in Hall as [[He0 _ _] _]. cbn [head app deref mbind res_bind].
    rewrite CacheLine.print_ok by apply (CWE.wf_line _ He0). cbn.
    rewrite CWE.get_generator_hash_ok by done. cbn. by eexists.
  - rewrite lastn_all by (rewrite length_app; cbn; lia). by eexists.
Qed.

Lemma remove_empty_ok b : wf b -> remove_empty b = Ok b.
Proof.
  intros Hb. unfold remove_empty.
  destruct (filter _ _) as [|[a q] l] eqn:F; [done|].
  assert ((a, q) ∈ filter (fun x => x.2 = []) (iter (completedWrites b))) as H
    by (rewrite F; set_solver).
  apply list_elem_of_filter in H as [Hq Hin%elem_of_iter]. cbn in Hq.
  by destruct (wf_queues _ Hb _ _ Hin).
Qed.

Lemma find_oldest_ok b : wf b -> exists a, find_oldest now b = Ok a.
Proof.
  intros Hb. unfold find_oldest. destruct (_ <? _); [|by eexists].
  edestruct (for_each_total (fun _ : Z => True) (iter (completedWrites b))) as (r & E & _);
    [done| |by exists r].
  intros [a q] o Hin%elem_of_iter _.
  apply (for_each_total (fun _ : Z => True)); [done|].
  intros e o' He _. destruct (wf_queues _ Hb _ _ Hin) as (_ & _ & Hall).
  rewrite Forall_forall in Hall. destruct (Hall e He) as [Hwf _ _].
  unfold scan_entry. rewrite CWE.get_time_of_creation_ok by done. cbn [mbind res_bind].
  destruct (is_free_ok e (CWE.wf_line _ Hwf)) as [f ->]. by eexists.
Qed.

(** The address is mapped and the predictor in use. *)
Definition accepted (entry : CWE.t) (b : t) : option Z :=
  if usePredictor b then PageTable.translate pt (CWE.addr entry) else None.

Lemma addCompletedWrite_ok entry b :
  wf b -> CWE.wf entry -> pcs_known entry ->
  exists b', addCompletedWrite pt isCounterCacheHit isVerificationCacheHit now entry b = Ok b' /\
    wf b' /\ cfg b' = cfg b /\ stats b' = stats b /\
    usePredictor b' = usePredictor b /\ predictorEnabled b' = predictorEnabled b /\
    match accepted entry b with
    | None => completedWrites b' = completedWrites b
    | Some paddr =>
        let m := <[paddr := lastn (max_line b)
          (default [] (completedWrites b !! paddr) ++ [placed paddr entry])]>
          (completedWrites b) in
        exists victim, completedWrites b' = if victim =? 0 then m else delete victim m
    end.
Proof.
  intros Hb He Hp. unfold addCompletedWrite, accepted. rewrite CWE.get_addr_ok by done.
  cbn [mbind res_bind]. unfold PageTable.translate.
  destruct (PageTable.lookup_ pt (CWE.addr entry)) as [pe|];
    [|exists b; repeat (split; [done|]); by destruct (usePredictor b)].
  destruct (usePredictor b) eqn:U; [|exists b; by repeat (split; [done|])].
  cbn [default from_option id]. set (paddr := u64 _).
  destruct (enqueue_ok entry paddr b (wf_lines b Hb) He Hp) as (b1 & -> & Hc & Hst & Hu & Hen & Hw).
  cbn [mbind res_bind].
  assert (wf b1) as Hb1.
  { split; rewrite Hc; [|apply Hb]. intros a q. rewrite Hw.
    destruct (decide (a = paddr)) as [->|].
    - rewrite lookup_insert_eq. intros [= <-]. by apply queued_ok.
    - rewrite lookup_insert_ne by done. apply Hb. }
  rewrite remove_empty_ok by done. cbn [mbind res_bind].
  rewrite Hw, lookup_insert_eq. cbn [at_ mbind res_bind].
  destruct (queued_ok b paddr entry Hb He Hp) as (_ & Hlen & _).
  rewrite Hc. destruct (Z.ltb_spec (MAX_COMPLETED_QUEUE_LINE_SIZE (cfg b))
    (Z.of_nat (length (lastn (max_line b)
      (default [] (completedWrites b !! paddr) ++ [placed paddr entry]))))); [lia|].
  cbn [panic_if mbind res_bind]. destruct (find_oldest_ok b1 Hb1) as [v ->].
  cbn [mbind res_bind]. eexists. split; [done|].
  destruct (v =? 0) eqn:V; cbn [cfg stats usePredictor predictorEnabled evicted with_writes
    completedWrites].
  - do 5 (split; [done || congruence|]). exists v. by rewrite V.
  - split; [|do 4 (split; [done || congruence|]); exists v; by rewrite V].
    split; cbn; rewrite Hc; [|apply Hb]. intros a q [_ Ha]%lookup_delete_Some.
    rewrite <- Hc. apply (wf_queues _ Hb1). by rewrite Hw.
Qed.
End InsertionLemmas.

(** ** Theorems *)

(** C29: comparing a full-line persistent write with the
    result buffer never stops the simulation, keeps the buffer and the shared
    tables well-formed, and classifies the write as exactly one of not
    predicted, correctly predicted or data-missed, according to whether the
    buffer has its address and an unused matching prediction there. *)
Theorem backend_write_spec `{O : IterOrder} n now hash0 pkt paddr words b sh :
  pm_write pkt paddr words -> wf b -> 0 <= n -> shared_ok n sh ->
  exists b' sh', handleNonVolatileWrite now hash0 pkt b sh = Ok (b', sh') /\
    wf b' /\ shared_ok (n + 1) sh' /\
    completedWrites b' = after_write now paddr words b /\
    tally (stats b') = classify words (completedWrites b !! paddr) (tally (stats b)).
Proof.
  intros Hp Hb Hn Hs.
  destruct (handleNonVolatileWrite_ok n now hash0 pkt paddr words b sh Hp Hb Hn Hs)
    as (b' & sh' & ? & ? & ? & _ & _ & _ & ? & ?).
  eauto 10.
Qed.

Lemma first_taker_at words l i e k :
  l !! k = Some e -> takes words e = true ->
  (forall j e', (j < k)%nat -> l !! j = Some e' -> takes words e' = false) ->
  first_taker words l i = Some (i + k)%nat.
Proof.
  revert i k. induction l as [|x l IH]; intros i k Hk Ht Hmin; [done|].
  cbn [first_taker]. destruct k as [|k].
  - cbn in Hk. injection Hk as ->. rewrite Ht. f_equal. lia.
  - rewrite (Hmin O x) by (lia || done). rewrite (IH (S i) k); [f_equal; lia|done|done|].
    intros j e' Hj Hl. apply (Hmin (S j)); [lia|done].
Qed.

(** Of several unused predictions that match a write the
    newest one, and only that one, is marked used, so no prediction is credited
    twice; the counter of correct predictions grows by one. *)
Theorem newest_match_used `{O : IterOrder} n now hash0 pkt paddr words b sh q i e :
  pm_write pkt paddr words -> wf b -> 0 <= n -> shared_ok n sh ->
  completedWrites b !! paddr = Some q ->
  q !! i = Some e -> takes words e = true ->
  (forall j e', (i < j)%nat -> q !! j = Some e' -> takes words e' = false) ->
  exists b' sh', handleNonVolatileWrite now hash0 pkt b sh = Ok (b', sh') /\
    completedWrites b' !! paddr = Some (alter CWE.mark_used i q) /\
    takes words (CWE.mark_used e) = false /\
    Stats.get "correctlyPredictedPWrites" (stats b') =
      Stats.get "correctlyPredictedPWrites" (stats b) + 1.
Proof.
  intros Hp Hb Hn Hs Hq Hi Ht Hnew.
  destruct (handleNonVolatileWrite_ok n now hash0 pkt paddr words b sh Hp Hb Hn Hs)
    as (b' & sh' & E & _ & _ & _ & _ & _ & Hw & Htl).
  pose proof (lookup_lt_Some _ _ _ Hi) as Hlt.
  assert (first_taker words (reverse q) 0 = Some (length q - S i)%nat) as Hf.
  { apply (first_taker_at words (reverse q) 0 e (length q - S i)%nat); [|done|].
    - rewrite reverse_lookup by lia.
      by replace (length q - S (length q - S i))%nat with i by lia.
    - intros j e' Hj Hl. pose proof (lookup_lt_Some _ _ _ Hl) as Hjl.
      rewrite length_reverse in Hjl. rewrite reverse_lookup in Hl by done.
      eapply Hnew; [|exact Hl]. lia. }
  exists b', sh'. split; [done|]. unfold after_write, classify, settled in *.
  rewrite Hq, Hf in Hw, Htl. split; [|split; [done|]].
  - rewrite Hw, lookup_insert_eq.
    by replace (length q - 1 - (length q - S i))%nat with i by lia.
  - unfold tally in Htl. congruence.
Qed.

(** *** Runs *)

Inductive event :=
| EvRequest (now hash0 : Z) (pkt : Packet.t)
| EvPrediction (now : Z) (entry : CWE.t)
| EvEnable (use enabled : bool)
| EvFeedbackRead.

Definition with_enabled (u e : bool) (b : t) : t :=
  mk (cfg b) (completedWrites b) (addrMatches b) (pendingPredictionQueue b)
    (capacityEvictionStatic b) u e (writebackDistMap b) (stats b).

Section Runs.
Context `{O : IterOrder}.
Variable pt : PageTable.t.
Variables isCounterCacheHit isVerificationCacheHit : Z -> bool.

Definition handle (ev : event) (st : t * SharedArea.t) : res (t * SharedArea.t) :=
  let '(b, sh) := st in
  match ev with
  | EvRequest now hash0 pkt => predictorHandleRequest now hash0 pkt b sh
  | EvPrediction now entry =>
      b ← addCompletedWrite pt isCounterCacheHit isVerificationCacheHit now entry b; Ok (b, sh)
  | EvEnable u e => Ok (with_enabled u e b, sh)
  | EvFeedbackRead => Ok (b, SharedArea.with_correctPredictions ∅ sh)
  end.

Definition run (evs : list event) (st : t * SharedArea.t) : res (t * SharedArea.t) :=
  for_each evs handle st.

(** Writes to persistent memory are full lines; other packets are arbitrary. *)
Definition valid_event (ev : event) : Prop :=
  match ev with
  | EvRequest _ _ pkt =>
      (exists paddr words, pm_write pkt paddr words) \/
      is_paddr_pm (Packet.addr pkt) && Packet.isWrite pkt = false
  | EvPrediction _ entry => CWE.wf entry /\ pcs_known entry
  | _ => True
  end.

Definition balanced (b : t) : Prop :=
  let '(total, non, correct, miss) := tally (stats b) in total = non + correct + miss.

Record ok (st : t * SharedArea.t) : Prop := {
  ok_wf : wf st.1;
  ok_shared : exists n, 0 <= n /\ shared_ok n st.2;
  ok_balanced : balanced st.1
}.

Lemma other_request_ok now hash0 pkt b sh :
  is_paddr_pm (Packet.addr pkt) && Packet.isWrite pkt = false ->
  exists b', predictorHandleRequest now hash0 pkt b sh = Ok (b', sh) /\
    cfg b' = cfg b /\ completedWrites b' = completedWrites b /\
    tally (stats b') = tally (stats b).
Proof.
  intros H. unfold predictorHandleRequest. rewrite H. clear H.
  cbn [andb mbind res_bind]. destruct (_ || _); [by eexists|]. destruct (is_paddr_pm _); [|by eexists].
  destruct (_ && _); [|by eexists]. destruct (writebackDistMap b !! _); [|by eexists].
  eexists. split; [done|]. do 2 (split; [done|]). tally_simpl.
Qed.

Lemma pm_request_ok n now hash0 pkt paddr words b sh :
  pm_write pkt paddr words -> wf b -> 0 <= n -> shared_ok n sh ->
  exists b' sh', predictorHandleRequest now hash0 pkt b sh = Ok (b', sh') /\
    wf b' /\ shared_ok (n + 1) sh' /\ cfg b' = cfg b /\
    (tally (stats b') = tally (stats b) \/
     tally (stats b') = classify words (completedWrites b !! paddr) (tally (stats b))).
Proof.
  intros Hp Hb Hn Hs. unfold predictorHandleRequest.
  destruct (_ || _);
    [exists b, sh; do 2 (split; [done|]);
     split; [apply (shared_ok_weaken n); [lia|done]|]; split; [done|]; by left|].
  pose proof Hp as [_ Hw Ha _ Hpm Hsz]. rewrite Ha, Hw, Hpm, Hsz.
  change (CACHELINE_SIZE =? 1) with false. rewrite andb_false_r. cbn [andb negb].
  destruct (handleNonVolatileWrite_ok n now hash0 pkt paddr words b sh Hp Hb Hn Hs)
    as (b1 & sh1 & -> & Hb1 & Hs1 & Hc1 & _ & _ & _ & Ht).
  cbn [mbind res_bind]. eexists _, sh1. split; [done|].
  split; [by destruct Hb1|]. split; [done|]. split; [done|]. by right.
Qed.

Lemma feedback_read_ok n sh :
  shared_ok n sh -> shared_ok 0 (SharedArea.with_correctPredictions ∅ sh).
Proof. intros [? ? ? _]. by split. Qed.

Lemma classify_balanced words o v :
  (let '(total, non, correct, miss) := v in total = non + correct + miss) ->
  let '(total, non, correct, miss) := classify words o v in total = non + correct + miss.
Proof.
  destruct v as [[[total non] correct] miss]. cbn. intros ->.
  destruct o as [q|]; [|lia]. destruct (first_taker _ _ _); lia.
Qed.

Lemma request_event_ok n now hash0 pkt b sh :
  valid_event (EvRequest now hash0 pkt) -> wf b -> 0 <= n -> shared_ok n sh -> balanced b ->
  exists b' sh', predictorHandleRequest now hash0 pkt b sh = Ok (b', sh') /\
    wf b' /\ shared_ok (n + 1) sh' /\ balanced b' /\ cfg b' = cfg b.
Proof.
  unfold balanced. intros [(paddr & words & Hp)|Hother] Hb Hn Hs Hbal.
  - destruct (pm_request_ok n now hash0 pkt paddr words b sh Hp Hb Hn Hs)
      as (b' & sh' & -> & Hb' & Hs' & Hc & Ht).
    exists b', sh'. do 3 (split; [done|]). split; [|done].
    destruct Ht as [->| ->]; [done|]. by apply classify_balanced.
  - destruct (other_request_ok now hash0 pkt b sh Hother) as (b' & -> & Hc & Hw & Ht).
    exists b', sh. split; [done|].
    split; [destruct Hb; split; rewrite Hc; [by rewrite Hw|done]|].
    split; [by apply (shared_ok_weaken n); [lia|]|]. by rewrite Ht.
Qed.

Lemma handle_ok ev st :
  valid_event ev -> ok st ->
  exists st', handle ev st = Ok st' /\ ok st' /\ cfg st'.1 = cfg st.1.
Proof.
  destruct st as [b sh]. intros Hv [Hb (n & Hn & Hs) Hbal]. cbn [fst snd] in *.
  destruct ev as [now hash0 pkt|now entry|u e|]; cbn [handle] in *.
  - destruct (request_event_ok n now hash0 pkt b sh Hv Hb Hn Hs Hbal)
      as (b' & sh' & -> & Hb' & Hs' & Hbal' & Hc).
    exists (b', sh'). split; [done|]. split; [|done]. split; [done| |done].
    exists (n + 1). split; [lia|done].
  - destruct Hv as [He Hp].
    destruct (addCompletedWrite_ok pt isCounterCacheHit isVerificationCacheHit now entry b)
      as (b' & -> & Hb' & Hc & Hst & _); [done..|].
    exists (b', sh). split; [done|]. split; [|done]. split; [done|by eauto|].
    unfold balanced in *. cbn [fst]. by rewrite Hst.
  - exists (with_enabled u e b, sh). split; [done|]. split; [|done]. destruct Hb; split; by eauto.
  - eexists. split; [done|]. split; [|done]. split; [done| |done].
    exists 0. split; [done|]. by apply (feedback_read_ok n).
Qed.

Lemma backend_new_ok c : 1 <= MAX_COMPLETED_QUEUE_LINE_SIZE c -> ok (new c, SharedArea.new).
Proof.
  intros Hc. split; cbn [fst snd].
  - split; [|done]. intros a q. cbn. by rewrite lookup_empty.
  - exists 0. split; [done|].
    split; [intros h x|intros h x|intros h m k l|intros h a d]; cbn; by rewrite lookup_empty.
  - done.
Qed.

(** C4: the backend goes through any sequence of requests, predictions, feedback
    reads and switches in which every persistent write is one of a full aligned line
    with data (the code panics on a partial one), other requests are arbitrary, and
    the predictions are well formed with known PCs.  Then it never stops the
    simulation; every write it counted is exactly one of not predicted, correctly
    predicted or data-missed; no address holds more predictions than the line limit,
    and none an empty queue; and the confidences stay between 0 and their maximum. *)
Theorem backend_run_invariant c evs :
  1 <= MAX_COMPLETED_QUEUE_LINE_SIZE c -> Forall valid_event evs ->
  exists b sh, run evs (new c, SharedArea.new) = Ok (b, sh) /\
    Stats.get "totalPWrites" (stats b) =
      Stats.get "nonPredictedPWrites" (stats b) +
      Stats.get "correctlyPredictedPWrites" (stats b) +
      Stats.get "dataMissPredictedPWrites" (stats b) /\
    (forall a q, completedWrites b !! a = Some q ->
       (1 <= length q)%nat /\ Z.of_nat (length q) <= MAX_COMPLETED_QUEUE_LINE_SIZE c) /\
    (forall h v, SharedArea.confidenceTable sh !! h = Some v -> 0 <= v <= PRED_CONFIDENCE_MAX).
Proof.
  intros Hc Hev. unfold run.
  destruct (for_each_total (fun st => ok st /\ cfg st.1 = c) evs handle (new c, SharedArea.new))
    as ([b sh] & E & [Hb (n & _ & Hs) Hbal] & Hcfg).
  - split; [by apply backend_new_ok|done].
  - intros ev st Hin [Hok Hcf]. rewrite Forall_forall in Hev.
    destruct (handle_ok ev st (Hev ev Hin) Hok) as (st' & ? & ? & ?).
    exists st'. split; [done|]. split; [done|congruence].
  - exists b, sh. split; [done|]. cbn in Hcfg. split; [exact Hbal|]. split; [|apply Hs].
    intros a q Hq. destruct (wf_queues _ Hb a q Hq) as (Hne & Hlen & _). rewrite <- Hcfg.
    split; [|done]. destruct q; [done|cbn; lia].
Qed.
End Runs.

(** *** Evaluation *)

Definition sample_words : list Z := map Z.of_nat (seq 100 16).

Definition sample_line : CacheLine.t :=
  CacheLine.with_chunks
    (map (fun w => set_generating_pc 0x400
                     (ChunkInfo.mk 0 0 0 false DATA w 0 HAS_DATA 0)) sample_words) (CacheLine.new 1).

Definition sample_prediction (addr : Z) : CWE.t :=
  CWE.set_orig_cacheline sample_line
    (CWE.set_time_of_creation 5 (CWE.set_time_of_data_gen 4 (CWE.set_time_of_addr_gen 3
      (CWE.make 1 addr sample_line 0xabc)))).

Definition sample_pkt : Packet.t := Packet.store 0x10000000040 0x240000040 0x500 sample_words.

Definition sample_config : config := mkConfig 4 256 false.

Definition sample_backend : t :=
  with_writes {[ 0x240000040 := [sample_prediction 0x240000040; sample_prediction 0x240000040] ]}
    (with_enabled true true (new sample_config)).

Definition sample_pt : PageTable.t :=
  PageTable.mk {[ 0x10000000000 := PageTable.mkEntry 0x240000000 0 ]} 4096.

Lemma sample_line_wf : CacheLine.wf sample_line.
Proof. split; [done|]. repeat (constructor; [by right|]). constructor. Qed.

Lemma sample_prediction_wf a : CWE.wf (sample_prediction a).
Proof. split; try done; apply sample_line_wf. Qed.

Lemma sample_pcs_known a : pcs_known (sample_prediction a).
Proof.
  intros c Hin _ _. apply list_elem_of_fmap in Hin as (w & -> & _). vm_compute. done.
Qed.

Lemma sample_pkt_pm : pm_write sample_pkt 0x240000040 sample_words.
Proof. by split. Qed.

Lemma sample_backend_wf : wf sample_backend.
Proof.
  split; [|done]. intros a q. cbn [completedWrites sample_backend with_writes].
  rewrite lookup_singleton_Some. intros [<- <-]. split; [done|]. split; [done|].
  repeat (constructor; [split; [apply sample_prediction_wf|done|apply sample_pcs_known]|]).
  constructor.
Qed.

Lemma backend_shared_ok : shared_ok 0 SharedArea.new.
Proof.
  split; [intros h x|intros h x|intros h m k l|intros h a d]; cbn; by rewrite lookup_empty.
Qed.

Lemma match_predicate_spec_witness :
  exists r, isPktEqualCompletedEntry sample_pkt (sample_prediction 0x240000040) = Ok r /\ r = true.
Proof.
  destruct (match_predicate_spec sample_pkt 0x240000040 sample_words
    (sample_prediction 0x240000040)) as (r & E & _);
    [apply sample_pkt_pm | apply sample_prediction_wf |].
  exists r. split; [exact E|]. vm_compute in E. congruence.
Defined.

Lemma backend_write_spec_witness :
  exists b' sh', @handleNonVolatileWrite tree_order 9 0 sample_pkt sample_backend SharedArea.new =
      Ok (b', sh') /\ tally (stats b') = (1, 0, 1, 0).
Proof.
  destruct (@backend_write_spec tree_order 0 9 0 sample_pkt 0x240000040 sample_words
    sample_backend SharedArea.new) as (b' & sh' & E & _ & _ & _ & Ht);
    [apply sample_pkt_pm | apply sample_backend_wf | lia | apply backend_shared_ok |].
  exists b', sh'. split; [exact E|]. rewrite Ht. vm_compute. reflexivity.
Defined.

Lemma newest_match_used_witness :
  exists b' sh', @handleNonVolatileWrite tree_order 9 0 sample_pkt sample_backend SharedArea.new =
      Ok (b', sh') /\
    completedWrites b' !! 0x240000040 =
      Some [sample_prediction 0x240000040; CWE.mark_used (sample_prediction 0x240000040)].
Proof.
  destruct (@newest_match_used tree_order 0 9 0 sample_pkt 0x240000040 sample_words
    sample_backend SharedArea.new
    [sample_prediction 0x240000040; sample_prediction 0x240000040] 1
    (sample_prediction 0x240000040)) as (b' & sh' & E & Hq & _);
    [apply sample_pkt_pm | apply sample_backend_wf | lia | apply backend_shared_ok
    | reflexivity | reflexivity | vm_compute; reflexivity | |].
  - intros j e' Hj Hl. by destruct j as [|[|j]]; [lia|lia|].
  - exists b', sh'. split; [exact E|exact Hq].
Defined.

Lemma backend_run_invariant_witness :
  exists b sh, @run reversed_order sample_pt (fun _ => true) (fun _ => false)
      [EvEnable true true; EvPrediction 6 (sample_prediction 0x10000000040);
       EvRequest 9 0 sample_pkt; EvRequest 12 0 sample_pkt; EvFeedbackRead]
      (new sample_config, SharedArea.new) = Ok (b, sh) /\
    Stats.get "totalPWrites" (stats b) =
        Stats.get "nonPredictedPWrites" (stats b) +
        Stats.get "correctlyPredictedPWrites" (stats b) +
        Stats.get "dataMissPredictedPWrites" (stats b).
Proof.
  destruct (@backend_run_invariant reversed_order sample_pt (fun _ => true) (fun _ => false)
    sample_config
    [EvEnable true true; EvPrediction 6 (sample_prediction 0x10000000040);
     EvRequest 9 0 sample_pkt; EvRequest 12 0 sample_pkt; EvFeedbackRead])
    as (b & sh & E & Ht & _).
  - done.
  - constructor; [exact I|]. constructor; [split; [apply sample_prediction_wf|apply sample_pcs_known]|].
    do 2 (constructor; [left; exists 0x240000040, sample_words; exact sample_pkt_pm|]).
    constructor; [exact I|constructor].
  - exists b, sh. split; [exact E|exact Ht].
Defined.
End Backend.
