(* ===== verification/PendingTable.v ===== *)
(** * The pending table

    Models [class PendingTableEntryParent], [class PendTableChunkInfo] and
    [class PendingTable] of [mem/predictor/PendingTable.hh]/[.cc]: the chunks a
    triggered prediction still waits for, queued by the PC of the store that
    will produce them.  The chunks of one prediction share a parent object; the
    parents live in a store of their own, keyed by their identity, so that an
    update through one chunk is seen through the others. *)

From S2P Require Import Prelude Common PageTable Chunk CacheLine Queues Shared WriteHistory.

(** ** Parents *)
Module PendingTableEntryParent.
Import ChunkInfo.

Record t := mk {
  generatorHash : Z;
  hasGeneratorHash : bool;
  originalCacheLine : CacheLine.t;
  hasOrigCL : bool;
  ihbPatternIndex : Z;
  hasIhbPatternIndex : bool;
  addrComplete : bool;
  addr : ChunkInfo.t;
  dataComplete : list bool;
  cacheline : CacheLine.t
}.

Definition new (now : Z) : t :=
  mk 0 false (CacheLine.new now) false 0 false false ChunkInfo.new
    (replicate DATA_CHUNK_COUNT false) (CacheLine.new now).

Definition with_addr b c p := mk (generatorHash p) (hasGeneratorHash p) (originalCacheLine p)
  (hasOrigCL p) (ihbPatternIndex p) (hasIhbPatternIndex p) b c (dataComplete p) (cacheline p).
Definition with_data d l p := mk (generatorHash p) (hasGeneratorHash p) (originalCacheLine p)
  (hasOrigCL p) (ihbPatternIndex p) (hasIhbPatternIndex p) (addrComplete p) (addr p) d l.
Definition with_chunks cs p := with_data (dataComplete p) (CacheLine.with_chunks cs (cacheline p)) p.

Definition b2z (b : bool) : Z := if b then 1 else 0.

Definition allComplete (p : t) : res Z :=
  for_each (seq 0 DATA_CHUNK_COUNT)
    (fun i result =>
       c ← deref (CacheLine.dataChunks (cacheline p) !! i);
       v ← is_valid c;
       if v : bool then d ← deref (dataComplete p !! i); Ok (result + b2z d)
       else Ok (result + 1)) (b2z (addrComplete p)).

Definition set_generator_hash (h : Z) (p : t) : t :=
  mk h true (originalCacheLine p) (hasOrigCL p) (ihbPatternIndex p) (hasIhbPatternIndex p)
    (addrComplete p) (addr p) (dataComplete p) (cacheline p).
Definition get_generator_hash (p : t) : res Z :=
  assert_that (hasGeneratorHash p) ;; Ok (generatorHash p).
Definition set_original_cacheline (l : CacheLine.t) (p : t) : t :=
  mk (generatorHash p) (hasGeneratorHash p) l true (ihbPatternIndex p) (hasIhbPatternIndex p)
    (addrComplete p) (addr p) (dataComplete p) (cacheline p).
Definition get_original_cacheline (p : t) : res CacheLine.t :=
  assert_that (hasOrigCL p) ;; Ok (originalCacheLine p).
Definition set_ihb_pattern_index (i : Z) (p : t) : t :=
  mk (generatorHash p) (hasGeneratorHash p) (originalCacheLine p) (hasOrigCL p) i true
    (addrComplete p) (addr p) (dataComplete p) (cacheline p).
Definition get_ihb_pattern_index (p : t) : res Z :=
  assert_that (hasIhbPatternIndex p) ;; Ok (ihbPatternIndex p).

(** ** Completeness *)

(** The data chunks are those marked at creation; a completed one was set. *)
Definition slot_ok (c : ChunkInfo.t) (d : bool) : Prop :=
  (chunkType c = INVALID \/ chunkType c = DATA) /\
  (d = true -> chunkType c = DATA /\ has HAS_DATA c = true).
Definition chunks (p : t) : list ChunkInfo.t := CacheLine.dataChunks (cacheline p).
Record wf (p : t) : Prop := {
  wf_length : length (chunks p) = DATA_CHUNK_COUNT;
  wf_slots : Forall2 slot_ok (chunks p) (dataComplete p);
  wf_some : Exists (fun c => validb c = true) (chunks p)
}.

Definition slotb (p : t) (i : nat) : bool :=
  match chunks p !! i, dataComplete p !! i with
  | Some c, Some d => negb (validb c) || d
  | _, _ => false
  end.
Definition completeb (p : t) : bool :=
  addrComplete p && forallb (slotb p) (seq 0 DATA_CHUNK_COUNT).

Lemma wf_slot p i :
  wf p -> (i < DATA_CHUNK_COUNT)%nat ->
  exists c d, chunks p !! i = Some c /\ dataComplete p !! i = Some d /\ slot_ok c d.
Proof.
  intros [Hl Hs _] Hi. destruct (lookup_lt_is_Some_2 (chunks p) i) as [c Hc]; [lia|].
  destruct (Forall2_lookup_l _ _ _ _ _ Hs Hc) as (d & Hd & H). eauto 10.
Qed.

Lemma slot_legal c d : slot_ok c d -> legal c.
Proof. intros [[H|H] _]; unfold legal; by rewrite H. Qed.

Lemma filter_all {A} (f : A -> bool) (l : list A) :
  (length (List.filter f l) <= length l)%nat /\
  (length (List.filter f l) = length l <-> forallb f l = true).
Proof.
  induction l as [|x l [IH1 IH2]]; cbn; [done|].
  destruct (f x); cbn; split; try lia; rewrite <- ?IH2; lia || (split; [lia|done]).
Qed.

(** The sum is 17 exactly when the address and every valid chunk are there. *)
Lemma allComplete_ok p : wf p -> exists n, allComplete p = Ok n /\ (n =? 17) = completeb p.
Proof.
  intros Hwf. unfold allComplete.
  destruct (for_each_seq (fun k n => n = b2z (addrComplete p)
      + Z.of_nat (length (List.filter (slotb p) (seq 0 k)))) DATA_CHUNK_COUNT
    (fun i result =>
       c ← deref (CacheLine.dataChunks (cacheline p) !! i);
       v ← is_valid c;
       if v : bool then d ← deref (dataComplete p !! i); Ok (result + b2z d)
       else Ok (result + 1)) (b2z (addrComplete p))) as (n & -> & ->).
  - cbn. lia.
  - intros i n Hi ->. destruct (wf_slot p i Hwf Hi) as (c & d & Hc & Hd & Hs).
    assert (slotb p i = negb (validb c) || d) as Hb by (unfold slotb; by rewrite Hc, Hd).
    unfold chunks in Hc. rewrite Hc. cbn [deref mbind res_bind].
    rewrite (is_valid_legal c) by (by eapply slot_legal). cbn [mbind res_bind].
    rewrite seq_S, List.filter_app, length_app. cbn [List.filter Nat.add]. rewrite Hb, Hd.
    destruct (validb c), d; cbn [negb orb deref mbind res_bind b2z length];
      eexists; (split; [reflexivity|]); lia.
  - eexists. split; [done|].
    destruct (filter_all (slotb p) (seq 0 DATA_CHUNK_COUNT)) as [H1 H2].
    rewrite length_seq in *. unfold completeb, DATA_CHUNK_COUNT in *.
    destruct (addrComplete p), (forallb _ _); cbn [b2z andb];
      destruct (Z.eqb_spec (1 + Z.of_nat (length (List.filter (slotb p) (seq 0 16)))) 17);
      try lia; try done.
    all: try (exfalso; assert (false = true) by (apply H2; lia); done).
    all: try (assert (length (List.filter (slotb p) (seq 0 16)) = 16%nat) by (by apply H2); lia).
    all: apply Z.eqb_neq; lia.
Qed.

Lemma all_invalid_false p : wf p -> CacheLine.all_invalid (cacheline p) = Ok false.
Proof.
  intros [_ Hs Hv]. rewrite CacheLine.all_invalid_legal.
  - fold (chunks p). apply Exists_exists in Hv as (c & Hin & Hc).
    assert (existsb validb (chunks p) = true) as ->; [|done].
    apply existsb_exists. exists c. split; [by apply list_elem_of_In|done].
  - apply Forall_lookup. intros i c Hc.
    destruct (Forall2_lookup_l _ _ _ _ _ Hs Hc) as (d & _ & H). by eapply slot_legal.
Qed.
End PendingTableEntryParent.

(** ** Waiting chunks *)
Module PendTableChunkInfo.
(** The base class sub-object and the link to the parent object. *)
Record t := mk {
  chunk : ChunkInfo.t;
  parent : option Z;
  parentIndex : Z;
  hasParentIndex : bool
}.

Definition new : t := mk ChunkInfo.new None (-1) false.
Definition of_chunk (c : ChunkInfo.t) (p : option Z) (i : Z) : t := mk c p i true.
Definition make (gpc off : Z) (complete : bool) (ty : ChunkInfo.ChunkType) (p : option Z)
    : res t :=
  c ← ChunkInfo.make gpc off complete ty; Ok (mk c p (-1) false).

Definition get_parent (e : t) : option Z := parent e.
Definition set_parent (p : option Z) (e : t) : t := mk (chunk e) p (parentIndex e) (hasParentIndex e).
Definition get_parent_index (e : t) : res Z :=
  panic_if (negb (hasParentIndex e)) ;; Ok (parentIndex e).
Definition set_parent_index (i : Z) (e : t) : t := mk (chunk e) (parent e) i true.
Definition has_parent_index (e : t) : bool := hasParentIndex e.
Definition clear (e : t) : res t :=
  c ← ChunkInfo.clear (chunk e); Ok (mk c None (-1) (hasParentIndex e)).
End PendTableChunkInfo.

(** ** The table *)
Module PendingTable.
Module P := PendingTableEntryParent.
Module U := PendTableChunkInfo.
Module WHB := WriteHistoryBufferEntry.
Import ChunkInfo.

(** The parent objects, by identity. *)
Notation parents := (gmap Z P.t).

Record t := mk {
  store : DataStore.t;
  pendingTable : gmap Z (list U.t);
  pendingVolatilePCs : gmap Z Z;
  insertionOrder : list Z;
  MAX_SIZE : Z;
  DISABLE_WHB_SEARCH : bool;
  stats : Stats.t
}.

Definition new (name : string) (max : Z) (disable : bool) : t :=
  mk (DataStore.new name) ∅ ∅ [] max disable Stats.empty.

Definition with_store v p := mk v (pendingTable p) (pendingVolatilePCs p) (insertionOrder p)
  (MAX_SIZE p) (DISABLE_WHB_SEARCH p) (stats p).
Definition with_tables m c o p := mk (store p) m c o (MAX_SIZE p) (DISABLE_WHB_SEARCH p) (stats p).
Definition with_stats f p := mk (store p) (pendingTable p) (pendingVolatilePCs p)
  (insertionOrder p) (MAX_SIZE p) (DISABLE_WHB_SEARCH p) (f (stats p)).

Definition queue (p : t) (pc : Z) : list U.t := default [] (pendingTable p !! pc).
Definition count (p : t) (pc : Z) : Z := default 0 (pendingVolatilePCs p !! pc).

(** An [int] used as an array index. *)
Definition index (i : Z) : res nat := if 0 <=? i then Ok (Z.to_nat i) else Fail Undefined.

(** [parent->...] through the store: a null or dangling pointer is undefined. *)
Definition get_object (e : U.t) (h : parents) : res (Z * P.t) :=
  id ← deref (U.get_parent e); p ← deref (h !! id); Ok (id, p).

Definition has_pc_waiting (pc : Z) (p : t) : bool :=
  match pendingVolatilePCs p !! pc with
  | Some n => 0 <? n
  | None => false
  end.
Definition contains (pc : Z) (p : t) : bool := bool_decide (is_Some (pendingTable p !! pc)).
Definition get_size (p : t) : nat := size (pendingTable p).
Definition remove_elem (pc : Z) (p : t) : t :=
  with_tables (delete pc (pendingTable p)) (pendingVolatilePCs p) (insertionOrder p)
    (with_store (DataStore.remove (store p)) p).

(** *** Insertion *)

(** Lines 54-61: evicts the PC inserted first when the order queue is full. *)
Definition evict_oldest (p : t) : res t :=
  if Z.of_nat (length (insertionOrder p)) =? MAX_SIZE p then
    panic_if (MAX_SIZE p <? Z.of_nat (length (insertionOrder p))) ;;
    match insertionOrder p with
    | [] => Fail Undefined
    | pc :: order =>
        Ok (with_tables (delete pc (pendingTable p)) (delete pc (pendingVolatilePCs p)) order p)
    end
  else Ok p.

(** Lines 22-61 *)
Definition add_waiting (elem : U.t) (p : t) : res t :=
  let p := with_store (DataStore.add (store p)) p in
  let p := with_stats (Stats.sample "pendingVolatilePCsSize"
             (Z.of_nat (size (pendingVolatilePCs p)))) p in
  pc ← get_generating_pc (U.chunk elem);
  let m := <[pc := queue p pc ++ [elem]]> (pendingTable p) in
  let c := <[pc := u64 (count p pc + 1)]> (pendingVolatilePCs p) in
  let o := if bool_decide (pc ∈ insertionOrder p) then insertionOrder p
           else insertionOrder p ++ [pc] in
  let p := with_tables m c o p in
  panic_if_not (0 <? count p pc) ;;
  panic_if_not (U.has_parent_index elem) ;;
  evict_oldest p.

(** The write of a word found in the history to the parent, lines 82-94. *)
Definition write_back (elem : U.t) (data : Z) (h : parents) : res parents :=
  match get_chunk_type (U.chunk elem) with
  | DATA =>
      '(id, p) ← get_object elem h;
      i ← U.get_parent_index elem;
      i ← index i;
      cs ← modify i (set_data data) (CacheLine.dataChunks (P.cacheline p));
      d ← modify i (fun _ => Ok true) (P.dataComplete p);
      Ok (<[id := P.with_data d (CacheLine.with_chunks cs (P.cacheline p)) p]> h)
  | ADDR =>
      '(id, p) ← get_object elem h;
      c ← set_target_addr data (P.addr p);
      Ok (<[id := P.with_addr true c p]> h)
  | _ => Ok h
  end.

(** Lines 68-101, over the history from its newest entry. *)
Fixpoint whb_search (elem : U.t) (whb : list WHB.t) (h : parents) : res parents :=
  match whb with
  | [] => Ok h
  | w :: whb' =>
      first ← CacheLine.find_first_valid_index (WHB.get_cacheline w);
      off ← get_data_field_offset (U.chunk elem);
      let df_offset := u64 (first + off) in
      c ← deref (CacheLine.dataChunks (WHB.get_cacheline w) !! Z.to_nat df_offset);
      v ← is_valid c;
      if v && type_eqb (get_chunk_type c) DATA then
        data ← get_data c;
        pc ← get_generating_pc (U.chunk elem);
        if WHB.get_pc w =? pc then write_back elem data h
        else whb_search elem whb' h
      else whb_search elem whb' h
  end.

Definition add (elem : U.t) (whb : list WHB.t) (p : t) (h : parents) : res (t * parents) :=
  if negb (is_whb_search (U.chunk elem)) || DISABLE_WHB_SEARCH p then
    p ← add_waiting elem p; Ok (p, h)
  else h ← whb_search elem (reverse whb) h; Ok (p, h).

(** *** A store arrives *)

(** Lines 153-158: the word is written through the parent pointer. *)
Definition deliver_data (now word : Z) (i : nat) (p : P.t) : res P.t :=
  d ← modify i (fun _ => Ok true) (P.dataComplete p);
  cs ← modify i (fun c => c ← set_data word (set_chunk_type DATA c);
                           Ok (set_time_of_gen now c)) (CacheLine.dataChunks (P.cacheline p));
  Ok (P.with_data d (CacheLine.with_chunks cs (P.cacheline p)) p).

(** Lines 176-183: the two words of the address, low half first. *)
Definition address_of (high low : Z) : Z := cacheline_align (u64 (u64 (Z.shiftl low 32) + high)).

Definition deliver_addr (now high low : Z) (p : P.t) : res P.t :=
  c ← set_target_addr (address_of high low) (set_chunk_type ADDR (P.addr p));
  Ok (P.with_addr true (set_time_of_gen now c) p).

(** Lines 162-170: [pendingVolatilePCs[pc]--], erased at zero and created
    again by the test that follows. *)
Definition decrement (pc : Z) (p : t) : res t :=
  let n := u64 (count p pc - 1) in
  let c := <[pc := n]> (pendingVolatilePCs p) in
  let c := if n =? 0 then delete pc c else c in
  let c := <[pc := default 0 (c !! pc)]> c in
  panic_if (default 0 (c !! pc) =? UINT64_MAX) ;;
  Ok (with_tables (pendingTable p) c (insertionOrder p) p).

(** Line 187: [pendingVolatilePCs.at(pc)--]. *)
Definition decrement_at (pc : Z) (p : t) : res t :=
  n ← at_ (pendingVolatilePCs p !! pc);
  Ok (with_tables (pendingTable p) (<[pc := u64 (n - 1)]> (pendingVolatilePCs p))
        (insertionOrder p) p).

(** What the loop of [update_entry_state] carries: the table, the parents,
    [iter], [completedPendingTableEntries] and [completedParents]. *)
Record progress := mkProgress {
  table : t;
  objects : parents;
  iter : nat;
  completedEntries : list nat;
  completedParents : list Z
}.

(** Lines 133-202, for one waiting entry. *)
Definition update_step (now pc : Z) (words : list Z) (size_ : nat) (e : U.t) (s : progress)
    : res progress :=
  gpc ← get_generating_pc (U.chunk e);
  panic_if_not (negb (gpc =? 0)) ;;
  off ← get_data_field_offset (U.chunk e);
  if off <? Z.of_nat size_ then
    '(id, p) ← get_object e (objects s);
    inv ← CacheLine.all_invalid (P.cacheline p);
    panic_if inv ;;
    v ← is_valid (U.chunk e);
    panic_if_not v ;;
    word ← deref (words !! Z.to_nat off);
    '(tb, p) ←
      match get_chunk_type (U.chunk e) with
      | DATA =>
          i ← U.get_parent_index e;
          i ← index i;
          p ← deliver_data now word i p;
          tb ← decrement pc (table s);
          Ok (tb, p)
      | ADDR =>
          panic_if_not (off + 1 <? Z.of_nat size_) ;;
          low ← deref (words !! Z.to_nat (off + 1));
          p ← deliver_addr now word low p;
          tb ← decrement_at pc (table s);
          Ok (tb, p)
      | _ => Fail Panic
      end;
    n ← P.allComplete p;
    Ok (mkProgress tb (<[id := p]> (objects s)) (S (iter s))
          (completedEntries s ++ [iter s])
          (if n =? 17 then completedParents s ++ [id] else completedParents s))
  else Ok s.

(** Lines 205-212: erases the recorded positions, the last one first. *)
Definition erase_at (pc : Z) (i : nat) (p : t) : res t :=
  let p := with_store (DataStore.remove (store p)) p in
  match queue p pc !! i with
  | Some _ => Ok (with_tables (<[pc := delete i (queue p pc)]> (pendingTable p))
                    (pendingVolatilePCs p) (insertionOrder p) p)
  | None => Fail Undefined
  end.

Definition update_entry_state (now pc : Z) (words : list Z) (size_ : nat) (p : t) (h : parents)
    : res (t * parents * list Z) :=
  panic_if (negb (has_pc_waiting pc p)) ;;
  let p := with_store (DataStore.get (store p)) p in
  q ← at_ (pendingTable p !! pc);
  s ← for_each q (update_step now pc words size_) (mkProgress p h 0 [] []);
  p ← for_each (reverse (completedEntries s)) (erase_at pc) (table s);
  Ok (p, objects s, completedParents s).

Definition get_completed_parent (pc : Z) (p : t) (h : parents) : res (option Z) :=
  match pendingTable p !! pc with
  | None => Ok None
  | Some q =>
      e ← search q (fun e => '(_, o) ← get_object e h; n ← P.allComplete o; Ok (n =? 17));
      Ok (e ≫= U.get_parent)
  end.

(** ** What a delivery does to a parent *)

Definition offset (e : U.t) : Z := dataFieldOffset (U.chunk e).
Definition served (n : nat) (e : U.t) : bool := offset e <? Z.of_nat n.
Definition word_at (words : list Z) (i : Z) : Z := default 0 (words !! Z.to_nat i).
Definition slot (e : U.t) : nat := Z.to_nat (U.parentIndex e).

Definition stored (now word : Z) (c : ChunkInfo.t) : ChunkInfo.t :=
  set_time_of_gen now (with_content (content c - u32 (content c) + u32 word)
    (raise HAS_DATA (set_chunk_type DATA c))).

Definition receive (now : Z) (words : list Z) (e : U.t) (p : P.t) : P.t :=
  match get_chunk_type (U.chunk e) with
  | ADDR => P.with_addr true (set_time_of_gen now (with_content
              (address_of (word_at words (offset e)) (word_at words (offset e + 1)))
              (set_chunk_type ADDR (P.addr p)))) p
  | _ => P.with_data (<[slot e := true]> (P.dataComplete p))
           (CacheLine.with_chunks
              (alter (stored now (word_at words (offset e))) (slot e) (P.chunks p))
              (P.cacheline p)) p
  end.

(** Which chunks of a parent carry data. *)
Definition shape (p : P.t) : list bool := datab <$> P.chunks p.

(** A waiting entry: its PC, its offset in the store, a parent that exists
    and, for a data chunk, its place in the parent's line. *)
Record entry_ok (h : parents) (pc : Z) (e : U.t) : Prop := {
  eo_pc : get_generating_pc (U.chunk e) = Ok pc;
  eo_pc_nonzero : pc <> 0;
  eo_off : get_data_field_offset (U.chunk e) = Ok (offset e);
  eo_off_nonneg : 0 <= offset e;
  eo_index : U.hasParentIndex e = true;
  eo_index_nonneg : 0 <= U.parentIndex e;
  eo_parent : exists id p, U.parent e = Some id /\ h !! id = Some p /\ P.wf p /\
    match chunkType (U.chunk e) with
    | DATA => shape p !! slot e = Some true
    | ADDR => True
    | _ => False
    end
}.

(** The words a served entry takes are inside the store. *)
Definition fits (n : nat) (e : U.t) : Prop :=
  chunkType (U.chunk e) = ADDR -> served n e = true -> offset e + 1 < Z.of_nat n.

Lemma stored_slot now w c : P.slot_ok (stored now w c) true.
Proof.
  split; [by right|]. intros _. split; [done|].
  unfold has, stored. cbn [flags set_time_of_gen with_timeOfGen raise with_content with_flags].
  by flag_simpl.
Qed.

Lemma receive_shape now words h pc e id p :
  entry_ok h pc e -> U.parent e = Some id -> h !! id = Some p ->
  shape (receive now words e p) = shape p.
Proof.
  intros [_ _ _ _ _ _ (id' & p' & Hid & Hp & _ & Ht)] Hid' Hp'. simplify_eq.
  unfold receive, get_chunk_type in *. destruct (chunkType (U.chunk e)); [done| |done|done].
  unfold shape in *. cbn. apply list_eq. intros j. rewrite list_lookup_fmap.
  destruct (decide (slot e = j)) as [<-|Hj].
  - rewrite list_lookup_alter_eq, Ht. unfold P.chunks in Ht. rewrite list_lookup_fmap in Ht.
    by destruct (P.chunks p' !! slot e) eqn:E; [|by unfold P.chunks in E; rewrite E in Ht].
  - rewrite list_lookup_alter_ne by done. unfold P.chunks. by rewrite list_lookup_fmap.
Qed.

Lemma receive_wf now words h pc e id p :
  entry_ok h pc e -> U.parent e = Some id -> h !! id = Some p ->
  P.wf (receive now words e p).
Proof.
  intros [_ _ _ _ _ _ (id' & p' & Hid & Hp & Hwf & Ht)] Hid' Hp'. simplify_eq.
  unfold receive, get_chunk_type in *.
  destruct (chunkType (U.chunk e)); [by destruct Hwf| |done|done].
  unfold shape in Ht. rewrite list_lookup_fmap in Ht.
  destruct (P.chunks p' !! slot e) as [c|] eqn:Ec; [|done].
  destruct Hwf as [Hl Hs Hv]. split; unfold P.chunks;
    cbn [P.with_data P.cacheline P.dataComplete CacheLine.with_chunks CacheLine.dataChunks].
  - by rewrite length_alter.
  - rewrite <- (insert_alter _ _ _ _ Ec). apply Forall2_insert; [done|apply stored_slot].
  - rewrite <- (insert_alter _ _ _ _ Ec). apply Exists_exists.
    exists (stored now (word_at words (offset e)) c). split; [|done].
    apply list_elem_of_lookup. exists (slot e). apply list_lookup_insert_eq.
    by eapply lookup_lt_Some.
Qed.

(** Completeness is never lost. *)
Lemma receive_complete now words h pc e id p :
  entry_ok h pc e -> U.parent e = Some id -> h !! id = Some p ->
  P.completeb p = true -> P.completeb (receive now words e p) = true.
Proof.
  intros He Hid Hp. unfold P.completeb. rewrite !andb_true_iff, !forallb_forall.
  intros [Ha Hd]. unfold receive. destruct (get_chunk_type (U.chunk e)); [done|..];
    (split; [done|]); intros j Hj; specialize (Hd j Hj); revert Hd; unfold P.slotb, P.chunks;
    cbn [P.with_data P.cacheline P.dataComplete CacheLine.with_chunks CacheLine.dataChunks];
    (destruct (decide (slot e = j)) as [<-|];
     [rewrite list_lookup_alter_eq; unfold P.chunks;
      destruct (CacheLine.dataChunks (P.cacheline p) !! slot e); [|done];
      destruct (P.dataComplete p !! slot e) eqn:E; [|done];
      rewrite list_lookup_insert_eq by (by eapply lookup_lt_Some);
      done
     |by rewrite list_lookup_alter_ne, list_lookup_insert_ne by done]).
Qed.

(** *** One step of the loop *)

Lemma insert_alter_map {A} (f : A -> A) (m : gmap Z A) i x :
  m !! i = Some x -> <[i := f x]> m = alter f i m.
Proof.
  intros H. apply map_eq. intros j. destruct (decide (i = j)) as [<-|].
  - by rewrite lookup_insert_eq, lookup_alter_eq, H.
  - by rewrite lookup_insert_ne, lookup_alter_ne by done.
Qed.

Definition give (now : Z) (words : list Z) (n : nat) (h : parents) (e : U.t) : parents :=
  if served n e then
    match U.parent e with
    | Some id => alter (receive now words e) id h
    | None => h
    end
  else h.

Definition finish (now : Z) (words : list Z) (n : nat) (h : parents) (e : U.t) : list Z :=
  if served n e then
    match U.parent e with
    | Some id => if from_option P.completeb false (give now words n h e !! id) then [id] else []
    | None => []
    end
  else [].

Definition lower (pc k : Z) (p : t) : t :=
  with_tables (pendingTable p) (<[pc := k]> (pendingVolatilePCs p)) (insertionOrder p) p.

Lemma decrement_ok pc p n :
  pendingVolatilePCs p !! pc = Some n -> 0 < n -> is_u64 n ->
  decrement pc p = Ok (lower pc (n - 1) p) /\ decrement_at pc p = Ok (lower pc (n - 1) p).
Proof.
  intros Hn Hr Hr64. unfold is_u64 in *. unfold decrement, decrement_at, count, lower. rewrite Hn. cbn [from_option id at_ mbind
    res_bind]. rewrite u64_id by (unfold is_u64; lia). split; [|done].
  destruct (Z.eqb_spec (n - 1) 0) as [->|].
  - rewrite !lookup_delete_eq. cbn [from_option id]. rewrite lookup_insert_eq. cbn.
    by rewrite insert_delete_eq, insert_insert_eq.
  - rewrite !lookup_insert_eq. cbn [from_option id].
    rewrite insert_insert_eq. unfold panic_if, UINT64_MAX.
    by destruct (Z.eqb_spec (n - 1) 18446744073709551615); [lia|].
Qed.

Lemma deliver_data_ok now words e p i :
  P.wf p -> i = slot e -> shape p !! slot e = Some true -> get_chunk_type (U.chunk e) = DATA ->
  deliver_data now (word_at words (offset e)) i p = Ok (receive now words e p).
Proof.
  intros Hwf -> Hs Ht. unfold deliver_data, receive. rewrite Ht.
  unfold shape in Hs. rewrite list_lookup_fmap in Hs.
  destruct (P.chunks p !! slot e) as [c|] eqn:Ec; [|done].
  destruct (Forall2_lookup_l _ _ _ _ _ (P.wf_slots p Hwf) Ec) as (d & Hd & _).
  rewrite (modify_ok _ _ _ _ true Hd) by done. cbn [mbind res_bind].
  rewrite (modify_ok _ _ _ _ (stored now (word_at words (offset e)) c) Ec).
  - cbn [mbind res_bind]. by rewrite (insert_alter _ _ _ _ Ec).
  - by rewrite set_data_ok.
Qed.

Lemma deliver_addr_ok now words e p :
  get_chunk_type (U.chunk e) = ADDR ->
  deliver_addr now (word_at words (offset e)) (word_at words (offset e + 1)) p =
    Ok (receive now words e p).
Proof. intros Ht. unfold deliver_addr, receive. by rewrite Ht. Qed.

Lemma update_step_ok now pc words n e s k :
  entry_ok (objects s) pc e -> fits n e -> (n <= length words)%nat ->
  pendingVolatilePCs (table s) !! pc = Some k -> (served n e = true -> 0 < k /\ is_u64 k) ->
  update_step now pc words n e s = Ok (
    if served n e then
      mkProgress (lower pc (k - 1) (table s)) (give now words n (objects s) e) (S (iter s))
        (completedEntries s ++ [iter s]) (completedParents s ++ finish now words n (objects s) e)
    else s).
Proof.
  intros He Hf Hn Hk Hr. pose proof He as He'.
  destruct He' as [Hpc Hpc0 Hoff Hoff0 Hi Hi0 (id & p & Hid & Hp & Hwf & Ht)].
  pose proof (receive_wf now words _ _ _ _ _ He Hid Hp) as Hwf'.
  unfold update_step, finish, give, fits in *. fold (served n e). rewrite Hpc. cbn [mbind res_bind].
  rewrite (proj2 (Z.eqb_neq pc 0) Hpc0). cbn [negb panic_if_not mbind res_bind].
  rewrite Hoff. cbn [mbind res_bind]. fold (served n e).
  destruct (served n e) eqn:Es; [|done]. destruct (Hr eq_refl) as [Hr1 Hr2].
  apply Z.ltb_lt in Es.
  assert (forall o, 0 <= o < Z.of_nat n -> words !! Z.to_nat o = Some (word_at words o)) as Hw.
  { intros o Ho. unfold word_at. destruct (lookup_lt_is_Some_2 words (Z.to_nat o)) as [w ->];
      [lia|done]. }
  unfold get_object, U.get_parent, U.get_parent_index, index. rewrite Hid. cbn [deref mbind res_bind].
  rewrite Hp. cbn [deref mbind res_bind]. rewrite P.all_invalid_false by done.
  cbn [panic_if mbind res_bind]. rewrite is_valid_legal by (by unfold legal; destruct chunkType).
  destruct (decrement_ok pc (table s) k Hk Hr1 Hr2) as [Hd1 Hd2].
  destruct (P.allComplete_ok _ Hwf') as (m & Hm & Hm17).
  rewrite lookup_alter_eq, Hp. cbn [fmap option_fmap option_map from_option].
  rewrite <- (insert_alter_map (receive now words e) (objects s) id p Hp), <- Hm17.
  rewrite (Hw (offset e)) by lia. unfold validb, get_chunk_type.
  destruct (chunkType (U.chunk e)) eqn:Ety; try done;
    [change (type_eqb ADDR INVALID) with false|change (type_eqb DATA INVALID) with false];
    cbn [panic_if_not negb panic_if mbind res_bind deref].
  - specialize (Hf eq_refl eq_refl). rewrite (proj2 (Z.ltb_lt _ _) Hf).
    cbn [panic_if_not negb panic_if mbind res_bind].
    rewrite Hw by lia. cbn [deref mbind res_bind]. rewrite (deliver_addr_ok now words e p) by done.
    cbn [mbind res_bind]. rewrite Hd2. cbn [mbind res_bind]. rewrite Hm.
    cbn [mbind res_bind]. by destruct (m =? 17); rewrite ?app_nil_r.
  - rewrite Hi. cbn [negb panic_if mbind res_bind].
    rewrite (proj2 (Z.leb_le _ _) Hi0). cbn [mbind res_bind].
    rewrite (deliver_data_ok now words e p) by done. cbn [mbind res_bind]. rewrite Hd1.
    cbn [mbind res_bind]. rewrite Hm. cbn [mbind res_bind].
    by destruct (m =? 17); rewrite ?app_nil_r.
Qed.

(** *** The whole loop *)

Definition give_all now words n (h : parents) (q : list U.t) : parents :=
  foldl (give now words n) h q.
Fixpoint finish_all now words n (h : parents) (q : list U.t) : list Z :=
  match q with
  | [] => []
  | e :: q' => finish now words n h e ++ finish_all now words n (give now words n h e) q'
  end.
Definition served_count (n : nat) (q : list U.t) : nat :=
  length (filter (fun e => served n e = true) q).

(** A delivery keeps every parent well formed and its chunks in place. *)
Lemma give_parent now words n h pc e id p :
  entry_ok h pc e -> h !! id = Some p -> P.wf p ->
  exists p', give now words n h e !! id = Some p' /\ P.wf p' /\ shape p' = shape p.
Proof.
  intros He Hp Hwf. pose proof He as [_ _ _ _ _ _ (id' & p' & Hid & Hp' & _)].
  unfold give. destruct (served n e); [|eauto]. rewrite Hid.
  destruct (decide (id' = id)) as [->|].
  - simplify_eq. rewrite lookup_alter_eq, Hp. eexists. split; [done|].
    split; [by eapply receive_wf|by eapply receive_shape].
  - rewrite lookup_alter_ne by done. eauto.
Qed.

Lemma give_entry_ok now words n h pc e pc' e' :
  entry_ok h pc e -> entry_ok h pc' e' -> entry_ok (give now words n h e) pc' e'.
Proof.
  intros He [? ? ? ? ? ? (id & p & Hid & Hp & Hwf & Ht)].
  destruct (give_parent now words n h pc e id p He Hp Hwf) as (p' & Hp' & Hwf' & Hs).
  split; try done. exists id, p'. rewrite Hs. done.
Qed.

Lemma served_count_cons n e q :
  served_count n (e :: q) = ((if served n e then 1 else 0) + served_count n q)%nat.
Proof. unfold served_count. rewrite filter_cons. by destruct (served n e). Qed.

Lemma update_loop now pc words n q s k :
  Forall (entry_ok (objects s) pc) q -> Forall (fits n) q -> (n <= length words)%nat ->
  pendingVolatilePCs (table s) !! pc = Some k -> Z.of_nat (served_count n q) <= k -> is_u64 k ->
  for_each q (update_step now pc words n) s = Ok (mkProgress
    (lower pc (k - Z.of_nat (served_count n q)) (table s))
    (give_all now words n (objects s) q)
    (iter s + served_count n q)
    (completedEntries s ++ seq (iter s) (served_count n q))
    (completedParents s ++ finish_all now words n (objects s) q)).
Proof.
  intros Hq Hf Hn Hk Hm Hr. revert s k Hq Hk Hm Hr.
  induction Hf as [|e q Hfe Hf IH]; intros s k Hq Hk Hm Hr.
  - destruct s as [tb o it ce cp]. cbn in *. rewrite !app_nil_r, Nat.add_0_r. f_equal. f_equal.
    unfold lower. rewrite Z.sub_0_r, insert_id by done. by destruct tb.
  - apply Forall_cons in Hq as [He Hq]. rewrite served_count_cons in *. cbn [for_each].
    unfold is_u64 in *.
    rewrite (update_step_ok now pc words n e s k) by
      (try done; intros Hs; rewrite Hs in Hm; unfold is_u64; lia).
    cbn [mbind res_bind]. cbn [give_all foldl finish_all].
    destruct (served n e) eqn:Es.
    + rewrite (IH _ (k - 1)); cbn [table objects iter completedEntries completedParents].
      * unfold lower. cbn [with_tables pendingTable pendingVolatilePCs insertionOrder store MAX_SIZE
          DISABLE_WHB_SEARCH stats]. rewrite insert_insert_eq. f_equal. f_equal.
        -- unfold with_tables. cbn. f_equal. f_equal. lia.
        -- lia.
        -- rewrite <- app_assoc. done.
        -- by rewrite app_assoc.
      * eapply Forall_impl; [exact Hq|]. intros e' He'. by eapply give_entry_ok.
      * unfold lower. cbn. apply lookup_insert_eq.
      * lia.
      * lia.
    + assert (give now words n (objects s) e = objects s) as Hg by (unfold give; by rewrite Es).
      rewrite (IH _ k) by done. unfold finish. by rewrite Es, Hg.
Qed.

Definition set_queue (pc : Z) (q : list U.t) (p : t) : t :=
  with_tables (<[pc := q]> (pendingTable p)) (pendingVolatilePCs p) (insertionOrder p) p.
Definition removed (m : nat) (p : t) : t := with_store (Nat.iter m DataStore.remove (store p)) p.

Lemma iter_shift {A} (f : A -> A) m x : Nat.iter m f (f x) = f (Nat.iter m f x).
Proof. by rewrite <- Nat.iter_succ_r, Nat.iter_succ. Qed.

(** Erasing the positions [m-1], ..., [0] leaves the queue from [m] on. *)
Lemma erase_loop pc m p q :
  pendingTable p !! pc = Some q -> (m <= length q)%nat ->
  for_each (reverse (seq 0 m)) (erase_at pc) p = Ok (set_queue pc (drop m q) (removed m p)).
Proof.
  revert p q. induction m as [|m IH]; intros p q Hq Hm.
  - cbn. f_equal. unfold set_queue, removed. destruct p. cbn in *. by rewrite insert_id.
  - rewrite seq_S, reverse_snoc. cbn [for_each Nat.add]. unfold erase_at at 2.
    assert (queue (with_store (DataStore.remove (store p)) p) pc = q) as ->
      by (unfold queue; cbn; by rewrite Hq).
    destruct (lookup_lt_is_Some_2 q m) as [e ->]; [lia|]. cbn [mbind res_bind].
    rewrite (IH _ (delete m q)).
    + unfold set_queue, removed, with_tables, with_store. cbn -[delete drop Nat.iter].
      rewrite insert_insert_eq, iter_shift, <- Nat.iter_succ. f_equal. f_equal. f_equal.
      rewrite delete_take_drop, drop_app_ge by (rewrite length_take; lia).
      rewrite length_take_le by lia. rewrite Nat.sub_diag. done.
    + cbn. apply lookup_insert_eq.
    + rewrite length_delete by (apply lookup_lt_is_Some_2; lia). lia.
Qed.

Lemma give_all_snoc now words n h q e :
  give_all now words n h (q ++ [e]) = give now words n (give_all now words n h q) e.
Proof. unfold give_all. by rewrite foldl_app. Qed.

Lemma finish_all_snoc now words n h q e :
  finish_all now words n h (q ++ [e]) =
    finish_all now words n h q ++ finish now words n (give_all now words n h q) e.
Proof.
  revert h. induction q as [|x q IH]; intros h; cbn; [by rewrite app_nil_r|].
  by rewrite IH, app_assoc.
Qed.

Lemma give_all_entry_ok now words n h pc q pc' e' :
  Forall (entry_ok h pc) q -> entry_ok h pc' e' -> entry_ok (give_all now words n h q) pc' e'.
Proof.
  revert h. induction q as [|e q IH]; intros h Hq He'; cbn; [done|].
  apply Forall_cons in Hq as [He Hq]. apply IH; [|by eapply give_entry_ok].
  eapply Forall_impl; [exact Hq|]. intros x Hx. by eapply give_entry_ok.
Qed.

Definition complete_in (h : parents) (id : Z) : bool := from_option P.completeb false (h !! id).

Lemma give_complete now words n h pc e id :
  entry_ok h pc e -> complete_in h id = true -> complete_in (give now words n h e) id = true.
Proof.
  intros He. pose proof He as [_ _ _ _ _ _ (id' & p & Hid & Hp & _)].
  unfold complete_in, give. destruct (served n e); [|done]. rewrite Hid.
  destruct (decide (id' = id)) as [->|]; [|by rewrite lookup_alter_ne].
  rewrite lookup_alter_eq, Hp. cbn. by eapply receive_complete.
Qed.

Lemma exists_snoc {A} (Q : A -> Prop) l x :
  (exists y, y ∈ l ++ [x] /\ Q y) <-> (exists y, y ∈ l /\ Q y) \/ Q x.
Proof.
  setoid_rewrite elem_of_app. setoid_rewrite list_elem_of_singleton.
  split; [intros (y & [Hy| ->] & ?); eauto|intros [(y & ? & ?)|]; eauto].
Qed.

(** The reported parents are those of the served entries that end up complete. *)
Lemma finish_all_spec now words n h pc q id :
  Forall (entry_ok h pc) q ->
  id ∈ finish_all now words n h q <->
    (exists e, e ∈ q /\ served n e = true /\ U.parent e = Some id) /\
    complete_in (give_all now words n h q) id = true.
Proof.
  induction q as [|e q IH] using rev_ind; intros Hq.
  { cbn. rewrite elem_of_nil. set_solver. }
  apply Forall_app in Hq as [Hq He]. apply Forall_cons in He as [He _]. specialize (IH Hq).
  pose proof (give_all_entry_ok now words n h pc q pc e Hq He) as He'.
  rewrite finish_all_snoc, give_all_snoc, elem_of_app, IH. clear IH.
  rewrite (exists_snoc (fun e => served n e = true /\ U.parent e = Some id)).
  set (h1 := give_all now words n h q) in *.
  pose proof (give_complete now words n h1 pc e id He') as Hmono.
  destruct (served n e) eqn:Es.
  2:{ assert (give now words n h1 e = h1) as -> by (unfold give; by rewrite Es).
      unfold finish. rewrite Es. rewrite elem_of_nil. intuition congruence. }
  pose proof He' as [_ _ _ _ _ _ (id' & p & Hid & Hp & _)].
  unfold finish. rewrite Es, Hid. fold (complete_in (give now words n h1 e) id').
  destruct (decide (id = id')) as [->|Hne].
  - destruct (complete_in (give now words n h1 e) id') eqn:Ec.
    2:{ split; [|by intros [_ ?]]. intros [[_ Hc]|Hc]; [|set_solver].
        specialize (Hmono Hc). congruence. }
    rewrite list_elem_of_singleton. tauto.
  - assert (complete_in (give now words n h1 e) id = complete_in h1 id) as ->.
    { unfold complete_in, give. by rewrite Es, Hid, lookup_alter_ne by done. }
    assert (id ∉ (if complete_in (give now words n h1 e) id' then [id'] else [])) as Hn
      by (destruct (complete_in (give now words n h1 e) id'); set_solver).
    intuition congruence.
Qed.

(** The parent of [e] holds what the store wrote for [e]. *)
Definition holds (now : Z) (words : list Z) (h : parents) (e : U.t) : Prop :=
  exists id p, U.parent e = Some id /\ h !! id = Some p /\
    match chunkType (U.chunk e) with
    | ADDR => P.addrComplete p = true /\ get_target_addr (P.addr p) =
                Ok (address_of (word_at words (offset e)) (word_at words (offset e + 1)))
    | _ => P.dataComplete p !! slot e = Some true /\ exists c, P.chunks p !! slot e = Some c /\
             get_data c = Ok (u32 (word_at words (offset e))) /\ get_time_of_gen c = Ok now
    end.

(** The place of an entry: the address of its parent or one of its chunks. *)
Definition key (e : U.t) : option Z * option nat :=
  (U.parent e, match chunkType (U.chunk e) with ADDR => None | _ => Some (slot e) end).

Lemma stored_reads now w c :
  get_data (stored now w c) = Ok (u32 w) /\ get_time_of_gen (stored now w c) = Ok now.
Proof.
  unfold get_data, get_time_of_gen, has, stored.
  cbn [flags set_time_of_gen with_timeOfGen raise with_content with_flags set_chunk_type
    with_chunkType chunkType content timeOfGen].
  flag_simpl. cbn. by rewrite content_low.
Qed.

Lemma holds_give_same now words n h pc e :
  entry_ok h pc e -> served n e = true -> holds now words (give now words n h e) e.
Proof.
  intros [_ _ _ _ _ _ (id & p & Hid & Hp & Hwf & Ht)] Hs. unfold holds, give. rewrite Hs, Hid.
  exists id, (receive now words e p). rewrite lookup_alter_eq, Hp. split; [done|]. split; [done|].
  unfold receive, get_chunk_type. destruct (chunkType (U.chunk e)); [done| |done|done].
  unfold shape in Ht. rewrite list_lookup_fmap in Ht.
  destruct (P.chunks p !! slot e) as [c|] eqn:Ec; [|done].
  destruct (Forall2_lookup_l _ _ _ _ _ (P.wf_slots p Hwf) Ec) as (d & Hd & _).
  split; [apply list_lookup_insert_eq; by eapply lookup_lt_Some|].
  exists (stored now (word_at words (offset e)) c). split; [|apply stored_reads].
  unfold P.chunks at 1. cbn. by rewrite list_lookup_alter_eq, Ec.
Qed.

Lemma holds_give_other now words n h e e' :
  key e <> key e' -> holds now words h e -> holds now words (give now words n h e') e.
Proof.
  intros Hk (id & p & Hid & Hp & H). unfold give. destruct (served n e'); [|by exists id, p].
  destruct (U.parent e') as [id'|] eqn:Hid'; [|by exists id, p].
  destruct (decide (id' = id)) as [->|]; [|exists id, p; by rewrite lookup_alter_ne].
  exists id, (receive now words e' p). rewrite lookup_alter_eq, Hp. split; [done|]. split; [done|].
  unfold key in Hk. rewrite Hid, Hid' in Hk. unfold receive, get_chunk_type.
  destruct (chunkType (U.chunk e)), (chunkType (U.chunk e')); try done;
    destruct H as (H1 & c & H2 & H3);
    (split; [cbn; by rewrite list_lookup_insert_ne by congruence|]);
    exists c; (split; [|done]); unfold P.chunks at 1; cbn;
    by rewrite list_lookup_alter_ne by congruence.
Qed.

Lemma holds_all now words n h pc q e :
  Forall (entry_ok h pc) q -> NoDup (key <$> q) -> e ∈ q -> served n e = true ->
  holds now words (give_all now words n h q) e.
Proof.
  induction q as [|x q IH] using rev_ind; intros Hq Hnd He Hs; [by apply not_elem_of_nil in He|].
  apply Forall_app in Hq as [Hq Hx]. apply Forall_cons in Hx as [Hx _].
  rewrite fmap_app in Hnd. apply NoDup_app in Hnd as (Hnd & Hdis & _). rewrite give_all_snoc.
  apply elem_of_app in He as [He|He%list_elem_of_singleton].
  - apply holds_give_other; [|by apply IH]. intros Hk. apply (Hdis (key e)).
    + by apply list_elem_of_fmap_2.
    + rewrite Hk. set_solver.
  - subst. eapply holds_give_same; [|done]. by eapply give_all_entry_ok.
Qed.

(** ** The table's invariant

    The counting filter counts the entries of every queue, the PCs of the
    table are those of the insertion order, and there is room for one more. *)
Record table_ok (p : t) (h : parents) : Prop := {
  to_count : forall pc, count p pc = Z.of_nat (length (queue p pc));
  to_bound : forall pc, is_u64 (Z.of_nat (length (queue p pc)));
  to_entries : forall pc, Forall (entry_ok h pc) (queue p pc);
  to_keys : forall pc, NoDup (key <$> queue p pc);
  to_order : forall pc, is_Some (pendingTable p !! pc) <-> pc ∈ insertionOrder p;
  to_nodup : NoDup (insertionOrder p);
  to_size : Z.of_nat (length (insertionOrder p)) < MAX_SIZE p
}.

Lemma pending_new_ok name max b h : 0 < max -> table_ok (new name max b) h.
Proof.
  intros H. assert (forall pc, queue (new name max b) pc = []) as E
    by (intros; unfold queue; cbn; by rewrite lookup_empty).
  split; [| | | | |constructor|done]; intros pc; rewrite ?E; try constructor; try done.
  - intros [? Hx]. cbn in Hx. by rewrite lookup_empty in Hx.
  - intros Hx. by apply not_elem_of_nil in Hx.
Qed.

Lemma has_pc_waiting_ok p h pc :
  table_ok p h -> has_pc_waiting pc p = bool_decide (queue p pc <> []).
Proof.
  intros H. pose proof (to_count p h H pc) as Hc. unfold has_pc_waiting, count in *.
  destruct (pendingVolatilePCs p !! pc) as [n|], (queue p pc) as [|e q];
    cbn [from_option id length] in Hc; subst; case_bool_decide; try done; lia.
Qed.

Lemma queue_insert pc q p p' pc' :
  pendingTable p' = <[pc := q]> (pendingTable p) ->
  queue p' pc' = if decide (pc' = pc) then q else queue p pc'.
Proof.
  intros E. unfold queue. rewrite E. case_decide as Hd; subst.
  - by rewrite lookup_insert_eq.
  - by rewrite lookup_insert_ne.
Qed.

Lemma count_insert pc k p p' pc' :
  pendingVolatilePCs p' = <[pc := k]> (pendingVolatilePCs p) ->
  count p' pc' = if decide (pc' = pc) then k else count p pc'.
Proof.
  intros E. unfold count. rewrite E. case_decide as Hd; subst.
  - by rewrite lookup_insert_eq.
  - by rewrite lookup_insert_ne.
Qed.

Lemma served_count_le n q : (served_count n q <= length q)%nat.
Proof. apply length_filter. Qed.

Lemma served_count_all n q :
  Forall (fun e => served n e = true) q -> served_count n q = length q.
Proof.
  induction 1 as [|e q He _ IH]; [done|]. rewrite served_count_cons, He, IH. done.
Qed.

(** The table after a store: the queue of [pc] loses its first [m] entries. *)
Lemma after_update_ok now words n p h pc q st :
  table_ok p h -> pendingTable p !! pc = Some q -> let m := served_count n q in
  let p' := set_queue pc (drop m q) (removed m
              (lower pc (Z.of_nat (length q) - Z.of_nat m) (with_store st p))) in
  table_ok p' (give_all now words n h q) /\
  forall pc', queue p' pc' = if decide (pc' = pc) then drop m q else queue p pc'.
Proof.
  intros H Hq m p'. pose proof (served_count_le n q) as Hm. fold m in Hm.
  assert (queue p pc = q) as Hqq by (unfold queue; by rewrite Hq).
  assert (forall pc', queue p' pc' = if decide (pc' = pc) then drop m q else queue p pc') as HQ
    by (intros pc'; by apply queue_insert).
  assert (forall pc', count p' pc' = if decide (pc' = pc) then Z.of_nat (length q) - Z.of_nat m
    else count p pc') as HC by (intros pc'; by apply count_insert).
  split; [|done]. destruct H as [H1 H2 H3 H4 H5 H6 H7].
  split; try done; intros pc'; rewrite ?HQ, ?HC; try case_decide; subst; try done.
  - rewrite length_drop. lia.
  - specialize (H2 pc). unfold is_u64 in *. rewrite length_drop. lia.
  - apply Forall_drop. eapply Forall_impl; [exact (H3 pc)|]. intros e He.
    eapply give_all_entry_ok; [exact (H3 pc)|done].
  - eapply Forall_impl; [exact (H3 pc')|]. intros e He.
    eapply give_all_entry_ok; [exact (H3 pc)|done].
  - rewrite fmap_drop. eapply sublist_NoDup; [exact (H4 pc)|apply sublist_drop].
  - cbn. rewrite <- H5. destruct (decide (pc' = pc)) as [->|].
    + rewrite lookup_insert_eq, Hq. split; eauto.
    + by rewrite lookup_insert_ne.
Qed.

Lemma update_entry_state_ok now pc words n p h :
  table_ok p h -> has_pc_waiting pc p = true -> (n <= length words)%nat ->
  Forall (fits n) (queue p pc) ->
  exists p', update_entry_state now pc words n p h =
      Ok (p', give_all now words n h (queue p pc), finish_all now words n h (queue p pc)) /\
    table_ok p' (give_all now words n h (queue p pc)) /\
    forall pc', queue p' pc' =
      if decide (pc' = pc) then drop (served_count n (queue p pc)) (queue p pc) else queue p pc'.
Proof.
  intros H Hw Hn Hf. pose proof Hw as Hw'. rewrite (has_pc_waiting_ok p h pc H) in Hw'.
  apply bool_decide_eq_true in Hw'. pose proof (to_count p h H pc) as Hc.
  destruct (pendingTable p !! pc) as [q|] eqn:Eq; [|by unfold queue in Hw'; rewrite Eq in Hw'].
  assert (queue p pc = q) as Hq by (unfold queue; by rewrite Eq). rewrite Hq in *.
  destruct (pendingVolatilePCs p !! pc) as [k|] eqn:Ek;
    [|by unfold has_pc_waiting in Hw; rewrite Ek in Hw].
  unfold count in Hc. rewrite Ek in Hc. cbn in Hc. subst k.
  pose proof (to_entries p h H pc) as He. pose proof (to_bound p h H pc) as Hb.
  rewrite Hq in He, Hb. pose proof (served_count_le n q) as Hm.
  destruct (after_update_ok now words n p h pc q (DataStore.get (store p)) H Eq) as [Hok HQ].
  unfold update_entry_state. rewrite Hw. cbn [negb panic_if mbind res_bind]. cbn [pendingTable
    with_store]. rewrite Eq. cbn [at_ mbind res_bind].
  rewrite (update_loop now pc words n q _ (Z.of_nat (length q))) by (try done; lia).
  cbn [mbind res_bind completedEntries table objects completedParents iter Nat.add app].
  rewrite (erase_loop pc _ _ q) by done. cbn [mbind res_bind].
  eexists. split; [reflexivity|]. split; [exact Hok|exact HQ].
Qed.

(** C28: a store whose PC has entries waiting never
    stops the program, provided each address entry it reaches has both its
    words inside the store.  Afterwards every entry whose offset lies in the
    store has its word (or its address) in its parent; the parents reported
    as completed are exactly those of such entries that now have their address
    and all their data; the invariant of the table holds again; and as many
    entries as were served leave the front of the queue, so that a store that
    reaches all of them empties it and the filter no longer reports the PC. *)
Theorem update_entry_state_spec now pc words n p h :
  table_ok p h -> has_pc_waiting pc p = true -> (n <= length words)%nat ->
  Forall (fits n) (queue p pc) ->
  exists p' h' done, update_entry_state now pc words n p h = Ok (p', h', done) /\
    table_ok p' h' /\
    (forall e, e ∈ queue p pc -> served n e = true -> holds now words h' e) /\
    (forall id, id ∈ done <->
       (exists e, e ∈ queue p pc /\ served n e = true /\ U.parent e = Some id) /\
       complete_in h' id = true) /\
    (forall pc', queue p' pc' =
       if decide (pc' = pc) then drop (served_count n (queue p pc)) (queue p pc) else queue p pc') /\
    (Forall (fun e => served n e = true) (queue p pc) -> has_pc_waiting pc p' = false).
Proof.
  intros H Hw Hn Hf.
  destruct (update_entry_state_ok now pc words n p h H Hw Hn Hf) as (p' & E & Hok & HQ).
  pose proof (to_entries p h H pc) as He. pose proof (to_keys p h H pc) as Hk.
  do 3 eexists. split; [exact E|]. split; [exact Hok|].
  split; [intros e Hin Hs; by eapply holds_all|].
  split; [intros id; by eapply finish_all_spec|]. split; [exact HQ|].
  intros Hall. rewrite (has_pc_waiting_ok _ _ pc Hok), HQ, decide_True by done.
  apply bool_decide_eq_false. intros Hne. apply Hne, drop_ge. by rewrite served_count_all.
Qed.

(** *** Insertion keeps the invariant *)

(** The PC that leaves the table when an entry for [pc] is inserted. *)
Definition evicted (pc : Z) (p : t) : option Z :=
  if bool_decide (pc ∈ insertionOrder p) then None
  else if Z.of_nat (length (insertionOrder p)) + 1 =? MAX_SIZE p
       then head (insertionOrder p ++ [pc]) else None.

Definition inserted (e : U.t) (pc : Z) (p : t) : t :=
  with_tables (<[pc := queue p pc ++ [e]]> (pendingTable p))
    (<[pc := count p pc + 1]> (pendingVolatilePCs p))
    (if bool_decide (pc ∈ insertionOrder p) then insertionOrder p else insertionOrder p ++ [pc]) p.

(** [table_ok] but for the last clause, which [evict_oldest] restores. *)
Definition full_ok (p : t) (h : parents) : Prop :=
  Z.of_nat (length (insertionOrder p)) <= MAX_SIZE p /\ 0 < MAX_SIZE p /\
  table_ok (mk (store p) (pendingTable p) (pendingVolatilePCs p) (insertionOrder p)
              (MAX_SIZE p + 1) (DISABLE_WHB_SEARCH p) (stats p)) h.

Lemma elem_of_snoc_if (x y : Z) (l : list Z) :
  y ∈ (if bool_decide (x ∈ l) then l else l ++ [x]) <-> y ∈ l \/ y = x.
Proof.
  case_bool_decide as Hx.
  - split; [by left|]. intros [|]; by subst.
  - rewrite elem_of_app, list_elem_of_singleton. done.
Qed.

Lemma inserted_ok p h pc e :
  table_ok p h -> entry_ok h pc e -> key e ∉ key <$> queue p pc ->
  is_u64 (Z.of_nat (length (queue p pc)) + 1) -> full_ok (inserted e pc p) h.
Proof.
  intros [H1 H2 H3 H4 H5 H6 H7] He Hk Hb.
  assert (forall pc', queue (inserted e pc p) pc' =
    if decide (pc' = pc) then queue p pc ++ [e] else queue p pc') as HQ
    by (intros; by apply queue_insert).
  assert (forall pc', count (inserted e pc p) pc' =
    if decide (pc' = pc) then count p pc + 1 else count p pc') as HC
    by (intros; by apply count_insert).
  unfold full_ok. cbn [inserted with_tables insertionOrder MAX_SIZE].
  assert (Z.of_nat (length (if bool_decide (pc ∈ insertionOrder p) then insertionOrder p
    else insertionOrder p ++ [pc])) <= MAX_SIZE p) as Hl
    by (case_bool_decide; rewrite ?length_app; cbn; lia).
  split; [done|]. split; [lia|]. split; cbn [insertionOrder MAX_SIZE]; [intros pc'; clear Hl..|clear Hl|lia].
  - change (count (inserted e pc p) pc' = Z.of_nat (length (queue (inserted e pc p) pc'))).
    rewrite HQ, HC. case_decide; [|apply H1]. rewrite length_app, H1. cbn. lia.
  - change (is_u64 (Z.of_nat (length (queue (inserted e pc p) pc')))). rewrite HQ.
    case_decide; [|apply H2]. rewrite length_app. cbn. by rewrite Nat2Z.inj_add.
  - change (Forall (entry_ok h pc') (queue (inserted e pc p) pc')). rewrite HQ.
    case_decide; [|apply H3]. subst. apply Forall_app. split; [apply H3|]. by constructor.
  - change (NoDup (key <$> queue (inserted e pc p) pc')). rewrite HQ.
    case_decide; [|apply H4]. rewrite fmap_app. apply NoDup_app. split; [apply H4|].
    split; [|apply NoDup_singleton]. intros k Hin Hk'.
    apply list_elem_of_singleton in Hk'. by subst.
  - cbn [pendingTable inserted with_tables]. rewrite elem_of_snoc_if.
    destruct (decide (pc' = pc)) as [->|Hne].
    + rewrite lookup_insert_eq. split; [by right|eauto].
    + rewrite lookup_insert_ne by done. rewrite H5. split; [by left|]. by intros [|].
  - case_bool_decide as Hin; [done|]. apply NoDup_app. split; [done|].
    split; [|apply NoDup_singleton]. intros k Hk1 Hk2.
    apply list_elem_of_singleton in Hk2. by subst.
Qed.

Lemma queue_delete pc p p' pc' :
  pendingTable p' = delete pc (pendingTable p) ->
  queue p' pc' = if decide (pc' = pc) then [] else queue p pc'.
Proof.
  intros E. unfold queue. rewrite E. case_decide as Hd; subst.
  - by rewrite lookup_delete_eq.
  - by rewrite lookup_delete_ne.
Qed.

Lemma evict_oldest_ok p h :
  full_ok p h -> exists p', evict_oldest p = Ok p' /\ table_ok p' h /\
    (forall pc, queue p' pc =
      if decide (Z.of_nat (length (insertionOrder p)) = MAX_SIZE p /\
                 head (insertionOrder p) = Some pc) then [] else queue p pc) /\
    MAX_SIZE p' = MAX_SIZE p /\ (length (insertionOrder p') <= length (insertionOrder p))%nat.
Proof.
  intros (Hl & Hpos & [H1 H2 H3 H4 H5 H6 H7]). unfold evict_oldest.
  cbn [insertionOrder MAX_SIZE pendingTable] in *.
  destruct (Z.eqb_spec (Z.of_nat (length (insertionOrder p))) (MAX_SIZE p)) as [E|E].
  2:{ exists p. split; [done|]. split; [split; try done; lia|].
      split; [|done]. intros pc. by rewrite decide_False by (by intros [? _]). }
  rewrite E, Z.ltb_irrefl. cbn [panic_if mbind res_bind].
  destruct (insertionOrder p) as [|pc0 order] eqn:Eo; [cbn in E; lia|].
  set (p' := with_tables _ _ _ _).
  assert (forall pc, queue p' pc = if decide (pc = pc0) then [] else queue p pc) as HQ
    by (intros; by apply queue_delete).
  assert (forall pc, count p' pc = if decide (pc = pc0) then 0 else count p pc) as HC.
  { intros pc. unfold count, p'. cbn. case_decide; subst;
      [by rewrite lookup_delete_eq|by rewrite lookup_delete_ne]. }
  apply NoDup_cons in H6 as [Hn6 H6].
  exists p'. split; [done|]. split; [|split; [|split; [done|cbn; lia]]].
  - split; [intros pc; rewrite ?HC, ?HQ..|done|cbn in *; lia].
    1: case_decide; [done|apply H1].
    1: case_decide; [done|apply H2].
    1: case_decide; [constructor|apply H3].
    1: case_decide; [constructor|apply H4].
    cbn. destruct (decide (pc = pc0)) as [->|].
    + rewrite lookup_delete_eq. split; [by intros []|done].
    + rewrite lookup_delete_ne by done. rewrite H5, elem_of_cons. naive_solver.
  - intros pc. rewrite HQ. cbn [head].
    destruct (decide (pc = pc0)) as [->|]; [by rewrite decide_True|].
    rewrite decide_False; [done|]. intros [_ ?]. congruence.
Qed.

Lemma pending_add_ok e whb p h pc :
  table_ok p h -> entry_ok h pc e -> key e ∉ key <$> queue p pc ->
  is_u64 (Z.of_nat (length (queue p pc)) + 1) ->
  is_whb_search (U.chunk e) = false \/ DISABLE_WHB_SEARCH p = true ->
  exists p', add e whb p h = Ok (p', h) /\ table_ok p' h /\
    (forall pc', queue p' pc' =
       if decide (evicted pc p = Some pc') then []
       else if decide (pc' = pc) then queue p pc ++ [e] else queue p pc') /\
    MAX_SIZE p' = MAX_SIZE p /\
    (length (insertionOrder p') <= S (length (insertionOrder p)))%nat.
Proof.
  intros H He Hk Hb Hs. unfold add.
  assert (negb (is_whb_search (U.chunk e)) || DISABLE_WHB_SEARCH p = true) as ->
    by (by destruct Hs as [-> | ->]; rewrite ?orb_true_r).
  unfold add_waiting. rewrite (eo_pc _ _ _ He). cbn [mbind res_bind].
  set (p0 := with_stats _ (with_store _ p)).
  assert (table_ok p0 h) as H0 by (by destruct H).
  change (queue p0 pc) with (queue p pc). change (count p0 pc) with (count p pc).
  pose proof (to_count p h H pc) as Hc.
  rewrite (u64_id (count p pc + 1)) by (by rewrite Hc).
  fold (inserted e pc p0).
  pose proof (inserted_ok p0 h pc e H0 He Hk Hb) as Hf.
  destruct (evict_oldest_ok _ h Hf) as (p' & E & Hok & HQ & Hmax & Hlen).
  assert (count (inserted e pc p0) pc = count p pc + 1) as Hcnt
    by (unfold count; cbn; by rewrite lookup_insert_eq).
  match goal with |- context [evict_oldest ?x] => change x with (inserted e pc p0) end.
  match goal with |- context [count ?x pc] => change x with (inserted e pc p0) end.
  rewrite Hcnt, (proj2 (Z.ltb_lt 0 (count p pc + 1))) by lia.
  unfold U.has_parent_index. rewrite (eo_index _ _ _ He), E.
  exists p'. split; [done|]. split; [done|]. split; [|split; [done|]].
  2:{ etrans; [exact Hlen|]. cbn. case_bool_decide; rewrite ?length_app; cbn; lia. }
  intros pc'. rewrite HQ, (queue_insert pc (queue p pc ++ [e]) p) by done.
  pose proof (to_size p h H) as Hsz. unfold evicted. cbn [inserted insertionOrder with_tables MAX_SIZE
    with_stats with_store p0]. case_bool_decide as Hin.
  - rewrite decide_False by lia. by rewrite (decide_False (P := None = Some pc')).
  - rewrite length_app. cbn [length].
    destruct (Z.eqb_spec (Z.of_nat (length (insertionOrder p)) + 1) (MAX_SIZE p)).
    + apply decide_ext. split; [by intros [_ ?]|]. intros; split; [lia|done].
    + rewrite decide_False by lia. by rewrite (decide_False (P := None = Some pc')).
Qed.

(** Inserting a waiting entry never stops the program and
    keeps the invariant of the table.  The entry goes to the end of its PC's
    queue, every other queue is untouched, except that the PC inserted first
    loses its queue (and its place in the filter) when a new PC fills the
    table; the number of PCs stays below the capacity. *)
Theorem pending_add_spec e whb p h pc :
  table_ok p h -> entry_ok h pc e -> key e ∉ key <$> queue p pc ->
  is_u64 (Z.of_nat (length (queue p pc)) + 1) ->
  is_whb_search (U.chunk e) = false \/ DISABLE_WHB_SEARCH p = true ->
  exists p', add e whb p h = Ok (p', h) /\ table_ok p' h /\
    (forall pc', queue p' pc' =
       if decide (evicted pc p = Some pc') then []
       else if decide (pc' = pc) then queue p pc ++ [e] else queue p pc') /\
    Z.of_nat (length (insertionOrder p')) < MAX_SIZE p'.
Proof.
  intros H He Hk Hb Hs. destruct (pending_add_ok e whb p h pc H He Hk Hb Hs)
    as (p' & ? & Hok & ? & _). exists p'. do 3 (split; [done|]). by destruct Hok.
Qed.

(** *** A concrete prediction

    Parent 1 waits for the word at index 3 of its line and for its address;
    PC 100 produces both, at offsets 0 and 2 of its store. *)
Definition sample_chunk (gpc off : Z) (ty : ChunkType) : ChunkInfo.t :=
  match make gpc off false ty with Ok c => c | Fail _ => ChunkInfo.new end.
Definition sample_parent : P.t :=
  P.with_chunks (<[3%nat := set_chunk_type DATA ChunkInfo.new]>
    (replicate DATA_CHUNK_COUNT ChunkInfo.new)) (P.new 0).
Definition sample_parents : parents := {[1 := sample_parent]}.
Definition sample_data (off : Z) : U.t := U.of_chunk (sample_chunk 100 off DATA) (Some 1) 3.
Definition sample_addr (off : Z) : U.t := U.of_chunk (sample_chunk 100 off ADDR) (Some 1) 0.
Definition sample_table (q : list U.t) : t :=
  mk (DataStore.new "pendingTable") {[100 := q]} {[100 := Z.of_nat (length q)]} [100] 128 false
    Stats.empty.

Lemma sample_parent_wf : P.wf sample_parent.
Proof.
  split; [done| |].
  - do 3 (apply Forall2_cons; split; [by split; [left|done]|]).
    apply Forall2_cons; split; [by split; [right|done]|].
    do 12 (apply Forall2_cons; split; [by split; [left|done]|]). constructor.
  - do 3 apply Exists_cons_tl. by apply Exists_cons_hd.
Qed.

Lemma sample_waiting_ok e :
  e = sample_data 0 \/ e = sample_addr 2 -> entry_ok sample_parents 100 e.
Proof.
  intros He. split; [destruct He as [-> | ->]; done..|].
  exists 1, sample_parent. pose proof sample_parent_wf. destruct He as [-> | ->]; done.
Qed.

Lemma sample_table_ok : table_ok (sample_table [sample_data 0; sample_addr 2]) sample_parents.
Proof.
  set (q := [sample_data 0; sample_addr 2]).
  assert (forall pc, queue (sample_table q) pc = if decide (pc = 100) then q else []) as HQ.
  { intros pc. unfold queue, sample_table. cbn [pendingTable]. case_decide; subst;
      [by rewrite lookup_singleton_eq|by rewrite lookup_singleton_ne]. }
  split; [intros pc; rewrite ?HQ..|by apply NoDup_singleton|done].
  - unfold count, sample_table. cbn [pendingVolatilePCs]. case_decide; subst;
      [by rewrite lookup_singleton_eq|by rewrite lookup_singleton_ne].
  - by case_decide.
  - case_decide; [|constructor]. subst. do 2 (constructor; [apply sample_waiting_ok; auto|]). constructor.
  - case_decide; [|constructor]. apply (bool_decide_unpack (NoDup (key <$> q))). by vm_compute.
  - unfold sample_table. cbn [pendingTable insertionOrder]. rewrite list_elem_of_singleton.
    destruct (decide (pc = 100)) as [->|].
    + rewrite lookup_singleton_eq. split; eauto.
    + rewrite lookup_singleton_ne by done. split; [by intros []|done].
Qed.

Lemma update_entry_state_spec_witness :
  exists p' h' done,
    update_entry_state 7 100 [170; 0; 64; 1] 4 (sample_table [sample_data 0; sample_addr 2])
      sample_parents = Ok (p', h', done) /\
    table_ok p' h' /\ has_pc_waiting 100 p' = false.
Proof.
  destruct (update_entry_state_spec 7 100 [170; 0; 64; 1] 4
    (sample_table [sample_data 0; sample_addr 2]) sample_parents sample_table_ok)
    as (p' & h' & d & E & Hok & _ & _ & _ & Hw).
  - reflexivity.
  - cbn. lia.
  - repeat constructor; unfold fits; vm_compute; done.
  - exists p', h', d. split; [exact E|]. split; [exact Hok|]. apply Hw. repeat constructor.
Defined.

Lemma pending_add_spec_witness :
  exists p', add (sample_data 0) [] (new "pendingTable" 128 false) sample_parents =
    Ok (p', sample_parents) /\ table_ok p' sample_parents /\ queue p' 100 = [sample_data 0].
Proof.
  destruct (pending_add_spec (sample_data 0) [] (new "pendingTable" 128 false) sample_parents 100)
    as (p' & E & Hok & HQ & _).
  - by apply pending_new_ok.
  - apply sample_waiting_ok. by left.
  - by apply not_elem_of_nil.
  - vm_compute. done.
  - by left.
  - exists p'. split; [exact E|]. split; [exact Hok|]. by rewrite HQ.
Defined.

(** The positions erased are counted over the served entries only: when a
    served entry stands behind one that is not, the wrong one is erased. *)
Lemma update_erases_unserved :
  match update_entry_state 7 100 [170] 1 (sample_table [sample_addr 2; sample_data 0]) sample_parents
  with
  | Ok (p', _, _) => queue p' 100 = [sample_data 0]
  | Fail _ => False
  end.
Proof. by vm_compute. Qed.

(** A store that reaches only the first word of a pending address panics. *)
Lemma update_short_store :
  update_entry_state 7 100 [170] 1 (sample_table [sample_addr 0]) sample_parents = Fail Panic.
Proof. by vm_compute. Qed.
End PendingTable.
