(* ===== verification/Frontend.v ===== *)
(** * The predictor frontend: state, write history and cache line accumulator

    Models [class PredictorFrontend] of [mem/predictor_frontend.hh]/[.cc]: its
    members, [canAddToWhb], [updateWriteHistoryBuffer],
    [cachelineAccumulatorRetireTick], [SendCacheLineToBackend],
    [manageCachelineAcc] and [collectPktStatistics].  The search of the history
    and the request handlers that use these are in [LineSearch] and [Requests]. *)

From S2P Require Import Prelude Common PageTable Chunk CacheLine Queues AddrPredictor Shared.
From S2P Require Import WriteHistory PredictorTable CompletedWrite Backend PendingTable.

Module Frontend.
Module WHB := WriteHistoryBufferEntry.
Module CWE := CompletedWriteEntry.
Import ChunkInfo.

(** The limits, some read from the environment by the constructor; [freeHash]
    is [hash_t("Free write")], the address of a string literal. *)
Record config := mkConfig {
  CL_ACC_SIZE : Z;
  ACC_RETIRE_TICK_PERIOD : Z;
  ACC_ENTRY_RETIRE_THRESHOLD : Z;
  disableFreePrediction : bool;
  disablePerPCConfidence : bool;
  disableFancyAddrPred : bool;
  freeHash : Z
}.

(** The members of the frontend, with the objects of [PendingTableEntryParent]
    it allocates and the static data of [SharedArea] and [PredictorBackend]. *)
Record t := mk {
  cfg : config;
  predictorTable : PredictorTable.t;
  pendingTable : PendingTable.t;
  parents : gmap Z PendingTableEntryParent.t;
  nextParent : Z;
  writeHistoryBuffer : FixedSizeQueue.t WriteHistoryBufferEntry.t;
  cacheLineAccumulator : gmap Z CacheLine.t;
  addrPredictor : AddrPredictor.t;
  lastAccumulatorRetireTick : Z;
  addrChangesSinceClwb : Z;
  lastAlignedPMAddr : Z;
  lastWriteTickToAddr : gmap Z Z;
  lastWritePCToAddr : gmap Z Z;
  lastPMAddr : Z;
  writesSinceLastCL : Z;
  writebackDistMap : gmap Z Z;
  shared : SharedArea.t;
  backend : Backend.t;
  stats : Stats.t
}.

Definition with_predictor p sh f := mk (cfg f) p (pendingTable f) (parents f) (nextParent f)
  (writeHistoryBuffer f) (cacheLineAccumulator f) (addrPredictor f)
  (lastAccumulatorRetireTick f) (addrChangesSinceClwb f) (lastAlignedPMAddr f)
  (lastWriteTickToAddr f) (lastWritePCToAddr f) (lastPMAddr f) (writesSinceLastCL f)
  (writebackDistMap f) sh (backend f) (stats f).
Definition with_pending p h f := mk (cfg f) (predictorTable f) p h (nextParent f)
  (writeHistoryBuffer f) (cacheLineAccumulator f) (addrPredictor f)
  (lastAccumulatorRetireTick f) (addrChangesSinceClwb f) (lastAlignedPMAddr f)
  (lastWriteTickToAddr f) (lastWritePCToAddr f) (lastPMAddr f) (writesSinceLastCL f)
  (writebackDistMap f) (shared f) (backend f) (stats f).
Definition with_nextParent v f := mk (cfg f) (predictorTable f) (pendingTable f) (parents f) v
  (writeHistoryBuffer f) (cacheLineAccumulator f) (addrPredictor f)
  (lastAccumulatorRetireTick f) (addrChangesSinceClwb f) (lastAlignedPMAddr f)
  (lastWriteTickToAddr f) (lastWritePCToAddr f) (lastPMAddr f) (writesSinceLastCL f)
  (writebackDistMap f) (shared f) (backend f) (stats f).
Definition with_whb v f := mk (cfg f) (predictorTable f) (pendingTable f) (parents f)
  (nextParent f) v (cacheLineAccumulator f) (addrPredictor f) (lastAccumulatorRetireTick f)
  (addrChangesSinceClwb f) (lastAlignedPMAddr f) (lastWriteTickToAddr f) (lastWritePCToAddr f)
  (lastPMAddr f) (writesSinceLastCL f) (writebackDistMap f) (shared f) (backend f) (stats f).
Definition with_acc v f := mk (cfg f) (predictorTable f) (pendingTable f) (parents f)
  (nextParent f) (writeHistoryBuffer f) v (addrPredictor f) (lastAccumulatorRetireTick f)
  (addrChangesSinceClwb f) (lastAlignedPMAddr f) (lastWriteTickToAddr f) (lastWritePCToAddr f)
  (lastPMAddr f) (writesSinceLastCL f) (writebackDistMap f) (shared f) (backend f) (stats f).
Definition with_addrPredictor v f := mk (cfg f) (predictorTable f) (pendingTable f) (parents f)
  (nextParent f) (writeHistoryBuffer f) (cacheLineAccumulator f) v (lastAccumulatorRetireTick f)
  (addrChangesSinceClwb f) (lastAlignedPMAddr f) (lastWriteTickToAddr f) (lastWritePCToAddr f)
  (lastPMAddr f) (writesSinceLastCL f) (writebackDistMap f) (shared f) (backend f) (stats f).
Definition with_retireTick v f := mk (cfg f) (predictorTable f) (pendingTable f) (parents f)
  (nextParent f) (writeHistoryBuffer f) (cacheLineAccumulator f) (addrPredictor f) v
  (addrChangesSinceClwb f) (lastAlignedPMAddr f) (lastWriteTickToAddr f) (lastWritePCToAddr f)
  (lastPMAddr f) (writesSinceLastCL f) (writebackDistMap f) (shared f) (backend f) (stats f).
Definition with_addrChanges n a f := mk (cfg f) (predictorTable f) (pendingTable f) (parents f)
  (nextParent f) (writeHistoryBuffer f) (cacheLineAccumulator f) (addrPredictor f)
  (lastAccumulatorRetireTick f) n a (lastWriteTickToAddr f) (lastWritePCToAddr f) (lastPMAddr f)
  (writesSinceLastCL f) (writebackDistMap f) (shared f) (backend f) (stats f).
Definition with_lastWrites ticks pcs f := mk (cfg f) (predictorTable f) (pendingTable f)
  (parents f) (nextParent f) (writeHistoryBuffer f) (cacheLineAccumulator f) (addrPredictor f)
  (lastAccumulatorRetireTick f) (addrChangesSinceClwb f) (lastAlignedPMAddr f) ticks pcs
  (lastPMAddr f) (writesSinceLastCL f) (writebackDistMap f) (shared f) (backend f) (stats f).
Definition with_consecutive a n f := mk (cfg f) (predictorTable f) (pendingTable f) (parents f)
  (nextParent f) (writeHistoryBuffer f) (cacheLineAccumulator f) (addrPredictor f)
  (lastAccumulatorRetireTick f) (addrChangesSinceClwb f) (lastAlignedPMAddr f)
  (lastWriteTickToAddr f) (lastWritePCToAddr f) a n (writebackDistMap f) (shared f) (backend f)
  (stats f).
Definition with_wbdist v f := mk (cfg f) (predictorTable f) (pendingTable f) (parents f)
  (nextParent f) (writeHistoryBuffer f) (cacheLineAccumulator f) (addrPredictor f)
  (lastAccumulatorRetireTick f) (addrChangesSinceClwb f) (lastAlignedPMAddr f)
  (lastWriteTickToAddr f) (lastWritePCToAddr f) (lastPMAddr f) (writesSinceLastCL f) v
  (shared f) (backend f) (stats f).
Definition with_backend v f := mk (cfg f) (predictorTable f) (pendingTable f) (parents f)
  (nextParent f) (writeHistoryBuffer f) (cacheLineAccumulator f) (addrPredictor f)
  (lastAccumulatorRetireTick f) (addrChangesSinceClwb f) (lastAlignedPMAddr f)
  (lastWriteTickToAddr f) (lastWritePCToAddr f) (lastPMAddr f) (writesSinceLastCL f)
  (writebackDistMap f) (shared f) v (stats f).
Definition with_stats g f := mk (cfg f) (predictorTable f) (pendingTable f) (parents f)
  (nextParent f) (writeHistoryBuffer f) (cacheLineAccumulator f) (addrPredictor f)
  (lastAccumulatorRetireTick f) (addrChangesSinceClwb f) (lastAlignedPMAddr f)
  (lastWriteTickToAddr f) (lastWritePCToAddr f) (lastPMAddr f) (writesSinceLastCL f)
  (writebackDistMap f) (shared f) (backend f) (g (stats f)).

(** The constructor and the member initialisers, for the tables' parameters and
    the static state the frontend finds. *)
Definition new (c : config) (tc : PredictorTable.config) (sizeMultiplier : nat)
    (pendMax : Z) (disableWhbSearch : bool) (sh : SharedArea.t) (b : Backend.t) : t :=
  mk c (PredictorTable.new tc "pred_t") (PendingTable.new "pend_t" pendMax disableWhbSearch) ∅ 0
    (FixedSizeQueue.new "whb" (512 * sizeMultiplier)) ∅ AddrPredictor.new 0 0 0 ∅ ∅ 0 0 ∅ sh b
    Stats.empty.

(** ** Write history *)

Definition canAddToWhb (pkt : Packet.t) : bool := Packet.isWrite pkt.

Definition updateWriteHistoryBuffer (now : Z) (pkt : Packet.t) (f : t) : res t :=
  assert_that (Packet.hasPC pkt && Packet.hasData pkt && Packet.isWrite pkt) ;;
  data ← Packet.getPtr pkt;
  pc ← Packet.getPC pkt;
  vaddr ← Packet.getVaddr pkt;
  let chunkCount := Packet.reqSize pkt / SIZEOF_DATACHUNK in
  hash ← PredictorTable.get_path_hash (predictorTable f);
  e ← WHB.of_words now pc vaddr data (Z.to_nat chunkCount) hash;
  let e := WHB.set_size chunkCount (WHB.set_id now (WHB.set_gen_tick now e)) in
  _ ← CacheLine.all_zeros (WHB.get_cacheline e);
  q ← FixedSizeQueue.push_back e (writeHistoryBuffer f);
  Ok (with_whb q f).

(** ** Cache line accumulator *)
Section Accumulator.
Context `{O : IterOrder}.
(** The page table, the hit tests of the metadata caches, the data of the
    valid L2 block of an address, the contents of a fresh array and, for the
    cast of line 743, the words at the address of the [CacheBlk] object. *)
Variable pt : PageTable.t.
Variables isCounterCacheHit isVerificationCacheHit : Z -> bool.
Variable l2 : Z -> option (list Z).
Variable blkObject : Z -> option (list Z).
Variable fresh : list Z.
Variable now : Z.

Definition sendToBackend (e : CWE.t) (f : t) : res t :=
  b ← Backend.addCompletedWrite pt isCounterCacheHit isVerificationCacheHit now e (backend f);
  Ok (with_backend b f).

(** Lines 702-716 and 757-771: the cached line under the accumulated one, as
    a free prediction for [addr]. *)
Definition freePrediction (addr : Z) (cacheData accumulated : CacheLine.t) (f : t)
    : res CWE.t :=
  '(cacheData, _) ← CacheLine.overwriteFrom accumulated cacheData;
  let cacheData := CacheLine.with_chunks
    (map set_free_prediction (CacheLine.dataChunks cacheData)) cacheData in
  let e := CWE.make now addr cacheData (freeHash (cfg f)) in
  let e := CWE.set_time_of_creation now
    (CWE.set_time_of_data_gen now (CWE.set_time_of_addr_gen now e)) in
  Ok (CWE.set_orig_cacheline cacheData e).

(** Lines 675-683: the lines whose last update is too old. *)
Definition retireQueue (f : t) : res (list Z) :=
  for_each (iter (cacheLineAccumulator f))
    (fun '(a, line) q =>
       u ← CacheLine.get_time_of_last_update line;
       Ok (if ACC_ENTRY_RETIRE_THRESHOLD (cfg f) <? u64 (now - u) then q ++ [a] else q)) [].

(** Lines 687-725, for one address; the state is the frontend and
    [entriesToSend].  [operator[]] finds the line, its key came from the map. *)
Definition retire_step (addr : Z) (st : t * list CWE.t) : res (t * list CWE.t) :=
  let '(f, entriesToSend) := st in
  match PageTable.translate pt addr with
  | Some paddr =>
      let line := default (CacheLine.new now) (cacheLineAccumulator f !! addr) in
      if CacheLine.is_dirty line then
        cacheData ← CacheLine.of_cache now paddr (l2 paddr) fresh;
        e ← freePrediction addr cacheData line f;
        Ok (with_acc (<[addr := CacheLine.set_clean line]> (cacheLineAccumulator f)) f,
            entriesToSend ++ [e])
      else Ok (with_acc (<[addr := line]> (cacheLineAccumulator f)) f, entriesToSend)
  | None => Ok (f, entriesToSend)
  end.

Definition cachelineAccumulatorRetireTick (f : t) : res t :=
  if disableFreePrediction (cfg f) then Ok f
  else if ACC_RETIRE_TICK_PERIOD (cfg f) <? u64 (now - lastAccumulatorRetireTick f) then
    let f := with_retireTick now f in
    q ← retireQueue f;
    '(f, entriesToSend) ← for_each q retire_step (f, []);
    for_each entriesToSend
      (fun e f =>
         sendToBackend e (with_stats (fun st => Stats.incr "predictedWriteCount"
                                       (Stats.incr "freePredictions" st)) f)) f
  else Ok f.

Definition SendCacheLineToBackend (cacheline : CacheLine.t) (f : t) : res t :=
  addr ← CacheLine.get_addr cacheline;
  match PageTable.translate pt addr with
  | Some paddr =>
      match blkObject paddr with
      | Some data =>
          cacheData ← CacheLine.of_chunks now (cacheline_align addr) data DATA_CHUNK_COUNT true;
          e ← freePrediction addr cacheData cacheline f;
          sendToBackend e f
      | None => Ok f
      end
  | None => Ok f
  end.

(** Lines 811-819: the line created first; [UINT64_MAX] is "none". *)
Definition oldest_line (f : t) : res (Z * Z) :=
  if CL_ACC_SIZE (cfg f) <? Z.of_nat (size (cacheLineAccumulator f)) then
    for_each (iter (cacheLineAccumulator f))
      (fun '(a, _) '(oldestTimeOfGen, addrOfOldest) =>
         line ← at_ (cacheLineAccumulator f !! a);
         let toc := CacheLine.get_time_of_creation line in
         Ok (if toc <? oldestTimeOfGen then (toc, a) else (oldestTimeOfGen, addrOfOldest)))
      (UINT64_MAX, UINT64_MAX)
  else Ok (UINT64_MAX, UINT64_MAX).

(** Lines 822-849 *)
Definition evict_line (pkt : Packet.t) (addrOfOldest : Z) (f : t) : res t :=
  let f := with_stats (Stats.incr "pcAccumulatorEvictions") f in
  panic_if_not (bool_decide (is_Some (lastWriteTickToAddr f !! addrOfOldest))) ;;
  vaddr ← Packet.getVaddr pkt;
  let last := default 0 (lastWriteTickToAddr f !! vaddr) in
  let f := with_lastWrites (<[vaddr := last]> (lastWriteTickToAddr f)) (lastWritePCToAddr f) f in
  let f := with_stats (Stats.sample "clEvicKiloTicksSinceLastWrite" (u64 (now - last) / 1000)) f in
  panic_if (addrOfOldest =? UINT64_MAX) ;;
  let line := default (CacheLine.new now) (cacheLineAccumulator f !! addrOfOldest) in
  f ← SendCacheLineToBackend line f;
  Ok (with_acc (delete addrOfOldest (cacheLineAccumulator f)) f).

(** Lines 780-795: the line of the store, created on the first store to it. *)
Definition touch_line (pkt : Packet.t) (f : t) : res t :=
  vaddr ← Packet.getVaddr pkt;
  let a := cacheline_align vaddr in
  let line :=
    match cacheLineAccumulator f !! a with
    | Some line => CacheLine.set_dirty line
    | None => CacheLine.set_time_of_last_update now (CacheLine.set_time_of_creation now
                (CacheLine.set_addr vaddr (CacheLine.set_dirty (CacheLine.new now))))
    end in
  Ok (with_acc (<[a := line]> (cacheLineAccumulator f)) f).

Definition manageCachelineAcc (pkt : Packet.t) (f : t) : res t :=
  f ← touch_line pkt f;
  '(oldestTimeOfGen, addrOfOldest) ← oldest_line f;
  f ← (if negb (oldestTimeOfGen =? UINT64_MAX) then evict_line pkt addrOfOldest f else Ok f);
  panic_if ((oldestTimeOfGen =? UINT64_MAX)
            && (CL_ACC_SIZE (cfg f) <? Z.of_nat (size (cacheLineAccumulator f)))) ;;
  Ok f.
(** Lines 894-990 of [handleNonVolatileWrite]: a persistent store. *)
Definition accumulate_word (a pc : Z) (data : list Z) (chunkIndex i : nat) (f : t) : res t :=
  let cacheChunkIndex := (chunkIndex + i)%nat in
  assert_that (bool_decide (cacheChunkIndex < DATA_CHUNK_COUNT)%nat) ;;
  line ← at_ (cacheLineAccumulator f !! a);
  d ← deref (data !! i);
  cs ← modify cacheChunkIndex
         (fun c => c ← set_data d (set_chunk_type DATA c);
                   Ok (set_completion true (set_generating_pc pc c)))
         (CacheLine.dataChunks line);
  let line := CacheLine.set_time_of_last_update now (CacheLine.with_chunks cs line) in
  Ok (with_acc (<[a := line]> (cacheLineAccumulator f)) f).

Definition accumulate (pkt : Packet.t) (f : t) : res t :=
  let f := with_stats (Stats.incr "pmStores") f in
  vaddr ← Packet.getVaddr pkt;
  let a := cacheline_align vaddr in
  let f := if lastAlignedPMAddr f =? a then f
           else with_addrChanges (addrChangesSinceClwb f + 1) a f in
  f ← cachelineAccumulatorRetireTick f;
  f ← manageCachelineAcc pkt f;
  assert_that (Packet.hasVaddr pkt) ;;
  pc ← Packet.getPC pkt;
  assert_that (Packet.hasData pkt) ;;
  data ← Packet.getPtr pkt;
  for_each (seq 0 (Z.to_nat (Packet.size pkt / SIZEOF_DATACHUNK)))
    (accumulate_word a pc data (chunk_index vaddr)) f.
End Accumulator.

(** ** Statistics of a packet *)

Definition collectPktStatistics (now : Z) (pkt : Packet.t) (f : t) : res t :=
  vaddr ← Packet.getVaddr pkt;
  isClwb ← is_vaddr_clwb pkt;
  let a := cacheline_align vaddr in
  if (Packet.isWrite pkt || isClwb) && is_vaddr_pm vaddr then
    if isClwb : bool then
      match lastWriteTickToAddr f !! vaddr with
      | None => Ok (with_stats (Stats.incr "clwbWithoutWrites")
                     (with_stats (Stats.sample "clwbToLastWriteDistance" UINT64_MAX) f))
      | Some tick =>
          Ok (with_stats (Stats.sample "clwbToLastWriteDistance" (u64 (now - tick) / 1000)) f)
      end
    else
      pc ← Packet.getPC pkt;
      let f := with_lastWrites (<[a := now]> (lastWriteTickToAddr f))
                 (<[a := pc]> (lastWritePCToAddr f)) f in
      if lastPMAddr f =? a then Ok (with_consecutive (lastPMAddr f) (writesSinceLastCL f + 1) f)
      else Ok (with_consecutive a 0
                 (with_stats (Stats.sample "consecutiveWritesToCL" (writesSinceLastCL f)) f))
  else Ok f.

(** ** Free predictions *)
Section AccumulatorLemmas.
Context `{O : IterOrder}.
Variable pt : PageTable.t.
Variables isCounterCacheHit isVerificationCacheHit : Z -> bool.
Variable l2 : Z -> option (list Z).
Variable fresh : list Z.
Variable now : Z.
(** Blocks and arrays of sixteen words. *)
Hypothesis l2_words : forall a d, l2 a = Some d -> length d = DATA_CHUNK_COUNT.
Hypothesis fresh_words : length fresh = DATA_CHUNK_COUNT.

(** What [CacheLine(paddr, l2)] reads. *)
Definition cached (paddr : Z) : list Z := default fresh (l2 paddr).

(** The free prediction for [a] of a line over a cached one. *)
Definition free_line (cacheData accumulated : CacheLine.t) : CacheLine.t :=
  CacheLine.with_chunks (map set_free_prediction
    (CacheLine.overlay (CacheLine.dataChunks accumulated) (CacheLine.dataChunks cacheData)))
    cacheData.
Definition free_entry (hash a : Z) (cacheData accumulated : CacheLine.t) : CWE.t :=
  CWE.set_orig_cacheline (free_line cacheData accumulated)
    (CWE.set_time_of_creation now (CWE.set_time_of_data_gen now (CWE.set_time_of_addr_gen now
       (CWE.make now a (free_line cacheData accumulated) hash)))).

Lemma set_free_line c :
  line_chunk c -> line_chunk (set_free_prediction c) /\ is_free_prediction (set_free_prediction c) = true.
Proof.
  intros H. split.
  - destruct H as [H|[H1 H2]]; [by left|right]. split; [done|].
    unfold has, set_free_prediction in *. cbn. by flag_simpl.
  - unfold is_free_prediction, has, set_free_prediction. cbn. by flag_simpl.
Qed.

Lemma free_line_ok cacheData accumulated :
  CacheLine.wf cacheData -> CacheLine.wf accumulated ->
  CacheLine.wf (free_line cacheData accumulated) /\
  (forall c, c ∈ CacheLine.dataChunks (free_line cacheData accumulated) ->
     is_free_prediction c = true) /\
  forall i, CacheLine.view (CacheLine.dataChunks (free_line cacheData accumulated)) i =
    match CacheLine.view (CacheLine.dataChunks accumulated) i with
    | Some d => Some d
    | None => CacheLine.view (CacheLine.dataChunks cacheData) i
    end.
Proof.
  intros Hc Ha. pose proof (CacheLine.overlay_wf _ _ Ha Hc) as [Hl Hf].
  unfold free_line. cbn [CacheLine.dataChunks CacheLine.with_chunks].
  set (cs := CacheLine.overlay _ _) in *. split; [|split].
  - split; cbn [CacheLine.dataChunks CacheLine.with_chunks]; [by rewrite length_map|]. apply Forall_fmap. eapply Forall_impl; [exact Hf|].
    intros c Lc. by apply set_free_line.
  - intros c Hin. apply list_elem_of_fmap in Hin as (c' & -> & Hc').
    rewrite Forall_forall in Hf. by apply set_free_line, Hf.
  - intros i. rewrite <- CacheLine.view_overlay by done. fold cs. unfold CacheLine.view.
    change (map set_free_prediction cs) with (set_free_prediction <$> cs).
    rewrite list_lookup_fmap. by destruct (cs !! i).
Qed.

Lemma free_entry_ok hash a cacheData accumulated :
  CacheLine.wf cacheData -> CacheLine.wf accumulated ->
  CWE.wf (free_entry hash a cacheData accumulated) /\
  Backend.pcs_known (free_entry hash a cacheData accumulated).
Proof.
  intros Hc Ha. destruct (free_line_ok _ _ Hc Ha) as (Hw & Hfree & _). split.
  - split; try done; unfold CWE.has, free_entry; cbn; by flag_simpl.
  - intros c Hin _ Hf. rewrite (Hfree c Hin) in Hf. done.
Qed.

Lemma freePrediction_ok a cacheData accumulated f :
  CacheLine.wf cacheData -> CacheLine.wf accumulated ->
  freePrediction now a cacheData accumulated f =
    Ok (free_entry (freeHash (cfg f)) a cacheData accumulated).
Proof.
  intros Hc Ha. unfold freePrediction. by rewrite CacheLine.overwriteFrom_ok by done.
Qed.

(** *** The accumulator's invariant *)

(** A line of the accumulator: its key is the aligned address of the store
    that created it, and that store was recorded by the statistics. *)
Record line_ok (f : t) (a : Z) (line : CacheLine.t) : Prop := {
  lo_wf : CacheLine.wf line;
  lo_addr : CacheLine.hasAddr line = true;
  lo_key : cacheline_align (CacheLine.addr line) = a;
  lo_update : CacheLine.hasTimeOfLastUpdate line = true;
  lo_known : is_Some (lastWriteTickToAddr f !! a);
  lo_created : CacheLine.timeOfCreation line < UINT64_MAX
}.
Record acc_ok (f : t) : Prop := {
  ao_lines : forall a line, cacheLineAccumulator f !! a = Some line -> line_ok f a line;
  ao_size : Z.of_nat (size (cacheLineAccumulator f)) <= CL_ACC_SIZE (cfg f);
  ao_pos : 1 <= CL_ACC_SIZE (cfg f);
  ao_backend : Backend.wf (backend f)
}.

Lemma acc_ok_frame f f' :
  acc_ok f -> cacheLineAccumulator f' = cacheLineAccumulator f ->
  lastWriteTickToAddr f' = lastWriteTickToAddr f -> cfg f' = cfg f -> backend f' = backend f ->
  acc_ok f'.
Proof.
  intros [H1 H2 H3 H4] Ha Hl Hc Hb. split; rewrite ?Ha, ?Hc, ?Hb; try done.
  intros a line Hin. destruct (H1 a line Hin). split; try done. by rewrite Hl.
Qed.

Definition cached_line (paddr : Z) : CacheLine.t :=
  match CacheLine.of_cache now paddr (l2 paddr) fresh with Ok l => l | Fail _ => CacheLine.new now end.

Lemma cached_line_ok paddr :
  CacheLine.of_cache now paddr (l2 paddr) fresh = Ok (cached_line paddr) /\
  CacheLine.wf (cached_line paddr) /\
  forall i, CacheLine.view (CacheLine.dataChunks (cached_line paddr)) i = u32 <$> cached paddr !! i.
Proof.
  unfold cached_line, cached.
  destruct (CacheLine.of_cache_ok now paddr (l2 paddr) fresh) as (l & -> & Hw & _ & _ & Hv).
  { destruct (l2 paddr) eqn:E; [by eapply l2_words|done]. }
  split; [done|]. split; [done|]. intros i. rewrite Hv. by destruct (l2 paddr).
Qed.
(** *** Retirement *)

Definition dueb (f : t) (line : CacheLine.t) : bool :=
  ACC_ENTRY_RETIRE_THRESHOLD (cfg f) <? u64 (now - CacheLine.timeOfLastUpdate line).
Definition due (f : t) : list Z :=
  (filter (fun x => dueb f x.2 = true) (iter (cacheLineAccumulator f))).*1.

(** The prediction for the line at [a], if it is dirty and mapped. *)
Definition retired (f : t) (a : Z) : option CWE.t :=
  paddr ← PageTable.translate pt a;
  line ← cacheLineAccumulator f !! a;
  if CacheLine.is_dirty line
  then Some (free_entry (freeHash (cfg f)) a (cached_line paddr) line) else None.

Definition cleaned (f : t) (keys : list Z) (m : gmap Z CacheLine.t) : Prop :=
  forall a, m !! a = if bool_decide (a ∈ keys /\ is_Some (PageTable.translate pt a))
                     then CacheLine.set_clean <$> cacheLineAccumulator f !! a
                     else cacheLineAccumulator f !! a.

Lemma retireQueue_ok f :
  acc_ok f -> retireQueue now f = Ok (due f).
Proof.
  intros Hf. unfold retireQueue, due.
  assert (forall l q, (forall x, x ∈ l -> cacheLineAccumulator f !! x.1 = Some x.2) ->
    for_each l (fun '(a, line) q =>
       u ← CacheLine.get_time_of_last_update line;
       Ok (if ACC_ENTRY_RETIRE_THRESHOLD (cfg f) <? u64 (now - u) then q ++ [a] else q)) q =
    Ok (q ++ (filter (fun x => dueb f x.2 = true) l).*1)) as H.
  { induction l as [|[a line] l IH]; intros q Hl; cbn [for_each]; [by rewrite app_nil_r|].
    pose proof (ao_lines f Hf a line (Hl (a, line) ltac:(set_solver))) as Hline.
    unfold CacheLine.get_time_of_last_update. rewrite (lo_update _ _ _ Hline).
    cbn [panic_if_not negb panic_if mbind res_bind]. rewrite filter_cons. cbn [snd].
    rewrite IH by set_solver. fold (dueb f line).
    destruct (dueb f line); cbn; [by rewrite <- app_assoc|done]. }
  rewrite H; [done|]. intros [a line] Hin. by apply elem_of_iter in Hin.
Qed.

Lemma set_clean_clean line : CacheLine.is_dirty line = false -> CacheLine.set_clean line = line.
Proof. destruct line. cbn. by intros ->. Qed.

Lemma retire_loop keys f sent :
  acc_ok f -> NoDup keys -> Forall (fun a => is_Some (cacheLineAccumulator f !! a)) keys ->
  exists m, for_each keys (retire_step pt l2 fresh now) (f, sent) =
      Ok (with_acc m f, sent ++ omap (retired f) keys) /\ cleaned f keys m.
Proof using l2_words fresh_words.
  clear isCounterCacheHit isVerificationCacheHit.
  induction keys as [|a keys IH] using rev_ind; intros Hf Hnd Hin.
  { exists (cacheLineAccumulator f). cbn. rewrite app_nil_r. split; [by destruct f|].
    intros a. by rewrite bool_decide_false by (intros [H _]; by apply not_elem_of_nil in H). }
  apply Forall_app in Hin as [Hin Ha]. apply Forall_cons in Ha as [[line Ha] _].
  apply NoDup_app in Hnd as (Hnd & Hfresh & _).
  destruct (IH Hf Hnd Hin) as (m & E & Hm).
  assert (m !! a = Some line) as Hma.
  { rewrite Hm, bool_decide_false, Ha; [done|]. intros [H _]. apply (Hfresh a H). set_solver. }
  pose proof (ao_lines f Hf a line Ha) as Hline.
  assert (forall m', (forall b, m' !! b = if decide (b = a) then (if bool_decide (is_Some
      (PageTable.translate pt a)) then Some (CacheLine.set_clean line) else Some line) else m !! b) ->
    cleaned f (keys ++ [a]) m') as Hclean.
  { intros m' Hm' b. rewrite Hm'. case_decide as Hb.
    - subst b. rewrite Ha. repeat case_bool_decide; try done; set_solver.
    - rewrite Hm. assert (b ∈ keys ++ [a] <-> b ∈ keys) as Heq by set_solver.
      repeat case_bool_decide; try done; set_solver. }
  assert (omap (retired f) [a] = from_option (fun e => [e]) [] (retired f a)) as Eo
    by (cbn; by destruct (retired f a)).
  rewrite for_each_app, E, omap_app, Eo. cbn [mbind res_bind for_each retire_step].
  assert (retired f a = paddr ← PageTable.translate pt a; if CacheLine.is_dirty line
    then Some (free_entry (freeHash (cfg f)) a (cached_line paddr) line) else None) as ->
    by (unfold retired; by rewrite Ha).
  destruct (PageTable.translate pt a) as [paddr|] eqn:Et; cbn [mbind option_bind res_bind].
  - cbn [cacheLineAccumulator with_acc]. rewrite Hma. cbn [default from_option id].
    destruct (CacheLine.is_dirty line) eqn:Ed.
    + destruct (cached_line_ok paddr) as (Ec & Hw & _). rewrite Ec. cbn [mbind res_bind].
      rewrite freePrediction_ok by (done || apply Hline). cbn [mbind res_bind].
      eexists. rewrite app_assoc. split; [reflexivity|]. apply Hclean. intros b.
      case_decide as Hb; [subst; by rewrite lookup_insert_eq|by rewrite lookup_insert_ne].
    + exists (<[a := line]> m). rewrite app_nil_r. split; [done|]. apply Hclean. intros b.
      rewrite set_clean_clean by done.
      case_decide as Hb; [subst; by rewrite lookup_insert_eq|by rewrite lookup_insert_ne].
  - exists m. rewrite app_nil_r. split; [done|]. apply Hclean. intros b.
    case_decide as Hb; [by subst|done].
Qed.
Notation add_write := (Backend.addCompletedWrite pt isCounterCacheHit isVerificationCacheHit now).

(** The backend accepts any sequence of well-formed predictions. *)
Lemma add_all_ok entries b :
  Backend.wf b -> Forall (fun e => CWE.wf e /\ Backend.pcs_known e) entries ->
  exists b', for_each entries add_write b = Ok b' /\ Backend.wf b' /\
    Backend.usePredictor b' = Backend.usePredictor b /\
    Backend.predictorEnabled b' = Backend.predictorEnabled b /\
    Backend.cfg b' = Backend.cfg b /\ Backend.stats b' = Backend.stats b.
Proof.
  intros Hb He.
  apply (for_each_total (fun b' => Backend.wf b' /\
    Backend.usePredictor b' = Backend.usePredictor b /\
    Backend.predictorEnabled b' = Backend.predictorEnabled b /\ Backend.cfg b' = Backend.cfg b /\
    Backend.stats b' = Backend.stats b)).
  - done.
  - intros e b1 Hin (Hb1 & Hu & Hen & Hc & Hst). rewrite Forall_forall in He.
    destruct (He e Hin) as [Hw Hp].
    destruct (Backend.addCompletedWrite_ok pt isCounterCacheHit isVerificationCacheHit now e b1
      Hb1 Hw Hp) as (b2 & E & Hb2 & Hc2 & Hst2 & Hu2 & Hen2 & _).
    exists b2. split; [done|]. split; [done|]. by rewrite Hu2, Hen2, Hc2, Hst2.
Qed.

Definition counted (n : nat) (st : Stats.t) : Stats.t :=
  Nat.iter n (fun st => Stats.incr "predictedWriteCount" (Stats.incr "freePredictions" st)) st.

Lemma with_backend_stats b b1 g h k f :
  g (h (stats f)) = k (stats f) ->
  with_backend b (with_stats g (with_backend b1 (with_stats h f))) =
    with_backend b (with_stats k f).
Proof. intros H. unfold with_stats at 1 3. cbn. by rewrite H. Qed.

Lemma send_all_ok entries f b :
  for_each entries add_write (backend f) = Ok b ->
  for_each entries (fun e f =>
      sendToBackend pt isCounterCacheHit isVerificationCacheHit now e
        (with_stats (fun st => Stats.incr "predictedWriteCount"
                                 (Stats.incr "freePredictions" st)) f)) f =
    Ok (with_backend b (with_stats (counted (length entries)) f)).
Proof.
  revert f. induction entries as [|e l IH]; intros f E.
  - cbn in *. injection E as <-. by destruct f.
  - cbn [for_each length] in *. apply bind_ok in E as (b1 & E1 & E2).
    unfold sendToBackend. cbn [backend with_stats]. rewrite E1. cbn [mbind res_bind].
    etrans; [apply IH; exact E2|]. f_equal. apply with_backend_stats.
    symmetry. apply (Nat.iter_succ_r (length l) _ (fun st =>
      Stats.incr "predictedWriteCount" (Stats.incr "freePredictions" st))).
Qed.

Lemma cleaned_lookup f keys m a line' :
  cleaned f keys m -> m !! a = Some line' ->
  exists line, cacheLineAccumulator f !! a = Some line /\
    (line' = line \/ line' = CacheLine.set_clean line).
Proof.
  intros Hm Ha. rewrite Hm in Ha. destruct (cacheLineAccumulator f !! a) as [line|];
    case_bool_decide; try done; exists line; naive_solver.
Qed.

Lemma cleaned_size f keys m : cleaned f keys m -> size m = size (cacheLineAccumulator f).
Proof.
  intros Hm. rewrite <- !size_dom. f_equal. apply set_eq. intros a.
  rewrite !elem_of_dom, Hm. case_bool_decide; [|done].
  by rewrite fmap_is_Some.
Qed.

Lemma line_ok_dirt f a line d : line_ok f a line -> line_ok f a (CacheLine.set_dirtiness d line).
Proof. intros []. by split. Qed.

Lemma due_present f :
  NoDup (due f) /\ Forall (fun a => is_Some (cacheLineAccumulator f !! a)) (due f).
Proof.
  unfold due. split.
  - eapply sublist_NoDup; [apply (NoDup_iter_fst (cacheLineAccumulator f))|].
    apply fmap_sublist, sublist_filter.
  - apply Forall_forall. intros a Ha. apply list_elem_of_fmap in Ha as ([a' line] & -> & H).
    apply list_elem_of_filter in H as [_ H]. apply elem_of_iter in H. eauto.
Qed.

Lemma retired_ok f :
  acc_ok f -> Forall (fun e => CWE.wf e /\ Backend.pcs_known e) (omap (retired f) (due f)).
Proof.
  intros Hf. apply Forall_forall. intros e He. apply list_elem_of_omap in He as (a & _ & Ha).
  unfold retired in Ha. destruct (PageTable.translate pt a) as [paddr|]; [|done]. cbn in Ha.
  destruct (cacheLineAccumulator f !! a) as [line|] eqn:El; [|done]. cbn in Ha.
  destruct (CacheLine.is_dirty line); [|done]. injection Ha as <-.
  apply free_entry_ok; [apply cached_line_ok|apply (ao_lines f Hf a line El)].
Qed.
Notation retire_tick :=
  (cachelineAccumulatorRetireTick pt isCounterCacheHit isVerificationCacheHit l2 fresh now).

(** The period of the retirement has passed. *)
Definition retire_due (f : t) : bool :=
  negb (disableFreePrediction (cfg f)) &&
  (ACC_RETIRE_TICK_PERIOD (cfg f) <? u64 (now - lastAccumulatorRetireTick f)).

Lemma retire_ok f :
  acc_ok f -> exists f', retire_tick f = Ok f' /\ acc_ok f' /\
    if retire_due f then
      exists m b, f' = with_backend b (with_stats (counted (length (omap (retired f) (due f))))
                       (with_acc m (with_retireTick now f))) /\
        cleaned f (due f) m /\
        for_each (omap (retired f) (due f)) add_write (backend f) = Ok b /\
        Backend.usePredictor b = Backend.usePredictor (backend f) /\
        Backend.predictorEnabled b = Backend.predictorEnabled (backend f) /\
        Backend.cfg b = Backend.cfg (backend f) /\ Backend.stats b = Backend.stats (backend f)
    else f' = f.
Proof.
  intros Hf. unfold cachelineAccumulatorRetireTick, retire_due.
  destruct (disableFreePrediction (cfg f)); [by exists f|]. cbn [negb andb].
  destruct (ACC_RETIRE_TICK_PERIOD (cfg f) <? _); [|by exists f].
  set (f1 := with_retireTick now f).
  assert (acc_ok f1) as Hf1 by (by apply (acc_ok_frame f)).
  rewrite retireQueue_ok by done. cbn [mbind res_bind].
  destruct (due_present f1) as [Hnd Hin].
  destruct (retire_loop (due f1) f1 [] Hf1 Hnd Hin) as (m & -> & Hm). cbn [mbind res_bind app].
  destruct (add_all_ok (omap (retired f) (due f)) (backend f)) as (b & Eb & Hb & Hu & Hen & Hc & Hst);
    [apply Hf|by apply retired_ok|].
  rewrite (send_all_ok _ (with_acc m f1) b) by exact Eb.
  eexists. split; [reflexivity|]. split; [|exists m, b; done].
  split; cbn [cacheLineAccumulator with_backend with_stats with_acc f1 with_retireTick cfg backend].
  - intros a line' Ha. destruct (cleaned_lookup _ _ _ _ _ Hm Ha) as (line & Hl & Hor).
    pose proof (ao_lines f Hf a line Hl) as Hlo. destruct Hor as [->| ->]; [by destruct Hlo|].
    by destruct (line_ok_dirt f a line false Hlo).
  - rewrite (cleaned_size _ _ _ Hm). apply Hf.
  - apply Hf.
  - done.
Qed.
Lemma counted_get n st :
  Stats.get "freePredictions" (counted n st) = Stats.get "freePredictions" st + Z.of_nat n.
Proof.
  induction n as [|n IH]; [cbn; lia|]. unfold counted in *. rewrite Nat.iter_succ.
  stats_simpl. rewrite IH. lia.
Qed.

(** A line that the retirement sends: old, dirty and mapped. *)
Definition sends (f : t) (a : Z) (line : CacheLine.t) (paddr : Z) : Prop :=
  cacheLineAccumulator f !! a = Some line /\ dueb f line = true /\
  CacheLine.is_dirty line = true /\ PageTable.translate pt a = Some paddr.

Lemma elem_of_due f a :
  a ∈ due f <-> exists line, cacheLineAccumulator f !! a = Some line /\ dueb f line = true.
Proof.
  unfold due. rewrite list_elem_of_fmap. split.
  - intros ([b line] & -> & H). apply list_elem_of_filter in H as [Hd H].
    apply elem_of_iter in H. eauto.
  - intros (line & Ha & Hd). exists (a, line). split; [done|].
    apply list_elem_of_filter. split; [done|]. by apply elem_of_iter.
Qed.

Lemma elem_of_retired f e :
  e ∈ omap (retired f) (due f) <-> exists a line paddr, sends f a line paddr /\
    e = free_entry (freeHash (cfg f)) a (cached_line paddr) line.
Proof.
  rewrite list_elem_of_omap. unfold sends, retired. split.
  - intros (a & Ha & He). apply elem_of_due in Ha as (line & Ha & Hd).
    destruct (PageTable.translate pt a) as [paddr|] eqn:Et; [|done]. cbn in He.
    rewrite Ha in He. cbn in He. destruct (CacheLine.is_dirty line) eqn:Ed; [|done].
    injection He as <-. by exists a, line, paddr.
  - intros (a & line & paddr & (Ha & Hd & Hdirty & Ht) & ->). exists a.
    split; [apply elem_of_due; eauto|]. rewrite Ht. cbn. rewrite Ha. cbn. by rewrite Hdirty.
Qed.

(** When its period has passed, the retirement sends exactly
    the lines that are dirty, mapped and whose last store is older than the
    threshold.  Each prediction is for the line's address and consists of the
    cached words overlaid with the accumulated ones; the backend receives
    them one by one, they are counted as free predictions, and the lines sent
    are clean afterwards. *)
Theorem retire_spec f :
  acc_ok f -> retire_due f = true ->
  exists f' entries, retire_tick f = Ok f' /\ acc_ok f' /\
    (forall e, e ∈ entries -> exists a line paddr, sends f a line paddr /\ CWE.addr e = a /\
       forall i, CacheLine.view (CacheLine.dataChunks (CWE.cacheline e)) i =
         match CacheLine.view (CacheLine.dataChunks line) i with
         | Some d => Some d
         | None => u32 <$> cached paddr !! i
         end) /\
    (forall a line paddr, sends f a line paddr ->
       (exists e, e ∈ entries /\ CWE.addr e = a) /\
       exists line', cacheLineAccumulator f' !! a = Some line' /\
         CacheLine.is_dirty line' = false) /\
    for_each entries add_write (backend f) = Ok (backend f') /\
    Stats.get "freePredictions" (stats f') =
      Stats.get "freePredictions" (stats f) + Z.of_nat (length entries).
Proof.
  intros Hf Hd. destruct (retire_ok f Hf) as (f' & E & Hf' & H). rewrite Hd in H.
  destruct H as (m & b & -> & Hm & Hb & _).
  eexists _, (omap (retired f) (due f)). split; [exact E|]. split; [done|].
  split; [|split; [|split; [exact Hb|apply counted_get]]].
  - intros e He. apply elem_of_retired in He as (a & line & paddr & Hs & ->).
    exists a, line, paddr. split; [done|]. split; [done|]. intros i.
    destruct (cached_line_ok paddr) as (_ & Hw & Hv). destruct Hs as (Ha & _).
    pose proof (lo_wf _ _ _ (ao_lines f Hf a line Ha)) as Hl.
    destruct (free_line_ok (cached_line paddr) line Hw Hl) as (_ & _ & Hview).
    etrans; [apply Hview|]. by rewrite Hv.
  - intros a line paddr Hs. split.
    + exists (free_entry (freeHash (cfg f)) a (cached_line paddr) line).
      split; [apply elem_of_retired; by exists a, line, paddr|done].
    + destruct Hs as (Ha & Hdue & Hdirty & Ht). exists (CacheLine.set_clean line). split; [|done].
      cbn. rewrite Hm, bool_decide_true, Ha; [done|]. split; [apply elem_of_due|]; eauto.
Qed.

(** *** Eviction *)

Variable blkObject : Z -> option (list Z).
Hypothesis blk_words : forall a d, blkObject a = Some d -> length d = DATA_CHUNK_COUNT.

Lemma oldest_scan f l t0 a0 :
  (forall x, x ∈ l -> cacheLineAccumulator f !! x.1 = Some x.2) ->
  exists t a, for_each l (fun '(a, _) '(oldestTimeOfGen, addrOfOldest) =>
         line ← at_ (cacheLineAccumulator f !! a);
         let toc := CacheLine.get_time_of_creation line in
         Ok (if toc <? oldestTimeOfGen then (toc, a) else (oldestTimeOfGen, addrOfOldest)))
      (t0, a0) = Ok (t, a) /\ t <= t0 /\
    (forall x, x ∈ l -> t <= CacheLine.timeOfCreation x.2) /\
    ((t, a) = (t0, a0) \/
     exists line, (a, line) ∈ l /\ t = CacheLine.timeOfCreation line).
Proof.
  revert t0 a0. induction l as [|[b line] l IH]; intros t0 a0 Hl.
  { exists t0, a0. cbn. split; [done|]. split; [lia|].
    split; [intros x Hx; by apply not_elem_of_nil in Hx|by left]. }
  pose proof (Hl (b, line) ltac:(set_solver)) as Hb. cbn [fst snd] in Hb.
  cbn [for_each]. rewrite Hb. cbn [at_ mbind res_bind].
  unfold CacheLine.get_time_of_creation.
  destruct (Z.ltb_spec (CacheLine.timeOfCreation line) t0).
  - destruct (IH (CacheLine.timeOfCreation line) b) as (t & a & E & Ht & Hmin & Hor);
      [set_solver|]. exists t, a. split; [exact E|]. split; [lia|]. split.
    + intros x Hx. apply elem_of_cons in Hx as [->|Hx]; [cbn; lia|by apply Hmin].
    + right. destruct Hor as [[= -> ->]|(l' & Hl' & ->)]; [exists line|exists l']; set_solver.
  - destruct (IH t0 a0) as (t & a & E & Ht & Hmin & Hor); [set_solver|].
    exists t, a. split; [exact E|]. split; [lia|]. split.
    + intros x Hx. apply elem_of_cons in Hx as [->|Hx]; [cbn; lia|by apply Hmin].
    + destruct Hor as [->|(l' & Hl' & ->)]; [by left|right; exists l'; set_solver].
Qed.

(** The line chosen when there are too many: one that was created first. *)
Lemma oldest_line_ok f :
  (forall a line, cacheLineAccumulator f !! a = Some line ->
     CacheLine.timeOfCreation line < UINT64_MAX) -> 0 <= CL_ACC_SIZE (cfg f) ->
  if CL_ACC_SIZE (cfg f) <? Z.of_nat (size (cacheLineAccumulator f)) then
    exists a line, oldest_line f = Ok (CacheLine.timeOfCreation line, a) /\
      cacheLineAccumulator f !! a = Some line /\
      forall b l, cacheLineAccumulator f !! b = Some l ->
        CacheLine.timeOfCreation line <= CacheLine.timeOfCreation l
  else oldest_line f = Ok (UINT64_MAX, UINT64_MAX).
Proof.
  intros Hlt Hpos. unfold oldest_line.
  destruct (Z.ltb_spec (CL_ACC_SIZE (cfg f)) (Z.of_nat (size (cacheLineAccumulator f)))) as [H|H];
    [|done].
  destruct (oldest_scan f (iter (cacheLineAccumulator f)) UINT64_MAX UINT64_MAX)
    as (t & a & E & _ & Hmin & Hor).
  { intros [b l] Hin. by apply elem_of_iter in Hin. }
  destruct Hor as [[= -> ->]|(line & Hin & ->)].
  - exfalso. assert (cacheLineAccumulator f <> ∅) as Hne.
    { intros He. rewrite He, map_size_empty in H. lia. }
    apply map_choose in Hne as (b & l & Hb). specialize (Hlt b l Hb).
    assert ((b, l) ∈ iter (cacheLineAccumulator f)) as Hbl by (by apply elem_of_iter).
    specialize (Hmin _ Hbl). cbn in Hmin. lia.
  - apply elem_of_iter in Hin. exists a, line. split; [exact E|]. split; [done|].
    intros b l Hb. apply (Hmin (b, l)). by apply elem_of_iter.
Qed.

Lemma chunk_index_align a : chunk_index (cacheline_align a) = 0%nat.
Proof.
  unfold chunk_index. rewrite get_cacheline_off_spec, cacheline_align_spec.
  unfold SIZEOF_DATACHUNK. by rewrite Z.mod_mul.
Qed.

Lemma send_line_ok f a line :
  Backend.wf (backend f) -> line_ok f a line ->
  exists b, SendCacheLineToBackend pt isCounterCacheHit isVerificationCacheHit blkObject now line f =
      Ok (with_backend b f) /\ Backend.wf b /\
    Backend.usePredictor b = Backend.usePredictor (backend f) /\
    Backend.predictorEnabled b = Backend.predictorEnabled (backend f) /\
    Backend.cfg b = Backend.cfg (backend f) /\ Backend.stats b = Backend.stats (backend f).
Proof.
  intros Hb Hl. unfold SendCacheLineToBackend, CacheLine.get_addr. rewrite (lo_addr _ _ _ Hl).
  cbn [assert_that mbind res_bind]. assert (with_backend (backend f) f = f) as Ef by (by destruct f).
  destruct (PageTable.translate pt (CacheLine.addr line)) as [paddr|];
    [|exists (backend f); by rewrite Ef].
  destruct (blkObject paddr) as [data|] eqn:Ed; [|exists (backend f); by rewrite Ef].
  destruct (CacheLine.of_chunks_full now (cacheline_align (CacheLine.addr line)) data true)
    as (cl & -> & Hcl & _); [by eapply blk_words|intros _; apply chunk_index_align|].
  cbn [mbind res_bind]. rewrite freePrediction_ok by (done || apply Hl). cbn [mbind res_bind].
  unfold sendToBackend.
  destruct (free_entry_ok (freeHash (cfg f)) (CacheLine.addr line) cl line) as [Hw Hp];
    [done|apply Hl|].
  destruct (Backend.addCompletedWrite_ok pt isCounterCacheHit isVerificationCacheHit now _ _
    Hb Hw Hp) as (b & -> & Hb' & Hc & Hst & Hu & Hen & _).
  by exists b.
Qed.
(** *** A store enters the accumulator *)

Definition touched (v : Z) (f : t) : CacheLine.t :=
  match cacheLineAccumulator f !! cacheline_align v with
  | Some line => CacheLine.set_dirty line
  | None => CacheLine.set_time_of_last_update now (CacheLine.set_time_of_creation now
              (CacheLine.set_addr v (CacheLine.set_dirty (CacheLine.new now))))
  end.

(** All lines are older than the current tick. *)
Definition older (f : t) : Prop :=
  now < UINT64_MAX /\
  forall a line, cacheLineAccumulator f !! a = Some line -> CacheLine.timeOfCreation line < now.

(** The accumulator is full of lines of the current tick: a new line may then evict
    itself. *)
Definition crowded (v : Z) (f : t) : Prop :=
  cacheLineAccumulator f !! cacheline_align v = None /\
  Z.of_nat (size (cacheLineAccumulator f)) = CL_ACC_SIZE (cfg f) /\
  forall a line, cacheLineAccumulator f !! a = Some line -> now <= CacheLine.timeOfCreation line.

Lemma older_not_crowded v f : 1 <= CL_ACC_SIZE (cfg f) -> older f -> ~ crowded v f.
Proof.
  intros Hpos [_ Ho] (_ & Hs & Hc). assert (cacheLineAccumulator f <> ∅) as Hne.
  { intros He. rewrite He, map_size_empty in Hs. lia. }
  apply map_choose in Hne as (b & l & Hb). specialize (Ho b l Hb). specialize (Hc b l Hb). lia.
Qed.

Lemma touched_ok v f :
  acc_ok f -> is_Some (lastWriteTickToAddr f !! cacheline_align v) -> now < UINT64_MAX ->
  line_ok f (cacheline_align v) (touched v f).
Proof.
  intros Hf Hk Hn. unfold touched.
  destruct (cacheLineAccumulator f !! cacheline_align v) as [line|] eqn:E.
  - by apply line_ok_dirt, (ao_lines f Hf).
  - split; try done. apply (CacheLine.line_new_wf now).
Qed.

Lemma cacheline_align_max a : cacheline_align a <> UINT64_MAX.
Proof. rewrite cacheline_align_spec. unfold UINT64_MAX. Z.div_mod_to_equations; lia. Qed.

(** What a handler of the accumulator leaves alone. *)
Record same_rest (f f' : t) : Prop := {
  sr_cfg : cfg f' = cfg f;
  sr_predictor : predictorTable f' = predictorTable f;
  sr_pending : pendingTable f' = pendingTable f;
  sr_parents : parents f' = parents f;
  sr_next : nextParent f' = nextParent f;
  sr_whb : writeHistoryBuffer f' = writeHistoryBuffer f;
  sr_stride : addrPredictor f' = addrPredictor f;
  sr_shared : shared f' = shared f;
  sr_use : Backend.usePredictor (backend f') = Backend.usePredictor (backend f);
  sr_enabled : Backend.predictorEnabled (backend f') = Backend.predictorEnabled (backend f);
  sr_backend_cfg : Backend.cfg (backend f') = Backend.cfg (backend f);
  sr_backend_stats : Backend.stats (backend f') = Backend.stats (backend f);
  sr_known : forall a, is_Some (lastWriteTickToAddr f !! a) -> is_Some (lastWriteTickToAddr f' !! a)
}.

Lemma same_rest_trans f1 f2 f3 : same_rest f1 f2 -> same_rest f2 f3 -> same_rest f1 f3.
Proof. intros [] []. split; try congruence. auto. Qed.

Notation manage := (manageCachelineAcc pt isCounterCacheHit isVerificationCacheHit blkObject now).

Lemma evict_ok pkt v a line f :
  Packet.vaddr pkt = Some v -> cacheLineAccumulator f !! a = Some line -> line_ok f a line ->
  Backend.wf (backend f) ->
  exists f', evict_line pt isCounterCacheHit isVerificationCacheHit blkObject now pkt a f = Ok f' /\
    same_rest f f' /\ Backend.wf (backend f') /\
    cacheLineAccumulator f' = delete a (cacheLineAccumulator f).
Proof.
  intros Hv Ha Hl Hb. unfold evict_line. cbn [with_stats lastWriteTickToAddr].
  rewrite bool_decide_true by apply Hl. cbn [panic_if_not negb panic_if mbind res_bind].
  unfold Packet.getVaddr. rewrite Hv. cbn [Packet.valid mbind res_bind].
  assert ((a =? UINT64_MAX) = false) as ->.
  { apply Z.eqb_neq. rewrite <- (lo_key _ _ _ Hl). apply cacheline_align_max. }
  cbn [panic_if mbind res_bind]. set (f1 := with_stats _ (with_lastWrites _ _ _)).
  change (cacheLineAccumulator f1) with (cacheLineAccumulator f). rewrite Ha.
  cbn [default from_option id].
  assert (forall b, is_Some (lastWriteTickToAddr f !! b) -> is_Some (lastWriteTickToAddr f1 !! b)) as Hk.
  { intros b Hb'. cbn. destruct (decide (v = b)) as [->|]; [by rewrite lookup_insert_eq|].
    by rewrite lookup_insert_ne. }
  destruct (send_line_ok f1 a line) as (b & -> & Hwb & Hu & Hen & Hc & Hst); [done|by destruct Hl; split; auto|].
  eexists. split; [reflexivity|]. by split.
Qed.

Lemma touch_line_ok pkt v f :
  Packet.vaddr pkt = Some v ->
  touch_line now pkt f =
    Ok (with_acc (<[cacheline_align v := touched v f]> (cacheLineAccumulator f)) f).
Proof. intros Hv. unfold touch_line, Packet.getVaddr. by rewrite Hv. Qed.

Lemma map_size_insert_le (a : Z) (x : CacheLine.t) (m : gmap Z CacheLine.t) :
  (size (<[a := x]> m) <= S (size m))%nat.
Proof. rewrite map_size_insert. destruct (m !! a); cbn; lia. Qed.

(** The line just touched is evicted only when all others are as new. *)
Lemma evicts_itself v f line :
  acc_ok f -> let m := <[cacheline_align v := touched v f]> (cacheLineAccumulator f) in
  CL_ACC_SIZE (cfg f) < Z.of_nat (size m) -> m !! cacheline_align v = Some line ->
  (forall c l, m !! c = Some l -> CacheLine.timeOfCreation line <= CacheLine.timeOfCreation l) ->
  crowded v f.
Proof.
  intros Hf m Hlt Hb Hmin. unfold m in *. rewrite lookup_insert_eq in Hb. injection Hb as <-.
  pose proof (ao_size f Hf). rewrite map_size_insert in Hlt. unfold touched in Hmin.
  destruct (cacheLineAccumulator f !! cacheline_align v) as [l|] eqn:E; cbn in Hlt; [lia|].
  split; [done|]. split; [lia|]. intros c l Hc.
  assert (c <> cacheline_align v) as Hcv by (intros ->; congruence).
  apply (Hmin c l). by rewrite lookup_insert_ne.
Qed.

Lemma manage_ok pkt v f :
  acc_ok f -> Packet.vaddr pkt = Some v -> is_Some (lastWriteTickToAddr f !! cacheline_align v) ->
  now < UINT64_MAX -> exists f', manage pkt f = Ok f' /\ acc_ok f' /\ same_rest f f' /\
    (cacheLineAccumulator f' !! cacheline_align v = Some (touched v f) \/
     cacheLineAccumulator f' !! cacheline_align v = None /\ crowded v f) /\
    forall b, b <> cacheline_align v ->
      cacheLineAccumulator f' !! b = cacheLineAccumulator f !! b \/
      cacheLineAccumulator f' !! b = None.
Proof.
  intros Hf Hv Hk Hn. set (a := cacheline_align v) in *.
  pose proof (touched_ok v f Hf Hk Hn) as Ht. fold a in Ht.
  unfold manageCachelineAcc. rewrite (touch_line_ok pkt v f Hv). cbn [mbind res_bind]. fold a.
  set (f1 := with_acc (<[a := touched v f]> (cacheLineAccumulator f)) f).
  assert (forall b l, cacheLineAccumulator f1 !! b = Some l -> line_ok f b l) as Hl1.
  { intros b l. cbn. destruct (decide (a = b)) as [<-|].
    - rewrite lookup_insert_eq. by intros [= <-].
    - rewrite lookup_insert_ne by done. apply (ao_lines f Hf). }
  assert (same_rest f f1) as Hs1 by (by split).
  pose proof (oldest_line_ok f1) as Ho. specialize (Ho ltac:(intros b l Hb; apply (Hl1 b l Hb))).
  pose proof (ao_pos f Hf) as Hpos. specialize (Ho ltac:(cbn; lia)).
  pose proof (ao_size f Hf) as Hsize.
  destruct (Z.ltb_spec (CL_ACC_SIZE (cfg f1)) (Z.of_nat (size (cacheLineAccumulator f1)))) as [Hlt|Hle].
  - destruct Ho as (b & line & -> & Hb & Hmin). cbn [mbind res_bind].
    pose proof (Hl1 b line Hb) as Hlb.
    assert ((CacheLine.timeOfCreation line =? UINT64_MAX) = false) as ->
      by (apply Z.eqb_neq; pose proof (lo_created _ _ _ Hlb); lia).
    cbn [negb]. destruct (evict_ok pkt v b line f1 Hv Hb) as (f2 & -> & Hs2 & Hwb & Hacc);
      [by destruct Hlb|apply Hf|]. cbn [mbind res_bind andb panic_if].
    assert (Z.of_nat (size (delete b (cacheLineAccumulator f1))) <= CL_ACC_SIZE (cfg f)) as Hsz.
    { rewrite map_size_delete_Some by eauto. cbn.
      pose proof (map_size_insert_le a (touched v f) (cacheLineAccumulator f)). lia. }
    exists f2. split; [done|]. split; [|split; [by eapply same_rest_trans|split]].
    + split; rewrite ?Hacc, ?(sr_cfg _ _ Hs2); try done.
      intros c l Hc. apply lookup_delete_Some in Hc as [_ Hc].
      destruct (Hl1 c l Hc). split; try done. by apply Hs2.
    + rewrite Hacc. destruct (decide (b = a)) as [->|Hne].
      * right. split; [apply lookup_delete_eq|by eapply (evicts_itself v f line)].
      * left. rewrite lookup_delete_ne by done. cbn. apply lookup_insert_eq.
    + intros c Hc. rewrite Hacc. destruct (decide (b = c)) as [->|].
      * right. apply lookup_delete_eq.
      * left. rewrite lookup_delete_ne by done. cbn. by rewrite lookup_insert_ne.
  - rewrite Ho. cbn [mbind res_bind]. rewrite Z.eqb_refl. cbn [negb mbind res_bind andb].
    destruct (Z.ltb_spec (CL_ACC_SIZE (cfg f1)) (Z.of_nat (size (cacheLineAccumulator f1)))); [lia|].
    cbn [panic_if mbind res_bind]. exists f1. split; [done|]. split; [|split; [done|split]].
    + split; [|lia|done|apply Hf]. intros b l Hb. by destruct (Hl1 b l Hb).
    + left. cbn. apply lookup_insert_eq.
    + intros b Hb. left. cbn. by rewrite lookup_insert_ne.
Qed.
(** The store's words over the words of a line. *)
Definition stored_view (v : Z) (data : list Z) (n : nat) (old : nat -> option Z) (i : nat)
    : option Z :=
  if decide (chunk_index v <= i < chunk_index v + n)%nat
  then u32 <$> data !! (i - chunk_index v)%nat else old i.

Lemma accumulate_word_ok a pc data off i f line d :
  cacheLineAccumulator f !! a = Some line -> line_ok f a line ->
  (off + i < DATA_CHUNK_COUNT)%nat -> data !! i = Some d ->
  exists line', accumulate_word now a pc data off i f =
      Ok (with_acc (<[a := line']> (cacheLineAccumulator f)) f) /\ line_ok f a line' /\
    CacheLine.timeOfCreation line' = CacheLine.timeOfCreation line /\
    forall j, CacheLine.view (CacheLine.dataChunks line') j =
      if decide (j = off + i)%nat then Some (u32 d)
      else CacheLine.view (CacheLine.dataChunks line) j.
Proof.
  intros Ha Hl Hi Hd. unfold accumulate_word. rewrite bool_decide_true by done.
  cbn [assert_that mbind res_bind]. rewrite Ha, Hd. cbn [at_ deref mbind res_bind].
  destruct (CacheLine.wf_lookup _ _ (lo_wf _ _ _ Hl) Hi) as (c & Ec & Lc).
  destruct (set_data d (set_chunk_type DATA c)) as [c1|] eqn:E1; [|by rewrite set_data_ok in E1].
  assert (line_chunk c1 /\ validb c1 = true /\ datum c1 = u32 d) as (L1 & V1 & D1).
  { split; [by eapply set_data_line|]. rewrite set_data_ok in E1 by done.
    injection E1 as <-. split; [done|apply content_low]. }
  destruct (WHB.set_generating_pc_line pc c1 L1) as (L2 & V2 & D2).
  rewrite (modify_ok _ _ _ _ (set_completion true (set_generating_pc pc c1)) Ec)
    by (by rewrite E1).
  eexists. split; [reflexivity|]. destruct Hl as [[Hlen Hall] Hl2 Hl3 Hl4 Hl5 Hl6].
  split; [|split; [done|]].
  - split; try done. split; cbn; [by rewrite length_insert|]. apply Forall_insert; [done|].
    destruct L2 as [L2|L2]; [by left|by right].
  - intros j. unfold CacheLine.view. cbn. case_decide as Hj.
    + subst. rewrite list_lookup_insert_eq by (by eapply lookup_lt_Some).
      change (validb (set_completion true (set_generating_pc pc c1)))
        with (validb (set_generating_pc pc c1)).
      change (datum (set_completion true (set_generating_pc pc c1)))
        with (datum (set_generating_pc pc c1)). by rewrite V2, V1, D2, D1.
    + by rewrite list_lookup_insert_ne by done.
Qed.

Lemma with_acc_with_acc m m' f : with_acc m (with_acc m' f) = with_acc m f.
Proof. done. Qed.

Lemma accumulate_loop v pc data n f line :
  let a := cacheline_align v in
  cacheLineAccumulator f !! a = Some line -> line_ok f a line ->
  (chunk_index v + n <= DATA_CHUNK_COUNT)%nat -> (n <= length data)%nat ->
  exists line', for_each (seq 0 n) (accumulate_word now a pc data (chunk_index v)) f =
      Ok (with_acc (<[a := line']> (cacheLineAccumulator f)) f) /\ line_ok f a line' /\
    CacheLine.timeOfCreation line' = CacheLine.timeOfCreation line /\
    forall j, CacheLine.view (CacheLine.dataChunks line') j =
      stored_view v data n (CacheLine.view (CacheLine.dataChunks line)) j.
Proof.
  intros a Ha Hl Hfit Hn. unfold stored_view. induction n as [|n IH].
  { exists line. cbn. rewrite insert_id by done. split; [by destruct f|].
    split; [done|]. split; [done|]. intros j. by rewrite decide_False by lia. }
  destruct IH as (l1 & E1 & Hl1 & Ht1 & Hv1); [lia|lia|].
  destruct (lookup_lt_is_Some_2 data n) as [d Hd]; [lia|].
  set (f1 := with_acc (<[a := l1]> (cacheLineAccumulator f)) f) in *.
  destruct (accumulate_word_ok a pc data (chunk_index v) n f1 l1 d) as (l2' & E2 & Hl2 & Ht2 & Hv2);
    [cbn; apply lookup_insert_eq|by destruct Hl1|lia|done|].
  exists l2'. rewrite seq_S, for_each_app, E1. cbn [mbind res_bind for_each Nat.add].
  rewrite E2. cbn [mbind res_bind]. unfold f1. rewrite with_acc_with_acc. cbn [cacheLineAccumulator
    with_acc]. rewrite insert_insert_eq. split; [done|]. split; [by destruct Hl2|].
  split; [congruence|]. intros j. rewrite Hv2, Hv1. case_decide as Hj.
  - subst. rewrite decide_True by lia.
    by replace (chunk_index v + n - chunk_index v)%nat with n by lia; rewrite Hd.
  - repeat case_decide; try done; lia.
Qed.
(** A store of [n] words that stays inside its cache line. *)
Record store_ok (pkt : Packet.t) (v pc : Z) (data : list Z) (n : nat) : Prop := {
  so_vaddr : Packet.vaddr pkt = Some v;
  so_pc : Packet.pc pkt = Some pc;
  so_hasData : Packet.hasData pkt = true;
  so_data : Packet.data pkt = Some data;
  so_size : Packet.size pkt / SIZEOF_DATACHUNK = Z.of_nat n;
  so_fits : (chunk_index v + n <= DATA_CHUNK_COUNT)%nat;
  so_words : (n <= length data)%nat
}.

Lemma retire_frame f :
  acc_ok f -> exists f', retire_tick f = Ok f' /\ acc_ok f' /\ same_rest f f' /\
    (older f -> older f') /\ (forall v, crowded v f' -> crowded v f) /\
    forall a, match cacheLineAccumulator f !! a with
              | Some line => exists line', cacheLineAccumulator f' !! a = Some line' /\
                  CacheLine.dataChunks line' = CacheLine.dataChunks line
              | None => cacheLineAccumulator f' !! a = None
              end.
Proof.
  intros Hf. destruct (retire_ok f Hf) as (f' & E & Hf' & H). exists f'. split; [done|].
  split; [done|]. destruct (retire_due f).
  2:{ subst. split; [by split|]. split; [done|]. split; [done|]. intros a.
      destruct (cacheLineAccumulator f !! a); eauto. }
  destruct H as (m & b & -> & Hm & _ & Hu & Hen & Hc & Hst). split; [by split|].
  assert (forall a, cacheLineAccumulator f !! a = None <-> m !! a = None) as Hdom
    by (intros a; rewrite Hm; destruct (cacheLineAccumulator f !! a); case_bool_decide; done).
  split; [|split].
  - intros [Hn Ho]. split; [done|]. intros a line Ha.
    destruct (cleaned_lookup _ _ _ _ _ Hm Ha) as (l & Hl & [->| ->]); by apply (Ho a l).
  - intros v (C1 & C2 & C3). cbn in C1, C2, C3. split; [by apply Hdom|]. split.
    + rewrite <- C2, <- !size_dom. f_equal. f_equal. apply set_eq. intros a.
      rewrite !elem_of_dom, <- !not_eq_None_Some. by rewrite Hdom.
    + intros a line Ha. specialize (C3 a). rewrite Hm, Ha in C3.
      case_bool_decide; by apply (C3 _ eq_refl).
  - intros a. cbn. rewrite Hm. destruct (cacheLineAccumulator f !! a); case_bool_decide; eauto.
Qed.

Notation accumulate_store :=
  (accumulate pt isCounterCacheHit isVerificationCacheHit l2 blkObject fresh now).

Definition line_view (f : t) (a : Z) (i : nat) : option Z :=
  line ← cacheLineAccumulator f !! a; CacheLine.view (CacheLine.dataChunks line) i.

(** What a store leaves in the accumulator. *)
Record accumulated (v : Z) (data : list Z) (n : nat) (f f' : t) : Prop := {
  ac_own : forall i, line_view f' (cacheline_align v) i =
    stored_view v data n (line_view f (cacheline_align v)) i;
  ac_others : forall b i, b <> cacheline_align v ->
    cacheLineAccumulator f' !! b = None \/ line_view f' b i = line_view f b i;
  ac_size : Z.of_nat (size (cacheLineAccumulator f')) <= CL_ACC_SIZE (cfg f')
}.

(** The words of the store, once its line is there or was evicted at once. *)
Lemma accumulate_words v pc data n f line :
  let a := cacheline_align v in
  acc_ok f -> cacheLineAccumulator f !! a = Some line ->
  (chunk_index v + n <= DATA_CHUNK_COUNT)%nat -> (n <= length data)%nat ->
  exists f', for_each (seq 0 n) (accumulate_word now a pc data (chunk_index v)) f = Ok f' /\
    acc_ok f' /\ same_rest f f' /\
    (forall i, line_view f' a i = stored_view v data n (CacheLine.view (CacheLine.dataChunks line)) i) /\
    (forall b, b <> a -> cacheLineAccumulator f' !! b = cacheLineAccumulator f !! b) /\
    forall line', cacheLineAccumulator f' !! a = Some line' ->
      CacheLine.timeOfCreation line' = CacheLine.timeOfCreation line.
Proof.
  intros a Hf Ha Hfit Hn. pose proof (ao_lines f Hf _ _ Ha) as Hl.
  destruct (accumulate_loop v pc data n f line Ha Hl Hfit Hn) as (line' & E & Hline & Ht & Hview).
  fold a in E, Hline. eexists. split; [exact E|]. split; [|split; [by split|split; [|split]]].
  - destruct Hf as [H1 H2 H3 H4]. split; try done.
    + intros b l. cbn. destruct (decide (a = b)) as [<-|].
      * rewrite lookup_insert_eq. intros [= <-]. by destruct Hline.
      * rewrite lookup_insert_ne by done. intros Hb. by destruct (H1 b l Hb).
    + cbn. by rewrite map_size_insert_Some by eauto.
  - intros i. unfold line_view. cbn. rewrite lookup_insert_eq. apply Hview.
  - intros b Hb. cbn. by rewrite lookup_insert_ne.
  - intros l. cbn. rewrite lookup_insert_eq. by intros [= <-].
Qed.

Lemma accumulate_words_missing v pc data n f :
  let a := cacheline_align v in
  cacheLineAccumulator f !! a = None -> (chunk_index v + n <= DATA_CHUNK_COUNT)%nat ->
  for_each (seq 0 n) (accumulate_word now a pc data (chunk_index v)) f =
    if decide (n = 0%nat) then Ok f else Fail OutOfRange.
Proof.
  intros a Ha Hfit. destruct n as [|n]; [done|]. cbn [seq for_each].
  assert (accumulate_word now a pc data (chunk_index v) 0 f = Fail OutOfRange) as ->; [|done].
  unfold accumulate_word. rewrite bool_decide_true by lia. cbn [assert_that mbind res_bind]. by rewrite Ha.
Qed.

Lemma accumulate_cases pkt v pc data n f :
  acc_ok f -> store_ok pkt v pc data n ->
  is_Some (lastWriteTickToAddr f !! cacheline_align v) -> now < UINT64_MAX ->
  (exists f', accumulate_store pkt f = Ok f' /\ acc_ok f' /\ same_rest f f' /\ accumulated v data n f f' /\
    (older f -> forall b line, cacheLineAccumulator f' !! b = Some line ->
       CacheLine.timeOfCreation line <= now)) \/
  (accumulate_store pkt f = Fail OutOfRange /\ crowded v f).
Proof.
  intros Hf [Hv Hpc Hhd Hd Hsz Hfit Hn] Hk Hnow. set (a := cacheline_align v) in *.
  unfold accumulate, Packet.getVaddr. rewrite Hv. cbn [Packet.valid mbind res_bind]. fold a.
  set (f0 := if lastAlignedPMAddr _ =? a then _ else _).
  assert (acc_ok f0) as Hf0 by (unfold f0; case_match; by apply (acc_ok_frame f)).
  assert (same_rest f f0 /\ (older f -> older f0) /\ (crowded v f0 -> crowded v f) /\
    cacheLineAccumulator f0 = cacheLineAccumulator f) as (Hs0 & Ho0 & Hc0 & Ha0)
    by (unfold f0; case_match; (split; [by split|done])).
  destruct (retire_frame f0 Hf0) as (f1 & -> & Hf1 & Hs1 & Ho1 & Hc1 & Ha1). cbn [mbind res_bind].
  destruct (manage_ok pkt v f1 Hf1 Hv) as (f2 & -> & Hf2 & Hs2 & Ha2 & Hb2);
    [by apply Hs1, Hs0|done|]. cbn [mbind res_bind].
  unfold Packet.hasVaddr, Packet.getPC, Packet.getPtr. rewrite Hv, Hpc, Hhd, Hd, Hsz, Nat2Z.id.
  rewrite bool_decide_true by eauto. cbn [assert_that Packet.valid mbind res_bind]. fold a in Ha2, Hb2.
  assert (same_rest f f2) as Hs by (do 2 (eapply same_rest_trans; [done|]); done).
  assert (forall b i, b <> a -> cacheLineAccumulator f2 !! b = None \/ line_view f2 b i = line_view f b i) as Hoth.
  { intros b i Hb. unfold line_view. specialize (Ha1 b). rewrite Ha0 in Ha1.
    destruct (Hb2 b Hb) as [->|]; [|by left]. destruct (cacheLineAccumulator f !! b) as [l|]; [|by left].
    destruct Ha1 as (l' & -> & Hcs). right. cbn. by rewrite Hcs. }
  specialize (Ha1 a). rewrite Ha0 in Ha1. destruct Ha2 as [Ha2|[Ha2 Hcr]].
  - left. destruct (accumulate_words v pc data n f2 _ Hf2 Ha2 Hfit Hn)
      as (f3 & E3 & Hf3 & Hs3 & Hown & Hrest & Htime). fold a in E3, Hown, Hrest, Htime. rewrite E3.
    exists f3. split; [done|]. split; [done|]. split; [by eapply same_rest_trans|]. split; [split|].
    + fold a. intros i. rewrite Hown. unfold stored_view. case_decide; [done|].
      unfold line_view, touched. fold a. destruct (cacheLineAccumulator f !! a) as [l|].
      * destruct Ha1 as (l' & -> & Hcs). cbn. by rewrite Hcs.
      * rewrite Ha1. apply (CacheLine.new_view now).
    + intros b i Hb. unfold line_view at 1. rewrite Hrest by done. by apply Hoth.
    + apply Hf3.
    + intros [_ Hlt]%Ho0%Ho1 b l Hb. destruct (decide (b = a)) as [->|Hne].
      * rewrite (Htime l Hb). unfold touched. fold a.
        destruct (cacheLineAccumulator f1 !! a) as [l1|] eqn:E1; [|cbn; lia]. specialize (Hlt a l1 E1). cbn. lia.
      * rewrite Hrest in Hb by done. destruct (Hb2 b Hne) as [E|E]; rewrite E in Hb; [|done].
        specialize (Hlt b l Hb). lia.
  - pose proof (accumulate_words_missing v pc data n f2 Ha2 Hfit) as E3. fold a in E3. rewrite E3.
    destruct Hcr as (C1 & C2 & C3). fold a in C1. case_decide as Hz.
    2:{ right. split; [done|]. by apply Hc0, Hc1. }
    left. exists f2. split; [done|]. split; [done|]. split; [done|]. split; [split|].
    + fold a. intros i. unfold stored_view. rewrite decide_False by lia. unfold line_view. rewrite Ha2.
      destruct (cacheLineAccumulator f !! a) as [l|]; [|done]. destruct Ha1 as (l' & E & _). congruence.
    + exact Hoth.
    + apply Hf2.
    + intros Ho. exfalso. apply (older_not_crowded v f1); [apply Hf1|by apply Ho1, Ho0|done].
Qed.

Lemma accumulate_ok pkt v pc data n f :
  acc_ok f -> store_ok pkt v pc data n ->
  is_Some (lastWriteTickToAddr f !! cacheline_align v) -> older f ->
  exists f', accumulate_store pkt f = Ok f' /\ acc_ok f' /\ same_rest f f' /\ accumulated v data n f f' /\
    (forall b line, cacheLineAccumulator f' !! b = Some line ->
       CacheLine.timeOfCreation line <= now).
Proof.
  intros Hf Hs Hk Ho. destruct (accumulate_cases pkt v pc data n f Hf Hs Hk (proj1 Ho))
    as [(f' & E & H1 & H2 & H3 & H4)|[_ Hc]].
  - exists f'. do 4 (split; [done|]). by apply H4.
  - exfalso. apply (older_not_crowded v f); [apply Hf|done|done].
Qed.

(** C34: a persistent store with data that stays inside its line, the tick of whose
    line the statistics have recorded, enters a well-formed accumulator.  Unless the
    accumulator is full, does not have the line, and has only lines created at the
    current tick, the store never stops the program.  In that one case the new line may
    evict itself, and if it does, the store's first word finds no line and [at] throws.
    Whenever it returns, the store's words replace those of its accumulated line (a
    new line holds nothing else), every other line keeps its words or has been
    evicted, and the accumulator holds at most [CL_ACC_SIZE] lines. *)
Theorem accumulate_spec pkt v pc data n f :
  acc_ok f -> store_ok pkt v pc data n ->
  is_Some (lastWriteTickToAddr f !! cacheline_align v) -> now < UINT64_MAX ->
  (exists f', accumulate_store pkt f = Ok f' /\ acc_ok f' /\ accumulated v data n f f') \/
  (accumulate_store pkt f = Fail OutOfRange /\ crowded v f).
Proof.
  intros Hf Hs Hk Hnow. destruct (accumulate_cases pkt v pc data n f Hf Hs Hk Hnow)
    as [(f' & E & H1 & _ & H3 & _)|H]; [left|by right].
  by exists f'.
Qed.
End AccumulatorLemmas.

(** *** Evaluation *)

Definition sample_addr : Z := 0x10000000040.
Definition sample_cached (a : Z) : option (list Z) := Some Backend.sample_words.
Definition sample_fresh : list Z := replicate DATA_CHUNK_COUNT 0.
Definition no_hit (a : Z) : bool := false.
Definition sample_line : CacheLine.t :=
  CacheLine.set_time_of_last_update 7
    (CacheLine.set_addr (sample_addr + 8) (CacheLine.set_dirty Backend.sample_line)).
Definition sample_config : config := mkConfig 4 10000 500000 false false false 0x1234.
Definition sample_frontend : t :=
  mk sample_config PredictorTable.sample_table (PendingTable.new "pend_t" 128 false) ∅ 1
    (FixedSizeQueue.new "whb" 512) {[ sample_addr := sample_line ]} AddrPredictor.new 0 0 0
    {[ sample_addr := 7 ]} {[ sample_addr := 0x400 ]} sample_addr 0 ∅ SharedArea.new
    Backend.sample_backend Stats.empty.

Lemma sample_words_length a d : sample_cached a = Some d -> length d = DATA_CHUNK_COUNT.
Proof. by intros [= <-]. Qed.

Lemma sample_acc_ok : acc_ok sample_frontend.
Proof.
  split; cbn [cacheLineAccumulator sample_frontend cfg backend].
  - intros a line. rewrite lookup_singleton_Some. intros [<- <-].
    split; [apply Backend.sample_line_wf|reflexivity..| |reflexivity].
    cbn [lastWriteTickToAddr sample_frontend]. rewrite lookup_singleton_eq. eauto.
  - rewrite map_size_singleton. cbn. lia.
  - cbn. lia.
  - apply Backend.sample_backend_wf.
Qed.

Lemma retire_spec_witness :
  exists f' (entries : list CWE.t), @cachelineAccumulatorRetireTick tree_order Backend.sample_pt no_hit no_hit
      sample_cached sample_fresh 1000000 sample_frontend = Ok f' /\
    (exists e, e ∈ entries /\ CWE.addr e = sample_addr).
Proof.
  destruct (@retire_spec tree_order Backend.sample_pt no_hit no_hit sample_cached sample_fresh
    1000000 sample_words_length eq_refl sample_frontend sample_acc_ok)
    as (f' & entries & E & _ & _ & H & _).
  - vm_compute. reflexivity.
  - exists f', entries. split; [exact E|].
    apply (H sample_addr sample_line (sample_addr + 0x240000000 - 0x10000000000)).
    split; [reflexivity|]. split; [vm_compute; reflexivity|]. split; vm_compute; reflexivity.
Defined.

Lemma accumulate_spec_witness :
  exists f', @accumulate tree_order Backend.sample_pt no_hit no_hit sample_cached sample_cached
      sample_fresh 1000000 (Packet.store (sample_addr + 4) 0x240000044 0x500 [17; 18])
      sample_frontend = Ok f' /\
    line_view f' sample_addr 1 = Some 17 /\ line_view f' sample_addr 2 = Some 18 /\
    line_view f' sample_addr 3 = Some 103.
Proof.
  destruct (@accumulate_spec tree_order Backend.sample_pt no_hit no_hit sample_cached sample_fresh
    1000000 sample_words_length eq_refl sample_cached sample_words_length
    (Packet.store (sample_addr + 4) 0x240000044 0x500 [17; 18]) (sample_addr + 4) 0x500 [17; 18] 2
    sample_frontend sample_acc_ok) as [(f' & E & _ & [H _ _])|[_ [C _]]].
  - split; try reflexivity; vm_compute; lia.
  - vm_compute. eexists. reflexivity.
  - reflexivity.
  - exists f'. split; [exact E|]. change sample_addr with (cacheline_align (sample_addr + 4)).
    rewrite !H. split; [|split]; vm_compute; reflexivity.
  - vm_compute in C. discriminate C.
Defined.

(** Two new lines in one tick: when the accumulator is full of lines of this
    tick, the new line may evict itself and the store's own line is missing. *)
Lemma accumulate_same_tick :
  let f := with_acc ∅ (with_lastWrites {[ 0x10000000000 := 5; sample_addr := 5 ]} ∅ sample_frontend) in
  let f := mk (mkConfig 1 10000 500000 true false false 0) (predictorTable f) (pendingTable f)
    (parents f) 1 (writeHistoryBuffer f) ∅ (addrPredictor f) 0 0 0 (lastWriteTickToAddr f) ∅ 0 0 ∅
    (shared f) (backend f) (stats f) in
  let store a := @accumulate tree_order Backend.sample_pt no_hit no_hit sample_cached sample_cached
    sample_fresh 5 (Packet.store a 0x240000040 0x500 [17]) in
  (f ← store 0x10000000000 f; store sample_addr f) = Fail OutOfRange.
Proof. vm_compute. reflexivity. Qed.
End Frontend.
