(* ===== verification/LineSearch.v ===== *)
(** * The search of the write history

    Models [processLastAccLine], [markIHBEntriesAsUsed] and
    [addToPredictorTable] of [mem/predictor_frontend.cc]: when a persistent line
    is written back, the stores of the history that produced its address and its
    words become an entry of the predictor table. *)

From S2P Require Import Prelude Common PageTable Chunk CacheLine Queues AddrPredictor Shared.
From S2P Require Import WriteHistory PredictorTable CompletedWrite Backend PendingTable Frontend.

Module LineSearch.
Module WHB := WriteHistoryBufferEntry.
Module PTE := PredictorTableEntry.
Import ChunkInfo Frontend.

(** The local variables of the scan. *)
Record scan := mkScan {
  entryToInsert : PTE.t;
  addrPredFound : bool;
  dataPredFound : bool;
  hashQueue : list Z;
  lastTick : Z;
  set_2 : bool;
  usedWHBIndices : gmap Z bool;
  whb_iter_cnt : nat;
  distances : list Z
}.

Definition with_entry v s := mkScan v (addrPredFound s) (dataPredFound s) (hashQueue s)
  (lastTick s) (set_2 s) (usedWHBIndices s) (whb_iter_cnt s) (distances s).
Definition with_lastTick v s := mkScan (entryToInsert s) (addrPredFound s) (dataPredFound s)
  (hashQueue s) v (set_2 s) (usedWHBIndices s) (whb_iter_cnt s) (distances s).
Definition next_entry s := mkScan (entryToInsert s) (addrPredFound s) (dataPredFound s)
  (hashQueue s) (lastTick s) (set_2 s) (usedWHBIndices s) (S (whb_iter_cnt s)) (distances s).

(** [pcCaptureDistance.sample(...)] and [usedWHBIndices[whb_iter_cnt] = true]. *)
Definition capture (whbSize : nat) (s : scan) : scan :=
  mkScan (entryToInsert s) (addrPredFound s) (dataPredFound s) (hashQueue s) (lastTick s) (set_2 s)
    (<[Z.of_nat (whb_iter_cnt s) := true]> (usedWHBIndices s)) (whb_iter_cnt s)
    (distances s ++ [Z.of_nat whbSize - Z.of_nat (whb_iter_cnt s)]).

(** Lines 1086-1094: the PC's confidence is unknown or high, or not used, and
    the entry has not produced another prediction. *)
Definition eligible (disablePerPC : bool) (sh : SharedArea.t) (w : WHB.t) : bool :=
  (match SharedArea.genPCConf sh !! WHB.get_pc w with
   | None => true
   | Some c => 5 <=? Confidence.value c
   end || disablePerPC) && negb (WHB.is_used w).

(** Lines 1129-1131 read two words of the copy of a line that [get_cacheline]
    returned, which is destroyed at the end of line 1129, and shift a 32-bit value by
    32.  C++ gives neither a meaning: what element [i] of a destroyed copy of a line
    reads as, and what the shift gives, is left open, and either may stop the program. *)
Record undefined_reads := mkReads {
  expired : CacheLine.t -> Z -> res ChunkInfo.t;
  shifted : Z -> res Z
}.

(** The value of line 1131; both terms have 32 bits. *)
Definition reread (ub : undefined_reads) (line : CacheLine.t) (addrOffset : Z) : res Z :=
  c ← expired ub line addrOffset;
  low ← get_data c;
  c ← expired ub line (addrOffset + 1);
  d ← get_data c;
  high ← shifted ub d;
  Ok (u32 (low + high)).

(** What the language says, and what a machine does on which the words are still in
    place and a shift by 32 is one by 0. *)
Definition undefined : undefined_reads := mkReads (fun _ _ => Fail Undefined) (fun _ => Fail Undefined).
Definition intact : undefined_reads :=
  mkReads (fun line i => deref (CacheLine.dataChunks line !! Z.to_nat i)) Ok.

Section Scan.
Variable ub : undefined_reads.
Variable now : Z.

(** Lines 1101-1141 *)
Definition search_addr (destAddr : Z) (whbSize : nat) (w : WHB.t) (s : scan) : res scan :=
  if addrPredFound s then Ok s
  else
    addrOffset ← CacheLine.get_addr_offset (WHB.get_cacheline w) destAddr true;
    if addrOffset =? -1 then Ok s
    else
      let s := capture whbSize s in
      let pc := WHB.get_pc w in
      assert_that (negb (pc =? 0)) ;;
      first ← CacheLine.find_first_valid_index (WHB.get_cacheline w);
      c ← make pc (u64 (addrOffset - first)) true ADDR;
      e ← PTE.set_addr_chunk c (entryToInsert s);
      destAddr ← reread ub (WHB.get_cacheline w) addrOffset;
      c ← set_target_addr (cacheline_align destAddr) (PTE.addrChunk e);
      tick ← WHB.get_gen_tick w;
      let e := PTE.with_addrChunk (set_generating_pc pc (set_gen_pc_in_tick tick c)) e in
      hash ← WHB.get_path_hash w;
      Ok (mkScan e true (dataPredFound s) (hashQueue s ++ [hash]) (lastTick s) (set_2 s)
            (usedWHBIndices s) (whb_iter_cnt s) (distances s)).

(** Lines 1176-1208: the word of chunk [i] is at [dataOffset] of the entry. *)
Definition record_word (destAddr : Z) (w : WHB.t) (i : nat) (dataOffset d : Z) (s : scan)
    : res scan :=
  first ← CacheLine.find_first_valid_index (WHB.get_cacheline w);
  let offset := u64 (dataOffset - first) in
  size_ ← WHB.get_size w;
  panic_if (size_ <=? offset) ;;
  tick ← WHB.get_gen_tick w;
  cs ← modify i
         (fun c =>
            let c := set_completion true (set_chunk_type DATA c) in
            let c := set_gen_pc_in_tick tick (set_generating_pc (WHB.get_pc w) c) in
            c ← set_data_field_offset offset (set_owner_key destAddr c);
            c ← set_data d c;
            v ← is_valid c;
            assert_that v ;; Ok c) (PTE.dataChunks (entryToInsert s));
  hash ← WHB.get_path_hash w;
  Ok (mkScan (PTE.with_dataChunks cs (entryToInsert s)) (addrPredFound s) true
        (if d =? 0 then hashQueue s else hashQueue s ++ [hash]) (lastTick s)
        (if bool_decide (i = 2%nat) then true else set_2 s)
        (usedWHBIndices s) (whb_iter_cnt s) (distances s)).

(** Lines 1145-1231, for one chunk of the accumulated line. *)
Definition search_chunk (destAddr : Z) (dataChunks : list ChunkInfo.t) (whbSize : nat) (w : WHB.t)
    (i : nat) (s : scan) : res scan :=
  c2 ← deref (PTE.dataChunks (entryToInsert s) !! 2%nat);
  assert_that (Bool.eqb (set_2 s) (get_completion c2)) ;;
  c ← deref (dataChunks !! i);
  ci ← deref (PTE.dataChunks (entryToInsert s) !! i);
  v ← is_valid c;
  s ← (if v && negb (get_completion ci) then
         d ← get_data c;
         dataOffset ← CacheLine.get_data_offset (WHB.get_cacheline w) d;
         if dataOffset =? -1 then Ok s
         else record_word destAddr w i dataOffset d (capture whbSize s)
       else
         if v : bool then Ok s
         else cs ← modify i (fun c => Ok (set_chunk_type INVALID c))
                     (PTE.dataChunks (entryToInsert s));
              Ok (with_entry (PTE.with_dataChunks cs (entryToInsert s)) s));
  if v : bool then
    d ← get_data c; _ ← CacheLine.get_data_offset (WHB.get_cacheline w) d; Ok s
  else Ok s.

(** Lines 1085-1236, for one entry of the history. *)
Definition scan_entry (disablePerPC : bool) (sh : SharedArea.t) (destAddr : Z)
    (dataChunks : list ChunkInfo.t) (whbSize : nat) (w : WHB.t) (s : scan) : res scan :=
  s ← (if eligible disablePerPC sh w then
         tick ← WHB.get_gen_tick w;
         panic_if (tick <? lastTick s) ;;
         s ← search_addr destAddr whbSize w (with_lastTick tick s);
         for_each (seq 0 DATA_CHUNK_COUNT) (search_chunk destAddr dataChunks whbSize w) s
       else Ok s);
  Ok (next_entry s).
End Scan.

Definition start (c : PTE.config) (now : Z) : scan :=
  mkScan (PTE.new c now) false false [] 0 false ∅ 0 [].

(** Lines 1244-1251: the valid chunks of the line that were not found. *)
Definition missing_chunks (dataChunks : list ChunkInfo.t) (e : PTE.t) : res Z :=
  for_each (seq 0 DATA_CHUNK_COUNT)
    (fun i n =>
       c ← deref (dataChunks !! i);
       v ← is_valid c;
       if v : bool then
         ci ← deref (PTE.dataChunks e !! i);
         inv ← is_invalid ci;
         if inv : bool then _ ← get_data c; Ok (n + 1) else Ok n
       else Ok n) 0.

Definition with_diag (a : Z) (e : PTE.t) : PTE.t :=
  PTE.mk a (PTE.addrChunk e) (PTE.dataChunks e) (PTE.pcSig e) (PTE.used e) (PTE.insertionOrder e)
    (PTE.hasAge e) (PTE.CORRECT_ADDR_PREDICTION_AGE_REWARD e)
    (PTE.CORRECT_DATA_PREDICTION_AGE_REWARD e) (PTE.originalCacheLine e) (PTE.hasOrigCL e)
    (PTE.addrOnlyPrediction e) (PTE.hash e) (PTE.hasHash e) (PTE.addrConf e) (PTE.dataConf e).

Section Process.
Context `{O : IterOrder}.
Variable ub : undefined_reads.
Variable now : Z.

Definition addToPredictorTable (hash : Z) (e : PTE.t) (f : t) : res t :=
  n ← valid_count (PTE.dataChunks e);
  panic_if (n =? 0) ;;
  panic_if_not (PTE.has_orig_cacheline e) ;;
  '(p, sh) ← PredictorTable.add (PTE.set_hash hash e) (predictorTable f) (shared f);
  Ok (with_predictor p sh f).

Definition markIHBEntriesAsUsed (indices : gmap Z bool) (f : t) : res t :=
  for_each (iter indices)
    (fun '(i, _) f =>
       let q := writeHistoryBuffer f in
       w ← FixedSizeQueue.get (Z.to_nat i) q;
       Ok (with_whb (FixedSizeQueue.mk (FixedSizeQueue.store q) (FixedSizeQueue.sz q)
             (<[Z.to_nat i := WHB.use w]> (FixedSizeQueue.queue q))) f)) f.

(** Lines 1254-1298: statistics, and the entry goes to the predictor table
    when its address and all its words were found. *)
Definition conclude (destAddr : Z) (line : CacheLine.t) (missing : Z) (s : scan) (f : t) : res t :=
  let dataPredFound := dataPredFound s && (missing =? 0) in
  let foundAnything := addrPredFound s && dataPredFound in
  let f := if negb (addrPredFound s) && negb dataPredFound
           then with_stats (Stats.incr "bothAddrDataNotFound") f else f in
  let f := with_stats (Stats.sample "missingChunkCount" missing) f in
  let f := if foundAnything then f else with_stats (Stats.incr "cacheLineNotInWHB") f in
  let f := with_stats (Stats.incr (if addrPredFound s then "whbAddrFound" else "noAddrFound")) f in
  let e := if addrPredFound s && negb dataPredFound
           then PTE.set_addr_only_pred (entryToInsert s) else entryToInsert s in
  if foundAnything then
    let e := PTE.set_original_cacheline line (with_diag (cacheline_align destAddr) e) in
    let f := with_stats (Stats.incr "pWritesFoundInWHB") f in
    panic_if (bool_decide (length (hashQueue s) = 0%nat)) ;;
    h ← at_ (hashQueue s !! 0%nat);
    addToPredictorTable h e f
  else Ok f.

(** [writeHistoryBuffer.dump()]: the file is not modelled, the checks are. *)
Definition dump (q : list WHB.t) : res unit :=
  for_each q (fun w _ => CacheLine.print (WHB.get_cacheline w) ;;
                         _ ← WHB.get_gen_tick w; Ok tt) tt.

Definition processLastAccLine (addr : Z) (f : t) : res t :=
  panic_if_not (Backend.predictorEnabled (backend f)) ;;
  let f := with_stats (Stats.incr "pmAccumulatorFlushes") f in
  line ← at_ (cacheLineAccumulator f !! addr);
  inv ← CacheLine.all_invalid line;
  panic_if inv ;;
  ap ← AddrPredictor.set_last_seen_addr addr (addrPredictor f);
  let f := with_addrPredictor ap f in
  zeros ← CacheLine.all_zeros line;
  let f := if zeros : bool then with_stats (Stats.incr "zeroCachelines") f else f in
  let dataChunks := CacheLine.dataChunks line in
  dump (FixedSizeQueue.queue (writeHistoryBuffer f)) ;;
  whbSize ← FixedSizeQueue.get_size (writeHistoryBuffer f);
  s ← for_each (FixedSizeQueue.queue (writeHistoryBuffer f))
        (scan_entry ub (disablePerPCConfidence (cfg f)) (shared f) addr dataChunks whbSize)
        (start (PredictorTable.entry_config (PredictorTable.cfg (predictorTable f))) now);
  let f := foldl (fun f d => with_stats (Stats.sample "pcCaptureDistance" d) f) f (distances s) in
  missing ← missing_chunks dataChunks (entryToInsert s);
  f ← conclude addr line missing s f;
  markIHBEntriesAsUsed (usedWHBIndices s) f.
End Process.

(** ** What a store of the history provides *)

Definition words (w : WHB.t) : list ChunkInfo.t := CacheLine.dataChunks (WHB.cacheLine w).
Definition word_index (w : WHB.t) (d : Z) : option nat :=
  List.find (CacheLine.holdsb (words w) d) (seq 0 DATA_CHUNK_COUNT).
Definition addr_index (w : WHB.t) (a : Z) : option nat :=
  List.find (CacheLine.pointsb (words w) a) (seq 0 (DATA_CHUNK_COUNT - 1)).

(** A store of [n] words from index [off] of its line. *)
Record span (w : WHB.t) (off n : nat) : Prop := {
  sp_fit : (off + n <= DATA_CHUNK_COUNT)%nat;
  sp_size : WHB.get_size w = Ok (Z.of_nat n);
  sp_words : forall j, is_Some (CacheLine.view (words w) j) <-> (off <= j < off + n)%nat
}.
Record store_ok (w : WHB.t) : Prop := {
  st_wf : CacheLine.wf (WHB.cacheLine w);
  st_tick : WHB.hasGenTick w = true;
  st_hash : WHB.hasPathHash w = true;
  st_pc : WHB.pc w <> 0;
  st_span : exists off n, span w off n
}.

Definition first_word (w : WHB.t) : nat :=
  default 0%nat (List.find (fun i => bool_decide (is_Some (CacheLine.view (words w) i)))
                   (seq 0 DATA_CHUNK_COUNT)).

Lemma first_word_span w off n : span w off n -> (0 < n)%nat -> first_word w = off.
Proof.
  intros [Hf _ Hw] Hp. unfold first_word.
  destruct (List.find _ _) as [i|] eqn:E.
  - apply find_seq_some in E as (Hi & Hv & Hmin). apply bool_decide_eq_true in Hv.
    apply Hw in Hv. cbn. destruct (decide (i = off)) as [|Hne]; [done|].
    assert (bool_decide (is_Some (CacheLine.view (words w) off)) = false) as Ho by (apply Hmin; lia).
    apply bool_decide_eq_false in Ho. exfalso. apply Ho, Hw. lia.
  - apply (find_seq_none _ _ _ off) in E; [|lia]. apply bool_decide_eq_false in E.
    exfalso. apply E, Hw. lia.
Qed.

Lemma first_valid_ok w j :
  store_ok w -> is_Some (CacheLine.view (words w) j) -> CacheLine.find_first_valid_index (WHB.get_cacheline w) = Ok (Z.of_nat (first_word w)).
Proof.
  intros [Hwf _ _ _ (off & n & Hs)] Hj. rewrite CacheLine.find_first_valid_index_ok by done.
  apply (sp_words _ _ _ Hs) in Hj.
  pose proof (first_word_span w off n Hs ltac:(lia)) as Ho. unfold first_word, words, WHB.get_cacheline in *.
  destruct (List.find _ _) as [i|] eqn:E; [done|].
  apply (find_seq_none _ _ _ off) in E; [|destruct Hs; lia]. apply bool_decide_eq_false in E.
  exfalso. apply E, (sp_words _ _ _ Hs). destruct Hs; lia.
Qed.

(** The offset of index [j] inside the store. *)
Definition offset_of (w : WHB.t) (j : nat) : Z := Z.of_nat j - Z.of_nat (first_word w).

Lemma offset_ok w j :
  store_ok w -> is_Some (CacheLine.view (words w) j) ->
  u64 (Z.of_nat j - Z.of_nat (first_word w)) = offset_of w j /\ 0 <= offset_of w j < 16 /\
  exists n, WHB.get_size w = Ok n /\ offset_of w j < n.
Proof.
  intros [_ _ _ _ (off & n & Hs)] Hj. apply (sp_words _ _ _ Hs) in Hj.
  pose proof (first_word_span w off n Hs ltac:(lia)) as Ho.
  unfold offset_of. rewrite Ho. destruct Hs as [Hf Hsz Hw].
  unfold DATA_CHUNK_COUNT in *. split; [apply u64_id; unfold is_u64; lia|]. split; [lia|].
  exists (Z.of_nat n). split; [done|lia].
Qed.

Lemma word_index_view w d j : word_index w d = Some j -> CacheLine.view (words w) j = Some d.
Proof.
  intros E. apply find_seq_some in E as (_ & H & _). unfold CacheLine.holdsb in H.
  destruct (CacheLine.view (words w) j); [|done]. apply Z.eqb_eq in H. by subst.
Qed.

Lemma addr_index_view w a j : addr_index w a = Some j -> is_Some (CacheLine.view (words w) j).
Proof.
  intros E. apply find_seq_some in E as (_ & H & _). unfold CacheLine.pointsb in H.
  by destruct (CacheLine.view (words w) j).
Qed.

(** The second word of an address is in the store too. *)
Lemma addr_index_next w a j :
  addr_index w a = Some j -> is_Some (CacheLine.view (words w) (S j)).
Proof.
  intros E. apply find_seq_some in E as (_ & H & _). unfold CacheLine.pointsb in H.
  by destruct (CacheLine.view (words w) j), (CacheLine.view (words w) (S j)).
Qed.

Lemma get_gen_tick_ok w : store_ok w -> WHB.get_gen_tick w = Ok (WHB.genTick w).
Proof. intros H. unfold WHB.get_gen_tick. by rewrite (st_tick _ H). Qed.
Lemma store_path_hash_ok w : store_ok w -> WHB.get_path_hash w = Ok (WHB.pathHash w).
Proof. intros H. unfold WHB.get_path_hash. by rewrite (st_hash _ H). Qed.

(** ** What the search finds *)
Section Found.
Variable el : WHB.t -> bool.
Variable a : Z.
Variable line : CacheLine.t.

Definition find_addr (ws : list WHB.t) : option WHB.t :=
  List.find (fun w => el w && bool_decide (is_Some (addr_index w a))) ws.
Definition find_word (ws : list WHB.t) (d : Z) : option WHB.t :=
  List.find (fun w => el w && bool_decide (is_Some (word_index w d))) ws.

(** The word at [i] is in the store [w] and is not zero. *)
Definition keyed (w : WHB.t) (i : nat) : bool :=
  match CacheLine.view (CacheLine.dataChunks line) i with
  | Some d => negb (d =? 0) && bool_decide (is_Some (word_index w d))
  | None => false
  end.
(** The store whose path hash becomes the key of the entry. *)
Definition find_key (ws : list WHB.t) : option WHB.t :=
  List.find (fun w => el w && (bool_decide (is_Some (addr_index w a))
                               || existsb (keyed w) (seq 0 DATA_CHUNK_COUNT))) ws.

Definition addr_chunk_ok (w : WHB.t) (c : ChunkInfo.t) : Prop :=
  exists j, addr_index w a = Some j /\ chunkType c = ADDR /\
    get_generating_pc c = Ok (WHB.pc w) /\ get_data_field_offset c = Ok (offset_of w j) /\
    is_whb_search c = false.
Definition word_chunk_ok (w : WHB.t) (d : Z) (c : ChunkInfo.t) : Prop :=
  exists j, word_index w d = Some j /\ line_chunk c /\ validb c = true /\ isComplete c = true /\
    get_data c = Ok d /\ get_generating_pc c = Ok (WHB.pc w) /\
    get_data_field_offset c = Ok (offset_of w j) /\ is_whb_search c = false.
Definition blank (c : ChunkInfo.t) : Prop :=
  chunkType c = INVALID /\ isComplete c = false /\ is_whb_search c = false.

Definition slot_ok (ws : list WHB.t) (i : nat) (c : ChunkInfo.t) : Prop :=
  match CacheLine.view (CacheLine.dataChunks line) i with
  | Some d => match find_word ws d with Some w => word_chunk_ok w d c | None => blank c end
  | None => blank c
  end.
(** *** Recording a word *)

Lemma finish_record off d c :
  chunkType c = DATA -> 0 <= off < 16 -> is_u32 d ->
  exists c', (c ← set_data_field_offset off c;
              c ← set_data d c;
              v ← is_valid c;
              assert_that v ;; Ok c) = Ok c' /\
    line_chunk c' /\ validb c' = true /\ isComplete c' = isComplete c /\ get_data c' = Ok d /\
    get_generating_pc c' = get_generating_pc c /\ get_data_field_offset c' = Ok off /\
    is_whb_search c' = is_whb_search c.
Proof.
  intros Ht Hoff Hd. unfold set_data_field_offset.
  assert ((off =? 24) = false) as -> by (apply Z.eqb_neq; lia).
  cbn [panic_if mbind res_bind]. set (c1 := with_dataFieldOffset off _).
  destruct (set_data d c1) as [c2|] eqn:E2.
  2:{ rewrite set_data_ok in E2; [done|]. unfold datab. cbn. by rewrite Ht. }
  pose proof (get_set_data d c1 c2 E2) as Hget. pose proof (set_data_line d c1 c2 E2) as Hline.
  rewrite u32_id in Hget by done.
  assert (datab c1 = true) as Hc1 by (unfold datab; cbn; by rewrite Ht).
  rewrite set_data_ok in E2 by done. injection E2 as E2.
  assert (chunkType c2 = DATA) as Ht2 by (rewrite <- E2; cbn; by rewrite Ht).
  assert (validb c2 = true) as Hv2 by (unfold validb; by rewrite Ht2).
  cbn [mbind res_bind]. rewrite is_valid_legal, Hv2 by (by unfold legal; rewrite Ht2).
  exists c2. split; [done|]. split; [done|]. split; [done|]. subst c2.
  split; [done|]. split; [done|]. clear. subst c1. split.
  - unfold get_generating_pc, has_generating_pc, has. cbn [flags with_content raise with_flags
      with_dataFieldOffset generatingPC]. by flag_simpl.
  - split.
    + unfold get_data_field_offset, has. cbn [flags with_content raise with_flags
        with_dataFieldOffset dataFieldOffset]. by flag_simpl.
    + unfold is_whb_search, has. cbn [flags with_content raise with_flags with_dataFieldOffset].
      by flag_simpl.
Qed.

Lemma recorded_chunk w d j c0 :
  store_ok w -> word_index w d = Some j -> is_u32 d -> is_whb_search c0 = false ->
  exists c, (let c := set_completion true (set_chunk_type DATA c0) in
             let c := set_gen_pc_in_tick (WHB.genTick w) (set_generating_pc (WHB.get_pc w) c) in
             c ← set_data_field_offset (offset_of w j) (set_owner_key a c);
             c ← set_data d c;
             v ← is_valid c;
             assert_that v ;; Ok c) = Ok c /\ word_chunk_ok w d c.
Proof.
  intros Hw Hj Hd Hs0. pose proof (word_index_view w d j Hj) as Hv.
  destruct (offset_ok w j Hw) as (_ & Hr & _); [by rewrite Hv|]. cbn zeta.
  set (c1 := set_owner_key a _).
  destruct (finish_record (offset_of w j) d c1) as (c & -> & Hl & Hva & Hc & Hg & Hp & Ho & Hs);
    [done|done|done|].
  exists c. split; [done|]. exists j. split; [done|]. split; [done|]. split; [done|].
  split; [by rewrite Hc|]. split; [done|]. split; [|split; [done|]].
  - rewrite Hp. subst c1. clear.
    unfold get_generating_pc, has_generating_pc, has. cbn [flags set_owner_key with_owner_key raise
      with_flags set_gen_pc_in_tick with_genPCTick set_generating_pc with_generatingPC generatingPC].
    by flag_simpl.
  - rewrite Hs, <- Hs0. subst c1. clear. unfold is_whb_search, has.
    cbn [flags set_owner_key with_owner_key raise with_flags set_gen_pc_in_tick with_genPCTick
      set_generating_pc with_generatingPC set_completion with_isComplete set_chunk_type with_chunkType].
    by flag_simpl.
Qed.
(** *** The state of the search *)

Variable e0 : PTE.t.

Definition chunks (s : scan) : list ChunkInfo.t := PTE.dataChunks (entryToInsert s).
Definition done_at (s : scan) (i : nat) : bool :=
  match chunks s !! i with Some c => isComplete c | None => false end.
(** The entry without the chunks the search fills in. *)
Definition shell (e : PTE.t) : PTE.t :=
  PTE.with_dataChunks [] (PTE.with_addrChunk ChunkInfo.new e).

Record frame (s : scan) : Prop := {
  fr_len : length (chunks s) = DATA_CHUNK_COUNT;
  fr_shell : shell (entryToInsert s) = shell e0;
  fr_set2 : set_2 s = done_at s 2;
  fr_data : dataPredFound s = existsb (done_at s) (seq 0 DATA_CHUNK_COUNT)
}.

Definition addr_state (ws : list WHB.t) (s : scan) : Prop :=
  match find_addr ws with
  | Some w => addrPredFound s = true /\ addr_chunk_ok w (PTE.addrChunk (entryToInsert s))
  | None => addrPredFound s = false
  end.

(** After the entries [ws] of the history. *)
Record outer (ws : list WHB.t) (s : scan) : Prop := {
  ou_frame : frame s;
  ou_slots : forall i c, chunks s !! i = Some c -> slot_ok ws i c;
  ou_addr : addr_state ws s;
  ou_key : head (hashQueue s) = WHB.pathHash <$> find_key ws;
  ou_cnt : whb_iter_cnt s = length ws;
  ou_used : forall k, is_Some (usedWHBIndices s !! k) -> 0 <= k < Z.of_nat (length ws);
  ou_tick : lastTick s = 0 \/ exists w, w ∈ ws /\ lastTick s = WHB.genTick w
}.

(** After [ws] and the first [k] chunks of the eligible entry [w]. *)
Definition pointsw (w : WHB.t) : bool := bool_decide (is_Some (addr_index w a)).
Record inner (ws : list WHB.t) (w : WHB.t) (k : nat) (s : scan) : Prop := {
  in_frame : frame s;
  in_slots : forall i c, chunks s !! i = Some c ->
    slot_ok (if decide (i < k)%nat then ws ++ [w] else ws) i c;
  in_addr : addr_state (ws ++ [w]) s;
  in_key : head (hashQueue s) = WHB.pathHash <$>
    match find_key ws with
    | Some w' => Some w'
    | None => if pointsw w || existsb (keyed w) (seq 0 k) then Some w else None
    end;
  in_cnt : whb_iter_cnt s = length ws;
  in_used : forall k, is_Some (usedWHBIndices s !! k) -> 0 <= k <= Z.of_nat (length ws);
  in_tick : lastTick s = WHB.genTick w
}.

Lemma find_word_app ws w d :
  el w = true ->
  find_word (ws ++ [w]) d =
    match find_word ws d with
    | Some w' => Some w'
    | None => if bool_decide (is_Some (word_index w d)) then Some w else None
    end.
Proof.
  intros He. unfold find_word. rewrite find_app. destruct (List.find _ ws); [done|].
  cbn. by rewrite He.
Qed.

Lemma find_some_key ws w d i :
  find_word ws d = Some w -> CacheLine.view (CacheLine.dataChunks line) i = Some d -> d <> 0 ->
  (i < DATA_CHUNK_COUNT)%nat -> is_Some (find_key ws).
Proof.
  intros Hw Hi Hd Hlt. unfold find_word in Hw. apply List.find_some in Hw as [Hin Hp].
  unfold find_key. destruct (List.find _ ws) eqn:E; [done|].
  apply (List.find_none _ _ E) in Hin. exfalso.
  apply andb_true_iff in Hp as [He Hp]. rewrite He in Hin. cbn [andb] in Hin.
  apply orb_false_iff in Hin as [_ Hin].
  assert (existsb (keyed w) (seq 0 DATA_CHUNK_COUNT) = true) as Ht; [|congruence].
  apply existsb_exists. exists i. split; [apply List.in_seq; lia|].
  unfold keyed. rewrite Hi, Hp. apply Z.eqb_neq in Hd. by rewrite Hd.
Qed.

(** The step at chunk [k] that changes nothing but the index. *)
Lemma inner_skip ws w k s :
  el w = true -> (k < DATA_CHUNK_COUNT)%nat -> inner ws w k s ->
  (forall c, chunks s !! k = Some c -> slot_ok (ws ++ [w]) k c) ->
  (keyed w k = true -> is_Some (find_key ws)) -> inner ws w (S k) s.
Proof.
  intros He Hk [H1 H2 H3 H4 H5 H6 H7] Hslot Hkey. split; try done.
  - intros i c Hi. destruct (decide (i = k)) as [->|].
    + rewrite decide_True by lia. by apply Hslot.
    + specialize (H2 i c Hi). case_decide; case_decide; try done; lia.
  - rewrite H4. destruct (find_key ws) eqn:E; [done|].
    rewrite seq_S, existsb_app. cbn. rewrite orb_false_r.
    destruct (keyed w k); [|by rewrite orb_false_r].
    destruct (Hkey eq_refl) as [? ?]. congruence.
Qed.
Lemma shell_with_chunks cs e : shell (PTE.with_dataChunks cs e) = shell e.
Proof. done. Qed.

Lemma done_at_insert s s' k c i :
  chunks s' = <[k := c]> (chunks s) -> (k < length (chunks s))%nat ->
  done_at s' i = if decide (i = k) then isComplete c else done_at s i.
Proof.
  intros E Hk. unfold done_at. rewrite E. case_decide as Hi.
  - subst. by rewrite list_lookup_insert_eq.
  - by rewrite list_lookup_insert_ne.
Qed.

(** A new word keeps the frame. *)
Lemma frame_insert s s' k c :
  frame s -> (k < DATA_CHUNK_COUNT)%nat -> isComplete c = true ->
  chunks s' = <[k := c]> (chunks s) -> shell (entryToInsert s') = shell (entryToInsert s) ->
  set_2 s' = (if bool_decide (k = 2%nat) then true else set_2 s) -> dataPredFound s' = true ->
  frame s'.
Proof.
  intros [H1 H2 H3 H4] Hk Hc E Hsh Hs2 Hd.
  assert (forall i, done_at s' i = if decide (i = k) then isComplete c else done_at s i) as HD
    by (intros; apply done_at_insert; [done|lia]).
  split.
  - by rewrite E, length_insert.
  - by rewrite Hsh.
  - rewrite Hs2, HD, Hc, H3. case_bool_decide; case_decide; done.
  - rewrite Hd. symmetry. apply existsb_exists. exists k.
    split; [apply List.in_seq; lia|]. by rewrite HD, decide_True.
Qed.

Lemma head_snoc {A} (l : list A) x : head (l ++ [x]) = match head l with Some y => Some y | None => Some x end.
Proof. by destruct l. Qed.

Lemma record_word_ok ws w k s d j whbSize :
  store_ok w -> el w = true -> (k < DATA_CHUNK_COUNT)%nat -> inner ws w k s ->
  CacheLine.view (CacheLine.dataChunks line) k = Some d -> is_u32 d ->
  find_word ws d = None -> word_index w d = Some j ->
  exists s', record_word a w k (Z.of_nat j) d (capture whbSize s) = Ok s' /\ inner ws w (S k) s'.
Proof.
  intros Hw He Hk Hin Hd Hu Hf Hj. pose proof (word_index_view w d j Hj) as Hv.
  destruct (offset_ok w j Hw) as (Eo & Hr & n & Hn & Hlt); [by rewrite Hv|].
  unfold record_word. rewrite (first_valid_ok w j) by (done || by rewrite Hv). cbn [mbind res_bind].
  rewrite Hn. cbn [mbind res_bind]. rewrite Eo.
  destruct (Z.leb_spec n (offset_of w j)); [lia|]. cbn [panic_if mbind res_bind].
  rewrite get_gen_tick_ok by done. cbn [mbind res_bind entryToInsert capture].
  destruct Hin as [Hfr H2 H3 H4 H5 H6 H7].
  destruct (lookup_lt_is_Some_2 (chunks s) k) as [c0 Hc0]; [by rewrite (fr_len _ Hfr)|].
  assert (is_whb_search c0 = false) as Hs0.
  { specialize (H2 k c0 Hc0). rewrite decide_False in H2 by lia. unfold slot_ok in H2.
    rewrite Hd, Hf in H2. apply H2. }
  destruct (recorded_chunk w d j c0 Hw Hj Hu Hs0) as (c & Ec & Hok).
  fold (chunks s). rewrite (modify_ok k _ (chunks s) c0 c Hc0) by exact Ec. cbn [mbind res_bind].
  rewrite store_path_hash_ok by done. cbn [mbind res_bind]. eexists. split; [reflexivity|].
  set (s' := mkScan _ _ _ _ _ _ _ _ _).
  assert (isComplete c = true) as Hcc by (by destruct Hok as (? & _ & _ & _ & ? & _)).
  assert (frame s') as Hfr' by (by apply (frame_insert s s' k c)).
  split; [done| |done| |done| |done].
  - intros i ci. cbn. destruct (decide (i = k)) as [->|Hi].
    + rewrite list_lookup_insert_eq by (by eapply lookup_lt_Some). intros [= <-].
      rewrite decide_True by lia. unfold slot_ok. rewrite Hd, find_word_app, Hf by done.
      by rewrite bool_decide_true by (by rewrite Hj).
    + rewrite list_lookup_insert_ne by done. intros Hci. specialize (H2 i ci Hci).
      repeat case_decide; try done; lia.
  - cbn [hashQueue s' capture]. destruct (find_key ws) as [w'|] eqn:Ek.
    + destruct (d =? 0); [done|]. by rewrite head_snoc, H4.
    + rewrite seq_S, existsb_app. cbn [existsb Nat.add]. rewrite orb_false_r.
      assert (keyed w k = negb (d =? 0)) as ->
        by (unfold keyed; rewrite Hd, Hj; by destruct (d =? 0)).
      destruct (d =? 0); cbn [negb].
      * by rewrite orb_false_r.
      * rewrite head_snoc, H4, !orb_true_r. by destruct (pointsw w || _).
  - cbn [usedWHBIndices s' capture]. intros i Hi. destruct (decide (Z.of_nat (whb_iter_cnt s) = i)) as [<-|].
    + rewrite H5. lia.
    + rewrite lookup_insert_ne in Hi by done. by apply H6.
Qed.
Variable ub : undefined_reads.
Hypothesis line_wf : CacheLine.wf line.
Hypothesis a_range : is_u64 a.

Lemma int_result_none o : (CacheLine.int_result o =? -1) = bool_decide (o = None).
Proof.
  destruct o; [|done]. rewrite bool_decide_false by done. apply Z.eqb_neq. cbn. lia.
Qed.

Lemma data_offset_ok w d :
  store_ok w -> CacheLine.get_data_offset (WHB.get_cacheline w) d =
    Ok (CacheLine.int_result (word_index w d)).
Proof. intros H. by rewrite CacheLine.get_data_offset_find by apply H. Qed.

Lemma addr_offset_ok w :
  store_ok w -> CacheLine.get_addr_offset (WHB.get_cacheline w) a true =
    Ok (CacheLine.int_result (addr_index w a)).
Proof. intros H. by rewrite CacheLine.get_addr_offset_find by (apply H || done). Qed.

Lemma search_chunk_ok ws w k s whbSize :
  store_ok w -> el w = true -> (k < DATA_CHUNK_COUNT)%nat -> inner ws w k s ->
  exists s', search_chunk a (CacheLine.dataChunks line) whbSize w k s = Ok s' /\ inner ws w (S k) s'.
Proof.
  intros Hw He Hk Hin. pose proof (in_frame _ _ _ _ Hin) as Hfr.
  unfold search_chunk. fold (chunks s).
  destruct (lookup_lt_is_Some_2 (chunks s) 2) as [c2 Hc2]; [rewrite (fr_len _ Hfr); cbv; lia|].
  assert (set_2 s = isComplete c2) as E2
    by (rewrite (fr_set2 _ Hfr); unfold done_at; by rewrite Hc2).
  rewrite Hc2. cbn [deref mbind res_bind]. unfold get_completion. rewrite E2, eqb_reflx.
  cbn [assert_that mbind res_bind].
  destruct (CacheLine.wf_lookup _ k line_wf Hk) as (lc & Elc & Llc). rewrite Elc.
  destruct (lookup_lt_is_Some_2 (chunks s) k) as [ci Hci]; [by rewrite (fr_len _ Hfr)|].
  rewrite Hci. cbn [deref mbind res_bind].
  rewrite is_valid_legal by (by apply line_chunk_legal). cbn [mbind res_bind].
  pose proof (in_slots _ _ _ _ Hin k ci Hci) as Hslot. rewrite decide_False in Hslot by lia.
  assert (CacheLine.view (CacheLine.dataChunks line) k =
    if validb lc then Some (datum lc) else None) as Hview by (unfold CacheLine.view; by rewrite Elc).
  destruct (validb lc) eqn:Hv; cbn [andb].
  - rewrite (get_data_line lc) by done. cbn [mbind res_bind]. rewrite data_offset_ok by done.
    cbn [mbind res_bind]. rewrite int_result_none. set (d := datum lc) in *.
    unfold slot_ok in Hslot. rewrite Hview in Hslot.
    destruct (find_word ws d) as [w'|] eqn:Ef.
    + destruct Hslot as (j & Hj & Hl & Hva & Hcomp & Hrest). rewrite Hcomp. cbn [negb mbind res_bind].
      exists s. split; [done|]. apply inner_skip; try done.
      * intros c Hc. rewrite Hci in Hc. injection Hc as <-. unfold slot_ok.
        rewrite Hview, find_word_app, Ef by done. by exists j.
      * unfold keyed. rewrite Hview. destruct (Z.eqb_spec d 0); [done|]. intros _.
        by eapply find_some_key.
    + destruct Hslot as (Hty & Hcomp & Hwhb). rewrite Hcomp. cbn [negb].
      case_bool_decide as Ew.
      * cbn [mbind res_bind]. exists s. split; [done|]. apply inner_skip; try done.
        -- intros c Hc. rewrite Hci in Hc. injection Hc as <-. unfold slot_ok.
           rewrite Hview, find_word_app, Ef, Ew by done. done.
        -- unfold keyed. rewrite Hview, Ew. by rewrite andb_false_r.
      * destruct (word_index w d) as [j|] eqn:Ej; [|done]. cbn [CacheLine.int_result].
        destruct (record_word_ok ws w k s d j whbSize) as (s' & -> & Hs'); try done.
        { unfold d, datum. apply u32_range. }
        cbn [mbind res_bind]. by exists s'.
  - unfold slot_ok in Hslot. rewrite Hview in Hslot. destruct Hslot as (Hty & Hcomp & Hwhb).
    assert (set_chunk_type INVALID ci = ci) as Eci by (destruct ci; cbn in *; by subst).
    rewrite (modify_ok k _ (chunks s) ci ci Hci) by (by rewrite Eci). cbn [mbind res_bind].
    rewrite list_insert_id by done.
    assert (with_entry (PTE.with_dataChunks (chunks s) (entryToInsert s)) s = s) as ->
      by (destruct s as [[] ? ? ? ? ? ? ? ?]; done).
    exists s. split; [done|]. apply inner_skip; try done.
    + intros c Hc. rewrite Hci in Hc. injection Hc as <-. unfold slot_ok. by rewrite Hview.
    + unfold keyed. by rewrite Hview.
Qed.
(** *** The address *)

Lemma addr_chunk_made pc off target tick :
  pc <> 0 -> 0 <= off < 16 ->
  exists c1 c2, make pc off true ADDR = Ok c1 /\ chunkType c1 = ADDR /\
    set_target_addr target c1 = Ok c2 /\
    let c := set_generating_pc pc (set_gen_pc_in_tick tick c2) in
    chunkType c = ADDR /\ get_generating_pc c = Ok pc /\ get_data_field_offset c = Ok off /\
    is_whb_search c = false.
Proof.
  intros Hpc Hoff. unfold make.
  assert ((off =? 24) = false) as -> by (apply Z.eqb_neq; lia).
  assert ((pc =? 0) = false) as -> by (by apply Z.eqb_neq).
  assert ((off =? UINT64_MAX) = false) as -> by (apply Z.eqb_neq; unfold UINT64_MAX; lia).
  cbn [panic_if mbind res_bind]. eexists _, _. split; [reflexivity|]. split; [done|].
  split; [reflexivity|]. split; [done|]. split.
  - unfold get_generating_pc, has_generating_pc, has. cbn. by flag_simpl.
  - split.
    + unfold get_data_field_offset, has. cbn. by flag_simpl.
    + unfold is_whb_search, has. cbn. by flag_simpl.
Qed.

Lemma find_addr_key ws w : find_addr ws = Some w -> is_Some (find_key ws).
Proof.
  unfold find_addr, find_key. intros Hw. apply List.find_some in Hw as [Hin Hp].
  destruct (List.find (fun w => el w && (_ || _)) ws) eqn:E; [done|].
  apply (List.find_none _ _ E) in Hin. apply andb_true_iff in Hp as [He Hp].
  rewrite He, Hp in Hin. done.
Qed.

Lemma find_addr_app ws w :
  el w = true -> find_addr (ws ++ [w]) =
    match find_addr ws with
    | Some w' => Some w'
    | None => if pointsw w then Some w else None
    end.
Proof.
  intros He. unfold find_addr. rewrite find_app. destruct (List.find _ ws); [done|].
  cbn. by rewrite He.
Qed.

(** The outcome of the undefined reads that a search of the history makes: none
    when no store has the address. *)
Definition rereads (ws : list WHB.t) : res unit :=
  match find_addr ws with
  | Some w => match addr_index w a with
              | Some j => reread ub (WHB.get_cacheline w) (Z.of_nat j) ;; Ok tt
              | None => Ok tt
              end
  | None => Ok tt
  end.

Lemma search_addr_ok ws w s whbSize :
  store_ok w -> el w = true -> outer ws s ->
  match rereads (ws ++ [w]) with
  | Ok _ => exists s', search_addr ub a whbSize w (with_lastTick (WHB.genTick w) s) = Ok s' /\
      inner ws w 0 s'
  | Fail e => find_addr ws = None ->
      search_addr ub a whbSize w (with_lastTick (WHB.genTick w) s) = Fail e
  end.
Proof.
  intros Hw He [Hfr Hs Ha Hk Hc Hu _]. unfold search_addr. cbn [addrPredFound with_lastTick].
  assert (forall i c, chunks s !! i = Some c ->
    slot_ok (if decide (i < 0)%nat then ws ++ [w] else ws) i c) as Hs0
    by (intros i c Hi; rewrite decide_False by lia; by apply Hs).
  assert (forall k, is_Some (usedWHBIndices s !! k) -> 0 <= k <= Z.of_nat (length ws)) as Hu0
    by (intros k Hk'; specialize (Hu k Hk'); lia).
  assert (frame (with_lastTick (WHB.genTick w) s)) as Hfr0 by (by destruct Hfr).
  unfold addr_state in Ha. unfold rereads. rewrite find_addr_app by done.
  destruct (find_addr ws) as [w'|] eqn:Ea.
  { destruct Ha as [Hf Hac]. rewrite Hf. case_match; [|done]. eexists. split; [reflexivity|]. split; try done.
    - unfold addr_state. by rewrite find_addr_app, Ea.
    - cbn [hashQueue with_lastTick]. rewrite Hk.
      by destruct (find_addr_key ws w' Ea) as [x ->]. }
  rewrite Ha, addr_offset_ok by done. cbn [mbind res_bind]. rewrite int_result_none. unfold pointsw.
  destruct (addr_index w a) as [j|] eqn:Ej.
  2:{ rewrite !bool_decide_false, bool_decide_true by (done || by intros []). eexists. split; [reflexivity|].
      split; try done.
      - unfold addr_state. rewrite find_addr_app, Ea by done. unfold pointsw. by rewrite Ej.
      - cbn [hashQueue with_lastTick]. rewrite Hk. unfold pointsw. rewrite Ej.
        by destruct (find_key ws). }
  rewrite (bool_decide_true (is_Some _)), (bool_decide_false (Some _ = None)), Ej by (done || eauto).
  cbn [CacheLine.int_result].
  assert ((WHB.get_pc w =? 0) = false) as -> by (apply Z.eqb_neq, Hw).
  cbn [negb assert_that mbind res_bind].
  rewrite (first_valid_ok w j) by (done || by eapply addr_index_view). cbn [mbind res_bind].
  destruct (offset_ok w j Hw) as (-> & Hr & _); [by eapply addr_index_view|].
  destruct (addr_chunk_made (WHB.get_pc w) (offset_of w j) (cacheline_align
    (match reread ub (WHB.get_cacheline w) (Z.of_nat j) with Ok x => x | Fail _ => 0 end)) (WHB.genTick w))
    as (c1 & c2 & -> & Ht1 & Et & Hc2); [apply Hw|done|]. cbn [mbind res_bind].
  unfold PTE.set_addr_chunk, get_chunk_type. rewrite Ht1. change (type_eqb ADDR ADDR) with true.
  cbn [assert_that mbind res_bind PTE.addrChunk PTE.with_addrChunk].
  destruct (reread ub (WHB.get_cacheline w) (Z.of_nat j)) as [x|e]; cbn [mbind res_bind]; [|done].
  rewrite Et. cbn [mbind res_bind].
  rewrite get_gen_tick_ok, store_path_hash_ok by done. cbn [mbind res_bind].
  eexists. split; [reflexivity|]. split; try done.
  - by destruct Hfr.
  - unfold addr_state. rewrite find_addr_app, Ea by done. unfold pointsw. rewrite Ej.
    cbn [bool_decide]. split; [done|]. exists j. done.
  - cbn [hashQueue capture with_lastTick]. rewrite head_snoc, Hk. unfold pointsw. rewrite Ej.
    by destruct (find_key ws).
  - cbn [usedWHBIndices capture with_lastTick]. intros i Hi.
    destruct (decide (Z.of_nat (whb_iter_cnt s) = i)) as [<-|]; [rewrite Hc; lia|].
    rewrite lookup_insert_ne in Hi by done. by apply Hu0.
Qed.
(** *** One entry of the history *)

Lemma find_skip {A} (p : A -> bool) l x : p x = false -> List.find p (l ++ [x]) = List.find p l.
Proof. intros H. rewrite find_app. cbn. rewrite H. by destruct (List.find p l). Qed.

Lemma outer_skip ws w s : el w = false -> outer ws s -> outer (ws ++ [w]) (next_entry s).
Proof.
  intros He [Hfr Hs Ha Hk Hc Hu Ht].
  assert (find_addr (ws ++ [w]) = find_addr ws) as EA by (apply find_skip; by rewrite He).
  assert (find_key (ws ++ [w]) = find_key ws) as EK by (apply find_skip; by rewrite He).
  assert (forall d, find_word (ws ++ [w]) d = find_word ws d) as EW
    by (intros d; apply find_skip; by rewrite He).
  split; [by destruct Hfr| | | | | |].
  - intros i c Hi. specialize (Hs i c Hi). unfold slot_ok in *. by case_match; rewrite ?EW.
  - unfold addr_state in *. by rewrite EA.
  - by rewrite EK.
  - cbn. rewrite Hc, length_app. cbn. lia.
  - cbn. intros k Hk'. specialize (Hu k Hk'). rewrite length_app. lia.
  - destruct Ht as [Ht|(w' & Hin & Ht)]; [by left|right]. exists w'. cbn. set_solver.
Qed.

Lemma outer_next ws w s :
  el w = true -> inner ws w DATA_CHUNK_COUNT s -> outer (ws ++ [w]) (next_entry s).
Proof.
  intros He [Hfr Hs Ha Hk Hc Hu Ht]. split; [by destruct Hfr| |done| | | |].
  - intros i c Hi. specialize (Hs i c Hi). rewrite decide_True in Hs; [done|].
    apply lookup_lt_Some in Hi. pose proof (fr_len _ Hfr). unfold chunks in *. cbn in *. lia.
  - cbn [hashQueue next_entry]. rewrite Hk. unfold find_key. rewrite find_app.
    destruct (List.find _ ws); [done|]. unfold List.find at 1. rewrite He. done.
  - cbn. rewrite Hc, length_app. cbn. lia.
  - cbn. intros k Hk'. specialize (Hu k Hk'). rewrite length_app. cbn. lia.
  - right. exists w. split; [set_solver|done].
Qed.

(** The first store with the address decides. *)
Lemma rereads_app ws w w' : find_addr ws = Some w' -> rereads (ws ++ [w]) = rereads ws.
Proof. intros H. unfold rereads, find_addr in *. by rewrite find_app, H. Qed.

Lemma rereads_skip ws w : el w = false -> rereads (ws ++ [w]) = rereads ws.
Proof. intros H. unfold rereads, find_addr. rewrite find_skip; [done|]. by rewrite H. Qed.

Lemma inner_loop ws w s whbSize :
  store_ok w -> el w = true -> inner ws w 0 s ->
  exists s', for_each (seq 0 DATA_CHUNK_COUNT)
      (search_chunk a (CacheLine.dataChunks line) whbSize w) s = Ok s' /\
    inner ws w DATA_CHUNK_COUNT s'.
Proof.
  intros Hw He Hin. apply (for_each_seq (inner ws w)); [done|].
  intros i t Hi Ht. by apply search_chunk_ok.
Qed.
End Found.

(** ** The whole search *)

(** The history is ordered by time. *)
Definition ordered (ws : list WHB.t) : Prop :=
  forall ws1 w ws2, ws = ws1 ++ w :: ws2 -> forall w', w' ∈ ws1 -> WHB.genTick w' <= WHB.genTick w.

Section Loop.
Variable ub : undefined_reads.
Variable dis : bool.
Variable sh : SharedArea.t.
Variable a : Z.
Variable line : CacheLine.t.
Variable e0 : PTE.t.
Hypothesis line_wf : CacheLine.wf line.
Hypothesis a_range : is_u64 a.
Notation el := (eligible dis sh).

Lemma scan_entry_ok ws w s whbSize :
  store_ok w -> outer el a line e0 ws s -> lastTick s <= WHB.genTick w ->
  match rereads el a ub (ws ++ [w]) with
  | Ok _ => exists s', scan_entry ub dis sh a (CacheLine.dataChunks line) whbSize w s = Ok s' /\
      outer el a line e0 (ws ++ [w]) s'
  | Fail e => find_addr el a ws = None ->
      scan_entry ub dis sh a (CacheLine.dataChunks line) whbSize w s = Fail e
  end.
Proof.
  intros Hw Ho Ht. unfold scan_entry. destruct (eligible dis sh w) eqn:He.
  - rewrite get_gen_tick_ok by done. cbn [mbind res_bind].
    destruct (Z.ltb_spec (WHB.genTick w) (lastTick s)); [lia|]. cbn [panic_if mbind res_bind].
    pose proof (search_addr_ok el a line e0 ub a_range ws w s whbSize Hw He Ho) as Hs.
    destruct (rereads el a ub (ws ++ [w])) as [u|e]; [|intros Hn; by rewrite (Hs Hn)].
    destruct Hs as (s1 & -> & H1). cbn [mbind res_bind].
    destruct (inner_loop el a line e0 line_wf ws w s1 whbSize Hw He H1) as (s2 & -> & H2).
    cbn [mbind res_bind]. eexists. split; [reflexivity|]. by apply outer_next.
  - rewrite rereads_skip by done. cbn [mbind res_bind]. unfold rereads at 1.
    destruct (find_addr el a ws); [case_match; [|done]|]; (eexists; split; [reflexivity|]); by apply outer_skip.
Qed.

Lemma scan_loop ws s whbSize :
  Forall store_ok ws -> Forall (fun w => 0 <= WHB.genTick w) ws -> ordered ws ->
  outer el a line e0 [] s ->
  let scanned := for_each ws (scan_entry ub dis sh a (CacheLine.dataChunks line) whbSize) s in
  match rereads el a ub ws with
  | Ok _ => exists s', scanned = Ok s' /\ outer el a line e0 ws s'
  | Fail e => scanned = Fail e
  end.
Proof.
  intros Hws Hpos Hord H0. induction ws as [|w ws IH] using rev_ind; [by exists s|].
  apply Forall_app in Hws as [Hws Hw]. apply Forall_cons in Hw as [Hw _].
  apply Forall_app in Hpos as [Hpos Hp]. apply Forall_cons in Hp as [Hp _].
  specialize (IH Hws Hpos). cbn zeta in *. rewrite for_each_app.
  assert (ordered ws) as Ho
    by (intros ws1 x ws2 ->; apply (Hord ws1 x (ws2 ++ [w])); by rewrite <- app_assoc).
  specialize (IH Ho). destruct (rereads el a ub ws) as [u|e] eqn:Er.
  - destruct IH as (s1 & -> & H1). cbn [mbind res_bind for_each].
    pose proof (scan_entry_ok ws w s1 whbSize Hw H1) as Hs.
    assert (lastTick s1 <= WHB.genTick w) as Hl.
    { destruct (ou_tick _ _ _ _ _ _ H1) as [->|(w' & Hin & ->)]; [done|]. by apply (Hord ws w []). }
    specialize (Hs Hl). destruct (find_addr el a ws) as [w'|] eqn:Ef.
    + rewrite (rereads_app _ _ _ _ _ _ Ef), Er in Hs |- *. destruct Hs as (s2 & -> & H2). by exists s2.
    + destruct (rereads el a ub (ws ++ [w])); [|by rewrite Hs].
      destruct Hs as (s2 & -> & H2). by exists s2.
  - rewrite IH. cbn [mbind res_bind].
    destruct (find_addr el a ws) as [w'|] eqn:Ef; [by rewrite (rereads_app _ _ _ _ _ _ Ef), Er|].
    unfold rereads in Er. by rewrite Ef in Er.
Qed.
(** *** The outcome *)

Definition foundb (ws : list WHB.t) (i : nat) : bool :=
  match CacheLine.view (CacheLine.dataChunks line) i with
  | Some d => bool_decide (is_Some (find_word el ws d))
  | None => true
  end.
Definition all_found (ws : list WHB.t) : bool := forallb (foundb ws) (seq 0 DATA_CHUNK_COUNT).

Lemma slot_line ws i c : slot_ok el line ws i c -> line_chunk c.
Proof.
  unfold slot_ok. destruct (CacheLine.view _ i) as [d|]; [destruct (find_word el ws d) as [w|]|].
  - by intros (j & _ & H & _).
  - intros [H _]. by left.
  - intros [H _]. by left.
Qed.

Lemma outer_chunks ws s :
  outer el a line e0 ws s -> CacheLine.wf_chunks (PTE.dataChunks (entryToInsert s)).
Proof.
  intros Ho. split; [apply (ou_frame _ _ _ _ _ _ Ho)|]. apply Forall_lookup. intros i c Hi.
  eapply slot_line. by apply (ou_slots _ _ _ _ _ _ Ho).
Qed.

Lemma slot_valid ws i c d :
  slot_ok el line ws i c -> CacheLine.view (CacheLine.dataChunks line) i = Some d ->
  validb c = bool_decide (is_Some (find_word el ws d)) /\
  isComplete c = bool_decide (is_Some (find_word el ws d)).
Proof.
  unfold slot_ok. intros H Hd. rewrite Hd in H. destruct (find_word el ws d) as [w|].
  - by destruct H as (j & _ & _ & Hv & Hc & _).
  - destruct H as (Ht & Hc & _). rewrite bool_decide_false by (by intros []).
    unfold validb. by rewrite Ht.
Qed.

(** The count of missing chunks is zero exactly when all were found. *)
Lemma missing_ok ws s :
  outer el a line e0 ws s ->
  exists n, missing_chunks (CacheLine.dataChunks line) (entryToInsert s) = Ok n /\
    (n =? 0) = all_found ws.
Proof.
  intros Ho. unfold missing_chunks. pose proof (outer_chunks ws s Ho) as Hcs.
  edestruct (for_each_seq (fun k n => 0 <= n /\ (n =? 0) = forallb (foundb ws) (seq 0 k))
    DATA_CHUNK_COUNT) as (n & E & _ & Hn); [| |exists n; split; [exact E|exact Hn]]; [done|].
  intros i n Hi [Hpos Hn]. destruct (CacheLine.wf_lookup _ i line_wf Hi) as (lc & Elc & Llc).
  destruct (CacheLine.wf_lookup _ i Hcs Hi) as (c & Ec & Lc).
  pose proof (ou_slots _ _ _ _ _ _ Ho i c Ec) as Hs.
  rewrite Elc. cbn [deref mbind res_bind]. rewrite is_valid_legal by (by apply line_chunk_legal).
  cbn [mbind res_bind]. rewrite seq_S, forallb_app, <- Hn. cbn [forallb Nat.add].
  rewrite andb_true_r.
  assert (CacheLine.view (CacheLine.dataChunks line) i =
    if validb lc then Some (datum lc) else None) as Hv by (unfold CacheLine.view; by rewrite Elc).
  unfold foundb. rewrite Hv. destruct (validb lc) eqn:V.
  - destruct (slot_valid ws i c (datum lc) Hs) as [Hvc _]; [done|].
    rewrite Ec. cbn [deref mbind res_bind]. rewrite is_invalid_legal by (by apply line_chunk_legal).
    cbn [mbind res_bind]. rewrite Hvc. rewrite (get_data_line lc) by done.
    case_bool_decide; cbn [negb mbind res_bind]; eexists; (split; [reflexivity|]).
    + by rewrite andb_true_r.
    + rewrite andb_false_r. split; [lia|]. apply Z.eqb_neq. lia.
  - eexists. split; [reflexivity|]. by rewrite andb_true_r.
Qed.

Lemma data_found ws s :
  outer el a line e0 ws s -> all_found ws = true ->
  (exists i d, CacheLine.view (CacheLine.dataChunks line) i = Some d) ->
  dataPredFound s = true /\ exists c, c ∈ PTE.dataChunks (entryToInsert s) /\ validb c = true.
Proof.
  intros Ho Hall (i & d & Hd). pose proof (CacheLine.view_bound _ _ _ line_wf Hd) as Hi.
  pose proof (outer_chunks ws s Ho) as Hcs.
  destruct (CacheLine.wf_lookup _ i Hcs Hi) as (c & Ec & Lc).
  pose proof (ou_slots _ _ _ _ _ _ Ho i c Ec) as Hs.
  destruct (slot_valid ws i c d Hs Hd) as [Hv Hc].
  unfold all_found in Hall. rewrite forallb_forall in Hall.
  specialize (Hall i ltac:(apply List.in_seq; lia)). unfold foundb in Hall. rewrite Hd in Hall.
  rewrite Hall in Hv, Hc. split.
  - rewrite (fr_data _ _ (ou_frame _ _ _ _ _ _ Ho)). apply existsb_exists. exists i.
    split; [apply List.in_seq; lia|]. unfold done_at, chunks. by rewrite Ec.
  - exists c. split; [by eapply list_elem_of_lookup_2|done].
Qed.
End Loop.

(** ** The result of a write back *)

(** [with_stats] only changes counters. *)
Definition counts (f f' : t) : Prop := exists g, f' = with_stats g f.

Lemma counts_refl f : counts f f.
Proof. exists id. by destruct f. Qed.
Lemma counts_step f f' g : counts f f' -> counts f (with_stats g f').
Proof. intros [h ->]. by exists (fun st => g (h st)). Qed.
Lemma counts_if (b : bool) f f' g : counts f f' -> counts f (if b then f' else with_stats g f').
Proof. destruct b; [done|apply counts_step]. Qed.
Lemma counts_if' (b : bool) f f' g : counts f f' -> counts f (if b then with_stats g f' else f').
Proof. destruct b; [apply counts_step|done]. Qed.
Lemma counts_fold {A} (g : A -> Stats.t -> Stats.t) l f f' :
  counts f f' -> counts f (foldl (fun f d => with_stats (g d) f) f' l).
Proof.
  revert f'. induction l as [|d l IH]; intros f' H; [done|]. cbn. by apply IH, counts_step.
Qed.

(** An entry of the predictor table made from the stores [ws]. *)
Record entry_for (el : WHB.t -> bool) (a : Z) (line : CacheLine.t) (ws : list WHB.t) (e : PTE.t)
    : Prop := {
  ef_words : forall i d, CacheLine.view (CacheLine.dataChunks line) i = Some d ->
    exists w c, find_word el ws d = Some w /\ PTE.dataChunks e !! i = Some c /\ word_chunk_ok w d c;
  ef_blank : forall i, CacheLine.view (CacheLine.dataChunks line) i = None ->
    CacheLine.view (PTE.dataChunks e) i = None;
  ef_addr : exists w, find_addr el a ws = Some w /\ addr_chunk_ok a w (PTE.addrChunk e);
  ef_orig : PTE.hasOrigCL e = true /\ PTE.originalCacheLine e = line;
  ef_hash : exists w, find_key el a line ws = Some w /\
    PTE.hasHash e = true /\ PTE.hash e = WHB.pathHash w
}.

Section Outcome.
Context `{O : IterOrder}.
Variable now : Z.
Variable f : t.
Variable a : Z.
Variable line : CacheLine.t.
Hypothesis line_wf : CacheLine.wf line.
Hypothesis line_some : exists i d, CacheLine.view (CacheLine.dataChunks line) i = Some d.
Hypothesis a_range : is_u64 a.
Notation el := (eligible (disablePerPCConfidence (cfg f)) (shared f)).
Notation pcfg := (PredictorTable.entry_config (PredictorTable.cfg (predictorTable f))).
Notation e0 := (PTE.new pcfg now).

Definition rewards_ok (c : PTE.config) : Prop := 0 <= PTE.addrReward c /\ 0 <= PTE.dataReward c.

Definition inserted_entry (h : Z) (s : scan) : PTE.t :=
  PTE.set_hash h (PTE.set_original_cacheline line (with_diag (cacheline_align a) (entryToInsert s))).

Lemma inserted_elem_ok ws s h :
  rewards_ok pcfg -> outer el a line e0 ws s -> PredictorTable.elem_ok (inserted_entry h s).
Proof.
  intros Hr Ho. pose proof (fr_shell _ _ (ou_frame _ _ _ _ _ _ Ho)) as Hsh.
  pose proof (f_equal PTE.addrConf Hsh) as H1. pose proof (f_equal PTE.dataConf Hsh) as H2.
  pose proof (f_equal PTE.CORRECT_ADDR_PREDICTION_AGE_REWARD Hsh) as H3.
  pose proof (f_equal PTE.CORRECT_DATA_PREDICTION_AGE_REWARD Hsh) as H4.
  cbn in H1, H2, H3, H4. split; try done; cbn.
  - rewrite H1, H2. split; apply Confidence.make_wf; cbv; by repeat split.
  - rewrite H3, H4. done.
  - by eapply outer_chunks.
Qed.

Lemma inserted_entry_for ws s w :
  outer el a line e0 ws s -> is_Some (find_addr el a ws) -> all_found (disablePerPCConfidence (cfg f))
    (shared f) line ws = true -> find_key el a line ws = Some w ->
  entry_for el a line ws (inserted_entry (WHB.pathHash w) s).
Proof.
  intros Ho [wa Ha] Hall Hk. pose proof (outer_chunks _ _ _ _ _ _ _ Ho) as Hcs.
  split.
  - intros i d Hd. pose proof (CacheLine.view_bound _ _ _ line_wf Hd) as Hi.
    destruct (CacheLine.wf_lookup _ i Hcs Hi) as (c & Ec & _).
    pose proof (ou_slots _ _ _ _ _ _ Ho i c Ec) as Hs. unfold slot_ok in Hs. rewrite Hd in Hs.
    unfold all_found in Hall. rewrite forallb_forall in Hall.
    specialize (Hall i ltac:(apply List.in_seq; lia)). unfold foundb in Hall. rewrite Hd in Hall.
    apply bool_decide_eq_true in Hall as [w' Hw']. rewrite Hw' in Hs. by exists w', c.
  - intros i Hn. unfold CacheLine.view at 1. cbn.
    destruct (PTE.dataChunks (entryToInsert s) !! i) as [c|] eqn:Ec; [|done].
    pose proof (ou_slots _ _ _ _ _ _ Ho i c Ec) as Hs. unfold slot_ok in Hs. rewrite Hn in Hs.
    destruct Hs as [Ht _]. unfold validb. by rewrite Ht.
  - pose proof (ou_addr _ _ _ _ _ _ Ho) as Hst. unfold addr_state in Hst. rewrite Ha in Hst.
    exists wa. split; [done|]. apply Hst.
  - done.
  - exists w. done.
Qed.
Notation found ws := (bool_decide (is_Some (find_addr el a ws)) &&
  all_found (disablePerPCConfidence (cfg f)) (shared f) line ws).

Lemma valid_count_pos cs c :
  CacheLine.wf_chunks cs -> c ∈ cs -> validb c = true ->
  exists n, valid_count cs = Ok n /\ (n =? 0) = false.
Proof.
  intros Hcs Hin Hv. unfold valid_count. rewrite valid_count_legal by (by apply CacheLine.wf_legal).
  eexists. split; [reflexivity|]. apply Z.eqb_neq.
  assert (c ∈ filter (fun c => validb c = true) cs) as Hf by (by apply list_elem_of_filter).
  destruct (filter _ cs); [by apply not_elem_of_nil in Hf|]. cbn. lia.
Qed.

Lemma conclude_ok ws s n f0 :
  PredictorTable.wf (predictorTable f) -> rewards_ok pcfg -> SharedArea.conf_bounded (shared f) ->
  counts f f0 -> outer el a line e0 ws s ->
  (n =? 0) = all_found (disablePerPCConfidence (cfg f)) (shared f) line ws ->
  exists f', conclude a line n s f0 = Ok f' /\
    if found ws then
      exists e p sh, entry_for el a line ws e /\ PredictorTable.elem_ok e /\
        PredictorTable.add e (predictorTable f) (shared f) = Ok (p, sh) /\
        PredictorTable.wf p /\ SharedArea.conf_bounded sh /\
        exists g, f' = with_predictor p sh (with_stats g f)
    else counts f f'.
Proof.
  intros Hp Hr Hb Hf0 Ho Hn. unfold conclude. rewrite Hn.
  assert (addrPredFound s = bool_decide (is_Some (find_addr el a ws))) as Ha.
  { pose proof (ou_addr _ _ _ _ _ _ Ho) as Hst. unfold addr_state in Hst.
    destruct (find_addr el a ws); [by destruct Hst as [-> _]|done]. }
  rewrite Ha. set (ba := bool_decide (is_Some (find_addr el a ws))).
  set (all := all_found _ _ line ws) in *.
  assert (ba && (dataPredFound s && all) = ba && all) as Hfa.
  { destruct all eqn:Eall; [|by rewrite !andb_false_r].
    destruct (data_found _ _ _ _ _ line_wf ws s Ho Eall line_some) as [-> _]. done. }
  rewrite Hfa. set (f1 := with_stats (Stats.incr (if ba then _ else _)) _).
  assert (counts f f1) as [g1 E1].
  { unfold f1. apply counts_step, counts_if, counts_step, counts_if', Hf0. }
  destruct (ba && all) eqn:Hfound; [|exists f1; split; [done|by exists g1]].
  apply andb_true_iff in Hfound as [Hba Hall]. rewrite Hba. cbn [andb].
  destruct (data_found _ _ _ _ _ line_wf ws s Ho Hall line_some) as [-> (c & Hc & Hv)].
  rewrite Hall. cbn [negb andb].
  apply bool_decide_eq_true in Hba.
  pose proof Hba as [wa Hwa]. destruct (find_addr_key el a line ws wa Hwa) as [w Hw].
  pose proof (ou_key _ _ _ _ _ _ Ho) as Hk. rewrite Hw in Hk. cbn in Hk.
  destruct (hashQueue s) as [|h q]; [done|]. injection Hk as ->.
  cbn [length bool_decide lookup list_lookup].
  rewrite bool_decide_false by done. cbn [panic_if mbind res_bind at_].
  unfold addToPredictorTable. cbn [PTE.dataChunks PTE.set_original_cacheline with_diag].
  destruct (valid_count_pos (PTE.dataChunks (entryToInsert s)) c) as (m & -> & Hm);
    [by eapply outer_chunks|done|done|]. cbn [mbind res_bind]. rewrite Hm.
  cbn [panic_if mbind res_bind PTE.has_orig_cacheline PTE.hasOrigCL panic_if_not negb].
  change (PTE.set_hash (WHB.pathHash w) _) with (inserted_entry (WHB.pathHash w) s).
  pose proof (inserted_elem_ok ws s (WHB.pathHash w) Hr Ho) as Hel.
  destruct (PredictorTable.add_ok _ _ _ Hp Hel Hb) as (p & sh & e' & Eadd & Hwp & Hbs & _).
  rewrite E1. cbn [predictorTable shared with_stats]. rewrite Eadd. cbn [mbind res_bind].
  eexists. split; [reflexivity|]. exists (inserted_entry (WHB.pathHash w) s), p, sh.
  split; [by apply inserted_entry_for|]. repeat (split; [done|]).
  by exists (fun st => Stats.incr "pWritesFoundInWHB" (g1 st)).
Qed.

(** *** Marking the stores used *)

(** The history with some stores marked. *)
Definition marked (ws ws' : list WHB.t) : Prop :=
  Forall2 (fun w w' => w' = w \/ w' = WHB.use w) ws ws'.

Lemma marked_refl ws : marked ws ws.
Proof. apply Forall_Forall2_diag, Forall_true. by left. Qed.

Lemma marked_use ws ws' i w' :
  marked ws ws' -> ws' !! i = Some w' -> marked ws (<[i := WHB.use w']> ws').
Proof.
  intros H Hi. destruct (Forall2_lookup_r _ _ _ _ _ H Hi) as (w & Hw & Hor).
  rewrite <- (list_insert_id ws i w Hw). apply Forall2_insert; [done|].
  right. by destruct Hor as [->| ->].
Qed.

Lemma mark_ok indices q f1 :
  FixedSizeQueue.ok q -> writeHistoryBuffer f1 = q ->
  (forall k, is_Some (indices !! k) -> 0 <= k < Z.of_nat (length (FixedSizeQueue.queue q))) ->
  exists q', markIHBEntriesAsUsed indices f1 = Ok (with_whb q' f1) /\
    FixedSizeQueue.store q' = FixedSizeQueue.store q /\ FixedSizeQueue.sz q' = FixedSizeQueue.sz q /\
    marked (FixedSizeQueue.queue q) (FixedSizeQueue.queue q').
Proof.
  intros Hq Eq Hi. unfold markIHBEntriesAsUsed.
  destruct (for_each_total (fun f' => exists q', f' = with_whb q' f1 /\
      FixedSizeQueue.store q' = FixedSizeQueue.store q /\ FixedSizeQueue.sz q' = FixedSizeQueue.sz q /\
      marked (FixedSizeQueue.queue q) (FixedSizeQueue.queue q'))
    (iter indices) (fun '(i, _) f => let q := writeHistoryBuffer f in
       w ← FixedSizeQueue.get (Z.to_nat i) q;
       Ok (with_whb (FixedSizeQueue.mk (FixedSizeQueue.store q) (FixedSizeQueue.sz q)
             (<[Z.to_nat i := WHB.use w]> (FixedSizeQueue.queue q))) f)) f1)
    as (f' & E & q' & -> & H); [| |by exists q'].
  - exists q. split; [subst q; by destruct f1|]. split; [done|]. split; [done|]. apply marked_refl.
  - intros [k b] f' Hin (q' & -> & Hst & Hsz & Hm). apply elem_of_iter in Hin.
    specialize (Hi k ltac:(eauto)). cbn [writeHistoryBuffer with_whb].
    assert (length (FixedSizeQueue.queue q') = length (FixedSizeQueue.queue q)) as Hlen
      by (symmetry; by eapply Forall2_length).
    destruct (lookup_lt_is_Some_2 (FixedSizeQueue.queue q') (Z.to_nat k)) as [w Hw]; [lia|].
    unfold FixedSizeQueue.get, FixedSizeQueue.get_size.
    rewrite (bool_decide_true (_ <= _)%nat) by (rewrite Hlen, Hsz; apply Hq).
    cbn [assert_that mbind res_bind]. rewrite bool_decide_false by lia.
    cbn [panic_if mbind res_bind]. rewrite Hw. cbn [at_ mbind res_bind].
    eexists. split; [reflexivity|]. eexists. split; [reflexivity|].
    split; [done|]. split; [done|]. by apply marked_use.
Qed.
End Outcome.

(** What the search needs of the frontend. *)
Record ready (f : t) : Prop := {
  rd_enabled : Backend.predictorEnabled (backend f) = true;
  rd_whb : FixedSizeQueue.ok (writeHistoryBuffer f);
  rd_stores : Forall store_ok (FixedSizeQueue.queue (writeHistoryBuffer f));
  rd_ticks : Forall (fun w => 0 <= WHB.genTick w) (FixedSizeQueue.queue (writeHistoryBuffer f));
  rd_order : ordered (FixedSizeQueue.queue (writeHistoryBuffer f));
  rd_table : PredictorTable.wf (predictorTable f);
  rd_rewards : rewards_ok (PredictorTable.entry_config (PredictorTable.cfg (predictorTable f)));
  rd_conf : SharedArea.conf_bounded (shared f);
  rd_stride : AddrPredictor.ok (addrPredictor f)
}.

(** What the search leaves alone. *)
Record same_rest (f f' : t) : Prop := {
  sr_cfg : cfg f' = cfg f;
  sr_pending : pendingTable f' = pendingTable f;
  sr_parents : parents f' = parents f;
  sr_next : nextParent f' = nextParent f;
  sr_acc : cacheLineAccumulator f' = cacheLineAccumulator f;
  sr_ticks : lastWriteTickToAddr f' = lastWriteTickToAddr f;
  sr_backend : backend f' = backend f
}.

Lemma start_outer el a line c now : outer el a line (PTE.new c now) [] (start c now).
Proof.
  split; try done.
  - intros i ch Hi. unfold chunks, start in Hi. cbn [entryToInsert PTE.new PTE.dataChunks] in Hi.
    apply lookup_replicate in Hi as [-> _]. unfold slot_ok. by case_match.
  - intros k [? Hk]. cbn [usedWHBIndices start] in Hk. by rewrite lookup_empty in Hk.
  - by left.
Qed.

Lemma dump_ok ws : Forall store_ok ws -> dump ws = Ok tt.
Proof.
  unfold dump. induction 1 as [|w ws Hw _ IH]; [done|]. cbn [for_each].
  rewrite CacheLine.print_ok by apply Hw. rewrite get_gen_tick_ok by done. exact IH.
Qed.

Definition history (f : t) : list WHB.t := FixedSizeQueue.queue (writeHistoryBuffer f).
Definition el_of (f : t) : WHB.t -> bool := eligible (disablePerPCConfidence (cfg f)) (shared f).
Definition found (f : t) (a : Z) (line : CacheLine.t) : bool :=
  bool_decide (is_Some (find_addr (el_of f) a (history f))) &&
  all_found (disablePerPCConfidence (cfg f)) (shared f) line (history f).

(** What the undefined reads of the write back of line [a] come to. *)
Definition lost_read (ub : undefined_reads) (a : Z) (f : t) : res unit :=
  rereads (el_of f) a ub (history f).

(** What a search that returns leaves. *)
Record searched `{O : IterOrder} (a : Z) (line : CacheLine.t) (f f' : t) : Prop := {
  se_rest : same_rest f f';
  se_marked : marked (history f) (history f');
  se_whb : FixedSizeQueue.ok (writeHistoryBuffer f');
  se_stride : AddrPredictor.set_last_seen_addr a (addrPredictor f) = Ok (addrPredictor f');
  se_stride_ok : AddrPredictor.ok (addrPredictor f');
  se_table :
    if found f a line then
      exists e, entry_for (el_of f) a line (history f) e /\ PredictorTable.elem_ok e /\
        PredictorTable.add e (predictorTable f) (shared f) = Ok (predictorTable f', shared f') /\
        PredictorTable.wf (predictorTable f') /\ SharedArea.conf_bounded (shared f')
    else predictorTable f' = predictorTable f /\ shared f' = shared f
}.

Lemma process_ok `{O : IterOrder} ub now a f line :
  ready f -> cacheLineAccumulator f !! a = Some line -> CacheLine.wf line -> is_u64 a ->
  (exists i d, CacheLine.view (CacheLine.dataChunks line) i = Some d) ->
  match lost_read ub a f with
  | Ok _ => exists f', processLastAccLine ub now a f = Ok f' /\ searched a line f f'
  | Fail e => processLastAccLine ub now a f = Fail e
  end.
Proof.
  intros [R1 R2 R3 R4 R5 R6 R7 R8 R9] Ha Hl Hr Hsome. unfold processLastAccLine. rewrite R1.
  cbn [panic_if_not negb panic_if mbind res_bind cacheLineAccumulator with_stats]. rewrite Ha.
  cbn [at_ mbind res_bind]. rewrite CacheLine.all_invalid_legal by (by apply CacheLine.wf_legal).
  assert (existsb validb (CacheLine.dataChunks line) = true) as ->.
  { destruct Hsome as (i & d & Hd). unfold CacheLine.view in Hd.
    destruct (CacheLine.dataChunks line !! i) as [c|] eqn:Ec; [|done].
    destruct (validb c) eqn:Vc; [|done]. apply existsb_exists. exists c. split; [|done].
    apply list_elem_of_In. by eapply list_elem_of_lookup_2. }
  cbn [negb panic_if mbind res_bind addrPredictor with_stats].
  destruct (AddrPredictor.set_last_seen_addr_ok a (addrPredictor f) R9) as (ap & Eap & Hap & _).
  rewrite Eap. cbn [mbind res_bind].
  destruct (CacheLine.all_zeros_ok line Hl) as [z ->]. cbn [mbind res_bind].
  set (fb := with_addrPredictor ap f).
  set (f1 := if z then _ else _).
  assert (counts fb f1) as Hf1.
  { unfold f1. apply counts_if'. by exists (Stats.incr "pmAccumulatorFlushes"). }
  assert (writeHistoryBuffer f1 = writeHistoryBuffer f /\ cfg f1 = cfg f /\ shared f1 = shared f /\
    predictorTable f1 = predictorTable f) as (-> & -> & -> & ->) by (by destruct Hf1 as [g ->]).
  rewrite dump_ok by done. cbn [mbind res_bind].
  unfold FixedSizeQueue.get_size. rewrite bool_decide_true by apply R2.
  cbn [assert_that mbind res_bind].
  pose proof (scan_loop ub (disablePerPCConfidence (cfg f)) (shared f) a line
    (PTE.new (PredictorTable.entry_config (PredictorTable.cfg (predictorTable f))) now) Hl Hr
    (history f) (start (PredictorTable.entry_config (PredictorTable.cfg (predictorTable f))) now)
    (length (history f)) R3 R4 R5 (start_outer _ _ _ _ _)) as Hscan.
  fold (history f). cbn zeta in Hscan. unfold lost_read, el_of.
  destruct (rereads _ a ub (history f)) as [u|e]; [|by rewrite Hscan].
  destruct Hscan as (s & -> & Ho). cbn [mbind res_bind].
  destruct (missing_ok _ _ _ _ _ Hl (history f) s Ho) as (n & -> & Hn). cbn [mbind res_bind].
  destruct (conclude_ok now fb a line Hl Hsome (history f) s n
    (foldl (fun f d => with_stats (Stats.sample "pcCaptureDistance" d) f) f1 (distances s)))
    as (f2 & -> & H2); [done|done|done|by apply counts_fold|done|done|]. cbn [mbind res_bind].
  change (bool_decide _ && all_found _ _ line (history f)) with (found f a line) in H2.
  assert (writeHistoryBuffer f2 = writeHistoryBuffer f) as Ew.
  { destruct (found f a line); [|by destruct H2 as [g ->]].
    by destruct H2 as (e & p & sh & _ & _ & _ & _ & _ & g & ->). }
  destruct (mark_ok (usedWHBIndices s) (writeHistoryBuffer f) f2 R2 Ew) as (q & -> & Hst & Hsz & Hm).
  { apply (ou_used _ _ _ _ _ _ Ho). }
  assert (FixedSizeQueue.ok q) as Hq.
  { destruct R2 as [Q1 Q2 Q3]. pose proof (Forall2_length _ _ _ Hm) as Hlen.
    split; rewrite ?Hst, ?Hsz, <- ?Hlen; done. }
  eexists. split; [reflexivity|].
  destruct (found f a line) eqn:Hfd.
  - destruct H2 as (e & p & sh & He & Hel & Eadd & Hwp & Hbs & g & ->).
    split; [by split|done..|rewrite Hfd; by exists e].
  - destruct H2 as [g ->]. split; [by split|done..|by rewrite Hfd].
Qed.

(** On a machine where the words are still in place the reads succeed. *)
Lemma intact_reads a f : Forall store_ok (history f) -> lost_read intact a f = Ok tt.
Proof.
  intros Hall. unfold lost_read, rereads. destruct (find_addr (el_of f) a (history f)) as [w|] eqn:Ef; [|done].
  apply List.find_some in Ef as [Hin _]. apply list_elem_of_In in Hin.
  assert (store_ok w) as Hw by (by rewrite Forall_forall in Hall; apply Hall).
  destruct (addr_index w a) as [j|] eqn:Ej; [|done].
  assert (forall i, is_Some (CacheLine.view (words w) i) ->
    exists c d, CacheLine.dataChunks (WHB.get_cacheline w) !! i = Some c /\ get_data c = Ok d) as Hread.
  { intros i Hi. unfold CacheLine.view, words, WHB.get_cacheline in *.
    destruct (CacheLine.dataChunks (WHB.cacheLine w) !! i) as [c|] eqn:Ec; [|by destruct Hi].
    destruct (validb c) eqn:Vc; [|by destruct Hi]. exists c, (datum c). split; [done|].
    apply get_data_line; [|done].
    pose proof (CacheLine.wf_lookup _ i (st_wf _ Hw)) as Hl.
    destruct Hl as (c' & Ec' & Lc); [|by assert (c' = c) as <- by congruence].
    apply lookup_lt_Some in Ec. destruct (st_wf _ Hw) as [Hlen _]. by rewrite <- Hlen. }
  destruct (Hread j (addr_index_view _ _ _ Ej)) as (c1 & d1 & E1 & G1).
  destruct (Hread (S j) (addr_index_next _ _ _ Ej)) as (c2 & d2 & E2 & G2).
  unfold reread, intact. cbn [expired shifted].
  replace (Z.to_nat (Z.of_nat j + 1)) with (S j) by lia. rewrite Nat2Z.id, E1, E2.
  cbn [deref mbind res_bind]. rewrite G1. cbn [mbind res_bind]. rewrite G2. done.
Qed.

(** C27: the write back of an accumulated line with a word, with a well-formed
    history.  When an eligible store of the history contains the line's address, the
    code reads that address again through a pointer to a destroyed temporary, which
    is undefined in C++; whatever that read does, if it fails the write back fails in
    the same way.  In all other cases the write back returns.  An entry is then added
    to the predictor table exactly when such a store exists and every word of the line
    is in some eligible store; it names, for the address and for each word, the PC of
    the first such store and the offset inside it, has a word exactly where the line
    has one, and is keyed by the path hash of the first store that contributed the
    address or a non-zero word.  Otherwise the table is unchanged.  In both cases the
    address becomes the last one of the stride predictor and the history keeps its
    stores, some of them marked as used. *)
Theorem process_spec `{O : IterOrder} ub now a f line :
  ready f -> cacheLineAccumulator f !! a = Some line -> CacheLine.wf line -> is_u64 a ->
  (exists i d, CacheLine.view (CacheLine.dataChunks line) i = Some d) ->
  match lost_read ub a f with
  | Fail e => processLastAccLine ub now a f = Fail e
  | Ok _ =>
      exists f', processLastAccLine ub now a f = Ok f' /\
        (if found f a line then
           exists e, entry_for (el_of f) a line (history f) e /\
             PredictorTable.add e (predictorTable f) (shared f) = Ok (predictorTable f', shared f')
         else predictorTable f' = predictorTable f /\ shared f' = shared f) /\
        AddrPredictor.set_last_seen_addr a (addrPredictor f) = Ok (addrPredictor f') /\
        marked (history f) (history f') /\
        cacheLineAccumulator f' = cacheLineAccumulator f /\ backend f' = backend f
  end.
Proof.
  intros Hf Ha Hl Hr Hs. pose proof (process_ok ub now a f line Hf Ha Hl Hr Hs) as H.
  destruct (lost_read ub a f); [|done]. destruct H as (f' & E & [Hsame Hm _ Hap _ Ht]).
  exists f'. split; [done|]. split.
  - destruct (found f a line); [|done]. destruct Ht as (e & He & _ & Ha' & _). by exists e.
  - split; [done|]. split; [done|]. by destruct Hsame.
Qed.

(** ** The history of the stores *)

(** A store of [n] words whose request has the same size as its packet. *)
Record history_store (pkt : Packet.t) (v pc : Z) (data : list Z) (n : nat) : Prop := {
  hs_store : Frontend.store_ok pkt v pc data n;
  hs_write : Packet.isWrite pkt = true;
  hs_req : Packet.reqSize pkt / SIZEOF_DATACHUNK = Z.of_nat n;
  hs_pc : pc <> 0
}.

Lemma ordered_snoc_lastn k ws w :
  ordered ws -> (forall w', w' ∈ ws -> WHB.genTick w' <= WHB.genTick w) ->
  ordered (lastn k (ws ++ [w])).
Proof.
  intros Ho Hw ws1 x ws2 E w' Hin.
  pose proof (take_drop (length (ws ++ [w]) - k) (ws ++ [w])) as Htd.
  change (drop (length (ws ++ [w]) - k) (ws ++ [w])) with (lastn k (ws ++ [w])) in Htd.
  rewrite E in Htd. revert Htd. generalize (take (length (ws ++ [w]) - k) (ws ++ [w])). intros pre Htd.
  clear E.
  destruct ws2 as [|y ws2 _] using rev_ind.
  - rewrite app_assoc in Htd. apply app_inj_tail in Htd as [<- <-]. apply Hw. set_solver.
  - rewrite app_comm_cons, !app_assoc in Htd. apply app_inj_tail in Htd as [Htd _].
    rewrite <- app_assoc in Htd. cbn in Htd.
    apply (Ho (pre ++ ws1) x ws2); [|set_solver]. rewrite <- Htd, <- app_assoc. done.
Qed.

Lemma lastn_Forall {A} (Q : A -> Prop) k l x : Forall Q l -> Q x -> Forall Q (lastn k (l ++ [x])).
Proof. intros Hl Hx. unfold lastn. apply Forall_drop, Forall_app. split; [done|]. by constructor. Qed.

(** Every store enters the history, which keeps the last ones. *)
Lemma update_whb_ok now pkt v pc data n f :
  ready f -> history_store pkt v pc data n -> 0 <= now ->
  (forall w, w ∈ history f -> WHB.genTick w <= now) ->
  exists q e, updateWriteHistoryBuffer now pkt f = Ok (with_whb q f) /\ ready (with_whb q f) /\
    FixedSizeQueue.sz q = FixedSizeQueue.sz (writeHistoryBuffer f) /\
    FixedSizeQueue.queue q = lastn (FixedSizeQueue.sz (writeHistoryBuffer f)) (history f ++ [e]) /\
    WHB.pc e = pc /\ WHB.genTick e = now /\ WHB.get_size e = Ok (Z.of_nat n) /\
    forall j, CacheLine.view (words e) j = stored_view v data n (fun _ => None) j.
Proof.
  intros R [[Hv Hpc Hhd Hd Hsz Hfit Hn] Hwr Hreq Hpc0] Hnow Hlast.
  unfold updateWriteHistoryBuffer, Packet.hasPC, Packet.getPtr, Packet.getPC, Packet.getVaddr.
  rewrite Hpc, Hhd, Hwr, Hd, Hv, Hreq, Nat2Z.id. rewrite bool_decide_true by eauto.
  cbn [andb assert_that mbind res_bind Packet.valid].
  rewrite PredictorTable.table_path_hash_ok by apply (rd_table _ R). cbn [mbind res_bind].
  set (h := PredictorTable.path_hash _).
  destruct (WHB.of_words_ok now pc v data n h) as (e & -> & Hwf & Hepc & Hhash & Hview);
    [done|done|]. cbn [mbind res_bind].
  set (e1 := WHB.set_size _ _).
  assert (store_ok e1) as Hok.
  { split; try done.
    - change (WHB.hasPathHash e = true). unfold WHB.get_path_hash in Hhash.
      by destruct (WHB.hasPathHash e).
    - cbn. by rewrite Hepc.
    - exists (chunk_index v), n. split; try done. intros j.
      change (words e1) with (CacheLine.dataChunks (WHB.cacheLine e)). rewrite Hview.
      case_decide as Hj; [|split; [by intros []|done]]. split; [done|]. intros _.
      destruct (lookup_lt_is_Some_2 data (j - chunk_index v)) as [x ->]; [lia|]. eauto. }
  destruct (CacheLine.all_zeros_ok (WHB.get_cacheline e1)) as [z ->]; [done|]. cbn [mbind res_bind].
  destruct R as [R1 R2 R3 R4 R5 R6 R7 R8 R9].
  destruct (FixedSizeQueue.push_back_ok e1 (writeHistoryBuffer f) R2) as (q & -> & Hq & Hqs & Hqq).
  cbn [mbind res_bind]. exists q, e1. split; [done|]. split; [|split; [done|split; [done|]]].
  - split; cbn [backend with_whb writeHistoryBuffer]; try done; rewrite Hqq.
    + by apply lastn_Forall.
    + by apply lastn_Forall.
    + apply ordered_snoc_lastn; [done|]. intros w Hw. by apply Hlast.
  - split; [by cbn; rewrite Hepc|]. split; [done|]. split; [done|]. intros j.
    change (words e1) with (CacheLine.dataChunks (WHB.cacheLine e)). by rewrite Hview.
Qed.

(** *** Evaluation: the line at [sample_addr] holds the word 170; a store of
    the history wrote its address and that word. *)
Definition sample_line : CacheLine.t :=
  match CacheLine.of_packet 5 (Packet.store sample_addr 0x240000040 0x500 [170]) true with
  | Ok l => CacheLine.set_time_of_last_update 7 (CacheLine.set_addr sample_addr l)
  | Fail _ => CacheLine.new 5
  end.
Definition sample_start : t :=
  with_acc {[ sample_addr := sample_line ]} sample_frontend.
Definition sample_store : Packet.t := Packet.store 0x7f0000 0x10000 0x600 [0x40; 0x100; 170].
Definition sample_searched : t :=
  match updateWriteHistoryBuffer 9 sample_store sample_start with Ok f => f | Fail _ => sample_start end.

Lemma sample_ready : ready sample_searched.
Proof.
  destruct (update_whb_ok 9 sample_store 0x7f0000 0x600 [0x40; 0x100; 170] 3 sample_start)
    as (q & e & E & R & _).
  - split; [reflexivity|by apply FixedSizeQueue.new_ok; lia|constructor|constructor| | | | |].
    + intros ws1 w ws2 E. by destruct ws1.
    + apply PredictorTable.table_new_wf; cbn; lia.
    + by split.
    + apply Backend.backend_shared_ok.
    + apply AddrPredictor.predictor_new_ok.
  - split; [split; try reflexivity; vm_compute; lia|reflexivity|reflexivity|lia].
  - lia.
  - intros w Hw. by apply not_elem_of_nil in Hw.
  - unfold sample_searched. by rewrite E.
Qed.

Lemma process_spec_witness :
  (exists f' e, @processLastAccLine tree_order intact 10 sample_addr sample_searched = Ok f' /\
    entry_for (el_of sample_searched) sample_addr sample_line (history sample_searched) e /\
    @PredictorTable.add tree_order e (predictorTable sample_searched) (shared sample_searched) =
      Ok (predictorTable f', shared f')) /\
  @processLastAccLine tree_order undefined 10 sample_addr sample_searched = Fail Undefined.
Proof.
  assert (cacheLineAccumulator sample_searched !! sample_addr = Some sample_line) as H1 by (vm_compute; reflexivity).
  assert (CacheLine.wf sample_line) as H2
    by (split; [reflexivity|]; repeat (constructor; [(by left) || by right|]); constructor).
  assert (is_u64 sample_addr) as H3 by (split; vm_compute; done).
  assert (exists i d, CacheLine.view (CacheLine.dataChunks sample_line) i = Some d) as H4
    by (exists 0%nat, 170; reflexivity).
  split.
  - pose proof (@process_spec tree_order intact 10 sample_addr sample_searched sample_line
      sample_ready H1 H2 H3 H4) as H.
    assert (lost_read intact sample_addr sample_searched = Ok tt) as Hr by (vm_compute; reflexivity).
    rewrite Hr in H. destruct H as (f' & E & H & _).
    assert (found sample_searched sample_addr sample_line = true) as Hf by (vm_compute; reflexivity).
    rewrite Hf in H. destruct H as (e & He & Ha). exists f', e. split; [exact E|].
    split; [exact He|exact Ha].
  - pose proof (@process_spec tree_order undefined 10 sample_addr sample_searched sample_line
      sample_ready H1 H2 H3 H4) as H.
    assert (lost_read undefined sample_addr sample_searched = Fail Undefined) as Hr by (vm_compute; reflexivity).
    rewrite Hr in H. exact H.
Defined.
End LineSearch.
