(* ===== verification/Requests.v ===== *)
(** * The request handlers of the frontend

    Models [handleNonVolatileWrite], [handleConstPredictions],
    [sendWritesToBackend], [updatePendingTable], [handleWrite] and
    [predictorHandleRequest] of [mem/predictor_frontend.cc]. *)

From S2P Require Import Prelude Common PageTable Chunk CacheLine Queues AddrPredictor Shared.
From S2P Require Import WriteHistory PredictorTable CompletedWrite Backend PendingTable Frontend.
From S2P Require Import LineSearch.

Module Requests.
Module WHB := WriteHistoryBufferEntry.
Module CWE := CompletedWriteEntry.
Module PTE := PredictorTableEntry.
Module P := PendingTableEntryParent.
Module U := PendTableChunkInfo.
Import ChunkInfo Frontend.

(** ** Constant chunks *)
Section Constants.
Context `{O : IterOrder}.

(** The chunk at the index [k] of a line, a [size_t]. *)
Definition nth_chunk (line : CacheLine.t) (k : Z) : res ChunkInfo.t :=
  deref (CacheLine.dataChunks line !! Z.to_nat k).

(** Lines 1324-1336, for one tracked offset. *)
Definition const_chunk (x : Z * SharedArea.constChunkLocator) (e : CWE.t) : res CWE.t :=
  let '(offset, loc) := x in
  if 0 <? SharedArea.timesFound loc then
    orig ← CWE.get_orig_cacheline e;
    c ← nth_chunk orig offset;
    v ← is_valid c;
    if v : bool then
      _ ← get_data c;
      let line := CWE.get_cacheline e in
      cs ← modify (Z.to_nat offset)
             (fun c => c ← set_data (SharedArea.lastData loc) (set_chunk_type DATA c);
                       Ok (set_constant_pred c)) (CacheLine.dataChunks line);
      Ok (CWE.with_cacheline (CacheLine.with_chunks cs line) e)
    else Ok e
  else Ok e.

Definition handleConstPredictions (sh : SharedArea.t) (e : CWE.t) : res CWE.t :=
  hash ← CWE.get_generator_hash e;
  match SharedArea.constPredTracker sh !! hash with
  | Some m => for_each (iter m) const_chunk e
  | None => Ok e
  end.
End Constants.

Section Handlers.
Context `{O : IterOrder}.
Variable pt : PageTable.t.
Variables isCounterCacheHit isVerificationCacheHit : Z -> bool.
Variable l2 : Z -> option (list Z).
Variable blkObject : Z -> option (list Z).
Variable fresh : list Z.
Variable ub : LineSearch.undefined_reads.
Variable now : Z.

(** ** Persistent writes *)

Definition handleNonVolatileWrite (pkt : Packet.t) (isClwb : bool) (f : t) : res t :=
  vaddr ← Packet.getVaddr pkt;
  let a := cacheline_align vaddr in
  if isClwb then
    let f := with_stats (Stats.incr "clwbCountInclInv") f in
    let f := with_stats (Stats.sample "addrChangesBwClwb" (addrChangesSinceClwb f)) f in
    let f := with_addrChanges 0 (lastAlignedPMAddr f) f in
    match cacheLineAccumulator f !! a with
    | None => Ok f
    | Some line =>
        inv ← CacheLine.all_invalid line;
        if inv : bool then Ok f
        else
          let f := with_stats (Stats.incr "clwbCount") f in
          f ← LineSearch.processLastAccLine ub now a f;
          line ← at_ (cacheLineAccumulator f !! a);
          n ← CacheLine.invalid_chunk_count line;
          let f := with_stats (Stats.sample "invChunkCountSampler" n) f in
          Ok (with_acc (delete a (cacheLineAccumulator f)) f)
    end
  else accumulate pt isCounterCacheHit isVerificationCacheHit l2 blkObject fresh now pkt f.

(** ** Completed predictions *)

(** The entry for the backend, lines 1345-1365. *)
Definition completed_entry (sh : SharedArea.t) (o : P.t) : res CWE.t :=
  a ← get_target_addr (P.addr o);
  hash ← P.get_generator_hash o;
  orig ← P.get_original_cacheline o;
  at_tick ← get_time_of_gen (P.addr o);
  dt ← CacheLine.get_time_of_gen (P.cacheline o);
  let e := CWE.set_orig_cacheline orig (CWE.make now a (P.cacheline o) hash) in
  let e := CWE.set_time_of_data_gen dt (CWE.set_time_of_addr_gen at_tick e) in
  handleConstPredictions sh (CWE.set_time_of_creation now e).

(** Lines 1345-1389, for one completed parent. *)
Definition send_one (id : Z) (f : t) : res t :=
  o ← deref (parents f !! id);
  e ← completed_entry (shared f) o;
  let f := with_stats (Stats.incr "predictedWriteCount") f in
  CacheLine.print (P.cacheline o) ;;
  panic_if_not (CWE.has_addr e) ;;
  sendToBackend pt isCounterCacheHit isVerificationCacheHit now e f.

(** The loop of line 1391 pops while the queue is empty: undefined on an
    empty queue, and nothing otherwise. *)
Definition sendWritesToBackend (completedEntries : list Z) (f : t) : res t :=
  f ← for_each completedEntries send_one f;
  match completedEntries with
  | [] => Fail Undefined
  | _ => Ok f
  end.

(** Lines 1440-1453: the stride predictor's address replaces the one read. *)
Definition replace_addr (id : Z) (f : t) : res t :=
  o ← deref (parents f !! id);
  _ ← get_target_addr (P.addr o);
  a ← AddrPredictor.predict_addr (addrPredictor f);
  c ← set_target_addr a (P.addr o);
  Ok (with_pending (pendingTable f)
        (<[id := P.with_addr (P.addrComplete o) c o]> (parents f)) f).

(** Lines 1428-1431 fill a local line that is not used afterwards. *)
Definition fill_temp (data : list Z) (chunkOffset chunkCount : nat) : res unit :=
  _ ← for_each (seq chunkOffset chunkCount)
        (fun i cs => d ← deref (data !! (i - chunkOffset)%nat);
                     modify i (fun c => set_data d (set_chunk_type DATA c)) cs)
        (CacheLine.dataChunks (CacheLine.new now));
  Ok tt.

Definition updatePendingTable (pkt : Packet.t) (f : t) : res t :=
  assert_that (Packet.hasVaddr pkt) ;;
  assert_that (Packet.hasPC pkt) ;;
  pc ← Packet.getPC pkt;
  addr ← Packet.getVaddr pkt;
  pktData ← Packet.getPtr pkt;
  let chunkCount := Z.to_nat (Packet.reqSize pkt / SIZEOF_DATACHUNK) in
  '(f, predictedWrites) ←
    (if PendingTable.has_pc_waiting pc (pendingTable f) then
       fill_temp pktData (chunk_index addr) chunkCount ;;
       '(p, h, done) ← PendingTable.update_entry_state now pc pktData chunkCount
                         (pendingTable f) (parents f);
       Ok (with_pending p h f, done)
     else Ok (f, []));
  match predictedWrites with
  | [] => Ok f
  | _ =>
      can ← AddrPredictor.can_pred_addr (addrPredictor f);
      f ← (if can && negb (disableFancyAddrPred (cfg f))
           then for_each predictedWrites replace_addr f else Ok f);
      sendWritesToBackend predictedWrites f
  end.
(** ** Promotion of a predictor table entry *)

(** Lines 1541-1560: some chunk is valid, and the valid ones hold a word. *)
Definition check_entry (e : PTE.t) : res unit :=
  n ← valid_count (PTE.dataChunks e);
  panic_if (n =? 0) ;;
  for_each (PTE.dataChunks e)
    (fun c _ => v ← is_valid c; if v : bool then _ ← get_data c; Ok tt else Ok tt) tt.

(** Lines 1562-1593: the parent object, its line marked with the chunks to
    come and the PCs that generate them. *)
Definition mark_chunk (e : PTE.t) (i : nat) (cs : list ChunkInfo.t) : res (list ChunkInfo.t) :=
  c ← deref (PTE.dataChunks e !! i);
  v ← is_valid c;
  if v : bool then
    modify i (fun ci => pc ← get_generating_pc c;
                        Ok (set_generating_pc pc (set_chunk_type DATA ci))) cs
  else Ok cs.

Definition new_parent (e : PTE.t) : res P.t :=
  let o := P.new now in
  cs ← for_each (seq 0 DATA_CHUNK_COUNT) (mark_chunk e) (CacheLine.dataChunks (P.cacheline o));
  h ← PTE.get_hash e;
  line ← PTE.get_original_cacheline e;
  Ok (P.set_original_cacheline line (P.set_generator_hash h (P.with_chunks cs o))).

(** [pendingTable.add(...)] *)
Definition add_pending (u : U.t) (f : t) : res t :=
  '(p, h) ← PendingTable.add u (FixedSizeQueue.queue (writeHistoryBuffer f))
              (pendingTable f) (parents f);
  Ok (with_pending p h f).

(** Lines 1600-1618, for one chunk of the entry. *)
Definition add_chunk (id : Z) (e : PTE.t) (i : nat) (f : t) : res t :=
  c ← deref (PTE.dataChunks e !! i);
  v ← is_valid c;
  if v && is_const_0_pred c then
    o ← deref (parents f !! id);
    cs ← modify i
           (fun ci =>
              ci ← set_data 0 (set_chunk_type DATA (set_time_of_gen now ci));
              Ok (set_generating_pc UINT64_MAX ci))
           (CacheLine.dataChunks (P.cacheline o));
    Ok (with_stats (Stats.incr "constant0Prediction")
          (with_pending (pendingTable f) (<[id := P.with_chunks cs o]> (parents f)) f))
  else if v : bool then
    let u := U.of_chunk (set_chunk_type DATA c) (Some id) (Z.of_nat i) in
    assert_that (has_data_field_offset (U.chunk u)) ;;
    pc ← get_generating_pc (U.chunk u);
    assert_that (negb (pc =? 0)) ;;
    add_pending u f
  else Ok f.

(** Lines 1535-1623: one hash found by [update_ihb]. *)
Definition promote (hash : Z) (f : t) : res t :=
  e ← PredictorTable.get_with_hash now hash (predictorTable f);
  check_entry e ;;
  o ← new_parent e;
  let id := nextParent f in
  let f := with_nextParent (id + 1) (with_pending (pendingTable f) (<[id := o]> (parents f)) f) in
  let u := U.of_chunk (PTE.addrChunk e) (Some id) 0 in
  assert_that (has_data_field_offset (U.chunk u)) ;;
  f ← add_pending u f;
  for_each (seq 0 DATA_CHUNK_COUNT) (add_chunk id e) f.

(** ** Requests *)

(** Lines 1486-1503 *)
Definition track_writeback (addr : Z) (isClwb : bool) (f : t) : t :=
  let a := cacheline_align addr in
  if is_vaddr_pm addr then
    if isClwb then
      match writebackDistMap f !! a with
      | Some tick =>
          with_stats (Stats.sample "writebackDistStatMicro" (u64 (now - tick) / 1000))
            (with_stats (Stats.sample "writebackDistStat" (u64 (now - tick) / 1000)) f)
      | None => f
      end
    else with_wbdist (<[a := now]> (writebackDistMap f)) f
  else f.

(** Lines 1513-1634: the part for stores, volatile or persistent. *)
Definition handleStore (pkt : Packet.t) (f : t) : res t :=
  pc ← Packet.getPC pkt;
  _ ← Packet.getPtr pkt;
  '(found, p, sh) ← PredictorTable.update_ihb pkt (predictorTable f) (shared f);
  let f := with_predictor p sh f in
  f ← (if found : bool then
         for_each (PredictorTable.lastFoundHashes p) promote
           (with_stats (Stats.incr "predictorTablePromotions") f)
       else Ok f);
  f ← updatePendingTable pkt f;
  _ ← PendingTable.get_completed_parent pc (pendingTable f) (parents f);
  Ok f.

Definition handleWrite (pkt : Packet.t) (f : t) : res t :=
  addr ← Packet.getVaddr pkt;
  isClwb ← is_vaddr_clwb pkt;
  let f := track_writeback addr isClwb f in
  f ← (if is_vaddr_pm addr && (isClwb || (Packet.hasData pkt && Packet.isWrite pkt))
       then handleNonVolatileWrite pkt isClwb f else Ok f);
  f ← (if (is_vaddr_volatile addr || is_vaddr_pm addr) && negb isClwb
       then handleStore pkt f else Ok f);
  panic_if (negb (is_vaddr_pm addr) && negb (is_vaddr_volatile addr)) ;;
  Ok f.

(** The trace file and the PCs of interest only print. *)
Definition predictorHandleRequest (pkt : Packet.t) (f : t) : res t :=
  if negb (Backend.predictorEnabled (backend f)) || negb (Backend.usePredictor (backend f)) then Ok f
  else
    f ← collectPktStatistics now pkt f;
    let isPktWrite := Packet.isWrite pkt && ((Packet.size pkt =? 8) || (Packet.size pkt =? 4)) in
    _ ← Packet.getPC pkt;
    isClwb ← is_vaddr_clwb pkt;
    f ← (if canAddToWhb pkt then updateWriteHistoryBuffer now pkt f else Ok f);
    f ← (if isPktWrite || isClwb then handleWrite pkt f else Ok f);
    Ok (with_stats (Stats.set "avgPredictorTableSz"
                      (Z.of_nat (PredictorTable.get_size (predictorTable f))))
          (with_stats (Stats.set "avgPendingTableSz"
                         (Z.of_nat (PendingTable.get_size (pendingTable f)))) f)).
End Handlers.
End Requests.
