(* ===== verification/Delivery.v ===== *)
(** * Predictions under way

    What [updatePendingTable] and [sendWritesToBackend] of
    [mem/predictor_frontend.cc] do with the predictions of the pending table: the
    delivery of the stores they wait for, and the completed predictions that go to
    the backend.  The stores of one PC have a fixed number of words, [width]. *)

From S2P Require Import Prelude Common PageTable Chunk CacheLine Queues AddrPredictor Shared.
From S2P Require Import WriteHistory PredictorTable CompletedWrite Backend PendingTable Frontend.
From S2P Require Import LineSearch Requests.

Module Delivery.
Module WHB := WriteHistoryBufferEntry.
Module CWE := CompletedWriteEntry.
Module PTE := PredictorTableEntry.
Module P := PendingTableEntryParent.
Module U := PendTableChunkInfo.
Module PT := PendingTable.
Import ChunkInfo Frontend Requests.

Section Width.
Variable width : Z -> nat.

(** ** Patterns *)

(** A chunk that names a store and [extra + 1] words of it. *)
Record source_ok (extra : Z) (c : ChunkInfo.t) : Prop := {
  so_pc : has_generating_pc c = true;
  so_pc_nonzero : generatingPC c <> 0;
  so_offset : has_data_field_offset c = true;
  so_offset_nonneg : 0 <= dataFieldOffset c;
  so_inside : dataFieldOffset c + extra < Z.of_nat (width (generatingPC c));
  so_waits : is_whb_search c = false
}.

(** An entry of the predictor table that can be promoted: the stores of its
    address and words are known, and it has a chunk for every word of the line it
    was made for. *)
Record pattern_ok (e : PTE.t) : Prop := {
  pa_addr : chunkType (PTE.addrChunk e) = ADDR;
  pa_source : source_ok 1 (PTE.addrChunk e);
  pa_words : forall c, c ∈ PTE.dataChunks e -> validb c = true -> source_ok 0 c;
  pa_some : exists c, c ∈ PTE.dataChunks e /\ validb c = true;
  pa_orig : PTE.hasOrigCL e = true /\ CacheLine.wf (PTE.originalCacheLine e);
  pa_cover : forall i, is_Some (CacheLine.view (CacheLine.dataChunks (PTE.originalCacheLine e)) i) ->
    exists c, PTE.dataChunks e !! i = Some c /\ validb c = true
}.

Lemma same_source_ok extra c c' :
  PredictorTable.same_source c c' -> source_ok extra c -> source_ok extra c'.
Proof.
  intros [_ Hpc Hoff (F1 & F2 & F3)] [H1 H2 H3 H4 H5 H6].
  unfold has_generating_pc, has_data_field_offset, is_whb_search in *.
  split; unfold has_generating_pc, has_data_field_offset, is_whb_search;
    rewrite ?Hpc, ?Hoff, ?F1, ?F2, ?F3; done.
Qed.

Lemma same_source_valid c c' : PredictorTable.same_source c c' -> validb c' = validb c.
Proof. intros [H _ _ _]. unfold validb. by rewrite H. Qed.

Lemma same_sources_pattern e e' :
  PredictorTable.same_sources e e' -> pattern_ok e -> pattern_ok e'.
Proof.
  intros [Ha Hc [Ho Hh]] [P1 P2 P3 (c & Hin & Hv) [P5 P6] P7].
  split; rewrite ?Ha, ?Ho, ?Hh; try done.
  - intros c' Hc' Hv'. apply list_elem_of_lookup in Hc' as [i Hi].
    destruct (Forall2_lookup_r _ _ _ _ _ Hc Hi) as (c0 & H0 & Hs).
    apply (same_source_ok _ c0); [done|]. apply P3; [by eapply list_elem_of_lookup_2|].
    by rewrite <- (same_source_valid _ _ Hs).
  - apply list_elem_of_lookup in Hin as [i Hi].
    destruct (Forall2_lookup_l _ _ _ _ _ Hc Hi) as (c' & H' & Hs). exists c'.
    split; [by eapply list_elem_of_lookup_2|]. by rewrite (same_source_valid _ _ Hs).
  - intros i Hi. destruct (P7 i Hi) as (c0 & H0 & Hv0).
    destruct (Forall2_lookup_l _ _ _ _ _ Hc H0) as (c' & H' & Hs). exists c'.
    split; [done|]. by rewrite (same_source_valid _ _ Hs).
Qed.

(** A store of the history has the width of its PC. *)
Definition wide (w : WHB.t) : Prop := WHB.get_size w = Ok (Z.of_nat (width (WHB.pc w))).

Lemma source_of extra w j c :
  LineSearch.store_ok w -> wide w -> 0 <= extra ->
  is_Some (CacheLine.view (LineSearch.words w) j) ->
  is_Some (CacheLine.view (LineSearch.words w) (j + Z.to_nat extra)) ->
  get_generating_pc c = Ok (WHB.pc w) -> get_data_field_offset c = Ok (LineSearch.offset_of w j) ->
  is_whb_search c = false -> source_ok extra c.
Proof.
  intros Hs Hw He Hj Hj' Hpc Hoff Hwhb.
  destruct (LineSearch.offset_ok w j Hs Hj) as (_ & Hr & _).
  destruct (LineSearch.offset_ok w _ Hs Hj') as (_ & _ & m & Hm & Hlt).
  unfold wide in Hw. rewrite Hw in Hm. injection Hm as <-.
  unfold get_generating_pc, get_data_field_offset in *. unfold has_data_field_offset.
  destruct (has_generating_pc c) eqn:E1; [|done]. destruct (has HAS_DATA_FIELD_OFF c) eqn:E2; [|done].
  injection Hpc as Hpc. injection Hoff as Hoff.
  split; unfold has_data_field_offset; rewrite ?Hpc, ?Hoff; try done; [apply Hs|lia|].
  unfold LineSearch.offset_of in *. lia.
Qed.

(** What the search of the history adds to the table can be promoted. *)
Lemma entry_for_pattern el a line ws e :
  LineSearch.entry_for el a line ws e -> Forall LineSearch.store_ok ws -> Forall wide ws ->
  CacheLine.wf line -> (exists i d, CacheLine.view (CacheLine.dataChunks line) i = Some d) ->
  CacheLine.wf_chunks (PTE.dataChunks e) -> pattern_ok e.
Proof.
  intros [E1 E2 (wa & Ha & (ja & Hja & Hta & Hpa & Hoa & Hwa)) [E4 E5] _] Hws Hwide Hl Hsome Hcs.
  rewrite Forall_forall in Hws, Hwide.
  assert (wa ∈ ws) as Hin by (apply List.find_some in Ha as [? _]; by apply list_elem_of_In).
  assert (forall i c, PTE.dataChunks e !! i = Some c -> validb c = true ->
    exists (d : Z) (w : WHB.t), CacheLine.view (CacheLine.dataChunks line) i = Some d /\ w ∈ ws /\
      LineSearch.word_chunk_ok w d c) as Hword.
  { intros i c Hc Hv. destruct (CacheLine.view (CacheLine.dataChunks line) i) as [d|] eqn:Ed.
    - destruct (E1 i d Ed) as (w & c' & Hw & Hc' & Hok). simplify_eq. exists d, w.
      split; [done|]. split; [|done]. apply List.find_some in Hw as [? _]. by apply list_elem_of_In.
    - specialize (E2 i Ed). unfold CacheLine.view in E2. by rewrite Hc, Hv in E2. }
  split; rewrite ?E5; try done.
  - apply (source_of 1 wa ja); auto; [lia|by eapply LineSearch.addr_index_view|].
    replace (ja + Z.to_nat 1)%nat with (S ja) by lia. by eapply LineSearch.addr_index_next.
  - intros c Hc Hv. apply list_elem_of_lookup in Hc as [i Hi].
    destruct (Hword i c Hi Hv) as (d & w & _ & Hw & j & Hj & _ & _ & _ & _ & Hpc & Hoff & Hwhb).
    apply LineSearch.word_index_view in Hj.
    apply (source_of 0 w j); auto; [lia|]. rewrite Nat.add_0_r, Hj. eauto.
  - destruct Hsome as (i & d & Hd). destruct (E1 i d Hd) as (w & c & _ & Hc & j & _ & _ & Hv & _).
    exists c. split; [by eapply list_elem_of_lookup_2|done].
  - intros i [d Hd]. destruct (E1 i d Hd) as (w & c & _ & Hc & j & _ & _ & Hv & _). by exists c.
Qed.

(** ** Parents *)

(** A promoted prediction: it remembers its hash and the line the pattern was
    made for, its chunks name the PCs that produce them, and what is complete
    has its time. *)
Record parent_ok (o : P.t) : Prop := {
  po_wf : P.wf o;
  po_hash : P.hasGeneratorHash o = true;
  po_orig : P.hasOrigCL o = true /\ CacheLine.wf (P.originalCacheLine o);
  po_addr : P.addrComplete o = true ->
    chunkType (P.addr o) = ADDR /\ has_time_of_gen (P.addr o) = true;
  po_times : forall i c, P.chunks o !! i = Some c -> P.dataComplete o !! i = Some true ->
    has_time_of_gen c = true /\ 0 < timeOfGen c;
  po_pcs : forall c, c ∈ P.chunks o -> validb c = true -> has_generating_pc c = true;
  po_cover : forall i, is_Some (CacheLine.view (CacheLine.dataChunks (P.originalCacheLine o)) i) ->
    exists c, P.chunks o !! i = Some c /\ validb c = true
}.

(** The parent has not got what [e] waits for. *)
Definition open_in (o : P.t) (e : U.t) : Prop :=
  match chunkType (U.chunk e) with
  | ADDR => P.addrComplete o = false
  | _ => P.dataComplete o !! PT.slot e = Some false
  end.

Lemma complete_closed h pc e id o :
  PT.entry_ok h pc e -> U.parent e = Some id -> h !! id = Some o ->
  open_in o e -> P.completeb o = false.
Proof.
  intros [_ _ _ _ _ _ (id' & o' & Hid' & Ho' & Hwf & Ht)] Hid Ho Hopen. assert (id' = id) as -> by congruence.
  assert (o' = o) as -> by congruence.
  unfold open_in in Hopen. unfold P.completeb.
  destruct (chunkType (U.chunk e)); [by rewrite Hopen| |done|done].
  apply andb_false_iff. right. apply not_true_iff_false. rewrite forallb_forall. intros Hall.
  unfold PT.shape in Ht. rewrite list_lookup_fmap in Ht.
  destruct (P.chunks o !! PT.slot e) as [c|] eqn:Ec; [|done]. cbn in Ht.
  assert (P.slotb o (PT.slot e) = true) as Hslot.
  { apply Hall, List.in_seq. apply lookup_lt_Some in Ec. rewrite (P.wf_length _ Hwf) in Ec. lia. }
  unfold P.slotb in Hslot. rewrite Ec, Hopen, orb_false_r in Hslot. unfold datab, validb in *.
  injection Ht as Ht. apply type_eqb_true in Ht. by rewrite Ht in Hslot.
Qed.

Lemma stored_keeps now w c :
  validb c = true -> (has_generating_pc (PT.stored now w c) = has_generating_pc c) /\
  has_time_of_gen (PT.stored now w c) = true /\ timeOfGen (PT.stored now w c) = now.
Proof.
  intros _. unfold has_generating_pc, has_time_of_gen, has, PT.stored.
  cbn [flags set_time_of_gen with_timeOfGen raise with_content with_flags timeOfGen set_chunk_type
    with_chunkType]. by flag_simpl.
Qed.

Lemma receive_parent_ok now words h pc e id o :
  0 < now -> PT.entry_ok h pc e -> U.parent e = Some id -> h !! id = Some o -> parent_ok o ->
  parent_ok (PT.receive now words e o).
Proof.
  intros Hnow He Hid Ho [H1 H2 H3 H4 H5 H6 H7].
  pose proof (PT.receive_wf now words _ _ _ _ _ He Hid Ho) as Hwf.
  pose proof He as [_ _ _ _ _ _ (id' & o' & Hid' & Ho' & _ & Ht)]. assert (id' = id) as -> by congruence.
  assert (o' = o) as -> by congruence.
  unfold PT.receive, get_chunk_type in *. destruct (chunkType (U.chunk e)) eqn:Ety; try done.
  - split; try done. intros _. cbn. split; [done|].
    unfold has_time_of_gen, has. cbn [flags set_time_of_gen with_timeOfGen raise with_flags].
    by flag_simpl.
  - unfold PT.shape in Ht. rewrite list_lookup_fmap in Ht.
    destruct (P.chunks o !! PT.slot e) as [c|] eqn:Ec; [|done]. injection Ht as Ht.
    assert (validb c = true) as Hv by (unfold validb; apply type_eqb_true in Ht; by rewrite Ht).
    destruct (stored_keeps now (PT.word_at words (PT.offset e)) c Hv) as (Hg & Hh & Htm).
    set (c' := PT.stored _ _ c) in *.
    assert (alter (PT.stored now (PT.word_at words (PT.offset e))) (PT.slot e) (P.chunks o) =
      <[PT.slot e := c']> (P.chunks o)) as Ea by (symmetry; by apply insert_alter).
    rewrite Ea in *. pose proof (lookup_lt_Some _ _ _ Ec) as Hlt.
    split; try done; unfold P.chunks at 1; cbn [P.with_data P.cacheline P.dataComplete
      CacheLine.with_chunks CacheLine.dataChunks].
    + intros i x Hx Hd. destruct (decide (PT.slot e = i)) as [<-|Hne].
      * rewrite list_lookup_insert_eq in Hx by done. injection Hx as <-. by rewrite Htm.
      * rewrite list_lookup_insert_ne in Hx by done. rewrite list_lookup_insert_ne in Hd by done.
        by apply (H5 i).
    + intros x Hx Hvx. apply list_elem_of_lookup in Hx as [i Hx].
      destruct (decide (PT.slot e = i)) as [<-|Hne].
      * rewrite list_lookup_insert_eq in Hx by done. injection Hx as <-. rewrite Hg.
        apply H6; [by eapply list_elem_of_lookup_2|done].
      * rewrite list_lookup_insert_ne in Hx by done. apply H6; [|done].
        by eapply list_elem_of_lookup_2.
    + intros i Hi. destruct (H7 i Hi) as (x & Hx & Hvx).
      destruct (decide (PT.slot e = i)) as [<-|Hne].
      * exists c'. unfold P.chunks at 1. cbn. by rewrite list_lookup_insert_eq by done.
      * exists x. unfold P.chunks at 1. cbn. by rewrite list_lookup_insert_ne by done.
Qed.

(** ** Waiting entries *)

Notation heap := (gmap Z P.t).

Definition waits (h : heap) (e : U.t) : Prop :=
  exists id o, U.parent e = Some id /\ h !! id = Some o /\ open_in o e.

(** The words an entry waits for are inside a store of its PC. *)
Definition inside (pc : Z) (e : U.t) : Prop :=
  PT.offset e + (match chunkType (U.chunk e) with ADDR => 1 | _ => 0 end) < Z.of_nat (width pc).

Lemma inside_served pc e : inside pc e -> PT.served (width pc) e = true.
Proof. unfold inside, PT.served. intros H. apply Z.ltb_lt. case_match; lia. Qed.
Lemma inside_fits pc e : inside pc e -> PT.fits (width pc) e.
Proof. unfold inside, PT.fits. intros H Ht _. rewrite Ht in H. lia. Qed.

Definition heap_ok (next : Z) (h : heap) : Prop :=
  forall id o, h !! id = Some o -> parent_ok o /\ id < next.

(** The state of the predictions under way: [next] is the identity of the next
    parent, [len] bounds the queues.  Every entry waits for something its parent has not got, and no two
    wait for the same. *)
Record pend_ok (p : PT.t) (h : heap) (next len : Z) : Prop := {
  pe_table : PT.table_ok p h;
  pe_heap : heap_ok next h;
  pe_next : 0 <= next;
  pe_inside : forall pc e, e ∈ PT.queue p pc -> inside pc e;
  pe_waits : forall pc e, e ∈ PT.queue p pc -> waits h e;
  pe_keys : forall pc pc' e e', e ∈ PT.queue p pc -> e' ∈ PT.queue p pc' ->
    PT.key e = PT.key e' -> pc = pc';
  pe_length : forall pc, Z.of_nat (length (PT.queue p pc)) <= len
}.

Section Give.
Variable now : Z.
Variable words : list Z.
Variable n : nat.
Hypothesis now_pos : 0 < now.

Lemma give_heap_ok next h pc e :
  PT.entry_ok h pc e -> heap_ok next h -> heap_ok next (PT.give now words n h e).
Proof using now_pos.
  intros He Hh id o Ho. unfold PT.give in Ho. destruct (PT.served n e); [|by apply Hh].
  destruct (U.parent e) as [id'|] eqn:Hid; [|by apply Hh].
  destruct (decide (id' = id)) as [->|]; [|rewrite lookup_alter_ne in Ho by done; by apply Hh].
  rewrite lookup_alter_eq in Ho. destruct (h !! id) as [o0|] eqn:E; [|done]. injection Ho as <-.
  destruct (Hh id o0 E). split; [|done]. by eapply receive_parent_ok.
Qed.

Lemma waits_give h e e' :
  PT.key e <> PT.key e' -> waits h e -> waits (PT.give now words n h e') e.
Proof.
  intros Hk (id & o & Hid & Ho & H). unfold PT.give. destruct (PT.served n e'); [|by exists id, o].
  destruct (U.parent e') as [id'|] eqn:Hid'; [|by exists id, o].
  destruct (decide (id' = id)) as [->|]; [|exists id, o; by rewrite lookup_alter_ne].
  exists id, (PT.receive now words e' o). rewrite lookup_alter_eq, Ho. split; [done|].
  split; [done|]. unfold PT.key in Hk. rewrite Hid, Hid' in Hk.
  unfold open_in, PT.receive, get_chunk_type in *.
  destruct (chunkType (U.chunk e)), (chunkType (U.chunk e')); try done;
    cbn; rewrite list_lookup_insert_ne; congruence.
Qed.

Lemma give_all_heap_ok next h pc q :
  Forall (PT.entry_ok h pc) q -> heap_ok next h -> heap_ok next (PT.give_all now words n h q).
Proof using now_pos.
  revert h. induction q as [|e q IH]; intros h Hq Hh; cbn; [done|].
  apply Forall_cons in Hq as [He Hq]. apply IH; [|by eapply give_heap_ok].
  eapply Forall_impl; [exact Hq|]. intros x Hx. by eapply PT.give_entry_ok.
Qed.

Lemma waits_give_all h q e :
  PT.key e ∉ PT.key <$> q -> waits h e -> waits (PT.give_all now words n h q) e.
Proof.
  revert h. induction q as [|x q IH]; intros h Hk Hw; cbn; [done|].
  rewrite fmap_cons, not_elem_of_cons in Hk. destruct Hk as [Hx Hq].
  apply IH; [done|]. by apply waits_give.
Qed.

Lemma waits_incomplete h pc e id :
  PT.entry_ok h pc e -> waits h e -> U.parent e = Some id -> PT.complete_in h id = false.
Proof.
  intros He (id' & o & Hid' & Ho & Hopen) Hid. assert (id' = id) as -> by congruence.
  unfold PT.complete_in. rewrite Ho. cbn. by eapply complete_closed.
Qed.

(** A parent is reported when it becomes complete, and only once. *)
Lemma finish_all_once h pc q :
  Forall (PT.entry_ok h pc) q -> NoDup (PT.key <$> q) -> Forall (waits h) q ->
  NoDup (PT.finish_all now words n h q) /\
  forall id, id ∈ PT.finish_all now words n h q -> PT.complete_in h id = false.
Proof.
  revert h. induction q as [|e q IH]; intros h Hq Hnd Hw; cbn [PT.finish_all].
  { split; [constructor|]. intros id Hid. by apply not_elem_of_nil in Hid. }
  apply Forall_cons in Hq as [He Hq]. apply Forall_cons in Hw as [Hwe Hw].
  rewrite fmap_cons in Hnd. apply NoDup_cons in Hnd as [Hk Hnd].
  set (h1 := PT.give now words n h e).
  destruct (IH h1) as [IH1 IH2]; [| done | |].
  { eapply Forall_impl; [exact Hq|]. intros x Hx. by eapply PT.give_entry_ok. }
  { rewrite Forall_forall in *. intros x Hx. apply waits_give; [|by apply Hw]. intros E.
    apply Hk. rewrite <- E. by apply list_elem_of_fmap_2. }
  assert (forall id, PT.complete_in h1 id = false -> PT.complete_in h id = false) as Hmono.
  { intros id Hid. destruct (PT.complete_in h id) eqn:E; [|done].
    apply (PT.give_complete now words n h pc e id He) in E. unfold h1 in Hid. congruence. }
  unfold PT.finish. fold h1. destruct (PT.served n e); [|by split; [|auto]].
  destruct (U.parent e) as [id0|] eqn:Hid0; [|by split; [|auto]].
  fold (PT.complete_in h1 id0). destruct (PT.complete_in h1 id0) eqn:E0; [|by split; [|auto]].
  split.
  - apply NoDup_cons. split; [|done]. intros Hin. specialize (IH2 id0 Hin). congruence.
  - intros id [->|Hid]%elem_of_cons; [by eapply waits_incomplete|auto].
Qed.
End Give.

(** What a store of [pc] makes of the parents, and the parents it completes. *)
Definition served_heap (now pc : Z) (words : list Z) (p : PT.t) (h : heap) : heap :=
  PT.give_all now words (width pc) h (PT.queue p pc).
Definition completed_by (now pc : Z) (words : list Z) (p : PT.t) (h : heap) : list Z :=
  PT.finish_all now words (width pc) h (PT.queue p pc).

(** A parent that becomes complete between two heaps. *)
Definition becomes_complete (h h' : heap) (id : Z) : Prop :=
  PT.complete_in h id = false /\ PT.complete_in h' id = true.

(** Every entry of the store's PC is served. *)
Lemma serve_ok now pc words p h next len :
  pend_ok p h next len -> 0 < now -> (width pc <= length words)%nat ->
  PT.has_pc_waiting pc p = true ->
  exists p', PT.update_entry_state now pc words (width pc) p h =
      Ok (p', served_heap now pc words p h, completed_by now pc words p h) /\
    pend_ok p' (served_heap now pc words p h) next len /\
    (forall pc', PT.queue p' pc' = if decide (pc' = pc) then [] else PT.queue p pc') /\
    (forall e, e ∈ PT.queue p pc -> PT.holds now words (served_heap now pc words p h) e).
Proof.
  intros [H1 H2 H3 H4 H5 H6 H7] Hnow Hlen Hw.
  assert (Forall (fun e => PT.served (width pc) e = true) (PT.queue p pc)) as Hall
    by (apply Forall_forall; intros e He; by apply inside_served, H4).
  destruct (PT.update_entry_state_ok now pc words (width pc) p h H1 Hw Hlen) as (p' & E & Hok & HQ).
  { apply Forall_forall. intros e He. by apply inside_fits, H4. }
  pose proof (PT.to_entries p h H1 pc) as Hent. pose proof (PT.to_keys p h H1 pc) as Hkeys.
  assert (forall pc', PT.queue p' pc' = if decide (pc' = pc) then [] else PT.queue p pc') as HQ'.
  { intros pc'. rewrite HQ. case_decide; [|done]. apply drop_ge. by rewrite PT.served_count_all. }
  exists p'. split; [exact E|]. split; [|split; [exact HQ'|]].
  - split; try done.
    + by eapply give_all_heap_ok.
    + intros pc' e. rewrite HQ'. case_decide; [intros He; by apply not_elem_of_nil in He|apply H4].
    + intros pc' e. rewrite HQ'. case_decide as Hpc; [intros He; by apply not_elem_of_nil in He|].
      intros He. apply waits_give_all; [|by eapply H5]. intros Hk.
      apply list_elem_of_fmap in Hk as (x & Ex & Hx). apply Hpc. by eapply H6.
    + intros pc1 pc2 e1 e2. rewrite !HQ'.
      do 2 (case_decide; [by intros ?%not_elem_of_nil || by intros ? ?%not_elem_of_nil|]).
      apply H6.
    + intros pc'. rewrite HQ'. case_decide; [|apply H7]. specialize (H7 pc'). cbn. lia.
  - intros e He. eapply PT.holds_all; [exact Hent|exact Hkeys|done|]. by apply inside_served, H4.
Qed.

Lemma give_all_other now words n h q id :
  (forall e, e ∈ q -> U.parent e <> Some id) -> PT.give_all now words n h q !! id = h !! id.
Proof.
  unfold PT.give_all. revert h. induction q as [|x q IH]; intros h Hne; cbn; [done|].
  rewrite IH by set_solver. unfold PT.give. destruct (PT.served n x); [|done].
  destruct (U.parent x) as [id'|] eqn:Ex; [|done]. apply lookup_alter_ne. intros ->.
  by apply (Hne x); [set_solver|].
Qed.

Lemma completed_by_ok now pc words p h next len :
  pend_ok p h next len ->
  NoDup (completed_by now pc words p h) /\
  forall id, id ∈ completed_by now pc words p h <->
    becomes_complete h (served_heap now pc words p h) id.
Proof.
  intros [H1 _ _ H4 H5 _ _].
  pose proof (PT.to_entries p h H1 pc) as Hent. pose proof (PT.to_keys p h H1 pc) as Hkeys.
  assert (Forall (waits h) (PT.queue p pc)) as Hw by (apply Forall_forall; intros e; apply H5).
  destruct (finish_all_once now words (width pc) h pc _ Hent Hkeys Hw) as [Hnd Hinc].
  split; [exact Hnd|]. intros id. unfold becomes_complete.
  pose proof (PT.finish_all_spec now words (width pc) h pc (PT.queue p pc) id Hent) as Hspec.
  unfold completed_by, served_heap. split.
  - intros Hid. split; [by apply Hinc|]. by apply Hspec in Hid as [_ ?].
  - intros [Hno Hyes]. apply Hspec. split; [|done].
    destruct (decide (Exists (fun e => U.parent e = Some id) (PT.queue p pc))) as [Hex|Hne];
      rewrite Exists_exists in *.
    + destruct Hex as (e & He & Hid). exists e. split; [done|]. split; [by apply inside_served, H4|done].
    + exfalso. assert (PT.give_all now words (width pc) h (PT.queue p pc) !! id = h !! id) as Hsame
        by (apply give_all_other; intros e He Hid; apply Hne; by exists e).
      unfold PT.complete_in in *. rewrite Hsame in Hyes. congruence.
Qed.
End Width.

(** ** Completed predictions *)
Section Completed.
Context `{O : IterOrder}.

(** A prediction on its way to the backend: a word of the original line is
    one of its words, with the PC that produced it. *)
Record covered (e : CWE.t) : Prop := {
  cv_wf : CWE.wf e;
  cv_pcs : Backend.pcs_known e;
  cv_cover : forall i,
    is_Some (CacheLine.view (CacheLine.dataChunks (CWE.orignalCacheLine e)) i) ->
    exists c, CacheLine.dataChunks (CWE.cacheline e) !! i = Some c /\ validb c = true /\
      has_generating_pc c = true
}.

Definition line_words (e : CWE.t) (i : nat) : option Z :=
  CacheLine.view (CacheLine.dataChunks (CWE.cacheline e)) i.
Definition orig_words (e : CWE.t) (i : nat) : option Z :=
  CacheLine.view (CacheLine.dataChunks (CWE.orignalCacheLine e)) i.

(** The constant of a tracked chunk, if it was ever found and the original line
    has a word there. *)
Definition constant (loc : SharedArea.constChunkLocator) (orig : option Z) : option Z :=
  if (0 <? SharedArea.timesFound loc) && bool_decide (is_Some orig)
  then Some (u32 (SharedArea.lastData loc)) else None.

Lemma const_chunk_ok k loc e :
  covered e -> 0 <= k < 16 ->
  exists e', const_chunk (k, loc) e = Ok e' /\ covered e' /\
    e' = CWE.with_cacheline (CWE.cacheline e') e /\
    forall i, line_words e' i =
      if decide (Z.of_nat i = k) then
        match constant loc (orig_words e i) with Some d => Some d | None => line_words e i end
      else line_words e i.
Proof.
  intros [Hwf Hpc Hcov] Hk. unfold const_chunk, constant.
  assert (e = CWE.with_cacheline (CWE.cacheline e) e) as Hid by (by destruct e).
  destruct (0 <? SharedArea.timesFound loc);
    [|exists e; do 3 (split; [done|]); intros i; by case_decide].
  rewrite CWE.get_orig_cacheline_ok by done. cbn [mbind res_bind andb]. unfold nth_chunk.
  destruct (CacheLine.wf_lookup _ (Z.to_nat k) (CWE.wf_orig_line _ Hwf)) as (c & Hc & Lc);
    [unfold DATA_CHUNK_COUNT; lia|]. rewrite Hc. cbn [deref mbind res_bind].
  rewrite is_valid_legal by auto with pmweaver. cbn [mbind res_bind].
  assert (forall i, Z.of_nat i = k -> is_Some (orig_words e i) <-> validb c = true) as Horig.
  { intros i <-. rewrite Nat2Z.id in Hc. unfold orig_words, CacheLine.view. rewrite Hc.
    destruct (validb c); split; [done|by eexists|by intros []|done]. }
  destruct (validb c) eqn:Vc.
  2:{ exists e. do 3 (split; [done|]). intros i. case_decide as Hi; [|done].
      rewrite bool_decide_false; [done|]. rewrite (Horig i Hi). done. }
  rewrite get_data_line by done. cbn [mbind res_bind]. unfold CWE.get_cacheline.
  destruct (Hcov (Z.to_nat k)) as (x & Hx & Vx & Gx); [apply (Horig (Z.to_nat k)); [lia|done]|].
  set (x' := set_constant_pred (with_content (content x - u32 (content x) +
    u32 (SharedArea.lastData loc)) (raise HAS_DATA (set_chunk_type DATA x)))).
  rewrite (modify_ok _ _ _ _ x' Hx) by (by rewrite set_data_ok). cbn [mbind res_bind].
  assert (line_chunk x' /\ validb x' = true /\ datum x' = u32 (SharedArea.lastData loc) /\
    has_generating_pc x' = true) as (L' & V' & D' & G').
  { split; [right; split; [done|]|split; [done|split; [apply content_low|]]];
      unfold has_generating_pc, has, x' in *;
      cbn [flags set_constant_pred raise with_flags with_content set_chunk_type with_chunkType];
      by flag_simpl. }
  set (cs := <[Z.to_nat k := x']> _). eexists. split; [reflexivity|].
  pose proof (lookup_lt_Some _ _ _ Hx) as Hlt. destruct (CWE.wf_line _ Hwf) as [Hlen Hall].
  split; [split|split; [done|]].
  - destruct Hwf. split; try done. split; cbn; unfold cs; [by rewrite length_insert|by apply Forall_insert].
  - intros y Hy. cbn in Hy. apply list_elem_of_lookup in Hy as [i Hi].
    destruct (decide (Z.to_nat k = i)) as [<-|Hne].
    + unfold cs in Hi. rewrite list_lookup_insert_eq in Hi by done. by injection Hi as <-.
    + unfold cs in Hi. rewrite list_lookup_insert_ne in Hi by done. apply Hpc.
      by eapply list_elem_of_lookup_2.
  - intros i Hi. cbn in Hi |- *. unfold cs. destruct (decide (Z.to_nat k = i)) as [<-|Hne].
    + exists x'. by rewrite list_lookup_insert_eq.
    + rewrite list_lookup_insert_ne by done. by apply Hcov.
  - intros i. unfold line_words, CacheLine.view. cbn. unfold cs. case_decide as Hi.
    + rewrite bool_decide_true by (by apply (Horig i Hi)). subst k. rewrite Nat2Z.id in *.
      rewrite list_lookup_insert_eq by done. by rewrite V', D'.
    + by rewrite list_lookup_insert_ne by lia.
Qed.

(** The words of a prediction after the tracked constants replaced some. *)
Definition with_constants (m : Z -> option SharedArea.constChunkLocator) (orig old : nat -> option Z)
    (i : nat) : option Z :=
  match m (Z.of_nat i) with
  | Some loc => match constant loc (orig i) with Some d => Some d | None => old i end
  | None => old i
  end.

Lemma const_loop l e :
  covered e -> NoDup l.*1 -> (forall k loc, (k, loc) ∈ l -> 0 <= k < 16) ->
  exists e', for_each l const_chunk e = Ok e' /\ covered e' /\
    e' = CWE.with_cacheline (CWE.cacheline e') e /\
    forall i, line_words e' i =
      with_constants (fun k => snd <$> List.find (fun x => x.1 =? k) l) (orig_words e) (line_words e) i.
Proof.
  revert e. induction l as [|[k loc] l IH]; intros e He Hnd Hl.
  { exists e. split; [done|]. split; [done|]. split; [by destruct e|done]. }
  apply NoDup_cons in Hnd as [Hk Hnd].
  destruct (const_chunk_ok k loc e He) as (e1 & E1 & He1 & S1 & V1); [by eapply Hl; left|].
  destruct (IH e1 He1 Hnd) as (e2 & E2 & He2 & S2 & V2); [intros; by eapply Hl; right|].
  exists e2. cbn [for_each]. rewrite E1. cbn [mbind res_bind]. split; [done|]. split; [done|].
  assert (forall x, CWE.with_cacheline x e1 = CWE.with_cacheline x e) as Hwith
    by (intros x; by rewrite S1).
  split; [by rewrite <- Hwith|]. intros i. rewrite V2.
  assert (orig_words e1 i = orig_words e i) as Ho by (rewrite S1; done).
  unfold with_constants. rewrite Ho, V1. cbn [List.find fst].
  destruct (Z.eqb_spec k (Z.of_nat i)) as [->|Hne]; cbn [fmap option_fmap option_map snd].
  - assert (List.find (fun x => x.1 =? Z.of_nat i) l = None) as ->; [|by rewrite decide_True].
    destruct (List.find _ l) as [[k' loc']|] eqn:F; [|done].
    apply List.find_some in F as [Hin Heq%Z.eqb_eq]. cbn in Heq. subst k'. exfalso.
    apply Hk, list_elem_of_fmap. exists (Z.of_nat i, loc'). split; [done|]. by apply list_elem_of_In.
  - rewrite decide_False by done. done.
Qed.

Definition tracked (sh : SharedArea.t) (hash k : Z) : option SharedArea.constChunkLocator :=
  m ← SharedArea.constPredTracker sh !! hash; m !! k.

Lemma handleConst_ok sh e :
  covered e -> Backend.tracker_ok (SharedArea.constPredTracker sh) ->
  exists e', handleConstPredictions sh e = Ok e' /\ covered e' /\
    e' = CWE.with_cacheline (CWE.cacheline e') e /\
    forall i, line_words e' i =
      with_constants (tracked sh (CWE.generatorHash e)) (orig_words e) (line_words e) i.
Proof.
  intros He Ht. unfold handleConstPredictions.
  rewrite CWE.get_generator_hash_ok by apply He. cbn [mbind res_bind].
  unfold with_constants, tracked.
  destruct (SharedArea.constPredTracker sh !! CWE.generatorHash e) as [m|] eqn:Em;
    cbn [mbind option_bind].
  - destruct (const_loop (iter m) e He) as (e' & E & He' & S & V).
    + apply NoDup_iter_fst.
    + intros k loc Hin%elem_of_iter. by eapply Ht.
    + exists e'. do 3 (split; [done|]). intros i. rewrite V. unfold with_constants.
      by rewrite PredictorTable.find_iter.
  - exists e. split; [done|]. split; [done|]. split; [by destruct e|done].
Qed.

Lemma time_of_gen_loop cs r :
  Forall legal cs ->
  exists r', for_each cs (fun c r =>
           v ← is_valid c;
           if v && has_time_of_gen c then
             g ← ChunkInfo.get_time_of_gen c; Ok (if r <? g then g else r)
           else Ok r) r = Ok r' /\ r <= r' /\
    forall c, c ∈ cs -> validb c = true -> has_time_of_gen c = true -> timeOfGen c <= r'.
Proof.
  intros Hl. revert r. induction Hl as [|c cs Hc _ IH]; intros r; cbn [for_each].
  { exists r. split; [done|]. split; [lia|]. intros c Hin. by apply not_elem_of_nil in Hin. }
  rewrite is_valid_legal by done. cbn [mbind res_bind].
  destruct (validb c && has_time_of_gen c) eqn:Hg.
  - apply andb_true_iff in Hg as [Hv Ht].
    assert (ChunkInfo.get_time_of_gen c = Ok (timeOfGen c)) as ->
      by (unfold ChunkInfo.get_time_of_gen, has_time_of_gen in *; by rewrite Ht).
    cbn [mbind res_bind].
    destruct (IH (if r <? timeOfGen c then timeOfGen c else r)) as (r' & -> & Hr & Hall).
    exists r'. split; [done|]. destruct (Z.ltb_spec r (timeOfGen c)).
    all: split; [lia|]; intros x [->|Hx]%elem_of_cons; [lia|by apply Hall].
  - cbn [mbind res_bind]. destruct (IH r) as (r' & -> & Hr & Hall). exists r'. split; [done|].
    split; [done|]. intros x [->|Hx]%elem_of_cons Hv Ht; [by rewrite Hv, Ht in Hg|by apply Hall].
Qed.

Lemma complete_slot o i c :
  P.wf o -> P.completeb o = true -> P.chunks o !! i = Some c -> validb c = true ->
  P.dataComplete o !! i = Some true /\ chunkType c = DATA /\ has HAS_DATA c = true.
Proof.
  intros Hwf Hc Hi Hv. apply andb_true_iff in Hc as [_ Hall]. rewrite forallb_forall in Hall.
  pose proof (lookup_lt_Some _ _ _ Hi) as Hlt. rewrite (P.wf_length _ Hwf) in Hlt.
  destruct (P.wf_slot o i Hwf Hlt) as (c' & d & Hc' & Hd & Hs). simplify_eq.
  specialize (Hall i ltac:(apply List.in_seq; lia)). unfold P.slotb in Hall.
  rewrite Hi, Hd, Hv in Hall. cbn in Hall. subst d. split; [done|]. by apply Hs.
Qed.

Lemma complete_line o : P.wf o -> P.completeb o = true -> CacheLine.wf (P.cacheline o).
Proof.
  intros Hwf Hc. split; [apply Hwf|]. apply Forall_lookup. intros i c Hi.
  destruct (Forall2_lookup_l _ _ _ _ _ (P.wf_slots _ Hwf) Hi) as (d & _ & [[Ht|Ht] _]); [by left|].
  right. by apply (complete_slot o i c Hwf Hc Hi); unfold validb; rewrite Ht.
Qed.

(** What a complete prediction becomes for the backend. *)
Record sent_as (now : Z) (sh : SharedArea.t) (o : P.t) (e : CWE.t) : Prop := {
  se_addr : CWE.addr e = content (P.addr o);
  se_hash : CWE.generatorHash e = P.generatorHash o;
  se_created : CWE.timeOfCreation e = now;
  se_orig : CWE.orignalCacheLine e = P.originalCacheLine o;
  se_words : forall i, line_words e i = with_constants (tracked sh (P.generatorHash o))
    (CacheLine.view (CacheLine.dataChunks (P.originalCacheLine o))) (CacheLine.view (P.chunks o)) i
}.

Lemma completed_entry_ok now sh o :
  parent_ok o -> P.completeb o = true -> Backend.tracker_ok (SharedArea.constPredTracker sh) ->
  exists e, completed_entry now sh o = Ok e /\ CWE.wf e /\ Backend.pcs_known e /\ sent_as now sh o e.
Proof.
  intros [H1 H2 [H3 H3'] H4 H5 H6 H7] Hc Ht. pose proof (complete_line o H1 Hc) as Hl.
  assert (P.addrComplete o = true) as Ha by (by apply andb_true_iff in Hc as [? _]).
  destruct (H4 Ha) as [Hty Htm]. unfold completed_entry, get_target_addr. rewrite Hty.
  change (type_eqb ADDR ADDR) with true. cbn [panic_if_not negb panic_if mbind res_bind].
  unfold P.get_generator_hash, P.get_original_cacheline. rewrite H2, H3.
  cbn [assert_that mbind res_bind]. unfold ChunkInfo.get_time_of_gen.
  unfold has_time_of_gen in Htm. rewrite Htm. cbn [panic_if_not negb panic_if mbind res_bind].
  unfold CacheLine.get_time_of_gen.
  destruct (time_of_gen_loop (CacheLine.dataChunks (P.cacheline o)) 0) as (r & -> & Hr & Hall);
    [by apply CacheLine.wf_legal|]. cbn [mbind res_bind].
  assert (0 < r) as Hpos.
  { pose proof (P.wf_some _ H1) as Hex.
    apply Exists_exists in Hex as (c & Hin & Hv). apply list_elem_of_lookup in Hin as [i Hi].
    destruct (complete_slot o i c H1 Hc Hi Hv) as (Hd & _). destruct (H5 i c Hi Hd) as [Hh Hp].
    specialize (Hall c ltac:(by eapply list_elem_of_lookup_2) Hv Hh). lia. }
  rewrite (proj2 (Z.eqb_neq r 0)) by lia. cbn [panic_if mbind res_bind].
  set (e0 := CWE.set_time_of_creation now _).
  destruct (handleConst_ok sh e0) as (e & -> & [W1 W2 _] & S & V); [|done|].
  - split.
    + split; try done; unfold CWE.has, e0; cbn; by flag_simpl.
    + intros c Hin Hv _. by apply H6.
    + intros i Hi. destruct (H7 i Hi) as (c & Hci & Hv). exists c. split; [done|].
      split; [done|]. apply H6; [by eapply list_elem_of_lookup_2|done].
  - exists e. split; [done|]. split; [done|]. split; [done|].
    split; [by rewrite S|by rewrite S|by rewrite S|by rewrite S|]. exact V.
Qed.
End Completed.

(** ** The address of the stride predictor *)

Definition aim (a : Z) (o : P.t) : P.t :=
  P.with_addr (P.addrComplete o) (with_content a (P.addr o)) o.
(** The completed parents get the predicted address, if there is one. *)
Definition aim_all (target : option Z) (ids : list Z) (h : gmap Z P.t) : gmap Z P.t :=
  match target with
  | Some a => foldl (fun h id => alter (aim a) id h) h ids
  | None => h
  end.

(** Two heaps whose parents differ in the content of their addresses only. *)
Definition heap_sim (h h' : gmap Z P.t) : Prop :=
  forall id, match h !! id, h' !! id with
             | Some o, Some o' => exists a, o' = aim a o
             | None, None => True
             | _, _ => False
             end.

Lemma heap_sim_refl h : heap_sim h h.
Proof.
  intros id. destruct (h !! id) as [o|]; [|done]. exists (content (P.addr o)).
  destruct o as [? ? ? ? ? ? ? [] ? ?]. done.
Qed.

Lemma heap_sim_aim a id h h' : heap_sim h h' -> heap_sim h (alter (aim a) id h').
Proof.
  intros H j. specialize (H j). destruct (decide (id = j)) as [->|].
  - rewrite lookup_alter_eq. destruct (h !! j), (h' !! j); try done. cbn.
    destruct H as [b ->]. by exists a.
  - by rewrite lookup_alter_ne.
Qed.

Lemma aim_all_sim target ids h : heap_sim h (aim_all target ids h).
Proof.
  destruct target as [a|]; [|apply heap_sim_refl]. cbn.
  assert (forall h', heap_sim h h' -> heap_sim h (foldl (fun h id => alter (aim a) id h) h' ids))
    as H; [|apply H, heap_sim_refl].
  induction ids as [|id ids IH]; intros h' Hh; cbn; [done|]. by apply IH, heap_sim_aim.
Qed.

Lemma heap_sim_some h h' id o : heap_sim h h' -> h !! id = Some o -> exists a, h' !! id = Some (aim a o).
Proof.
  intros H Ho. specialize (H id). rewrite Ho in H. destruct (h' !! id); [|done].
  destruct H as [a ->]. by exists a.
Qed.

Lemma heap_sim_back h h' id o' :
  heap_sim h h' -> h' !! id = Some o' -> exists o a, h !! id = Some o /\ o' = aim a o.
Proof.
  intros H Ho. specialize (H id). rewrite Ho in H. destruct (h !! id) as [o|]; [|done].
  destruct H as [a ->]. by exists o, a.
Qed.

Lemma aim_parent_ok a o : parent_ok o -> parent_ok (aim a o).
Proof. intros [[] ? ? ? ? ? ?]. split; try done. Qed.

Lemma sim_entry_ok h h' pc e : heap_sim h h' -> PT.entry_ok h pc e -> PT.entry_ok h' pc e.
Proof.
  intros Hs [? ? ? ? ? ? (id & o & Hid & Ho & [] & Ht)].
  destruct (heap_sim_some h h' id o Hs Ho) as [a Ha]. split; try done.
  exists id, (aim a o). by repeat (split; [done|]).
Qed.

Lemma sim_pend_ok width p h h' next len :
  heap_sim h h' -> pend_ok width p h next len -> pend_ok width p h' next len.
Proof.
  intros Hs [[T1 T2 T3 T4 T5 T6 T7] H2 H3 H4 H5 H6 H7]. split; try done.
  - split; try done. intros pc. eapply Forall_impl; [apply T3|]. intros e. by apply sim_entry_ok.
  - intros id o' Ho'. destruct (heap_sim_back h h' id o' Hs Ho') as (o & a & Ho & ->).
    destruct (H2 id o Ho). split; [by apply aim_parent_ok|done].
  - intros pc e He. destruct (H5 pc e He) as (id & o & Hid & Ho & Hopen).
    destruct (heap_sim_some h h' id o Hs Ho) as [a Ha]. exists id, (aim a o).
    split; [done|]. split; [done|]. unfold open_in in *. by destruct (chunkType (U.chunk e)).
Qed.

(** ** A store is delivered *)
Section Deliver.
Context `{O : IterOrder}.
Variable width : Z -> nat.
Variable pt : PageTable.t.
Variables isCounterCacheHit isVerificationCacheHit : Z -> bool.
Variable now : Z.
Hypothesis now_pos : 0 < now.
Notation add_write := (Backend.addCompletedWrite pt isCounterCacheHit isVerificationCacheHit now).
Notation send_one := (send_one pt isCounterCacheHit isVerificationCacheHit now).
Notation send := (sendWritesToBackend pt isCounterCacheHit isVerificationCacheHit now).
Notation deliver := (updatePendingTable pt isCounterCacheHit isVerificationCacheHit now).

(** A parent that can be sent. *)
Definition finished (h : gmap Z P.t) (id : Z) : Prop :=
  exists o, h !! id = Some o /\ parent_ok o /\ P.completeb o = true.

Lemma finished_sim h h' id : heap_sim h h' -> finished h id -> finished h' id.
Proof.
  intros Hs (o & Ho & Hp & Hc). destruct (heap_sim_some h h' id o Hs Ho) as [a Ha].
  exists (aim a o). split; [done|]. split; [by apply aim_parent_ok|done].
Qed.

Lemma replace_loop a ids f :
  AddrPredictor.predict_addr (addrPredictor f) = Ok a -> Forall (finished (parents f)) ids ->
  for_each ids replace_addr f =
    Ok (with_pending (pendingTable f) (aim_all (Some a) ids (parents f)) f).
Proof.
  intros Ha. revert f Ha. induction ids as [|id ids IH]; intros f Ha Hids; cbn [for_each].
  { by destruct f. }
  apply Forall_cons in Hids as [(o & Ho & Hp & Hc) Hids]. unfold replace_addr at 2.
  rewrite Ho. cbn [deref mbind res_bind].
  assert (chunkType (P.addr o) = ADDR) as Hty
    by (apply (po_addr o Hp); by apply andb_true_iff in Hc as [? _]).
  unfold get_target_addr, set_target_addr. rewrite Hty. change (type_eqb ADDR ADDR) with true.
  cbn [panic_if_not negb panic_if mbind res_bind]. rewrite Ha. cbn [mbind res_bind].
  fold (aim a o). rewrite (PT.insert_alter_map (aim a) (parents f) id o Ho).
  etrans; [apply IH; [done|]|done].
  cbn [parents with_pending]. eapply Forall_impl; [exact Hids|]. intros j Hj.
  eapply finished_sim; [|exact Hj]. apply heap_sim_aim, heap_sim_refl.
Qed.

(** The backend after a sequence of predictions: only its buffer changes. *)
Record accepts (entries : list CWE.t) (b b' : Backend.t) : Prop := {
  ac_run : for_each entries add_write b = Ok b';
  ac_wf : Backend.wf b';
  ac_use : Backend.usePredictor b' = Backend.usePredictor b;
  ac_enabled : Backend.predictorEnabled b' = Backend.predictorEnabled b;
  ac_cfg : Backend.cfg b' = Backend.cfg b;
  ac_stats : Backend.stats b' = Backend.stats b
}.

(** The predictions of the parents [ids]. *)
Definition sent (sh : SharedArea.t) (h : gmap Z P.t) (ids : list Z) (entries : list CWE.t) : Prop :=
  Forall2 (fun id e => exists o, h !! id = Some o /\ sent_as now sh o e) ids entries.

Lemma send_one_ok id f :
  finished (parents f) id -> Backend.wf (backend f) ->
  Backend.tracker_ok (SharedArea.constPredTracker (shared f)) ->
  exists o e b, send_one id f =
      Ok (with_backend b (with_stats (Stats.incr "predictedWriteCount") f)) /\
    parents f !! id = Some o /\ sent_as now (shared f) o e /\ accepts [e] (backend f) b.
Proof.
  intros (o & Ho & Hp & Hc) Hb Ht. unfold Requests.send_one. rewrite Ho. cbn [deref mbind res_bind].
  destruct (completed_entry_ok now (shared f) o Hp Hc Ht) as (e & -> & Hw & Hk & He).
  cbn [mbind res_bind]. rewrite CacheLine.print_ok by (apply complete_line; [apply Hp|done]).
  cbn [mbind res_bind]. unfold CWE.has_addr. rewrite (CWE.wf_addr _ Hw).
  cbn [panic_if_not negb panic_if mbind res_bind]. unfold sendToBackend.
  cbn [backend with_stats].
  destruct (Backend.addCompletedWrite_ok pt isCounterCacheHit isVerificationCacheHit now e
    (backend f) Hb Hw Hk) as (b & E & Hb' & Hcf & Hst & Hu & Hen & _).
  rewrite E. cbn [mbind res_bind]. exists o, e, b. split; [done|]. split; [done|]. split; [done|].
  split; try done. cbn [for_each]. by rewrite E.
Qed.

Lemma send_loop ids f :
  Forall (finished (parents f)) ids -> Backend.wf (backend f) ->
  Backend.tracker_ok (SharedArea.constPredTracker (shared f)) ->
  exists entries b g, for_each ids send_one f = Ok (with_backend b (with_stats g f)) /\
    sent (shared f) (parents f) ids entries /\ accepts entries (backend f) b.
Proof.
  intros Hids Hb Ht. revert f Hids Hb Ht. induction ids as [|id ids IH]; intros f Hids Hb Ht.
  { exists [], (backend f), (fun st => st). split; [by destruct f|]. split; [constructor|by split]. }
  apply Forall_cons in Hids as [Hid Hids]. cbn [for_each].
  destruct (send_one_ok id f Hid Hb Ht) as (o & e & b1 & -> & Ho & He & [A1 A2 A3 A4 A5 A6]).
  cbn [mbind res_bind].
  destruct (IH (with_backend b1 (with_stats (Stats.incr "predictedWriteCount") f)))
    as (l & b2 & g & -> & Hs & [B1 B2 B3 B4 B5 B6]); [done..|].
  exists (e :: l), b2, (fun st => g (Stats.incr "predictedWriteCount" st)). split; [done|].
  split; [constructor; [by exists o|exact Hs]|].
  cbn [backend with_backend] in *. cbn [for_each] in A1. apply bind_ok in A1 as (b1' & A1 & Hb1).
  injection Hb1 as ->. split; [|done|congruence..]. cbn [for_each]. by rewrite A1.
Qed.

Lemma send_ok ids f :
  ids <> [] -> Forall (finished (parents f)) ids -> Backend.wf (backend f) ->
  Backend.tracker_ok (SharedArea.constPredTracker (shared f)) ->
  exists entries b g, send ids f = Ok (with_backend b (with_stats g f)) /\
    sent (shared f) (parents f) ids entries /\ accepts entries (backend f) b.
Proof.
  intros Hne Hids Hb Ht. destruct (send_loop ids f Hids Hb Ht) as (l & b & g & E & Hs & Ha).
  exists l, b, g. split; [|done]. unfold sendWritesToBackend. rewrite E. by destruct ids.
Qed.

Lemma fill_temp_ok data off n :
  (off + n <= DATA_CHUNK_COUNT)%nat -> (n <= length data)%nat -> fill_temp now data off n = Ok tt.
Proof.
  intros Hoff Hn. unfold fill_temp.
  destruct (for_each_total (fun cs : list ChunkInfo.t => length cs = DATA_CHUNK_COUNT) (seq off n)
    (fun i cs => d ← deref (data !! (i - off)%nat);
                 modify i (fun c => set_data d (set_chunk_type DATA c)) cs)
    (CacheLine.dataChunks (CacheLine.new now))) as (cs & -> & _); [done| |done].
  intros i cs Hi%elem_of_seq Hl.
  destruct (lookup_lt_is_Some_2 data (i - off)) as [d ->]; [lia|]. cbn [deref mbind res_bind].
  destruct (lookup_lt_is_Some_2 cs i) as [c Hc]; [lia|].
  destruct (set_data d (set_chunk_type DATA c)) as [c'|] eqn:E; [|by rewrite set_data_ok in E].
  exists (<[i := c']> cs). rewrite (modify_ok _ _ _ _ c' Hc) by done.
  split; [done|]. by rewrite length_insert.
Qed.

(** A store of the width of its PC. *)
Record delivered_store (pkt : Packet.t) (v pc : Z) (data : list Z) : Prop := {
  ds_vaddr : Packet.vaddr pkt = Some v;
  ds_pc : Packet.pc pkt = Some pc;
  ds_data : Packet.data pkt = Some data;
  ds_size : Packet.reqSize pkt / SIZEOF_DATACHUNK = Z.of_nat (width pc);
  ds_fits : (chunk_index v + width pc <= DATA_CHUNK_COUNT)%nat;
  ds_words : (width pc <= length data)%nat
}.

(** What delivery needs of the frontend: once there are predictions the stride
    predictor has seen an address. *)
Record deliverable (f : t) : Prop := {
  dl_pend : pend_ok width (pendingTable f) (parents f) (nextParent f) (17 * nextParent f);
  dl_stride : AddrPredictor.ok (addrPredictor f);
  dl_seen : SimpleFixedSizeQueue.queue (AddrPredictor.addrDiff (addrPredictor f)) = [] ->
    parents f = ∅;
  dl_backend : Backend.wf (backend f);
  dl_tracker : Backend.tracker_ok (SharedArea.constPredTracker (shared f))
}.

(** The address of the stride predictor, where it is used. *)
Definition target (f : t) : option Z :=
  match AddrPredictor.can_pred_addr (addrPredictor f), AddrPredictor.predict_addr (addrPredictor f) with
  | Ok true, Ok a => if disableFancyAddrPred (cfg f) then None else Some a
  | _, _ => None
  end.

Definition served_by (pc : Z) (data : list Z) (f : t) : gmap Z P.t :=
  served_heap width now pc data (pendingTable f) (parents f).
Definition completes (pc : Z) (data : list Z) (f : t) : list Z :=
  completed_by width now pc data (pendingTable f) (parents f).

Lemma completes_finished pc data f p :
  pend_ok width p (served_by pc data f) (nextParent f) (17 * nextParent f) ->
  pend_ok width (pendingTable f) (parents f) (nextParent f) (17 * nextParent f) ->
  Forall (finished (served_by pc data f)) (completes pc data f).
Proof.
  intros Hp' Hp. apply Forall_forall. intros id Hid.
  apply (completed_by_ok width now pc data _ _ _ _ Hp) in Hid as [_ Hid].
  unfold PT.complete_in in Hid. fold (served_by pc data f) in Hid.
  destruct (served_by pc data f !! id) as [o|] eqn:Ho; [|done]. exists o. split; [done|].
  split; [|done]. by apply (pe_heap _ _ _ _ _ Hp' id o Ho).
Qed.

(** What the frontend becomes when a store of [pc] with the words [data] is
    delivered and the backend receives [entries]. *)
Record delivery (pc : Z) (data : list Z) (entries : list CWE.t) (f f' : t) : Prop := {
  de_frame : exists p b g, f' = with_backend b (with_stats g (with_pending p (parents f') f));
  de_parents : parents f' = aim_all (target f) (completes pc data f) (served_by pc data f);
  de_pend : pend_ok width (pendingTable f') (parents f') (nextParent f) (17 * nextParent f);
  de_queues : forall pc', PT.queue (pendingTable f') pc' =
    if decide (pc' = pc) then [] else PT.queue (pendingTable f) pc';
  de_words : forall e, e ∈ PT.queue (pendingTable f) pc -> PT.holds now data (served_by pc data f) e;
  de_sent : sent (shared f) (parents f') (completes pc data f) entries;
  de_backend : accepts entries (backend f) (backend f')
}.

Lemma aim_all_nil a h : aim_all a [] h = h.
Proof. by destruct a. Qed.

Lemma same_delivery pc data f :
  PT.queue (pendingTable f) pc = [] -> deliverable f -> delivery pc data [] f f.
Proof.
  intros Hq [H1 _ _ H4 _].
  assert (served_by pc data f = parents f) as Eh by (unfold served_by, served_heap; by rewrite Hq).
  assert (completes pc data f = []) as Ec by (unfold completes, completed_by; by rewrite Hq).
  split; rewrite ?Ec, ?Eh, ?aim_all_nil; try done.
  - exists (pendingTable f), (backend f), (fun st => st). by destruct f.
  - intros pc'. case_decide; [by subst|done].
  - intros e He. rewrite Hq in He. by apply not_elem_of_nil in He.
  - constructor.
Qed.

(** The parents a non-empty queue needs make the stride predictor usable. *)
Lemma stride_usable pc f e :
  deliverable f -> e ∈ PT.queue (pendingTable f) pc ->
  exists b a, AddrPredictor.can_pred_addr (addrPredictor f) = Ok b /\
    AddrPredictor.predict_addr (addrPredictor f) = Ok a.
Proof.
  intros [H1 H2 H3 _ _] He. apply AddrPredictor.can_predict_ok; [done|]. intros Hq.
  destruct (pe_waits _ _ _ _ _ H1 pc e He) as (id & o & _ & Ho & _).
  rewrite (H3 Hq), lookup_empty in Ho. done.
Qed.

(** Lines 1440-1453 over all completed parents. *)
Lemma retarget_ok ids f b a :
  AddrPredictor.can_pred_addr (addrPredictor f) = Ok b ->
  AddrPredictor.predict_addr (addrPredictor f) = Ok a -> Forall (finished (parents f)) ids ->
  (can ← AddrPredictor.can_pred_addr (addrPredictor f);
   if can && negb (disableFancyAddrPred (cfg f)) then for_each ids replace_addr f else Ok f) =
    Ok (with_pending (pendingTable f) (aim_all (target f) ids (parents f)) f).
Proof.
  intros Eb Ea Hids. unfold target. rewrite Eb, Ea. cbn [mbind res_bind].
  destruct b; cbn [andb]; [|by destruct f].
  destruct (disableFancyAddrPred (cfg f)); cbn [negb]; [by destruct f|]. by apply replace_loop.
Qed.

Lemma pending_delivered pkt v pc data f :
  delivered_store pkt v pc data -> deliverable f ->
  exists f' entries, deliver pkt f = Ok f' /\ delivery pc data entries f f'.
Proof using now_pos.
  intros [S1 S2 S3 S4 S5 S6] Hf. pose proof Hf as [H1 _ _ H4 H5]. unfold updatePendingTable.
  unfold Packet.hasVaddr, Packet.hasPC, Packet.getPC, Packet.getVaddr, Packet.getPtr.
  rewrite S1, S2, S3, S4, Nat2Z.id. rewrite !bool_decide_true by eauto.
  cbn [assert_that mbind res_bind Packet.valid].
  rewrite (PT.has_pc_waiting_ok _ _ pc (pe_table _ _ _ _ _ H1)). case_bool_decide as Hq.
  2:{ exists f, []. split; [done|]. apply same_delivery; [|done].
      destruct (PT.queue (pendingTable f) pc); [done|]. by destruct Hq. }
  rewrite fill_temp_ok by done. cbn [mbind res_bind].
  destruct (serve_ok width now pc data _ _ _ _ H1 now_pos S6) as (p & E & Hp & HQ & Hh).
  { by rewrite (PT.has_pc_waiting_ok _ _ pc (pe_table _ _ _ _ _ H1)), bool_decide_true. }
  rewrite E. cbn [mbind res_bind]. clear E.
  fold (served_by pc data f) (completes pc data f) in *.
  set (f1 := with_pending p (served_by pc data f) f).
  pose proof (completes_finished pc data f p Hp H1) as Hfin.
  destruct (completes pc data f) as [|id0 ids0] eqn:Ec.
  { exists f1, []. split; [done|]. split; cbn [parents pendingTable with_pending backend f1];
      rewrite ?Ec, ?aim_all_nil; try done.
    - exists p, (backend f), (fun st => st). by destruct f.
    - constructor. }
  rewrite <- Ec in *. assert (completes pc data f <> []) as Hne by (by rewrite Ec). clear Ec.
  destruct (PT.queue (pendingTable f) pc) as [|e0 q0] eqn:Eq0; [done|].
  destruct (stride_usable pc f e0 Hf) as (cb & a & Ecb & Ea); [rewrite Eq0; by left|].
  rewrite <- Eq0 in *.
  pose proof (retarget_ok (completes pc data f) f1 cb a Ecb Ea Hfin) as Er.
  change (addrPredictor f1) with (addrPredictor f) in Er |- *.
  rewrite Ecb in Er |- *. cbn [mbind res_bind] in Er |- *. rewrite Er. cbn [mbind res_bind].
  change (target f1) with (target f). set (h := aim_all (target f) _ _).
  assert (heap_sim (served_by pc data f) h) as Hsim by apply aim_all_sim.
  destruct (send_ok (completes pc data f) (with_pending p h f)) as (l & b & g & Es & Hs & Ha);
    [done| |done|done|].
  { eapply Forall_impl; [exact Hfin|]. intros id. by apply finished_sim. }
  exists (with_backend b (with_stats g (with_pending p h f))), l. split; [exact Es|].
  split; cbn [parents pendingTable with_pending with_backend with_stats backend]; try done.
  - by exists p, b, g.
  - by eapply sim_pend_ok.
Qed.

(** C3: a store of the width of its PC is delivered without stopping the
    program: every entry of the queue of its PC gets its word, the queue becomes
    empty and the others stay as they are; exactly the parents that become
    complete are sent to the backend, each once, at the address the stride
    predictor gives where it is used; and the invariant of the pending
    predictions holds again. *)
Theorem delivery_spec pkt v pc data f :
  delivered_store pkt v pc data -> deliverable f ->
  exists f' entries, deliver pkt f = Ok f' /\
    PT.queue (pendingTable f') pc = [] /\
    (forall pc', pc' <> pc -> PT.queue (pendingTable f') pc' = PT.queue (pendingTable f) pc') /\
    (forall e, e ∈ PT.queue (pendingTable f) pc -> PT.holds now data (served_by pc data f) e) /\
    parents f' = aim_all (target f) (completes pc data f) (served_by pc data f) /\
    NoDup (completes pc data f) /\
    (forall id, id ∈ completes pc data f <-> becomes_complete (parents f) (served_by pc data f) id) /\
    sent (shared f) (parents f') (completes pc data f) entries /\
    accepts entries (backend f) (backend f') /\
    pend_ok width (pendingTable f') (parents f') (nextParent f) (17 * nextParent f).
Proof using now_pos.
  intros Hs Hf. destruct (pending_delivered pkt v pc data f Hs Hf) as (f' & entries & E & [D1 D2 D3 D4 D5 D6 D7]).
  destruct (completed_by_ok width now pc data _ _ _ _ (dl_pend _ Hf)) as [Hnd Hid].
  exists f', entries. split; [done|].
  split; [by rewrite D4, decide_True|]. split; [intros pc' Hne; by rewrite D4, decide_False|].
  split; [done|]. split; [done|]. split; [done|]. split; [exact Hid|done].
Qed.
End Deliver.
End Delivery.
