(* ===== verification/Promotion.v ===== *)
(** * From a pattern to a prediction

    What [handleWrite] of [mem/predictor_frontend.cc] does with an entry of the
    predictor table whose path was taken: its promotion to a parent and the
    entries of the pending table that wait for its address and its words. *)

From S2P Require Import Prelude Common PageTable Chunk CacheLine Queues AddrPredictor Shared.
From S2P Require Import WriteHistory PredictorTable CompletedWrite Backend PendingTable Frontend.
From S2P Require Import LineSearch Requests.
From S2P Require Import Delivery.

Module Promotion.
Module WHB := WriteHistoryBufferEntry.
Module CWE := CompletedWriteEntry.
Module PTE := PredictorTableEntry.
Module P := PendingTableEntryParent.
Module U := PendTableChunkInfo.
Module PT := PendingTable.
Import ChunkInfo Frontend Requests Delivery.

(** ** A pattern is promoted *)
Section Promote.
Variable width : Z -> nat.
Variable now : Z.

(** The chunks of the parent: marked where a word is to come. *)
Definition marked_chunk (c : ChunkInfo.t) : ChunkInfo.t :=
  if validb c then set_generating_pc (generatingPC c) (set_chunk_type DATA ChunkInfo.new)
  else ChunkInfo.new.
Definition fresh_parent (e : PTE.t) : P.t :=
  P.set_original_cacheline (PTE.originalCacheLine e) (P.set_generator_hash (PTE.hash e)
    (P.with_chunks (map marked_chunk (PTE.dataChunks e)) (P.new now))).

(** An entry the table returns for a hash. *)
Record promotable (e : PTE.t) : Prop := {
  pr_pattern : pattern_ok width e;
  pr_chunks : CacheLine.wf_chunks (PTE.dataChunks e);
  pr_hash : PTE.hasHash e = true
}.

Lemma source_pc extra c : source_ok width extra c -> get_generating_pc c = Ok (generatingPC c).
Proof. intros H. unfold get_generating_pc. by rewrite (so_pc _ _ _ H). Qed.

Lemma mark_loop e :
  promotable e ->
  for_each (seq 0 DATA_CHUNK_COUNT) (mark_chunk e) (replicate DATA_CHUNK_COUNT ChunkInfo.new) =
    Ok (map marked_chunk (PTE.dataChunks e)).
Proof.
  intros [Hp Hcs _].
  destruct (for_each_seq (fun k cs => forall i, cs !! i = if decide (i < k)%nat
      then marked_chunk <$> PTE.dataChunks e !! i
      else replicate DATA_CHUNK_COUNT ChunkInfo.new !! i) DATA_CHUNK_COUNT (mark_chunk e)
    (replicate DATA_CHUNK_COUNT ChunkInfo.new)) as (cs & -> & H).
  - intros i. by rewrite decide_False by lia.
  - intros k cs Hk Hcs'. destruct (CacheLine.wf_lookup _ k Hcs Hk) as (c & Hc & Lc).
    unfold mark_chunk. rewrite Hc. cbn [deref mbind res_bind].
    rewrite is_valid_legal by auto with pmweaver. cbn [mbind res_bind].
    pose proof (Hcs' k) as Hck. rewrite decide_False, lookup_replicate_2 in Hck by lia.
    assert (forall x (cs' : list ChunkInfo.t), (forall i, cs' !! i = if decide (i = k) then Some x else cs !! i) ->
      x = marked_chunk c -> forall i, cs' !! i = if decide (i < S k)%nat
        then marked_chunk <$> PTE.dataChunks e !! i
        else replicate DATA_CHUNK_COUNT ChunkInfo.new !! i) as Hnext.
    { intros x cs' Hx -> i. rewrite Hx. case_decide as Hi.
      - subst. by rewrite decide_True, Hc by lia.
      - rewrite Hcs'. repeat case_decide; done || lia. }
    destruct (validb c) eqn:Vc.
    + rewrite (modify_ok _ _ _ _ (marked_chunk c) Hck).
      * eexists. split; [done|]. apply (Hnext (marked_chunk c)); [|done]. intros i.
        case_decide as Hi; [subst; apply list_lookup_insert_eq; by eapply lookup_lt_Some|].
        by apply list_lookup_insert_ne.
      * unfold marked_chunk. rewrite Vc. rewrite (source_pc 0); [done|].
        apply (pa_words _ _ Hp); [by eapply list_elem_of_lookup_2|done].
    + exists cs. split; [done|]. apply (Hnext ChunkInfo.new); [|unfold marked_chunk; by rewrite Vc].
      intros i. case_decide as Hi; [by subst|done].
  - f_equal. apply list_eq. intros i. rewrite H.
    change (map marked_chunk (PTE.dataChunks e)) with (marked_chunk <$> PTE.dataChunks e).
    rewrite list_lookup_fmap. case_decide; [done|].
    rewrite !lookup_ge_None_2; rewrite ?length_replicate; try lia; [done|].
    rewrite (CacheLine.wf_length _ Hcs). lia.
Qed.

Lemma new_parent_eq e : promotable e -> new_parent now e = Ok (fresh_parent e).
Proof.
  intros He. unfold new_parent.
  change (CacheLine.dataChunks (P.cacheline (P.new now)))
    with (replicate DATA_CHUNK_COUNT ChunkInfo.new).
  rewrite mark_loop by done. cbn [mbind res_bind]. destruct He as [Hp _ Hh].
  rewrite (PredictorTable.get_hash_ok e _ Hh eq_refl). cbn [mbind res_bind].
  unfold PTE.get_original_cacheline. by rewrite (proj1 (pa_orig _ _ Hp)).
Qed.

Lemma marked_lookup e i c :
  PTE.dataChunks e !! i = Some c -> P.chunks (fresh_parent e) !! i = Some (marked_chunk c).
Proof.
  intros H. change (P.chunks (fresh_parent e)) with (marked_chunk <$> PTE.dataChunks e).
  by rewrite list_lookup_fmap, H.
Qed.

Lemma marked_valid c : validb (marked_chunk c) = validb c /\ datab (marked_chunk c) = validb c /\
  (validb c = true -> has_generating_pc (marked_chunk c) = true).
Proof.
  unfold marked_chunk. destruct (validb c); [|done]. do 2 (split; [done|]). intros _.
  unfold has_generating_pc, has, set_generating_pc. cbn. by flag_simpl.
Qed.

Lemma fresh_parent_ok e : promotable e -> parent_ok (fresh_parent e).
Proof.
  intros [[A1 A2 A3 (c0 & Hc0 & Hv0) [A5 A6] A7] Hcs Hh].
  assert (forall i c, P.chunks (fresh_parent e) !! i = Some c ->
    exists c0, PTE.dataChunks e !! i = Some c0 /\ c = marked_chunk c0) as Hback.
  { intros i c Hi. change (P.chunks (fresh_parent e)) with (marked_chunk <$> PTE.dataChunks e) in Hi.
    apply list_lookup_fmap_Some in Hi as (x & -> & Hx). by exists x. }
  split; try done.
  - split.
    + change (length (map marked_chunk (PTE.dataChunks e)) = DATA_CHUNK_COUNT).
      rewrite length_map. apply Hcs.
    + apply Forall2_same_length_lookup. split.
      { change (length (map marked_chunk (PTE.dataChunks e)) =
          length (replicate DATA_CHUNK_COUNT false)).
        rewrite length_map, length_replicate. apply Hcs. }
      intros i c d Hc Hd. change (replicate DATA_CHUNK_COUNT false !! i = Some d) in Hd.
      apply lookup_replicate in Hd as [-> _]. destruct (Hback i c Hc) as (x & _ & ->).
      split; [|done]. unfold marked_chunk. destruct (validb x); [by right|by left].
    + apply list_elem_of_lookup in Hc0 as [i Hi]. apply Exists_exists.
      exists (marked_chunk c0). split; [eapply list_elem_of_lookup_2; by apply marked_lookup|].
      by rewrite (proj1 (marked_valid c0)).
  - intros i c _ Hd. change (replicate DATA_CHUNK_COUNT false !! i = Some true) in Hd.
    by apply lookup_replicate in Hd as [? _].
  - intros c Hc Hv. apply list_elem_of_lookup in Hc as [i Hi].
    destruct (Hback i c Hi) as (x & _ & ->). rewrite (proj1 (marked_valid x)) in Hv.
    by apply marked_valid.
  - intros i Hi. destruct (A7 i Hi) as (c & Hc & Hv). exists (marked_chunk c).
    split; [by apply marked_lookup|]. by rewrite (proj1 (marked_valid c)).
Qed.

(** *** One more entry waits *)

Lemma pend_ok_len p h next len len' :
  len <= len' -> pend_ok width p h next len -> pend_ok width p h next len'.
Proof. intros Hl [? ? ? ? ? ? H]. split; try done. intros pc. specialize (H pc). lia. Qed.

(** The queues after one insertion: the entry is at the end of its queue, the
    other entries were there before. *)
Record one_more (u : U.t) (pc : Z) (p p' : PT.t) : Prop := {
  om_subset : forall pc' e, e ∈ PT.queue p' pc' -> e ∈ PT.queue p pc' \/ (e = u /\ pc' = pc);
  om_room : Z.of_nat (length (PT.insertionOrder p)) + 1 < PT.MAX_SIZE p ->
    forall pc', PT.queue p' pc' =
      if decide (pc' = pc) then PT.queue p pc ++ [u] else PT.queue p pc';
  om_max : PT.MAX_SIZE p' = PT.MAX_SIZE p;
  om_order : (length (PT.insertionOrder p') <= S (length (PT.insertionOrder p)))%nat
}.

Lemma add_entry_ok u pc whb p h next len :
  pend_ok width p h next len -> PT.entry_ok h pc u -> inside width pc u -> waits h u ->
  is_whb_search (U.chunk u) = false -> 0 <= len -> is_u64 (len + 1) ->
  (forall pc' e, e ∈ PT.queue p pc' -> PT.key e <> PT.key u) ->
  exists p', PT.add u whb p h = Ok (p', h) /\ pend_ok width p' h next (len + 1) /\ one_more u pc p p'.
Proof.
  intros [H1 H2 H3 H4 H5 H6 H7] He Hin Hw Hs Hl0 Hlen Hk.
  destruct (PT.pending_add_ok u whb p h pc H1 He) as (p' & E & Hok & HQ & Hmax & Hord);
    [|unfold is_u64 in *; specialize (H7 pc); lia|by left|].
  { intros Hx. apply list_elem_of_fmap in Hx as (e & Ee & Hx). by apply (Hk pc e Hx). }
  assert (forall pc' e, e ∈ PT.queue p' pc' -> e ∈ PT.queue p pc' \/ (e = u /\ pc' = pc)) as Hsub.
  { intros pc' e. rewrite HQ. case_decide; [by intros ?%not_elem_of_nil|].
    case_decide; [|by left]. subst. intros [?|?%list_elem_of_singleton]%elem_of_app; [by left|by right]. }
  exists p'. split; [done|]. split; [|split; try done].
  - split; try done.
    + intros pc' e Hx. destruct (Hsub pc' e Hx) as [?|[-> ->]]; [by apply H4|done].
    + intros pc' e Hx. destruct (Hsub pc' e Hx) as [?|[-> ->]]; [by eapply H5|done].
    + intros pc1 pc2 e1 e2 Hx1 Hx2 Hkk.
      destruct (Hsub pc1 e1 Hx1) as [Hy1|[-> ->]], (Hsub pc2 e2 Hx2) as [Hy2|[-> ->]]; try done.
      * by eapply H6.
      * by destruct (Hk pc1 e1 Hy1).
      * by destruct (Hk pc2 e2 Hy2).
    + intros pc'. rewrite HQ. pose proof (H7 pc'). pose proof (H7 pc).
      do 2 (case_decide; [rewrite ?length_app; cbn; lia|]). lia.
  - intros Hroom pc'. rewrite HQ. unfold PT.evicted.
    rewrite (proj2 (Z.eqb_neq _ _)) by lia.
    rewrite decide_False; [done|]. by case_bool_decide.
Qed.

(** *** A parent changes while its entries wait *)

(** The parent keeps what it waits for. *)
Record like (o o' : P.t) : Prop := {
  lk_ok : parent_ok o';
  lk_shape : PT.shape o' = PT.shape o;
  lk_addr : P.addrComplete o' = P.addrComplete o;
  lk_data : P.dataComplete o' = P.dataComplete o
}.

Lemma pend_ok_like p h next len id o o' :
  pend_ok width p h next len -> h !! id = Some o -> like o o' ->
  pend_ok width p (<[id := o']> h) next len.
Proof.
  intros [[T1 T2 T3 T4 T5 T6 T7] H2 H3 H4 H5 H6 H7] Ho [L1 L2 L3 L4]. split; try done.
  - split; try done. intros pc. eapply Forall_impl; [apply T3|].
    intros e [? ? ? ? ? ? (j & x & Hj & Hx & Hw & Ht)]. split; try done.
    destruct (decide (id = j)) as [<-|Hne].
    + exists id, o'. rewrite lookup_insert_eq, L2. simplify_eq.
      split; [done|]. split; [done|]. split; [apply L1|done].
    + exists j, x. by rewrite lookup_insert_ne.
  - intros j x. destruct (decide (id = j)) as [<-|Hne].
    + rewrite lookup_insert_eq. intros [= <-]. split; [done|]. by apply (H2 id o).
    + rewrite lookup_insert_ne by done. apply H2.
  - intros pc e He. destruct (H5 pc e He) as (j & x & Hj & Hx & Hop).
    destruct (decide (id = j)) as [<-|Hne].
    + exists id, o'. rewrite lookup_insert_eq. split; [done|]. split; [done|]. simplify_eq.
      unfold open_in in *. by rewrite L3, L4.
    + exists j, x. by rewrite lookup_insert_ne.
Qed.

(** A new parent no entry refers to. *)
Lemma pend_ok_new p h next len o :
  pend_ok width p h next len -> parent_ok o -> pend_ok width p (<[next := o]> h) (next + 1) len.
Proof.
  intros [[T1 T2 T3 T4 T5 T6 T7] H2 H3 H4 H5 H6 H7] Ho.
  assert (forall j x, h !! j = Some x -> <[next := o]> h !! j = Some x) as Hkeep.
  { intros j x Hx. rewrite lookup_insert_ne; [done|]. intros ->. destruct (H2 j x Hx). lia. }
  split; try done; [|intros j x|lia|].
  - split; try done. intros pc. eapply Forall_impl; [apply T3|].
    intros e [? ? ? ? ? ? (j & x & Hj & Hx & Hw & Ht)]. split; try done. exists j, x. auto.
  - destruct (decide (next = j)) as [<-|Hne].
    + rewrite lookup_insert_eq. intros [= <-]. split; [done|lia].
    + rewrite lookup_insert_ne by done. intros Hx. destruct (H2 j x Hx). split; [done|lia].
  - intros pc e He. destruct (H5 pc e He) as (j & x & Hj & Hx & Hop). exists j, x. auto.
Qed.

(** *** The entries of a promotion *)

Definition addr_entry (id : Z) (e : PTE.t) : U.t := U.of_chunk (PTE.addrChunk e) (Some id) 0.
Definition word_entry (id : Z) (x : nat * ChunkInfo.t) : option U.t :=
  if validb x.2 && negb (is_const_0_pred x.2)
  then Some (U.of_chunk (set_chunk_type DATA x.2) (Some id) (Z.of_nat x.1)) else None.
(** The address and the words that are not predicted to be zero, the first [k]
    of them. *)
Definition awaited_upto (k : nat) (id : Z) (e : PTE.t) : list U.t :=
  addr_entry id e :: omap (word_entry id) (imap pair (take k (PTE.dataChunks e))).
Definition awaited : Z -> PTE.t -> list U.t := awaited_upto DATA_CHUNK_COUNT.

Definition of_pc (pc : Z) (u : U.t) : Prop := generatingPC (U.chunk u) = pc.
#[local] Instance of_pc_dec pc u : Decision (of_pc pc u).
Proof. unfold of_pc. apply _. Defined.

Lemma awaited_step k id e c :
  PTE.dataChunks e !! k = Some c ->
  awaited_upto (S k) id e = awaited_upto k id e ++ option_list (word_entry id (k, c)).
Proof.
  intros Hc. unfold awaited_upto. rewrite (take_S_r _ _ c) by done. rewrite imap_app, omap_app.
  cbn [imap omap]. rewrite length_take_le by (apply lookup_lt_Some in Hc; lia).
  rewrite Nat.add_0_r. cbn. by destruct (word_entry id (k, c)).
Qed.

(** The frontend after the address and the first [k] words of [e] were added
    for the parent [nextParent f0]. *)
Record promoting (e : PTE.t) (k : nat) (f0 f : t) : Prop := {
  pg_next : 0 <= nextParent f0;
  pg_frame : exists g p h, f = with_stats g (with_nextParent (nextParent f0 + 1) (with_pending p h f0));
  pg_pend : pend_ok width (pendingTable f) (parents f) (nextParent f0 + 1)
    (17 * nextParent f0 + 1 + Z.of_nat k);
  pg_parent : exists o, parents f !! nextParent f0 = Some o /\ like (fresh_parent e) o /\
    P.originalCacheLine o = PTE.originalCacheLine e /\ P.generatorHash o = PTE.hash e /\
    (forall i, (k <= i)%nat -> P.chunks o !! i = P.chunks (fresh_parent e) !! i) /\
    (forall i c, (i < k)%nat -> PTE.dataChunks e !! i = Some c -> validb c = true ->
       is_const_0_pred c = true -> CacheLine.view (P.chunks o) i = Some 0);
  pg_others : forall j, j <> nextParent f0 -> parents f !! j = parents f0 !! j;
  pg_fresh : forall pc u, u ∈ PT.queue (pendingTable f) pc -> U.parent u = Some (nextParent f0) ->
    match snd (PT.key u) with Some i => (i < k)%nat | None => True end;
  pg_order : PT.MAX_SIZE (pendingTable f) = PT.MAX_SIZE (pendingTable f0) /\
    (length (PT.insertionOrder (pendingTable f)) <=
       length (PT.insertionOrder (pendingTable f0)) + 1 + k)%nat;
  pg_queues : Z.of_nat (length (PT.insertionOrder (pendingTable f0))) + 17 < PT.MAX_SIZE (pendingTable f0) ->
    forall pc, PT.queue (pendingTable f) pc =
      PT.queue (pendingTable f0) pc ++ filter (of_pc pc) (awaited_upto k (nextParent f0) e)
}.

(** An entry of the promotion, before it is inserted. *)
Lemma promoted_entry_ok extra c (i : Z) h id o :
  source_ok width extra c -> h !! id = Some o -> P.wf o -> 0 <= i ->
  match chunkType c with
  | DATA => PT.shape o !! Z.to_nat i = Some true
  | ADDR => True
  | _ => False
  end -> PT.entry_ok h (generatingPC c) (U.of_chunk c (Some id) i).
Proof.
  intros Hs Ho Hw Hi Ht. split; try done.
  - by apply (source_pc extra).
  - apply Hs.
  - cbn. unfold get_data_field_offset. pose proof (so_offset _ _ _ Hs) as Hoff.
    unfold has_data_field_offset in Hoff. by rewrite Hoff.
  - apply Hs.
  - exists id, o. cbn [U.chunk U.of_chunk PT.slot U.parentIndex]. split; [done|]. split; [done|].
    split; [done|]. by destruct (chunkType c).
Qed.

Lemma waits_parent p h next len pc u :
  pend_ok width p h next len -> u ∈ PT.queue p pc -> exists j, U.parent u = Some j /\ j < next.
Proof.
  intros Hp Hu. destruct (pe_waits _ _ _ _ _ Hp pc u Hu) as (j & o & Hj & Ho & _).
  exists j. split; [done|]. by apply (pe_heap _ _ _ _ _ Hp j o Ho).
Qed.

(** Room for every entry of the promotion in the counters. *)
Definition countable (f : t) : Prop := is_u64 (17 * (nextParent f + 1)).

Lemma add_addr_ok e f0 :
  promotable e -> pend_ok width (pendingTable f0) (parents f0) (nextParent f0) (17 * nextParent f0) ->
  countable f0 ->
  exists f, add_pending (addr_entry (nextParent f0) e) (with_nextParent (nextParent f0 + 1)
      (with_pending (pendingTable f0) (<[nextParent f0 := fresh_parent e]> (parents f0)) f0)) = Ok f /\
    promoting e 0 f0 f.
Proof.
  intros He Hp Hc. set (id := nextParent f0) in *. pose proof (fresh_parent_ok e He) as Hfp.
  pose proof (pend_ok_new _ _ _ _ _ Hp Hfp) as Hp1. set (h := <[id := fresh_parent e]> (parents f0)) in *.
  assert (h !! id = Some (fresh_parent e)) as Hid by apply lookup_insert_eq.
  pose proof (pr_pattern e He) as Hpat. pose proof (pa_source _ _ Hpat) as Hsrc.
  pose proof (pa_addr _ _ Hpat) as Hty. pose proof (pe_next _ _ _ _ _ Hp) as Hnext.
  destruct (add_entry_ok (addr_entry id e) (generatingPC (PTE.addrChunk e))
    (FixedSizeQueue.queue (writeHistoryBuffer f0)) (pendingTable f0) h (id + 1) (17 * id))
    as (p' & E & Hp' & [M1 M2 M3 M4]); [done|..].
  - apply (promoted_entry_ok 1 _ _ _ _ (fresh_parent e)); try done; [apply Hfp|by rewrite Hty].
  - unfold inside. cbn. rewrite Hty. apply Hsrc.
  - exists id, (fresh_parent e). split; [done|]. split; [done|]. unfold open_in. cbn. by rewrite Hty.
  - apply Hsrc.
  - lia.
  - unfold countable, is_u64 in *. fold id in Hc. lia.
  - intros pc' u Hu Hk. destruct (waits_parent _ _ _ _ _ _ Hp Hu) as (j & Hj & Hlt).
    unfold PT.key in Hk. cbn in Hk. rewrite Hj in Hk. injection Hk as -> _. lia.
  - unfold add_pending. cbn [writeHistoryBuffer with_nextParent with_pending pendingTable parents].
    fold h. rewrite E. cbn [mbind res_bind]. eexists. split; [reflexivity|].
    split; cbn [pendingTable parents with_pending with_nextParent]; fold id.
    + done.
    + exists (fun st => st), p', h. by destruct f0.
    + by rewrite Z.add_0_r.
    + exists (fresh_parent e). split; [done|]. split; [by split|]. split; [done|]. split; [done|].
      split; [done|]. intros i c Hi. lia.
    + intros j Hj. apply lookup_insert_ne. by intros ->.
    + intros pc u Hu Hpar. destruct (M1 pc u Hu) as [Hold|[-> _]].
      * destruct (waits_parent _ _ _ _ _ _ Hp Hold) as (j & Hj & Hlt).
        rewrite Hj in Hpar. injection Hpar as ->. lia.
      * unfold PT.key. cbn. by rewrite Hty.
    + split; [done|]. cbn in M4. lia.
    + intros Hroom pc. rewrite M2 by lia.
      change (awaited_upto 0 id e) with [addr_entry id e]. rewrite filter_cons, filter_nil. unfold of_pc at 1. cbn [U.chunk addr_entry U.of_chunk].
      repeat case_decide; subst; try done; by rewrite app_nil_r.
Qed.

(** A chunk predicted to be zero. *)
Definition zero_chunk (c : ChunkInfo.t) : ChunkInfo.t :=
  set_generating_pc UINT64_MAX (with_content (content c - u32 (content c) + u32 0)
    (raise HAS_DATA (set_chunk_type DATA (set_time_of_gen now c)))).

Lemma zero_parent_like o k c :
  parent_ok o -> P.chunks o !! k = Some c -> validb c = true ->
  P.dataComplete o !! k = Some false ->
  like o (P.with_chunks (<[k := zero_chunk c]> (P.chunks o)) o) /\
  CacheLine.view (<[k := zero_chunk c]> (P.chunks o)) k = Some 0.
Proof.
  intros [H1 H2 H3 H4 H5 H6 H7] Hc Hv Hd. pose proof (lookup_lt_Some _ _ _ Hc) as Hlt.
  assert (datab c = true) as Hdc.
  { destruct (Forall2_lookup_l _ _ _ _ _ (P.wf_slots _ H1) Hc) as (d & _ & [[Ht|Ht] _]);
      unfold validb, datab in *; by rewrite Ht in *. }
  assert (has_generating_pc (zero_chunk c) = true) as Hg
    by (unfold has_generating_pc, has, zero_chunk, set_generating_pc; cbn; by flag_simpl).
  split.
  - split; try done.
    + split; try done; unfold P.chunks at 1; cbn.
      * destruct H1 as [W1 W2 W3]. split; unfold P.chunks at 1; cbn.
        -- by rewrite length_insert.
        -- rewrite <- (list_insert_id _ _ _ Hd). apply Forall2_insert; [done|]. by split; [right|].
        -- apply Exists_exists. exists (zero_chunk c). split; [|done].
           apply list_elem_of_lookup. exists k. by apply list_lookup_insert_eq.
      * intros i x Hx Hdx. destruct (decide (k = i)) as [<-|Hne]; [congruence|].
        rewrite list_lookup_insert_ne in Hx by done. by apply (H5 i).
      * intros x Hx Hvx. apply list_elem_of_lookup in Hx as [i Hx].
        destruct (decide (k = i)) as [<-|Hne].
        -- rewrite list_lookup_insert_eq in Hx by done. by injection Hx as <-.
        -- rewrite list_lookup_insert_ne in Hx by done. apply H6; [|done].
           by eapply list_elem_of_lookup_2.
      * intros i Hi. destruct (H7 i Hi) as (x & Hx & Hvx). unfold P.chunks at 1. cbn.
        destruct (decide (k = i)) as [<-|Hne].
        -- exists (zero_chunk c). by rewrite list_lookup_insert_eq.
        -- exists x. by rewrite list_lookup_insert_ne.
    + unfold PT.shape at 1, P.chunks at 1. cbn. rewrite list_fmap_insert. apply list_insert_id.
      unfold PT.shape. rewrite list_lookup_fmap, Hc. cbn. by rewrite Hdc.
  - unfold CacheLine.view. rewrite list_lookup_insert_eq by done. cbn. f_equal.
    unfold datum, zero_chunk. cbn [content set_generating_pc with_generatingPC raise with_flags
      with_content]. by rewrite content_low.
Qed.

Lemma like_trans o1 o2 o3 : like o1 o2 -> like o2 o3 -> like o1 o3.
Proof. intros [] []. split; congruence. Qed.

Lemma promoting_skip e k c f0 f :
  promoting e k f0 f -> PTE.dataChunks e !! k = Some c -> validb c = false ->
  promoting e (S k) f0 f.
Proof.
  intros [Q0 Q1 Q2 (o & Q3 & Q4 & Q5 & Q6 & Q7 & Q8) Q9 Q10 [Q11 Q12] Q13] Hc Hv. split; try done.
  - eapply pend_ok_len; [|exact Q2]. lia.
  - exists o. repeat (split; [done|]). split; [intros i Hi; apply Q7; lia|].
    intros i c' Hi Hc' Hv'. destruct (decide (i = k)) as [->|]; [congruence|]. apply Q8; [lia|done..].
  - intros pc u Hu Hpar. specialize (Q10 pc u Hu Hpar). case_match; [lia|done].
  - split; [done|lia].
  - intros Hroom pc. rewrite Q13 by done. rewrite (awaited_step k _ e c Hc).
    unfold word_entry. cbn [snd]. rewrite Hv. cbn. by rewrite app_nil_r.
Qed.

Lemma promoting_zero e k c f0 f :
  promotable e -> promoting e k f0 f -> PTE.dataChunks e !! k = Some c -> validb c = true ->
  is_const_0_pred c = true ->
  exists f', add_chunk now (nextParent f0) e k f = Ok f' /\ promoting e (S k) f0 f'.
Proof.
  intros [_ Hcs _] [Q0 Q1 Q2 (o & Q3 & Q4 & Q5 & Q6 & Q7 & Q8) Q9 Q10 [Q11 Q12] Q13] Hc Hv Hz.
  pose proof (lookup_lt_Some _ _ _ Hc) as Hlt. rewrite (CacheLine.wf_length _ Hcs) in Hlt.
  assert (line_chunk c) as Lc by (eapply Forall_lookup_1; [apply Hcs|done]).
  unfold add_chunk. rewrite Hc. cbn [deref mbind res_bind].
  rewrite is_valid_legal by auto with pmweaver. cbn [mbind res_bind]. rewrite Hv, Hz, Q3.
  cbn [andb deref mbind res_bind].
  assert (P.chunks o !! k = Some (marked_chunk c)) as Hck
    by (rewrite Q7 by done; by apply marked_lookup).
  change (CacheLine.dataChunks (P.cacheline o)) with (P.chunks o).
  rewrite (modify_ok _ _ _ _ (zero_chunk (marked_chunk c)) Hck) by (by rewrite set_data_ok).
  cbn [mbind res_bind].
  assert (P.dataComplete o !! k = Some false) as Hd.
  { rewrite (lk_data _ _ Q4). change (replicate DATA_CHUNK_COUNT false !! k = Some false).
    by apply lookup_replicate_2. }
  destruct (zero_parent_like o k (marked_chunk c)) as [Hlike Hview];
    [apply Q4|done|by rewrite (proj1 (marked_valid c))|done|].
  set (o' := P.with_chunks _ o) in *. eexists. split; [reflexivity|].
  destruct Q1 as (g & p & h & ->).
  split; cbn [pendingTable parents with_pending with_stats with_nextParent] in *.
  - done.
  - by exists (fun st => Stats.incr "constant0Prediction" (g st)), p, (<[nextParent f0 := o']> h).
  - eapply pend_ok_len; [|by eapply pend_ok_like]. lia.
  - exists o'. rewrite lookup_insert_eq. split; [done|]. split; [by eapply like_trans|].
    split; [done|]. split; [done|].
    change (P.chunks o') with (<[k := zero_chunk (marked_chunk c)]> (P.chunks o)). split.
    + intros i Hi. rewrite list_lookup_insert_ne by lia. apply Q7. lia.
    + intros i c' Hi Hc' Hv' Hz'. destruct (decide (i = k)) as [->|Hne]; [exact Hview|].
      unfold CacheLine.view. rewrite list_lookup_insert_ne by done. apply (Q8 i c'); [lia|done..].
  - intros j Hj. rewrite lookup_insert_ne by done. by apply Q9.
  - intros pc u Hu Hpar. specialize (Q10 pc u Hu Hpar). case_match; [lia|done].
  - split; [done|lia].
  - intros Hroom pc. rewrite Q13 by done. rewrite (awaited_step k _ e c Hc).
    unfold word_entry. cbn [snd]. rewrite Hv, Hz. cbn. by rewrite app_nil_r.
Qed.

Lemma promoting_word e k c f0 f :
  promotable e -> promoting e k f0 f -> countable f0 -> PTE.dataChunks e !! k = Some c ->
  validb c = true -> is_const_0_pred c = false ->
  exists f', add_chunk now (nextParent f0) e k f = Ok f' /\ promoting e (S k) f0 f'.
Proof.
  intros [Hpat Hcs _] [Q0 Q1 Q2 (o & Q3 & Q4 & Q5 & Q6 & Q7 & Q8) Q9 Q10 [Q11 Q12] Q13] Hcnt Hc Hv Hz.
  pose proof (lookup_lt_Some _ _ _ Hc) as Hlt. rewrite (CacheLine.wf_length _ Hcs) in Hlt.
  assert (line_chunk c) as Lc by (eapply Forall_lookup_1; [apply Hcs|done]).
  assert (source_ok width 0 c) as Hsrc
    by (apply (pa_words _ _ Hpat); [by eapply list_elem_of_lookup_2|done]).
  assert (set_chunk_type DATA c = c) as Hdata.
  { destruct Lc as [Ht|[Ht _]]; [unfold validb in Hv; by rewrite Ht in Hv|]. destruct c; cbn in *.
    by rewrite Ht. }
  assert (chunkType c = DATA) as Hty by (by rewrite <- Hdata).
  unfold add_chunk. rewrite Hc. cbn [deref mbind res_bind].
  rewrite is_valid_legal by auto with pmweaver. cbn [mbind res_bind]. rewrite Hv, Hz, Hdata.
  cbn [andb]. set (u := U.of_chunk c (Some (nextParent f0)) (Z.of_nat k)).
  change (U.chunk u) with c. rewrite (so_offset _ _ _ Hsrc). cbn [assert_that mbind res_bind].
  rewrite (source_pc 0 c Hsrc). cbn [mbind res_bind].
  rewrite (proj2 (Z.eqb_neq _ _) (so_pc_nonzero _ _ _ Hsrc)). cbn [negb assert_that mbind res_bind].
  unfold DATA_CHUNK_COUNT in Hlt.
  destruct (add_entry_ok u (generatingPC c) (FixedSizeQueue.queue (writeHistoryBuffer f))
    (pendingTable f) (parents f) (nextParent f0 + 1) (17 * nextParent f0 + 1 + Z.of_nat k))
    as (p' & E & Hp' & [M1 M2 M3 M4]); [done|..].
  - apply (promoted_entry_ok 0 c _ _ _ o); try done; [apply Q4|lia|]. rewrite Hty, Nat2Z.id.
    rewrite (lk_shape _ _ Q4). unfold PT.shape. rewrite list_lookup_fmap.
    rewrite (marked_lookup e k c Hc). cbn. by rewrite (proj1 (proj2 (marked_valid c))), Hv.
  - unfold inside. change (chunkType (U.chunk u)) with (chunkType c). rewrite Hty. apply Hsrc.
  - exists (nextParent f0), o. split; [done|]. split; [done|]. unfold open_in.
    change (chunkType (U.chunk u)) with (chunkType c). rewrite Hty, (lk_data _ _ Q4).
    change (PT.slot u) with (Z.to_nat (Z.of_nat k)). rewrite Nat2Z.id.
    change (replicate DATA_CHUNK_COUNT false !! k = Some false). apply lookup_replicate_2. 
    unfold DATA_CHUNK_COUNT. lia.
  - apply Hsrc.
  - lia.
  - unfold countable, is_u64 in *. lia.
  - intros pc' x Hx Hk. unfold PT.key in Hk.
    change (chunkType (U.chunk u)) with (chunkType c) in Hk. rewrite Hty in Hk.
    change (PT.slot u) with (Z.to_nat (Z.of_nat k)) in Hk. rewrite Nat2Z.id in Hk. injection Hk as Hpar Hslot.
    specialize (Q10 pc' x Hx Hpar). unfold PT.key in Q10. cbn in Q10. rewrite Hslot in Q10. lia.
  - unfold add_pending. rewrite E. cbn [mbind res_bind]. eexists. split; [reflexivity|].
    destruct Q1 as (g & p & h & ->).
    split; cbn [pendingTable parents with_pending with_stats with_nextParent] in *.
    + done.
    + by exists g, p', h.
    + by replace (17 * nextParent f0 + 1 + Z.of_nat (S k))
        with (17 * nextParent f0 + 1 + Z.of_nat k + 1) by lia.
    + exists o. repeat (split; [done|]). split; [intros i Hi; apply Q7; lia|].
      intros i c' Hi Hc' Hv' Hz'. destruct (decide (i = k)) as [->|]; [congruence|].
      apply (Q8 i c'); [lia|done..].
    + done.
    + intros pc x Hx Hpar. destruct (M1 pc x Hx) as [Hold|[-> _]].
      * specialize (Q10 pc x Hold Hpar). case_match; [lia|done].
      * unfold PT.key. change (chunkType (U.chunk u)) with (chunkType c). rewrite Hty. cbn [snd].
        change (PT.slot u) with (Z.to_nat (Z.of_nat k)). lia.
    + split; [congruence|lia].
    + intros Hroom pc. rewrite M2 by lia. rewrite !Q13 by done.
      rewrite (awaited_step k _ e c Hc), filter_app. unfold word_entry. cbn [snd fst].
      rewrite Hv, Hz, Hdata. cbn [andb negb]. fold u. change (option_list (Some u)) with [u].
      rewrite filter_cons, filter_nil. change (of_pc pc u) with (generatingPC c = pc).
      repeat case_decide; subst; rewrite ?app_nil_r, ?app_assoc; done.
Qed.

Lemma promoting_loop e f0 f :
  promotable e -> countable f0 -> promoting e 0 f0 f ->
  exists f', for_each (seq 0 DATA_CHUNK_COUNT) (add_chunk now (nextParent f0) e) f = Ok f' /\
    promoting e DATA_CHUNK_COUNT f0 f'.
Proof.
  intros He Hcnt H0.
  apply (for_each_seq (fun k f => promoting e k f0 f)); [done|]. intros k f1 Hk H1.
  destruct (CacheLine.wf_lookup _ k (pr_chunks e He) Hk) as (c & Hc & Lc).
  destruct (validb c) eqn:Hv.
  - destruct (is_const_0_pred c) eqn:Hz; [by eapply promoting_zero|by eapply promoting_word].
  - exists f1. split; [|by eapply promoting_skip]. unfold add_chunk. rewrite Hc.
    cbn [deref mbind res_bind]. rewrite is_valid_legal by auto with pmweaver.
    cbn [mbind res_bind]. by rewrite Hv.
Qed.

Lemma check_entry_ok e : promotable e -> check_entry e = Ok tt.
Proof.
  intros [Hp Hcs _]. destruct (pa_some _ _ Hp) as (c & Hc & Hv). unfold check_entry.
  destruct (LineSearch.valid_count_pos _ c Hcs Hc Hv) as (n & -> & Hn). cbn [mbind res_bind].
  rewrite Hn. cbn [panic_if mbind res_bind].
  destruct (for_each_total (fun _ : unit => True) (PTE.dataChunks e)
    (fun c _ => v ← is_valid c; if v : bool then _ ← get_data c; Ok tt else Ok tt) tt)
    as ([] & -> & _); [done| |done].
  intros x [] Hx _. exists tt. split; [|done].
  assert (line_chunk x) as Lx by (destruct Hcs as [_ Hall]; rewrite Forall_forall in Hall; auto).
  rewrite is_valid_legal by auto with pmweaver. cbn [mbind res_bind].
  destruct (validb x) eqn:Vx; [|done]. by rewrite get_data_line.
Qed.

Lemma promote_ok `{O : IterOrder} hash e f :
  PredictorTable.wf (predictorTable f) ->
  PredictorTable.predictorTable (predictorTable f) !! hash = Some e -> pattern_ok width e ->
  pend_ok width (pendingTable f) (parents f) (nextParent f) (17 * nextParent f) -> countable f ->
  exists f', promote now hash f = Ok f' /\ promoting e DATA_CHUNK_COUNT f f'.
Proof.
  intros Hwf He Hpat Hp Hcnt.
  destruct (PredictorTable.wf_table _ Hwf hash e He) as [[Hh Hk] _ _ _ Hcs].
  unfold promote. rewrite PredictorTable.get_with_hash_ok, He by done. cbn [mbind res_bind].
  set (e1 := PTE.assign _ e).
  assert (promotable e1) as He1 by (split; [by destruct Hpat; split|done|done]).
  rewrite check_entry_ok by done. cbn [mbind res_bind]. rewrite new_parent_eq by done.
  cbn [mbind res_bind]. destruct (add_addr_ok e1 f He1 Hp Hcnt) as (f1 & E1 & H1).
  assert (has_data_field_offset (PTE.addrChunk e1) = true) as Hoff
    by apply (so_offset _ _ _ (pa_source _ _ Hpat)).
  fold (addr_entry (nextParent f) e1).
  change (U.chunk (addr_entry (nextParent f) e1)) with (PTE.addrChunk e1).
  rewrite Hoff. cbn [assert_that mbind res_bind]. rewrite E1. cbn [mbind res_bind].
  destruct (promoting_loop e1 f f1 He1 Hcnt H1) as (f2 & -> & [A0 A1 A2 A3 A4 A5 A6 A7]).
  exists f2. split; [done|]. by split.
Qed.

(** C2: the promotion of a table entry whose stores are known never stops
    the program.  It creates one parent with the entry's hash and original line
    whose chunks are marked exactly where the entry has a word; the words marked
    as constant zero are zero already; the other parents are untouched, and the
    invariant of the pending predictions holds again.  When the pending table has
    room for the PCs, each queue grows at its end by the entries that wait for a
    store of its PC: one for the address and one for each word that is not
    constant zero. *)
Theorem promote_spec `{O : IterOrder} hash e f :
  PredictorTable.wf (predictorTable f) ->
  PredictorTable.predictorTable (predictorTable f) !! hash = Some e -> pattern_ok width e ->
  pend_ok width (pendingTable f) (parents f) (nextParent f) (17 * nextParent f) -> countable f ->
  exists f' o, promote now hash f = Ok f' /\
    pend_ok width (pendingTable f') (parents f') (nextParent f') (17 * nextParent f') /\
    nextParent f' = nextParent f + 1 /\ parents f' !! nextParent f = Some o /\
    P.generatorHash o = hash /\ P.originalCacheLine o = PTE.originalCacheLine e /\
    P.completeb o = false /\
    (forall i, PT.shape o !! i = validb <$> PTE.dataChunks e !! i) /\
    (forall i c, PTE.dataChunks e !! i = Some c -> validb c = true -> is_const_0_pred c = true ->
       CacheLine.view (P.chunks o) i = Some 0) /\
    (forall j, j <> nextParent f -> parents f' !! j = parents f !! j) /\
    (Z.of_nat (length (PT.insertionOrder (pendingTable f))) + 17 < PT.MAX_SIZE (pendingTable f) ->
     forall pc, PT.queue (pendingTable f') pc =
       PT.queue (pendingTable f) pc ++ filter (of_pc pc) (awaited (nextParent f) e)).
Proof.
  intros Hwf He Hpat Hp Hcnt. pose proof (PredictorTable.wf_table _ Hwf hash e He) as [[_ Hk] _ _ _ Hcs].
  destruct (promote_ok hash e f Hwf He Hpat Hp Hcnt)
    as (f' & E & [A0 A1 A2 (o & B1 & B2 & B3 & B4 & _ & B6) A4 _ _ A7]).
  assert (nextParent f' = nextParent f + 1) as Hn by (by destruct A1 as (g & p & h & ->)).
  exists f', o. rewrite Hn. split; [done|]. split; [eapply pend_ok_len; [|exact A2]; change DATA_CHUNK_COUNT with 16%nat; lia|].
  do 2 (split; [done|]). split; [congruence|]. split; [done|].
  split; [unfold P.completeb; by rewrite (lk_addr _ _ B2)|].
  split; [|split; [|split; [done|exact A7]]].
  - intros i. rewrite (lk_shape _ _ B2). unfold PT.shape.
    change (P.chunks (fresh_parent e)) with (marked_chunk <$> PTE.dataChunks e).
    rewrite !list_lookup_fmap. destruct (PTE.dataChunks e !! i) as [c|]; [|done]. cbn.
    by rewrite (proj1 (proj2 (marked_valid c))).
  - intros i c Hc. apply (B6 i c); [|done]. apply lookup_lt_Some in Hc.
    by rewrite (CacheLine.wf_length _ Hcs) in Hc.
Qed.
End Promote.
End Promotion.
