(* ===== verification/System.v ===== *)
(** * The predictor as a whole

    Composes the handlers of the frontend ([Requests]) with the accumulator
    ([Frontend]), the search of the history ([LineSearch]), the promotion of
    patterns ([Promotion]), the delivery of stores ([Delivery]) and the backend
    ([Backend]): the invariant of the state between two requests, that every
    request of [predictorHandleRequest] of [mem/predictor_frontend.cc] and of
    [mem/predictor_backend.cc] preserves it, and that the program never stops. *)

From S2P Require Import Prelude Common PageTable Chunk CacheLine Queues AddrPredictor Shared.
From S2P Require Import WriteHistory PredictorTable CompletedWrite Backend PendingTable Frontend.
From S2P Require Import LineSearch Requests Delivery Promotion.

Module System.
Module WHB := WriteHistoryBufferEntry.
Module CWE := CompletedWriteEntry.
Module PTE := PredictorTableEntry.
Module P := PendingTableEntryParent.
Module U := PendTableChunkInfo.
Module PT := PendingTable.
Import ChunkInfo Frontend Requests Delivery Promotion.

Notation history := LineSearch.history.
Definition patterns (f : t) : gmap Z PTE.t := PredictorTable.predictorTable (predictorTable f).

(** ** The invariant

    The stores of the history are not later than [th] and the accumulated lines
    not than [tl]; at most [n] predictions were promoted or broadcast. *)
Definition limits (f : t) : config * Backend.config := (cfg f, Backend.cfg (backend f)).

Section Invariant.
Variable width : Z -> nat.
Variable lim : config * Backend.config.

Record sys_ok (th tl n : Z) (f : t) : Prop := {
  sy_acc : acc_ok f;
  sy_lines : forall a line, cacheLineAccumulator f !! a = Some line -> CacheLine.timeOfCreation line <= tl;
  sy_whb : FixedSizeQueue.ok (writeHistoryBuffer f);
  sy_stores : Forall LineSearch.store_ok (history f);
  sy_ticks : Forall (fun w => 0 <= WHB.genTick w <= th) (history f);
  sy_order : LineSearch.ordered (history f);
  sy_wide : Forall (wide width) (history f);
  sy_table : PredictorTable.wf (predictorTable f);
  sy_patterns : forall h e, patterns f !! h = Some e -> pattern_ok width e;
  sy_rewards : LineSearch.rewards_ok (PredictorTable.entry_config (PredictorTable.cfg (predictorTable f)));
  sy_stride : AddrPredictor.ok (addrPredictor f);
  sy_seen : SimpleFixedSizeQueue.queue (AddrPredictor.addrDiff (addrPredictor f)) = [] ->
    patterns f = ∅ /\ parents f = ∅;
  sy_pend : pend_ok width (pendingTable f) (parents f) (nextParent f) (17 * nextParent f);
  sy_next : nextParent f <= n;
  sy_shared : Backend.shared_ok n (shared f);
  sy_balanced : Backend.balanced (backend f);
  sy_limits : limits f = lim
}.

Lemma sys_weaken th tl n th' tl' n' f :
  th <= th' -> tl <= tl' -> n <= n' -> sys_ok th tl n f -> sys_ok th' tl' n' f.
Proof.
  intros H1 H2 H3 []. split; try done; try lia.
  - intros a line Ha. specialize (sy_lines0 a line Ha). lia.
  - eapply Forall_impl; [exact sy_ticks0|]. cbn. intros. lia.
  - by eapply Backend.shared_ok_weaken.
Qed.

(** Updates of statistics and of members no table depends on. *)
Record quiet (f f' : t) : Prop := {
  qu_cfg : cfg f' = cfg f;
  qu_table : predictorTable f' = predictorTable f;
  qu_pending : pendingTable f' = pendingTable f;
  qu_parents : parents f' = parents f;
  qu_next : nextParent f' = nextParent f;
  qu_whb : writeHistoryBuffer f' = writeHistoryBuffer f;
  qu_acc : cacheLineAccumulator f' = cacheLineAccumulator f;
  qu_stride : addrPredictor f' = addrPredictor f;
  qu_shared : shared f' = shared f;
  qu_backend : backend f' = backend f;
  qu_known : forall a, is_Some (lastWriteTickToAddr f !! a) -> is_Some (lastWriteTickToAddr f' !! a)
}.

Lemma quiet_stats g f : quiet f (with_stats g f).
Proof. by split. Qed.

Lemma quiet_trans f1 f2 f3 : quiet f1 f2 -> quiet f2 f3 -> quiet f1 f3.
Proof. intros [] []. split; try congruence. auto. Qed.

Lemma sys_quiet th tl n f f' : quiet f f' -> sys_ok th tl n f -> sys_ok th tl n f'.
Proof.
  intros [Q1 Q2 Q3 Q4 Q5 Q6 Q7 Q8 Q9 Q10 Q11] [[A1 A2 A3 A4] S1 S2 S3 S4 S5 S6 S7 S8 S9 S10 S11 S12 S13 S14 S15 S16].
  split; unfold LineSearch.history, patterns in *; rewrite ?Q2, ?Q3, ?Q4, ?Q5, ?Q6, ?Q7, ?Q8, ?Q9, ?Q10; try done.
  - split; rewrite ?Q1, ?Q7, ?Q10; try done. intros a line Ha. destruct (A1 a line Ha). split; auto.
  - unfold limits in *. by rewrite Q1, Q10.
Qed.

Lemma sys_ready th tl n f :
  Backend.predictorEnabled (backend f) = true -> sys_ok th tl n f -> LineSearch.ready f.
Proof.
  intros He []. split; try done; [|apply sy_shared0].
  eapply Forall_impl; [exact sy_ticks0|]. cbn. intros. lia.
Qed.

(** ** Statistics and markers *)

Definition clwbb (pkt : Packet.t) (v : Z) : bool :=
  Packet.isToPOC pkt && negb (Packet.hasData pkt) && (Packet.size pkt =? 1) && is_vaddr_pm v.

Lemma clwb_flag pkt v : Packet.vaddr pkt = Some v -> is_vaddr_clwb pkt = Ok (clwbb pkt v).
Proof.
  intros Hv. unfold is_vaddr_clwb, clwbb, Packet.getVaddr. rewrite Hv.
  by destruct (Packet.isToPOC pkt && _ && _).
Qed.

Lemma clwb_no_data pkt v : Packet.hasData pkt = true -> clwbb pkt v = false.
Proof. intros H. unfold clwbb. rewrite H. by rewrite andb_false_r. Qed.

Lemma collect_ok now pkt v pc f :
  Packet.vaddr pkt = Some v -> Packet.pc pkt = Some pc ->
  exists f', collectPktStatistics now pkt f = Ok f' /\ quiet f f' /\
    (Packet.isWrite pkt = true -> Packet.hasData pkt = true -> is_vaddr_pm v = true ->
     is_Some (lastWriteTickToAddr f' !! cacheline_align v)).
Proof.
  intros Hv Hpc. unfold collectPktStatistics. rewrite (clwb_flag pkt v) by done.
  unfold Packet.getVaddr, Packet.getPC. rewrite Hv, Hpc. cbn [Packet.valid mbind res_bind].
  destruct ((Packet.isWrite pkt || clwbb pkt v) && is_vaddr_pm v) eqn:E.
  - destruct (clwbb pkt v) eqn:Eb.
    + destruct (lastWriteTickToAddr f !! v); (eexists; split; [done|]);
        (split; [by split|intros _ Hd; by rewrite clwb_no_data in Eb]).
    + assert (forall a, is_Some (lastWriteTickToAddr f !! a) ->
        is_Some (<[cacheline_align v := now]> (lastWriteTickToAddr f) !! a)) as Hk
        by (intros a; rewrite lookup_insert; case_decide; eauto).
      destruct (lastPMAddr _ =? _); (eexists; split; [done|]);
        (split; [by split|intros _ _ _; cbn; rewrite lookup_insert_eq; eauto]).
  - exists f. split; [done|]. split; [by split|]. intros Hw _ Hpm. by rewrite Hw, Hpm in E.
Qed.

Lemma track_quiet now addr isClwb f : quiet f (track_writeback now addr isClwb f).
Proof. unfold track_writeback. repeat case_match; by split. Qed.

(** ** The history *)

Lemma marked_forall (Q : WHB.t -> Prop) ws ws' :
  (forall w, Q w -> Q (WHB.use w)) -> LineSearch.marked ws ws' -> Forall Q ws -> Forall Q ws'.
Proof.
  intros HQ Hm Hall. rewrite Forall_forall in Hall |- *. intros w' Hw'.
  apply list_elem_of_lookup in Hw' as [i Hi].
  destruct (Forall2_lookup_r _ _ _ _ _ Hm Hi) as (w & Hw & Hor).
  assert (Q w) by (apply Hall; by eapply list_elem_of_lookup_2). destruct Hor as [->| ->]; auto.
Qed.

Lemma marked_ordered ws ws' : LineSearch.marked ws ws' -> LineSearch.ordered ws -> LineSearch.ordered ws'.
Proof.
  intros Hm Ho ws1' x' ws2' -> w' Hw'.
  apply Forall2_app_inv_r in Hm as (ws1 & r & Hm1 & Hm2 & ->).
  apply Forall2_cons_inv_r in Hm2 as (x & ws2 & Hx & Hm2 & ->).
  apply list_elem_of_lookup in Hw' as [i Hi].
  destruct (Forall2_lookup_r _ _ _ _ _ Hm1 Hi) as (w & Hw & Hor).
  assert (WHB.genTick w' = WHB.genTick w) as -> by (by destruct Hor as [->| ->]).
  assert (WHB.genTick x' = WHB.genTick x) as -> by (by destruct Hx as [->| ->]).
  eapply Ho; [done|]. by eapply list_elem_of_lookup_2.
Qed.

Lemma store_use w : LineSearch.store_ok w -> LineSearch.store_ok (WHB.use w).
Proof. intros [? ? ? ? (off & k & [])]. split; try done. exists off, k. by split. Qed.

(** A store enters the history. *)
Lemma sys_whb last n now pkt v pc data f :
  Backend.predictorEnabled (backend f) = true -> sys_ok last last n f -> last <= now -> 0 <= now ->
  LineSearch.history_store pkt v pc data (width pc) ->
  exists q, updateWriteHistoryBuffer now pkt f = Ok (with_whb q f) /\ sys_ok now last n (with_whb q f).
Proof.
  intros He Hf Hl Hnow Hst.
  destruct (LineSearch.update_whb_ok now pkt v pc data (width pc) f) as (q & e & E & R & Hsz & HQ & Hpc & Ht & Hs & _);
    [by eapply sys_ready|done|done| |].
  { intros w Hw. pose proof (sy_ticks _ _ _ _ Hf) as Hall. rewrite Forall_forall in Hall.
    specialize (Hall w Hw). lia. }
  exists q. split; [done|]. destruct R as [_ R2 R3 R4 R5 _ _ _ _].
  destruct Hf as [A S1 S2 S3 S4 S5 S6 S7 S8 S9 S10 S11 S12 S13 S14 S15 S16].
  split; try done.
  - by apply (acc_ok_frame f).
  - change (Forall (fun w => 0 <= WHB.genTick w <= now) (FixedSizeQueue.queue q)). rewrite HQ.
    apply LineSearch.lastn_Forall; [|lia]. eapply Forall_impl; [exact S4|]. cbn. intros. lia.
  - change (Forall (wide width) (FixedSizeQueue.queue q)). rewrite HQ.
    apply LineSearch.lastn_Forall; [done|]. unfold wide. by rewrite Hpc.
Qed.
End Invariant.

(** ** The machine around the predictor

    The page table, the metadata caches, the last-level cache and the memory a
    request finds; they change between requests.  [ub] is what the undefined reads
    of a write back do. *)
Record machine := mkMachine {
  pageTable : PageTable.t;
  counterHit : Z -> bool;
  verificationHit : Z -> bool;
  l2Block : Z -> option (list Z);
  blockObject : Z -> option (list Z);
  freshBlock : list Z;
  ub : LineSearch.undefined_reads
}.

(** Blocks and arrays hold the sixteen words of a line. *)
Record machine_ok (m : machine) : Prop := {
  mo_l2 : forall a d, l2Block m a = Some d -> length d = DATA_CHUNK_COUNT;
  mo_blk : forall a d, blockObject m a = Some d -> length d = DATA_CHUNK_COUNT;
  mo_fresh : length (freshBlock m) = DATA_CHUNK_COUNT
}.

Section Handlers.
Context `{O : IterOrder}.
Variable width : Z -> nat.
Variable lim : config * Backend.config.
Variable m : machine.
Hypothesis m_ok : machine_ok m.
Variable now : Z.
Hypothesis now_range : 0 < now < UINT64_MAX.
Notation sys_ok := (sys_ok width lim).

Definition on_store : Packet.t -> t -> res t :=
  accumulate (pageTable m) (counterHit m) (verificationHit m) (l2Block m) (blockObject m)
    (freshBlock m) now.
Definition persist : Packet.t -> bool -> t -> res t :=
  handleNonVolatileWrite (pageTable m) (counterHit m) (verificationHit m) (l2Block m)
    (blockObject m) (freshBlock m) (ub m) now.
Definition store : Packet.t -> t -> res t :=
  handleStore (pageTable m) (counterHit m) (verificationHit m) now.
Definition request : Packet.t -> t -> res t :=
  predictorHandleRequest (pageTable m) (counterHit m) (verificationHit m) (l2Block m)
    (blockObject m) (freshBlock m) (ub m) now.

Lemma sys_accumulate th last n pkt v pc data k f :
  sys_ok th last n f -> last < now -> Frontend.store_ok pkt v pc data k ->
  is_Some (lastWriteTickToAddr f !! cacheline_align v) ->
  exists f', on_store pkt f = Ok f' /\ sys_ok th now n f' /\ Frontend.same_rest f f'.
Proof using m_ok now_range.
  intros Hf Hl Hst Hk. pose proof Hf as [A S1 S2 S3 S4 S5 S6 S7 S8 S9 S10 S11 S12 S13 S14 S15 S16].
  destruct (accumulate_ok (pageTable m) (counterHit m) (verificationHit m) (l2Block m) (freshBlock m)
    now (mo_l2 m m_ok) (mo_fresh m m_ok) (blockObject m) (mo_blk m m_ok) pkt v pc data k f A Hst Hk)
    as (f' & E & A' & Hr & _ & Hc).
  { split; [lia|]. intros a line Ha. specialize (S1 a line Ha). lia. }
  exists f'. split; [exact E|]. split; [|done].
  destruct Hr as [R1 R2 R3 R4 R5 R6 R7 R8 R9 R10 R11 R12 R13].
  unfold LineSearch.history, patterns in *.
  split; unfold LineSearch.history, patterns; rewrite ?R2, ?R3, ?R4, ?R5, ?R6, ?R7, ?R8; try done.
  - unfold Backend.balanced in *. by rewrite R12.
  - unfold limits in *. by rewrite R1, R11.
Qed.

(** ** Write backs *)

Lemma add_patterns e p sh p' sh' :
  PredictorTable.wf p -> PredictorTable.elem_ok e -> SharedArea.conf_bounded sh ->
  (forall h x, PredictorTable.predictorTable p !! h = Some x -> pattern_ok width x) ->
  pattern_ok width e -> PredictorTable.add e p sh = Ok (p', sh') ->
  (forall h x, PredictorTable.predictorTable p' !! h = Some x -> pattern_ok width x) /\
  PredictorTable.cfg p' = PredictorTable.cfg p /\ PredictorTable.same_predictions sh sh'.
Proof.
  intros Hwf He Hb Hall Hpat E.
  destruct (PredictorTable.add_ok e p sh Hwf He Hb)
    as (p1 & sh1 & e1 & E1 & _ & _ & _ & Hs & Ht & _ & Hc & _ & Hsame).
  assert (p1 = p' /\ sh1 = sh') as [-> ->] by (rewrite E in E1; by injection E1).
  split; [|done].
  assert (forall h x, PredictorTable.ticked p sh !! h = Some x -> pattern_ok width x) as Htk.
  { intros h x. unfold PredictorTable.ticked, PredictorTable.live. case_match; [|apply Hall].
    intros [Hx _]%map_lookup_filter_Some. by eapply Hall. }
  intros h x. rewrite Ht, lookup_insert. case_decide as Hd; [|apply Htk]. intros [= <-].
  unfold PredictorTable.stored in Hs.
  destruct (PredictorTable.ticked p sh !! PTE.hash e) as [old|] eqn:Eo.
  - eapply same_sources_pattern; [by eapply PredictorTable.kept_sources|by eapply Htk].
  - injection Hs as <-. by destruct Hpat; split.
Qed.

Lemma words_some line :
  existsb validb (CacheLine.dataChunks line) = true ->
  exists i d, CacheLine.view (CacheLine.dataChunks line) i = Some d.
Proof.
  intros (c & Hc & Hv)%existsb_exists. apply list_elem_of_In, list_elem_of_lookup in Hc as [i Hi].
  exists i, (datum c). unfold CacheLine.view. by rewrite Hi, Hv.
Qed.

Definition clean_line (line : CacheLine.t) : bool := negb (existsb validb (CacheLine.dataChunks line)).

(** What the search for the written-back line leaves: the pattern it found. *)
Definition learned (a : Z) (line : CacheLine.t) (f f' : t) : Prop :=
  if LineSearch.found f a line then
    exists e, LineSearch.entry_for (LineSearch.el_of f) a line (history f) e /\ pattern_ok width e /\
      PredictorTable.add e (predictorTable f) (shared f) = Ok (predictorTable f', shared f')
  else predictorTable f' = predictorTable f /\ shared f' = shared f.

Lemma process_sys th tl n a line f :
  Backend.predictorEnabled (backend f) = true -> sys_ok th tl n f -> is_u64 a ->
  cacheLineAccumulator f !! a = Some line -> clean_line line = false ->
  match LineSearch.lost_read (ub m) a f with
  | Ok _ =>
      exists f', LineSearch.processLastAccLine (ub m) now a f = Ok f' /\ sys_ok th tl n f' /\
        LineSearch.same_rest f f' /\ learned a line f f' /\
        AddrPredictor.set_last_seen_addr a (addrPredictor f) = Ok (addrPredictor f')
  | Fail e => LineSearch.processLastAccLine (ub m) now a f = Fail e
  end.
Proof.
  intros He Hf Hu Ha Hc. pose proof Hf as [A S1 S2 S3 S4 S5 S6 S7 S8 S9 S10 S11 S12 S13 S14 S15 S16].
  pose proof (lo_wf _ _ _ (ao_lines f A _ _ Ha)) as Hl.
  assert (exists i d, CacheLine.view (CacheLine.dataChunks line) i = Some d) as Hs
    by (apply words_some; unfold clean_line in Hc; by destruct (existsb _ _)).
  pose proof (LineSearch.process_ok (ub m) now a f line (sys_ready _ _ _ _ _ _ He Hf) Ha Hl Hu Hs) as Hproc.
  destruct (LineSearch.lost_read (ub m) a f); [|done].
  destruct Hproc as (f' & E & [Hr Hm Hq Eap Hap Hout]).
  assert (SimpleFixedSizeQueue.queue (AddrPredictor.addrDiff (addrPredictor f')) <> []) as Hne.
  { destruct (AddrPredictor.set_last_seen_addr_ok a _ S10) as (ap & E1 & _ & _ & Hap1).
    assert (ap = addrPredictor f') as -> by congruence. rewrite Hap1. intros H0.
    apply (f_equal length) in H0. revert H0. rewrite length_lastn, length_app. cbn [length].
    unfold AddrPredictor.TRACKING_SIZE. lia. }
  assert (learned a line f f' /\ PredictorTable.wf (predictorTable f') /\
    (forall h e, patterns f' !! h = Some e -> pattern_ok width e) /\
    PredictorTable.cfg (predictorTable f') = PredictorTable.cfg (predictorTable f) /\
    Backend.shared_ok n (shared f')) as (Hle & Hwf' & Hpat' & Hcfg & Hsh).
  { unfold learned, patterns. destruct (LineSearch.found f a line).
    - destruct Hout as (e & Hef & Hel & Hadd & Hwf' & Hcb).
      assert (pattern_ok width e) as Hpe.
      { eapply entry_for_pattern; [exact Hef|done|done|done|done|apply Hel]. }
      destruct (add_patterns e _ _ _ _ S7 Hel (Backend.so_conf _ _ S14) S8 Hpe Hadd)
        as (Hp' & Hc' & P1 & P2 & P3).
      split; [by exists e|]. do 3 (split; [done|]). destruct S14 as [_ B2 B3 B4].
      split; [done| |by rewrite P3|by rewrite P1]. unfold SharedArea.gen_pc_wf. by rewrite P2.
    - destruct Hout as [-> ->]. done. }
  exists f'. split; [done|]. split; [|done]. destruct Hr as [R1 R2 R3 R4 R5 R6 R7].
  split; rewrite ?Hcfg, ?R2, ?R3, ?R4, ?R5, ?R7; try done.
  - by apply (acc_ok_frame f).
  - eapply marked_forall; [apply store_use|done|done].
  - eapply marked_forall; [|exact Hm|exact S4]. done.
  - by eapply marked_ordered.
  - eapply marked_forall; [|exact Hm|exact S6]. done.
  - unfold limits in *. by rewrite R1, R7.
Qed.

(** Removing a line from the accumulator. *)
Lemma sys_delete th tl n a f :
  sys_ok th tl n f -> sys_ok th tl n (with_acc (delete a (cacheLineAccumulator f)) f).
Proof.
  intros [[A1 A2 A3 A4] S1 S2 S3 S4 S5 S6 S7 S8 S9 S10 S11 S12 S13 S14 S15 S16].
  assert (forall b line, delete a (cacheLineAccumulator f) !! b = Some line ->
    cacheLineAccumulator f !! b = Some line) as Hd
    by (intros b line; rewrite lookup_delete_Some; by intros [_ ?]).
  split; try done; [|intros b line Hb; eapply S1; by apply Hd].
  split; try done.
  - intros b line Hb. destruct (A1 b line (Hd _ _ Hb)). by split.
  - etrans; [|exact A2]. apply inj_le, map_subseteq_size, delete_subseteq.
Qed.

(** What a write back does: nothing for a line that is not accumulated or has no
    word; otherwise the pattern of the line is learned and the line leaves. *)
Definition written_back (a : Z) (f f' : t) : Prop :=
  match cacheLineAccumulator f !! a with
  | Some line =>
      if clean_line line then quiet f f'
      else
        cacheLineAccumulator f' = delete a (cacheLineAccumulator f) /\ learned a line f f' /\
        AddrPredictor.set_last_seen_addr a (addrPredictor f) = Ok (addrPredictor f') /\
        pendingTable f' = pendingTable f /\ parents f' = parents f /\ backend f' = backend f
  | None => quiet f f'
  end.

(** The undefined reads of a write back, which only a line with words reaches. *)
Definition lost_write_back (a : Z) (f : t) : res unit :=
  match cacheLineAccumulator f !! a with
  | Some line => if clean_line line then Ok tt else LineSearch.lost_read (ub m) a f
  | None => Ok tt
  end.

Lemma lost_quiet a f f' : quiet f f' -> lost_write_back a f' = lost_write_back a f.
Proof.
  intros [Q1 _ _ _ _ Q6 Q7 _ Q9 _ _]. unfold lost_write_back. rewrite Q7.
  destruct (cacheLineAccumulator f !! a) as [line|]; [|done]. destruct (clean_line line); [done|].
  unfold LineSearch.lost_read, LineSearch.el_of, LineSearch.history. by rewrite Q1, Q6, Q9.
Qed.

Lemma clwb_ok th tl n pkt v f :
  Packet.vaddr pkt = Some v -> is_u64 v ->
  Backend.predictorEnabled (backend f) = true -> sys_ok th tl n f ->
  match lost_write_back (cacheline_align v) f with
  | Ok _ => exists f', persist pkt true f = Ok f' /\ sys_ok th tl n f' /\
      written_back (cacheline_align v) f f'
  | Fail e => persist pkt true f = Fail e
  end.
Proof.
  intros Hv Hu He Hf. unfold persist, handleNonVolatileWrite, Packet.getVaddr. rewrite Hv.
  cbn [Packet.valid mbind res_bind]. set (a := cacheline_align v).
  set (f1 := with_addrChanges 0 _ _).
  assert (quiet f f1) as Hq by (by split).
  assert (sys_ok th tl n f1) as Hf1 by (by eapply sys_quiet).
  change (cacheLineAccumulator f1) with (cacheLineAccumulator f). unfold written_back, lost_write_back.
  destruct (cacheLineAccumulator f !! a) as [line|] eqn:Ea; [|by exists f1].
  pose proof (lo_wf _ _ _ (ao_lines f (sy_acc _ _ _ _ _ _ Hf) _ _ Ea)) as Hl.
  rewrite CacheLine.all_invalid_legal by (by apply CacheLine.wf_legal). fold (clean_line line).
  cbn [mbind res_bind]. destruct (clean_line line) eqn:Ec; [by exists f1|].
  set (f2 := with_stats _ f1).
  pose proof (process_sys th tl n a line f2) as Hproc.
  change (LineSearch.lost_read (ub m) a f2) with (LineSearch.lost_read (ub m) a f) in Hproc.
  specialize (Hproc He). destruct (LineSearch.lost_read (ub m) a f) as [u|e].
  2:{ rewrite Hproc; try done; [by eapply sys_quiet; [apply quiet_stats|]|by apply cacheline_align_u64]. }
  destruct Hproc as (f3 & E & Hf3 & [R1 R2 R3 R4 R5 R6 R7] & Hle & Hap);
    [by eapply sys_quiet; [apply quiet_stats|]|by apply cacheline_align_u64|done|done|].
  rewrite E. cbn [mbind res_bind]. assert (cacheLineAccumulator f3 !! a = Some line) as -> by (by rewrite R5).
  cbn [at_ mbind res_bind]. unfold CacheLine.invalid_chunk_count.
  rewrite CacheLine.invalid_chunk_count_legal by (by apply CacheLine.wf_legal).
  cbn [mbind res_bind]. set (f4 := with_stats _ f3).
  eexists. split; [done|]. split.
  - apply sys_delete. by eapply sys_quiet; [apply quiet_stats|].
  - split; [exact (f_equal (delete a) R5)|]. do 2 (split; [done|]). auto.
Qed.

(** ** Stores *)

Notation delivery := (delivery width (pageTable m) (counterHit m) (verificationHit m) now).

(** Nothing is waiting when there is no parent. *)
Lemma no_parents_no_queue f pc :
  pend_ok width (pendingTable f) (parents f) (nextParent f) (17 * nextParent f) ->
  parents f = ∅ -> PT.queue (pendingTable f) pc = [].
Proof.
  intros Hp H0. destruct (PT.queue (pendingTable f) pc) as [|e q] eqn:E; [done|].
  destruct (pe_waits _ _ _ _ _ Hp pc e) as (id & o & _ & Ho & _); [rewrite E; by left|].
  by rewrite H0, lookup_empty in Ho.
Qed.

Lemma sys_deliverable th tl n f : sys_ok th tl n f -> deliverable width f.
Proof.
  intros [A S1 S2 S3 S4 S5 S6 S7 S8 S9 S10 S11 S12 S13 S14 S15 S16].
  split; [done|done|intros H; by apply S11|apply A|apply S14].
Qed.

Lemma sys_delivery th tl n pc data entries f f' :
  sys_ok th tl n f -> delivery pc data entries f f' -> sys_ok th tl n f'.
Proof.
  intros [A S1 S2 S3 S4 S5 S6 S7 S8 S9 S10 S11 S12 S13 S14 S15 S16]
    [(p & b & g & E) Hh Hp _ _ _ [_ B2 _ _ B5 B6]].
  rewrite E in Hp, Hh, B2, B5, B6 |- *.
  cbn [parents pendingTable with_pending with_backend with_stats backend] in *.
  split; try done.
  - destruct A as [A1 A2 A3 A4]. split; try done. intros a line Ha. by destruct (A1 a line Ha); split.
  - intros Hs. destruct (S11 Hs) as [H1 H2]. split; [done|]. change (parents f' = ∅). rewrite Hh.
    unfold completes, completed_by, served_by, served_heap.
    rewrite (no_parents_no_queue f pc S12 H2). by rewrite aim_all_nil.
  - unfold Backend.balanced in *. cbn [backend with_backend]. by rewrite B6.
  - unfold limits in *. cbn [cfg backend with_backend with_stats with_pending]. by rewrite B5.
Qed.

(** The paths a store extends: the hash of the last PCs, its own included. *)
Definition path_after (pc : Z) (f : t) : list Z :=
  let q := PredictorTable.pathHistory (predictorTable f) in
  lastn (SimpleFixedSizeQueue.sz q) (SimpleFixedSizeQueue.queue q ++ [pc]).

(** The predictor table once a store was observed and the feedback of the
    backend consumed: same patterns, longer path. *)
Record observed (pc : Z) (f f1 : t) : Prop := {
  ob_frame : exists p, f1 = with_predictor p (SharedArea.with_correctPredictions ∅ (shared f)) f;
  ob_path : SimpleFixedSizeQueue.queue (PredictorTable.pathHistory (predictorTable f1)) = path_after pc f;
  ob_same : forall h e', patterns f1 !! h = Some e' ->
    exists e, patterns f !! h = Some e /\ PredictorTable.same_pattern e e';
  ob_keys : forall h, is_Some (patterns f1 !! h) <-> is_Some (patterns f !! h)
}.

Lemma sys_observed th tl n pc p f :
  sys_ok th tl n f -> observed pc f (with_predictor p (SharedArea.with_correctPredictions ∅ (shared f)) f) ->
  PredictorTable.wf p -> PredictorTable.cfg p = PredictorTable.cfg (predictorTable f) ->
  sys_ok th tl n (with_predictor p (SharedArea.with_correctPredictions ∅ (shared f)) f).
Proof.
  intros [A S1 S2 S3 S4 S5 S6 S7 S8 S9 S10 S11 S12 S13 S14 S15 S16] [_ _ Hs Hk] Hwf Hc.
  split; try done.
  - by apply (acc_ok_frame f).
  - intros h e' He'. destruct (Hs h e' He') as (e & He & Hsame).
    eapply same_sources_pattern; [by apply PredictorTable.same_pattern_sources|by eapply S8].
  - cbn [predictorTable with_predictor]. by rewrite Hc.
  - intros Hq. destruct (S11 Hq) as [H1 H2]. split; [|done]. apply map_empty. intros h.
    destruct (patterns _ !! h) as [e|] eqn:E; [|done].
    assert (is_Some (patterns f !! h)) as [x Hx] by (apply Hk; eauto). by rewrite H1, lookup_empty in Hx.
  - destruct S14 as [B1 B2 B3 B4]. by split.
Qed.

Lemma sys_promoting th tl n e h f f' :
  sys_ok th tl n f -> patterns f !! h = Some e -> promoting width now e DATA_CHUNK_COUNT f f' ->
  sys_ok th tl (n + 1) f'.
Proof.
  intros [A S1 S2 S3 S4 S5 S6 S7 S8 S9 S10 S11 S12 S13 S14 S15 S16] Hpat [_ (g & p & h' & E) Hp _ _ _ _ _].
  rewrite E in Hp |- *. cbn [parents pendingTable with_pending with_nextParent with_stats] in Hp.
  split; try done.
  - destruct A as [A1 A2 A3 A4]. split; try done. intros a line Ha. by destruct (A1 a line Ha); split.
  - intros Hs. destruct (S11 Hs) as [H1 _]. by rewrite H1, lookup_empty in Hpat.
  - cbn [nextParent with_stats with_nextParent].
    eapply pend_ok_len; [|exact Hp]. change DATA_CHUNK_COUNT with 16%nat. lia.
  - cbn [nextParent with_stats with_nextParent]. lia.
  - by apply (Backend.shared_ok_weaken n); [lia|].
Qed.

(** What becomes of the pattern of the path: it is promoted. *)
Definition promoted (pc : Z) (f f1 f2 : t) : Prop :=
  match patterns f1 !! PredictorTable.path_hash (path_after pc f) with
  | Some e => promoting width now e DATA_CHUNK_COUNT
                (with_stats (Stats.incr "predictorTablePromotions") f1) f2
  | None => f2 = f1
  end.

Lemma completed_parent_ok pc p h :
  PT.queue p pc = [] -> PT.get_completed_parent pc p h = Ok None.
Proof.
  unfold PT.get_completed_parent, PT.queue. destruct (PT.pendingTable p !! pc) as [q|]; [|done].
  cbn. by intros ->.
Qed.

(** A store is observed, may promote the pattern of its path, and is delivered. *)
Definition store_handled (pc : Z) (data : list Z) (entries : list CWE.t) (f f' : t) : Prop :=
  exists f1 f2, observed pc f f1 /\ promoted pc f f1 f2 /\ delivery pc data entries f2 f'.

Lemma observed_ok th tl n pkt v pc data f :
  sys_ok th tl n f -> n < 2147483647 -> LineSearch.history_store pkt v pc data (width pc) ->
  exists p, let f1 := with_predictor p (SharedArea.with_correctPredictions ∅ (shared f)) f in
    let h := PredictorTable.path_hash (path_after pc f) in
    PredictorTable.update_ihb pkt (predictorTable f) (shared f) =
      Ok (bool_decide (is_Some (patterns f1 !! h)), p, SharedArea.with_correctPredictions ∅ (shared f)) /\
    PredictorTable.lastFoundHashes p = (if bool_decide (is_Some (patterns f1 !! h)) then [h] else []) /\
    observed pc f f1 /\ sys_ok th tl n f1.
Proof.
  intros Hf Hn [[Hv Hpc Hhd Hd _ _ _] Hw _ _]. pose proof (sy_shared _ _ _ _ _ _ Hf) as [_ _ _ Hcnt].
  destruct (PredictorTable.update_ihb_ok pkt pc (predictorTable f) (shared f))
    as (p & sh & path & E & Hp & Hq & Hwf & Hl & -> & Hc & Hk & Hs).
  - apply (sy_table _ _ _ _ _ _ Hf).
  - intros h a d Hh. destruct (Hcnt h a d Hh). lia.
  - split; [done|]. split; [done|]. by eexists.
  - exists p. cbn zeta. subst path. fold (path_after pc f) in E, Hl, Hq.
    split; [exact E|]. split; [exact Hl|].
    assert (observed pc f (with_predictor p (SharedArea.with_correctPredictions ∅ (shared f)) f)) as Ho.
    { split; [by exists p|done|exact Hs|]. intros h. specialize (Hk h).
      etrans; [symmetry; apply bool_decide_eq_true|]. etrans; [|apply bool_decide_eq_true].
      unfold PredictorTable.contains in Hk. unfold patterns. by rewrite <- Hk. }
    split; [done|]. by eapply sys_observed.
Qed.

Lemma store_sys th tl n pkt v pc data f :
  sys_ok th tl n f -> n < 2147483647 -> LineSearch.history_store pkt v pc data (width pc) ->
  exists f' entries, store pkt f = Ok f' /\ sys_ok th tl (n + 1) f' /\ store_handled pc data entries f f'.
Proof using now_range.
  intros Hf Hn Hst. destruct (observed_ok th tl n pkt v pc data f Hf Hn Hst) as (p & E & El & Ho & H1).
  set (f1 := with_predictor p _ f) in *. pose proof Hst as [[Hv Hpc Hhd Hd _ Hfit Hlen] Hw Hreq _].
  unfold store, handleStore, Packet.getPC, Packet.getPtr. rewrite Hpc, Hd. cbn [Packet.valid mbind res_bind].
  rewrite E. cbn [mbind res_bind]. fold f1. rewrite El. clear E El.
  assert (exists f2, (if bool_decide (is_Some (patterns f1 !! PredictorTable.path_hash (path_after pc f)))
      then for_each (if bool_decide (is_Some (patterns f1 !! PredictorTable.path_hash (path_after pc f)))
             then [PredictorTable.path_hash (path_after pc f)] else []) (promote now)
             (with_stats (Stats.incr "predictorTablePromotions") f1) else Ok f1) = Ok f2 /\
    promoted pc f f1 f2 /\ sys_ok th tl (n + 1) f2) as (f2 & -> & Hpr & H2).
  { unfold promoted. destruct (patterns f1 !! _) as [e|] eqn:He.
    - rewrite bool_decide_true by eauto. set (f1' := with_stats _ f1).
      assert (sys_ok th tl n f1') as H1' by (by eapply sys_quiet; [apply quiet_stats|]).
      destruct (promote_ok width now _ e f1' (sy_table _ _ _ _ _ _ H1') He
        (sy_patterns _ _ _ _ _ _ H1' _ _ He) (sy_pend _ _ _ _ _ _ H1')) as (f2 & E2 & Hp2).
      { pose proof (sy_next _ _ _ _ _ _ H1'). pose proof (pe_next _ _ _ _ _ (sy_pend _ _ _ _ _ _ H1')).
        unfold countable, is_u64. lia. }
      exists f2. cbn [for_each]. rewrite E2. cbn [mbind res_bind]. split; [done|]. split; [done|].
      by eapply sys_promoting.
    - rewrite bool_decide_false by (by intros []). exists f1. split; [done|]. split; [done|].
      by eapply sys_weaken; [..|exact H1]; lia. }
  cbn [mbind res_bind].
  destruct (pending_delivered width (pageTable m) (counterHit m) (verificationHit m) now (proj1 now_range)
    pkt v pc data f2) as (f' & entries & -> & Hdel); [by split|by eapply sys_deliverable|].
  cbn [mbind res_bind]. rewrite completed_parent_ok.
  - exists f', entries. split; [done|]. split; [by eapply sys_delivery|]. by exists f1, f2.
  - rewrite (de_queues _ _ _ _ _ _ _ _ _ _ Hdel). by rewrite decide_True.
Qed.

(** ** Requests *)

(** Requests carry an address and a PC; a write carries the words of its PC's
    width, inside a line. *)
Inductive valid_request (pkt : Packet.t) : Prop :=
| valid_store v pc data : LineSearch.history_store pkt v pc data (width pc) -> valid_request pkt
| valid_other v pc : Packet.vaddr pkt = Some v -> Packet.pc pkt = Some pc -> is_u64 v ->
    Packet.isWrite pkt = false -> valid_request pkt.

Notation handle_write := (handleWrite (pageTable m) (counterHit m) (verificationHit m) (l2Block m)
    (blockObject m) (freshBlock m) (ub m) now).

Lemma write_sys last n pkt v pc data f :
  sys_ok now last n f -> last < now -> n < 2147483647 ->
  LineSearch.history_store pkt v pc data (width pc) ->
  (is_vaddr_pm v = true -> is_Some (lastWriteTickToAddr f !! cacheline_align v)) ->
  exists f', handle_write pkt f = Ok f' /\ sys_ok now now (n + 1) f'.
Proof using m_ok now_range.
  intros Hf Hl Hn Hst Hk. pose proof Hst as [Hs Hw _ _]. pose proof Hs as [Hv _ Hhd _ _ _ _].
  unfold handleWrite, Packet.getVaddr. rewrite (clwb_flag pkt v), Hv, clwb_no_data by done.
  cbn [Packet.valid mbind res_bind]. rewrite Hhd, Hw. cbn [orb andb negb].
  pose proof (track_quiet now v false f) as Hq. set (f1 := track_writeback now v false f) in *.
  assert (exists f2, (if is_vaddr_pm v && true then persist pkt false f1 else Ok f1) = Ok f2 /\
    sys_ok now now n f2) as (f2 & E2 & H2).
  { assert (sys_ok now last n f1) as H1 by (by eapply sys_quiet). destruct (is_vaddr_pm v).
    - unfold persist, handleNonVolatileWrite, Packet.getVaddr. rewrite Hv.
      cbn [andb Packet.valid mbind res_bind].
      destruct (sys_accumulate now last n pkt v pc data (width pc) f1) as (f2 & E & H2 & _);
        [done|done|done|by apply (qu_known _ _ Hq), Hk|]. by exists f2.
    - exists f1. split; [done|]. eapply sys_weaken; [..|exact H1]; lia. }
  unfold persist in E2. rewrite E2. cbn [mbind res_bind].
  destruct (store_sys now now n pkt v pc data f2 H2 Hn Hst) as (f' & entries & E & H' & _).
  unfold store in E. unfold is_vaddr_volatile.
  assert (((negb (is_vaddr_pm v) || is_vaddr_pm v) && true) = true) as -> by (by destruct (is_vaddr_pm v)).
  rewrite E. cbn [mbind res_bind].
  assert ((negb (is_vaddr_pm v) && negb (negb (is_vaddr_pm v))) = false) as -> by (by destruct (is_vaddr_pm v)).
  by exists f'.
Qed.

Lemma clwb_sys last n pkt v f :
  Backend.predictorEnabled (backend f) = true ->
  sys_ok last last n f -> Packet.vaddr pkt = Some v -> is_u64 v -> clwbb pkt v = true ->
  match lost_write_back (cacheline_align v) f with
  | Ok _ => exists f', handle_write pkt f = Ok f' /\ sys_ok last last n f'
  | Fail e => handle_write pkt f = Fail e
  end.
Proof.
  intros He Hf Hv Hu Hc. unfold handleWrite, Packet.getVaddr. rewrite (clwb_flag pkt v), Hv, Hc by done.
  assert (is_vaddr_pm v = true) as Hpm by (unfold clwbb in Hc; by apply andb_true_iff in Hc as [_ ?]).
  cbn [Packet.valid mbind res_bind]. rewrite Hpm. cbn [orb andb negb].
  pose proof (track_quiet now v true f) as Hq. set (f1 := track_writeback now v true f) in *.
  pose proof (clwb_ok last last n pkt v f1 Hv Hu) as Hcl. rewrite (lost_quiet _ _ _ Hq) in Hcl.
  rewrite (qu_backend _ _ Hq) in Hcl. specialize (Hcl He (sys_quiet _ _ _ _ _ _ _ Hq Hf)).
  unfold persist in Hcl. destruct (lost_write_back (cacheline_align v) f); [|by rewrite Hcl].
  destruct Hcl as (f' & -> & H' & _). cbn [mbind res_bind]. rewrite andb_false_r. by exists f'.
Qed.

(** The undefined reads that a request reaches: those of a write back, with the
    predictor in use. *)
Definition request_reads (pkt : Packet.t) (f : t) : res unit :=
  if negb (Backend.predictorEnabled (backend f)) || negb (Backend.usePredictor (backend f)) then Ok tt
  else
    match Packet.vaddr pkt with
    | Some v => if clwbb pkt v then lost_write_back (cacheline_align v) f else Ok tt
    | None => Ok tt
    end.

Lemma request_sys last n pkt f :
  sys_ok last last n f -> last < now -> n < 2147483647 -> valid_request pkt ->
  match request_reads pkt f with
  | Ok _ => exists f', request pkt f = Ok f' /\ sys_ok now now (n + 1) f'
  | Fail e => request pkt f = Fail e
  end.
Proof using m_ok now_range.
  intros Hf Hl Hn Hpkt. unfold request, predictorHandleRequest, request_reads.
  destruct (negb _ || negb _) eqn:Een; [exists f; split; [done|]; eapply sys_weaken; [..|exact Hf]; lia|].
  apply orb_false_iff in Een as [Een%negb_false_iff _].
  assert (exists v pc, Packet.vaddr pkt = Some v /\ Packet.pc pkt = Some pc) as (v & pc & Hv & Hpc)
    by (destruct Hpkt as [v pc data [[] _ _ _]|v pc]; by exists v, pc).
  destruct (collect_ok now pkt v pc f Hv Hpc) as (f1 & -> & Hq & Hk). cbn [mbind res_bind].
  assert (sys_ok last last n f1) as H1 by (by eapply sys_quiet).
  assert (Backend.predictorEnabled (backend f1) = true) as He1 by (by rewrite (qu_backend _ _ Hq)).
  cbv zeta. unfold Packet.getPC. rewrite Hpc, (clwb_flag pkt v), Hv by done. cbn [Packet.valid mbind res_bind].
  rewrite <- (lost_quiet _ _ _ Hq). set (lost := if clwbb pkt v then _ else _).
  assert (exists f2, (if canAddToWhb pkt then updateWriteHistoryBuffer now pkt f1 else Ok f1) = Ok f2 /\
    let written := if Packet.isWrite pkt && ((Packet.size pkt =? 8) || (Packet.size pkt =? 4)) || clwbb pkt v
      then handle_write pkt f2 else Ok f2 in
    match lost with
    | Ok _ => exists f3, written = Ok f3 /\ sys_ok now now (n + 1) f3
    | Fail e => written = Fail e
    end) as (f2 & -> & Hw).
  2:{ cbn [mbind res_bind]. cbn zeta in Hw. destruct lost; [|by rewrite Hw].
      destruct Hw as (f3 & -> & H3). cbn [mbind res_bind]. eexists. split; [done|].
      eapply sys_quiet; [|exact H3]. eapply quiet_trans; apply quiet_stats. }
  unfold canAddToWhb, lost. destruct Hpkt as [v' pc' data Hst|v' pc' Hv' _ Hu Hw].
  - pose proof Hst as [[Hv' Hpc' Hhd _ _ _ _] Hw _ _].
    assert (v' = v) as -> by congruence. assert (pc' = pc) as -> by congruence.
    rewrite Hw, clwb_no_data, orb_false_r by done. cbn [andb].
    destruct (sys_whb width lim last n now pkt v pc data f1 He1 H1) as (q & -> & H2); [lia|lia|done|].
    exists (with_whb q f1). split; [done|]. cbn zeta. destruct ((_ =? 8) || _).
    + apply (write_sys last n pkt v pc data); try done. intros Hpm. by apply Hk.
    + eexists. split; [done|]. eapply sys_weaken; [..|exact H2]; lia.
  - rewrite Hw. cbn [andb orb]. exists f1. split; [done|]. cbn zeta. destruct (clwbb pkt v) eqn:Ec.
    + assert (v' = v) as -> by congruence.
      pose proof (clwb_sys last n pkt v f1 He1 H1 Hv Hu Ec) as Hcl.
      destruct (lost_write_back (cacheline_align v) f1); [|done]. destruct Hcl as (f3 & -> & H3).
      exists f3. split; [done|]. eapply sys_weaken; [..|exact H3]; lia.
    + exists f1. split; [done|]. eapply sys_weaken; [..|exact H1]; lia.
Qed.

(** On a machine where the words are still in place all reads succeed. *)
Lemma intact_request th tl n pkt f :
  ub m = LineSearch.intact -> sys_ok th tl n f -> request_reads pkt f = Ok tt.
Proof.
  intros Hub Hf. unfold request_reads, lost_write_back. rewrite Hub.
  repeat (case_match; try done). apply LineSearch.intact_reads, (sy_stores _ _ _ _ _ _ Hf).
Qed.
End Handlers.

(** ** Runs

    Requests of the frontend at increasing ticks, requests of the backend
    and switches of the predictor, in any order. *)
Inductive event :=
| Front (m : machine) (now : Z) (pkt : Packet.t)
| Back (now hash0 : Z) (pkt : Packet.t)
| Enable (use enabled : bool).

Definition with_back (b : Backend.t) (sh : SharedArea.t) (f : t) : t :=
  with_predictor (predictorTable f) sh (with_backend b f).

Definition handle `{O : IterOrder} (ev : event) (f : t) : res t :=
  match ev with
  | Front m now pkt => request m now pkt f
  | Back now hash0 pkt =>
      '(b, sh) ← Backend.predictorHandleRequest now hash0 pkt (backend f) (shared f);
      Ok (with_back b sh f)
  | Enable u e => Ok (with_backend (Backend.with_enabled u e (backend f)) f)
  end.

Definition run `{O : IterOrder} (evs : list event) (f : t) : res t := for_each evs handle f.

Section Runs.
Context `{O : IterOrder}.
Variable width : Z -> nat.
Variable lim : config * Backend.config.

Fixpoint valid_from (last : Z) (evs : list event) : Prop :=
  match evs with
  | [] => True
  | Front m now pkt :: evs =>
      machine_ok m /\ last < now < UINT64_MAX /\ valid_request width pkt /\ valid_from now evs
  | Back now hash0 pkt :: evs =>
      Backend.valid_event (Backend.EvRequest now hash0 pkt) /\ valid_from last evs
  | Enable _ _ :: evs => valid_from last evs
  end.

Lemma valid_from_take k last evs : valid_from last evs -> valid_from last (take k evs).
Proof.
  revert last evs. induction k as [|k IH]; intros last [|[m now pkt|now hash0 pkt|u e] evs]; try done; cbn.
  - intros (H1 & H2 & H3 & H4). auto.
  - intros (H1 & H2). auto.
  - apply IH.
Qed.

Lemma sys_back th tl n n' b sh f :
  sys_ok width lim th tl n f -> n <= n' -> Backend.wf b -> Backend.shared_ok n' sh -> Backend.balanced b ->
  Backend.cfg b = Backend.cfg (backend f) ->
  sys_ok width lim th tl n' (with_back b sh f).
Proof.
  intros [[A1 A2 A3 A4] S1 S2 S3 S4 S5 S6 S7 S8 S9 S10 S11 S12 S13 S14 S15 S16] Hn Hb Hs Hbal Hc.
  split; try done; [|cbn; lia|unfold limits in *; cbn; by rewrite Hc]. split; try done. intros a line Ha. by destruct (A1 a line Ha); split.
Qed.

Lemma back_sys last n now hash0 pkt f :
  0 <= n -> Backend.valid_event (Backend.EvRequest now hash0 pkt) -> sys_ok width lim last last n f ->
  exists f', handle (Back now hash0 pkt) f = Ok f' /\ sys_ok width lim last last (n + 1) f'.
Proof.
  intros Hn He Hf. cbn [handle].
  destruct (Backend.request_event_ok n now hash0 pkt (backend f) (shared f) He)
    as (b & sh & -> & Hb & Hs & Hbal & Hc); try apply Hf; [done|].
  eexists. split; [done|]. by eapply sys_back; [exact Hf|lia|..].
Qed.

Lemma enable_sys last n u e f :
  sys_ok width lim last last n f ->
  sys_ok width lim last last n (with_backend (Backend.with_enabled u e (backend f)) f).
Proof.
  intros [[A1 A2 A3 A4] ? ? ? ? ? ? ? ? ? ? ? ? ? ? ? ?].
  split; try done. split; try done; [intros a line Ha; by destruct (A1 a line Ha); split|].
  by destruct A4; split.
Qed.

(** The bound of an invariant, from what it bounds. *)
Lemma sys_tighten th tl n n' f :
  sys_ok width lim th tl n f -> nextParent f <= n' -> Backend.shared_ok n' (shared f) ->
  sys_ok width lim th tl n' f.
Proof. by intros []; split. Qed.

(** The event [ev] reaches an undefined read, which fails with [e]. *)
Definition loses (ev : event) (f : t) (e : fault) : Prop :=
  match ev with
  | Front m _ pkt => request_reads m pkt f = Fail e
  | _ => False
  end.

(** One event: it is handled, or it reaches such a read. *)
Lemma handle_sys ev evs last n f :
  0 <= last -> 0 <= n -> n < 2147483647 -> valid_from last (ev :: evs) -> sys_ok width lim last last n f ->
  match handle ev f with
  | Ok f' => exists last', last <= last' /\ valid_from last' evs /\ sys_ok width lim last' last' (n + 1) f'
  | Fail e => loses ev f e
  end.
Proof.
  intros Hl Hn Hlen Hv Hf. destruct ev as [m now pkt|now hash0 pkt|u e]; cbn [valid_from handle loses] in *.
  - destruct Hv as (Hm & Ht & Hr & Hv).
    pose proof (request_sys width lim m Hm now ltac:(lia) last n pkt f Hf ltac:(lia) Hlen Hr) as H.
    destruct (request_reads m pkt f) as [u|e]; [|by rewrite H].
    destruct H as (f' & -> & Hf'). exists now. split; [lia|done].
  - destruct Hv as [He Hv]. destruct (back_sys last n now hash0 pkt f Hn He Hf) as (f' & E & Hf').
    cbn [handle] in E. rewrite E. exists last. split; [lia|done].
  - exists last. split; [lia|]. split; [done|]. apply enable_sys. eapply sys_weaken; [..|exact Hf]; lia.
Qed.

Lemma run_sys evs last n f :
  0 <= last -> 0 <= n -> n + Z.of_nat (length evs) < 2147483648 ->
  valid_from last evs -> sys_ok width lim last last n f ->
  match run evs f with
  | Ok f' => exists last', sys_ok width lim last' last' (n + Z.of_nat (length evs)) f'
  | Fail e => exists done ev rest f1 last1 n1, evs = done ++ ev :: rest /\ run done f = Ok f1 /\
      sys_ok width lim last1 last1 n1 f1 /\ loses ev f1 e
  end.
Proof.
  revert last n f. induction evs as [|ev evs IH]; intros last n f Hl Hn Hlen Hv Hf.
  { exists last. cbn. by rewrite Z.add_0_r. }
  cbn [length] in *. pose proof (handle_sys ev evs last n f Hl Hn ltac:(lia) Hv Hf) as Hh.
  unfold run in *. cbn [for_each]. destruct (handle ev f) as [f'|e] eqn:E; cbn [mbind res_bind].
  2:{ by exists [], ev, evs, f, last, n. }
  destruct Hh as (last' & Hl' & Hv' & Hf'). specialize (IH last' (n + 1) f' ltac:(lia) ltac:(lia) ltac:(lia) Hv' Hf').
  destruct (for_each evs handle f') as [f''|e].
  - destruct IH as (last'' & H). exists last''. eapply sys_weaken; [..|exact H]; lia.
  - destruct IH as (evs1 & ev1 & evs2 & f1 & last1 & n1 & -> & Er & Hs & Hlo).
    exists (ev :: evs1), ev1, evs2, f1, last1, n1. split; [done|]. cbn [for_each]. by rewrite E.
Qed.

(** The machines on which the words of a destroyed temporary are still in place. *)
Definition all_intact (evs : list event) : Prop :=
  forall m now pkt, Front m now pkt ∈ evs -> ub m = LineSearch.intact.

Lemma intact_not_lost last n ev evs f e :
  all_intact evs -> ev ∈ evs -> sys_ok width lim last last n f -> ~ loses ev f e.
Proof.
  intros Hall Hin Hf. destruct ev as [m now pkt| |]; cbn; [|tauto..].
  by rewrite (intact_request width lim m last last n pkt f (Hall _ _ _ Hin) Hf).
Qed.

(** The limits a configuration needs. *)
Record config_ok (c : config) (tc : PredictorTable.config) (sizeMultiplier : nat) (pendMax : Z)
    (bc : Backend.config) : Prop := {
  co_acc : 1 <= CL_ACC_SIZE c;
  co_table : 1 <= PredictorTable.MAX_SIZE tc;
  co_path : (1 <= PredictorTable.PATH_HISTORY_SIZE tc <= 64)%nat;
  co_rewards : LineSearch.rewards_ok (PredictorTable.entry_config tc);
  co_whb : (1 <= sizeMultiplier)%nat;
  co_pend : 0 < pendMax;
  co_backend : 1 <= Backend.MAX_COMPLETED_QUEUE_LINE_SIZE bc
}.
End Runs.

(** The system before its first event. *)
Definition init (c : config) (tc : PredictorTable.config) (sizeMultiplier : nat) (pendMax : Z)
    (disableWhbSearch : bool) (bc : Backend.config) : t :=
  Frontend.new c tc sizeMultiplier pendMax disableWhbSearch SharedArea.new (Backend.new bc).

Lemma init_sys width c tc k pendMax dis bc :
  config_ok c tc k pendMax bc -> sys_ok width (c, bc) 0 0 0 (init c tc k pendMax dis bc).
Proof.
  intros [C1 C2 C3 C4 C5 C6 C7].
  destruct (Backend.backend_new_ok bc C7) as [Hb _ Hbal]. cbn [fst snd] in *.
  unfold init, Frontend.new.
  assert (forall pc, PT.queue (PT.new "pend_t" pendMax dis) pc = []) as Hq
    by (intros pc; unfold PT.queue, PT.new; cbn; by rewrite lookup_empty).
  split; cbn [predictorTable pendingTable parents nextParent shared backend addrPredictor]; try done.
  - split; try done. change (Z.of_nat (size (∅ : gmap Z CacheLine.t)) <= CL_ACC_SIZE c).
    rewrite map_size_empty. lia.
  - cbn. apply FixedSizeQueue.new_ok. lia.
  - intros ws1 w ws2 E. by destruct ws1.
  - by apply PredictorTable.table_new_wf.
  - apply AddrPredictor.predictor_new_ok.
  - split; try done; [by apply PT.pending_new_ok|..]; intros *; rewrite Hq;
      by intros ?%not_elem_of_nil.
Qed.

(** C1: in a run, requests reach the frontend at increasing ticks,
    mixed with requests to the backend and switches of the predictor.  A store has
    data inside one line and a PC other than 0, and all stores of a PC have the same
    size (the code panics otherwise); other requests have an address and a PC; the
    blocks the caches return have sixteen words; persistent writes to the backend are
    full lines; fewer than 2^31 events; no other component changes the
    result buffer.  Then it stops nowhere but at the write back of a line
    whose address is found in the history, if the read of a destroyed temporary
    there, undefined in C++, fails; where the words are still in
    place it never stops.  After the run the accumulator is within its capacity; no
    address holds more predictions than the limit; every write counted is not
    predicted, correctly predicted or data-missed; every pending entry waits for a
    word its incomplete parent has not got; and every pattern names the stores its
    words and address come from. *)
Theorem predictor_run_safe `{O : IterOrder} width c tc k pendMax dis bc evs :
  config_ok c tc k pendMax bc -> Z.of_nat (length evs) < 2147483648 -> valid_from width 0 evs ->
  match run evs (init c tc k pendMax dis bc) with
  | Ok f =>
      Z.of_nat (size (cacheLineAccumulator f)) <= CL_ACC_SIZE c /\
      (forall a q, Backend.completedWrites (backend f) !! a = Some q ->
         Z.of_nat (length q) <= Backend.MAX_COMPLETED_QUEUE_LINE_SIZE bc) /\
      Stats.get "totalPWrites" (Backend.stats (backend f)) =
        Stats.get "nonPredictedPWrites" (Backend.stats (backend f)) +
        Stats.get "correctlyPredictedPWrites" (Backend.stats (backend f)) +
        Stats.get "dataMissPredictedPWrites" (Backend.stats (backend f)) /\
      (forall pc e, e ∈ PT.queue (pendingTable f) pc -> exists id o,
         U.parent e = Some id /\ parents f !! id = Some o /\ open_in o e /\ P.completeb o = false) /\
      (forall h e, patterns f !! h = Some e -> pattern_ok width e)
  | Fail e =>
      ~ all_intact evs /\
      exists done m now pkt rest f, evs = done ++ Front m now pkt :: rest /\
        run done (init c tc k pendMax dis bc) = Ok f /\ request_reads m pkt f = Fail e
  end.
Proof.
  intros Hc Hlen Hv.
  pose proof (run_sys width (c, bc) evs 0 0 (init c tc k pendMax dis bc) ltac:(lia) ltac:(lia) Hlen Hv
    (init_sys width c tc k pendMax dis bc Hc)) as Hrun.
  destruct (run evs (init c tc k pendMax dis bc)) as [f|e].
  2:{ destruct Hrun as (evs1 & ev & evs2 & f & last & n & -> & E & Hs & Hlo). split.
      - intros Hall. eapply intact_not_lost; [exact Hall| |exact Hs|exact Hlo]. set_solver.
      - destruct ev as [m now pkt| |]; [|done..]. by exists evs1, m, now, pkt, evs2, f. }
  destruct Hrun as (last & Hf). destruct Hf as [A S1 S2 S3 S4 S5 S6 S7 S8 S9 S10 S11 S12 S13 S14 S15 S16].
  unfold limits in S16. injection S16 as Ec Eb.
  split; [rewrite <- Ec; apply A|].
  split; [intros a q Hq; rewrite <- Eb; apply (Backend.wf_queues _ (ao_backend _ A) a q Hq)|].
  split; [exact S15|]. split; [|done]. intros pc e He.
  destruct (pe_waits _ _ _ _ _ S12 pc e He) as (id & o & Hid & Ho & Hopen). exists id, o.
  do 3 (split; [done|]). eapply complete_closed; [|exact Hid|exact Ho|exact Hopen].
  pose proof (PT.to_entries _ _ (pe_table _ _ _ _ _ S12) pc) as Hall. rewrite Forall_forall in Hall.
  by apply Hall.
Qed.

(** C33: the handling of a store, in a state where the invariant of the system
    holds, whose stores of one PC all have the same size (the code panics otherwise).
    A store of the size of its PC, with data inside one line and a PC other than 0,
    never stops the program.  It consumes the feedback of the backend and extends the
    path of PCs; when the table has a pattern for the hash of the path, that pattern is
    promoted; then the store is delivered to the predictions that wait for its PC.  The
    invariant holds again. *)
Theorem store_spec `{O : IterOrder} width lim m now th tl n pkt v pc data f :
  0 < now < UINT64_MAX -> sys_ok width lim th tl n f -> n < 2147483647 ->
  LineSearch.history_store pkt v pc data (width pc) ->
  exists f' f1 f2 entries,
    handleStore (pageTable m) (counterHit m) (verificationHit m) now pkt f = Ok f' /\
    observed pc f f1 /\ promoted width now pc f f1 f2 /\
    delivery width (pageTable m) (counterHit m) (verificationHit m) now pc data entries f2 f' /\
    sys_ok width lim th tl (n + 1) f'.
Proof.
  intros Hnow Hf Hn Hst.
  destruct (store_sys width lim m now Hnow th tl n pkt v pc data f Hf Hn Hst)
    as (f' & entries & E & H' & f1 & f2 & H1 & H2 & H3).
  by exists f', f1, f2, entries.
Qed.

(** C32: the write back of a line, with the predictor enabled and the invariant of
    the system.  A line that is not accumulated, or has no word, is ignored.  Otherwise
    the history is searched.  When a store of it has the line's address, the code reads
    that address again through a pointer to a destroyed temporary, which is undefined
    in C++; if that read fails, the write back fails in the same way, and in no other
    case.  When the history has the stores of the address and of every word, the entry
    added to the predictor table is the pattern of these stores; the stride predictor
    sees the address and the line leaves the accumulator.  The pending predictions and
    the backend are not touched, and the invariant holds again. *)
Theorem clwb_spec `{O : IterOrder} width lim m now th tl n pkt v f :
  Packet.vaddr pkt = Some v -> is_u64 v ->
  Backend.predictorEnabled (backend f) = true -> sys_ok width lim th tl n f ->
  match lost_write_back m (cacheline_align v) f with
  | Fail e => persist m now pkt true f = Fail e
  | Ok _ =>
      exists f', persist m now pkt true f = Ok f' /\ sys_ok width lim th tl n f' /\
        match cacheLineAccumulator f !! cacheline_align v with
        | Some line =>
            if clean_line line then quiet f f'
            else
              cacheLineAccumulator f' = delete (cacheline_align v) (cacheLineAccumulator f) /\
              learned width (cacheline_align v) line f f' /\
              AddrPredictor.set_last_seen_addr (cacheline_align v) (addrPredictor f) =
                Ok (addrPredictor f') /\
              pendingTable f' = pendingTable f /\ parents f' = parents f /\ backend f' = backend f
        | None => quiet f f'
        end
  end.
Proof.
  intros Hv Hu He Hf. pose proof (clwb_ok width lim m now th tl n pkt v f Hv Hu He Hf) as H.
  by destruct (lost_write_back m (cacheline_align v) f).
Qed.

(** ** Evaluation

    A persistent structure is written twice: the PC 0x600 stores the address of
    a line, 0x608 a word, and 0x610 copies the word to the line, which is then
    written back.  The write back teaches the pattern; the second time the
    stores of 0x600 and 0x608 give the line before it is written. *)
Definition demo_machine : machine :=
  mkMachine Backend.sample_pt (fun _ => true) (fun _ => false) (fun _ => None) (fun _ => None)
    (replicate DATA_CHUNK_COUNT 0) LineSearch.intact.
Definition demo_clwb (v p : Z) : Packet.t :=
  Packet.mk false false false true false true 1 1 p (Some v) (Some p) (Some 0x700) None
    0 0 false false false false false false 0.
Definition demo_store (v pc : Z) (words : list Z) : Packet.t := Packet.store v 0x1000 pc words.
Definition demo_width (pc : Z) : nat := if pc =? 0x600 then 2%nat else 1%nat.
Definition demo_write : Packet.t :=
  Packet.store 0x10000000080 0x240000080 0x610 (171 :: replicate 15 0).

Definition demo_events : list event :=
  [Enable true true;
   Front demo_machine 1 (demo_store 0x7000 0x5f0 [1]);
   Front demo_machine 2 (demo_store 0x7008 0x600 [0x40; 0x100]);
   Front demo_machine 3 (demo_store 0x7010 0x608 [170]);
   Front demo_machine 4 (demo_store 0x10000000040 0x610 [170]);
   Front demo_machine 5 (demo_clwb 0x10000000040 0x240000040);
   Front demo_machine 6 (demo_store 0x7000 0x5f0 [1]);
   Front demo_machine 7 (demo_store 0x7008 0x600 [0x80; 0x100]);
   Front demo_machine 8 (demo_store 0x7010 0x608 [171]);
   Back 20 0 demo_write].

Definition demo_config : config := mkConfig 4 10000 500000 true false true 0x1234.
Definition demo_table : PredictorTable.config :=
  PredictorTable.mkConfig 32 200 1 true false 0 (PTE.mkConfig 20 80 false).
Definition demo_backend : Backend.config := Backend.mkConfig 4 256 false.
Definition demo_init : t := init demo_config demo_table 1 128 false demo_backend.

(** The state after the first [k] events. *)
Definition demo (k : nat) : t :=
  match @run tree_order (take k demo_events) demo_init with Ok f => f | Fail _ => demo_init end.

Lemma demo_config_ok : config_ok demo_config demo_table 1 128 demo_backend.
Proof. by split; cbn; try lia. Qed.

Lemma demo_store_ok v pc words :
  demo_width pc = length words -> (chunk_index v + length words <= DATA_CHUNK_COUNT)%nat -> pc <> 0 ->
  LineSearch.history_store (demo_store v pc words) v pc words (demo_width pc).
Proof.
  intros Hw Hfit Hpc. rewrite Hw.
  assert (4 * Z.of_nat (length words) / SIZEOF_DATACHUNK = Z.of_nat (length words)) as Hdiv
    by (rewrite Z.mul_comm; by apply Z.div_mul).
  split; [|done|exact Hdiv|done]. split; try done.
Qed.

Lemma demo_write_ok : Backend.pm_write demo_write 0x240000080 (171 :: replicate 15 0).
Proof. by split. Qed.

Lemma demo_valid k : valid_from demo_width 0 (take k demo_events).
Proof.
  assert (machine_ok demo_machine) as Hm by (by split).
  assert (forall a pc words, demo_width pc = length words ->
    (chunk_index a + length words <= DATA_CHUNK_COUNT)%nat -> pc <> 0 ->
    valid_request demo_width (demo_store a pc words)) as Hs
    by (intros a pc words H1 H2 H3; eapply valid_store; by apply demo_store_ok).
  assert (valid_request demo_width (demo_clwb 0x10000000040 0x240000040)) as Hc
    by (by eapply valid_other).
  apply (valid_from_take demo_width k). cbn [demo_events valid_from].
  repeat match goal with |- _ /\ _ => split end; try done;
    try (apply Hs; [done|vm_compute; lia|done]). left. eexists _, _. apply demo_write_ok.
Qed.

Lemma demo_intact k : all_intact (take k demo_events).
Proof.
  intros m now pkt H. assert (Front m now pkt ∈ demo_events) as Hin
    by (rewrite <- (take_drop k demo_events), elem_of_app; by left).
  unfold demo_events in Hin.
  repeat (apply elem_of_cons in Hin as [Hin|Hin]; [first [discriminate Hin | by injection Hin as -> _ _]|]).
  by apply not_elem_of_nil in Hin.
Qed.

Lemma demo_run k :
  @run tree_order (take k demo_events) demo_init = Ok (demo k) /\
  exists last n, n <= 10 /\ sys_ok demo_width (demo_config, demo_backend) last last n (demo k).
Proof.
  assert ((length (take k demo_events) <= 10)%nat) as Hlen by (rewrite length_take; cbn; lia).
  pose proof (@run_sys tree_order demo_width (demo_config, demo_backend) (take k demo_events) 0 0 demo_init
    ltac:(lia) ltac:(lia) ltac:(lia) (demo_valid k) (init_sys _ _ _ _ _ _ _ demo_config_ok)) as H.
  unfold demo. destruct (run (take k demo_events) demo_init) as [f|e].
  - destruct H as (last & Hf). split; [done|]. exists last, (0 + Z.of_nat (length (take k demo_events))).
    split; [lia|done].
  - destruct H as (evs1 & ev & evs2 & f & last & n & E & _ & Hs & Hlo). exfalso.
    eapply (intact_not_lost demo_width (demo_config, demo_backend)); [exact (demo_intact k)| |exact Hs|exact Hlo].
    rewrite E. set_solver.
Qed.

Lemma predictor_run_safe_witness :
  exists f, @run tree_order demo_events demo_init = Ok f /\
    Z.of_nat (size (cacheLineAccumulator f)) <= 4 /\
    Stats.get "predictedWriteCount" (stats f) = 1 /\
    Stats.get "correctlyPredictedPWrites" (Backend.stats (backend f)) = 1.
Proof.
  pose proof (@predictor_run_safe tree_order demo_width demo_config demo_table 1 128 false demo_backend
    demo_events demo_config_ok eq_refl (demo_valid 10)) as H.
  change (init demo_config demo_table 1 128 false demo_backend) with demo_init in H.
  pose proof (proj1 (demo_run 10)) as E. change (take 10 demo_events) with demo_events in E.
  rewrite E in H. exists (demo 10). split; [exact E|]. split; [exact (proj1 H)|].
  split; vm_compute; reflexivity.
Defined.

Lemma store_spec_witness :
  exists f', @handleStore tree_order (pageTable demo_machine) (counterHit demo_machine)
      (verificationHit demo_machine) 6 (demo_store 0x7000 0x5f0 [1]) (demo 6) = Ok f' /\
    nextParent f' = 1 /\ length (PT.queue (pendingTable f') 0x600) = 1%nat /\
    length (PT.queue (pendingTable f') 0x608) = 1%nat.
Proof.
  destruct (demo_run 6) as (_ & last & n & Hn & Hf).
  destruct (@store_spec tree_order demo_width (demo_config, demo_backend) demo_machine 6 last last n
    (demo_store 0x7000 0x5f0 [1]) 0x7000 0x5f0 [1] (demo 6)) as (f' & f1 & f2 & entries & E & _);
    [done|exact Hf|lia|apply demo_store_ok; [reflexivity|vm_compute; lia|lia]|].
  exists f'. split; [exact E|].
  pattern f'. refine (ok_check _ _ _ E _).
  vm_compute. repeat split.
Defined.

Lemma clwb_spec_witness :
  exists f', @persist tree_order demo_machine 5 (demo_clwb 0x10000000040 0x240000040) true (demo 5) = Ok f' /\
    cacheLineAccumulator f' = delete 0x10000000040 (cacheLineAccumulator (demo 5)) /\
    is_Some (patterns f' !! 0x5f0).
Proof.
  assert (is_u64 0x10000000040) as Hu by done.
  destruct (demo_run 5) as (_ & last & n & Hn & Hf).
  assert (Backend.predictorEnabled (backend (demo 5)) = true) as He by (vm_compute; reflexivity).
  pose proof (@clwb_spec tree_order demo_width (demo_config, demo_backend) demo_machine 5 last last n
    (demo_clwb 0x10000000040 0x240000040) 0x10000000040 (demo 5) eq_refl Hu He Hf) as H.
  assert (lost_write_back demo_machine 0x10000000040 (demo 5) = Ok tt) as Hl by (vm_compute; reflexivity).
  change (cacheline_align 0x10000000040) with 0x10000000040 in H. rewrite Hl in H.
  destruct H as (f' & E & _ & H). exists f'. split; [exact E|]. split.
  - destruct (cacheLineAccumulator (demo 5) !! 0x10000000040) as [line|] eqn:El; [|vm_compute in El; discriminate El].
    assert (clean_line line = false) as Ec by (vm_compute in El; injection El as <-; vm_compute; reflexivity).
    rewrite Ec in H. exact (proj1 H).
  - clear H. refine (ok_check (fun f' => is_Some (patterns f' !! 0x5f0)) _ _ E _). vm_compute. eauto.
Defined.

(** The pattern the write back taught. *)
Definition demo_pattern : PTE.t :=
  default (PTE.new (PTE.mkConfig 20 80 false) 0) (patterns (demo 6) !! 0x5f0).

Lemma promote_spec_witness :
  exists f' o, @promote tree_order 6 0x5f0 (demo 6) = Ok f' /\
    nextParent f' = 1 /\ parents f' !! 0 = Some o /\ P.generatorHash o = 0x5f0 /\ P.completeb o = false.
Proof.
  destruct (demo_run 6) as (_ & last & n & Hn & Hf).
  assert (patterns (demo 6) !! 0x5f0 = Some demo_pattern) as He by (vm_compute; reflexivity).
  assert (nextParent (demo 6) = 0) as H0 by (vm_compute; reflexivity).
  revert Hf He H0. generalize (demo 6) demo_pattern. intros f e Hf He H0.
  destruct (@promote_spec demo_width 6 tree_order 0x5f0 e f)
    as (f' & o & E & _ & Hnext & Ho & Hh & _ & Hc & _).
  - apply (sy_table _ _ _ _ _ _ Hf).
  - exact He.
  - apply (sy_patterns _ _ _ _ _ _ Hf 0x5f0), He.
  - apply (sy_pend _ _ _ _ _ _ Hf).
  - unfold countable, is_u64. rewrite H0. lia.
  - exists f', o. rewrite H0 in Hnext, Ho. exact (conj E (conj Hnext (conj Ho (conj Hh Hc)))).
Defined.

Lemma delivery_spec_witness :
  exists f', updatePendingTable (O := tree_order) (pageTable demo_machine) (counterHit demo_machine)
      (verificationHit demo_machine) 8 (demo_store 0x7010 0x608 [171]) (demo 8) = Ok f' /\
    PT.queue (pendingTable f') 0x608 = [] /\
    is_Some (Backend.completedWrites (backend f') !! 0x240000080).
Proof.
  destruct (demo_run 8) as (_ & last & n & Hn & Hf).
  destruct (@delivery_spec tree_order demo_width (pageTable demo_machine) (counterHit demo_machine)
    (verificationHit demo_machine) 8 eq_refl (demo_store 0x7010 0x608 [171]) 0x7010 0x608 [171] (demo 8))
    as (f' & entries & E & Hq & _).
  - split; try done; vm_compute; lia.
  - by eapply sys_deliverable.
  - exists f'. split; [exact E|]. split; [exact Hq|].
    pattern f'. refine (ok_check _ _ _ E _). vm_compute. eauto.
Defined.
End System.
