(* ===== verification/Clock.v ===== *)
(** * Clocks and events of the simulator

    Models [class Clocked] of [sim/clocked_object.hh], which turns ticks into
    clock edges, [divCeil] of [base/intmath.hh], and the scheduling of one event
    object by [EventQueue::schedule] of [sim/eventq_impl.hh].  Ticks are integers
    that do not wrap: a tick is a picosecond of simulated time. *)

From S2P Require Import Prelude.

Definition divCeil (a b : Z) : Z := (a + b - 1) / b.

(** ** Clock edges *)
Module Clocked.
(** [period] is [clockDomain.clockPeriod()]. *)
Record t := mk { tick : Z; cycle : Z; period : Z }.

Definition new (p : Z) : t := mk 0 0 p.

Definition update (now : Z) (c : t) : t :=
  if now <=? tick c then c
  else
    let c := mk (tick c + period c) (cycle c + 1) (period c) in
    if now <=? tick c then c
    else
      let elapsedCycles := divCeil (now - tick c) (period c) in
      mk (tick c + elapsedCycles * period c) (cycle c + elapsedCycles) (period c).

(** The methods are [const] on [mutable] members: the clock changes too. *)
Definition clockEdge (now cycles : Z) (c : t) : Z * t :=
  let c := update now c in (tick c + period c * cycles, c).
Definition curCycle (now : Z) (c : t) : Z * t :=
  let c := update now c in (cycle c, c).
Definition nextCycle (now : Z) (c : t) : Z * t := clockEdge now 1 c.
Definition resetClock (now : Z) (c : t) : t :=
  let elapsedCycles := divCeil now (period c) in
  mk (elapsedCycles * period c) elapsedCycles (period c).
Definition ticksToCycles (ticks : Z) (c : t) : Z := divCeil ticks (period c).
Definition cyclesToTicks (cycles : Z) (c : t) : Z := period c * cycles.

(** *** The reference: the first edge at or after a tick *)
Definition edge (p now : Z) : Z := divCeil now p * p.

Lemma edge_first p now :
  0 < p -> now <= edge p now < now + p /\ edge p now mod p = 0 /\
  forall e, e mod p = 0 -> now <= e -> edge p now <= e.
Proof.
  intros Hp. unfold edge, divCeil. split; [|split].
  - Z.div_mod_to_equations; nia.
  - by apply Z.mod_mul; lia.
  - intros e He Hn. apply Z.mod_divide in He as [y ->]; [|lia]. apply Z.mul_le_mono_nonneg_r; [lia|].
    apply Z.lt_succ_r, Z.div_lt_upper_bound; [done|lia].
Qed.

Lemma edge_unique p now e : 0 < p -> now <= e < now + p -> e mod p = 0 -> e = edge p now.
Proof.
  intros Hp Hr Hm. destruct (edge_first p now Hp) as (H1 & H2 & H3).
  specialize (H3 e Hm ltac:(lia)). apply Z.mod_divide in H2 as [x Hx]; [|lia].
  apply Z.mod_divide in Hm as [y Hy]; [|lia].
  assert (y < x + 1) by (apply (Z.mul_lt_mono_pos_r p); lia).
  assert (x <= y) by (apply (Z.mul_le_mono_pos_r _ _ p); lia). assert (x = y) by lia. congruence.
Qed.

(** The clock after its last update at tick [last]. *)
Record wf (last : Z) (c : t) : Prop := {
  wf_period : 0 < period c;
  wf_tick : tick c = edge (period c) last;
  wf_cycle : tick c = cycle c * period c
}.

Lemma new_wf p : 0 < p -> wf 0 (new p).
Proof.
  intros Hp. split; cbn [new period tick cycle]; [done| |lia].
  apply edge_unique; [done|lia|by apply Z.mod_0_l; lia].
Qed.

Lemma update_ok last now c :
  wf last c -> last <= now -> wf now (update now c) /\ period (update now c) = period c.
Proof.
  intros [Hp Ht Hc] Hn. destruct (edge_first (period c) last Hp) as (He & _).
  rewrite <- Ht in He.
  assert (forall k, (tick c + k * period c) mod period c = 0) as Hm
    by (intros k; rewrite Hc, <- Z.mul_add_distr_r; apply Z.mod_mul; lia).
  unfold update. destruct (Z.leb_spec now (tick c)).
  { split; [|done]. split; [done| |done]. apply edge_unique; [done|lia|].
    rewrite <- (Hm 0). f_equal. lia. }
  cbn [tick cycle period]. destruct (Z.leb_spec now (tick c + period c)).
  { split; [|done]. split; cbn [tick cycle period]; [done| |lia]. apply edge_unique; [done|lia|].
    rewrite <- (Hm 1). f_equal. lia. }
  split; [|done]. set (k := divCeil _ _).
  assert (now <= tick c + period c + k * period c < now + period c) as Hr
    by (subst k; unfold divCeil; Z.div_mod_to_equations; nia).
  split; cbn [tick cycle period]; [done| |lia]. apply edge_unique; [done|lia|].
  rewrite <- (Hm (1 + k)). f_equal. lia.
Qed.

Lemma clockEdge_ok last now k c :
  wf last c -> last <= now ->
  exists c', clockEdge now k c = (edge (period c) now + k * period c, c') /\ wf now c' /\
    period c' = period c.
Proof.
  intros Hw Hn. destruct (update_ok last now c Hw Hn) as [Hu Hp].
  exists (update now c). split; [|done]. unfold clockEdge. f_equal.
  rewrite (wf_tick _ _ Hu), Hp. lia.
Qed.

(** Whatever ticks a clocked object was asked about before, its answer for
    the current tick is the first multiple of the clock period at or after it,
    plus the requested number of periods; the cycle counter is that tick's
    number of periods.  The incremental update of the cached tick agrees with
    this definition for any non-decreasing sequence of ticks. *)
Theorem clock_edge_spec p (ticks : list Z) now k :
  0 < p -> Sorted Z.le (0 :: ticks ++ [now]) ->
  let c := foldl (fun c n => update n c) (new p) ticks in
  exists c', clockEdge now k c = (edge p now + k * p, c') /\
    now <= edge p now < now + p /\ edge p now mod p = 0 /\
    fst (curCycle now c) = edge p now / p.
Proof.
  intros Hp Hs. apply Sorted_StronglySorted in Hs; [|intros ???; lia].
  assert (forall l last c, wf last c -> period c = p -> StronglySorted Z.le (last :: l ++ [now]) ->
    let c' := foldl (fun c n => update n c) c l in
    exists last', wf last' c' /\ period c' = p /\ last' <= now) as Hrun.
  { induction l as [|n l IH]; intros last c Hw Hc Hl.
    - exists last. split; [done|]. split; [done|]. apply StronglySorted_inv in Hl as [_ Hl].
      by apply Forall_cons in Hl as [? _].
    - apply StronglySorted_inv in Hl as [Hl Hle]. apply Forall_cons in Hle as [Hle _].
      destruct (update_ok last n c Hw Hle) as [Hw' Hp']. apply (IH n); [done|congruence|done]. }
  destruct (Hrun ticks 0 (new p)) as (last & Hw & Hc & Hle); [by apply new_wf|done|done|].
  cbn zeta. set (c := foldl _ _ _) in *.
  destruct (clockEdge_ok last now k c Hw Hle) as (c' & E & Hw' & Hp').
  rewrite Hc in E. exists c'. split; [done|]. destruct (edge_first p now Hp) as (? & ? & _).
  split; [done|]. split; [done|]. destruct (update_ok last now c Hw Hle) as [[Hu1 Hu2 Hu3] Hu].
  unfold curCycle. cbn [fst]. rewrite Hu, Hc in Hu2. rewrite <- Hu2, Hu3, Hu, Hc.
  by rewrite Z.div_mul by lia.
Qed.

Lemma clock_edge_spec_witness :
  clockEdge 1700 2 (foldl (fun c n => update n c) (new 500) [0; 3; 499; 501; 1600]) =
    (3000, mk 2000 4 500) /\ edge 500 1700 = 2000.
Proof.
  destruct (clock_edge_spec 500 [0; 3; 499; 501; 1600] 1700 2) as (c' & E & _ & _ & Hc).
  - lia.
  - repeat (constructor; [|repeat constructor; lia]). constructor.
  - split; [|reflexivity]. rewrite E. vm_compute in E. injection E as <-. reflexivity.
Defined.
End Clocked.

(** ** One event object

    [None] when the event is not scheduled, else the tick it is scheduled for. *)
Definition schedule (now when : Z) (ev : option Z) : res (option Z) :=
  assert_that (now <=? when) ;;
  assert_that (negb (bool_decide (is_Some ev))) ;;
  Ok (Some when).

Lemma schedule_ok now when : now <= when -> schedule now when None = Ok (Some when).
Proof. intros H. unfold schedule. by rewrite (proj2 (Z.leb_le _ _) H). Qed.
