(* ===== verification/EventQueue.v ===== *)
(** * The event queue of the simulator

    Models [class Event] and [class EventQueue] of [sim/eventq.hh],
    [sim/eventq.cc] and [sim/eventq_impl.hh], and the loop [doSimLoop] of
    [sim/simulate.cc].  Events are objects of a heap that the queue links with
    two pointers, as in the code: the events of the same tick and priority form a
    stack along [nextInBin], and only the top of a stack has a valid [nextBin].
    One queue and one thread are modelled ([inParallelMode] is false), with the
    default memory management of events; signals that interrupt the loop are
    not. *)

From S2P Require Import Prelude Common.

Module EventQueue.
Definition Squashed : Z := 0x0001.
Definition Scheduled : Z := 0x0002.
Definition Managed : Z := 0x0004.
Definition IsExitEvent : Z := 0x0010.
Definition IsMainQueue : Z := 0x0020.
Definition PublicWrite : Z := 0x001d.
Definition Initialized : Z := 0x7a40.
Definition InitMask : Z := 0xffc0.

Record Event := mkEvent {
  nextBin : option nat;
  nextInBin : option nat;
  when : Z;
  priority : Z;
  flags : Z
}.

Definition with_nextBin p e := mkEvent p (nextInBin e) (when e) (priority e) (flags e).
Definition with_nextInBin p e := mkEvent (nextBin e) p (when e) (priority e) (flags e).
Definition with_when w e := mkEvent (nextBin e) (nextInBin e) w (priority e) (flags e).
Definition with_flags f e := mkEvent (nextBin e) (nextInBin e) (when e) (priority e) f.

Definition scheduled (e : Event) : bool := is_flag_set (flags e) Scheduled.
Definition squashed (e : Event) : bool := is_flag_set (flags e) Squashed.
Definition isManaged (e : Event) : bool := is_flag_set (flags e) Managed.
Definition isExitEvent (e : Event) : bool := is_flag_set (flags e) IsExitEvent.
Definition initialized (e : Event) : bool := Z.land (flags e) InitMask =? Initialized.

(** [operator<], [operator<=], [operator==] and [operator!=] of events. *)
Definition lt (l r : Event) : bool :=
  (when l <? when r) || ((when l =? when r) && (priority l <? priority r)).
Definition le (l r : Event) : bool :=
  (when l <? when r) || ((when l =? when r) && (priority l <=? priority r)).
Definition eq (l r : Event) : bool := (when l =? when r) && (priority l =? priority r).
Definition ne (l r : Event) : bool := negb (when l =? when r) || negb (priority l =? priority r).

(** The queue with the events that exist, by address. *)
Record t := mk { events : gmap nat Event; head : option nat; curTick : Z }.

Definition with_events h s := mk h (head s) (curTick s).
Definition setCurTick (newVal : Z) (s : t) : t := mk (events s) (head s) newVal.

Definition new : t := mk ∅ None 0.

(** An update of the object behind a pointer. *)
Definition update (p : nat) (f : Event -> Event) (h : gmap nat Event) : res (gmap nat Event) :=
  e ← deref (h !! p); Ok (<[p := f e]> h).

(** [Event::Event] at a fresh address. *)
Definition create (p : nat) (pri f : Z) (s : t) : res t :=
  assert_that (Z.land f (Z.lnot PublicWrite) =? 0) ;;
  Ok (with_events (<[p := mkEvent None None 0 pri (Z.lor Initialized f)]> (events s)) s).

(** ** Links *)

Definition insertBefore (event : nat) (curr : option nat) (h : gmap nat Event) :
    res (gmap nat Event) :=
  match curr with
  | None => update event (fun e => with_nextInBin None (with_nextBin None e)) h
  | Some c =>
      e ← deref (h !! event);
      ec ← deref (h !! c);
      if lt e ec then update event (fun e => with_nextInBin None (with_nextBin (Some c) e)) h
      else update event (fun e => with_nextInBin (Some c) (with_nextBin (nextBin ec) e)) h
  end.

(** The loop [while (curr && *curr < *event)] of [insert] and [remove]. *)
Fixpoint walk (fuel : nat) (e : Event) (prev : nat) (curr : option nat) (h : gmap nat Event) :
    res (nat * option nat) :=
  match curr with
  | None => Ok (prev, None)
  | Some c =>
      ec ← deref (h !! c);
      if lt ec e then
        match fuel with
        | O => Fail OutOfFuel
        | S fuel => walk fuel e c (nextBin ec) h
        end
      else Ok (prev, Some c)
  end.

Definition insert (event : nat) (s : t) : res t :=
  e ← deref (events s !! event);
  match head s with
  | None =>
      h ← insertBefore event None (events s);
      Ok (mk h (Some event) (curTick s))
  | Some hd =>
      ehd ← deref (events s !! hd);
      if le e ehd then
        h ← insertBefore event (Some hd) (events s);
        Ok (mk h (Some event) (curTick s))
      else
        '(prev, curr) ← walk (size (events s)) e hd (nextBin ehd) (events s);
        h ← insertBefore event curr (events s);
        h ← update prev (with_nextBin (Some event)) h;
        Ok (mk h (head s) (curTick s))
  end.

(** The loop [while (event != next)] of [removeItem], from the element [curr]. *)
Fixpoint unlink (fuel : nat) (event curr : nat) (next : option nat) (h : gmap nat Event) :
    res (gmap nat Event) :=
  match next with
  | None => Fail Panic
  | Some n =>
      en ← deref (h !! n);
      if (event =? n)%nat then update curr (with_nextInBin (nextInBin en)) h
      else
        match fuel with
        | O => Fail OutOfFuel
        | S fuel => unlink fuel event n (nextInBin en) h
        end
  end.

Definition removeItem (event top : nat) (h : gmap nat Event) : res (gmap nat Event * option nat) :=
  et ← deref (h !! top);
  if (event =? top)%nat then
    match nextInBin et with
    | None => Ok (h, nextBin et)
    | Some next => h ← update next (with_nextBin (nextBin et)) h; Ok (h, Some next)
    end
  else h ← unlink (size h) event top (nextInBin et) h; Ok (h, Some top).

Definition remove (event : nat) (s : t) : res t :=
  match head s with
  | None => Fail Panic
  | Some hd =>
      e ← deref (events s !! event);
      ehd ← deref (events s !! hd);
      if eq ehd e then
        '(h, hd) ← removeItem event hd (events s);
        Ok (mk h hd (curTick s))
      else
        '(prev, curr) ← walk (size (events s)) e hd (nextBin ehd) (events s);
        match curr with
        | None => Fail Panic
        | Some c =>
            ec ← deref (events s !! c);
            panic_if (ne ec e) ;;
            '(h, top) ← removeItem event c (events s);
            h ← update prev (with_nextBin top) h;
            Ok (mk h (head s) (curTick s))
        end
  end.

(** ** Scheduling *)

Definition change (event : nat) (f : Event -> Event) (s : t) : res t :=
  h ← update event f (events s); Ok (with_events h s).

(** [Event::release]: a managed event that is not scheduled again is deleted. *)
Definition release (event : nat) (s : t) : res t :=
  e ← deref (events s !! event);
  Ok (if isManaged e && negb (scheduled e) then with_events (delete event (events s)) s else s).

Definition schedule (event : nat) (w : Z) (s : t) : res t :=
  assert_that (curTick s <=? w) ;;
  e ← deref (events s !! event);
  assert_that (negb (scheduled e)) ;;
  assert_that (initialized e) ;;
  s ← change event (with_when w) s;
  s ← insert event s;
  change event (fun e => with_flags (set_flag (flags e) Scheduled) e) s.

Definition deschedule (event : nat) (s : t) : res t :=
  e ← deref (events s !! event);
  assert_that (scheduled e) ;;
  assert_that (initialized e) ;;
  s ← remove event s;
  s ← change event (fun e => with_flags (unset_flag (unset_flag (flags e) Squashed) Scheduled) e) s;
  release event s.

Definition reschedule (event : nat) (w : Z) (always : bool) (s : t) : res t :=
  assert_that (curTick s <=? w) ;;
  e ← deref (events s !! event);
  assert_that (always || scheduled e) ;;
  assert_that (initialized e) ;;
  s ← (if scheduled e then remove event s else Ok s);
  s ← change event (with_when w) s;
  s ← insert event s;
  change event (fun e => with_flags (set_flag (unset_flag (flags e) Squashed) Scheduled) e) s.

Definition squash (event : nat) (s : t) : res t :=
  change event (fun e => with_flags (set_flag (flags e) Squashed) e) s.

(** ** Service *)

(** The first part of [serviceOne]: the head leaves the queue. *)
Definition pop (s : t) : res (nat * t) :=
  event ← deref (head s);
  e ← deref (events s !! event);
  s ← change event (fun e => with_flags (unset_flag (flags e) Scheduled) e) s;
  match nextInBin e with
  | Some next =>
      h ← update next (with_nextBin (nextBin e)) (events s);
      Ok (event, mk h (Some next) (curTick s))
  | None => Ok (event, mk (events s) (nextBin e) (curTick s))
  end.

Section Service.
(** [W] is the state of the simulated objects and [process] runs the handler of
    an event, which changes that state and calls the queue. *)
Context {W : Type} (process : nat -> W -> t -> res (W * t)).

Definition serviceOne (w : W) (s : t) : res (option nat * W * t) :=
  '(event, s) ← pop s;
  e ← deref (events s !! event);
  if squashed e then
    s ← change event (fun e => with_flags (unset_flag (flags e) Squashed) e) s;
    s ← release event s;
    Ok (None, w, s)
  else
    '(w, s) ← process event w (setCurTick (when e) s);
    e ← deref (events s !! event);
    if isExitEvent e then
      assert_that (negb (isManaged e) || negb (is_flag_set (flags e) IsMainQueue)) ;;
      Ok (Some event, w, s)
    else s ← release event s; Ok (None, w, s).

Definition nextTick (s : t) : res Z :=
  hd ← deref (head s); e ← deref (events s !! hd); Ok (when e).

(** [doSimLoop]: a round per unit of [fuel]. *)
Fixpoint doSimLoop (fuel : nat) (w : W) (s : t) : res (nat * W * t) :=
  match fuel with
  | O => Fail OutOfFuel
  | S fuel =>
      assert_that (bool_decide (is_Some (head s))) ;;
      n ← nextTick s;
      assert_that (curTick s <=? n) ;;
      '(exit_event, w, s) ← serviceOne w s;
      match exit_event with
      | Some e => Ok (e, w, s)
      | None => doSimLoop fuel w s
      end
  end.

Fixpoint serviceEvents (fuel : nat) (until : Z) (w : W) (s : t) : res (W * t) :=
  match fuel with
  | O => Fail OutOfFuel
  | S fuel =>
      if bool_decide (head s = None) then Ok (w, setCurTick until s)
      else
        n ← nextTick s;
        if until <? n then Ok (w, setCurTick until s)
        else '(_, w, s) ← serviceOne w s; serviceEvents fuel until w s
  end.
End Service.

(** ** Traversal *)

(** The loops of [dump] and [debugVerify]: the events in the order of the queue. *)
Fixpoint stack (fuel : nat) (p : option nat) (h : gmap nat Event) : res (list nat) :=
  match p, fuel with
  | None, _ => Ok []
  | Some _, O => Fail OutOfFuel
  | Some p, S fuel => e ← deref (h !! p); l ← stack fuel (nextInBin e) h; Ok (p :: l)
  end.

Fixpoint stacks (fuel : nat) (p : option nat) (h : gmap nat Event) : res (list nat) :=
  match p, fuel with
  | None, _ => Ok []
  | Some _, O => Fail OutOfFuel
  | Some p, S fuel =>
      e ← deref (h !! p);
      l ← stack (size h) (Some p) h;
      ls ← stacks fuel (nextBin e) h;
      Ok (l ++ ls)
  end.

Definition dump (s : t) : res (list nat) := stacks (size (events s)) (head s) (events s).

(** One event of [debugVerify]: the tick, the priority and the addresses seen
    before; [None] is its result [false]. *)
Definition verify_event (h : gmap nat Event) (p : nat) (st : option (Z * Z * gset nat)) :
    res (option (Z * Z * gset nat)) :=
  match st with
  | None => Ok None
  | Some (time, prio, seen) =>
      e ← deref (h !! p);
      Ok (if when e <? time then None
          else if (when e =? time) && (priority e <? prio) then None
          else if bool_decide (p ∈ seen) then None
          else Some (when e, priority e, {[ p ]} ∪ seen))
  end.

Definition debugVerify (s : t) : res bool :=
  l ← dump s;
  st ← for_each l (verify_event (events s)) (Some (0, 0, ∅));
  Ok (bool_decide (is_Some st)).
End EventQueue.
