(* ===== verification/EventLinks.v ===== *)
(** * The links of the event queue

    The pointers of [EventQueue] represent a list of stacks: [linked] says that
    the heap holds the stacks [bs] from a head, that the events of a stack have
    the same tick and priority, and that these grow from stack to stack.  The
    lemmas show that the pointer surgery of [insert], [remove] and [pop] is an
    operation on the list of events [mjoin bs]. *)

From S2P Require Import Prelude Common EventQueue.

Module EventLinks.
Import EventQueue.
Implicit Types (h : gmap nat Event) (bs : list (list nat)).

(** ** Stacks and their tops *)

Fixpoint chain h (p : option nat) (l : list nat) : Prop :=
  match l with
  | [] => p = None
  | x :: l => p = Some x /\ exists e, h !! x = Some e /\ chain h (nextInBin e) l
  end.

(** The stacks from the pointer [a] up to the pointer [b]. *)
Fixpoint seg h (a : option nat) bs (b : option nat) : Prop :=
  match bs with
  | [] => a = b
  | s :: bs => exists x l e, s = x :: l /\ a = Some x /\ h !! x = Some e /\
      chain h (nextInBin e) l /\ seg h (nextBin e) bs b
  end.

Lemma chain_ext h h' p l :
  (forall x e, x ∈ l -> h !! x = Some e -> exists e', h' !! x = Some e' /\ nextInBin e' = nextInBin e) ->
  chain h p l -> chain h' p l.
Proof.
  revert p. induction l as [|x l IH]; intros p H; cbn; [done|]. intros (-> & e & He & Hc).
  split; [done|]. destruct (H x e) as (e' & ? & E); [set_solver|done|]. exists e'.
  split; [done|]. rewrite E. apply IH; [|done]. intros y f Hy. apply H. set_solver.
Qed.

Lemma seg_ext h h' a bs b :
  (forall x e, x ∈ mjoin bs -> h !! x = Some e ->
     exists e', h' !! x = Some e' /\ nextInBin e' = nextInBin e /\ nextBin e' = nextBin e) ->
  seg h a bs b -> seg h' a bs b.
Proof.
  revert a. induction bs as [|s bs IH]; intros a H; cbn; [done|].
  intros (x & l & e & -> & -> & He & Hc & Hs).
  destruct (H x e) as (e' & ? & E1 & E2); [set_solver|done|]. exists x, l, e'.
  rewrite E1, E2. repeat split; try done.
  - eapply chain_ext; [|done]. intros y f Hy Hf. destruct (H y f) as (? & ? & ? & ?); [set_solver|done|eauto].
  - apply IH; [|done]. intros y f Hy. apply H. set_solver.
Qed.

Lemma seg_off h a bs b x e : x ∉ mjoin bs -> seg h a bs b -> seg (<[x := e]> h) a bs b.
Proof.
  intros Hx. apply seg_ext. intros y f Hy Hf. exists f.
  rewrite lookup_insert_ne by (intros ->; done). done.
Qed.

Lemma seg_app h a bs1 bs2 b :
  seg h a (bs1 ++ bs2) b <-> exists c, seg h a bs1 c /\ seg h c bs2 b.
Proof.
  revert a. induction bs1 as [|s bs1 IH]; intros a; cbn; [naive_solver|].
  setoid_rewrite IH. naive_solver.
Qed.

Lemma chain_dom h p l x : chain h p l -> x ∈ l -> is_Some (h !! x).
Proof.
  revert p. induction l as [|y l IH]; cbn; intros p; [set_solver|].
  intros (_ & e & He & Hc) [->|Hx]%elem_of_cons; eauto.
Qed.

Lemma seg_dom h a bs b x : seg h a bs b -> x ∈ mjoin bs -> is_Some (h !! x).
Proof.
  revert a. induction bs as [|s bs IH]; cbn; intros a; [set_solver|].
  intros (y & l & e & -> & _ & He & Hc & Hs) [Hx|Hx]%elem_of_app; [|eauto].
  apply elem_of_cons in Hx as [->|Hx]; [eauto|by eapply chain_dom].
Qed.

(** The pointer that a non-empty list of stacks starts with. *)
Definition top (bs : list (list nat)) (b : option nat) : option nat :=
  match bs with
  | (x :: _) :: _ => Some x
  | _ => b
  end.

Lemma seg_top h a bs b : seg h a bs b -> a = top bs b.
Proof. destruct bs as [|s bs]; cbn; [done|]. by intros (x & l & e & -> & -> & _). Qed.

(** A new successor for the last stack of a segment. *)
Lemma seg_relink h a bs x l b b' e :
  NoDup (mjoin (bs ++ [x :: l])) -> h !! x = Some e ->
  seg h a (bs ++ [x :: l]) b -> seg (<[x := with_nextBin b' e]> h) a (bs ++ [x :: l]) b'.
Proof.
  intros Hnd He. rewrite !seg_app. intros (c & H1 & H2).
  rewrite join_app in Hnd. apply NoDup_app in Hnd as (_ & Hd & Hl).
  cbn in Hl. rewrite app_nil_r in Hl. apply NoDup_cons in Hl as [Hx _].
  exists c. split; [apply seg_off; [|done]; intros Hin; apply (Hd x Hin); set_solver|].
  cbn in H2. destruct H2 as (y & l' & f & [= <- <-] & -> & Hf & Hc & _).
  assert (f = e) as -> by congruence. exists x, l, (with_nextBin b' e).
  rewrite lookup_insert_eq. repeat split.
  eapply chain_ext; [|exact Hc]. intros y g Hy Hg. exists g.
  rewrite lookup_insert_ne by (intros ->; done). done.
Qed.

(** ** Keys *)

(** An event without its links. *)
Definition erase (e : Event) : Event := with_nextInBin None (with_nextBin None e).

Definition before (o : gmap nat Event) (p q : nat) : bool :=
  match o !! p, o !! q with
  | Some e, Some f => lt e f
  | _, _ => false
  end.

Lemma erase_with_nextBin p e : erase (with_nextBin p e) = erase e.
Proof. done. Qed.

Lemma fmap_erase_insert h p e f :
  h !! p = Some e -> erase f = erase e -> erase <$> <[p := f]> h = erase <$> h.
Proof.
  intros He Hf. rewrite fmap_insert, Hf. apply insert_id. by rewrite lookup_fmap, He.
Qed.

Lemma before_erase h p q : before (erase <$> h) p q = before h p q.
Proof. unfold before. rewrite !lookup_fmap. by destruct (h !! p), (h !! q). Qed.

Lemma lt_irrefl e : lt e e = false.
Proof. unfold lt. rewrite !Z.ltb_irrefl, andb_false_r. done. Qed.

Lemma lt_spec e f :
  lt e f = true <-> when e < when f \/ (when e = when f /\ priority e < priority f).
Proof. unfold lt. rewrite orb_true_iff, andb_true_iff, !Z.ltb_lt, Z.eqb_eq. done. Qed.

Lemma lt_false e f :
  lt e f = false <-> when f < when e \/ (when e = when f /\ priority f <= priority e).
Proof. rewrite <- not_true_iff_false, lt_spec. lia. Qed.

Lemma le_lt e f : le e f = negb (lt f e).
Proof.
  apply eq_true_iff_eq. rewrite negb_true_iff, lt_false. unfold le.
  rewrite orb_true_iff, andb_true_iff, Z.ltb_lt, Z.leb_le, Z.eqb_eq. lia.
Qed.

Lemma eq_lt e f : eq e f = negb (lt e f) && negb (lt f e).
Proof.
  apply eq_true_iff_eq. rewrite andb_true_iff, !negb_true_iff, !lt_false. unfold eq.
  rewrite andb_true_iff, !Z.eqb_eq. lia.
Qed.

Lemma ne_eq e f : ne e f = negb (eq e f).
Proof. unfold ne, eq. by rewrite negb_andb. Qed.

Lemma lt_trans e f g : lt e f = true -> lt f g = true -> lt e g = true.
Proof. rewrite !lt_spec. lia. Qed.

Lemma lt_le_trans e f g : lt e f = true -> lt g f = false -> lt e g = true.
Proof. rewrite !lt_spec, lt_false. lia. Qed.

Lemma le_lt_trans e f g : lt f e = false -> lt f g = true -> lt e g = true.
Proof. rewrite !lt_spec, lt_false. lia. Qed.

(** ** The represented list *)

Definition level (o : gmap nat Event) (b : list nat) : Prop :=
  b <> [] /\ forall x y, x ∈ b -> y ∈ b -> before o x y = false.
Definition below (o : gmap nat Event) (b b' : list nat) : Prop :=
  forall x y, x ∈ b -> y ∈ b' -> before o x y = true.

Record linked h (hd : option nat) bs : Prop := {
  linked_seg : seg h hd bs None;
  linked_level : Forall (level h) bs;
  linked_below : StronglySorted (below h) bs;
  linked_nodup : NoDup (mjoin bs)
}.

(** Where a new event goes: before the first event that is not before it. *)
Fixpoint enqueue (o : gmap nat Event) (p : nat) (l : list nat) : list nat :=
  match l with
  | [] => [p]
  | q :: l' => if before o q p then q :: enqueue o p l' else p :: l
  end.

Lemma enqueue_skip o p l1 l2 :
  (forall x, x ∈ l1 -> before o x p = true) -> enqueue o p (l1 ++ l2) = l1 ++ enqueue o p l2.
Proof.
  induction l1 as [|x l1 IH]; intros H; cbn; [done|].
  rewrite H, IH by set_solver. done.
Qed.

Lemma enqueue_perm o p l : enqueue o p l ≡ₚ p :: l.
Proof.
  induction l as [|x l IH]; cbn; [done|]. destruct (before o x p); [|done].
  rewrite IH. by rewrite Permutation_swap.
Qed.

Lemma before_ext o o' p q :
  (forall x e, x = p \/ x = q -> o !! x = Some e ->
     exists e', o' !! x = Some e' /\ when e' = when e /\ priority e' = priority e) ->
  is_Some (o !! p) -> is_Some (o !! q) -> before o' p q = before o p q.
Proof.
  intros H [e He] [f Hf]. unfold before.
  destruct (H p e) as (e' & -> & E1 & E2); [auto|done|].
  destruct (H q f) as (f' & -> & E3 & E4); [auto|done|].
  rewrite He, Hf. unfold lt. by rewrite E1, E2, E3, E4.
Qed.

(** An update that keeps links and keys of the events in the queue. *)
Lemma linked_ext h h' hd bs :
  (forall x e, x ∈ mjoin bs -> h !! x = Some e ->
     exists e', h' !! x = Some e' /\ nextInBin e' = nextInBin e /\ nextBin e' = nextBin e /\
       when e' = when e /\ priority e' = priority e) ->
  linked h hd bs -> linked h' hd bs.
Proof.
  intros H [Hs Hl Hb Hn].
  assert (forall x y, x ∈ mjoin bs -> y ∈ mjoin bs -> before h' x y = before h x y) as HB.
  { intros x y Hx Hy. apply before_ext; [|by eapply seg_dom..].
    intros z e Hz He. destruct (H z e) as (e' & ? & ? & ? & ? & ?); [naive_solver|done|eauto]. }
  assert (forall b x, b ∈ bs -> x ∈ b -> x ∈ mjoin bs) as Hm by
    (intros b x ? ?; apply list_elem_of_join; eauto).
  split; [| | |done].
  - eapply seg_ext; [|done]. intros x e Hx He. destruct (H x e) as (e' & ? & ? & ? & ? & ?); eauto.
  - rewrite Forall_forall in Hl |- *. intros b Hb'. destruct (Hl b Hb') as [? Hlb]. split; [done|].
    intros x y Hx Hy. rewrite HB by eauto. auto.
  - clear Hs Hl Hn H. induction Hb as [|b bs Hb IH Hf]; constructor.
    + apply IH; [|intros; apply list_elem_of_join; eauto].
      intros x y Hx Hy. apply HB; cbn; set_solver.
    + rewrite Forall_forall in Hf |- *. intros b' Hb' x y Hx Hy.
      rewrite HB by (eapply Hm; [|done]; set_solver). by eapply Hf.
Qed.

Lemma linked_update h hd bs p e e' :
  h !! p = Some e -> nextInBin e' = nextInBin e -> nextBin e' = nextBin e ->
  (p ∈ mjoin bs -> when e' = when e /\ priority e' = priority e) ->
  linked h hd bs -> linked (<[p := e']> h) hd bs.
Proof.
  intros He H1 H2 H3. apply linked_ext. intros x f Hx Hf.
  destruct (decide (p = x)) as [<-|Hne].
  - exists e'. rewrite lookup_insert_eq. assert (f = e) as -> by congruence. naive_solver.
  - exists f. by rewrite lookup_insert_ne.
Qed.

Lemma linked_size h hd bs : linked h hd bs -> (length (mjoin bs) <= size h)%nat.
Proof.
  intros [Hs _ _ Hn]. rewrite <- size_dom, <- (size_list_to_set (C := gset nat)) by done.
  apply subseteq_size. intros x. rewrite elem_of_list_to_set, elem_of_dom.
  intros Hx. by eapply seg_dom.
Qed.

Lemma linked_count h hd bs : linked h hd bs -> (length bs <= length (mjoin bs))%nat.
Proof.
  intros [_ Hl _ _]. induction Hl as [|b bs [Hb _] _ IH]; cbn; [done|].
  rewrite length_app. destruct b; [done|]. cbn. apply le_n_S. etrans; [exact IH|apply Nat.le_add_l].
Qed.


(** ** Insertion *)

(** [insertBefore] in front of the stacks [bs]. *)
Definition place (o : gmap nat Event) (p : nat) bs : list (list nat) :=
  match bs with
  | (x :: l) :: bs' => if before o p x then [p] :: bs else (p :: x :: l) :: bs'
  | _ => [p] :: bs
  end.

Lemma place_join o p bs : mjoin (place o p bs) = p :: mjoin bs.
Proof. destruct bs as [|[|x l] bs]; cbn; try done. by destruct (before o p x). Qed.

Lemma insertBefore_spec h p e c bs :
  h !! p = Some e -> p ∉ mjoin bs -> seg h c bs None ->
  exists e', insertBefore p c h = Ok (<[p := e']> h) /\ erase e' = erase e /\
    seg (<[p := e']> h) (Some p) (place h p bs) None.
Proof.
  intros He Hp Hs. destruct bs as [|s bs].
  - cbn in Hs. subst c. cbn. unfold update. rewrite He. cbn. eexists. split; [done|].
    split; [done|]. exists p, [], (with_nextInBin None (with_nextBin None e)).
    by rewrite lookup_insert_eq.
  - pose proof Hs as (x & l & f & -> & -> & Hf & Hc & Hs'). cbn. rewrite He, Hf. cbn.
    unfold before. rewrite He, Hf. unfold update. rewrite He. cbn.
    destruct (lt e f); cbn; eexists; (split; [done|]); (split; [done|]).
    + eexists p, [], _. rewrite lookup_insert_eq. repeat split.
      apply (seg_off _ _ ((x :: l) :: bs)); done.
    + eexists p, (x :: l), _. rewrite lookup_insert_eq. cbn in Hp.
      repeat split.
      * exists f. rewrite lookup_insert_ne by set_solver. split; [done|].
        eapply chain_ext; [|exact Hc]. intros y g Hy Hg. exists g.
        rewrite lookup_insert_ne by set_solver. done.
      * apply seg_off; [set_solver|done].
Qed.

(** What [walk] returns: the last stack whose events come before [e]. *)
Lemma walk_spec h e fuel x l f bs :
  seg h (Some x) ((x :: l) :: bs) None -> h !! x = Some f -> (length bs <= fuel)%nat ->
  exists bs1 y m bs2, (x :: l) :: bs = bs1 ++ (y :: m) :: bs2 /\
    walk fuel e x (nextBin f) h = Ok (y, top bs2 None) /\
    (y = x \/ forall g, h !! y = Some g -> lt g e = true) /\
    (forall z g, top bs2 None = Some z -> h !! z = Some g -> lt g e = false).
Proof.
  revert fuel x l f. induction bs as [|s bs IH]; intros fuel x l f Hs Hf Hl;
    destruct Hs as (? & ? & f' & [= <- <-] & _ & Hf' & _ & Hs);
    assert (f' = f) as -> by congruence.
  - cbn in Hs. exists [], x, l, []. rewrite Hs. destruct fuel; cbn; naive_solver.
  - pose proof Hs as (z & m & g & -> & E & Hg & _ & _). rewrite E.
    assert (forall k, walk k e x (Some z) h = if lt g e then
      match k with O => Fail OutOfFuel | S k => walk k e z (nextBin g) h end
      else Ok (x, Some z)) as W by (intros []; cbn; by rewrite Hg).
    rewrite W. destruct (lt g e) eqn:Elt.
    + destruct fuel as [|fuel]; [cbn in Hl; lia|].
      destruct (IH fuel z m g) as (bs1 & y & m' & bs2 & E2 & Ew & H1 & H2);
        [by rewrite <- E|done|cbn in Hl; lia|].
      exists ((x :: l) :: bs1), y, m', bs2. rewrite E2. split; [done|]. split; [done|].
      split; [|done]. right. intros g' Hy. destruct H1 as [->|]; [congruence|auto].
    + exists [], x, l, ((z :: m) :: bs). split; [done|]. split; [done|]. split; [by left|].
      intros z' g' [= <-] ?. congruence.
Qed.

(** Transitivity through an event of a stack. *)
Lemma before_level_l h b x y p :
  level h b -> x ∈ b -> y ∈ b -> is_Some (h !! x) -> before h y p = true -> before h x p = true.
Proof.
  intros [_ Hb] Hx Hy [f Hf]. specialize (Hb y x Hy Hx). revert Hb. unfold before. rewrite Hf.
  destruct (h !! y) as [g|], (h !! p) as [e|]; try done. apply le_lt_trans.
Qed.

Lemma before_level_r h b x y p :
  level h b -> x ∈ b -> y ∈ b -> is_Some (h !! x) -> before h p y = true -> before h p x = true.
Proof.
  intros [_ Hb] Hx Hy [f Hf]. specialize (Hb x y Hx Hy). revert Hb. unfold before. rewrite Hf.
  destruct (h !! y) as [g|], (h !! p) as [e|]; try done. intros H1 H2. by eapply lt_le_trans.
Qed.

Lemma before_trans h x y z : before h x y = true -> before h y z = true -> before h x z = true.
Proof. unfold before. destruct (h !! x), (h !! y), (h !! z); try done. apply lt_trans. Qed.

Lemma below_join h bs1 b bs2 x y :
  StronglySorted (below h) (bs1 ++ b :: bs2) -> x ∈ mjoin bs1 -> y ∈ b -> before h x y = true.
Proof.
  induction bs1 as [|b1 bs1 IH]; cbn; [set_solver|].
  intros Hs [Hx|Hx]%elem_of_app Hy; apply StronglySorted_inv in Hs as [Hs Hf]; [|auto].
  rewrite Forall_forall in Hf. eapply Hf; [|done..]. set_solver.
Qed.


Lemma before_same h h' p q : erase <$> h' = erase <$> h -> before h' p q = before h p q.
Proof. intros E. by rewrite <- before_erase, E, before_erase. Qed.

(** Links may change as long as the stacks stay: the keys do not. *)
Lemma linked_same h h' hd bs :
  erase <$> h' = erase <$> h -> seg h' hd bs None ->
  Forall (level h) bs -> StronglySorted (below h) bs -> NoDup (mjoin bs) -> linked h' hd bs.
Proof.
  intros E Hs Hl Hb Hn. split; [done| | |done].
  - eapply Forall_impl; [exact Hl|]. intros b [? H]. split; [done|]. intros x y ? ?.
    rewrite (before_same h h') by done. auto.
  - clear Hs Hl Hn. induction Hb as [|b bs Hb IH Hf]; constructor; [done|].
    eapply Forall_impl; [exact Hf|]. intros b' H x y ? ?. rewrite (before_same h h') by done. auto.
Qed.

Lemma sorted_app h bs1 bs2 :
  StronglySorted (below h) bs1 -> StronglySorted (below h) bs2 ->
  (forall x y, x ∈ mjoin bs1 -> y ∈ mjoin bs2 -> before h x y = true) ->
  StronglySorted (below h) (bs1 ++ bs2).
Proof.
  intros H1 H2 H. induction H1 as [|b bs1 H1 IH Hf]; cbn; [done|]. constructor.
  - apply IH. intros x y ? ?. apply H; [cbn; set_solver|done].
  - apply Forall_app. split; [done|]. apply Forall_forall. intros b' Hb' x y Hx Hy.
    apply H; [cbn; set_solver|]. apply list_elem_of_join. eauto.
Qed.

Lemma sorted_app_inv h bs1 bs2 :
  StronglySorted (below h) (bs1 ++ bs2) ->
  StronglySorted (below h) bs1 /\ StronglySorted (below h) bs2 /\
  (forall x y, x ∈ mjoin bs1 -> y ∈ mjoin bs2 -> before h x y = true).
Proof.
  induction bs1 as [|b bs1 IH]; cbn; intros H; [repeat split; [constructor|done|set_solver]|].
  apply StronglySorted_inv in H as [H Hf]. destruct (IH H) as (H1 & H2 & H3).
  apply Forall_app in Hf as [Hf1 Hf2]. split; [by constructor|]. split; [done|].
  intros x y [Hx|Hx]%elem_of_app Hy; [|auto].
  apply list_elem_of_join in Hy as (b' & Hy & Hb'). rewrite Forall_forall in Hf2. by eapply Hf2.
Qed.

Lemma before_irrefl h x : before h x x = false.
Proof. unfold before. destruct (h !! x); [apply lt_irrefl|done]. Qed.

Lemma before_total h x y :
  is_Some (h !! x) -> is_Some (h !! y) -> before h x y = false -> before h y x = false ->
  forall z, before h x z = before h y z /\ before h z x = before h z y.
Proof.
  intros [e He] [f Hf]. unfold before. rewrite He, Hf. intros H1 H2 z.
  destruct (h !! z) as [g|]; [|done]. apply lt_false in H1, H2.
  unfold lt. assert (when e = when f) as -> by lia. assert (priority e = priority f) as -> by lia. done.
Qed.

Lemma place_levels h p bs :
  is_Some (h !! p) -> (forall x, x ∈ mjoin bs -> is_Some (h !! x)) ->
  Forall (level h) bs -> StronglySorted (below h) bs ->
  (forall z, top bs None = Some z -> before h z p = false) ->
  Forall (level h) (place h p bs) /\ StronglySorted (below h) (place h p bs).
Proof.
  intros Hp Hd Hl Hb Ht.
  assert (level h [p]) as Hlp by (split; [done|]; intros x y ->%list_elem_of_singleton
    ->%list_elem_of_singleton; apply before_irrefl).
  destruct bs as [|[|x l] bs]; cbn.
  - split; [by apply Forall_singleton|repeat constructor].
  - inversion_clear Hl as [|? ? [? _] _]. done.
  - specialize (Ht x eq_refl). apply Forall_cons in Hl as [Hxl Hl].
    pose proof (StronglySorted_inv Hb) as [Hb' Hf].
    destruct (before h p x) eqn:E.
    + split; [constructor; [done|by constructor]|]. apply (sorted_app h [[p]]); [repeat constructor|done|].
      intros y z ->%list_elem_of_singleton Hz. change (z ∈ (x :: l) ++ mjoin bs) in Hz.
      pose proof (Hd z Hz) as Hdz. apply elem_of_app in Hz as [Hz|Hz].
      * apply (before_level_r h (x :: l) z x); [done|done|set_solver|done|done].
      * eapply before_trans; [exact E|]. apply list_elem_of_join in Hz as (b' & Hz & Hb2).
        rewrite Forall_forall in Hf. eapply Hf; [done|set_solver|done].
    + assert (is_Some (h !! x)) as Hx by (apply Hd; cbn; set_solver).
      pose proof (before_total h p x Hp Hx E Ht) as Heq.
      assert (forall y, y ∈ p :: x :: l -> exists y', y' ∈ x :: l /\
        forall z, before h y z = before h y' z /\ before h z y = before h z y') as Hs.
      { intros y [->|Hy]%elem_of_cons; [exists x; split; [set_solver|done]|exists y; done]. }
      split; constructor; try done.
      * split; [done|]. intros y z (y' & Hy' & Ey)%Hs (z' & Hz' & Ez)%Hs.
        rewrite (proj1 (Ey z)), (proj2 (Ez y')). by apply Hxl.
      * eapply Forall_impl; [exact Hf|]. intros b Hlb y z (y' & Hy' & Ey)%Hs Hz.
        rewrite (proj1 (Ey z)). by apply Hlb.
Qed.


#[local] Arguments insertBefore : simpl never.

Lemma place_linked h h' hd hd' p bs1 bs2 :
  linked h hd (bs1 ++ bs2) -> is_Some (h !! p) -> p ∉ mjoin (bs1 ++ bs2) ->
  (forall x, x ∈ mjoin bs1 -> before h x p = true) ->
  (forall z, top bs2 None = Some z -> before h z p = false) ->
  erase <$> h' = erase <$> h -> seg h' hd' (bs1 ++ place h p bs2) None ->
  linked h' hd' (bs1 ++ place h p bs2) /\
  mjoin (bs1 ++ place h p bs2) = enqueue h p (mjoin (bs1 ++ bs2)).
Proof.
  intros [Hs Hl Hb Hn] Hp Hnp H1 H2 E Hs'.
  assert (mjoin (bs1 ++ place h p bs2) = mjoin bs1 ++ p :: mjoin bs2) as EJ
    by (by rewrite join_app, place_join).
  apply sorted_app_inv in Hb as (Hb1 & Hb2 & Hb3). apply Forall_app in Hl as [Hl1 Hl2].
  assert (forall x, x ∈ mjoin bs2 -> is_Some (h !! x)) as Hd
    by (intros x Hx; eapply seg_dom; [exact Hs|]; rewrite join_app; set_solver).
  destruct (place_levels h p bs2) as [Hl3 Hb4]; try done.
  assert (forall y, y ∈ mjoin bs2 -> before h y p = false) as Hnb.
  { intros y Hy. destruct (before h y p) eqn:Ey; [|done]. exfalso.
    destruct bs2 as [|[|z l] bs2]; [set_solver|inversion_clear Hl2 as [|? ? [? _] _]; done|].
    assert (before h z p = false) as Hz by (by apply H2). revert Hz. apply not_false_iff_true.
    change (y ∈ (z :: l) ++ mjoin bs2) in Hy. apply elem_of_app in Hy as [Hy|Hy].
    - apply Forall_cons in Hl2 as [Hl2 _].
      apply (before_level_l h (z :: l) z y); [done|set_solver|done|apply Hd; cbn; set_solver|done].
    - eapply before_trans; [|exact Ey]. apply StronglySorted_inv in Hb2 as [_ Hf].
      apply list_elem_of_join in Hy as (b & Hy & Hbb). rewrite Forall_forall in Hf.
      eapply Hf; [done|set_solver|done]. }
  rewrite EJ. split.
  - apply (linked_same h); [done|done|by apply Forall_app| |].
    + apply sorted_app; [done|done|]. rewrite place_join. intros x y Hx [->|Hy]%elem_of_cons; auto.
    + rewrite EJ. rewrite join_app in Hn, Hnp. rewrite Permutation_app_comm. cbn.
      rewrite NoDup_cons, Permutation_app_comm. set_solver.
  - rewrite join_app, enqueue_skip by done. f_equal. destruct (mjoin bs2) as [|y l]; [done|].
    cbn. rewrite Hnb by set_solver. done.
Qed.

(** The event goes between the stacks up to [y :: m] and the stacks [bs2]. *)
Lemma insert_after h hd t p e bs1 y m bs2 :
  linked h hd (bs1 ++ (y :: m) :: bs2) -> h !! p = Some e -> p ∉ mjoin (bs1 ++ (y :: m) :: bs2) ->
  (forall g, h !! y = Some g -> lt g e = true) ->
  (forall z g, top bs2 None = Some z -> h !! z = Some g -> lt g e = false) ->
  exists h' hd' bs',
    (h ← insertBefore p (top bs2 None) h; h ← update y (with_nextBin (Some p)) h;
     Ok (mk h hd t)) = Ok (mk h' hd' t) /\
    erase <$> h' = erase <$> h /\ linked h' hd' bs' /\
    mjoin bs' = enqueue h p (mjoin (bs1 ++ (y :: m) :: bs2)).
Proof.
  intros HL He Hp H1 H2. pose proof HL as [Hs Hl Hb Hn].
  replace (bs1 ++ (y :: m) :: bs2) with ((bs1 ++ [y :: m]) ++ bs2) in * by (by rewrite <- app_assoc).
  rewrite join_app in Hp, Hn. apply seg_app in Hs as (c & Hs1 & Hs2).
  pose proof (seg_top _ _ _ _ Hs2) as ->. apply NoDup_app in Hn as (Hn1 & Hn2 & Hn3).
  destruct (insertBefore_spec h p e _ bs2 He ltac:(set_solver) Hs2) as (e1 & -> & Er1 & Hs3).
  assert (y ∈ mjoin (bs1 ++ [y :: m])) as Hy by (rewrite join_app; cbn; set_solver).
  destruct (seg_dom _ _ _ _ y Hs1 Hy) as [g Hg]. cbn. unfold update.
  assert (p <> y) as Hne by set_solver. rewrite lookup_insert_ne, Hg by done. cbn.
  eexists _, _, ((bs1 ++ [y :: m]) ++ place h p bs2). split; [done|].
  assert (erase <$> <[y := with_nextBin (Some p) g]> (<[p := e1]> h) = erase <$> h) as E.
  { rewrite (fmap_erase_insert _ _ g); [by eapply fmap_erase_insert| |done].
    by rewrite lookup_insert_ne. }
  split; [done|].
  apply (place_linked h _ hd hd p (bs1 ++ [y :: m]) bs2); try done; [by rewrite join_app| | |].
  - intros x Hx. assert (before h y p = true) as Hyp by (unfold before; rewrite Hg, He; auto).
    rewrite join_app in Hx. cbn in Hx. rewrite app_nil_r in Hx. apply elem_of_app in Hx as [Hx|Hx].
    + rewrite <- app_assoc in Hb. eapply before_trans; [|exact Hyp].
      eapply below_join; [exact Hb|done|set_solver].
    + rewrite !Forall_app, Forall_singleton in Hl. destruct Hl as [[_ Hl] _].
      eapply (before_level_l h (y :: m) x y); [done|done|set_solver| |done].
      eapply seg_dom; [exact Hs1|]. rewrite join_app. cbn. set_solver.
  - intros z Hz. unfold before. rewrite He. destruct (h !! z) eqn:Ez; [eauto|done].
  - apply seg_app. exists (Some p). split.
    + eapply seg_relink; [done|by rewrite lookup_insert_ne|]. apply seg_off; [set_solver|done].
    + apply seg_off; [|done]. rewrite place_join. set_solver.
Qed.

(** [EventQueue::insert] adds the event in front of the first that is not before it. *)
Lemma insert_spec h hd t bs p e :
  linked h hd bs -> h !! p = Some e -> p ∉ mjoin bs ->
  exists h' hd' bs', insert p (mk h hd t) = Ok (mk h' hd' t) /\ erase <$> h' = erase <$> h /\
    linked h' hd' bs' /\ mjoin bs' = enqueue h p (mjoin bs).
Proof.
  intros HL He Hp. pose proof HL as [Hs Hl Hb Hn]. unfold insert. cbn. rewrite He. cbn.
  assert (exists e', insertBefore p hd h = Ok (<[p := e']> h) /\ erase e' = erase e /\
    seg (<[p := e']> h) (Some p) (place h p bs) None) as (e0 & E0 & Er0 & Hs0)
    by (by apply insertBefore_spec).
  assert ((forall z, top bs None = Some z -> before h z p = false) ->
    exists h' hd' bs', (h ← insertBefore p hd h; Ok (mk h (Some p) t)) = Ok (mk h' hd' t) /\
      erase <$> h' = erase <$> h /\ linked h' hd' bs' /\ mjoin bs' = enqueue h p (mjoin bs)) as Hfront.
  { intros Ht. rewrite E0. cbn. eexists _, _, (place h p bs). split; [done|].
    assert (erase <$> <[p := e0]> h = erase <$> h) as E by by eapply fmap_erase_insert.
    split; [done|]. apply (place_linked h _ hd _ p [] bs); try done. set_solver. }
  pose proof (seg_top _ _ _ _ Hs) as ->. destruct bs as [|[|x l] bs]; cbn [top] in *.
  - apply Hfront. done.
  - inversion_clear Hl as [|? ? [? _] _]. done.
  - pose proof Hs as (? & ? & f & [= <- <-] & _ & Hf & Hc & Hs'). rewrite Hf.
    cbn [mbind res_bind deref]. rewrite le_lt. destruct (lt f e) eqn:Elt; cbn [negb].
    2: { apply Hfront. intros z [= <-]. unfold before. by rewrite Hf, He. }
    clear Hfront E0 Hs0 Er0. pose proof (linked_size _ _ _ HL). pose proof (linked_count _ _ _ HL).
    destruct (walk_spec h e (size h) x l f bs) as (bs1 & y & m & bs2 & EB & Ew & H1 & H2);
      [done|done|cbn [length] in *; lia|]. rewrite Ew. cbn [mbind res_bind].
    rewrite EB in *. apply (insert_after _ _ _ _ e); try done.
    + intros g Hg. destruct H1 as [->|H1]; [congruence|auto].
Qed.


(** ** Removal *)

Definition dequeue (p : nat) (l : list nat) : list nat := filter (fun x => x <> p) l.

Lemma dequeue_cons_eq p l : dequeue p (p :: l) = dequeue p l.
Proof. unfold dequeue. by rewrite filter_cons_False by naive_solver. Qed.

Lemma dequeue_cons_ne p x l : x <> p -> dequeue p (x :: l) = x :: dequeue p l.
Proof. intros H. unfold dequeue. by rewrite filter_cons_True. Qed.

Lemma dequeue_id p l : p ∉ l -> dequeue p l = l.
Proof.
  induction l as [|x l IH]; intros H; [done|].
  rewrite dequeue_cons_ne, IH by set_solver. done.
Qed.

Lemma elem_of_dequeue p x l : x ∈ dequeue p l <-> x ∈ l /\ x <> p.
Proof. unfold dequeue. rewrite list_elem_of_filter. naive_solver. Qed.

Lemma unlink_spec h p fuel c l :
  chain h (Some c) (c :: l) -> NoDup (c :: l) -> p ∈ l -> (length l <= S fuel)%nat ->
  exists ec z ez q, h !! c = Some ec /\ z ∈ c :: l /\ h !! z = Some ez /\
    unlink fuel p c (nextInBin ec) h = Ok (<[z := with_nextInBin q ez]> h) /\
    chain (<[z := with_nextInBin q ez]> h) (Some c) (c :: dequeue p l).
Proof.
  revert fuel c. induction l as [|n l IH]; intros fuel c Hc Hn Hp Hl; [set_solver|].
  destruct Hc as (_ & ec & Hec & Hc). pose proof Hc as (E & en & Hen & Hcn).
  apply NoDup_cons in Hn as [Hcn' Hn]. exists ec.
  assert (forall k, unlink k p c (nextInBin ec) h =
    if (p =? n)%nat then Ok (<[c := with_nextInBin (nextInBin en) ec]> h)
    else match k with O => Fail OutOfFuel | S k => unlink k p n (nextInBin en) h end) as U.
  { intros k. rewrite E. destruct k; cbn; rewrite Hen; cbn; unfold update; rewrite Hec; done. }
  destruct (decide (p = n)) as [->|Hpn].
  - exists c, ec, (nextInBin en). rewrite U, Nat.eqb_refl. repeat split; [done|set_solver|done|].
    exists (with_nextInBin (nextInBin en) ec). rewrite lookup_insert_eq. split; [done|].
    apply NoDup_cons in Hn as [Hnl Hn]. rewrite dequeue_cons_eq, dequeue_id by done.
    eapply chain_ext; [|exact Hcn]. intros y g Hy Hg. exists g.
    rewrite lookup_insert_ne by set_solver. done.
  - destruct fuel as [|fuel].
    { cbn in Hl. destruct l; [set_solver|cbn in Hl; lia]. }
    destruct (IH fuel n) as (en' & z & ez & q & Hen' & Hz & Hez & Eu & Hch);
      [rewrite <- E; done|done|set_solver|cbn in Hl; lia|].
    assert (en' = en) as -> by congruence.
    exists z, ez, q. rewrite U, (proj2 (Nat.eqb_neq p n) Hpn), Eu.
    rewrite dequeue_cons_ne by done. repeat split; [done|set_solver|done|].
    exists ec. rewrite lookup_insert_ne by set_solver. rewrite E. done.
Qed.

(** A stack without an event of it; an empty stack is dropped. *)
Definition shrink (p : nat) (b : list nat) : list (list nat) :=
  match dequeue p b with
  | [] => []
  | b' => [b']
  end.

Lemma shrink_join p b : mjoin (shrink p b) = dequeue p b.
Proof. unfold shrink. destruct (dequeue p b) as [|x l]; cbn; [done|]. by rewrite app_nil_r. Qed.

Lemma removeItem_spec h p x l bs :
  seg h (Some x) ((x :: l) :: bs) None -> NoDup (mjoin ((x :: l) :: bs)) -> p ∈ x :: l ->
  exists h' c, removeItem p x h = Ok (h', c) /\ erase <$> h' = erase <$> h /\
    seg h' c (shrink p (x :: l) ++ bs) None /\ (forall y, y ∉ x :: l -> h' !! y = h !! y).
Proof.
  intros Hs Hn Hp. pose proof Hs as (? & ? & e & [= <- <-] & _ & He & Hc & Hs').
  change (mjoin ((x :: l) :: bs)) with ((x :: l) ++ mjoin bs) in Hn.
  apply NoDup_app in Hn as (Hn & Hd & Hn2). pose proof (proj1 (NoDup_cons _ _) Hn) as [Hxl Hnl].
  unfold removeItem. rewrite He. cbn. unfold shrink.
  destruct (decide (p = x)) as [->|Hpx].
  - rewrite Nat.eqb_refl, dequeue_cons_eq, dequeue_id by done. destruct l as [|n l].
    + rewrite Hc. eexists h, _. done.
    + destruct Hc as (-> & en & Hen & Hc). unfold update. rewrite Hen. cbn.
      apply NoDup_cons in Hnl as [Hnl _].
      eexists _, _. split; [done|]. split; [by eapply fmap_erase_insert|]. split.
      * eexists n, l, _. rewrite lookup_insert_eq. repeat split.
        -- eapply chain_ext; [|exact Hc]. intros y g Hy Hg. exists g.
           rewrite lookup_insert_ne by set_solver. done.
        -- apply seg_off; [|done]. intros ?. apply (Hd n); set_solver.
      * intros y Hy. by rewrite lookup_insert_ne by set_solver.
  - rewrite (proj2 (Nat.eqb_neq p x) Hpx), dequeue_cons_ne by done.
    destruct (unlink_spec h p (size h) x l) as (e' & z & ez & q & He' & Hz & Hez & Eu & Hch);
      [split; [done|eauto]|done|set_solver| |].
    { assert (length (x :: l) <= size h)%nat; [|cbn in *; lia].
      rewrite <- size_dom, <- (size_list_to_set (C := gset nat)) by done.
      apply subseteq_size. intros y. rewrite elem_of_list_to_set, elem_of_dom.
      intros Hy. eapply seg_dom; [exact Hs|]. cbn. set_solver. }
    assert (e' = e) as -> by congruence. rewrite Eu. cbn.
    eexists _, _. split; [done|]. split; [by eapply fmap_erase_insert|]. split.
    + destruct Hch as (_ & ex & Hex & Hch). exists x, (dequeue p l), ex.
      repeat split; [done|done|].
      assert (nextBin ex = nextBin e) as ->.
      { destruct (decide (z = x)) as [->|].
        - rewrite lookup_insert_eq in Hex. assert (ez = e) as -> by congruence. by injection Hex as <-.
        - rewrite lookup_insert_ne in Hex by done. congruence. }
      apply seg_off; [|done]. intros ?. by apply (Hd z).
    + intros y Hy. by rewrite lookup_insert_ne by set_solver.
Qed.


Lemma dequeue_app p l1 l2 : dequeue p (l1 ++ l2) = dequeue p l1 ++ dequeue p l2.
Proof. apply filter_app. Qed.

Lemma shrink_linked h h' hd hd' p bs1 b bs2 :
  linked h hd (bs1 ++ b :: bs2) -> p ∈ b -> erase <$> h' = erase <$> h ->
  seg h' hd' (bs1 ++ shrink p b ++ bs2) None ->
  linked h' hd' (bs1 ++ shrink p b ++ bs2) /\
  mjoin (bs1 ++ shrink p b ++ bs2) = dequeue p (mjoin (bs1 ++ b :: bs2)).
Proof.
  intros [Hs Hl Hb Hn] Hp E Hs'.
  change (b :: bs2) with ([b] ++ bs2) in *. rewrite !join_app in Hn.
  apply sorted_app_inv in Hb as (Hb1 & Hb & Hb2). apply sorted_app_inv in Hb as (_ & Hb3 & Hb4).
  apply Forall_app in Hl as [Hl1 Hl2]. apply Forall_app in Hl2 as [Hl2 Hl3].
  rewrite Forall_singleton in Hl2.
  assert (mjoin [b] = b) as Eb by (cbn; apply app_nil_r). rewrite Eb in *.
  rewrite join_app, Eb in Hb2. apply NoDup_app in Hn as (Hn1 & Hd1 & Hn).
  pose proof Hn as (Hn2 & Hd2 & Hn3)%NoDup_app.
  assert (mjoin (bs1 ++ shrink p b ++ bs2) = dequeue p (mjoin (bs1 ++ [b] ++ bs2))) as EJ.
  { rewrite !join_app, shrink_join, !dequeue_app, Eb. rewrite (dequeue_id p (mjoin bs1)), (dequeue_id p (mjoin bs2));
      [done| |]; intros ?; [by apply (Hd2 p)|apply (Hd1 p); set_solver]. }
  split; [|done]. apply (linked_same h); [done|done| | |].
  - rewrite !Forall_app. repeat split; try done. unfold shrink.
    destruct (dequeue p b) as [|x l] eqn:Ed; [constructor|]. apply Forall_singleton. split; [done|].
    intros y z Hy Hz. rewrite <- Ed in Hy, Hz. apply elem_of_dequeue in Hy as [Hy _], Hz as [Hz _].
    by apply Hl2.
  - apply sorted_app; [done|apply sorted_app; [|done|]|].
    + unfold shrink. destruct (dequeue p b); repeat constructor.
    + rewrite shrink_join. intros x y [Hx _]%elem_of_dequeue. auto.
    + rewrite join_app, shrink_join. intros x y Hx [[Hy _]%elem_of_dequeue|Hy]%elem_of_app;
        apply Hb2; set_solver.
  - rewrite EJ. unfold dequeue. apply NoDup_filter. rewrite !join_app, Eb. by apply NoDup_app.
Qed.

(** The stack of an event, found by its key. *)
Lemma find_stack h hd bs1 y m bs2 p e :
  linked h hd (bs1 ++ (y :: m) :: bs2) -> h !! p = Some e -> p ∈ mjoin (bs1 ++ (y :: m) :: bs2) ->
  (forall g, h !! y = Some g -> lt g e = true) ->
  (forall z g, top bs2 None = Some z -> h !! z = Some g -> lt g e = false) ->
  exists z k bs3, bs2 = (z :: k) :: bs3 /\ p ∈ z :: k.
Proof.
  intros [Hs Hl Hb Hn] He Hp H1 H2.
  assert (forall x, x ∈ mjoin (bs1 ++ (y :: m) :: bs2) -> is_Some (h !! x)) as Hd
    by (intros x Hx; by eapply seg_dom).
  assert (before h y p = true) as Hyp.
  { unfold before. rewrite He. destruct (Hd y) as [g Hg]; [rewrite join_app; cbn; set_solver|].
    rewrite Hg. auto. }
  rewrite join_app in Hp. apply elem_of_app in Hp as [Hp|Hp].
  { exfalso. assert (before h p y = true) as H by (eapply below_join; [exact Hb|done|set_solver]).
    rewrite <- not_false_iff_true in H. apply H. destruct (before h p y) eqn:E; [|done].
    rewrite <- (before_irrefl h p). symmetry. by eapply before_trans. }
  change (p ∈ (y :: m) ++ mjoin bs2) in Hp. apply elem_of_app in Hp as [Hp|Hp].
  { exfalso. rewrite Forall_app, Forall_cons in Hl. destruct Hl as [_ [[_ Hl] _]].
    rewrite Hl in Hyp; [done|set_solver|done]. }
  apply sorted_app_inv in Hb as (_ & Hb & _). apply StronglySorted_inv in Hb as [Hb _].
  rewrite Forall_app, !Forall_cons in Hl. destruct Hl as [_ [_ Hl]].
  destruct bs2 as [|[|z k] bs3]; [set_solver|inversion_clear Hl as [|? ? [? _] _]; done|].
  exists z, k, bs3. split; [done|]. change (p ∈ (z :: k) ++ mjoin bs3) in Hp.
  apply elem_of_app in Hp as [Hp|Hp]; [done|]. exfalso.
  apply StronglySorted_inv in Hb as [_ Hf]. apply list_elem_of_join in Hp as (b & Hp & Hbb).
  rewrite Forall_forall in Hf. assert (before h z p = true) as Hz by (eapply Hf; [done|set_solver|done]).
  revert Hz. unfold before. rewrite He. destruct (h !! z) as [g|] eqn:Eg; [|done].
  by rewrite (H2 z g eq_refl Eg).
Qed.

(** The event leaves a stack that follows [y :: m]. *)
Lemma remove_after h hd t p e bs1 y m bs2 :
  linked h hd (bs1 ++ (y :: m) :: bs2) -> h !! p = Some e -> p ∈ mjoin (bs1 ++ (y :: m) :: bs2) ->
  (forall g, h !! y = Some g -> lt g e = true) ->
  (forall z g, top bs2 None = Some z -> h !! z = Some g -> lt g e = false) ->
  exists h' hd' bs',
    match top bs2 None with
    | None => Fail Panic
    | Some c =>
        ec ← deref (h !! c); panic_if (ne ec e) ;;
        '(h, top) ← removeItem p c h; h ← update y (with_nextBin top) h; Ok (mk h hd t)
    end = Ok (mk h' hd' t) /\
    erase <$> h' = erase <$> h /\ linked h' hd' bs' /\
    mjoin bs' = dequeue p (mjoin (bs1 ++ (y :: m) :: bs2)).
Proof.
  intros HL He Hp H1 H2.
  destruct (find_stack _ _ _ _ _ _ _ _ HL He Hp H1 H2) as (z & k & bs3 & -> & Hpz).
  pose proof HL as [Hs Hl Hb Hn]. cbn [top].
  replace (bs1 ++ (y :: m) :: (z :: k) :: bs3) with ((bs1 ++ [y :: m]) ++ (z :: k) :: bs3) in *
    by (by rewrite <- app_assoc).
  apply seg_app in Hs as (c & Hs1 & Hs2). pose proof (seg_top _ _ _ _ Hs2) as ->. cbn [top] in *.
  rewrite join_app in Hn. apply NoDup_app in Hn as (Hn1 & Hd & Hn2).
  pose proof Hs2 as (? & ? & ez & [= <- <-] & _ & Hez & _ & _). rewrite Hez. cbn [mbind res_bind deref].
  assert (ne ez e = false) as ->.
  { apply Forall_app in Hl as [_ Hl]. apply Forall_cons in Hl as [[_ Hl] _].
    pose proof (Hl z p ltac:(set_solver) Hpz) as A1. pose proof (Hl p z Hpz ltac:(set_solver)) as A2.
    unfold before in A1, A2. rewrite He, Hez in A1, A2. by rewrite ne_eq, eq_lt, A1, A2. }
  cbn [panic_if mbind res_bind].
  destruct (removeItem_spec h p z k bs3) as (h' & c & -> & E & Hs3 & Hoff); [done..|].
  cbn [mbind res_bind]. unfold update.
  assert (y ∈ mjoin (bs1 ++ [y :: m])) as Hy by (rewrite join_app; cbn; set_solver).
  destruct (seg_dom _ _ _ _ y Hs1 Hy) as [g Hg].
  assert (forall x, x ∈ mjoin (bs1 ++ [y :: m]) -> h' !! x = h !! x) as Hoff1.
  { intros x Hx. apply Hoff. intros Hz. apply (Hd x Hx). cbn. set_solver. }
  rewrite Hoff1, Hg by done. cbn [mbind res_bind deref].
  eexists _, _, ((bs1 ++ [y :: m]) ++ shrink p (z :: k) ++ bs3). split; [done|].
  assert (erase <$> <[y := with_nextBin c g]> h' = erase <$> h) as E'.
  { rewrite <- E. apply (fmap_erase_insert _ _ g); [by rewrite Hoff1|done]. }
  split; [done|]. apply (shrink_linked h _ hd hd); [done..|]. apply seg_app. exists c. split.
  - eapply seg_relink; [done|by rewrite Hoff1|]. eapply seg_ext; [|exact Hs1].
    intros x ex Hx Hex. exists ex. by rewrite Hoff1.
  - apply seg_off; [|done]. rewrite join_app, shrink_join. intros [Hx|Hx]%elem_of_app.
    + apply elem_of_dequeue in Hx as [Hx _]. apply (Hd y Hy). cbn. set_solver.
    + apply (Hd y Hy). cbn. set_solver.
Qed.

(** [EventQueue::remove] takes the event out of the queue. *)
Lemma remove_spec h hd t bs p :
  linked h hd bs -> p ∈ mjoin bs ->
  exists h' hd' bs', remove p (mk h hd t) = Ok (mk h' hd' t) /\ erase <$> h' = erase <$> h /\
    linked h' hd' bs' /\ mjoin bs' = dequeue p (mjoin bs).
Proof.
  intros HL Hp. pose proof HL as [Hs Hl Hb Hn].
  destruct (seg_dom _ _ _ _ p Hs Hp) as [e He]. unfold remove. cbn [head events curTick].
  pose proof (seg_top _ _ _ _ Hs) as ->. destruct bs as [|[|x l] bs].
  - set_solver.
  - inversion_clear Hl as [|? ? [? _] _]. done.
  - pose proof Hs as (? & ? & f & [= <- <-] & _ & Hf & Hc & Hs'). cbn [top] in *.
    rewrite He, Hf. cbn [mbind res_bind deref].
    destruct (decide (p ∈ x :: l)) as [Hpx|Hpx].
    + assert (eq f e = true) as ->.
      { apply Forall_cons in Hl as [[_ Hl] _]. pose proof (Hl p x Hpx ltac:(set_solver)) as H1.
        pose proof (Hl x p ltac:(set_solver) Hpx) as H2. unfold before in H1, H2.
        rewrite He, Hf in H1, H2. by rewrite eq_lt, H1, H2. }
      destruct (removeItem_spec h p x l bs) as (h' & c & -> & E & Hs2 & _); [done..|].
      cbn [mbind res_bind]. eexists _, _, (shrink p (x :: l) ++ bs). split; [done|]. split; [done|].
      apply (shrink_linked h _ (Some x) _ p []); done.
    + assert (lt f e = true) as Hlt.
      { change (p ∈ (x :: l) ++ mjoin bs) in Hp. apply elem_of_app in Hp as [?|Hp]; [done|].
        assert (before h x p = true) as H; [|unfold before in H; by rewrite Hf, He in H].
        eapply (sorted_app_inv h [x :: l] bs); [done| |done]. cbn. set_solver. }
      rewrite eq_lt, Hlt. cbn [negb andb].
      pose proof (linked_size _ _ _ HL). pose proof (linked_count _ _ _ HL).
      destruct (walk_spec h e (size h) x l f bs) as (bs1 & y & m & bs2 & EB & Ew & H1 & H2);
        [done|done|cbn [length] in *; lia|]. rewrite Ew. cbn [mbind res_bind].
      rewrite EB in *. apply (remove_after _ _ _ _ e); try done.
      intros g Hg. destruct H1 as [->|H1]; [congruence|auto].
Qed.


(** The first part of [serviceOne] takes the first event out of the queue. *)
Lemma pop_spec h hd t bs p l e :
  linked h hd bs -> mjoin bs = p :: l -> h !! p = Some e ->
  let e' := with_flags (unset_flag (flags e) Scheduled) e in
  exists h' hd' bs', pop (mk h hd t) = Ok (p, mk h' hd' t) /\
    erase <$> h' = <[p := erase e']> (erase <$> h) /\ linked h' hd' bs' /\ mjoin bs' = l.
Proof.
  intros HL Ej He e'. pose proof HL as [Hs Hl Hb Hn].
  pose proof (seg_top _ _ _ _ Hs) as ->. destruct bs as [|[|x m] bs].
  - done.
  - inversion_clear Hl as [|? ? [? _] _]. done.
  - cbn in Ej. injection Ej as -> <-. unfold pop, change, update. cbn [top] in *. cbn. rewrite He. cbn.
    assert (linked (<[p := e']> h) (Some p) ((p :: m) :: bs)) as HL2
      by (eapply linked_update; [exact He|done..]).
    pose proof HL2 as [Hs2 _ _ _]. destruct Hs2 as (? & ? & f & [= <- <-] & _ & Hf & Hc & _).
    rewrite lookup_insert_eq in Hf. injection Hf as <-. cbn in Hc.
    pose proof (removeItem_spec (<[p := e']> h) p p m bs (linked_seg _ _ _ HL2) Hn
      ltac:(set_solver)) as (h' & c & Er & Ee & Hs3 & _).
    unfold removeItem, update in Er. rewrite Nat.eqb_refl, lookup_insert_eq in Er. cbn in Er.
    destruct (shrink_linked _ h' (Some p) c p [] (p :: m) bs HL2 ltac:(set_solver) Ee Hs3)
      as [HL3 EJ].
    exists h', c, (shrink p (p :: m) ++ bs). rewrite Ee, fmap_insert. split; [|split; [done|]].
    + destruct (nextInBin e) as [n|]; [|by injection Er as <- <-].
      fold e'. destruct (<[p := e']> h !! n) as [en|]; cbn in Er |- *; [by injection Er as <- <-|done].
    + split; [done|]. cbn [app] in EJ. rewrite EJ. change (mjoin ((p :: m) :: bs)) with ((p :: m) ++ mjoin bs) in *.
      cbn [app] in *. apply NoDup_cons in Hn as [Hn _]. by rewrite dequeue_cons_eq, dequeue_id.
Qed.

End EventLinks.
