(* ===== verification/EventSpec.v ===== *)
(** * What the event queue promises

    An [agenda] is the queue as its clients see it: the events in the order of
    service, without links.  The operations of [EventQueue] refine those of the
    agenda, whose order is by tick, then by priority, then the event that was
    scheduled last first.  The main loop serves the agenda in this order and
    time does not go backwards. *)

From S2P Require Import Prelude Common EventQueue EventLinks.

Module EventSpec.
Import EventQueue EventLinks.

(** ** The agenda *)

(** [stamp] counts the insertions; it exists for the specification only. *)
Record agenda := mkAgenda {
  order : list nat;
  objs : gmap nat Event;
  now : Z;
  stamp : gmap nat nat;
  issued : nat
}.

Definition with_objs o a := mkAgenda (order a) o (now a) (stamp a) (issued a).
Definition with_now n a := mkAgenda (order a) (objs a) n (stamp a) (issued a).
Definition with_order l a := mkAgenda l (objs a) (now a) (stamp a) (issued a).

Definition empty : agenda := mkAgenda [] ∅ 0 ∅ 0.

Definition tie (a : agenda) (p q : nat) : bool :=
  negb (before (objs a) p q) && negb (before (objs a) q p).

(** [p] is served before [q]. *)
Definition precedes (a : agenda) (p q : nat) : Prop :=
  before (objs a) p q = true \/
  (tie a p q = true /\ (default O (stamp a !! q) < default O (stamp a !! p))%nat).

Definition acreate (p : nat) (pri f : Z) (a : agenda) : option agenda :=
  if bool_decide (objs a !! p = None) && (Z.land f (Z.lnot PublicWrite) =? 0)
  then Some (with_objs (<[p := mkEvent None None 0 pri (Z.lor Initialized f)]> (objs a)) a)
  else None.

(** The event with the tick [w] joins the agenda as the newest one. *)
Definition ainsert (p : nat) (w : Z) (e : Event) (a : agenda) : agenda :=
  mkAgenda (enqueue (<[p := with_when w e]> (objs a)) p (order a))
    (<[p := with_flags (set_flag (flags e) Scheduled) (with_when w e)]> (objs a))
    (now a) (<[p := issued a]> (stamp a)) (S (issued a)).

Definition aschedule (p : nat) (w : Z) (a : agenda) : option agenda :=
  e ← objs a !! p;
  if (now a <=? w) && negb (scheduled e) then Some (ainsert p w e a) else None.

Definition arelease (p : nat) (a : agenda) : option agenda :=
  e ← objs a !! p;
  Some (if isManaged e && negb (scheduled e) then with_objs (delete p (objs a)) a else a).

Definition adeschedule (p : nat) (a : agenda) : option agenda :=
  e ← objs a !! p;
  if scheduled e then
    arelease p (with_order (dequeue p (order a))
      (with_objs (<[p := with_flags (unset_flag (unset_flag (flags e) Squashed) Scheduled) e]> (objs a)) a))
  else None.

Definition areschedule (p : nat) (w : Z) (always : bool) (a : agenda) : option agenda :=
  e ← objs a !! p;
  if (now a <=? w) && (always || scheduled e) then
    Some (ainsert p w (with_flags (unset_flag (flags e) Squashed) e)
            (with_order (dequeue p (order a)) a))
  else None.

Definition asquash (p : nat) (a : agenda) : option agenda :=
  e ← objs a !! p;
  Some (with_objs (<[p := with_flags (set_flag (flags e) Squashed) e]> (objs a)) a).

Section AService.
Context {W : Type} (aprocess : nat -> W -> agenda -> option (W * agenda)).

Definition aserviceOne (w : W) (a : agenda) : option (option nat * W * agenda) :=
  match order a with
  | [] => None
  | p :: l =>
      e ← objs a !! p;
      let e' := with_flags (unset_flag (flags e) Scheduled) e in
      let a := with_order l (with_objs (<[p := e']> (objs a)) a) in
      if squashed e then
        a ← arelease p (with_objs
              (<[p := with_flags (unset_flag (flags e') Squashed) e']> (objs a)) a);
        Some (None, w, a)
      else
        '(w, a) ← aprocess p w (with_now (when e) a);
        e ← objs a !! p;
        if isExitEvent e then Some (Some p, w, a)
        else a ← arelease p a; Some (None, w, a)
  end.
End AService.

(** What holds of every agenda: the events are the scheduled ones in the order
    of service, none of them is in the past, and no object was corrupted. *)
Record wf (a : agenda) : Prop := {
  wf_sorted : StronglySorted (precedes a) (order a);
  wf_scheduled : forall p, p ∈ order a <-> exists e, objs a !! p = Some e /\ scheduled e = true;
  wf_future : forall p e, objs a !! p = Some e -> scheduled e = true -> now a <= when e;
  wf_flags : forall p e, objs a !! p = Some e ->
    initialized e = true /\ is_flag_set (flags e) IsMainQueue = false;
  wf_stamp : forall p, p ∈ order a -> exists n, stamp a !! p = Some n /\ (n < issued a)%nat
}.

(** The queue [s] holds the agenda [a]. *)
Definition repr (s : t) (a : agenda) : Prop :=
  objs a = erase <$> events s /\ now a = curTick s /\
  exists bs, linked (events s) (head s) bs /\ mjoin bs = order a.

Definition good (s : t) (a : agenda) : Prop := repr s a /\ wf a.

(** ** The order of the agenda *)

Lemma precedes_irrefl a p : ~ precedes a p p.
Proof. intros [H|[_ H]]; [by rewrite before_irrefl in H|lia]. Qed.

Lemma wf_nodup a : wf a -> NoDup (order a).
Proof.
  intros [H _ _ _ _]. induction H as [|p l Hl IH Hf]; constructor; [|done].
  intros Hp. rewrite Forall_forall in Hf. by apply (precedes_irrefl a p), Hf.
Qed.

Lemma wf_dom a p : wf a -> p ∈ order a -> is_Some (objs a !! p).
Proof. intros H Hp. apply (wf_scheduled a H) in Hp as (e & ? & _). eauto. Qed.

Lemma empty_good : good new empty.
Proof.
  split; [split; [|split]|split]; try done; cbn.
  - exists []. split; [|done]. split; [done|constructor..].
  - constructor.
  - intros p. split; [set_solver|]. intros (e & H & _). by rewrite lookup_empty in H.
  - set_solver.
Qed.

(** ** Flags of events *)

Lemma initialized_set f b e :
  Z.land b InitMask = 0 -> initialized (with_flags (set_flag f b) e) = initialized (with_flags f e).
Proof.
  intros H. unfold initialized, set_flag. cbn [flags with_flags].
  by rewrite Z.land_lor_distr_l, H, Z.lor_0_r.
Qed.

Lemma initialized_unset f b e :
  Z.land (Z.lnot b) InitMask = InitMask ->
  initialized (with_flags (unset_flag f b) e) = initialized (with_flags f e).
Proof. intros H. unfold initialized, unset_flag. cbn [flags with_flags]. by rewrite <- Z.land_assoc, H. Qed.

Lemma initialized_flags e : initialized (with_flags (flags e) e) = initialized e.
Proof. done. Qed.

Lemma created_flags p f :
  Z.land f (Z.lnot PublicWrite) = 0 ->
  let e := mkEvent None None 0 p (Z.lor Initialized f) in
  initialized e = true /\ is_flag_set (flags e) IsMainQueue = false /\ scheduled e = false.
Proof.
  intros H.
  assert (forall m, Z.land m (Z.lnot PublicWrite) = m -> Z.land f m = 0) as Hm.
  { intros m Em. rewrite <- Em, (Z.land_comm m), Z.land_assoc, H. apply Z.land_0_l. }
  unfold initialized, scheduled, is_flag_set. cbn.
  rewrite !Z.land_lor_distr_l, (Hm InitMask), (Hm IsMainQueue), (Hm Scheduled) by done. done.
Qed.

(** ** Keeping the agenda well formed *)

(** An update of an object that keeps its key and whether it is scheduled. *)
Lemma wf_objs a p e e' :
  wf a -> objs a !! p = Some e -> when e' = when e -> priority e' = priority e ->
  scheduled e' = scheduled e -> initialized e' = true ->
  is_flag_set (flags e') IsMainQueue = false -> wf (with_objs (<[p := e']> (objs a)) a).
Proof.
  intros Hw He H1 H2 H3 H4 H5. pose proof Hw as [Hs Hsch Hf Hfl Hst].
  assert (forall q f, <[p := e']> (objs a) !! q = Some f -> exists f0, objs a !! q = Some f0 /\
    scheduled f = scheduled f0 /\ when f = when f0 /\ (f = f0 \/ f = e')) as Hl.
  { intros q f. destruct (decide (p = q)) as [<-|].
    - rewrite lookup_insert_eq. intros [= <-]. eauto 10.
    - rewrite lookup_insert_ne by done. eauto 10. }
  split; cbn; [| | | |done].
  - clear - Hs Hw He H1 H2. pose proof (wf_dom a) as Hd. specialize (Hd) with (1 := Hw).
    assert (forall x y, x ∈ order a -> y ∈ order a ->
      before (<[p := e']> (objs a)) x y = before (objs a) x y) as Hb.
    { intros x y Hx Hy. apply before_ext; [|by apply Hd..]. intros z f _ Hz.
      destruct (decide (p = z)) as [<-|]; [exists e'|exists f].
      - rewrite lookup_insert_eq. assert (f = e) as -> by congruence. done.
      - by rewrite lookup_insert_ne. }
    clear Hd. induction Hs as [|x l Hs IH Hf]; constructor.
    + apply IH. intros. apply Hb; set_solver.
    + rewrite Forall_forall in Hf |- *. intros y Hy. specialize (Hf y Hy).
      unfold precedes, tie in *. cbn. rewrite !Hb by set_solver. done.
  - intros q. rewrite Hsch. split; intros (f & Hq & Hsf).
    + destruct (decide (p = q)) as [<-|]; [exists e'|exists f].
      * rewrite lookup_insert_eq. split; [done|]. rewrite H3. congruence.
      * by rewrite lookup_insert_ne.
    + apply Hl in Hq as (f0 & Hq & E & _). exists f0. by rewrite <- E.
  - intros q f Hq Hsf. apply Hl in Hq as (f0 & Hq & E & -> & _). eapply Hf; [done|congruence].
  - intros q f Hq. apply Hl in Hq as (f0 & Hq & _ & _ & [->| ->]); eauto.
Qed.


(** Agendas with the same keys and stamps for the events of [l]. *)
Lemma sorted_ext a a' l :
  StronglySorted (precedes a) l ->
  (forall x, x ∈ l -> objs a' !! x = objs a !! x /\ stamp a' !! x = stamp a !! x) ->
  StronglySorted (precedes a') l.
Proof.
  intros Hs H. induction Hs as [|x l Hs IH Hf]; constructor; [apply IH; set_solver|].
  rewrite Forall_forall in Hf |- *. intros y Hy. specialize (Hf y Hy). revert Hf.
  destruct (H x) as [E1 E2]; [set_solver|]. destruct (H y) as [E3 E4]; [set_solver|].
  unfold precedes, tie, before. by rewrite E1, E2, E3, E4.
Qed.

Lemma sorted_dequeue (R : nat -> nat -> Prop) p l :
  StronglySorted R l -> StronglySorted R (dequeue p l).
Proof.
  induction 1 as [|x l Hs IH Hf]; [constructor|]. destruct (decide (x = p)) as [->|Hne].
  - by rewrite dequeue_cons_eq.
  - rewrite dequeue_cons_ne by done. constructor; [done|]. rewrite Forall_forall in Hf |- *.
    intros y [Hy _]%elem_of_dequeue. auto.
Qed.

(** The event [p] leaves the agenda. *)
Lemma wf_leave a p e e' :
  wf a -> objs a !! p = Some e -> scheduled e' = false -> initialized e' = true ->
  is_flag_set (flags e') IsMainQueue = false ->
  wf (with_order (dequeue p (order a)) (with_objs (<[p := e']> (objs a)) a)).
Proof.
  intros Hw He H1 H2 H3. pose proof Hw as [Hs Hsch Hf Hfl Hst]. split; cbn.
  - eapply (sorted_ext a); [by apply sorted_dequeue|]. cbn.
    intros x [_ Hx]%elem_of_dequeue. by rewrite lookup_insert_ne.
  - intros q. rewrite elem_of_dequeue, Hsch. destruct (decide (p = q)) as [<-|].
    + rewrite lookup_insert_eq. naive_solver congruence.
    + rewrite lookup_insert_ne by done. naive_solver.
  - intros q f. destruct (decide (p = q)) as [<-|].
    + rewrite lookup_insert_eq. naive_solver congruence.
    + rewrite lookup_insert_ne by done. eauto.
  - intros q f. destruct (decide (p = q)) as [<-|].
    + rewrite lookup_insert_eq. naive_solver.
    + rewrite lookup_insert_ne by done. eauto.
  - intros q [Hq _]%elem_of_dequeue. auto.
Qed.

Lemma wf_delete a p e :
  wf a -> objs a !! p = Some e -> scheduled e = false -> wf (with_objs (delete p (objs a)) a).
Proof.
  intros Hw He H1. pose proof Hw as [Hs Hsch Hf Hfl Hst].
  assert (p ∉ order a) as Hp by (rewrite Hsch; naive_solver congruence). split; cbn.
  - eapply (sorted_ext a); [done|]. cbn. intros x Hx. rewrite lookup_delete_ne by set_solver. done.
  - intros q. rewrite Hsch. setoid_rewrite lookup_delete_Some. naive_solver congruence.
  - intros q f [_ Hq]%lookup_delete_Some. eauto.
  - intros q f [_ Hq]%lookup_delete_Some. eauto.
  - done.
Qed.

Lemma wf_release a p a' : wf a -> arelease p a = Some a' -> wf a'.
Proof.
  unfold arelease. intros Hw H. apply bind_Some in H as (e & He & [= <-]).
  destruct (isManaged e && negb (scheduled e)) eqn:E; [|done].
  apply andb_true_iff in E as [_ E%negb_true_iff]. by eapply wf_delete.
Qed.

Lemma wf_advance a n :
  wf a -> (forall p e, objs a !! p = Some e -> scheduled e = true -> n <= when e) -> wf (with_now n a).
Proof.
  intros [Hs Hsch Hf Hfl Hst] H. by split.
Qed.

(** The place of the newest event in a list in the order of service. *)
Lemma enqueue_sorted a p l :
  StronglySorted (precedes a) l -> (forall x, x ∈ l -> is_Some (objs a !! x)) ->
  (forall x, x ∈ l -> (default O (stamp a !! x) < default O (stamp a !! p))%nat) ->
  StronglySorted (precedes a) (enqueue (objs a) p l).
Proof.
  induction l as [|q l IH]; intros Hs Hd Hnew; cbn; [repeat constructor|].
  apply StronglySorted_inv in Hs as [Hs Hf]. destruct (before (objs a) q p) eqn:E.
  - constructor; [apply IH; [done|set_solver..]|]. rewrite Forall_forall in Hf |- *.
    intros x. rewrite enqueue_perm. intros [->|Hx]%elem_of_cons; [|auto]. by left.
  - constructor; [by constructor|]. apply Forall_forall. intros x Hx.
    destruct (before (objs a) p x) eqn:Epx; [by left|]. right. split; [|auto].
    unfold tie. rewrite Epx. cbn. apply negb_true_iff.
    apply elem_of_cons in Hx as [->|Hx]; [done|].
    destruct (before (objs a) x p) eqn:Exp; [|done]. exfalso.
    rewrite Forall_forall in Hf. destruct (Hf x Hx) as [H|[H _]].
    { by rewrite (before_trans _ _ _ _ H Exp) in E. }
    unfold tie in H. apply andb_true_iff in H as [H1%negb_true_iff H2%negb_true_iff].
    destruct (Hd q) as [eq Eq]; [set_solver|]. revert E H1 H2 Exp. unfold before. rewrite Eq.
    destruct (objs a !! x), (objs a !! p); try done. rewrite !lt_false, lt_spec. lia.
Qed.

Lemma enqueue_ext o o' p l :
  (forall x, x ∈ l -> before o' x p = before o x p) -> enqueue o' p l = enqueue o p l.
Proof.
  induction l as [|q l IH]; intros H; cbn; [done|]. rewrite H, IH by set_solver. done.
Qed.

Lemma wf_ainsert a p e w :
  wf a -> objs a !! p = Some e -> p ∉ order a -> now a <= w -> wf (ainsert p w e a).
Proof.
  intros Hw He Hp Hn. pose proof Hw as [Hs Hsch Hf Hfl Hst].
  split; cbn.
  - set (a' := ainsert p w e a). rewrite (enqueue_ext (objs a')).
    + apply enqueue_sorted.
      * eapply (sorted_ext a); [done|]. intros x Hx. cbn. rewrite !lookup_insert_ne by set_solver. done.
      * intros x Hx. cbn. rewrite lookup_insert_ne by set_solver. by apply wf_dom.
      * intros x Hx. destruct (Hst x Hx) as (n & E & Hlt). cbn.
        rewrite lookup_insert_eq, lookup_insert_ne, E by set_solver. done.
    + intros x Hx. unfold before. cbn. rewrite !lookup_insert_eq, !lookup_insert_ne by set_solver. done.
  - intros q. rewrite enqueue_perm, elem_of_cons, Hsch. destruct (decide (p = q)) as [<-|].
    + rewrite lookup_insert_eq. split; [|auto]. intros _. eexists. split; [done|].
      unfold scheduled. cbn. by flag_simpl.
    + rewrite lookup_insert_ne by done. naive_solver.
  - intros q f. destruct (decide (p = q)) as [<-|].
    + rewrite lookup_insert_eq. intros [= <-] _. done.
    + rewrite lookup_insert_ne by done. apply Hf.
  - intros q f. destruct (decide (p = q)) as [<-|].
    + rewrite lookup_insert_eq. intros [= <-]. destruct (Hfl p e He) as [H1 H2].
      rewrite initialized_set by done. cbn. flag_simpl. done.
    + rewrite lookup_insert_ne by done. apply Hfl.
  - intros q. rewrite enqueue_perm. intros [->|Hq]%elem_of_cons.
    + rewrite lookup_insert_eq. eauto.
    + rewrite lookup_insert_ne by set_solver. destruct (Hst q Hq) as (n & ? & ?). exists n. split; [done|lia].
Qed.


(** ** Refinement *)

Lemma repr_lookup s a p e :
  repr s a -> objs a !! p = Some e -> exists e0, events s !! p = Some e0 /\ e = erase e0.
Proof. intros (-> & _) H. rewrite lookup_fmap_Some in H. naive_solver. Qed.

Lemma repr_change s a p e (f : Event -> Event) :
  repr s a -> objs a !! p = Some e ->
  (forall e, nextBin (f e) = nextBin e /\ nextInBin (f e) = nextInBin e /\ erase (f e) = f (erase e)) ->
  (p ∈ order a -> forall e, when (f e) = when e /\ priority (f e) = priority e) ->
  exists s', change p f s = Ok s' /\ repr s' (with_objs (<[p := f e]> (objs a)) a).
Proof.
  intros Hr He Hf Hk. destruct (repr_lookup _ _ _ _ Hr He) as (e0 & He0 & ->).
  destruct Hr as (Ho & Hn & bs & HL & Ej). unfold change, update. rewrite He0. cbn.
  destruct (Hf e0) as (F1 & F2 & F3). eexists. split; [done|]. split; [|split; [done|]].
  - cbn. by rewrite Ho, fmap_insert, F3.
  - exists bs. split; [|done]. eapply linked_update; [exact He0|done|done| |done].
    rewrite Ej. intros Hp. by apply Hk.
Qed.

Lemma repr_insert s a p e :
  repr s a -> objs a !! p = Some e -> p ∉ order a ->
  exists s', insert p s = Ok s' /\ repr s' (with_order (enqueue (objs a) p (order a)) a).
Proof.
  intros Hr He Hp. destruct (repr_lookup _ _ _ _ Hr He) as (e0 & He0 & ->).
  destruct s as [h hd t]. destruct Hr as (Ho & Hn & bs & HL & Ej). cbn in *.
  destruct (insert_spec h hd t bs p e0) as (h' & hd' & bs' & -> & E & HL' & EJ);
    [done|done|by rewrite Ej|].
  eexists. split; [done|]. split; [cbn; by rewrite E|]. split; [done|]. exists bs'. split; [done|].
  cbn. rewrite EJ, Ej, Ho. apply enqueue_ext. intros x _. symmetry. apply before_erase.
Qed.

Lemma repr_remove s a p :
  repr s a -> p ∈ order a ->
  exists s', remove p s = Ok s' /\ repr s' (with_order (dequeue p (order a)) a).
Proof.
  intros Hr Hp. destruct s as [h hd t]. destruct Hr as (Ho & Hn & bs & HL & Ej). cbn in *.
  destruct (remove_spec h hd t bs p) as (h' & hd' & bs' & -> & E & HL' & EJ); [done|by rewrite Ej|].
  eexists. split; [done|]. split; [cbn; by rewrite E|]. split; [done|]. exists bs'. by rewrite EJ, Ej.
Qed.

Lemma repr_release s a p a' :
  repr s a -> wf a -> arelease p a = Some a' -> exists s', release p s = Ok s' /\ repr s' a'.
Proof.
  unfold arelease, release. intros Hr Hw H. apply bind_Some in H as (e & He & [= <-]).
  destruct (repr_lookup _ _ _ _ Hr He) as (e0 & He0 & ->). rewrite He0. cbn.
  change (isManaged (erase e0)) with (isManaged e0). change (scheduled (erase e0)) with (scheduled e0).
  destruct (isManaged e0 && negb (scheduled e0)) eqn:E; [|eauto]. eexists. split; [done|].
  apply andb_true_iff in E as [_ E%negb_true_iff].
  destruct Hr as (Ho & Hn & bs & HL & Ej). split; [|split; [done|]].
  - cbn. by rewrite Ho, fmap_delete.
  - exists bs. split; [|done]. eapply linked_ext; [|done]. cbn. rewrite Ej. intros x f Hx Hf. exists f.
    rewrite lookup_delete_ne; [done|]. intros <-. apply (wf_scheduled a Hw) in Hx as (f' & Hf' & Es).
    rewrite He in Hf'. injection Hf' as <-. change (scheduled e0 = true) in Es. congruence.
Qed.

(** The part that [schedule] and [reschedule] share; [g] acts on the flags. *)
Lemma repr_ainsert s a p e w (g : Z -> Z) :
  repr s a -> objs a !! p = Some e -> p ∉ order a ->
  exists s', (s ← change p (with_when w) s; s ← insert p s;
    change p (fun e => with_flags (set_flag (g (flags e)) Scheduled) e) s) = Ok s' /\
    repr s' (ainsert p w (with_flags (g (flags e)) e) a).
Proof.
  intros Hr He Hp.
  destruct (repr_change s a p e (with_when w)) as (s1 & -> & Hr1); [done..|]. cbn.
  destruct (repr_insert s1 _ p (with_when w e) Hr1) as (s2 & -> & Hr2);
    [cbn; by rewrite lookup_insert_eq|done|]. cbn.
  destruct (repr_change s2 _ p (with_when w e)
    (fun e => with_flags (set_flag (g (flags e)) Scheduled) e) Hr2) as (s3 & -> & Hr3);
    [cbn; by rewrite lookup_insert_eq|done..|].
  exists s3. split; [done|]. destruct Hr3 as (Ho & Hn & bs & HL & Ej). cbn in Ho, Hn, Ej.
  split; [|split; [done|]].
  - cbn. by rewrite <- Ho, insert_insert_eq.
  - exists bs. split; [done|]. cbn. rewrite Ej. apply enqueue_ext. intros x Hx.
    unfold before. destruct (decide (p = x)) as [<-|].
    + by rewrite !lookup_insert_eq.
    + by rewrite !lookup_insert_eq, !lookup_insert_ne.
Qed.


Lemma not_in_order a p e : wf a -> objs a !! p = Some e -> scheduled e = false -> p ∉ order a.
Proof. intros Hw He H Hp. apply (wf_scheduled a Hw) in Hp. naive_solver congruence. Qed.

Lemma in_order a p e : wf a -> objs a !! p = Some e -> scheduled e = true -> p ∈ order a.
Proof. intros Hw He H. apply (wf_scheduled a Hw). eauto. Qed.

Lemma create_good s a p pri f a' :
  good s a -> acreate p pri f a = Some a' -> exists s', create p pri f s = Ok s' /\ good s' a'.
Proof.
  intros [(Ho & Hn & bs & HL & Ej) Hw] H. unfold acreate in H.
  destruct (bool_decide_reflect (objs a !! p = None)) as [Hp|]; [|done]. cbn in H.
  destruct (Z.eqb_spec (Z.land f (Z.lnot PublicWrite)) 0) as [Hf|]; [|done]. injection H as <-.
  unfold create. rewrite Hf. cbn. eexists. split; [done|].
  destruct (created_flags pri f Hf) as (F1 & F2 & F3).
  assert (events s !! p = None) as Hp' by (rewrite Ho, lookup_fmap in Hp; by destruct (events s !! p)).
  split; [split; [|split; [done|]]|].
  - cbn. by rewrite Ho, fmap_insert.
  - exists bs. split; [|done]. eapply linked_ext; [|done]. intros x g Hx Hg. exists g.
    cbn. by rewrite lookup_insert_ne by congruence.
  - pose proof Hw as [Hs Hsch Hfu Hfl Hst].
    assert (p ∉ order a) as Hpo by (rewrite Hsch; naive_solver congruence). split; cbn; try done.
    + eapply (sorted_ext a); [done|]. cbn. intros x Hx. rewrite lookup_insert_ne by set_solver. done.
    + intros q. rewrite Hsch. destruct (decide (p = q)) as [<-|].
      * rewrite lookup_insert_eq. naive_solver congruence.
      * by rewrite lookup_insert_ne.
    + intros q e. destruct (decide (p = q)) as [<-|].
      * rewrite lookup_insert_eq. naive_solver congruence.
      * rewrite lookup_insert_ne by done. apply Hfu.
    + intros q e. destruct (decide (p = q)) as [<-|].
      * rewrite lookup_insert_eq. naive_solver.
      * rewrite lookup_insert_ne by done. apply Hfl.
Qed.

Lemma schedule_good s a p w a' :
  good s a -> aschedule p w a = Some a' -> exists s', schedule p w s = Ok s' /\ good s' a'.
Proof.
  intros [Hr Hw] H. unfold aschedule in H. apply bind_Some in H as (e & He & H).
  destruct ((now a <=? w) && negb (scheduled e)) eqn:Eg; [|done]. injection H as <-.
  apply andb_true_iff in Eg as [Eg1 Eg2]. pose proof (wf_flags a Hw p e He) as [Hi _].
  destruct (repr_lookup _ _ _ _ Hr He) as (e0 & He0 & E0). unfold schedule.
  pose proof Hr as (_ & Hn & _). rewrite <- Hn, Eg1, He0. cbn.
  change (scheduled e0) with (scheduled (erase e0)). change (initialized e0) with (initialized (erase e0)).
  rewrite <- E0, Eg2, Hi. cbn. apply negb_true_iff in Eg2.
  pose proof (not_in_order a p e Hw He Eg2) as Hp.
  destruct (repr_ainsert s a p e w (fun f => f) Hr He Hp) as (s' & E & Hr').
  exists s'. split; [exact E|]. replace (with_flags (flags e) e) with e in Hr' by (by destruct e).
  split; [done|]. apply wf_ainsert; [done..|]. by apply Z.leb_le.
Qed.

Lemma deschedule_good s a p a' :
  good s a -> adeschedule p a = Some a' -> exists s', deschedule p s = Ok s' /\ good s' a'.
Proof.
  intros [Hr Hw] H. unfold adeschedule in H. apply bind_Some in H as (e & He & H).
  destruct (scheduled e) eqn:Es; [|done]. pose proof (wf_flags a Hw p e He) as [Hi Hm].
  destruct (repr_lookup _ _ _ _ Hr He) as (e0 & He0 & E0). unfold deschedule. rewrite He0. cbn.
  change (scheduled e0) with (scheduled (erase e0)). change (initialized e0) with (initialized (erase e0)).
  rewrite <- E0, Es, Hi. cbn.
  destruct (repr_remove s a p Hr) as (s1 & -> & Hr1); [by eapply in_order|]. cbn.
  set (f := fun e => with_flags (unset_flag (unset_flag (flags e) Squashed) Scheduled) e) in *.
  destruct (repr_change s1 _ p e f Hr1 He) as (s2 & -> & Hr2);
    [done|done|]. cbn.
  assert (wf (with_order (dequeue p (order a)) (with_objs (<[p := f e]> (objs a)) a))) as Hw2.
  { eapply wf_leave; [done|done|..].
    - unfold scheduled. cbn. by flag_simpl.
    - subst f. cbn beta. by rewrite !initialized_unset.
    - cbn. by flag_simpl. }
  destruct (repr_release s2 _ p a' Hr2 Hw2 H) as (s3 & E3 & Hr3).
  exists s3. split; [done|]. split; [done|]. by eapply wf_release.
Qed.

Lemma squash_good s a p a' :
  good s a -> asquash p a = Some a' -> exists s', squash p s = Ok s' /\ good s' a'.
Proof.
  intros [Hr Hw] H. unfold asquash in H. apply bind_Some in H as (e & He & [= <-]).
  pose proof (wf_flags a Hw p e He) as [Hi Hm].
  destruct (repr_change s a p e (fun e => with_flags (set_flag (flags e) Squashed) e) Hr He)
    as (s' & E & Hr'); [done|done|].
  exists s'. split; [exact E|]. split; [done|]. eapply wf_objs; [done|done|done|done|..].
  - unfold scheduled. cbn. by flag_simpl.
  - by rewrite initialized_set.
  - cbn. by flag_simpl.
Qed.

Lemma set_unset f b : set_flag (unset_flag f b) b = set_flag f b.
Proof.
  apply Z.bits_inj'. intros n Hn. unfold set_flag, unset_flag.
  rewrite !Z.lor_spec, Z.land_spec, Z.lnot_spec by done.
  by destruct (Z.testbit f n), (Z.testbit b n).
Qed.

(** An event that leaves the agenda and joins it again. *)
Lemma wf_reinsert a p e w :
  wf a -> objs a !! p = Some e -> now a <= w ->
  wf (ainsert p w (with_flags (unset_flag (flags e) Squashed) e) (with_order (dequeue p (order a)) a)).
Proof.
  intros Hw He Hn. pose proof (wf_flags a Hw p e He) as [Hi Hm].
  set (e' := with_flags (unset_flag (unset_flag (flags e) Squashed) Scheduled) e).
  set (a' := with_order (dequeue p (order a)) (with_objs (<[p := e']> (objs a)) a)).
  assert (wf a') as Hw'.
  { eapply wf_leave; [done|done|..]; subst e'.
    - unfold scheduled. cbn. by flag_simpl.
    - by rewrite !initialized_unset.
    - cbn. by flag_simpl. }
  assert (wf (ainsert p w e' a')) as Hw2.
  { apply wf_ainsert; [done|cbn; by rewrite lookup_insert_eq|cbn; rewrite elem_of_dequeue; naive_solver|done]. }
  revert Hw2. unfold ainsert. cbn. rewrite !insert_insert_eq, set_unset.
  rewrite (enqueue_ext (<[p := with_when w e']> (objs a)) (<[p := with_when w (with_flags
    (unset_flag (flags e) Squashed) e)]> (objs a))); [done|].
  intros x [_ Hx]%elem_of_dequeue. unfold before. by rewrite !lookup_insert_eq, !lookup_insert_ne.
Qed.

Lemma reschedule_good s a p w always a' :
  good s a -> areschedule p w always a = Some a' ->
  exists s', reschedule p w always s = Ok s' /\ good s' a'.
Proof.
  intros [Hr Hw] H. unfold areschedule in H. apply bind_Some in H as (e & He & H).
  destruct ((now a <=? w) && (always || scheduled e)) eqn:Eg; [|done]. injection H as <-.
  apply andb_true_iff in Eg as [Eg1 Eg2]. pose proof (wf_flags a Hw p e He) as [Hi Hm].
  destruct (repr_lookup _ _ _ _ Hr He) as (e0 & He0 & E0). unfold reschedule.
  pose proof Hr as (_ & Hn & _). rewrite <- Hn, Eg1, He0. cbn.
  change (scheduled e0) with (scheduled (erase e0)). change (initialized e0) with (initialized (erase e0)).
  rewrite <- E0, Eg2, Hi. cbn.
  assert (exists s1, (if scheduled e then remove p s else Ok s) = Ok s1 /\
    repr s1 (with_order (dequeue p (order a)) a)) as (s1 & -> & Hr1).
  { destruct (scheduled e) eqn:Es; [apply repr_remove; [done|by eapply in_order]|].
    exists s. split; [done|]. rewrite dequeue_id by by eapply not_in_order. by destruct a. }
  cbn. set (u := fun f => unset_flag f Squashed).
  destruct (repr_ainsert s1 _ p e w u Hr1 He) as (s' & E & Hr');
    [cbn; rewrite elem_of_dequeue; naive_solver|].
  exists s'. split; [exact E|]. split; [done|].
  by apply wf_reinsert; [| |apply Z.leb_le].
Qed.


(** ** Service *)

(** The first event leaves the agenda. *)
Lemma pop_good s a p l e :
  good s a -> order a = p :: l -> objs a !! p = Some e ->
  let e' := with_flags (unset_flag (flags e) Scheduled) e in
  exists s', pop s = Ok (p, s') /\ good s' (with_order l (with_objs (<[p := e']> (objs a)) a)).
Proof.
  intros [Hr Hw] El He e'. destruct (repr_lookup _ _ _ _ Hr He) as (e0 & He0 & E0).
  pose proof (wf_flags a Hw p e He) as [Hi Hm].
  assert (dequeue p (order a) = l) as Ed.
  { pose proof (wf_nodup a Hw) as Hn. rewrite El in Hn |- *. apply NoDup_cons in Hn as [Hn _].
    by rewrite dequeue_cons_eq, dequeue_id. }
  destruct s as [h hd t]. destruct Hr as (Ho & Hn & bs & HL & Ej). cbn in *.
  destruct (pop_spec h hd t bs p l e0) as (h' & hd' & bs' & -> & E & HL' & EJ); [done|congruence|done|].
  eexists. split; [done|]. split; [split; [|split; [done|by exists bs']]|].
  - cbn. rewrite E, Ho. subst e e'. done.
  - rewrite <- Ed. eapply wf_leave; [done|done|..]; subst e'.
    + unfold scheduled. cbn. by flag_simpl.
    + by rewrite initialized_unset.
    + cbn. by flag_simpl.
Qed.

(** The first event has the least tick. *)
Lemma first_tick a p l e q f :
  wf a -> order a = p :: l -> objs a !! p = Some e -> objs a !! q = Some f -> scheduled f = true ->
  when e <= when f.
Proof.
  intros Hw El He Hf Hs. pose proof (in_order a q f Hw Hf Hs) as Hq.
  pose proof (wf_sorted a Hw) as H. rewrite El in H, Hq. apply StronglySorted_inv in H as [_ H].
  apply elem_of_cons in Hq as [->|Hq]; [assert (f = e) as -> by congruence; lia|].
  rewrite Forall_forall in H. destruct (H q Hq) as [Hb|[Ht _]].
  - unfold before in Hb. rewrite He, Hf in Hb. apply lt_spec in Hb. lia.
  - unfold tie, before in Ht. rewrite He, Hf in Ht. apply andb_true_iff in Ht as [_ Ht].
    apply negb_true_iff, lt_false in Ht. lia.
Qed.

(** The first event is served at its tick. *)
Lemma advance_good s a p l e :
  good s a -> order a = p :: l -> objs a !! p = Some e ->
  let a1 := with_order l (with_objs (<[p := with_flags (unset_flag (flags e) Scheduled) e]> (objs a)) a) in
  forall s1, good s1 a1 -> good (setCurTick (when e) s1) (with_now (when e) a1).
Proof.
  intros [_ Hw] El He a1 s1 [(Ho & Hn & bs & HL & Ej) Hw1]. split; [by split; [|split; [|exists bs]]|].
  apply wf_advance; [done|]. subst a1. cbn. intros q f. destruct (decide (p = q)) as [<-|].
  - rewrite lookup_insert_eq. intros [= <-] _. done.
  - rewrite lookup_insert_ne by done. intros Hf Hs. exact (first_tick a p l e q f Hw El He Hf Hs).
Qed.

Section ServiceLemmas.
Context {W : Type} (process : nat -> W -> t -> res (W * t)).
Context (aprocess : nat -> W -> agenda -> option (W * agenda)).
Hypothesis process_refines : forall p w s a w' a',
  good s a -> aprocess p w a = Some (w', a') -> exists s', process p w s = Ok (w', s') /\ good s' a'.

Lemma serviceOne_good w s a r w' a' :
  good s a -> aserviceOne aprocess w a = Some (r, w', a') ->
  exists s', serviceOne process w s = Ok (r, w', s') /\ good s' a'.
Proof.
  intros Hg H. unfold aserviceOne in H. destruct (order a) as [|p l] eqn:El; [done|].
  apply bind_Some in H as (e & He & H). cbn zeta in H.
  destruct (pop_good s a p l e Hg El He) as (s1 & Ep & Hg1). unfold serviceOne. rewrite Ep. cbn.
  set (e' := with_flags (unset_flag (flags e) Scheduled) e) in *.
  set (a1 := with_order l (with_objs (<[p := e']> (objs a)) a)) in *.
  assert (objs a1 !! p = Some e') as He1 by (cbn; by rewrite lookup_insert_eq).
  destruct (repr_lookup s1 a1 p e' (proj1 Hg1) He1) as (f & Hf & Ef). rewrite Hf. cbn.
  assert (squashed f = squashed e) as ->.
  { transitivity (squashed e'); [by rewrite Ef|]. unfold squashed. cbn. by flag_simpl. }
  assert (when f = when e) as -> by (transitivity (when e'); [by rewrite Ef|done]).
  destruct (squashed e).
  - apply bind_Some in H as (a2 & Ha2 & [= <- <- <-]).
    destruct (repr_change s1 a1 p e' (fun e => with_flags (unset_flag (flags e) Squashed) e)
      (proj1 Hg1) He1) as (s2 & -> & Hr2); [done|done|]. cbn.
    pose proof (wf_flags a1 (proj2 Hg1) p e' He1) as [Hi Hm].
    assert (wf (with_objs (<[p := with_flags (unset_flag (flags e') Squashed) e']> (objs a1)) a1)) as Hw2.
    { eapply wf_objs; [apply Hg1|done|done|done|..].
      - unfold scheduled. cbn. by flag_simpl.
      - by rewrite initialized_unset.
      - change (is_flag_set (unset_flag (flags e') Squashed) IsMainQueue = false). by flag_simpl. }
    destruct (repr_release s2 _ p a2 Hr2 Hw2 Ha2) as (s3 & -> & Hr3). cbn.
    exists s3. split; [done|]. split; [done|]. by eapply wf_release.
  - apply bind_Some in H as ([w1 a2] & Hp & H). apply bind_Some in H as (e2 & He2 & H).
    destruct (process_refines p w (setCurTick (when e) s1) _ _ _ (advance_good s a p l e Hg El He s1 Hg1) Hp)
      as (s2 & -> & Hg2). cbn.
    destruct (repr_lookup s2 a2 p e2 (proj1 Hg2) He2) as (f2 & Hf2 & ->). rewrite Hf2. cbn.
    change (isExitEvent (erase f2)) with (isExitEvent f2) in H. destruct (isExitEvent f2).
    + injection H as <- <- <-. pose proof (wf_flags a2 (proj2 Hg2) p _ He2) as [_ Hm].
      change (is_flag_set (flags f2) IsMainQueue = false) in Hm. rewrite Hm, orb_true_r. cbn. eauto.
    + apply bind_Some in H as (a3 & Ha3 & [= <- <- <-]).
      destruct (repr_release s2 a2 p a3 (proj1 Hg2) (proj2 Hg2) Ha3) as (s3 & -> & Hr3). cbn.
      exists s3. split; [done|]. split; [done|]. eapply wf_release; [apply Hg2|done].
Qed.
End ServiceLemmas.


(** ** Traversal *)

Lemma stack_spec h p l fuel : chain h p l -> (length l <= fuel)%nat -> stack fuel p h = Ok l.
Proof.
  revert p fuel. induction l as [|x l IH]; intros p fuel Hc Hl.
  - cbn in Hc. subst p. by destruct fuel.
  - destruct Hc as (-> & e & He & Hc). destruct fuel as [|fuel]; [cbn in Hl; lia|].
    cbn. rewrite He. cbn. rewrite (IH _ fuel); [done|done|cbn in Hl; lia].
Qed.

Lemma stacks_spec h p bs fuel :
  seg h p bs None -> (length bs <= fuel)%nat -> (length (mjoin bs) <= size h)%nat ->
  stacks fuel p h = Ok (mjoin bs).
Proof.
  revert p fuel. induction bs as [|b bs IH]; intros p fuel Hs Hl Hz.
  - cbn in Hs. subst p. by destruct fuel.
  - destruct Hs as (x & l & e & -> & -> & He & Hc & Hs). destruct fuel as [|fuel]; [cbn in Hl; lia|].
    cbn. rewrite He. cbn. change (mjoin ((x :: l) :: bs)) with ((x :: l) ++ mjoin bs) in Hz.
    rewrite length_app in Hz.
    rewrite (stack_spec h (Some x) (x :: l)); [|split; [done|eauto]|lia]. cbn.
    rewrite (IH _ fuel); [done|done|cbn in Hl; lia|lia].
Qed.

Lemma dump_good s a : good s a -> dump s = Ok (order a).
Proof.
  intros [(_ & _ & bs & HL & Ej) _]. unfold dump. rewrite <- Ej.
  pose proof (linked_size _ _ _ HL). pose proof (linked_count _ _ _ HL).
  apply stacks_spec; [apply HL|lia|done].
Qed.

(** [debugVerify] accepts a list in the order of service that starts late enough. *)
Lemma verify_sorted a h l time prio seen :
  objs a = erase <$> h -> StronglySorted (precedes a) l -> (forall p, p ∈ l -> is_Some (objs a !! p)) ->
  (forall p e, hd_error l = Some p -> objs a !! p = Some e ->
     time < when e \/ (time = when e /\ prio <= priority e)) ->
  (forall p, p ∈ l -> p ∉ seen) -> NoDup l ->
  exists st, for_each l (verify_event h) (Some (time, prio, seen)) = Ok (Some st).
Proof.
  intros Ho. revert time prio seen. induction l as [|p l IH]; intros time prio seen Hs Hd Hf Hn Hnd;
    [cbn; eauto|].
  destruct (Hd p) as [e He]; [set_solver|]. apply NoDup_cons in Hnd as [Hpl Hnd].
  pose proof He as He'. rewrite Ho in He'. apply lookup_fmap_Some in He' as (e0 & E0 & He0).
  cbn. rewrite He0. cbn.
  assert (when e0 = when e /\ priority e0 = priority e) as [-> ->] by (by rewrite <- E0).
  apply StronglySorted_inv in Hs as [Hs Hpf]. specialize (Hf p e eq_refl He).
  assert (when e <? time = false) as -> by lia.
  assert ((when e =? time) && (priority e <? prio) = false) as -> by lia.
  rewrite bool_decide_eq_false_2 by (apply Hn; set_solver). cbn.
  apply IH; [done|set_solver| |set_solver|done].
  intros q f Hq Hf'. destruct l as [|q' l]; [done|]. injection Hq as ->.
  apply Forall_cons in Hpf as [Hpf _]. unfold precedes, tie, before in Hpf. rewrite He, Hf' in Hpf.
  destruct Hpf as [Hb|[Hb _]]; [apply lt_spec in Hb; lia|].
  apply andb_true_iff in Hb as [H1%negb_true_iff H2%negb_true_iff]. rewrite lt_false in H1, H2. lia.
Qed.

(** ** Clients of the queue *)

Inductive call :=
| Create (p : nat) (pri f : Z)
| Schedule (p : nat) (w : Z)
| Deschedule (p : nat)
| Reschedule (p : nat) (w : Z) (always : bool)
| Squash (p : nat).

Definition exec (c : call) (s : t) : res t :=
  match c with
  | Create p pri f => create p pri f s
  | Schedule p w => schedule p w s
  | Deschedule p => deschedule p s
  | Reschedule p w always => reschedule p w always s
  | Squash p => squash p s
  end.

Definition aexec (c : call) (a : agenda) : option agenda :=
  match c with
  | Create p pri f => acreate p pri f a
  | Schedule p w => aschedule p w a
  | Deschedule p => adeschedule p a
  | Reschedule p w always => areschedule p w always a
  | Squash p => asquash p a
  end.

Fixpoint acalls (cs : list call) (a : agenda) : option agenda :=
  match cs with
  | [] => Some a
  | c :: cs => a ← aexec c a; acalls cs a
  end.

(** A call from outside of the loop, or the service of an event whose handler
    makes calls. *)
Inductive op :=
| Call (c : call)
| Service (handler : list call).

Definition run_op (o : op) (s : t) : res t :=
  match o with
  | Call c => exec c s
  | Service h =>
      '(_, _, s) ← serviceOne (fun _ w s => s ← for_each h exec s; Ok (w, s)) tt s; Ok s
  end.

Definition arun_op (o : op) (a : agenda) : option agenda :=
  match o with
  | Call c => aexec c a
  | Service h => '(_, _, a) ← aserviceOne (fun _ w a => a ← acalls h a; Some (w, a)) tt a; Some a
  end.

Fixpoint arun (os : list op) (a : agenda) : option agenda :=
  match os with
  | [] => Some a
  | o :: os => a ← arun_op o a; arun os a
  end.

Lemma exec_good c s a a' : good s a -> aexec c a = Some a' -> exists s', exec c s = Ok s' /\ good s' a'.
Proof.
  destruct c; cbn.
  - apply create_good.
  - apply schedule_good.
  - apply deschedule_good.
  - apply reschedule_good.
  - apply squash_good.
Qed.

Lemma calls_good cs s a a' :
  good s a -> acalls cs a = Some a' -> exists s', for_each cs exec s = Ok s' /\ good s' a'.
Proof.
  revert s a. induction cs as [|c cs IH]; cbn; intros s a Hg H; [naive_solver|].
  apply bind_Some in H as (a1 & H1 & H). destruct (exec_good c s a a1 Hg H1) as (s1 & -> & Hg1). cbn. eauto.
Qed.

Lemma run_op_good o s a a' :
  good s a -> arun_op o a = Some a' -> exists s', run_op o s = Ok s' /\ good s' a'.
Proof.
  destruct o as [c|h]; cbn [run_op arun_op]; intros Hg H; [by eapply exec_good|].
  apply bind_Some in H as ([[r w] a1] & H1 & [= <-]).
  eapply (serviceOne_good (fun _ w s => s ← for_each h exec s; Ok (w, s))) in H1 as (s1 & -> & Hg1);
    [cbn; eauto| |done].
  intros p u s0 a0 u' a0' Hg0 H0. apply bind_Some in H0 as (a2 & H2 & [= <- <-]).
  destruct (calls_good h s0 a0 a2 Hg0 H2) as (s2 & -> & Hg2). cbn. eauto.
Qed.

Lemma run_good os s a a' :
  good s a -> arun os a = Some a' -> exists s', for_each os run_op s = Ok s' /\ good s' a'.
Proof.
  revert s a. induction os as [|o os IH]; cbn; intros s a Hg H; [naive_solver|].
  apply bind_Some in H as (a1 & H1 & H). destruct (run_op_good o s a a1 Hg H1) as (s1 & -> & Hg1). cbn. eauto.
Qed.


(** ** The main loop *)

Lemma filter_length_mono {A} (f g : A -> bool) l :
  (forall x, f x = true -> g x = true) ->
  (length (List.filter f l) <= length (List.filter g l))%nat.
Proof.
  intros H. induction l as [|x l IH]; cbn; [done|]. pose proof (H x).
  destruct (f x), (g x); cbn; naive_solver lia.
Qed.

Section SimLoop.
Context {W : Type} (process : nat -> W -> t -> res (W * t)).
Context (aprocess : nat -> W -> agenda -> option (W * agenda)).

(** The handlers of the simulated objects: they use the queue as its interface
    allows, in every state; they keep the object of the event being served, and
    none of them but its own touches the exit event [x]. *)
Record handlers (x : nat) : Prop := {
  handlers_refine : forall p w s a w' a',
    good s a -> aprocess p w a = Some (w', a') -> exists s', process p w s = Ok (w', s') /\ good s' a';
  handlers_total : forall p w a e,
    wf a -> objs a !! p = Some e -> scheduled e = false ->
    exists w' a' e', aprocess p w a = Some (w', a') /\ now a' = now a /\ objs a' !! p = Some e' /\
      isExitEvent e' = isExitEvent e /\ (p <> x -> objs a' !! x = objs a !! x)
}.

(** An exit event is waiting. *)
Definition waits (x : nat) (ex : Event) (a : agenda) : Prop :=
  objs a !! x = Some ex /\ scheduled ex = true /\ squashed ex = false /\ isExitEvent ex = true.

Lemma arelease_other p a e :
  objs a !! p = Some e -> exists a', arelease p a = Some a' /\ now a' = now a /\
    forall q, q <> p -> objs a' !! q = objs a !! q.
Proof.
  intros He. unfold arelease. rewrite He. cbn. eexists. split; [done|].
  destruct (isManaged e && negb (scheduled e)); split; try done. cbn.
  intros q Hq. by rewrite lookup_delete_ne.
Qed.

(** One round of the loop. *)
Lemma service_step x ex w s a :
  handlers x -> good s a -> waits x ex a ->
  exists r w' s' a', serviceOne process w s = Ok (r, w', s') /\
    aserviceOne aprocess w a = Some (r, w', a') /\ good s' a' /\
    now a <= now a' <= when ex /\
    match r with
    | Some p => exists e, objs a' !! p = Some e /\ isExitEvent e = true
    | None => waits x ex a'
    end.
Proof.
  intros [Href Htot] Hg (Hx & Hsx & Hqx & Hex). pose proof (proj2 Hg) as Hw.
  destruct (order a) as [|p l] eqn:El.
  { pose proof (in_order a x ex Hw Hx Hsx) as H. rewrite El in H. set_solver. }
  destruct (wf_dom a p Hw) as [e He]; [rewrite El; set_solver|].
  pose proof (first_tick a p l e x ex Hw El He Hx Hsx) as Hle.
  assert (scheduled e = true) as Hse.
  { assert (p ∈ order a) as Hp by (rewrite El; set_solver).
    apply (wf_scheduled a Hw) in Hp. naive_solver congruence. }
  pose proof (wf_future a Hw p e He Hse) as Hnow.
  enough (exists r w' a', aserviceOne aprocess w a = Some (r, w', a') /\ now a <= now a' <= when ex /\
    match r with
    | Some p => exists e, objs a' !! p = Some e /\ isExitEvent e = true
    | None => objs a' !! x = objs a !! x
    end) as (r & w' & a' & E & Hn & Hr).
  { destruct (serviceOne_good process aprocess Href w s a r w' a' Hg E) as (s' & Es & Hg').
    exists r, w', s', a'. repeat (split; [done|]). destruct r; [done|]. unfold waits. by rewrite Hr. }
  destruct (pop_good s a p l e Hg El He) as (s1 & _ & Hg1).
  unfold aserviceOne. rewrite El, He. cbn.
  destruct (squashed e) eqn:Eq.
  - assert (x <> p) as Hxp by congruence.
    edestruct arelease_other as (a2 & -> & En & Eo); [cbn; apply lookup_insert_eq|]. cbn.
    eexists _, _, _. split; [done|]. rewrite En. cbn. split; [lia|].
    rewrite Eo by done. cbn. by rewrite !lookup_insert_ne by congruence.
  - pose proof (advance_good s a p l e Hg El He s1 Hg1) as [_ Hw1].
    destruct (Htot p w _ (with_flags (unset_flag (flags e) Scheduled) e) Hw1)
      as (w' & a' & e' & Ep & En & He' & Ee & Ex);
      [cbn; apply lookup_insert_eq|unfold scheduled; cbn; by flag_simpl|].
    rewrite Ep. cbn. rewrite He'. cbn. destruct (isExitEvent e') eqn:Ei.
    + eexists _, _, _. split; [done|]. rewrite En. cbn. split; [lia|eauto].
    + assert (p <> x) as Hpx.
      { intros ->. assert (e = ex) as -> by congruence. unfold isExitEvent in Ee, Hex. cbn in Ee.
        revert Ee. flag_simpl. unfold isExitEvent in Ei. congruence. }
      destruct (arelease_other p a' e' He') as (a3 & -> & En3 & Eo3). cbn.
      eexists _, _, _. split; [done|]. rewrite En3, En. cbn. split; [lia|].
      rewrite Eo3, Ex by done. cbn. by rewrite lookup_insert_ne by congruence.
Qed.

Lemma arelease_now p a a' : arelease p a = Some a' -> now a' = now a.
Proof.
  unfold arelease. intros H. apply bind_Some in H as (e & _ & [= <-]). by case_match.
Qed.

(** The number of events that are due at the present tick. *)
Definition is_due (a : agenda) (p : nat) : bool :=
  match objs a !! p with Some e => when e <=? now a | None => false end.
Definition due (a : agenda) : nat := length (List.filter (is_due a) (order a)).

(** No handler adds an event at the tick it runs at. *)
Definition advancing : Prop :=
  forall p w a w' a', wf a -> aprocess p w a = Some (w', a') -> (due a' <= due a)%nat.

Lemma arelease_due p a a' : arelease p a = Some a' -> (due a' <= due a)%nat /\ order a' = order a.
Proof.
  unfold arelease. intros H. apply bind_Some in H as (e & _ & [= <-]). case_match; [|done].
  split; [|done]. unfold due. cbn. apply filter_length_mono. intros q. unfold is_due. cbn.
  destruct (decide (p = q)) as [<-|]; [by rewrite lookup_delete_eq|by rewrite lookup_delete_ne].
Qed.

(** The first event leaves the agenda. *)
Lemma due_pop a p l e f :
  order a = p :: l -> objs a !! p = Some e -> when f = when e ->
  due a = ((if (when e <=? now a)%Z then 1 else 0) +
    due (with_order l (with_objs (<[p := f]> (objs a)) a)))%nat.
Proof.
  intros El He Hf. unfold due. rewrite El. cbn [order with_order with_objs List.filter].
  rewrite (List.filter_ext (is_due (with_order l (with_objs (<[p := f]> (objs a)) a))) (is_due a)).
  - unfold is_due at 1. rewrite He. by destruct (when e <=? now a).
  - intros q. unfold is_due. cbn. destruct (decide (p = q)) as [<-|];
      [by rewrite lookup_insert_eq, He, Hf|by rewrite lookup_insert_ne].
Qed.

(** A round that does not end the loop moves time, or serves an event that is due,
    or drops one that was squashed. *)
Definition progress (a' a : agenda) : Prop :=
  now a < now a' \/ now a' = now a /\
  ((due a' < due a)%nat \/ (due a' <= due a)%nat /\ (length (order a') < length (order a))%nat).

Lemma service_progress x w w' s a a' :
  handlers x -> advancing -> good s a -> aserviceOne aprocess w a = Some (None, w', a') -> progress a' a.
Proof.
  intros [_ Htot] Hadv Hg H. pose proof (proj2 Hg) as Hw. unfold aserviceOne in H.
  destruct (order a) as [|p l] eqn:El; [done|]. apply bind_Some in H as (e & He & H). cbn zeta in H.
  destruct (squashed e).
  - apply bind_Some in H as (a2 & H & [= -> ->]). pose proof (arelease_now _ _ _ H) as Hn.
    apply arelease_due in H as [Hd Ho]. cbn in Hn, Ho. right. split; [done|]. right.
    rewrite Ho, El. cbn. split; [|lia].
    rewrite (due_pop a p l e _ El He (eq_refl : when (with_flags
      (unset_flag (unset_flag (flags e) Scheduled) Squashed) e) = _)).
    unfold with_objs, with_order in *. cbn in Hd |- *. rewrite insert_insert_eq in Hd.
    etrans; [exact Hd|]. etrans; [|apply Nat.le_add_l]. done.
  - apply bind_Some in H as ([w1 a1] & Hp & H). apply bind_Some in H as (f & _ & H).
    destruct (isExitEvent f); [done|]. apply bind_Some in H as (a2 & H & [= -> ->]).
    destruct (pop_good s a p l e Hg El He) as (s1 & _ & Hg1).
    pose proof (advance_good s a p l e Hg El He s1 Hg1) as [_ Hw1].
    destruct (Htot p w _ (with_flags (unset_flag (flags e) Scheduled) e) Hw1)
      as (w2 & a3 & e' & Ep & En & _); [cbn; apply lookup_insert_eq|unfold scheduled; cbn; by flag_simpl|].
    rewrite Hp in Ep. injection Ep as <- <-. pose proof (arelease_now _ _ _ H) as Hn.
    apply arelease_due in H as [Hd _]. pose proof (Hadv _ _ _ _ _ Hw1 Hp) as Hd1. cbn in En.
    assert (scheduled e = true) as Hs.
    { assert (p ∈ order a) as Hin by (rewrite El; set_solver).
      apply (wf_scheduled a Hw) in Hin as (f' & Hf & ?). congruence. }
    pose proof (wf_future a Hw p e He Hs). unfold progress. rewrite Hn, En.
    destruct (decide (now a < when e)) as [|Hge]; [by left|]. right. assert (when e = now a) as E by lia.
    split; [done|]. left.
    rewrite (due_pop a p l e (with_flags (unset_flag (flags e) Scheduled) e) El He eq_refl).
    rewrite E, Z.leb_refl. rewrite E in Hd1.
    apply Nat.lt_succ_r. etrans; [exact Hd|]. by etrans; [exact Hd1|].
Qed.

(** The assertions of the loop hold as long as the exit event waits. *)
Lemma doSimLoop_step x ex w s a :
  handlers x -> good s a -> waits x ex a -> forall fuel,
  doSimLoop process (S fuel) w s =
    ('(exit_event, w, s) ← serviceOne process w s;
     match exit_event with
     | Some e => Ok (e, w, s)
     | None => doSimLoop process fuel w s
     end).
Proof.
  intros Hh Hg Hx fuel. pose proof (proj2 Hg) as Hw. destruct Hg as [(Ho & Hnow & bs & HL & Ej) _].
  assert (exists p l e, head s = Some p /\ order a = p :: l /\ events s !! p = Some e)
    as (p & l & e & Ehd & El & He).
  { destruct Hx as (Hx1 & Hx2 & _). pose proof (in_order a x ex Hw Hx1 Hx2) as H.
    rewrite <- Ej in H. pose proof (linked_seg _ _ _ HL) as Hs.
    destruct bs as [|b bs]; [set_solver|]. destruct Hs as (p & m & e & -> & Hp & He & _).
    exists p, (m ++ mjoin bs), e. by rewrite <- Ej. }
  cbn. unfold nextTick. rewrite Ehd, bool_decide_eq_true_2 by eauto. cbn. rewrite He. cbn.
  assert (curTick s <= when e) as Hle.
  { rewrite <- Hnow. change (when e) with (when (erase e)). apply (wf_future a Hw p).
    - by rewrite Ho, lookup_fmap, He.
    - assert (p ∈ order a) as Hp by (rewrite El; set_solver). apply (wf_scheduled a Hw) in Hp as (f & Hf & ?).
      rewrite Ho, lookup_fmap, He in Hf. naive_solver. }
  by rewrite (proj2 (Z.leb_le _ _) Hle).
Qed.

Lemma sim_loop fuel x ex w s a :
  handlers x -> good s a -> waits x ex a ->
  match doSimLoop process fuel w s with
  | Ok (ev, _, s') => curTick s <= curTick s' <= when ex /\
      (exists e, events s' !! ev = Some e /\ isExitEvent e = true) /\ exists a', good s' a'
  | Fail f => f = OutOfFuel
  end.
Proof.
  intros Hh. revert w s a. induction fuel as [|fuel IH]; intros w s a Hg Hx; [done|].
  destruct (service_step x ex w s a Hh Hg Hx) as (r & w' & s' & a' & Es & _ & Hg' & Hn & Hr).
  rewrite (doSimLoop_step x ex w s a Hh Hg Hx fuel), Es. cbn.
  pose proof Hg as [(_ & Hnow & _) _]. destruct Hg' as [Hr' Hw']. pose proof Hr' as (Ho' & Hnow' & _).
  destruct r as [ev|].
  - split; [lia|]. split; [|by exists a']. destruct Hr as (f & Hf & Hfe).
    destruct (repr_lookup s' a' ev f Hr' Hf) as (f0 & ? & ->). eauto.
  - specialize (IH w' s' a' (conj Hr' Hw') Hr). destruct (doSimLoop process fuel w' s') as [[[ev ?] s2]|]; [|done].
    destruct IH as [? ?]. split; [lia|done].
Qed.

Lemma progress_ends (ex : Event) (P : agenda -> Prop) :
  (forall a, now a <= when ex -> (forall a', progress a' a -> now a' <= when ex -> P a') -> P a) ->
  forall a, now a <= when ex -> P a.
Proof.
  intros IH.
  enough (forall n m l a, (Z.to_nat (when ex - now a) <= n)%nat -> (due a <= m)%nat ->
    (length (order a) <= l)%nat -> now a <= when ex -> P a) as H by (intros a; by eapply H).
  induction n as [n IHn] using lt_wf_ind. induction m as [m IHm] using lt_wf_ind.
  induction l as [l IHl] using lt_wf_ind. intros a Hn Hd Hl Ha. apply IH; [done|].
  intros a' [Ht|[Et [Hd'|[Hd' Hl']]]] Ha'.
  - by eapply (IHn (Z.to_nat (when ex - now a'))); try done; lia.
  - eapply (IHm (due a')); try done; lia.
  - eapply (IHl (length (order a'))); try done; lia.
Qed.

Lemma sim_loop_ends x ex w s a :
  handlers x -> advancing -> good s a -> waits x ex a ->
  exists fuel r, doSimLoop process fuel w s = Ok r.
Proof.
  intros Hh Hadv Hg Hx. assert (now a <= when ex) as Hn
    by (destruct Hx as (? & ? & _); by eapply wf_future; [apply Hg|..]).
  revert w s Hg Hx. revert a Hn.
  apply (progress_ends ex (fun a => forall w s, good s a -> waits x ex a ->
    exists fuel r, doSimLoop process fuel w s = Ok r)).
  intros a Hn IH w s Hg Hx.
  destruct (service_step x ex w s a Hh Hg Hx) as (r & w' & s' & a' & Es & Ea & Hg' & Hn' & Hr).
  destruct r as [ev|].
  - exists 1%nat. eexists. by rewrite (doSimLoop_step x ex w s a Hh Hg Hx 0), Es.
  - destruct (IH a' (service_progress x w w' s a a' Hh Hadv Hg Ea) (proj2 Hn') w' s' Hg' Hr) as (fuel & r & E).
    exists (S fuel), r. by rewrite (doSimLoop_step x ex w s a Hh Hg Hx fuel), Es.
Qed.
End SimLoop.


(** ** Time *)

Lemma aexec_now c a a' : aexec c a = Some a' -> now a' = now a.
Proof.
  destruct c; cbn; unfold acreate, aschedule, adeschedule, areschedule, asquash; intros H.
  - by case_match; simplify_eq.
  - apply bind_Some in H as (e & _ & H). by case_match; simplify_eq.
  - apply bind_Some in H as (e & _ & H). case_match; [|done]. by apply arelease_now in H.
  - apply bind_Some in H as (e & _ & H). by case_match; simplify_eq.
  - apply bind_Some in H as (e & _ & H). by simplify_eq.
Qed.

Lemma acalls_now cs a a' : acalls cs a = Some a' -> now a' = now a.
Proof.
  revert a. induction cs as [|c cs IH]; cbn; intros a H; [by simplify_eq|].
  apply bind_Some in H as (a1 & H1 & H). rewrite (IH _ H). by eapply aexec_now.
Qed.

Lemma arun_op_now o a a' : wf a -> arun_op o a = Some a' -> now a <= now a'.
Proof.
  destruct o as [c|h]; cbn [arun_op]; intros Hw H; [rewrite (aexec_now _ _ _ H); lia|].
  apply bind_Some in H as ([[r w] a1] & H & [= <-]). unfold aserviceOne in H.
  destruct (order a) as [|p l] eqn:El; [done|]. apply bind_Some in H as (e & He & H). cbn zeta in H.
  assert (now a <= when e) as Hle.
  { assert (p ∈ order a) as Hp by (rewrite El; set_solver).
    apply (wf_scheduled a Hw) in Hp as (f & Hf & Hs). assert (f = e) as -> by congruence.
    by eapply wf_future. }
  destruct (squashed e).
  - apply bind_Some in H as (a2 & H & H2). simplify_eq. apply arelease_now in H. cbn in H. lia.
  - apply bind_Some in H as ([u a2] & H2 & H). apply bind_Some in H2 as (a3 & H3%acalls_now & [= <- <-]).
    cbn in H3. apply bind_Some in H as (f & _ & H). case_match; [by simplify_eq; lia|].
    apply bind_Some in H as (a4 & H4%arelease_now & H5). simplify_eq. lia.
Qed.

Lemma run_now os s a a' : good s a -> arun os a = Some a' -> now a <= now a'.
Proof.
  revert s a. induction os as [|o os IH]; cbn; intros s a Hg H; [simplify_eq; lia|].
  apply bind_Some in H as (a1 & H1 & H). destruct (run_op_good o s a a1 Hg H1) as (s1 & _ & Hg1).
  apply arun_op_now in H1; [|apply Hg]. specialize (IH s1 a1 Hg1 H). lia.
Qed.

(** [debugVerify] starts from tick 0 and priority 0: the one order it rejects
    starts with an event of a negative priority at tick 0. *)
Lemma debugVerify_good s a :
  good s a -> 0 <= now a ->
  exists b, debugVerify s = Ok b /\
    (b = true <-> forall p e, hd_error (order a) = Some p -> events s !! p = Some e ->
       0 < when e \/ 0 <= priority e).
Proof.
  intros Hg Hn. unfold debugVerify. rewrite (dump_good s a Hg). cbn.
  pose proof (proj2 Hg) as Hw. pose proof (proj1 Hg) as (Ho & _ & _).
  destruct (order a) as [|p l] eqn:El; [exists true; by split|].
  assert (p ∈ order a) as Hp by (rewrite El; set_solver).
  apply (wf_scheduled a Hw) in Hp as (f & Hf & Hs). pose proof (wf_future a Hw p f Hf Hs).
  destruct (repr_lookup s a p f (proj1 Hg) Hf) as (e & He & ->). cbn [when erase with_nextInBin with_nextBin] in *.
  destruct (decide (0 < when e \/ 0 <= priority e)) as [Hok|Hbad].
  - destruct (verify_sorted a (events s) (p :: l) 0 0 ∅ Ho) as (st & ->).
    + rewrite <- El. apply wf_sorted, Hw.
    + rewrite <- El. intros q Hq. by apply wf_dom.
    + intros q g [= <-] Hg'. rewrite Hf in Hg'. injection Hg' as <-. cbn. lia.
    + set_solver.
    + rewrite <- El. by apply wf_nodup.
    + exists true. split; [done|]. split; [|done].
      intros _ q g [= <-] Hq. congruence.
  - cbn. rewrite He. cbn. assert (when e <? 0 = false) as -> by lia.
    assert ((when e =? 0) && (priority e <? 0) = true) as -> by lia. cbn.
    assert (for_each l (verify_event (events s)) None = Ok None) as ->
      by (clear; induction l as [|q l IH]; cbn; done).
    exists false. split; [done|]. split; [done|]. intros H'. exfalso. by apply Hbad, (H' p e).
Qed.

(** An event that is scheduled at the present tick is the next one to be served,
    unless an event of the tick has a higher priority. *)
Lemma present_first p a a' e :
  wf a -> aschedule p (now a) a = Some a' -> objs a !! p = Some e ->
  (forall q f, q ∈ order a -> objs a !! q = Some f -> when f = now a -> priority e <= priority f) ->
  order a' = p :: order a.
Proof.
  intros Hw H He Hp. unfold aschedule in H. rewrite He in H. cbn in H.
  destruct (scheduled e) eqn:Es; [by rewrite andb_false_r in H|]. rewrite Z.leb_refl in H. cbn in H.
  injection H as <-. cbn. destruct (order a) as [|q l] eqn:El; [done|]. cbn.
  assert (q ∈ order a) as Hq by (rewrite El; set_solver).
  destruct (proj1 (wf_scheduled a Hw q) Hq) as (f & Hf & Hs).
  pose proof (wf_future a Hw q f Hf Hs) as Hn. rewrite <- El in Hp. specialize (Hp q f Hq Hf).
  unfold before. rewrite lookup_insert_eq, lookup_insert_ne, Hf by congruence.
  destruct (lt f _) eqn:Elt; [|done]. apply lt_spec in Elt. cbn in Elt. lia.
Qed.

(** ** The promises of the queue *)

(** C11: for every sequence of calls to the event queue and of services of its
    first event whose handler calls the queue again, as long as the interface is
    used as its assertions demand, no assertion or panic stops the simulator and
    the pointers of the queue hold exactly the agenda.  The order that a traversal
    finds is the order of service: by tick, then priority, then the event inserted
    last first, and it has exactly the events whose [Scheduled] flag is set.
    [debugVerify] accepts the queue unless its first event has a negative
    priority at tick 0. *)
Theorem event_queue_refines os a :
  arun os empty = Some a ->
  exists s, for_each os run_op new = Ok s /\ erase <$> events s = objs a /\ curTick s = now a /\
    dump s = Ok (order a) /\ StronglySorted (precedes a) (order a) /\
    (forall p, p ∈ order a <-> exists e, events s !! p = Some e /\ scheduled e = true) /\
    exists b, debugVerify s = Ok b /\
      (b = true <-> forall p e, hd_error (order a) = Some p -> events s !! p = Some e ->
         0 < when e \/ 0 <= priority e).
Proof.
  intros H. destruct (run_good os new empty a empty_good H) as (s & E & Hg).
  pose proof (run_now os new empty a empty_good H) as Hn. pose proof Hg as [(Ho & Hc & _) Hw].
  exists s. split; [done|]. split; [done|]. split; [done|]. split; [by apply dump_good|].
  split; [apply Hw|]. split; [|by apply debugVerify_good].
  intros p. rewrite (wf_scheduled a Hw p), Ho. setoid_rewrite lookup_fmap_Some. split.
  - intros (e & (f & <- & Hf) & Hs). eauto.
  - intros (e & He & Hs). exists (erase e). eauto.
Qed.

(** C12: when the handlers of the simulated objects use the queue as its interface
    allows and an exit event is scheduled that they leave alone, the main loop
    never stops on an assertion, a panic or a null pointer, whatever the number
    of rounds; where it ends, it ends with an exit event, time has not gone
    backwards, and it has not passed the tick of the scheduled exit event.  It
    does end, after some number of rounds, when no handler adds events at the
    tick it runs at. *)
Theorem sim_loop_in_order {W} (process : nat -> W -> t -> res (W * t))
    (aprocess : nat -> W -> agenda -> option (W * agenda)) x ex w s a :
  handlers process aprocess x -> good s a -> waits x ex a ->
  (forall fuel, match doSimLoop process fuel w s with
   | Ok (ev, _, s') => curTick s <= curTick s' <= when ex /\
       (exists e, events s' !! ev = Some e /\ isExitEvent e = true) /\ exists a', good s' a'
   | Fail f => f = OutOfFuel
   end) /\
  (advancing aprocess -> exists fuel r, doSimLoop process fuel w s = Ok r).
Proof.
  intros Hh Hg Hx. split; [intros fuel; by eapply sim_loop|]. intros Hadv. by eapply sim_loop_ends.
Qed.

(** ** Witnesses *)

(** Five events at two ticks; one is squashed, one is moved by the handler of the
    first, and one has a priority of its own. *)
Definition sample_ops : list op :=
  [Call (Create 1 0 0); Call (Create 2 0 0); Call (Create 3 0 0); Call (Create 4 (-31) Managed);
   Call (Create 5 0 0);
   Call (Schedule 1 10); Call (Schedule 2 20); Call (Schedule 3 10); Call (Schedule 4 20);
   Call (Squash 1); Service [Reschedule 2 10 false; Schedule 5 20]; Service []].

Lemma event_queue_refines_witness :
  match arun sample_ops empty with
  | Some a => order a = [1; 4; 5]%nat /\ now a = 10
  | None => False
  end.
Proof.
  destruct (arun sample_ops empty) as [a|] eqn:E; [|vm_compute in E; discriminate E].
  destruct (event_queue_refines sample_ops a E) as (s & Hs & _ & Hn & Hd & _).
  split.
  - apply (ok_inj (A := list nat)). rewrite <- Hd.
    apply (ok_check (fun s => dump s = Ok [1; 4; 5]%nat) _ s Hs). vm_compute. reflexivity.
  - rewrite <- Hn. apply (ok_check (fun s => curTick s = 10) _ s Hs). vm_compute. reflexivity.
Defined.

(** A clock that ticks every ten ticks, and the exit event 1 at tick 25. *)
Definition clock_calls (p : nat) (tick : Z) : list call :=
  if (p =? 0)%nat then [Schedule 0 (tick + 10)] else [].


Definition clock_process (p : nat) (w : unit) (s : t) : res (unit * t) :=
  s ← for_each (clock_calls p (curTick s)) exec s; Ok (w, s).
Definition clock_aprocess (p : nat) (w : unit) (a : agenda) : option (unit * agenda) :=
  a ← acalls (clock_calls p (now a)) a; Some (w, a).

Lemma clock_handlers : handlers clock_process clock_aprocess 1.
Proof.
  split.
  - intros p w s a w' a' Hg H. unfold clock_process, clock_aprocess in *.
    apply bind_Some in H as (a1 & H & [= <- <-]).
    pose proof Hg as [(_ & <- & _) _]. destruct (calls_good _ s a a1 Hg H) as (s1 & -> & Hg1). cbn. eauto.
  - intros p w a e Hw He Hs. unfold clock_aprocess, clock_calls.
    destruct (Nat.eqb_spec p 0) as [->|Hp]; cbn.
    + unfold aschedule. rewrite He. cbn. rewrite Hs, (proj2 (Z.leb_le (now a) (now a + 10))) by lia.
      cbn. eexists _, _, (with_flags (set_flag (flags e) Scheduled) (with_when (now a + 10) e)).
      split; [done|]. repeat split.
      * cbn. by rewrite lookup_insert_eq.
      * unfold isExitEvent. cbn. by flag_simpl.
      * intros _. cbn. by rewrite lookup_insert_ne.
    + by exists w, a, e.
Qed.

Definition clock_ops : list op :=
  [Call (Create 0 0 0); Call (Create 1 0 IsExitEvent); Call (Schedule 0 10); Call (Schedule 1 25)].
Definition clock_agenda : agenda := default empty (arun clock_ops empty).
Definition clock_queue : t :=
  match for_each clock_ops run_op new with Ok s => s | Fail _ => new end.

Lemma clock_good : good clock_queue clock_agenda.
Proof.
  destruct (run_good clock_ops new empty clock_agenda empty_good) as (s & E & Hg); [done|].
  assert (s = clock_queue) as ->; [|done]. apply (ok_inj (A := t)). by rewrite <- E.
Qed.

Lemma filter_length_perm {A} (f : A -> bool) l k :
  l ≡ₚ k -> length (List.filter f l) = length (List.filter f k).
Proof.
  induction 1 as [|x l k _ IH|x y l|l k m _ IH1 _ IH2]; cbn; [done| |by destruct (f x), (f y)|congruence].
  destruct (f x); cbn; congruence.
Qed.

Lemma clock_advancing : advancing clock_aprocess.
Proof.
  intros p w a w' a' Hw H. unfold clock_aprocess, clock_calls in H.
  apply bind_Some in H as (a1 & H & [= <- <-]). destruct (p =? 0)%nat; cbn in H; [|by simplify_eq].
  apply bind_Some in H as (a2 & H & [= <-]). apply bind_Some in H as (e & He & H).
  case_match; [|done]. injection H as <-. unfold due. cbn [order ainsert].
  assert (forall q, is_due (ainsert 0 (now a + 10) e a) q = true -> q <> 0%nat /\ is_due a q = true) as Hd.
  { intros q. unfold is_due. cbn. destruct (decide (q = 0%nat)) as [->|Hq].
    - rewrite lookup_insert_eq. cbn. lia.
    - by rewrite lookup_insert_ne. }
  etrans; [|apply filter_length_mono; intros q Hq; by apply Hd].
  rewrite (filter_length_perm _ _ _ (enqueue_perm _ _ _)). cbn [List.filter].
  destruct (is_due _ 0) eqn:E; [by apply Hd in E as []|]. done.
Qed.

Lemma sim_loop_in_order_witness :
  (exists fuel r, doSimLoop clock_process fuel tt clock_queue = Ok r) /\
  match doSimLoop clock_process 10 tt clock_queue with
  | Ok (ev, _, s) => ev = 1%nat /\ curTick s = 25 /\ curTick clock_queue <= curTick s <= 25
  | Fail _ => False
  end.
Proof.
  destruct (sim_loop_in_order clock_process clock_aprocess 1
    (mkEvent None None 25 0 (Z.lor Initialized (Z.lor IsExitEvent Scheduled))) tt
    clock_queue clock_agenda clock_handlers clock_good ltac:(repeat split; vm_compute; reflexivity)) as [H He].
  split; [exact (He clock_advancing)|]. specialize (H 10%nat).
  destruct (doSimLoop clock_process 10 tt clock_queue) as [[[ev u] s]|f] eqn:E.
  - destruct H as [H _].
    apply (ok_check (fun r => r.1.1 = 1%nat /\ curTick r.2 = 25 /\
      curTick clock_queue <= curTick r.2 <= 25) _ (ev, u, s) E).
    vm_compute. repeat split; discriminate.
  - vm_compute in E. discriminate E.
Defined.

End EventSpec.
