(* ===== verification/Bridge.v ===== *)
(** * The ports of a bridge

    Models the slave and the master port of [mem/bridge.cc], of which the ports
    of [PredictorFrontend] and [PredictorBackend] are copies: the queues of
    requests and responses with their delays, the reservation of space for
    responses, the stall and the retry of a request.  What a predictor does when
    a request or a response passes is the interface [PortLogic]; [PredictorPorts]
    gives its instances.

    A bridge lives between two peers.  [World] adds what the peers know (which
    sends they refused, how many responses they owe) and logs of the packets
    that passed, and runs the handlers in any order the protocol of gem5's timing
    ports allows.  A call of the bridge to a peer ([sendTimingReq],
    [sendTimingResp], [sendRetryReq]) is atomic: what the peer does in turn is a
    later step.  The handlers call [sendRetryReq] as their last action, so a
    peer that sends the stalled request from inside that call is covered. *)

From S2P Require Import Prelude Common PageTable Clock.

Module Bridge.
(** ** State *)

Record DeferredPacket := mkDeferred { tick : Z; pkt : Packet.t }.

Record slave := mkSlave {
  respList : list DeferredPacket;
  outstandingResponses : Z;
  retryReq : bool;
  respQueueLimit : Z;
  respEvent : option Z
}.
Record master := mkMaster {
  reqList : list DeferredPacket;
  reqQueueLimit : Z;
  reqEvent : option Z
}.
(** [retries] counts the calls of [sendRetryReq]. *)
Record t := mk {
  slavePort : slave;
  masterPort : master;
  delay : Z;
  clock : Clocked.t;
  retries : Z
}.

Definition new (d req_limit resp_limit period : Z) : t :=
  mk (mkSlave [] 0 false (u32 resp_limit) None) (mkMaster [] (u32 req_limit) None) d
    (Clocked.new period) 0.

Definition with_slave s b := mk s (masterPort b) (delay b) (clock b) (retries b).
Definition with_master m b := mk (slavePort b) m (delay b) (clock b) (retries b).
Definition with_clock c b := mk (slavePort b) (masterPort b) (delay b) c (retries b).
Definition set_retry (r : bool) (s : slave) : slave :=
  mkSlave (respList s) (outstandingResponses s) r (respQueueLimit s) (respEvent s).
Definition set_outstanding (n : Z) (s : slave) : slave :=
  mkSlave (respList s) n (retryReq s) (respQueueLimit s) (respEvent s).
Definition set_responses (q : list DeferredPacket) (ev : option Z) (s : slave) : slave :=
  mkSlave q (outstandingResponses s) (retryReq s) (respQueueLimit s) ev.
Definition set_requests (q : list DeferredPacket) (ev : option Z) (m : master) : master :=
  mkMaster q (reqQueueLimit m) ev.

(** [pkt->headerDelay = pkt->payloadDelay = 0] *)
Definition clear_delays (p : Packet.t) : Packet.t :=
  Packet.mk (Packet.isWrite p) (Packet.isRead p) (Packet.hasData p) (Packet.needsResponse p)
    (Packet.cacheResponding p) (Packet.isToPOC p) (Packet.size p) (Packet.reqSize p)
    (Packet.addr p) (Packet.vaddr p) (Packet.paddr p) (Packet.pc p) (Packet.data p) 0 0
    (Packet.isCounterPacket p) (Packet.isCounterCacheEviction p) (Packet.isVerificationPacket p)
    (Packet.isVerificationCacheEviction p) (Packet.counterCacheHit p)
    (Packet.verificationCacheHit p) (Packet.verificationCacheMisses p).

(** ** Handlers *)

Definition respQueueFull (s : slave) : bool := outstandingResponses s =? respQueueLimit s.
Definition reqQueueFull (m : master) : bool :=
  Z.of_nat (length (reqList m)) =? reqQueueLimit m.

(** The event for a packet that goes to the head of a queue. *)
Definition sched (now when : Z) (q : list DeferredPacket) (ev : option Z) : res (option Z) :=
  match q with
  | [] => schedule now when ev
  | _ => Ok ev
  end.

Definition schedTimingReq (now : Z) (p : Packet.t) (when : Z) (b : t) : res t :=
  let m := masterPort b in
  ev ← sched now when (reqList m) (reqEvent m);
  assert_that (negb (reqQueueFull m)) ;;
  Ok (with_master (set_requests (reqList m ++ [mkDeferred when p]) ev m) b).

Definition schedTimingResp (now : Z) (p : Packet.t) (when : Z) (b : t) : res t :=
  let s := slavePort b in
  ev ← sched now when (respList s) (respEvent s);
  Ok (with_slave (set_responses (respList s ++ [mkDeferred when p]) ev s) b).

(** A place for the response of a request that has one, or the request is
    stalled. *)
Definition reserve (p : Packet.t) (s : slave) : res slave :=
  if Packet.needsResponse p then
    if respQueueFull s then Ok (set_retry true s)
    else
      assert_that (negb (outstandingResponses s =? respQueueLimit s)) ;;
      Ok (set_outstanding (u32 (outstandingResponses s + 1)) s)
  else Ok s.

(** The part of [recvTimingReq] that decides about the queues. *)
Definition accept (now : Z) (p : Packet.t) (b : t) : res (bool * t) :=
  b ← (if reqQueueFull (masterPort b) then Ok (with_slave (set_retry true (slavePort b)) b)
       else
         s ← reserve p (slavePort b);
         let b := with_slave s b in
         if negb (retryReq s) then
           let receive_delay := Packet.headerDelay p + Packet.payloadDelay p in
           let '(e, c) := Clocked.clockEdge now (delay b) (clock b) in
           schedTimingReq now (clear_delays p) (e + receive_delay) (with_clock c b)
         else Ok b);
  Ok (negb (retryReq (slavePort b)), b).

(** [slavePort.retryStalledReq()] *)
Definition retryStalledReq (b : t) : t :=
  if retryReq (slavePort b) then
    mk (set_retry false (slavePort b)) (masterPort b) (delay b) (clock b) (retries b + 1)
  else b.

(** [schedule(sendEvent, std::max(next.tick, clockEdge()))] when packets remain. *)
Definition sched_next (now : Z) (q : list DeferredPacket) (ev : option Z) (c : Clocked.t)
    : res (option Z * Clocked.t) :=
  match q with
  | [] => Ok (ev, c)
  | d :: _ =>
      let '(e, c) := Clocked.clockEdge now 0 c in
      ev ← schedule now (Z.max (tick d) e) ev; Ok (ev, c)
  end.

(** [BridgeMasterPort::trySendTiming]; [sent] is the answer of [sendTimingReq].
    The packet offered is returned too. *)
Definition trySendReq (now : Z) (sent : bool) (b : t) : res (Packet.t * t) :=
  let m := masterPort b in
  match reqList m with
  | [] => Fail AssertFailure
  | req :: rest =>
      assert_that (tick req <=? now) ;;
      if sent then
        '(ev, c) ← sched_next now rest (reqEvent m) (clock b);
        Ok (pkt req, retryStalledReq (with_clock c (with_master (set_requests rest ev m) b)))
      else Ok (pkt req, b)
  end.

(** [BridgeSlavePort::trySendTiming] *)
Definition trySendResp (now : Z) (sent : bool) (b : t) : res (Packet.t * t) :=
  let s := slavePort b in
  match respList s with
  | [] => Fail AssertFailure
  | resp :: rest =>
      assert_that (tick resp <=? now) ;;
      if sent then
        assert_that (negb (outstandingResponses s =? 0)) ;;
        '(ev, c) ← sched_next now rest (respEvent s) (clock b);
        let s := set_responses rest ev (set_outstanding (u32 (outstandingResponses s - 1)) s) in
        let b := with_clock c (with_slave s b) in
        Ok (pkt resp,
            if negb (reqQueueFull (masterPort b)) && retryReq s then retryStalledReq b else b)
      else Ok (pkt resp, b)
  end.

(** An event that fires is no longer scheduled when its function runs. *)
Definition reqEventFires (now : Z) (sent : bool) (b : t) : res (Packet.t * t) :=
  trySendReq now sent (with_master (set_requests (reqList (masterPort b)) None (masterPort b)) b).
Definition respEventFires (now : Z) (sent : bool) (b : t) : res (Packet.t * t) :=
  trySendResp now sent (with_slave (set_responses (respList (slavePort b)) None (slavePort b)) b).
Definition recvReqRetry : Z -> bool -> t -> res (Packet.t * t) := trySendReq.
Definition recvRespRetry : Z -> bool -> t -> res (Packet.t * t) := trySendResp.
End Bridge.

(** ** What a predictor adds to a bridge

    [on_request] runs before the queues are looked at, with the state of
    [retryReq]; it answers whether to go on.  [on_response] gives the extra delay
    of a response.  [interferes] is what the rest of the system does to the
    predictor between two steps of the bridge. *)
Class PortLogic (L : Type) : Type := {
  on_request : Z -> Packet.t -> bool -> L -> res (bool * L);
  on_response : Z -> Packet.t -> L -> res (Z * L);
  interferes : L -> L -> Prop;
  logic_ok : L -> Prop;
  valid_request : Z -> Packet.t -> L -> Prop;
  valid_response : Z -> Packet.t -> L -> Prop;
  on_request_ok : forall now p stalled l, logic_ok l -> valid_request now p l ->
    exists go l', on_request now p stalled l = Ok (go, l') /\ logic_ok l' /\
      (go = true -> stalled = false);
  on_response_ok : forall now p l, logic_ok l -> valid_response now p l ->
    exists extra l', on_response now p l = Ok (extra, l') /\ logic_ok l' /\ 0 <= extra;
  interferes_ok : forall l l', logic_ok l -> interferes l l' -> logic_ok l';
  some_response : forall now l, logic_ok l ->
    exists p, valid_response now p l /\ 0 <= Packet.headerDelay p + Packet.payloadDelay p
}.

(** ** Atomic and functional accesses

    [answer] is the latency the next memory object returns.  A functional packet
    has a stack of labels for its printing; [trySatisfy] is
    [Packet::trySatisfyFunctional] against one queued packet, [forward] the
    functional access of the rest of the system. *)
Module Untimed.
Import Bridge.

Definition recvAtomic (p : Packet.t) (answer : Z) (b : t) : res Z :=
  panic_if (Packet.cacheResponding p) ;; Ok (delay b * Clocked.period (clock b) + answer).

Section Functional.
Context {F : Type}.
Variable trySatisfy : Packet.t -> F -> bool * F.
Variables makeResponse forward : F -> F.

(** The loops over [transmitList]: at the first packet that satisfies the
    access it becomes a response. *)
Fixpoint trySatisfyFunctional (q : list DeferredPacket) (p : F) : bool * F :=
  match q with
  | [] => (false, p)
  | d :: q' =>
      let '(found, p) := trySatisfy (pkt d) p in
      if found : bool then (true, makeResponse p) else trySatisfyFunctional q' p
  end.

(** The state is the packet and its label stack; [popLabel] of an empty stack
    would be undefined. *)
Definition recvFunctional (name : string) (b : t) (labels : list string) (p : F)
    : list string * F :=
  let labels := name :: labels in
  let '(found, p) := trySatisfyFunctional (respList (slavePort b)) p in
  if found : bool then (labels, p)
  else
    let '(found, p) := trySatisfyFunctional (reqList (masterPort b)) p in
    if found : bool then (labels, p) else (tail labels, forward p).
End Functional.
End Untimed.

(** ** The bridge between its peers *)
Module World.
Import Bridge.

Inductive label :=
| Request (p : Packet.t)
| ReqEvent (sent : bool)
| ReqRetry (sent : bool)
| Response (p : Packet.t)
| RespEvent (sent : bool)
| RespRetry (sent : bool).

Section Steps.
Context {L : Type} `{PL : PortLogic L}.

(** [inflight] is the number of responses the memory side owes; a peer that
    refused a send is blocked until it asks for a retry. *)
Record t := mk {
  bridge : Bridge.t;
  logic : L;
  time : Z;
  reqBlocked : bool;
  respBlocked : bool;
  inflight : Z;
  accepted : list Packet.t;
  forwarded : list Packet.t;
  received : list Packet.t;
  delivered : list Packet.t
}.

Definition recvTimingReq (now : Z) (p : Packet.t) (b : Bridge.t) (l : L)
    : res (bool * Bridge.t * L) :=
  '(go, l) ← on_request now p (retryReq (slavePort b)) l;
  if go : bool then '(ok, b) ← accept now p b; Ok (ok, b, l) else Ok (false, b, l).

Definition recvTimingResp (now : Z) (p : Packet.t) (b : Bridge.t) (l : L) : res (Bridge.t * L) :=
  let receive_delay := Packet.headerDelay p + Packet.payloadDelay p in
  '(extra, l) ← on_response now p l;
  let '(e, c) := Clocked.clockEdge now (delay b) (clock b) in
  b ← schedTimingResp now (clear_delays p) (e + receive_delay + extra) (with_clock c b);
  Ok (b, l).

Definition b2z (b : bool) : Z := if b then 1 else 0.

(** The memory side is offered the head of the request queue. *)
Definition offer (now : Z) (sent : bool) (r : res (Packet.t * Bridge.t)) (w : t) : res t :=
  '(p, b) ← r;
  Ok (if sent then
        mk b (logic w) now false (respBlocked w) (inflight w + b2z (Packet.needsResponse p))
          (accepted w) (forwarded w ++ [p]) (received w) (delivered w)
      else
        mk b (logic w) now true (respBlocked w) (inflight w)
          (accepted w) (forwarded w) (received w) (delivered w)).
Definition deliver (now : Z) (sent : bool) (r : res (Packet.t * Bridge.t)) (w : t) : res t :=
  '(p, b) ← r;
  Ok (if sent then
        mk b (logic w) now (reqBlocked w) false (inflight w)
          (accepted w) (forwarded w) (received w) (delivered w ++ [p])
      else
        mk b (logic w) now (reqBlocked w) true (inflight w)
          (accepted w) (forwarded w) (received w) (delivered w)).

Definition step (now : Z) (l : label) (w : t) : res t :=
  match l with
  | Request p =>
      '(ok, b, lo) ← recvTimingReq now p (bridge w) (logic w);
      Ok (mk b lo now (reqBlocked w) (respBlocked w) (inflight w)
            (if ok : bool then accepted w ++ [clear_delays p] else accepted w)
            (forwarded w) (received w) (delivered w))
  | ReqEvent sent => offer now sent (reqEventFires now sent (bridge w)) w
  | ReqRetry sent => offer now sent (recvReqRetry now sent (bridge w)) w
  | Response p =>
      '(b, lo) ← recvTimingResp now p (bridge w) (logic w);
      Ok (mk b lo now (reqBlocked w) (respBlocked w) (inflight w - 1)
            (accepted w) (forwarded w) (received w ++ [clear_delays p]) (delivered w))
  | RespEvent sent => deliver now sent (respEventFires now sent (bridge w)) w
  | RespRetry sent => deliver now sent (recvRespRetry now sent (bridge w)) w
  end.

Definition init (b : Bridge.t) (lo : L) : t := mk b lo 0 false false 0 [] [] [] [].

(** What the peers and the event queue of the simulator guarantee: time does
    not run past a scheduled event, an event fires at its tick, a retry follows a
    refused send, a response answers a request that was forwarded. *)
Definition not_past (now : Z) (ev : option Z) : Prop := forall e, ev = Some e -> now <= e.

Definition enabled (now : Z) (l : label) (w : t) : Prop :=
  time w <= now /\ not_past now (reqEvent (masterPort (bridge w))) /\
  not_past now (respEvent (slavePort (bridge w))) /\
  match l with
  | Request p => valid_request now p (logic w) /\ 0 <= Packet.headerDelay p + Packet.payloadDelay p
  | ReqEvent _ => reqEvent (masterPort (bridge w)) = Some now
  | ReqRetry _ => reqBlocked w = true
  | Response p => 0 < inflight w /\ valid_response now p (logic w) /\
                  0 <= Packet.headerDelay p + Packet.payloadDelay p
  | RespEvent _ => respEvent (slavePort (bridge w)) = Some now
  | RespRetry _ => respBlocked w = true
  end.

Definition with_logic (l : L) (w : t) : t :=
  mk (bridge w) l (time w) (reqBlocked w) (respBlocked w) (inflight w) (accepted w) (forwarded w)
    (received w) (delivered w).

Inductive reachable (w0 : t) : t -> Prop :=
| reachable_init : reachable w0 w0
| reachable_elsewhere w l : reachable w0 w -> interferes (logic w) l -> reachable w0 (with_logic l w)
| reachable_step w now l w' :
    reachable w0 w -> enabled now l w -> step now l w = Ok w' -> reachable w0 w'.
End Steps.
Arguments t L : clear implicits.

(** ** Invariant *)

(** A queue whose head is sent by an event, or by a retry once the peer has
    refused it; the head is due by then. *)
Definition link_ok (q : list DeferredPacket) (ev : option Z) (blocked : bool) (now : Z) : Prop :=
  match q with
  | [] => ev = None /\ blocked = false
  | d :: _ =>
      match ev with
      | Some e => blocked = false /\ tick d <= e /\ now <= e
      | None => blocked = true /\ tick d <= now
      end
  end.

Lemma link_later q ev bl t0 now :
  link_ok q ev bl t0 -> t0 <= now -> not_past now ev -> link_ok q ev bl now.
Proof.
  intros H Ht Hn. destruct q, ev as [e|]; cbn in *; try specialize (Hn e eq_refl); intuition lia.
Qed.

Lemma link_push q ev bl t0 now when p :
  link_ok q ev bl t0 -> t0 <= now -> not_past now ev -> now <= when ->
  exists ev', sched now when q ev = Ok ev' /\ link_ok (q ++ [mkDeferred when p]) ev' bl now.
Proof.
  intros Hl Ht Hn Hw. destruct q as [|d q].
  - destruct Hl as [-> ->]. exists (Some when). cbn. rewrite schedule_ok by done.
    split; [done|]. split; [done|]. split; [reflexivity|done].
  - exists ev. split; [done|]. by apply (link_later _ _ _ t0).
Qed.

Lemma link_due q now bl t0 :
  link_ok q (Some now) bl t0 -> exists d rest, q = d :: rest /\ tick d <= now.
Proof. destruct q as [|d rest]; cbn; [by intros [? _]|]. intros (_ & ? & _). by exists d, rest. Qed.

Lemma link_blocked q ev now :
  link_ok q ev true now -> exists d rest, q = d :: rest /\ ev = None /\ tick d <= now.
Proof.
  destruct q as [|d rest]; cbn; [by intros [_ ?]|]. destruct ev; intros [? ?]; [done|].
  by exists d, rest.
Qed.

(** The clock was last asked at or before [now]. *)
Definition clock_ok (now : Z) (c : Clocked.t) : Prop :=
  exists last, last <= now /\ Clocked.wf last c.

Lemma clock_later t0 now c : clock_ok t0 c -> t0 <= now -> clock_ok now c.
Proof. intros (last & ? & ?) ?. exists last. split; [lia|done]. Qed.

Lemma clock_edge_ok now k c :
  clock_ok now c -> 0 <= k -> exists e c', Clocked.clockEdge now k c = (e, c') /\ now <= e /\ clock_ok now c'.
Proof.
  intros (last & Hl & Hw) Hk. destruct (Clocked.clockEdge_ok last now k c Hw Hl) as (c' & E & Hw' & _).
  eexists _, c'. split; [exact E|]. pose proof (Clocked.wf_period _ _ Hw) as Hp.
  destruct (Clocked.edge_first (Clocked.period c) now Hp) as (? & _).
  split; [nia|]. exists now. split; [lia|done].
Qed.

Lemma sched_next_ok now q c :
  clock_ok now c -> exists ev c', sched_next now q None c = Ok (ev, c') /\
    link_ok q ev false now /\ clock_ok now c'.
Proof.
  intros Hc. destruct q as [|d q]; [by exists None, c|]. cbn [sched_next].
  destruct (clock_edge_ok now 0 c Hc) as (e & c' & -> & He & Hc'); [lia|].
  rewrite schedule_ok by lia. exists (Some (Z.max (tick d) e)), c'. cbn. split; [done|].
  split; [|done]. split; [done|]. lia.
Qed.

(** Requests of a queue that will be answered. *)
Definition awaited (q : list DeferredPacket) : Z :=
  foldr (fun d n => b2z (Packet.needsResponse (pkt d)) + n) 0 q.

Lemma awaited_snoc q d : awaited (q ++ [d]) = awaited q + b2z (Packet.needsResponse (pkt d)).
Proof. induction q as [|x q IH]; cbn; [lia|]. unfold awaited in IH. lia. Qed.
Lemma b2z_bound b : 0 <= b2z b <= 1.
Proof. destruct b; cbn; lia. Qed.
Lemma awaited_nonneg q : 0 <= awaited q.
Proof.
  induction q as [|d q IH]; cbn; [lia|]. pose proof (b2z_bound (Packet.needsResponse (pkt d))).
  unfold awaited in IH. lia.
Qed.

Section Invariant.
Context {L : Type} `{PL : PortLogic L}.

Record ok (w : t L) : Prop := {
  ok_logic : logic_ok (logic w);
  ok_clock : clock_ok (time w) (clock (bridge w));
  ok_delay : 0 <= delay (bridge w);
  ok_req : link_ok (reqList (masterPort (bridge w))) (reqEvent (masterPort (bridge w)))
             (reqBlocked w) (time w);
  ok_resp : link_ok (respList (slavePort (bridge w))) (respEvent (slavePort (bridge w)))
              (respBlocked w) (time w);
  ok_req_limit : Z.of_nat (length (reqList (masterPort (bridge w)))) <=
                   reqQueueLimit (masterPort (bridge w)) /\
                 0 < reqQueueLimit (masterPort (bridge w));
  ok_count : outstandingResponses (slavePort (bridge w)) =
    awaited (reqList (masterPort (bridge w))) + inflight w +
    Z.of_nat (length (respList (slavePort (bridge w))));
  ok_inflight : 0 <= inflight w;
  ok_resp_limit : outstandingResponses (slavePort (bridge w)) <=
                    respQueueLimit (slavePort (bridge w)) /\
                  0 < respQueueLimit (slavePort (bridge w)) < 4294967296;
  ok_stall : retryReq (slavePort (bridge w)) = true ->
    reqList (masterPort (bridge w)) <> [] \/ 0 < outstandingResponses (slavePort (bridge w));
  ok_fifo_req : accepted w = forwarded w ++ (pkt <$> reqList (masterPort (bridge w)));
  ok_fifo_resp : received w = delivered w ++ (pkt <$> respList (slavePort (bridge w)))
}.

(** [now] is a tick the simulation may reach next. *)
Definition later (now : Z) (w : t L) : Prop :=
  time w <= now /\ not_past now (reqEvent (masterPort (bridge w))) /\
  not_past now (respEvent (slavePort (bridge w))).

(** Work left: a queued request may still come back as a response. *)
Definition work (w : t L) : Z :=
  3 * Z.of_nat (length (reqList (masterPort (bridge w)))) + 2 * inflight w +
  Z.of_nat (length (respList (slavePort (bridge w)))).

(** Stalled requests and the retries sent for them. *)
Definition promised (w : t L) : Z := retries (bridge w) + b2z (retryReq (slavePort (bridge w))).

Lemma retry_promised b :
  retries (retryStalledReq b) + b2z (retryReq (slavePort (retryStalledReq b))) =
    retries b + b2z (retryReq (slavePort b)).
Proof.
  unfold retryStalledReq. destruct (retryReq (slavePort b)) eqn:E; cbn; [lia|]. by rewrite E.
Qed.

Lemma init_ok d req_limit resp_limit period lo :
  logic_ok lo -> 0 <= d -> 0 < period -> 0 < req_limit < 4294967296 ->
  0 < resp_limit < 4294967296 -> ok (init (new d req_limit resp_limit period) lo).
Proof.
  intros Hl Hd Hp Hq Hr. split; cbn [init bridge time reqBlocked respBlocked inflight logic
    accepted forwarded received delivered new slavePort masterPort clock delay respList reqList
    reqEvent respEvent outstandingResponses respQueueLimit reqQueueLimit retryReq];
    rewrite ?u32_id by (unfold is_u32; lia); try done; try (cbn; lia).
  exists 0. split; [lia|]. by apply Clocked.new_wf.
Qed.

(** *** Requests leave *)

(** What a send does besides the queues. *)
Record progress (w w' : t L) : Prop := {
  pr_work : work w' < work w;
  pr_accepted : accepted w' = accepted w;
  pr_promised : promised w' = promised w
}.

Definition disarm_req (b : Bridge.t) : Bridge.t :=
  with_master (set_requests (reqList (masterPort b)) None (masterPort b)) b.
Definition disarm_resp (b : Bridge.t) : Bridge.t :=
  with_slave (set_responses (respList (slavePort b)) None (slavePort b)) b.

Lemma offer_ok now sent w d rest :
  ok w -> later now w -> reqList (masterPort (bridge w)) = d :: rest -> tick d <= now ->
  exists w', offer now sent (trySendReq now sent (disarm_req (bridge w))) w = Ok w' /\ ok w' /\
    time w' = now /\ (sent = true -> progress w w').
Proof.
  intros [H1 H2 H3 H4 H5 H6 H7 H8 H9 H10 H11 H12] (Ht & Hn1 & Hn2) Hq Hd. unfold trySendReq.
  cbn [disarm_req masterPort with_master set_requests reqList reqEvent clock]. rewrite Hq in *.
  rewrite (proj2 (Z.leb_le _ _) Hd). cbn [assert_that mbind res_bind].
  pose proof (clock_later _ now _ H2 Ht) as Hc. pose proof (link_later _ _ _ _ now H5 Ht Hn2) as Hr.
  pose proof (awaited_nonneg rest). cbn [awaited foldr] in H7. fold (awaited rest) in H7.
  destruct sent.
  - destruct (sched_next_ok now rest (clock (bridge w)) Hc) as (ev & c & -> & Hl & Hc').
    cbn [mbind res_bind offer]. eexists. split; [reflexivity|].
    pose proof (b2z_bound (Packet.needsResponse (pkt d))). cbn [length fmap list_fmap] in *.
    split; [|split; [done|intros _; split; try done]].
    + unfold retryStalledReq. cbn [slavePort with_clock with_master disarm_req].
      destruct (retryReq (slavePort (bridge w))) eqn:E; split;
        cbn -[b2z awaited Z.of_nat]; rewrite ?E, <- ?app_assoc;
        intros; done || lia.
    + unfold work, retryStalledReq. cbn [slavePort with_clock with_master disarm_req]. rewrite Hq.
      destruct (retryReq (slavePort (bridge w))); cbn [bridge inflight slavePort masterPort
        with_clock with_master disarm_req set_requests reqList set_retry respList length]; lia.
    + unfold promised. cbn [bridge]. by rewrite retry_promised.
  - cbn [mbind res_bind offer]. eexists. split; [reflexivity|]. split; [|done].
    split; cbn; rewrite ?Hq; done.
Qed.

(** *** Responses leave *)

Lemma deliver_ok now sent w d rest :
  ok w -> later now w -> respList (slavePort (bridge w)) = d :: rest -> tick d <= now ->
  exists w', deliver now sent (trySendResp now sent (disarm_resp (bridge w))) w = Ok w' /\ ok w' /\
    time w' = now /\ (sent = true -> progress w w').
Proof.
  intros [H1 H2 H3 H4 H5 H6 H7 H8 H9 H10 H11 H12] (Ht & Hn1 & Hn2) Hq Hd. unfold trySendResp.
  cbn [disarm_resp slavePort with_slave set_responses respList respEvent clock outstandingResponses
    set_outstanding]. rewrite Hq in *.
  rewrite (proj2 (Z.leb_le _ _) Hd). cbn [assert_that mbind res_bind].
  pose proof (clock_later _ now _ H2 Ht) as Hc. pose proof (link_later _ _ _ _ now H4 Ht Hn1) as Hr.
  pose proof (awaited_nonneg (reqList (masterPort (bridge w)))).
  destruct sent.
  - cbn [length fmap list_fmap] in *. set (n := outstandingResponses (slavePort (bridge w))) in *.
    destruct (Z.eqb_spec n 0); [lia|]. cbn [negb assert_that mbind res_bind].
    destruct (sched_next_ok now rest (clock (bridge w)) Hc) as (ev & c & -> & Hl & Hc').
    cbn [mbind res_bind deliver]. rewrite u32_id by (unfold is_u32; lia).
    set (s1 := set_responses rest ev _). set (b1 := with_clock c _).
    change (masterPort b1) with (masterPort (bridge w)).
    change (retryReq s1) with (retryReq (slavePort (bridge w))).
    eexists. split; [reflexivity|].
    assert (retries b1 + b2z (retryReq (slavePort b1)) = promised w) as Hpr by done.
    unfold retryStalledReq. change (retryReq (slavePort b1)) with (retryReq (slavePort (bridge w))).
    destruct (retryReq (slavePort (bridge w))) eqn:E, (reqQueueFull (masterPort (bridge w))) eqn:F;
      cbn [negb andb];
      (split; [split; cbn -[b2z awaited Z.of_nat]; rewrite ?E, <- ?app_assoc; intros; try done; try lia
              |split; [done|intros _; split; try done; unfold work, promised in *;
                 cbn -[b2z awaited Z.of_nat] in *; rewrite ?Hq, ?E; cbn -[Z.of_nat]; lia]]).
    apply Z.eqb_eq in F. left. destruct (reqList (masterPort (bridge w))); [cbn in F; lia|done].
  - cbn [mbind res_bind deliver]. eexists. split; [reflexivity|]. split; [|done].
    split; cbn; rewrite ?Hq; done.
Qed.

(** *** Arrivals *)

(** There is room for the request, and for its response if it has one. *)
Definition room (p : Packet.t) (b : Bridge.t) : bool :=
  negb (reqQueueFull (masterPort b)) &&
  negb (Packet.needsResponse p && respQueueFull (slavePort b)).

(** The slave port with the response of [p] reserved. *)
Record reserved (p : Packet.t) (s s1 : slave) : Prop := {
  rv_out : outstandingResponses s1 = outstandingResponses s + b2z (Packet.needsResponse p);
  rv_le : outstandingResponses s1 <= respQueueLimit s1;
  rv_list : respList s1 = respList s;
  rv_event : respEvent s1 = respEvent s;
  rv_limit : respQueueLimit s1 = respQueueLimit s;
  rv_retry : retryReq s1 = retryReq s
}.

Lemma reserve_ok p s :
  0 <= outstandingResponses s <= respQueueLimit s -> respQueueLimit s < 4294967296 ->
  if Packet.needsResponse p && respQueueFull s then reserve p s = Ok (set_retry true s)
  else exists s1, reserve p s = Ok s1 /\ reserved p s s1.
Proof.
  intros Ho Hl. unfold reserve, respQueueFull. destruct (Packet.needsResponse p) eqn:N; cbn [andb].
  - destruct (Z.eqb_spec (outstandingResponses s) (respQueueLimit s)); [done|].
    cbn [negb assert_that mbind res_bind]. eexists. split; [reflexivity|].
    rewrite u32_id by (unfold is_u32; lia). split; cbn; try done; rewrite ?N; cbn; lia.
  - exists s. split; [done|]. split; try done; rewrite ?N; cbn; lia.
Qed.

Lemma accept_ok now p w lo :
  ok w -> later now w -> retryReq (slavePort (bridge w)) = false -> logic_ok lo ->
  0 <= Packet.headerDelay p + Packet.payloadDelay p ->
  exists b', accept now p (bridge w) = Ok (room p (bridge w), b') /\
    retries b' = retries (bridge w) /\ retryReq (slavePort b') = negb (room p (bridge w)) /\
    ok (mk b' lo now (reqBlocked w) (respBlocked w) (inflight w)
          (if room p (bridge w) then accepted w ++ [clear_delays p] else accepted w)
          (forwarded w) (received w) (delivered w)).
Proof.
  intros [H1 H2 H3 H4 H5 H6 H7 H8 H9 H10 H11 H12] (Ht & Hn1 & Hn2) Hretry Hlo Hd. unfold accept, room.
  pose proof (clock_later _ now _ H2 Ht) as Hc. pose proof (link_later _ _ _ _ now H4 Ht Hn1) as Hq.
  pose proof (link_later _ _ _ _ now H5 Ht Hn2) as Hr.
  destruct (reqQueueFull (masterPort (bridge w))) eqn:F; cbn [negb andb].
  { cbn [mbind res_bind]. eexists. split; [reflexivity|]. split; [done|]. split; [done|].
    split; cbn; try done. intros _. left. unfold reqQueueFull in F.
    destruct (reqList (masterPort (bridge w))); [apply Z.eqb_eq in F; cbn in F; lia|done]. }
  pose proof (awaited_nonneg (reqList (masterPort (bridge w)))) as Hn.
  pose proof (reserve_ok p (slavePort (bridge w)) ltac:(lia) ltac:(lia)) as Hres.
  destruct (Packet.needsResponse p && respQueueFull (slavePort (bridge w))) eqn:G; cbn [negb].
  { rewrite Hres. cbn [mbind res_bind negb set_retry retryReq].
    eexists. split; [reflexivity|]. split; [done|]. split; [done|].
    split; cbn; try done. intros _. right. apply andb_true_iff in G as [_ G].
    apply Z.eqb_eq in G. lia. }
  destruct Hres as (s1 & -> & [Ho Hle E1 E2 E3 E4]). rewrite Hretry in E4.
  cbn [mbind res_bind]. rewrite E4. cbn [negb clock with_slave delay].
  destruct (clock_edge_ok now (delay (bridge w)) (clock (bridge w)) Hc H3) as (e & c & -> & He & Hc').
  unfold schedTimingReq. cbn [masterPort with_clock with_slave].
  destruct (link_push _ _ _ _ now (e + (Packet.headerDelay p + Packet.payloadDelay p)) (clear_delays p)
    H4 Ht Hn1) as (ev & -> & Hl); [lia|].
  cbn [mbind res_bind]. rewrite F. cbn [negb assert_that mbind res_bind slavePort with_master
    with_clock with_slave]. rewrite E4.
  eexists. split; [reflexivity|]. cbn [retries with_master with_clock with_slave slavePort].
  split; [done|]. split; [done|].
  apply Z.eqb_neq in F.
  split; cbn [logic bridge time reqBlocked respBlocked inflight accepted forwarded received delivered
    clock delay slavePort masterPort with_master with_clock with_slave set_requests reqList reqEvent
    reqQueueLimit]; rewrite ?E1, ?E2, ?E3, ?E4, ?awaited_snoc, ?length_app, ?fmap_app, ?H11, <- ?app_assoc;
    cbn [length pkt]; try done; try lia.
  change (Packet.needsResponse (clear_delays p)) with (Packet.needsResponse p). lia.
Qed.

Lemma response_ok now p w lo extra :
  ok w -> later now w -> 0 < inflight w -> logic_ok lo -> 0 <= extra ->
  0 <= Packet.headerDelay p + Packet.payloadDelay p ->
  exists b', (let '(e, c) := Clocked.clockEdge now (delay (bridge w)) (clock (bridge w)) in
      schedTimingResp now (clear_delays p) (e + (Packet.headerDelay p + Packet.payloadDelay p) + extra)
        (with_clock c (bridge w))) = Ok b' /\
    let w' := mk b' lo now (reqBlocked w) (respBlocked w) (inflight w - 1) (accepted w) (forwarded w)
          (received w ++ [clear_delays p]) (delivered w) in
    ok w' /\ progress w w'.
Proof.
  intros [H1 H2 H3 H4 H5 H6 H7 H8 H9 H10 H11 H12] (Ht & Hn1 & Hn2) Hin Hlo Hx Hd.
  pose proof (clock_later _ now _ H2 Ht) as Hc. pose proof (link_later _ _ _ _ now H4 Ht Hn1) as Hq.
  destruct (clock_edge_ok now (delay (bridge w)) (clock (bridge w)) Hc H3) as (e & c & -> & He & Hc').
  unfold schedTimingResp. cbn [slavePort with_clock].
  destruct (link_push _ _ _ _ now (e + (Packet.headerDelay p + Packet.payloadDelay p) + extra)
    (clear_delays p) H5 Ht Hn2) as (ev & -> & Hl); [lia|].
  cbn [mbind res_bind]. eexists. split; [reflexivity|]. cbn zeta. split.
  - split; cbn [logic bridge time reqBlocked respBlocked inflight accepted forwarded received delivered
    clock delay slavePort masterPort with_clock with_slave set_responses respList respEvent
    outstandingResponses respQueueLimit retryReq]; rewrite ?length_app, ?fmap_app, ?H12, <- ?app_assoc;
    cbn [length]; try done; lia.
  - split; try done. unfold work. cbn [bridge inflight masterPort slavePort with_slave with_clock
      set_responses respList]. rewrite length_app. cbn [length]. lia.
Qed.

(** *** All steps *)

Definition cooperative (l : label) : Prop :=
  match l with
  | ReqEvent sent | ReqRetry sent | RespEvent sent | RespRetry sent => sent = true
  | Response _ => True
  | Request _ => False
  end.

Lemma disarm_req_id b : reqEvent (masterPort b) = None -> disarm_req b = b.
Proof. destruct b as [s [q l ev] d c r]. cbn. by intros ->. Qed.
Lemma disarm_resp_id b : respEvent (slavePort b) = None -> disarm_resp b = b.
Proof. destruct b as [[q n r l ev] m d c k]. cbn. by intros ->. Qed.

Lemma request_ok now p w :
  ok w -> later now w -> valid_request now p (logic w) ->
  0 <= Packet.headerDelay p + Packet.payloadDelay p ->
  exists w', step now (Request p) w = Ok w' /\ ok w'.
Proof.
  intros Hw Hl Hv Hd. cbn [step]. unfold recvTimingReq.
  destruct (on_request_ok now p (retryReq (slavePort (bridge w))) (logic w) (ok_logic w Hw) Hv)
    as (go & lo & -> & Hlo & Hgo). cbn [mbind res_bind]. destruct go.
  - destruct (accept_ok now p w lo Hw Hl) as (b' & -> & _ & _ & Hok); [by apply Hgo|done|done|].
    cbn [mbind res_bind]. by eexists.
  - eexists. split; [reflexivity|]. destruct Hl as (Ht & Hn1 & Hn2).
    destruct Hw as [H1 H2 H3 H4 H5 H6 H7 H8 H9 H10 H11 H12]. split; try done.
    + by apply (clock_later (time w)).
    + by apply (link_later _ _ _ (time w)).
    + by apply (link_later _ _ _ (time w)).
Qed.

Lemma step_ok now l w :
  ok w -> enabled now l w ->
  exists w', step now l w = Ok w' /\ ok w' /\ (cooperative l -> progress w w').
Proof.
  intros Hw (Ht & Hn1 & Hn2 & He). assert (later now w) as Hl by done.
  pose proof (ok_req w Hw) as Hq. pose proof (ok_resp w Hw) as Hr.
  destruct l as [p|sent|sent|p|sent|sent]; cbn [cooperative].
  - destruct He as [Hv Hd]. destruct (request_ok now p w Hw Hl Hv Hd) as (w' & ? & ?).
    by exists w'.
  - rewrite He in Hq. destruct (link_due _ _ _ _ Hq) as (d & rest & Eq & Hd).
    destruct (offer_ok now sent w d rest Hw Hl Eq Hd) as (w' & ? & ? & _ & ?). by exists w'.
  - rewrite He in Hq. destruct (link_blocked _ _ _ Hq) as (d & rest & Eq & Ev & Hd).
    destruct (offer_ok now sent w d rest Hw Hl Eq) as (w' & E & ? & _ & ?); [lia|].
    rewrite disarm_req_id in E by done. by exists w'.
  - destruct He as (Hin & Hv & Hd).
    destruct (on_response_ok now p (logic w) (ok_logic w Hw) Hv) as (x & lo & E & Hlo & Hx).
    destruct (response_ok now p w lo x Hw Hl Hin Hlo Hx Hd) as (b' & Eb & Hok & Hpr).
    cbn [step]. unfold recvTimingResp. rewrite E. cbn [mbind res_bind].
    destruct (Clocked.clockEdge _ _ _) as [e c]. rewrite Eb. cbn [mbind res_bind].
    eexists. split; [reflexivity|]. done.
  - rewrite He in Hr. destruct (link_due _ _ _ _ Hr) as (d & rest & Eq & Hd).
    destruct (deliver_ok now sent w d rest Hw Hl Eq Hd) as (w' & ? & ? & _ & ?). by exists w'.
  - rewrite He in Hr. destruct (link_blocked _ _ _ Hr) as (d & rest & Eq & Ev & Hd).
    destruct (deliver_ok now sent w d rest Hw Hl Eq) as (w' & E & ? & _ & ?); [lia|].
    rewrite disarm_resp_id in E by done. by exists w'.
Qed.

Lemma reachable_ok w0 w : ok w0 -> reachable w0 w -> ok w.
Proof.
  intros H0. induction 1 as [|w l _ IH Hi|w now l w' _ IH He Hs]; [done| |].
  - destruct IH as [H1 H2 H3 H4 H5 H6 H7 H8 H9 H10 H11 H12]. split; try done. by eapply interferes_ok.
  - destruct (step_ok now l w IH He) as (w2 & E & H2 & _). congruence.
Qed.

(** C5: a bridge that starts empty never fails one of its assertions,
    whatever requests, responses, refusals and retries the two peers produce in
    whatever order, and whatever the rest of the system does to the predictor
    attached to it in between: every step the protocol allows succeeds.  Its request queue
    never exceeds [req_size]; the responses queued, owed by the memory side and
    reserved for queued requests together never exceed [resp_size], so a response
    always finds space. *)
Theorem bridge_safe d req_limit resp_limit period lo w :
  logic_ok lo -> 0 <= d -> 0 < period -> 0 < req_limit < 4294967296 ->
  0 < resp_limit < 4294967296 ->
  reachable (init (new d req_limit resp_limit period) lo) w ->
  (forall now l, enabled now l w -> exists w', step now l w = Ok w') /\
  Z.of_nat (length (reqList (masterPort (bridge w)))) <= reqQueueLimit (masterPort (bridge w)) /\
  Z.of_nat (length (respList (slavePort (bridge w)))) + inflight w +
    awaited (reqList (masterPort (bridge w))) <= respQueueLimit (slavePort (bridge w)).
Proof.
  intros Hl Hd Hp Hq Hr Hw.
  assert (ok w) as Hok by (eapply reachable_ok; [|exact Hw]; by apply init_ok).
  split; [|split].
  - intros now l He. destruct (step_ok now l w Hok He) as (w' & E & _). eauto.
  - apply Hok.
  - destruct (ok_resp_limit w Hok). pose proof (ok_count w Hok). lia.
Qed.

(** *** Refinement of two queues *)

Record fifo := mkFifo {
  requests : list Packet.t;
  responses : list Packet.t;
  requests_out : list Packet.t;
  responses_out : list Packet.t
}.

(** The specification: a request is taken or refused, packets leave in the
    order in which they came and nothing else happens to them. *)
Inductive fifo_step : label -> fifo -> fifo -> Prop :=
| fs_accept p f : fifo_step (Request p) f
    (mkFifo (requests f ++ [clear_delays p]) (responses f) (requests_out f) (responses_out f))
| fs_refuse p f : fifo_step (Request p) f f
| fs_forward l p q f : l = ReqEvent true \/ l = ReqRetry true -> requests f = p :: q ->
    fifo_step l f (mkFifo q (responses f) (requests_out f ++ [p]) (responses_out f))
| fs_respond p f : fifo_step (Response p) f
    (mkFifo (requests f) (responses f ++ [clear_delays p]) (requests_out f) (responses_out f))
| fs_deliver l p q f : l = RespEvent true \/ l = RespRetry true -> responses f = p :: q ->
    fifo_step l f (mkFifo (requests f) q (requests_out f) (responses_out f ++ [p]))
| fs_keep l f : l = ReqEvent false \/ l = ReqRetry false \/ l = RespEvent false \/ l = RespRetry false ->
    fifo_step l f f.

Definition abs (w : t L) : fifo :=
  mkFifo (pkt <$> reqList (masterPort (bridge w))) (pkt <$> respList (slavePort (bridge w)))
    (forwarded w) (delivered w).

Lemma trySendReq_shape now sent b p b' :
  trySendReq now sent b = Ok (p, b') ->
  exists d rest, reqList (masterPort b) = d :: rest /\ p = pkt d /\
    reqList (masterPort b') = (if sent then rest else d :: rest) /\
    respList (slavePort b') = respList (slavePort b).
Proof.
  unfold trySendReq. destruct (reqList (masterPort b)) as [|d rest] eqn:E; [done|].
  destruct (tick d <=? now); [|done]. cbn [assert_that mbind res_bind]. destruct sent.
  - intros H. apply bind_ok in H as ([ev c] & _ & [= <- <-]). exists d, rest.
    unfold retryStalledReq. cbn. by destruct (retryReq (slavePort b)).
  - intros [= <- <-]. by exists d, rest.
Qed.

Lemma trySendResp_shape now sent b p b' :
  trySendResp now sent b = Ok (p, b') ->
  exists d rest, respList (slavePort b) = d :: rest /\ p = pkt d /\
    respList (slavePort b') = (if sent then rest else d :: rest) /\
    reqList (masterPort b') = reqList (masterPort b).
Proof.
  unfold trySendResp. destruct (respList (slavePort b)) as [|d rest] eqn:E; [done|].
  destruct (tick d <=? now); [|done]. cbn [assert_that mbind res_bind]. destruct sent.
  - intros H. apply bind_ok in H as (u & _ & H). apply bind_ok in H as ([ev c] & _ & [= <- <-]).
    exists d, rest. split; [done|]. split; [done|]. cbn [masterPort with_clock with_slave retryReq
      set_responses set_outstanding]. destruct (_ && _); [|done].
    unfold retryStalledReq. by destruct (retryReq _).
  - intros [= <- <-]. by exists d, rest.
Qed.

Lemma sched_shape now p when b b' :
  schedTimingReq now p when b = Ok b' ->
  reqList (masterPort b') = reqList (masterPort b) ++ [mkDeferred when p] /\
  slavePort b' = slavePort b.
Proof. unfold schedTimingReq. intros H. res_inv. done. Qed.

Lemma reserve_lists p s s1 : reserve p s = Ok s1 -> respList s1 = respList s.
Proof. unfold reserve. intros H. repeat case_match; res_inv; done. Qed.

Lemma accept_shape now p b ok b' :
  accept now p b = Ok (ok, b') ->
  respList (slavePort b') = respList (slavePort b) /\
  pkt <$> reqList (masterPort b') =
    (pkt <$> reqList (masterPort b)) ++ (if ok then [clear_delays p] else []).
Proof.
  unfold accept. intros H. apply bind_ok in H as (b1 & E & [= <- <-]).
  destruct (reqQueueFull (masterPort b)).
  - injection E as <-. cbn. by rewrite app_nil_r.
  - apply bind_ok in E as (s1 & Es & E). apply reserve_lists in Es.
    destruct (retryReq s1) eqn:Er; cbn [negb] in E.
    + injection E as <-. cbn. rewrite Er, app_nil_r. done.
    + destruct (Clocked.clockEdge _ _ _) as [e c]. apply sched_shape in E as [E1 E2].
      rewrite E1, E2, fmap_app. cbn. by rewrite Er.
Qed.

Lemma step_simulates now l w w' : step now l w = Ok w' -> fifo_step l (abs w) (abs w').
Proof.
  unfold abs. destruct l as [p|sent|sent|p|sent|sent]; cbn [step]; intros H.
  - apply bind_ok in H as ([[ok b] lo] & E & [= <-]). unfold recvTimingReq in E.
    apply bind_ok in E as ([go l1] & _ & E). cbn. destruct go.
    + apply bind_ok in E as ([ok1 b1] & E & [= <- <- <-]). apply accept_shape in E as [-> ->].
      destruct ok1; [apply (fs_accept p (abs w))|rewrite app_nil_r; apply fs_refuse].
    + injection E as <- <- <-. apply fs_refuse.
  - apply bind_ok in H as ([p b] & E & [= <-]). apply trySendReq_shape in E as (d & rest & E1 & -> & E3 & E4).
    cbn in E1, E4. destruct sent; cbn; rewrite E3, E4, E1.
    + eapply (fs_forward _ _ _ (mkFifo _ _ _ _)); [by left|done].
    + apply fs_keep. tauto.
  - apply bind_ok in H as ([p b] & E & [= <-]). apply trySendReq_shape in E as (d & rest & E1 & -> & E3 & E4).
    destruct sent; cbn; rewrite E3, E4, E1.
    + eapply (fs_forward _ _ _ (mkFifo _ _ _ _)); [by right|done].
    + apply fs_keep. tauto.
  - apply bind_ok in H as ([b lo] & E & [= <-]). unfold recvTimingResp in E.
    apply bind_ok in E as ([x l1] & _ & E). destruct (Clocked.clockEdge _ _ _) as [e c].
    apply bind_ok in E as (b1 & E & [= <- <-]). unfold schedTimingResp in E. res_inv. cbn.
    rewrite fmap_app. apply (fs_respond p (mkFifo _ _ _ _)).
  - apply bind_ok in H as ([p b] & E & [= <-]). apply trySendResp_shape in E as (d & rest & E1 & -> & E3 & E4).
    cbn in E1, E4. destruct sent; cbn; rewrite E3, E4, E1.
    + eapply (fs_deliver _ _ _ (mkFifo _ _ _ _)); [by left|done].
    + apply fs_keep. tauto.
  - apply bind_ok in H as ([p b] & E & [= <-]). apply trySendResp_shape in E as (d & rest & E1 & -> & E3 & E4).
    destruct sent; cbn; rewrite E3, E4, E1.
    + eapply (fs_deliver _ _ _ (mkFifo _ _ _ _)); [by right|done].
    + apply fs_keep. tauto.
Qed.

Inductive fifo_run : list label -> fifo -> fifo -> Prop :=
| fr_nil f : fifo_run [] f f
| fr_cons l ls f f1 f2 : fifo_step l f f1 -> fifo_run ls f1 f2 -> fifo_run (l :: ls) f f2.

Definition run (tr : list (Z * label)) (w : t L) : res (t L) :=
  for_each tr (fun '(now, l) w => step now l w) w.

(** C31: every execution of a bridge, with any predictor attached, is an
    execution of the specification with two unbounded queues under the
    abstraction that forgets delays, events and limits: requests and responses
    leave in the order in which they were accepted, each exactly once and
    otherwise unchanged. *)
Theorem bridge_refines_fifo tr w w' :
  run tr w = Ok w' -> fifo_run (snd <$> tr) (abs w) (abs w').
Proof.
  revert w. induction tr as [|[now l] tr IH]; intros w H.
  - injection H as <-. constructor.
  - cbn in H. apply bind_ok in H as (w1 & E & H). econstructor; [by eapply step_simulates|by apply IH].
Qed.

(** *** Progress *)

(** Runs in which the peers accept what they are sent. *)
Inductive coop_run : nat -> t L -> t L -> Prop :=
| cr_refl w : coop_run 0 w w
| cr_step n now l w w1 w2 :
    enabled now l w -> cooperative l -> step now l w = Ok w1 -> coop_run n w1 w2 ->
    coop_run (S n) w w2.

Lemma coop_run_ok n w w' :
  coop_run n w w' -> ok w -> ok w' /\ work w' + Z.of_nat n <= work w /\
    accepted w' = accepted w /\ promised w' = promised w.
Proof.
  induction 1 as [|n now l w w1 w2 He Hc Hs _ IH]; intros Hw; [split; [done|]; split; [lia|done]|].
  destruct (step_ok now l w Hw He) as (w1' & E & Hok & Hpr).
  assert (w1' = w1) as -> by congruence.
  destruct (Hpr Hc) as [P1 P2 P3]. destruct (IH Hok) as (H1 & H2 & H3 & H4).
  split; [done|]. split; [lia|]. split; congruence.
Qed.

Lemma link_idle q ev bl now : link_ok q ev bl now -> ev = None -> bl = false -> q = [].
Proof. intros H -> ->. destruct q; [done|]. by destruct H. Qed.

Lemma link_event q e bl now : link_ok q (Some e) bl now -> now <= e.
Proof. destruct q; cbn; [by intros [? _]|]. by intros (_ & _ & ?). Qed.

Lemma work_pos w :
  ok w -> reqEvent (masterPort (bridge w)) = None -> respEvent (slavePort (bridge w)) = None ->
  reqBlocked w = false -> respBlocked w = false -> inflight w <= 0 -> work w = 0.
Proof.
  intros Hw E1 E2 B1 B2 Hi. unfold work.
  rewrite (link_idle _ _ _ _ (ok_req w Hw) E1 B1), (link_idle _ _ _ _ (ok_resp w Hw) E2 B2).
  pose proof (ok_inflight w Hw). cbn. lia.
Qed.

(** While work is left some step is enabled. *)
Lemma coop_enabled w : ok w -> 0 < work w -> exists now l, enabled now l w /\ cooperative l.
Proof.
  intros Hw Hpos. pose proof (ok_req w Hw) as Hq. pose proof (ok_resp w Hw) as Hr.
  destruct (reqEvent (masterPort (bridge w))) as [e1|] eqn:E1,
    (respEvent (slavePort (bridge w))) as [e2|] eqn:E2.
  - assert (time w <= e1) by (by eapply link_event).
    assert (time w <= e2) by (by eapply link_event).
    destruct (Z.le_gt_cases e1 e2).
    + exists e1, (ReqEvent true). unfold enabled, not_past. rewrite E1, E2. split; [|done].
      split; [done|]. split; [by intros ? [= <-]|]. split; [by intros ? [= <-]|done].
    + exists e2, (RespEvent true). unfold enabled, not_past. rewrite E1, E2. split; [|done].
      split; [done|]. split; [intros ? [= <-]; lia|]. split; [by intros ? [= <-]|done].
  - assert (time w <= e1) by (by eapply link_event).
    exists e1, (ReqEvent true). unfold enabled, not_past. rewrite E1, E2. split; [|done].
    split; [done|]. split; [by intros ? [= <-]|]. done.
  - assert (time w <= e2) by (by eapply link_event).
    exists e2, (RespEvent true). unfold enabled, not_past. rewrite E1, E2. split; [|done].
    split; [done|]. split; [done|]. split; [by intros ? [= <-]|done].
  - exists (time w).
    assert (forall l, match l with
      | Request p => False | ReqEvent _ | RespEvent _ => False
      | ReqRetry _ => reqBlocked w = true | RespRetry _ => respBlocked w = true
      | Response p => 0 < inflight w /\ valid_response (time w) p (logic w) /\
          0 <= Packet.headerDelay p + Packet.payloadDelay p end -> enabled (time w) l w) as Hen.
    { intros l Hl. unfold enabled, not_past. rewrite E1, E2.
      split; [lia|]. split; [done|]. split; [done|]. by destruct l. }
    destruct (reqBlocked w) eqn:B1; [exists (ReqRetry true); split; [by apply Hen|done]|].
    destruct (respBlocked w) eqn:B2; [exists (RespRetry true); split; [by apply Hen|done]|].
    destruct (Z.lt_ge_cases 0 (inflight w)) as [Hi|Hi].
    + destruct (some_response (time w) (logic w) (ok_logic w Hw)) as (p & Hv & Hd).
      exists (Response p). split; [by apply Hen|done].
    + pose proof (work_pos w Hw E1 E2 B1 B2 Hi). lia.
Qed.

(** Every request went through and every response came back. *)
Definition drained (w : t L) : Prop :=
  forwarded w = accepted w /\ delivered w = received w /\ inflight w = 0 /\
  outstandingResponses (slavePort (bridge w)) = 0 /\ retryReq (slavePort (bridge w)) = false.

Lemma work_drained w : ok w -> work w <= 0 -> drained w.
Proof.
  intros [H1 H2 H3 H4 H5 H6 H7 H8 H9 H10 H11 H12] Hw. unfold work in Hw.
  destruct (reqList (masterPort (bridge w))) eqn:E1; [|cbn in Hw; lia].
  destruct (respList (slavePort (bridge w))) eqn:E2; [|cbn in Hw; lia].
  cbn in *. rewrite app_nil_r in *. unfold drained. repeat split; try done; try lia.
  destruct (retryReq (slavePort (bridge w))); [|done]. destruct H10; [done|done|lia].
Qed.

(** C30: as long as the peers accept what they are sent, a bridge works
    off what it holds: such a run has at most three steps per queued request,
    two per response owed and one per queued response, it can always go on until
    nothing is left, and then every accepted request was forwarded, every
    response delivered, no space is reserved, and a request that was stalled has
    been told to retry. *)
Theorem bridge_drains n w w' :
  ok w -> coop_run n w w' ->
  Z.of_nat n <= work w /\
  ((forall now l, enabled now l w' -> cooperative l -> False) \/ Z.of_nat n = work w ->
     drained w' /\ accepted w' = accepted w /\
     retries (bridge w') = retries (bridge w) + b2z (retryReq (slavePort (bridge w)))).
Proof.
  intros Hw Hr. destruct (coop_run_ok n w w' Hr Hw) as (Hok & Hwork & Hacc & Hpr).
  assert (0 <= work w') as Hpos
    by (unfold work; pose proof (ok_inflight w' Hok); lia).
  split; [lia|]. intros Hstop.
  assert (work w' <= 0) as Hz.
  { destruct Hstop as [Hstop|]; [|lia]. destruct (Z.le_gt_cases (work w') 0); [done|].
    destruct (coop_enabled w' Hok) as (now & l & He & Hc); [lia|]. by destruct (Hstop now l). }
  pose proof (work_drained w' Hok Hz) as Hd. split; [done|]. split; [done|].
  unfold promised in Hpr. destruct Hd as (_ & _ & _ & _ & Hf). rewrite Hf in Hpr. cbn in Hpr. lia.
Qed.

Lemma not_full_after b d rest n :
  outstandingResponses (slavePort b) = n -> n <= respQueueLimit (slavePort b) ->
  respQueueLimit (slavePort b) < 4294967296 -> 0 < n -> respList (slavePort b) = d :: rest ->
  forall now p b', trySendResp now true b = Ok (p, b') ->
    retries b' <> retries b ->
    reqQueueFull (masterPort b') = false /\ respQueueFull (slavePort b') = false.
Proof.
  intros Hn Hle Hlim Hpos Hq now p b' H Hre. unfold trySendResp in H. rewrite Hq in H.
  apply bind_ok in H as (u & _ & H). apply bind_ok in H as (u' & _ & H).
  apply bind_ok in H as ([ev c] & _ & [= _ <-]). revert Hre. cbn [masterPort with_clock with_slave].
  destruct (reqQueueFull (masterPort b)) eqn:F; cbn [negb andb]; [done|].
  cbn [retryReq set_responses set_outstanding]. destruct (retryReq (slavePort b)) eqn:R; [|done].
  intros _. unfold retryStalledReq. cbn. rewrite R. cbn. split; [done|].
  unfold respQueueFull. cbn. rewrite u32_id by (unfold is_u32; lia). apply Z.eqb_neq. lia.
Qed.

(** When a response leaves and the bridge thereupon asks for the
    stalled request again, that request, or any other, is accepted if it comes
    at once: there is room in both queues. *)
Theorem retry_after_response now w w' p :
  ok w -> enabled now (RespEvent true) w -> step now (RespEvent true) w = Ok w' ->
  retries (bridge w') <> retries (bridge w) -> room p (bridge w') = true.
Proof.
  intros Hw (Ht & Hn1 & Hn2 & He) Hs Hre. cbn [step] in Hs.
  apply bind_ok in Hs as ([q b] & E & [= <-]). cbn [bridge] in *.
  pose proof (ok_resp w Hw) as Hr. rewrite He in Hr. destruct (link_due _ _ _ _ Hr) as (d & rest & Eq & _).
  pose proof (awaited_nonneg (reqList (masterPort (bridge w)))) as Ha.
  destruct Hw as [H1 H2 H3 H4 H5 H6 H7 H8 H9 H10 H11 H12]. rewrite Eq in H7. cbn [length] in H7.
  unfold respEventFires in E. fold (disarm_resp (bridge w)) in E.
  unfold room. destruct (not_full_after (disarm_resp (bridge w)) d rest
    (outstandingResponses (slavePort (bridge w)))) with (now := now) (p := q) (b' := b) as [-> ->];
    try done; cbn; lia.
Qed.
End Invariant.

(** ** The bridge of gem5 itself *)

(** [BridgeSlavePort::recvTimingReq] before the queues. *)
Definition plain_request (now : Z) (p : Packet.t) (stalled : bool) (l : unit) : res (bool * unit) :=
  panic_if (Packet.cacheResponding p) ;; Ok (negb stalled, l).
Definition plain_response (now : Z) (p : Packet.t) (l : unit) : res (Z * unit) := Ok (0, l).

Definition sample_store : Packet.t := Packet.store 0x10000000040 0x240000040 0x500 [17; 18].

#[export] Program Instance plain_logic : PortLogic unit := {|
  on_request := plain_request;
  on_response := plain_response;
  interferes := eq;
  logic_ok := fun _ => True;
  valid_request := fun _ p _ => Packet.cacheResponding p = false;
  valid_response := fun _ _ _ => True
|}.
Next Obligation.
  intros now p stalled l _ Hp. cbn in *. unfold plain_request. rewrite Hp. cbn.
  exists (negb stalled), l. split; [done|]. split; [done|]. by destruct stalled.
Qed.
Next Obligation. intros now p l _ _. by exists 0, l. Qed.
Next Obligation. done. Qed.
Next Obligation. intros now l _. exists sample_store. cbn. split; [done|]. lia. Qed.

(** *** Evaluation: a bridge with room for one request and one response *)

Definition sample_bridge : t unit := init (new 2 1 1 500) tt.
Definition after (tr : list (Z * label)) (w : t unit) : t unit :=
  match run tr w with Ok w' => w' | Fail _ => w end.
(** One store is queued, a second one is stalled. *)
Definition sample_stalled : t unit :=
  after [(3, Request sample_store); (3, Request sample_store)] sample_bridge.

Lemma sample_bridge_ok : ok sample_bridge.
Proof. apply init_ok; done || lia. Qed.

Lemma sample_reachable : reachable sample_bridge sample_stalled.
Proof.
  eapply (reachable_step _ (after [(3, Request sample_store)] sample_bridge) 3
    (Request sample_store)).
  - eapply (reachable_step _ sample_bridge 3 (Request sample_store)); [constructor| |reflexivity].
    repeat split; cbn; done || lia.
  - repeat split; cbn; try lia; try done. intros e [= <-]. lia.
  - vm_compute. reflexivity.
Qed.

Lemma bridge_safe_witness :
  exists w', step 1500 (ReqEvent true) sample_stalled = Ok w' /\
    retries (bridge w') = 1 /\ inflight w' = 1.
Proof.
  destruct (bridge_safe 2 1 1 500 tt sample_stalled) as (H & _); try done; try lia.
  - exact sample_reachable.
  - destruct (H 1500 (ReqEvent true)) as (w' & E).
    + repeat split; cbn; try lia; try done. intros e [= <-]. lia.
    + exists w'. split; [exact E|]. vm_compute in E. injection E as <-. done.
Defined.

Lemma bridge_refines_fifo_witness :
  exists w', run [(1500, ReqEvent true); (1500, Request sample_store)] sample_stalled = Ok w' /\
    fifo_run [ReqEvent true; Request sample_store] (abs sample_stalled) (abs w').
Proof.
  eexists. split; [vm_compute; reflexivity|].
  apply (bridge_refines_fifo [(1500, ReqEvent true); (1500, Request sample_store)]).
  vm_compute. reflexivity.
Defined.

(** The run that empties the bridge: the request leaves, its response comes
    back and is delivered. *)
Definition sample_drain : list (Z * label) :=
  [(1500, ReqEvent true); (1600, Response sample_store); (3000, RespEvent true)].

Ltac check_enabled := repeat split; vm_compute; try done; by intros e [= <-].
Ltac coop_next now l := eapply (cr_step _ now l); [check_enabled|done|vm_compute; reflexivity|].

Lemma sample_drains : coop_run 3 sample_stalled (after sample_drain sample_stalled).
Proof.
  coop_next 1500 (ReqEvent true). coop_next 1600 (Response sample_store).
  coop_next 3000 (RespEvent true). vm_compute. constructor.
Qed.

Lemma bridge_drains_witness :
  drained (after sample_drain sample_stalled) /\
  retries (bridge (after sample_drain sample_stalled)) = 1.
Proof.
  destruct (bridge_drains 3 sample_stalled (after sample_drain sample_stalled)) as (_ & H).
  - eapply reachable_ok; [apply sample_bridge_ok|apply sample_reachable].
  - exact sample_drains.
  - destruct H as (H1 & _ & H2); [right; reflexivity|]. split; [exact H1|exact H2].
Defined.

(** One response is queued, a second request is stalled because of it. *)
Definition sample_full : t unit :=
  after [(3, Request sample_store); (1500, ReqEvent true); (1600, Response sample_store);
         (1700, Request sample_store)] sample_bridge.

Lemma sample_waiting_bridge : ok sample_full.
Proof.
  eapply reachable_ok; [apply sample_bridge_ok|].
  set (p := sample_store).
  eapply (reachable_step _ (after [(3, Request p); (1500, ReqEvent true); (1600, Response p)]
    sample_bridge) 1700 (Request p)); [|check_enabled|vm_compute; reflexivity].
  eapply (reachable_step _ (after [(3, Request p); (1500, ReqEvent true)] sample_bridge) 1600
    (Response p)); [|check_enabled|vm_compute; reflexivity].
  eapply (reachable_step _ (after [(3, Request p)] sample_bridge) 1500 (ReqEvent true));
    [|check_enabled|vm_compute; reflexivity].
  eapply (reachable_step _ sample_bridge 3 (Request p)); [constructor|check_enabled|reflexivity].
Qed.

Lemma retry_after_response_witness :
  exists w', step 3000 (RespEvent true) sample_full = Ok w' /\ room sample_store (bridge w') = true.
Proof.
  eexists. split; [vm_compute; reflexivity|].
  eapply (retry_after_response 3000 sample_full _ sample_store sample_waiting_bridge).
  - check_enabled.
  - vm_compute. reflexivity.
  - vm_compute. done.
Defined.
End World.
