(* ===== verification/PredictorPorts.v ===== *)
(** * The ports of the predictor

    [PredictorFrontend] and [PredictorBackend] are bridges whose ports call the
    predictor: [mem/predictor_frontend.cc], lines 277-600, and
    [mem/predictor_backend.cc], lines 241-542.  The queues of these ports are
    those of [Bridge]; this file models what the predictors add, as instances of
    [PortLogic], and proves that the two bridges with the predictor inside never
    stop. *)

From S2P Require Import Prelude Common PageTable Chunk CacheLine Queues AddrPredictor Shared.
From S2P Require Import WriteHistory PredictorTable CompletedWrite Backend PendingTable Frontend.
From S2P Require Import LineSearch Requests Delivery Promotion System Clock Bridge.

(** ** The backend between the caches and the memory *)
Module BackendPort.
Import Backend.

Definition logic : Type := Backend.t * SharedArea.t.

(** Packets of the memory controller's own metadata. *)
Definition metadata (p : Packet.t) : bool :=
  Packet.isCounterPacket p || Packet.isVerificationCacheEviction p ||
  Packet.isCounterCacheEviction p || Packet.isVerificationPacket p.

Section Logic.
Context `{O : IterOrder}.
(** The value [maxDataMatchHash] holds before the matching loop assigns it. *)
Variable hash0 : Z.

Definition show_evictions (b : Backend.t) : Backend.t :=
  with_stats (Stats.set "resultBufferCapacityEvictions" (capacityEvictionStatic b)) b.

(** Lines 276-301 of [recvTimingReq]. *)
Definition on_request (now : Z) (p : Packet.t) (retryReq : bool) (l : logic) : res (bool * logic) :=
  if metadata p then Ok (false, l)
  else
    let '(b, sh) := l in
    l ← predictorHandleRequest now hash0 p (show_evictions b) sh;
    panic_if (Packet.cacheResponding p) ;;
    Ok (negb retryReq, l).

Definition on_response (now : Z) (p : Packet.t) (l : logic) : res (Z * logic) := Ok (0, l).

Definition valid_request (p : Packet.t) : Prop :=
  metadata p = true \/
  (Packet.cacheResponding p = false /\ valid_event (EvRequest 0 0 p)).

Lemma show_evictions_ok b sh : ok (b, sh) -> ok (show_evictions b, sh).
Proof.
  intros [[H1 H2] H3 H4]. split; [by split|done|]. unfold balanced, tally in *. cbn in *.
  by rewrite !Stats.get_set by done.
Qed.

Lemma backend_request_ok now p stalled l :
  ok l -> valid_request p ->
  exists go l', on_request now p stalled l = Ok (go, l') /\ ok l' /\ (go = true -> stalled = false).
Proof.
  intros Hok Hv. unfold on_request. destruct (metadata p) eqn:Em; [by exists false, l|].
  destruct Hv as [?|[Hc Hv]]; [congruence|]. destruct l as [b sh].
  destruct (show_evictions_ok b sh Hok) as [H1 (n & Hn & H2) H3]. cbn [fst snd] in *.
  destruct (request_event_ok n now hash0 p (show_evictions b) sh Hv H1 Hn H2 H3)
    as (b' & sh' & -> & W & S' & B & _).
  cbn [mbind res_bind]. rewrite Hc. cbn [panic_if mbind res_bind].
  eexists _, (b', sh'). split; [done|]. split; [|by destruct stalled].
  split; [done|exists (n + 1); split; [lia|done]|done].
Qed.

(** What happens to the backend between its requests: the frontends add
    predictions and read the feedback, and the switches change; the page table
    and the metadata caches are those of that moment. *)
Definition interferes (l l' : logic) : Prop :=
  exists pt hitC hitV ev, valid_event ev /\ handle pt hitC hitV ev l = Ok l' /\
    match ev with EvRequest _ _ _ => False | _ => True end.

Lemma backend_interferes_ok l l' : ok l -> interferes l l' -> ok l'.
Proof.
  intros Hok (pt & hitC & hitV & ev & Hv & E & _).
  destruct (handle_ok pt hitC hitV ev l Hv Hok) as (l2 & E2 & H2 & _). congruence.
Qed.

#[export] Program Instance backend_logic : PortLogic logic := {|
  Bridge.on_request := on_request;
  Bridge.on_response := on_response;
  Bridge.interferes := interferes;
  Bridge.logic_ok := ok;
  Bridge.valid_request := fun _ p _ => valid_request p;
  Bridge.valid_response := fun _ _ _ => True
|}.
Next Obligation. intros now p stalled l Hok Hv. by apply backend_request_ok. Qed.
Next Obligation. intros now p l Hok _. exists 0, l. done. Qed.
Next Obligation. intros l l'. apply backend_interferes_ok. Qed.
Next Obligation. intros now l _. exists World.sample_store. cbn. split; [done|]. lia. Qed.
End Logic.

(** *** The port functions

    [recvTimingReq] and [recvTimingResp] with the predictor; the other
    functions are those of the bridge. *)
Definition DeferredPacket := Bridge.DeferredPacket.
Definition slave := Bridge.slave.
Definition master := Bridge.master.
Definition newPorts := Bridge.new.
Definition respQueueFull := Bridge.respQueueFull.
Definition reqQueueFull := Bridge.reqQueueFull.
Definition recvTimingReq `{O : IterOrder} (hash0 : Z) (now : Z) (p : Packet.t) (b : Bridge.t) (l : logic)
    : res (bool * Bridge.t * logic) :=
  World.recvTimingReq (PL := backend_logic hash0) now p b l.
Definition recvTimingResp `{O : IterOrder} (hash0 : Z) (now : Z) (p : Packet.t) (b : Bridge.t) (l : logic)
    : res (Bridge.t * logic) :=
  World.recvTimingResp (PL := backend_logic hash0) now p b l.
Definition retryStalledReq := Bridge.retryStalledReq.
Definition schedTimingReq := Bridge.schedTimingReq.
Definition schedTimingResp := Bridge.schedTimingResp.
Definition trySendReq := Bridge.trySendReq.
Definition trySendResp := Bridge.trySendResp.
Definition recvReqRetry := Bridge.recvReqRetry.
Definition recvRespRetry := Bridge.recvRespRetry.
Definition recvFunctional {F : Type} := @Untimed.recvFunctional F.
Definition trySatisfyFunctional {F : Type} := @Untimed.trySatisfyFunctional F.

(** The test for metadata packets only skips the panic. *)
Definition recvAtomic (p : Packet.t) (answer : Z) (b : Bridge.t) : res Z :=
  if metadata p then Ok (Bridge.delay b * Clocked.period (Bridge.clock b) + answer)
  else Untimed.recvAtomic p answer b.

(** C7: the backend between the caches and the memory, in any interleaving of
    requests, responses, refusals and retries that the protocol allows.  Requests are
    metadata packets of the controller, or are not answered by a cache and are no
    persistent write or one of a full aligned line with data (the code panics on a
    partial one); between them well-formed predictions of known PCs are added, the
    feedback is read and the switches change.  Then every step succeeds.  In every
    state reached the writes it counted are not predicted, correctly predicted or
    data-missed, no address holds more predictions than the line limit, and the
    requests leave in the order they were accepted. *)
Theorem backend_port_safe `{O : IterOrder} hash0 c d req_limit resp_limit period w :
  1 <= MAX_COMPLETED_QUEUE_LINE_SIZE c -> 0 <= d -> 0 < period -> 0 < req_limit < 4294967296 ->
  0 < resp_limit < 4294967296 ->
  World.reachable (PL := backend_logic hash0)
    (World.init (Bridge.new d req_limit resp_limit period) (Backend.new c, SharedArea.new)) w ->
  (forall now l, World.enabled (PL := backend_logic hash0) now l w ->
     exists w', World.step (PL := backend_logic hash0) now l w = Ok w') /\
  Stats.get "totalPWrites" (stats (World.logic w).1) =
    Stats.get "nonPredictedPWrites" (stats (World.logic w).1) +
    Stats.get "correctlyPredictedPWrites" (stats (World.logic w).1) +
    Stats.get "dataMissPredictedPWrites" (stats (World.logic w).1) /\
  (forall a q, completedWrites (World.logic w).1 !! a = Some q ->
     Z.of_nat (length q) <= MAX_COMPLETED_QUEUE_LINE_SIZE (cfg (World.logic w).1)) /\
  World.accepted w = World.forwarded w ++
    (Bridge.pkt <$> Bridge.reqList (Bridge.masterPort (World.bridge w))).
Proof.
  intros Hc Hd Hp Hq Hr Hw.
  assert (World.ok (PL := backend_logic hash0) w) as Hok.
  { eapply World.reachable_ok; [|exact Hw]. apply World.init_ok; try done. by apply backend_new_ok. }
  destruct (World.ok_logic w Hok) as [H1 _ H3].
  split; [intros now l He; destruct (World.step_ok now l w Hok He) as (w' & E & _); eauto|].
  split; [exact H3|]. split; [intros a q Ha; by apply (wf_queues _ H1 a q Ha)|].
  apply (World.ok_fifo_req w Hok).
Qed.

(** *** Evaluation: a backend with room for one request *)
Notation PB := (@backend_logic tree_order 0).
Definition demo_port : World.t logic :=
  World.init (Bridge.new 2 1 1 500) (Backend.new Backend.sample_config, SharedArea.new).
Definition demo_enabled : World.t logic :=
  World.with_logic (with_enabled true true (Backend.new Backend.sample_config), SharedArea.new) demo_port.
(** A line is written; the second request is refused. *)
Definition demo_after (tr : list (Z * World.label)) : World.t logic :=
  match World.run (PL := PB) tr demo_enabled with Ok w => w | Fail _ => demo_enabled end.
Definition demo_refused : World.t logic :=
  demo_after [(3, World.Request Backend.sample_pkt); (3, World.Request Backend.sample_pkt)].

Lemma demo_reachable : World.reachable (PL := PB) demo_port demo_refused.
Proof.
  assert (valid_request Backend.sample_pkt) as Hv
    by (right; split; [done|]; left; eexists _, _; apply Backend.sample_pkt_pm).
  eapply (World.reachable_step _ (demo_after [(3, World.Request Backend.sample_pkt)]) 3
    (World.Request Backend.sample_pkt)).
  - eapply (World.reachable_step _ demo_enabled 3 (World.Request Backend.sample_pkt)).
    + apply World.reachable_elsewhere; [constructor|].
      exists Backend.sample_pt, (fun _ => true), (fun _ => false), (EvEnable true true). done.
    + split; [by vm_compute|]. split; [done|]. split; [done|]. split; [exact Hv|by vm_compute].
    + vm_compute. reflexivity.
  - split; [by vm_compute|]. split; [intros e; vm_compute; by intros [= <-]|].
    split; [intros e; by vm_compute|]. split; [exact Hv|by vm_compute].
  - vm_compute. reflexivity.
Qed.

(** The write the bridge refused is counted all the same. *)
Lemma backend_port_safe_witness :
  Stats.get "totalPWrites" (stats (World.logic demo_refused).1) =
    Stats.get "nonPredictedPWrites" (stats (World.logic demo_refused).1) +
    Stats.get "correctlyPredictedPWrites" (stats (World.logic demo_refused).1) +
    Stats.get "dataMissPredictedPWrites" (stats (World.logic demo_refused).1) /\
  length (World.accepted demo_refused) = 1%nat /\
  Stats.get "totalPWrites" (stats (World.logic demo_refused).1) = 2.
Proof.
  destruct (@backend_port_safe tree_order 0 Backend.sample_config 2 1 1 500 demo_refused)
    as (_ & H & _); [by vm_compute|lia|lia|lia|lia|exact demo_reachable|].
  split; [exact H|]. split; vm_compute; reflexivity.
Defined.
End BackendPort.

(** ** The frontend between a core and its cache *)
Module FrontendPort.
Import System.

(** The frontend with the two members its ports use; [clwbLatency] is the
    static table of [DRAMCtrl]. *)
Record logic := mkLogic {
  fe : Frontend.t;
  lastPredictorTick : Z;
  clwbLatency : gmap Z Z
}.

Section Logic.
Context `{O : IterOrder}.
Variable width : Z -> nat.
Variable lim : Frontend.config * Backend.config.
(** What a handler finds around it at a tick. *)
Variable env : Z -> machine.
Hypothesis env_ok : forall now, machine_ok (env now).

(** Lines 331-354 of [recvTimingReq]. *)
Definition on_request (now : Z) (p : Packet.t) (retryReq : bool) (l : logic) : res (bool * logic) :=
  panic_if (Packet.cacheResponding p) ;;
  if retryReq then Ok (false, l)
  else if negb (now =? lastPredictorTick l) then
    f ← request (env now) now p (fe l);
    Ok (true, mkLogic f now (clwbLatency l))
  else Ok (true, l).

(** Lines 304-321 of [recvTimingResp]. *)
Definition is_clwb (p : Packet.t) : res bool :=
  if Packet.isToPOC p && (Packet.reqSize p =? 1) && negb (Packet.hasData p) then
    v ← Packet.getVaddr p; Ok (is_vaddr_pm v)
  else Ok false.

Definition on_response (now : Z) (p : Packet.t) (l : logic) : res (Z * logic) :=
  isClwb ← is_clwb p;
  if Backend.predictorEnabled (Frontend.backend (fe l)) && isClwb then
    v ← Packet.getVaddr p;
    if v =? 0 then Ok (0, l)
    else
      let paddr := default 0 (PageTable.translate (pageTable (env now)) v) in
      panic_if (paddr =? 0) ;;
      let bmoLatency := default 0 (clwbLatency l !! paddr) in
      Ok (bmoLatency, mkLogic (Frontend.with_stats (Stats.incr "clwbResponses") (fe l))
                        (lastPredictorTick l) (delete paddr (clwbLatency l)))
  else Ok (0, l).

Record ok (l : logic) : Prop := {
  ok_tick : 0 <= lastPredictorTick l;
  ok_latency : forall a t, clwbLatency l !! a = Some t -> 0 <= t;
  ok_frontend : exists n, sys_ok width lim (lastPredictorTick l) (lastPredictorTick l) n (fe l)
}.

(** Room for another prediction in the counters of the system. *)
Definition roomy (f : Frontend.t) : Prop :=
  Frontend.nextParent f <= 2147483646 /\ Backend.shared_ok 2147483646 (Frontend.shared f).

(** A request the predictor handles is valid for it, and the undefined reads of a
    write back give some value. *)
Definition valid_request (now : Z) (p : Packet.t) (l : logic) : Prop :=
  Packet.cacheResponding p = false /\ roomy (fe l) /\
  (now <> lastPredictorTick l ->
   lastPredictorTick l < now < UINT64_MAX /\ System.valid_request width p /\
   request_reads (env now) p (fe l) = Ok tt).

(** A write back that returns was translated when it was issued. *)
Definition valid_response (now : Z) (p : Packet.t) (l : logic) : Prop :=
  Packet.isToPOC p && (Packet.reqSize p =? 1) && negb (Packet.hasData p) = true ->
  exists v, Packet.vaddr p = Some v /\
    (is_vaddr_pm v = true -> Backend.predictorEnabled (Frontend.backend (fe l)) = true ->
     exists pa, PageTable.translate (pageTable (env now)) v = Some pa /\ pa <> 0).

Lemma frontend_request_ok now p stalled l :
  ok l -> valid_request now p l ->
  exists go l', on_request now p stalled l = Ok (go, l') /\ ok l' /\ (go = true -> stalled = false).
Proof using env_ok.
  intros [Ht Hc (n & Hf)] (Hp & [R1 R2] & Hv). unfold on_request. rewrite Hp.
  cbn [panic_if mbind res_bind]. destruct stalled; [exists false, l; split; [done|split; [by split; eauto|done]]|].
  destruct (Z.eqb_spec now (lastPredictorTick l)) as [->|Hne]; cbn [negb].
  - exists true, l. split; [done|]. split; [by split; eauto|done].
  - destruct (Hv Hne) as (Hr & Hvp & Hread).
    assert (sys_ok width lim (lastPredictorTick l) (lastPredictorTick l) 2147483646 (fe l)) as Hf'
      by (by eapply sys_tighten).
    pose proof (request_sys width lim (env now) (env_ok now) now ltac:(lia) _ _ p (fe l) Hf') as Hreq.
    rewrite Hread in Hreq. destruct Hreq as (f' & -> & Hf1); [lia|lia|done|].
    cbn [mbind res_bind]. eexists true, _. split; [done|]. split; [|done].
    split; cbn; [lia|done|by eauto].
Qed.

Lemma frontend_response_ok now p l :
  ok l -> valid_response now p l ->
  exists extra l', on_response now p l = Ok (extra, l') /\ ok l' /\ 0 <= extra.
Proof.
  intros Hok Hv. unfold on_response, is_clwb. pose proof Hok as [Ht Hc (n & Hf)].
  destruct (_ && _ && _) eqn:E.
  2:{ cbn [mbind res_bind]. rewrite andb_false_r. by exists 0, l. }
  destruct (Hv E) as (v & Hva & Htr). unfold Packet.getVaddr. rewrite Hva.
  cbn [Packet.valid mbind res_bind].
  destruct (Backend.predictorEnabled (Frontend.backend (fe l))); cbn [andb]; [|by exists 0, l].
  destruct (is_vaddr_pm v); [|by exists 0, l]. destruct (v =? 0); [by exists 0, l|].
  destruct Htr as (pa & -> & Hpa); [done|done|]. cbn [default from_option id].
  apply Z.eqb_neq in Hpa as ->. cbn [panic_if mbind res_bind].
  eexists _, _. split; [done|]. split.
  - split; cbn [fe lastPredictorTick clwbLatency]; [done| |].
    + intros a t. rewrite lookup_delete_Some. intros [_ Ha]. by eapply Hc.
    + exists n. eapply sys_quiet; [apply quiet_stats|done].
  - destruct (clwbLatency l !! pa) as [t|] eqn:El; cbn; [by eapply Hc|lia].
Qed.

(** Between two requests of the core the backend handles writes, the switches
    change and the memory controller records the latency of a write. *)
Definition interferes (l l' : logic) : Prop :=
  (exists a t, 0 <= t /\ l' = mkLogic (fe l) (lastPredictorTick l) (<[a := t]> (clwbLatency l))) \/
  lastPredictorTick l' = lastPredictorTick l /\ clwbLatency l' = clwbLatency l /\
  exists ev, handle ev (fe l) = Ok (fe l') /\
    match ev with
    | Front _ _ _ => False
    | Back now hash0 p => Backend.valid_event (Backend.EvRequest now hash0 p)
    | Enable _ _ => True
    end.

Lemma frontend_interferes_ok l l' : ok l -> interferes l l' -> ok l'.
Proof.
  intros [Ht Hc (n & Hf)] [(a & t & Hpos & ->)|(Et & Ec & ev & E & Hev)].
  { split; cbn; [done| |by eauto]. intros b x. rewrite lookup_insert. case_decide; [by intros [= <-]|apply Hc]. }
  split; [by rewrite Et|by rewrite Ec|]. rewrite Et.
  destruct ev as [|now hash0 p|u e]; [done| |].
  - assert (0 <= n) as Hn.
    { pose proof (sy_next _ _ _ _ _ _ Hf). pose proof (Delivery.pe_next _ _ _ _ _ (sy_pend _ _ _ _ _ _ Hf)). lia. }
    destruct (back_sys width lim _ n now hash0 p (fe l) Hn Hev Hf) as (f' & E' & Hf').
    assert (fe l' = f') as -> by congruence. by exists (n + 1).
  - cbn [handle] in E. apply ok_inj in E as <-. exists n. by apply enable_sys.
Qed.

#[export] Program Instance frontend_logic : PortLogic logic := {|
  Bridge.on_request := on_request;
  Bridge.on_response := on_response;
  Bridge.interferes := interferes;
  Bridge.logic_ok := ok;
  Bridge.valid_request := valid_request;
  Bridge.valid_response := valid_response
|}.
Next Obligation. apply frontend_request_ok. Qed.
Next Obligation.
  intros now p l Hok Hv. by apply frontend_response_ok.
Qed.
Next Obligation. apply frontend_interferes_ok. Qed.
Next Obligation. intros now l _. exists World.sample_store. cbn. split; [|lia]. intros H. done. Qed.
End Logic.

(** *** The port functions *)
Definition DeferredPacket := Bridge.DeferredPacket.
Definition slave := Bridge.slave.
Definition master := Bridge.master.
Definition newPorts := Bridge.new.
Definition respQueueFull := Bridge.respQueueFull.
Definition reqQueueFull := Bridge.reqQueueFull.
Definition retryStalledReq := Bridge.retryStalledReq.
Definition schedTimingReq := Bridge.schedTimingReq.
Definition schedTimingResp := Bridge.schedTimingResp.
Definition trySendReq := Bridge.trySendReq.
Definition trySendResp := Bridge.trySendResp.
Definition recvReqRetry := Bridge.recvReqRetry.
Definition recvRespRetry := Bridge.recvRespRetry.
Definition recvAtomic := Untimed.recvAtomic.
Definition recvFunctional {F : Type} := @Untimed.recvFunctional F.
Definition trySatisfyFunctional {F : Type} := @Untimed.trySatisfyFunctional F.

Section Safety.
Context `{O : IterOrder}.
Variable width : Z -> nat.
Variable env : Z -> machine.
Hypothesis env_ok : forall now, machine_ok (env now).
Notation PF lim := (frontend_logic width lim env env_ok).

Definition recvTimingReq lim (now : Z) (p : Packet.t) (b : Bridge.t) (l : logic)
    : res (bool * Bridge.t * logic) :=
  World.recvTimingReq (PL := PF lim) now p b l.
Definition recvTimingResp lim (now : Z) (p : Packet.t) (b : Bridge.t) (l : logic) : res (Bridge.t * logic) :=
  World.recvTimingResp (PL := PF lim) now p b l.

(** C6: the frontend between a core and its cache, in any interleaving of requests,
    responses, refusals and retries that the protocol allows.  Requests are not
    answered by a cache; those the predictor handles come at increasing ticks, have a
    PC other than 0, one size per PC and data inside a line for stores, and their
    undefined reads give some value; the write backs that return are translated; fewer
    than 2^31 predictions are made; between them the backend handles full-line writes,
    the switches change, the controller records latencies, and nothing else changes
    the result buffer.  Then every step succeeds.  In every state reached the
    accumulator is within its capacity, the patterns of the table name known stores,
    and requests leave in the order they were accepted; with the predictor enabled the
    response of a persistent write back is delayed by the latency recorded for its
    line, which is consumed. *)
Theorem frontend_port_safe c tc k pendMax dis bc d req_limit resp_limit period w :
  config_ok c tc k pendMax bc -> 0 <= d -> 0 < period -> 0 < req_limit < 4294967296 ->
  0 < resp_limit < 4294967296 ->
  World.reachable (PL := PF (c, bc))
    (World.init (Bridge.new d req_limit resp_limit period)
       (mkLogic (System.init c tc k pendMax dis bc) 0 ∅)) w ->
  (forall now l, World.enabled (PL := PF (c, bc)) now l w ->
     exists w', World.step (PL := PF (c, bc)) now l w = Ok w') /\
  Z.of_nat (size (Frontend.cacheLineAccumulator (fe (World.logic w)))) <= Frontend.CL_ACC_SIZE c /\
  (forall h e, patterns (fe (World.logic w)) !! h = Some e -> Delivery.pattern_ok width e) /\
  World.accepted w = World.forwarded w ++
    (Bridge.pkt <$> Bridge.reqList (Bridge.masterPort (World.bridge w))) /\
  (forall now p v pa, Packet.isToPOC p = true -> Packet.reqSize p = 1 -> Packet.hasData p = false ->
     Packet.vaddr p = Some v -> is_vaddr_pm v = true ->
     PageTable.translate (pageTable (env now)) v = Some pa -> pa <> 0 ->
     Backend.predictorEnabled (Frontend.backend (fe (World.logic w))) = true ->
     exists l, on_response env now p (World.logic w) =
         Ok (default 0 (clwbLatency (World.logic w) !! pa), l) /\
       clwbLatency l = delete pa (clwbLatency (World.logic w))).
Proof.
  intros Hc Hd Hp Hq Hr Hw.
  assert (World.ok (PL := PF (c, bc)) w) as Hok.
  { eapply World.reachable_ok; [|exact Hw]. apply World.init_ok; try done.
    split; cbn; [lia|intros a t; by rewrite lookup_empty|]. exists 0. by apply init_sys. }
  pose proof (World.ok_logic w Hok) as Hl. cbn in Hl. pose proof Hl as [_ _ (n & Hf)].
  split; [intros now l He; destruct (World.step_ok now l w Hok He) as (w' & E & _); eauto|].
  split.
  { pose proof (Frontend.ao_size _ (sy_acc _ _ _ _ _ _ Hf)) as Hs.
    pose proof (sy_limits _ _ _ _ _ _ Hf) as El. unfold limits in El. injection El as Ec _. by rewrite <- Ec. }
  split; [apply (sy_patterns _ _ _ _ _ _ Hf)|]. split; [apply (World.ok_fifo_req w Hok)|].
  intros now p v pa H1 H2 H3 H4 H5 H6 H7 H8. unfold on_response, is_clwb, Packet.getVaddr.
  rewrite H1, H2, H3, H4. cbn [andb negb Packet.valid mbind res_bind Z.eqb Pos.eqb]. rewrite H5, H8.
  assert ((v =? 0) = false) as ->.
  { apply Z.eqb_neq. intros ->. by vm_compute in H5. }
  rewrite H6. cbn [andb default from_option id]. apply Z.eqb_neq in H7 as ->.
  cbn [panic_if mbind res_bind]. by eexists.
Qed.
End Safety.

(** *** Evaluation: a store passes the frontend *)
Definition core_env (now : Z) : machine := demo_machine.
Lemma core_env_ok now : machine_ok (core_env now).
Proof. by split. Qed.
Notation PC := (@frontend_logic tree_order demo_width (demo_config, demo_backend) core_env core_env_ok).

Definition core_port : World.t logic :=
  World.init (Bridge.new 2 1 1 500) (mkLogic demo_init 0 ∅).
Definition core_enabled : World.t logic :=
  World.with_logic
    (mkLogic (Frontend.with_backend
       (Backend.with_enabled true true (Frontend.backend demo_init)) demo_init) 0 ∅) core_port.
Definition core_store : Packet.t := demo_store 0x7008 0x600 [0x40; 0x100].
Definition core_stored : World.t logic :=
  match World.step (PL := PC) 3 (World.Request core_store) core_enabled with
  | Ok w => w
  | Fail _ => core_enabled
  end.

Lemma core_reachable : World.reachable (PL := PC) core_port core_stored.
Proof.
  eapply (World.reachable_step _ core_enabled 3 (World.Request core_store)).
  - apply World.reachable_elsewhere; [constructor|]. right. split; [done|]. split; [done|].
    by exists (Enable true true).
  - split; [by vm_compute|]. split; [done|]. split; [done|]. split; [|by vm_compute].
    split; [done|]. split.
    + split; [by vm_compute|]. apply (sy_shared demo_width (demo_config, demo_backend) 0 0 2147483646 demo_init).
      eapply sys_weaken; [..|apply init_sys, demo_config_ok]; lia.
    + intros _. split; [by vm_compute|]. split; [|by vm_compute].
      eapply valid_store. apply demo_store_ok; [done|vm_compute; lia|done].
  - vm_compute. reflexivity.
Qed.

Lemma frontend_port_safe_witness :
  exists w', World.step (PL := PC) 1500 (World.ReqEvent true) core_stored = Ok w' /\
    World.forwarded w' = [core_store] /\
    length (LineSearch.history (fe (World.logic w'))) = 1%nat.
Proof.
  destruct (@frontend_port_safe tree_order demo_width core_env core_env_ok demo_config demo_table 1 128
    false demo_backend 2 1 1 500 core_stored demo_config_ok) as (H & _); [lia|lia|lia|lia|exact core_reachable|].
  destruct (H 1500 (World.ReqEvent true)) as (w' & E).
  - split; [by vm_compute|]. split; [intros e; vm_compute; by intros [= <-]|].
    split; [intros e; by vm_compute|]. vm_compute. reflexivity.
  - exists w'. split; [exact E|]. pattern w'. refine (ok_check _ _ _ E _). vm_compute. by split.
Defined.
End FrontendPort.
