(* ===== verification/LruSet.v ===== *)
(** * Sets of entries with least-recently-used replacement

    The metadata caches of the memory controller ([mem/dram_ctrl.hh]) keep, in
    each entry, the number of accesses since it was last used: an access
    increments the counters of all entries ([incrCacheCnt], [incrVeriCacheCnt]),
    which also yields the victim, and resets the counter of the entry it uses.
    This file models these counters, and shows that they implement the
    replacement by recency: a set refines a list of its keys, most recent first,
    whatever order the hash table is traversed in. *)

From S2P Require Import Prelude Common.

Module LruSet.
(** [struct CounterCacheEntry] and [struct VerificationCacheEntry]; their member
    [data_addr] is neither written nor read. *)
Record entry := mkEntry { cnt : Z; dirty : bool }.

Definition new_entry (d : bool) : entry := mkEntry 0 d.
Definition reset (e : entry) : entry := mkEntry 0 (dirty e).
Definition set_dirty (d : bool) (e : entry) : entry := mkEntry (cnt e) d.

(** [cnt] is [unsigned]. *)
Definition tick (e : entry) : entry := mkEntry (u32 (cnt e + 1)) (dirty e).

Section Increment.
Context `{O : IterOrder}.

Definition incr_step (s : gmap Z entry * Z * Z) (x : Z * entry) : gmap Z entry * Z * Z :=
  let '(m, max_cnt, LRU) := s in
  let '(k, e) := x in
  let e := tick e in
  let m := <[k := e]> m in
  if max_cnt <? cnt e then (m, cnt e, k) else (m, max_cnt, LRU).

(** The entries after the loop, and the key of the first entry with the
    greatest counter; [Addr(-1)] for an empty set. *)
Definition incr_cnts (m : gmap Z entry) : Z * gmap Z entry :=
  let '(m', _, LRU) := foldl incr_step (m, 0, UINT64_MAX) (iter m) in (LRU, m').
End Increment.

(** The victim leaves when the set has grown beyond [cap]; its key is returned
    when it was dirty. *)
Definition evict (cap LRU : Z) (m : gmap Z entry) : res (option Z * gmap Z entry) :=
  if cap <? Z.of_nat (size m) then
    e ← deref (m !! LRU);
    let m := delete LRU m in
    assert_that (Z.of_nat (size m) =? cap) ;;
    Ok (if dirty e then Some LRU else None, m)
  else Ok (None, m).

(** A read or a write of [k]: whether it hit, the dirty victim, the entries. *)
Definition use `{O : IterOrder} (cap k : Z) (write : bool) (m : gmap Z entry)
    : res (bool * option Z * gmap Z entry) :=
  let isHit := bool_decide (is_Some (m !! k)) in
  let '(LRU, m) := incr_cnts m in
  if isHit then
    e ← deref (m !! k);
    Ok (true, None, <[k := reset (if write then set_dirty true e else e)]> m)
  else
    '(victim, m) ← evict cap LRU (<[k := new_entry write]> m);
    Ok (false, victim, m).

(** ** Recency *)

(** The reference: keys by recency, most recent first, at most [cap]. *)
Definition access (cap : nat) (k : Z) (l : list Z) : list Z :=
  take cap (k :: filter (fun k' => k' <> k) l).

(** The counters of [m] order its keys as in [l], and stay below [n]. *)
Record recency (n : Z) (m : gmap Z entry) (l : list Z) : Prop := {
  re_keys : forall k, is_Some (m !! k) <-> k ∈ l;
  re_nodup : NoDup l;
  re_bound : forall k e, m !! k = Some e -> 0 <= cnt e < n;
  re_order : forall i j k k' e e', l !! i = Some k -> l !! j = Some k' -> (i < j)%nat ->
    m !! k = Some e -> m !! k' = Some e' -> cnt e < cnt e'
}.

Lemma recency_empty n : recency n ∅ [].
Proof.
  split; try done.
  - intros k. rewrite lookup_empty. split; [by intros []|by intros ?%not_elem_of_nil].
  - constructor.
Qed.

Lemma recency_size n m l : recency n m l -> size m = length l.
Proof.
  intros [Hk Hnd _ _]. rewrite <- (size_dom (D := gset Z) m).
  assert (dom m = (list_to_set l : gset Z)) as ->.
  { apply set_eq. intros k. rewrite elem_of_dom, elem_of_list_to_set. apply Hk. }
  by apply size_list_to_set.
Qed.

Lemma recency_weaken n n' m l : n <= n' -> recency n m l -> recency n' m l.
Proof. intros Hn [H1 H2 H3 H4]. split; try done. intros k e He. specialize (H3 k e He). lia. Qed.

(** Only the counters matter. *)
Lemma recency_dirty n m l k e d :
  recency n m l -> m !! k = Some e -> recency n (<[k := set_dirty d e]> m) l.
Proof.
  intros [H1 H2 H3 H4] He.
  assert (forall j x, <[k := set_dirty d e]> m !! j = Some x -> exists y, m !! j = Some y /\ cnt y = cnt x) as Hl.
  { intros j x. rewrite lookup_insert. case_decide as Hd; [subst; intros [= <-]; eauto|eauto]. }
  split; [|done| |].
  - intros j. rewrite <- H1, lookup_insert. case_decide as Hd; [subst; rewrite He|done].
    split; intros _; by eexists.
  - intros j x Hx. destruct (Hl j x Hx) as (y & Hy & <-). by eapply H3.
  - intros i j a b x x' Ha Hb Hij Hx Hx'. destruct (Hl a x Hx) as (y & Hy & <-).
    destruct (Hl b x' Hx') as (y' & Hy' & <-). exact (H4 i j a b y y' Ha Hb Hij Hy Hy').
Qed.

(** ** The increment *)
Section IncrementLemmas.
Context `{O : IterOrder}.

Lemma incr_fold L m mx lru m' mx' lru' :
  NoDup L.*1 -> foldl incr_step (m, mx, lru) L = (m', mx', lru') ->
  (forall k, m' !! k = match List.find (fun x => x.1 =? k) L with
                       | Some (_, e) => Some (tick e) | None => m !! k end) /\
  mx <= mx' /\ (forall k e, (k, e) ∈ L -> cnt (tick e) <= mx') /\
  ((mx' = mx /\ lru' = lru) \/ exists e, (lru', e) ∈ L /\ cnt (tick e) = mx').
Proof.
  revert m mx lru. induction L as [|[k0 e0] L IH]; intros m mx lru Hnd H; cbn [foldl incr_step] in H.
  { injection H as -> -> ->. split; [done|]. split; [lia|].
    split; [intros k e ?%not_elem_of_nil; done|by left]. }
  apply NoDup_cons in Hnd as [Hni Hnd].
  assert (exists mx1 lru1, foldl incr_step (<[k0 := tick e0]> m, mx1, lru1) L = (m', mx', lru') /\
    mx <= mx1 /\ cnt (tick e0) <= mx1 /\
    ((mx1 = mx /\ lru1 = lru) \/ (mx1 = cnt (tick e0) /\ lru1 = k0))) as (mx1 & lru1 & H1 & Hm1 & Hm2 & Hor).
  { destruct (mx <? cnt (tick e0)) eqn:E; (eexists _, _; split; [exact H|]);
      [apply Z.ltb_lt in E|apply Z.ltb_ge in E]; (split; [lia|]); (split; [lia|]); [by right|by left]. }
  destruct (IH _ _ _ Hnd H1) as (Hl & Hle & Hall & Hres). split.
  - intros k. rewrite Hl. cbn [List.find fst]. destruct (Z.eqb_spec k0 k) as [->|Hne].
    + destruct (List.find _ L) as [[k1 e1]|] eqn:F; [|by rewrite lookup_insert_eq].
      apply List.find_some in F as [Hin Heq%Z.eqb_eq]. cbn in Heq. subst. exfalso. apply Hni.
      apply list_elem_of_fmap. exists (k, e1). split; [done|by apply list_elem_of_In].
    + destruct (List.find _ L) as [[k1 e1]|]; [done|]. by rewrite lookup_insert_ne.
  - split; [lia|]. split.
    + intros k e [[= -> ->]|Hin]%elem_of_cons; [lia|by eapply Hall].
    + destruct Hres as [[-> ->]|(e & Hin & He)].
      * destruct Hor as [[-> ->]|[-> ->]]; [by left|]. right. exists e0. split; [by left|done].
      * right. exists e. split; [by right|done].
Qed.

Lemma tick_cnt n m l k e : recency n m l -> n < 4294967296 -> m !! k = Some e -> cnt (tick e) = cnt e + 1.
Proof. intros Hr Hn He. pose proof (re_bound _ _ _ Hr k e He). cbn. apply u32_id. unfold is_u32. lia. Qed.

(** The increment counts an access to every entry and finds the key used least
    recently. *)
Lemma incr_cnts_ok n m l :
  recency n m l -> n < 4294967296 ->
  incr_cnts m = (default UINT64_MAX (last l), tick <$> m).
Proof.
  intros Hr Hn. unfold incr_cnts.
  destruct (foldl incr_step (m, 0, UINT64_MAX) (iter m)) as [[m' mx] lru] eqn:E.
  destruct (incr_fold (iter m) m 0 UINT64_MAX m' mx lru (NoDup_iter_fst m) E) as (Hl & _ & Hall & Hres).
  assert (m' = tick <$> m) as ->.
  { apply map_eq. intros k. rewrite Hl, lookup_fmap. destruct (List.find _ _) as [[k1 e]|] eqn:F.
    - apply List.find_some in F as [Hin Heq%Z.eqb_eq]. cbn in Heq. subst k1.
      apply list_elem_of_In, elem_of_iter in Hin. by rewrite Hin.
    - destruct (m !! k) as [e|] eqn:Ek; [|done]. exfalso.
      apply elem_of_iter, list_elem_of_In in Ek. apply (List.find_none _ _ F) in Ek. cbn in Ek. lia. }
  f_equal. pose proof Hr as [H1 H2 H3 H4].
  destruct (last l) as [z|] eqn:El; cbn [default from_option id].
  - assert (exists i, l !! i = Some z /\ S i = length l) as (i & Hi & Hlen).
    { rewrite last_lookup in El. exists (pred (length l)). split; [done|].
      destruct l; cbn; [done|lia]. }
    destruct (H1 z) as [_ [ez Hez]]; [by eapply list_elem_of_lookup_2|].
    pose proof (Hall z ez (proj2 (elem_of_iter m z ez) Hez)) as Hz.
    rewrite (tick_cnt n m l z ez Hr Hn Hez) in Hz. pose proof (H3 z ez Hez).
    destruct Hres as [[-> _]|(e & Hin%elem_of_iter & He)]; [lia|].
    rewrite (tick_cnt n m l lru e Hr Hn Hin) in He.
    destruct (proj1 (list_elem_of_lookup l lru)) as [j Hj]; [apply H1; by eexists|].
    destruct (Nat.lt_trichotomy j i) as [Hji|[->|Hij]]; [|congruence|].
    + pose proof (H4 j i lru z e ez Hj Hi Hji Hin Hez). lia.
    + apply lookup_lt_Some in Hj. lia.
  - apply last_None in El as ->. destruct Hres as [[_ ->]|(e & Hin%elem_of_iter & _)]; [done|].
    destruct (H1 lru) as [H _]. exfalso. by apply (not_elem_of_nil lru), H; eexists.
Qed.
End IncrementLemmas.

(** ** Use and eviction *)

Lemma filter_lookup_order (k : Z) (l : list Z) i j a b :
  filter (fun k' => k' <> k) l !! i = Some a -> filter (fun k' => k' <> k) l !! j = Some b ->
  (i < j)%nat -> exists i' j', l !! i' = Some a /\ l !! j' = Some b /\ (i' < j')%nat.
Proof.
  revert i j. induction l as [|x l IH]; intros i j; [done|]. rewrite filter_cons. case_decide as Hx.
  - destruct i as [|i], j as [|j]; cbn; try lia.
    + intros [= ->] Hb _. apply list_elem_of_lookup_2, list_elem_of_filter in Hb as [_ Hb].
      apply list_elem_of_lookup in Hb as [j' Hj']. exists 0%nat, (S j'). split; [done|]. split; [done|lia].
    + intros Ha Hb Hij. destruct (IH i j Ha Hb) as (i' & j' & ? & ? & ?); [lia|].
      exists (S i'), (S j'). split; [done|]. split; [done|lia].
  - intros Ha Hb Hij. destruct (IH i j Ha Hb Hij) as (i' & j' & ? & ? & ?).
    exists (S i'), (S j'). split; [done|]. split; [done|lia].
Qed.

(** The entry that is used becomes the most recent one. *)
Lemma recency_use n m l k d :
  recency n m l -> 0 <= n < 4294967296 ->
  recency (n + 1) (<[k := mkEntry 0 d]> (tick <$> m)) (k :: filter (fun k' => k' <> k) l).
Proof.
  intros Hr Hn. pose proof Hr as [H1 H2 H3 H4].
  assert (forall j e, j <> k -> <[k := mkEntry 0 d]> (tick <$> m) !! j = Some e ->
    exists e0, m !! j = Some e0 /\ cnt e = cnt e0 + 1) as Hl.
  { intros j e Hj. rewrite lookup_insert_ne, lookup_fmap by done.
    destruct (m !! j) as [e0|] eqn:E; [|done]. intros [= <-]. exists e0.
    split; [done|]. eapply tick_cnt; [done|lia|done]. }
  split.
  - intros j. rewrite elem_of_cons, list_elem_of_filter, <- H1.
    destruct (decide (j = k)) as [->|Hj]; [rewrite lookup_insert_eq; split; [by left|by eexists]|].
    rewrite lookup_insert_ne, lookup_fmap, fmap_is_Some by done. split; [by right|]. by intros [?|[_ ?]].
  - constructor; [|by apply NoDup_filter]. rewrite list_elem_of_filter. by intros [? _].
  - intros j e. destruct (decide (j = k)) as [->|Hj].
    + rewrite lookup_insert_eq. intros [= <-]. cbn. lia.
    + intros He. destruct (Hl j e Hj He) as (e0 & He0 & ->). specialize (H3 j e0 He0). lia.
  - assert (forall j b, filter (fun k' => k' <> k) l !! j = Some b -> b <> k) as Hne.
    { intros j b Hb. apply list_elem_of_lookup_2, list_elem_of_filter in Hb. tauto. }
    intros i j a b e e' Ha Hb Hij He He'. destruct i as [|i], j as [|j]; try lia; cbn in Ha, Hb.
    + injection Ha as ->. rewrite lookup_insert_eq in He. injection He as <-.
      destruct (Hl b e' (Hne j b Hb) He') as (e0 & He0 & ->). specialize (H3 b e0 He0). cbn. lia.
    + destruct (Hl a e (Hne i a Ha) He) as (e0 & He0 & ->).
      destruct (Hl b e' (Hne j b Hb) He') as (e1 & He1 & ->).
      destruct (filter_lookup_order k l i j a b Ha Hb) as (i' & j' & Hi' & Hj' & Hlt); [lia|].
      pose proof (H4 i' j' a b e0 e1 Hi' Hj' Hlt He0 He1). lia.
Qed.

Lemma recency_evict n m l z : recency n m (l ++ [z]) -> recency n (delete z m) l.
Proof.
  intros [H1 H2 H3 H4]. apply NoDup_app in H2 as (H2 & Hd & _).
  assert (forall k, k ∈ l -> k <> z) as Hz by (intros k Hk ->; by apply (Hd z Hk), list_elem_of_singleton).
  split; [|done| |].
  - intros k. rewrite lookup_delete. split.
    + case_decide; [by intros []|]. intros Hk%H1. set_solver.
    + intros Hk. rewrite decide_False by (intros ->; by apply (Hz k)). apply H1. set_solver.
  - intros k e. rewrite lookup_delete_Some. intros [_ He]. by eapply H3.
  - intros i j a b e e' Ha Hb Hij He%lookup_delete_Some He'%lookup_delete_Some.
    apply (H4 i j a b e e'); [by apply lookup_app_l_Some|by apply lookup_app_l_Some|done|tauto|tauto].
Qed.

(** What an access leaves of an entry. *)
Definition dirtiness (m : gmap Z entry) (k : Z) : option bool := dirty <$> m !! k.

Lemma access_hit cap k l :
  k ∈ l -> NoDup l -> (length l <= cap)%nat -> access cap k l = k :: filter (fun k' => k' <> k) l.
Proof.
  intros Hk Hnd Hlen. unfold access. apply take_ge. cbn [length].
  assert (length (filter (fun k' => k' <> k) l) < length l)%nat; [|lia].
  apply (length_filter_lt _ _ k); [done|]. intros H. by apply H.
Qed.

Lemma filter_absent (k : Z) (l : list Z) : k ∉ l -> filter (fun k' => k' <> k) l = l.
Proof.
  induction l as [|x l IH]; intros Hk; [done|]. rewrite filter_cons, decide_True by set_solver.
  f_equal. apply IH. set_solver.
Qed.

(** The victim of an access to [k]: the least recent key of a full set. *)
Definition victim_of (cap : nat) (m : gmap Z entry) (l : list Z) (k : Z) : option Z :=
  if decide (k ∉ l /\ length l = cap) then
    match last l with
    | Some z => if default false (dirtiness m z) then Some z else None
    | None => None
    end
  else None.

Lemma use_hit `{O : IterOrder} cap n m l k write :
  recency n m l -> 0 <= n < 4294967296 -> (length l <= cap)%nat -> k ∈ l ->
  exists m', use (Z.of_nat cap) k write m = Ok (true, None, m') /\
    recency (n + 1) m' (access cap k l) /\
    dirtiness m' k = Some (write || default false (dirtiness m k)) /\
    (forall k', k' <> k -> dirtiness m' k' = dirtiness m k').
Proof.
  intros Hr Hn Hlen Hk. pose proof Hr as [H1 H2 H3 H4]. unfold use.
  rewrite (incr_cnts_ok n m l) by (done || lia).
  destruct (proj2 (H1 k) Hk) as [e He]. rewrite bool_decide_true by (by eexists).
  rewrite lookup_fmap, He. cbn [fmap option_fmap option_map deref mbind res_bind].
  eexists. split; [done|]. rewrite access_hit by done. split; [|split].
  - destruct write; apply (recency_use n m l k _ Hr Hn).
  - unfold dirtiness. rewrite lookup_insert_eq, He. by destruct write.
  - intros k' Hne. unfold dirtiness. rewrite lookup_insert_ne, lookup_fmap by done. by destruct (m !! k').
Qed.

Lemma use_miss `{O : IterOrder} cap n m l k write :
  recency n m l -> 0 <= n < 4294967296 -> (length l <= cap)%nat -> (1 <= cap)%nat -> k ∉ l ->
  exists m', use (Z.of_nat cap) k write m = Ok (false, victim_of cap m l k, m') /\
    recency (n + 1) m' (access cap k l) /\ dirtiness m' k = Some write /\
    (forall k', k' <> k -> k' ∈ access cap k l -> dirtiness m' k' = dirtiness m k').
Proof.
  intros Hr Hn Hlen Hcap Hk. pose proof Hr as [H1 H2 H3 H4]. unfold use.
  rewrite (incr_cnts_ok n m l) by (done || lia).
  rewrite bool_decide_false by (by rewrite H1).
  pose proof (recency_use n m l k write Hr Hn) as Huse. rewrite (filter_absent k l Hk) in Huse.
  set (m1 := <[k := mkEntry 0 write]> (tick <$> m)) in *. change (<[k := new_entry write]> (tick <$> m)) with m1.
  assert (forall k', k' <> k -> dirtiness m1 k' = dirtiness m k') as Hd.
  { intros k' Hne. unfold dirtiness, m1. rewrite lookup_insert_ne, lookup_fmap by done. by destruct (m !! k'). }
  pose proof (recency_size _ _ _ Huse) as Hsize. cbn [length] in Hsize.
  unfold evict, victim_of, access. rewrite Hsize, (filter_absent k l Hk).
  destruct (decide (length l = cap)) as [Hfull|Hroom].
  - rewrite (proj2 (Z.ltb_lt _ _)) by lia. rewrite decide_True by done.
    destruct l as [|z l _] using rev_ind; [cbn in Hfull; lia|]. rewrite last_snoc. cbn [default from_option id].
    assert (z <> k) as Hzk by set_solver.
    rewrite app_comm_cons in Huse. pose proof (recency_evict _ _ _ _ Huse) as Hev.
    destruct (proj2 (H1 z)) as [ez Hez]; [set_solver|].
    assert (m1 !! z = Some (tick ez)) as -> by (unfold m1; by rewrite lookup_insert_ne, lookup_fmap, Hez).
    cbn [deref mbind res_bind]. rewrite length_app in Hfull. cbn [length] in Hfull.
    rewrite (recency_size _ _ _ Hev), (proj2 (Z.eqb_eq _ _)) by (cbn [length]; lia).
    cbn [assert_that mbind res_bind]. unfold dirtiness at 1. rewrite Hez.
    rewrite app_comm_cons, take_app_length' by (cbn [length]; lia).
    eexists. split; [done|]. split; [done|]. split.
    + unfold dirtiness, m1. by rewrite lookup_delete_ne, lookup_insert_eq.
    + intros k' Hne Hin. rewrite <- (Hd k' Hne). unfold dirtiness. rewrite lookup_delete_ne; [done|].
      intros <-. apply elem_of_cons in Hin as [|Hin]; [done|].
      apply NoDup_app in H2 as (_ & Hdis & _). by apply (Hdis z Hin), list_elem_of_singleton.
  - rewrite (proj2 (Z.ltb_ge _ _)) by lia. rewrite decide_False by tauto. cbn [mbind res_bind].
    rewrite take_ge by (cbn [length]; lia). eexists. split; [done|]. split; [done|]. split; [|auto].
    unfold dirtiness, m1. by rewrite lookup_insert_eq.
Qed.

(** An access follows the reference: it hits exactly the keys of the list, the
    list becomes the one of the reference, and the only entry that can leave is
    the least recent one of a full set, reported when it was dirty. *)
Lemma use_spec `{O : IterOrder} cap n m l k write :
  recency n m l -> 0 <= n < 4294967296 -> (length l <= cap)%nat -> (1 <= cap)%nat ->
  exists m', use (Z.of_nat cap) k write m = Ok (bool_decide (k ∈ l), victim_of cap m l k, m') /\
    recency (n + 1) m' (access cap k l) /\
    dirtiness m' k = Some (write || (bool_decide (k ∈ l) && default false (dirtiness m k))) /\
    (forall k', k' <> k -> k' ∈ access cap k l -> dirtiness m' k' = dirtiness m k').
Proof.
  intros Hr Hn Hlen Hcap. destruct (decide (k ∈ l)) as [Hk|Hk].
  - destruct (use_hit cap n m l k write Hr Hn Hlen Hk) as (m' & E & H1 & H2 & H3).
    rewrite bool_decide_true by done. unfold victim_of. rewrite decide_False by tauto.
    exists m'. split; [done|]. split; [done|]. split; [done|]. auto.
  - destruct (use_miss cap n m l k write Hr Hn Hlen Hcap Hk) as (m' & E & H1 & H2 & H3).
    rewrite bool_decide_false by done. exists m'. split; [done|]. split; [done|]. split; [|auto].
    by rewrite H2, orb_false_r.
Qed.

Lemma length_access cap k l : (length (access cap k l) <= cap)%nat.
Proof. unfold access. rewrite length_take. lia. Qed.
End LruSet.
