(* ===== verification/MetadataCache.v ===== *)
(** * The metadata caches of the memory controller

    Models the counter cache and the verification cache of [class DRAMCtrl]
    ([mem/dram_ctrl.hh], lines 1318-2158): sets of encryption counters and nodes
    of the integrity tree with least-recently-used replacement ([LruSet]), the
    packets created for misses and evictions, and the queues these wait in.  The
    sizes are those of [txopt_cfg.hh] and [txopt/common.hh]. *)

From S2P Require Import Prelude Common PageTable Clock LruSet CompletedWrite.

Module MetadataCache.
Import LruSet.
Module CWE := CompletedWriteEntry.

Definition COUNTER_ADDR_DIFF : Z := 8192 * 1024 * 1024 + 1.
Definition VERIFICATION_ADDR_DIFF : Z := (8192 + 1024) * 1024 * 1024 + 1.
Definition VERIFICATION_TREE_HEIGHT : nat := 12.
Definition NUM_WAY : nat := 16.
Definition COUNTER_CACHE_LINE_SIZE : Z := 512.
Definition VERIFICATION_CACHE_LINE_SIZE : Z := 64.
Definition COUNTER_CACHE_SIZE : Z := 2048.
Definition VERIFICATION_CACHE_SIZE : nat := 2048.
Definition COUNTER_WRITE_QUEUE_SIZE : Z := 16.
Definition num_sets : Z := COUNTER_CACHE_SIZE / Z.of_nat NUM_WAY.
Definition counter_size : Z := 8.
Definition verification_hash_size : Z := 8.

(** ** State *)

(** [CounterWriteQueueEntry] and [VerificationWriteQueueEntry]. *)
Record QueueEntry := mkQueueEntry { pkt : Packet.t; pkt_count : Z }.

Record t := mk {
  CounterCache : gmap Z (gmap Z entry);
  VerificationCache : gmap Z entry;
  CounterWriteQueue : list QueueEntry;
  CounterCacheMissQueue : list QueueEntry;
  CounterCacheEvictionQueue : list QueueEntry;
  VerificationCacheMissQueue : list QueueEntry;
  VerificationCacheEvictionQueue : list QueueEntry;
  EvictionCnt : Z;
  burstSize : Z;
  stats : Stats.t
}.

Definition new (burst : Z) : t := mk ∅ ∅ [] [] [] [] [] 0 burst Stats.empty.

Definition with_counters v c := mk v (VerificationCache c) (CounterWriteQueue c)
  (CounterCacheMissQueue c) (CounterCacheEvictionQueue c) (VerificationCacheMissQueue c)
  (VerificationCacheEvictionQueue c) (EvictionCnt c) (burstSize c) (stats c).
Definition with_nodes v c := mk (CounterCache c) v (CounterWriteQueue c)
  (CounterCacheMissQueue c) (CounterCacheEvictionQueue c) (VerificationCacheMissQueue c)
  (VerificationCacheEvictionQueue c) (EvictionCnt c) (burstSize c) (stats c).
Definition with_counter_queues w m e n c := mk (CounterCache c) (VerificationCache c) w m e
  (VerificationCacheMissQueue c) (VerificationCacheEvictionQueue c) n (burstSize c) (stats c).
Definition with_node_queues m e c := mk (CounterCache c) (VerificationCache c)
  (CounterWriteQueue c) (CounterCacheMissQueue c) (CounterCacheEvictionQueue c) m e
  (EvictionCnt c) (burstSize c) (stats c).
Definition with_stats g c := mk (CounterCache c) (VerificationCache c) (CounterWriteQueue c)
  (CounterCacheMissQueue c) (CounterCacheEvictionQueue c) (VerificationCacheMissQueue c)
  (VerificationCacheEvictionQueue c) (EvictionCnt c) (burstSize c) (g (stats c)).

(** ** Packets

    A physical request of [size] bytes; a read request carries no data for its
    receiver.  [words] is what the packet's data pointer points to. *)
Definition request_packet (write : bool) (addr size : Z) (words : list Z)
    (counter verification counterEviction verificationEviction : bool) : Packet.t :=
  Packet.mk write (negb write) write true false false size size addr None (Some addr) None
    (Some words) 0 0 counter counterEviction verification verificationEviction false false 0.

Definition queue_entry (c : t) (addr : Z) (p : Packet.t) : QueueEntry :=
  let offset := u32 (Z.land addr (burstSize c - 1)) in
  mkQueueEntry p (u32 (divCeil (counter_size + offset) (burstSize c))).

Definition counter_addr (addr : Z) : Z := u64 (addr / 8 + COUNTER_ADDR_DIFF).

(** [createCounterPkt] with the mark its callers set. *)
Definition createCounterPkt (c : t) (addr : Z) (eviction : bool) : QueueEntry :=
  queue_entry c (counter_addr addr)
    (request_packet true (counter_addr addr) counter_size [1] true false eviction false).
Definition createVerificationPkt (c : t) (addr : Z) (eviction : bool) : QueueEntry :=
  let a := u64 (addr / 8 + VERIFICATION_ADDR_DIFF) in
  queue_entry c a (request_packet true a counter_size [1] false true false eviction).

(** The read that a miss sends to memory. *)
Definition counter_miss (c : t) (addr : Z) : QueueEntry :=
  queue_entry c (counter_addr addr)
    (request_packet false (counter_addr addr) counter_size [0; 0] true false false false).
Definition verification_miss (c : t) (MTAddr : Z) : QueueEntry :=
  queue_entry c MTAddr
    (request_packet false MTAddr verification_hash_size [0; 0] false true false false).

Definition getDataAddr (p : Packet.t) : Z :=
  if Packet.isCounterPacket p then u64 ((Packet.addr p - COUNTER_ADDR_DIFF) * 8) else Packet.addr p.

(** ** The counter cache *)

Definition getIndex (addr : Z) : Z :=
  u32 (addr / COUNTER_CACHE_LINE_SIZE - addr / COUNTER_CACHE_LINE_SIZE / num_sets * num_sets).

Definition counter_line (addr : Z) : Z := addr / COUNTER_CACHE_LINE_SIZE * COUNTER_CACHE_LINE_SIZE.

(** [CounterCache[index]] creates an empty set. *)
Definition counter_set (index : Z) (c : t) : gmap Z entry := default ∅ (CounterCache c !! index).

Definition isCounterCacheHit (addr : Z) (c : t) : bool :=
  bool_decide (is_Some (counter_set (getIndex addr) c !! addr)).

Section Counters.
Context `{O : IterOrder}.

(** Lines 1788-1832 and 1933-1984: the access to the set, the miss and the
    eviction it may cause. *)
Definition access_counter (addr : Z) (write : bool) (c : t) : res (bool * t) :=
  let index := getIndex addr in
  assert_that (index <? num_sets) ;;
  '(isHit, victim, s) ← use (Z.of_nat NUM_WAY) addr write (counter_set index c);
  let c := with_counters (<[index := s]> (CounterCache c)) c in
  if isHit : bool then Ok (true, with_stats (Stats.incr "totalCounterCacheReadHit") c)
  else
    let miss := CounterCacheMissQueue c ++ [counter_miss c addr] in
    Ok (false,
        match victim with
        | Some a => with_counter_queues (CounterWriteQueue c) miss
                      (CounterCacheEvictionQueue c ++ [createCounterPkt c a true])
                      (EvictionCnt c + 1) c
        | None => with_counter_queues (CounterWriteQueue c) miss (CounterCacheEvictionQueue c)
                    (EvictionCnt c) c
        end).

Definition readCounterCache (paddr : Z) (c : t) : res (bool * t) :=
  access_counter (counter_line paddr) false (with_stats (Stats.incr "totalCounterCacheRead") c).

(** [CounterCache[index][_addr]->dirty = false], lines 1838-1839. *)
Definition clean_counter (addr : Z) (c : t) : res t :=
  let s := counter_set (getIndex addr) c in
  e ← deref (s !! addr);
  Ok (with_counters (<[getIndex addr := <[addr := set_dirty false e]> s]> (CounterCache c)) c).

(** [writeCounterCache(_pkt, false)]: every write is counter atomic. *)
Definition writeCounterCache (p : Packet.t) (c : t) : res (bool * t) :=
  let c := with_stats (fun st => Stats.incr "totalCounterCacheWrite"
                                   (Stats.incr "totalCounterCacheRead" st)) c in
  let addr := counter_line (Packet.addr p) in
  '(isHit, c) ← access_counter addr true c;
  c ← (if Packet.isWrite p then clean_counter addr c else Ok c);
  Ok (isHit, c).
End Counters.

(** ** The verification cache *)

Definition isVerificationCacheHit (addr : Z) (c : t) : bool :=
  bool_decide (is_Some (VerificationCache c !! addr)).

Definition verification_line (addr : Z) : Z :=
  addr / VERIFICATION_CACHE_LINE_SIZE * VERIFICATION_CACHE_LINE_SIZE.

Section Verification.
Context `{O : IterOrder}.
(** What [1 << n] gives where the shift is wider than [int]; undefined. *)
Variable oversized : Z -> Z.

Definition one_shl (n : Z) : Z := if n <? 31 then 2 ^ n else oversized n.

(** The two lowest levels of the tree shift by 36 and 33. *)
Definition dataToMTOffset (dataAddr : Z) (levelFromBottom : nat) : Z :=
  u64 (Z.shiftr dataAddr (Z.of_nat levelFromBottom * 3) +
       one_shl ((Z.of_nat VERIFICATION_TREE_HEIGHT - Z.of_nat levelFromBottom) * 3)).

Definition dataToMTAddr (dataAddr : Z) (levelFromBottom : nat) : res Z :=
  let rtn := u64 (dataToMTOffset dataAddr levelFromBottom / 8 + VERIFICATION_ADDR_DIFF) in
  assert_that (VERIFICATION_ADDR_DIFF <=? rtn) ;; Ok rtn.

(** [writeVerificationCache(_pkt, nodeLevel)] and
    [readVerificationCache(paddr, nodeLevel)], which differ in the dirty mark. *)
Definition access_node (paddr : Z) (nodeLevel : nat) (write : bool) (c : t) : res (bool * t) :=
  let addr := verification_line paddr in
  let MToffset := dataToMTOffset addr nodeLevel in
  MTAddr ← dataToMTAddr addr nodeLevel;
  '(isHit, victim, s) ← use (Z.of_nat VERIFICATION_CACHE_SIZE) MToffset write (VerificationCache c);
  let c := with_nodes s c in
  if isHit : bool then Ok (true, c)
  else
    Ok (false,
        with_node_queues (VerificationCacheMissQueue c ++ [verification_miss c MTAddr])
          (match victim with
           | Some a => VerificationCacheEvictionQueue c ++ [createVerificationPkt c a true]
           | None => VerificationCacheEvictionQueue c
           end) c).

Definition writeVerificationCache (p : Packet.t) (nodeLevel : nat) (c : t) : res (bool * t) :=
  access_node (Packet.addr p) nodeLevel true c.
Definition readVerificationCache (paddr : Z) (nodeLevel : nat) (c : t) : res (bool * t) :=
  access_node paddr nodeLevel false c.

(** The walk towards the root stops at the first node that is cached: the
    number of misses. *)
Fixpoint walk (levels : list nat) (paddr misses : Z) (c : t) : res (Z * t) :=
  match levels with
  | [] => Ok (misses, c)
  | nodeLevel :: levels =>
      '(isHit, c) ← readVerificationCache paddr nodeLevel c;
      if isHit : bool then Ok (misses, c) else walk levels paddr (u64 (misses + 1)) c
  end.

Definition levels : list nat := seq 0 VERIFICATION_TREE_HEIGHT.

(** [readVerificationCache(CompletedWriteEntry&)]: the misses are counted in the
    entry, a copy its caller drops. *)
Definition readVerificationCache_entry (e : CWE.t) (misses : Z) (c : t) : res (Z * t) :=
  a ← CWE.get_addr e; walk levels a misses c.

Definition with_misses (n : Z) (p : Packet.t) : Packet.t :=
  Packet.mk (Packet.isWrite p) (Packet.isRead p) (Packet.hasData p) (Packet.needsResponse p)
    (Packet.cacheResponding p) (Packet.isToPOC p) (Packet.size p) (Packet.reqSize p)
    (Packet.addr p) (Packet.vaddr p) (Packet.paddr p) (Packet.pc p) (Packet.data p)
    (Packet.headerDelay p) (Packet.payloadDelay p) (Packet.isCounterPacket p)
    (Packet.isCounterCacheEviction p) (Packet.isVerificationPacket p)
    (Packet.isVerificationCacheEviction p) (Packet.counterCacheHit p)
    (Packet.verificationCacheHit p) n.

(** [readVerificationCache(PacketPtr)] *)
Definition readVerificationCache_pkt (p : Packet.t) (c : t) : res (Packet.t * t) :=
  paddr ← Packet.getPaddr p;
  panic_if (paddr =? UINT64_MAX) ;;
  '(misses, c) ← walk levels paddr (Packet.verificationCacheMisses p) c;
  Ok (with_misses misses p, c).
End Verification.

(** ** Write back of the counters *)

Section Writeback.
Context `{O : IterOrder}.

(** Lines 2133-2146: the dirty counters of the flushed line are queued. *)
Definition flush_entry (flush_addr : Z) (x : Z * entry) (st : gmap Z entry * list QueueEntry * t)
    : gmap Z entry * list QueueEntry * t :=
  let '(a, e) := x in
  let '(s, q, c) := st in
  if dirty e && (a / COUNTER_CACHE_LINE_SIZE =? flush_addr / COUNTER_CACHE_LINE_SIZE) then
    (<[a := set_dirty false e]> s, q ++ [createCounterPkt c a false], c)
  else st.

Definition flush_set (flush_addr : Z) (x : Z * gmap Z entry) (c : t) : t :=
  let '(index, s) := x in
  let '(s', q, _) := foldr (flush_entry flush_addr) (s, [], c) (reverse (iter s)) in
  with_counters (<[index := s']> (CounterCache c))
    (with_counter_queues (CounterWriteQueue c ++ q) (CounterCacheMissQueue c)
       (CounterCacheEvictionQueue c) (EvictionCnt c) c).

Definition CounterCacheWriteback (pt : PageTable.t) (p : Packet.t) (c : t) : res t :=
  assert_that (Packet.hasVaddr p) ;;
  v ← Packet.getVaddr p;
  assert_that (negb (v =? UINT64_MAX)) ;;
  a ← match Packet.paddr p with
      | Some a => if a =? UINT64_MAX then
                    match PageTable.translate pt v with Some a => Ok a | None => Fail AssertFailure end
                  else Ok a
      | None => match PageTable.translate pt v with Some a => Ok a | None => Fail AssertFailure end
      end;
  Ok (foldl (fun c x => flush_set a x c) c (iter (CounterCache c))).
End Writeback.

(** ** Refinement of the replacement by recency *)

Inductive op :=
| ReadCounter (paddr : Z)
| WriteCounter (p : Packet.t)
| ReadNode (paddr : Z) (nodeLevel : nat)
| WriteNode (p : Packet.t) (nodeLevel : nat).

(** The reference: for every set, and for the cache of nodes, the keys by
    recency. *)
Record ref := mkRef { counter_keys : gmap Z (list Z); node_keys : list Z }.

Definition keys_of (index : Z) (r : ref) : list Z := default [] (counter_keys r !! index).

Definition ref_counter (addr : Z) (r : ref) : bool * ref :=
  let a := counter_line addr in
  let i := getIndex a in
  (bool_decide (a ∈ keys_of i r),
   mkRef (<[i := access NUM_WAY a (keys_of i r)]> (counter_keys r)) (node_keys r)).

Section Refinement.
Context `{O : IterOrder}.
Variable oversized : Z -> Z.

Definition apply_op (o : op) (c : t) : res (bool * t) :=
  match o with
  | ReadCounter paddr => readCounterCache paddr c
  | WriteCounter p => writeCounterCache p c
  | ReadNode paddr l => readVerificationCache oversized paddr l c
  | WriteNode p l => writeVerificationCache oversized p l c
  end.

Definition ref_node (paddr : Z) (l : nat) (r : ref) : bool * ref :=
  let k := dataToMTOffset oversized (verification_line paddr) l in
  (bool_decide (k ∈ node_keys r),
   mkRef (counter_keys r) (access VERIFICATION_CACHE_SIZE k (node_keys r))).

Definition ref_op (o : op) (r : ref) : bool * ref :=
  match o with
  | ReadCounter paddr => ref_counter paddr r
  | WriteCounter p => ref_counter (Packet.addr p) r
  | ReadNode paddr l => ref_node paddr l r
  | WriteNode p l => ref_node (Packet.addr p) l r
  end.

(** Counters are written through: no counter stays dirty. *)
Record refines (n : Z) (c : t) (r : ref) : Prop := {
  rf_counters : forall i, recency n (counter_set i c) (keys_of i r) /\ (length (keys_of i r) <= NUM_WAY)%nat;
  rf_clean : forall i k, dirtiness (counter_set i c) k <> Some true;
  rf_evictions : CounterCacheEvictionQueue c = [] /\ EvictionCnt c = 0;
  rf_nodes : recency n (VerificationCache c) (node_keys r) /\
    (length (node_keys r) <= VERIFICATION_CACHE_SIZE)%nat
}.

Lemma new_refines burst : refines 0 (new burst) (mkRef ∅ []).
Proof.
  split; cbn; try done.
  - intros i. unfold counter_set, keys_of. cbn. rewrite !lookup_empty. cbn.
    split; [apply recency_empty|lia].
  - split; [apply recency_empty|lia].
Qed.

Lemma getIndex_ok addr : 0 <= addr -> 0 <= getIndex addr < num_sets.
Proof.
  intros H. unfold getIndex. change num_sets with 128.
  set (q := addr / COUNTER_CACHE_LINE_SIZE).
  assert (q - q / 128 * 128 = q mod 128) as -> by (pose proof (Z.div_mod q 128); lia).
  pose proof (Z.mod_pos_bound q 128 ltac:(lia)). rewrite u32_id by (unfold is_u32; lia). lia.
Qed.

Lemma counter_set_insert i j s c :
  counter_set i (with_counters (<[j := s]> (CounterCache c)) c) =
    if decide (i = j) then s else counter_set i c.
Proof.
  unfold counter_set. cbn. case_decide; [subst; by rewrite lookup_insert_eq|].
  by rewrite lookup_insert_ne.
Qed.

Lemma keys_of_insert i j l r : keys_of i (mkRef (<[j := l]> (counter_keys r)) (node_keys r)) =
  if decide (i = j) then l else keys_of i r.
Proof.
  unfold keys_of. cbn. case_decide; [subst; by rewrite lookup_insert_eq|]. by rewrite lookup_insert_ne.
Qed.

(** A key outside the list has no entry, hence no mark. *)
Lemma dirty_outside n m l k : recency n m l -> k ∉ l -> dirtiness m k = None.
Proof.
  intros H Hk. unfold dirtiness. rewrite (proj2 (eq_None_not_Some (m !! k))); [done|].
  by rewrite (re_keys _ _ _ H).
Qed.

(** The state of the counters once a set was accessed. *)
Record counted (n : Z) (a : Z) (write : bool) (c c' : t) (r : ref) : Prop := {
  ct_others : forall i, i <> getIndex a -> counter_set i c' = counter_set i c;
  ct_set : recency (n + 1) (counter_set (getIndex a) c') (access NUM_WAY a (keys_of (getIndex a) r));
  ct_dirty : dirtiness (counter_set (getIndex a) c') a = Some write;
  ct_clean : forall k, k <> a -> dirtiness (counter_set (getIndex a) c') k <> Some true;
  ct_evictions : CounterCacheEvictionQueue c' = [] /\ EvictionCnt c' = 0;
  ct_nodes : VerificationCache c' = VerificationCache c
}.

Lemma access_counter_ok n a write c r :
  refines n c r -> 0 <= n < 4294967296 -> 0 <= a ->
  exists c', access_counter a write c = Ok (bool_decide (a ∈ keys_of (getIndex a) r), c') /\
    counted n a write c c' r.
Proof.
  intros [H1 H2 [H3 H4] H5] Hn Ha. unfold access_counter. pose proof (getIndex_ok a Ha) as Hi.
  rewrite (proj2 (Z.ltb_lt _ _)) by lia. cbn [assert_that mbind res_bind].
  destruct (H1 (getIndex a)) as [Hr Hlen]. set (i := getIndex a) in *. set (l := keys_of i r) in *.
  destruct (use_spec NUM_WAY n _ l a write Hr Hn Hlen) as (s & -> & Hrec & Hd & Hdo); [unfold NUM_WAY; lia|].
  assert (default false (dirtiness (counter_set i c) a) = false) as Hf.
  { specialize (H2 i a). by destruct (dirtiness (counter_set i c) a) as [[]|]. }
  rewrite Hf, andb_false_r, orb_false_r in Hd.
  assert (victim_of NUM_WAY (counter_set i c) l a = None) as ->.
  { unfold victim_of. case_decide; [|done]. destruct (last l) as [z|]; [|done].
    specialize (H2 i z). by destruct (dirtiness (counter_set i c) z) as [[]|]. }
  cbn [mbind res_bind].
  assert (forall c', CounterCache c' = <[i := s]> (CounterCache c) ->
    CounterCacheEvictionQueue c' = CounterCacheEvictionQueue c -> EvictionCnt c' = EvictionCnt c ->
    VerificationCache c' = VerificationCache c -> counted n a write c c' r) as Hfin.
  { intros c' E1 E2 E3 E4.
    assert (forall j, counter_set j c' = if decide (j = i) then s else counter_set j c) as Hs
      by (intros j; unfold counter_set; rewrite E1, lookup_insert; repeat case_decide; subst; done).
    split; [|..|by rewrite E2, E3|done]; fold i l.
    - intros j Hj. by rewrite Hs, decide_False.
    - by rewrite Hs, decide_True.
    - by rewrite Hs, decide_True.
    - intros k Hk. rewrite Hs, decide_True by done. destruct (decide (k ∈ access NUM_WAY a l)) as [Hin|Hout].
      + rewrite (Hdo k Hk Hin). apply H2.
      + by rewrite (dirty_outside _ _ _ _ Hrec Hout). }
  case_bool_decide; (eexists; split; [done|]); by apply Hfin.
Qed.

Lemma counted_refines n a c c' r :
  refines n c r -> counted n a false c c' r ->
  refines (n + 1) c' (mkRef (<[getIndex a := access NUM_WAY a (keys_of (getIndex a) r)]> (counter_keys r)) (node_keys r)).
Proof.
  intros [H1 H2 [H3 H4] [H5 H6]] [C1 C2 C3 C4 C5 C6]. split; [| |done|].
  - intros i. rewrite keys_of_insert. case_decide as Hi.
    + subst. split; [done|apply length_access].
    + rewrite C1 by done. destruct (H1 i). split; [|done]. eapply recency_weaken; [|done]; lia.
  - intros i k. destruct (decide (i = getIndex a)) as [->|Hi]; [|by rewrite C1].
    destruct (decide (k = a)) as [->|]; [by rewrite C3|by apply C4].
  - rewrite C6. split; [|done]. eapply recency_weaken; [|done]; lia.
Qed.

Lemma clean_counted n a c c' r :
  counted n a true c c' r -> exists c'', clean_counter a c' = Ok c'' /\ counted n a false c c'' r.
Proof.
  intros [C1 C2 C3 C4 C5 C6]. unfold clean_counter.
  pose proof C3 as C3'. unfold dirtiness in C3'.
  destruct (counter_set (getIndex a) c' !! a) as [e|] eqn:He; [|done]. cbn [deref mbind res_bind].
  eexists. split; [done|]. split; [| | | |done|done].
  - intros i Hi. by rewrite counter_set_insert, decide_False, C1.
  - rewrite counter_set_insert, decide_True by done. by apply recency_dirty.
  - rewrite counter_set_insert, decide_True by done. unfold dirtiness. by rewrite lookup_insert_eq.
  - intros k Hk. rewrite counter_set_insert, decide_True by done. unfold dirtiness.
    rewrite lookup_insert_ne by done. by apply C4.
Qed.

Lemma dataToMTAddr_ok addr l : exists a, dataToMTAddr oversized addr l = Ok a.
Proof.
  unfold dataToMTAddr. pose proof (u64_range (Z.shiftr addr (Z.of_nat l * 3) +
    one_shl oversized ((Z.of_nat VERIFICATION_TREE_HEIGHT - Z.of_nat l) * 3))) as Hr.
  fold (dataToMTOffset oversized addr l) in Hr. unfold is_u64 in Hr.
  assert (0 <= dataToMTOffset oversized addr l / 8 < 2305843009213693952) as Hd
    by (split; [apply Z.div_pos; lia|apply Z.div_lt_upper_bound; lia]).
  unfold VERIFICATION_ADDR_DIFF. rewrite u64_id by (unfold is_u64; lia).
  rewrite (proj2 (Z.leb_le _ _)) by lia. by eexists.
Qed.

Lemma access_node_ok n paddr l write c r :
  refines n c r -> 0 <= n < 4294967296 ->
  exists c', access_node oversized paddr l write c = Ok ((ref_node paddr l r).1, c') /\
    refines (n + 1) c' (ref_node paddr l r).2.
Proof.
  intros [H1 H2 H3 [H4 H5]] Hn. unfold access_node, ref_node. cbn [fst snd].
  destruct (dataToMTAddr_ok (verification_line paddr) l) as (ma & ->). cbn [mbind res_bind].
  set (k := dataToMTOffset oversized (verification_line paddr) l).
  destruct (use_spec VERIFICATION_CACHE_SIZE n _ (node_keys r) k write H4 Hn H5)
    as (s & -> & Hrec & _); [unfold VERIFICATION_CACHE_SIZE; lia|].
  cbn [mbind res_bind].
  assert (forall c', CounterCache c' = CounterCache c -> VerificationCache c' = s ->
    CounterCacheEvictionQueue c' = CounterCacheEvictionQueue c -> EvictionCnt c' = EvictionCnt c ->
    refines (n + 1) c' (mkRef (counter_keys r) (access VERIFICATION_CACHE_SIZE k (node_keys r)))) as Hfin.
  { intros c' E1 E2 E3 E4. split.
    - intros i. destruct (H1 i) as [Hi Hl]. unfold counter_set in *. rewrite E1. split; [|exact Hl].
      eapply recency_weaken; [|exact Hi]; lia.
    - intros i. unfold counter_set. rewrite E1. apply H2.
    - by rewrite E3, E4.
    - rewrite E2. split; [done|apply length_access]. }
  case_bool_decide; (eexists; split; [done|]); by apply Hfin.
Qed.

Definition valid_op (o : op) : Prop :=
  match o with
  | ReadCounter paddr => 0 <= paddr
  | WriteCounter p => 0 <= Packet.addr p /\ Packet.isWrite p = true
  | _ => True
  end.

Lemma counter_line_nonneg a : 0 <= a -> 0 <= counter_line a.
Proof. intros H. unfold counter_line, COUNTER_CACHE_LINE_SIZE. pose proof (Z.div_pos a 512). lia. Qed.

Lemma apply_op_ok n o c r :
  refines n c r -> 0 <= n < 4294967296 -> valid_op o ->
  exists c', apply_op o c = Ok ((ref_op o r).1, c') /\ refines (n + 1) c' (ref_op o r).2.
Proof.
  intros Hr Hn Hv. destruct o as [paddr|p|paddr l|p l]; cbn [apply_op ref_op valid_op] in *.
  - unfold readCounterCache, ref_counter. cbn [fst snd].
    set (c1 := with_stats _ c). assert (refines n c1 r) as Hr1 by (by destruct Hr; split).
    destruct (access_counter_ok n (counter_line paddr) false c1 r) as (c' & -> & Hc);
      [done|done|by apply counter_line_nonneg|].
    exists c'. split; [done|]. by apply (counted_refines n _ c1).
  - destruct Hv as [Ha Hw]. unfold writeCounterCache, ref_counter. cbn [fst snd].
    set (c1 := with_stats _ c). assert (refines n c1 r) as Hr1 by (by destruct Hr; split).
    destruct (access_counter_ok n (counter_line (Packet.addr p)) true c1 r) as (c2 & -> & Hc);
      [done|done|by apply counter_line_nonneg|]. cbn [mbind res_bind]. rewrite Hw.
    destruct (clean_counted _ _ _ _ _ Hc) as (c3 & -> & Hc3). cbn [mbind res_bind].
    exists c3. split; [done|]. by apply (counted_refines n _ c1).
  - by apply access_node_ok.
  - by apply access_node_ok.
Qed.

(** The answers of a sequence of accesses, hit or miss. *)
Fixpoint run_ops (os : list op) (c : t) : res (list bool * t) :=
  match os with
  | [] => Ok ([], c)
  | o :: os => '(h, c) ← apply_op o c; '(hs, c) ← run_ops os c; Ok (h :: hs, c)
  end.
Fixpoint ref_run (os : list op) (r : ref) : list bool * ref :=
  match os with
  | [] => ([], r)
  | o :: os => let '(h, r) := ref_op o r in let '(hs, r) := ref_run os r in (h :: hs, r)
  end.

Lemma run_ops_ok os n c r :
  refines n c r -> 0 <= n -> n + Z.of_nat (length os) <= 4294967296 -> Forall valid_op os ->
  exists c', run_ops os c = Ok ((ref_run os r).1, c') /\
    refines (n + Z.of_nat (length os)) c' (ref_run os r).2.
Proof.
  revert n c r. induction os as [|o os IH]; intros n c r Hr Hn Hlen Hv; cbn [run_ops ref_run length] in *.
  { exists c. split; [done|]. by rewrite Z.add_0_r. }
  apply Forall_cons in Hv as [Ho Hv].
  destruct (apply_op_ok n o c r Hr ltac:(lia) Ho) as (c1 & -> & H1). cbn [mbind res_bind].
  destruct (ref_op o r) as [h r1]. cbn [fst snd] in *.
  destruct (IH (n + 1) c1 r1 H1) as (c2 & -> & H2); [lia|lia|done|]. cbn [mbind res_bind].
  destruct (ref_run os r1) as [hs r2]. cbn [fst snd] in *. exists c2. split; [done|].
  by replace (n + Z.of_nat (S (length os))) with (n + 1 + Z.of_nat (length os)) by lia.
Qed.

(** ** The walk over the tree *)

Definition node_key (paddr : Z) (l : nat) : Z := dataToMTOffset oversized (verification_line paddr) l.

Lemma take_mono (a : Z) p q l : (p <= q)%nat -> a ∈ take p l -> a ∈ take q l.
Proof. rewrite !elem_of_take. intros Hpq (i & Hi & Hlt). exists i. split; [done|lia]. Qed.

(** A key among the [p] most recent ones is among the [p + 1] most recent ones
    after an access. *)
Lemma access_keeps cap p k a l :
  (p < cap)%nat -> a ∈ take p l -> a ∈ take (S p) (access cap k l).
Proof.
  intros Hp Ha. unfold access. rewrite take_take, Nat.min_l by lia. cbn [take].
  destruct (decide (a = k)) as [->|Hne]; [apply list_elem_of_here|apply list_elem_of_further].
  clear Hp cap. revert p Ha. induction l as [|x l IH]; intros p Ha; [rewrite take_nil in Ha; by apply not_elem_of_nil in Ha|].
  destruct p as [|p]; [by apply not_elem_of_nil in Ha|]. cbn [take] in Ha. rewrite filter_cons. case_decide as Hx.
  - cbn [take]. apply elem_of_cons in Ha as [->|Ha]; [apply list_elem_of_here|].
    by apply list_elem_of_further, IH.
  - apply elem_of_cons in Ha as [->|Ha]; [done|].
    apply IH in Ha. eapply take_mono; [|done]. lia.
Qed.

(** The keys a step of the walk leaves, with those it found still cached. *)
Record walked (ls : list nat) (paddr : Z) (n k : Z) (c' : t) (r r' : ref) : Prop := {
  wk_refines : refines (n + Z.of_nat (length ls)) c' r';
  wk_count : 0 <= k <= Z.of_nat (length ls);
  wk_keeps : forall a p, a ∈ take p (node_keys r) -> (p + length ls <= VERIFICATION_CACHE_SIZE)%nat ->
    a ∈ take (p + length ls) (node_keys r');
  wk_hit : forall l rest, ls = l :: rest -> node_key paddr l ∈ node_keys r -> k = 0;
  wk_first : forall l rest, ls = l :: rest -> (length ls <= VERIFICATION_CACHE_SIZE)%nat ->
    node_key paddr l ∈ node_keys r'
}.

Lemma refines_weaken n n' c r : n <= n' -> refines n c r -> refines n' c r.
Proof.
  intros Hn [H1 H2 H3 [H4 H5]]. split; [|done|done|].
  - intros i. destruct (H1 i). split; [by eapply recency_weaken|done].
  - split; [by eapply recency_weaken|done].
Qed.

Lemma walk_ok ls paddr n m c r :
  refines n c r -> 0 <= n -> n + Z.of_nat (length ls) <= 4294967296 ->
  0 <= m -> m + Z.of_nat (length ls) <= UINT64_MAX ->
  exists k c' r', walk oversized ls paddr m c = Ok (m + k, c') /\ walked ls paddr n k c' r r'.
Proof.
  revert n m c r. induction ls as [|l ls IH]; intros n m c r Hr Hn Hlen Hm Hmax; cbn [walk length] in *.
  { exists 0, c, r. split; [by rewrite Z.add_0_r|]. split; cbn; [by rewrite Z.add_0_r|lia| |done|done].
    intros a p Ha _. by rewrite Nat.add_0_r. }
  unfold readVerificationCache at 1.
  destruct (access_node_ok n paddr l false c r Hr ltac:(lia)) as (c1 & -> & H1).
  cbn [mbind res_bind]. unfold ref_node in *. cbn [fst snd] in *. fold (node_key paddr l) in *.
  set (r1 := mkRef _ _) in *.
  assert (forall a p q, a ∈ take p (node_keys r) -> (p + S q <= VERIFICATION_CACHE_SIZE)%nat ->
    a ∈ take (S p) (node_keys r1)) as Hkeep by (intros a p q Ha Hp; apply access_keeps; [lia|done]).
  assert (node_key paddr l ∈ take 1 (node_keys r1)) as Hfirst.
  { unfold r1, access. cbn [node_keys]. rewrite take_take. apply list_elem_of_here. }
  case_bool_decide as Hin.
  - exists 0, c1, r1. split; [by rewrite Z.add_0_r|]. split; [|cbn; lia| |done|].
    + eapply refines_weaken; [|done]. cbn [length]. lia.
    + intros a p Ha Hp. cbn [length] in *. eapply take_mono; [|by eapply Hkeep]. lia.
    + intros l' rest [= <- _] _. apply elem_of_take in Hfirst as (i & Hi & _). by eapply list_elem_of_lookup_2.
  - change (2 ^ 64 - 1) with UINT64_MAX in *.
    rewrite u64_id by (unfold is_u64; cbv [UINT64_MAX] in *; lia).
    destruct (IH (n + 1) (m + 1) c1 r1 H1) as (k & c2 & r2 & -> & [W1 W2 W3 W4]); [lia..|].
    exists (k + 1), c2, r2. split; [f_equal; f_equal; lia|]. split; cbn [length].
    + by replace (n + Z.of_nat (S (length ls))) with (n + 1 + Z.of_nat (length ls)) by lia.
    + lia.
    + intros a p Ha Hp. rewrite <- Nat.add_succ_comm. apply W3; [by eapply Hkeep|lia].
    + intros l' rest [= <- _] Hl. done.
    + intros l' rest [= <- _] Hc. pose proof (W3 _ 1%nat Hfirst ltac:(lia)) as Hw.
      apply elem_of_take in Hw as (i & Hi & _). by eapply list_elem_of_lookup_2.
Qed.

Lemma run_ops_refines os burst c :
  Z.of_nat (length os) <= 4294967296 -> Forall valid_op os ->
  (run_ops os (new burst) ≫= fun x => Ok x.2) = Ok c ->
  refines (Z.of_nat (length os)) c (ref_run os (mkRef ∅ [])).2.
Proof.
  intros Hlen Hv E. destruct (run_ops_ok os 0 (new burst) (mkRef ∅ []) (new_refines burst))
    as (c' & E' & Hr); [lia|lia|done|]. rewrite E' in E. cbn in E. by apply ok_inj in E as <-.
Qed.

(** C36: after any sequence of accesses, the walk a request makes over the tree's
    nodes returns without a failed assertion, and adds at most twelve misses, one
    per level, to the packet.  The same walk made again adds none: twelve accesses
    never push the first node out of the cache. *)
Theorem verification_walk burst os c p paddr :
  Z.of_nat (length os) + 24 <= 4294967296 -> Forall valid_op os ->
  (run_ops os (new burst) ≫= fun x => Ok x.2) = Ok c ->
  Packet.getPaddr p = Ok paddr -> paddr <> UINT64_MAX ->
  0 <= Packet.verificationCacheMisses p -> Packet.verificationCacheMisses p + 24 <= UINT64_MAX ->
  exists k p' c', readVerificationCache_pkt oversized p c = Ok (p', c') /\
    p' = with_misses (Packet.verificationCacheMisses p + k) p /\ 0 <= k <= 12 /\
    exists c'', readVerificationCache_pkt oversized p' c' = Ok (p', c'').
Proof.
  intros Hlen Hv E Ep Hne Hm Hmax. apply run_ops_refines in E; [|lia|done].
  set (r := (ref_run os (mkRef ∅ [])).2) in *.
  assert (Z.of_nat (length levels) = 12) as HL by done.
  destruct (walk_ok levels paddr _ (Packet.verificationCacheMisses p) c r E) as (k & c1 & r1 & E1 & [W1 W2 _ _ W5]);
    [lia|lia|exact Hm|lia|].
  unfold readVerificationCache_pkt. rewrite Ep. cbn [mbind res_bind].
  rewrite (proj2 (Z.eqb_neq _ _) Hne). cbn [panic_if mbind res_bind]. rewrite E1. cbn [mbind res_bind].
  eexists k, _, c1. split; [done|]. split; [done|]. split; [lia|].
  destruct (walk_ok levels paddr _ (Packet.verificationCacheMisses p + k) c1 r1 W1)
    as (k2 & c2 & r2 & E2 & [_ _ _ W4 _]); [lia..|].
  assert (k2 = 0) as -> by (eapply (W4 0%nat (seq 1 11)); [done|]; eapply (W5 0%nat (seq 1 11)); [done|];
    unfold VERIFICATION_CACHE_SIZE; cbn; lia).
  exists c2. change (Packet.getPaddr (with_misses _ p)) with (Packet.getPaddr p). rewrite Ep.
  cbn [mbind res_bind]. rewrite (proj2 (Z.eqb_neq _ _) Hne). cbn [panic_if mbind res_bind with_misses Packet.verificationCacheMisses].
  rewrite E2, Z.add_0_r. done.
Qed.

(** C35: started empty, the metadata caches answer any sequence of up to
    2^32 reads and writes, hit or miss, exactly as the reference that keeps the
    keys of each set by recency and drops the least recent one of a full set,
    whatever the order the hash tables are traversed in and whatever the
    oversized shifts give.  No assertion fails; no set has more than sixteen
    counters and the other cache no more than 2048 nodes; and no counter is ever
    evicted dirty. *)
Theorem metadata_caches_lru burst os :
  Z.of_nat (length os) <= 4294967296 -> Forall valid_op os ->
  exists c, run_ops os (new burst) = Ok ((ref_run os (mkRef ∅ [])).1, c) /\
    (forall i, (size (counter_set i c) <= NUM_WAY)%nat) /\
    (size (VerificationCache c) <= VERIFICATION_CACHE_SIZE)%nat /\
    (forall i k, is_Some (counter_set i c !! k) <-> k ∈ keys_of i (ref_run os (mkRef ∅ [])).2) /\
    CounterCacheEvictionQueue c = [].
Proof.
  intros Hlen Hv. destruct (run_ops_ok os 0 (new burst) (mkRef ∅ []) (new_refines burst))
    as (c & E & [H1 H2 [H3 _] [H4 H5]]); [lia|lia|done|].
  exists c. split; [done|]. split; [|split; [|split; [|done]]].
  - intros i. destruct (H1 i) as [Hr Hl]. by rewrite (recency_size _ _ _ Hr).
  - by rewrite (recency_size _ _ _ H4).
  - intros i. destruct (H1 i) as [Hr _]. apply (re_keys _ _ _ Hr).
Qed.
(** ** The hit test of the handlers *)

Definition aligned (r : ref) : Prop := forall i k, k ∈ keys_of i r -> k mod COUNTER_CACHE_LINE_SIZE = 0.

Lemma ref_op_aligned o r : aligned r -> aligned (ref_op o r).2.
Proof.
  intros H. assert (forall a, aligned (ref_counter a r).2) as Hc.
  { intros a i k. unfold ref_counter. cbn [snd]. rewrite keys_of_insert. case_decide; [|by apply H].
    unfold access. intros (j & Hj & _)%elem_of_take.
    apply list_elem_of_lookup_2, elem_of_cons in Hj as [->|Hj].
    - unfold counter_line. by apply Z.mod_mul.
    - apply list_elem_of_filter in Hj as [_ Hj]. by eapply H. }
  by destruct o; cbn [ref_op]; try apply Hc.
Qed.

Lemma ref_run_aligned os r : aligned r -> aligned (ref_run os r).2.
Proof.
  revert r. induction os as [|o os IH]; intros r Hr; [done|]. cbn [ref_run].
  pose proof (ref_op_aligned o r Hr) as H1. destruct (ref_op o r) as [h r1]. cbn [snd] in H1.
  specialize (IH r1 H1). by destruct (ref_run os r1).
Qed.

(** C37: the handlers of the controller test for a hit with the address of the
    request, but counters are cached under the start of their 512-byte line: after
    any accesses, the test succeeds for no other address than such a start, so
    for at most one of the eight cache lines a counter line covers. *)
Theorem counter_hit_aligned burst os c a :
  Z.of_nat (length os) <= 4294967296 -> Forall valid_op os ->
  (run_ops os (new burst) ≫= fun x => Ok x.2) = Ok c ->
  isCounterCacheHit a c = true -> a mod 512 = 0.
Proof.
  intros Hlen Hv E Hhit. apply run_ops_refines in E; [|done|done].
  unfold isCounterCacheHit in Hhit. apply bool_decide_eq_true in Hhit.
  destruct (rf_counters _ _ _ E (getIndex a)) as [Hr _]. apply (re_keys _ _ _ Hr) in Hhit.
  eapply (ref_run_aligned os (mkRef ∅ [])); [|exact Hhit]. intros i k. unfold keys_of. cbn.
  rewrite lookup_empty. by intros ?%not_elem_of_nil.
Qed.


End Refinement.

(** ** Witnesses *)

(** Seventeen counter lines of one set, the first of them read again, and two
    levels of the tree. *)
Definition sample_ops : list op :=
  map (fun k => ReadCounter (0x240000040 + Z.of_nat k * 65536)) (seq 0 17) ++
  [ReadCounter 0x240000040; WriteCounter (Packet.store 0 0x240000040 0 []);
   ReadNode 0x240000040 2; ReadNode 0x240000040 3; ReadNode 0x240000040 2].

Lemma sample_ops_valid : Forall valid_op sample_ops.
Proof.
  apply Forall_app. split.
  - apply Forall_map, Forall_forall. intros k _. cbn. lia.
  - repeat constructor; cbn; lia.
Qed.

Lemma metadata_caches_lru_witness :
  exists c, @run_ops tree_order (fun _ => 0) sample_ops (new 64) =
      Ok (replicate 18 false ++ [true; false; false; true], c) /\
    (size (counter_set (getIndex 0x240000000) c) <= NUM_WAY)%nat.
Proof.
  destruct (@metadata_caches_lru tree_order (fun _ => 0) 64 sample_ops) as (c & E & Hs & _);
    [vm_compute; discriminate|apply sample_ops_valid|].
  exists c. split; [|apply Hs]. rewrite E. vm_compute. reflexivity.
Defined.

Lemma verification_walk_witness :
  exists k p' c c', (@run_ops tree_order (fun _ => 0) sample_ops (new 64) ≫= fun x => Ok x.2) = Ok c /\
    @readVerificationCache_pkt tree_order (fun _ => 0) (Packet.store 0 0x240000040 0 []) c = Ok (p', c') /\
    0 <= k <= 12 /\ Packet.verificationCacheMisses p' = k.
Proof.
  destruct (@run_ops tree_order (fun _ => 0) sample_ops (new 64) ≫= fun x => Ok x.2) as [c|x] eqn:E;
    [|vm_compute in E; discriminate].
  destruct (@verification_walk tree_order (fun _ => 0) 64 sample_ops c
    (Packet.store 0 0x240000040 0 []) 0x240000040) as (k & p' & c' & E' & Ep & Hk & _);
    [vm_compute; discriminate|apply sample_ops_valid|exact E|reflexivity|vm_compute; discriminate
    |vm_compute; discriminate|vm_compute; discriminate|].
  exists k, p', c, c'. split; [reflexivity|]. split; [exact E'|]. split; [exact Hk|].
  rewrite Ep. reflexivity.
Defined.

Lemma counter_hit_aligned_witness :
  exists c, (@run_ops tree_order (fun _ => 0) sample_ops (new 64) ≫= fun x => Ok x.2) = Ok c /\
    isCounterCacheHit 0x240000000 c = true /\ 0x240000000 mod 512 = 0 /\
    isCounterCacheHit 0x240000040 c = false.
Proof.
  destruct (@run_ops tree_order (fun _ => 0) sample_ops (new 64) ≫= fun x => Ok x.2) as [c|x] eqn:E;
    [|vm_compute in E; discriminate].
  assert (isCounterCacheHit 0x240000000 c = true) as Hh
    by exact (ok_check (fun c => isCounterCacheHit 0x240000000 c = true) _ c E ltac:(vm_compute; reflexivity)).
  exists c. split; [reflexivity|]. split; [exact Hh|]. split.
  - apply (@counter_hit_aligned tree_order (fun _ => 0) 64 sample_ops c 0x240000000);
      [vm_compute; discriminate|apply sample_ops_valid|exact E|exact Hh].
  - exact (ok_check (fun c => isCounterCacheHit 0x240000040 c = false) _ c E ltac:(vm_compute; reflexivity)).
Defined.

End MetadataCache.
