(* ===== verification/DramQueues.v ===== *)
(** * The queues of the memory controller

    Models the part of [class DRAMCtrl] ([mem/dram_ctrl.cc], [mem/dram_ctrl.hh])
    and of its base [QoS::MemCtrl] ([mem/qos/mem_ctrl.cc]) that every request
    passes: the decoding of addresses, the read and write queues with their
    bursts, merging and forwarding, and the events that serve the queues and
    answer the requests.  The choice of the next packet ([chooseNext]), the
    states of the ranks and the direction a turnaround policy chooses are inputs
    of the events; ready times, power states and statistics are left out. *)

From S2P Require Import Prelude Common PageTable Clock.

Module DramQueues.
Definition u8 (n : Z) : Z := n mod 256.
Definition NO_ROW : Z := 4294967295.

Inductive AddrMap := RoRaBaChCo | RoRaBaCoCh | RoCoRaBaCh.
Inductive BusState := READ | WRITE.

#[global] Instance bus_eq_dec : EqDecision BusState.
Proof. solve_decision. Defined.

Record config := mkConfig {
  burstSize : Z;
  columnsPerRowBuffer : Z;
  columnsPerStripe : Z;
  ranksPerChannel : Z;
  banksPerRank : Z;
  channels : Z;
  rowsPerBank : Z;
  addrMapping : AddrMap;
  readBufferSize : Z;
  writeBufferSize : Z;
  writeHighThreshold : Z;
  writeLowThreshold : Z;
  minWritesPerSwitch : Z;
  frontendLatency : Z;
  backendLatency : Z;
  numPriorities : nat
}.

(** A packet with its address in the simulator, its master and the priority
    [qosSchedule] gave it. *)
Record Req := mkReq { ptr : nat; pkt : Packet.t; masterId : Z; qosValue : nat }.

(** A [DRAMPacket]; [burstHelper] is the address of a shared [BurstHelper]. *)
Record DRAMPacket := mkDRAMPacket {
  req : Req;
  read : bool;
  rank : Z;
  bank : Z;
  row : Z;
  bankId : Z;
  addr : Z;
  size : Z;
  burstHelper : option nat
}.

Record BurstHelper := mkBurstHelper { burstCount : Z; burstsServiced : Z }.

(** An answer: the packet, with the tick its response is sent at, or deleted. *)
Record Answer := mkAnswer { to : nat; at_tick : option Z }.

(** The counters of [QoS::MemCtrl]. *)
Record MemCtrl := mkMemCtrl {
  masters : gset Z;
  readQueueSizes : gmap nat Z;
  writeQueueSizes : gmap nat Z;
  totalReadQueueSize : Z;
  totalWriteQueueSize : Z;
  packetPriorities : gmap (Z * nat) Z;
  requestTimes : gmap (Z * Z) (list Z)
}.

Record t := mk {
  readQueue : list (list DRAMPacket);
  writeQueue : list (list DRAMPacket);
  isInWriteQueue : gset Z;
  respQueue : list DRAMPacket;
  helpers : gmap nat BurstHelper;
  nextHelper : nat;
  qos : MemCtrl;
  retryRdReq : bool;
  retryWrReq : bool;
  nextReqEvent : bool;
  respondEvent : bool;
  busState : BusState;
  busStateNext : BusState;
  readsThisTime : Z;
  writesThisTime : Z;
  answers : list Answer;
  retriesSent : nat
}.

Definition with_reads q s := mk q (writeQueue s) (isInWriteQueue s) (respQueue s) (helpers s)
  (nextHelper s) (qos s) (retryRdReq s) (retryWrReq s) (nextReqEvent s) (respondEvent s)
  (busState s) (busStateNext s) (readsThisTime s) (writesThisTime s) (answers s) (retriesSent s).
Definition with_writes q b s := mk (readQueue s) q b (respQueue s) (helpers s)
  (nextHelper s) (qos s) (retryRdReq s) (retryWrReq s) (nextReqEvent s) (respondEvent s)
  (busState s) (busStateNext s) (readsThisTime s) (writesThisTime s) (answers s) (retriesSent s).
Definition with_resp q e s := mk (readQueue s) (writeQueue s) (isInWriteQueue s) q (helpers s)
  (nextHelper s) (qos s) (retryRdReq s) (retryWrReq s) (nextReqEvent s) e
  (busState s) (busStateNext s) (readsThisTime s) (writesThisTime s) (answers s) (retriesSent s).
Definition with_helpers h n s := mk (readQueue s) (writeQueue s) (isInWriteQueue s) (respQueue s) h
  n (qos s) (retryRdReq s) (retryWrReq s) (nextReqEvent s) (respondEvent s)
  (busState s) (busStateNext s) (readsThisTime s) (writesThisTime s) (answers s) (retriesSent s).
Definition with_qos m s := mk (readQueue s) (writeQueue s) (isInWriteQueue s) (respQueue s)
  (helpers s) (nextHelper s) m (retryRdReq s) (retryWrReq s) (nextReqEvent s) (respondEvent s)
  (busState s) (busStateNext s) (readsThisTime s) (writesThisTime s) (answers s) (retriesSent s).
Definition with_retry r w n s := mk (readQueue s) (writeQueue s) (isInWriteQueue s) (respQueue s)
  (helpers s) (nextHelper s) (qos s) r w (nextReqEvent s) (respondEvent s)
  (busState s) (busStateNext s) (readsThisTime s) (writesThisTime s) (answers s) n.
Definition with_next e s := mk (readQueue s) (writeQueue s) (isInWriteQueue s) (respQueue s)
  (helpers s) (nextHelper s) (qos s) (retryRdReq s) (retryWrReq s) e (respondEvent s)
  (busState s) (busStateNext s) (readsThisTime s) (writesThisTime s) (answers s) (retriesSent s).
Definition with_bus b b' r w s := mk (readQueue s) (writeQueue s) (isInWriteQueue s) (respQueue s)
  (helpers s) (nextHelper s) (qos s) (retryRdReq s) (retryWrReq s) (nextReqEvent s)
  (respondEvent s) b b' r w (answers s) (retriesSent s).
Definition with_answers l s := mk (readQueue s) (writeQueue s) (isInWriteQueue s) (respQueue s)
  (helpers s) (nextHelper s) (qos s) (retryRdReq s) (retryWrReq s) (nextReqEvent s)
  (respondEvent s) (busState s) (busStateNext s) (readsThisTime s) (writesThisTime s) l
  (retriesSent s).

(** ** The log of [QoS::MemCtrl] *)

Definition logRequest (now : Z) (dir : BusState) (p : DRAMPacket) (m : MemCtrl) : MemCtrl :=
  let q := qosValue (req p) in
  let k := (masterId (req p), q) in
  let a := (masterId (req p), addr p) in
  let pp := <[k := u64 (default 0 (packetPriorities m !! k) + 1)]> (packetPriorities m) in
  let rt := <[a := default [] (requestTimes m !! a) ++ [now]]> (requestTimes m) in
  let ms := masters m ∪ {[ masterId (req p) ]} in
  match dir with
  | READ => mkMemCtrl ms (<[q := u64 (default 0 (readQueueSizes m !! q) + 1)]> (readQueueSizes m))
      (writeQueueSizes m) (u64 (totalReadQueueSize m + 1)) (totalWriteQueueSize m) pp rt
  | WRITE => mkMemCtrl ms (readQueueSizes m)
      (<[q := u64 (default 0 (writeQueueSizes m !! q) + 1)]> (writeQueueSizes m))
      (totalReadQueueSize m) (u64 (totalWriteQueueSize m + 1)) pp rt
  end.

(** The request times kept for an address once the oldest is taken. *)
Definition take_time (a : Z * Z) (rt : gmap (Z * Z) (list Z)) : res (gmap (Z * Z) (list Z)) :=
  match rt !! a with
  | None => Fail Panic
  | Some [] => Fail Undefined
  | Some [_] => Ok (delete a rt)
  | Some (_ :: l) => Ok (<[a := l]> rt)
  end.

Definition logResponse (dir : BusState) (p : DRAMPacket) (m : MemCtrl) : res MemCtrl :=
  let q := qosValue (req p) in
  let k := (masterId (req p), q) in
  panic_if (negb (bool_decide (masterId (req p) ∈ masters m))) ;;
  let n := default 0 (packetPriorities m !! k) in
  panic_if (n =? 0) ;;
  rt ← take_time (masterId (req p), addr p) (requestTimes m);
  let pp := <[k := u64 (n - 1)]> (packetPriorities m) in
  Ok (match dir with
      | READ => mkMemCtrl (masters m)
          (<[q := u64 (default 0 (readQueueSizes m !! q) - 1)]> (readQueueSizes m))
          (writeQueueSizes m) (u64 (totalReadQueueSize m - 1)) (totalWriteQueueSize m) pp rt
      | WRITE => mkMemCtrl (masters m) (readQueueSizes m)
          (<[q := u64 (default 0 (writeQueueSizes m !! q) - 1)]> (writeQueueSizes m))
          (totalReadQueueSize m) (u64 (totalWriteQueueSize m - 1)) pp rt
      end).

Section Controller.
Variable c : config.

(** ** Addresses *)

Definition burstAlign (a : Z) : Z := Z.land a (Z.lnot (burstSize c - 1)).
(** [(addr | (burstSize - 1)) + 1], the start of the next burst. *)
Definition next_burst (a : Z) : Z := u64 (Z.lor a (burstSize c - 1) + 1).

(** Lines 427-506: rank, bank and row. *)
Definition decode (dramPktAddr : Z) : Z * Z * Z :=
  let addr := dramPktAddr / burstSize c in
  match addrMapping c with
  | RoRaBaChCo =>
      let addr := addr / columnsPerRowBuffer c / channels c in
      let bank := u8 (addr mod banksPerRank c) in
      let addr := addr / banksPerRank c in
      let rank := u8 (addr mod ranksPerChannel c) in
      let addr := addr / ranksPerChannel c in
      (rank, bank, addr mod rowsPerBank c)
  | RoRaBaCoCh =>
      let addr := addr / columnsPerStripe c / channels c /
                    (columnsPerRowBuffer c / columnsPerStripe c) in
      let bank := u8 (addr mod banksPerRank c) in
      let addr := addr / banksPerRank c in
      let rank := u8 (addr mod ranksPerChannel c) in
      let addr := addr / ranksPerChannel c in
      (rank, bank, addr mod rowsPerBank c)
  | RoCoRaBaCh =>
      let addr := addr / columnsPerStripe c / channels c in
      let bank := u8 (addr mod banksPerRank c) in
      let addr := addr / banksPerRank c in
      let rank := u8 (addr mod ranksPerChannel c) in
      let addr := addr / ranksPerChannel c / (columnsPerRowBuffer c / columnsPerStripe c) in
      (rank, bank, addr mod rowsPerBank c)
  end.

Definition decodeAddr (r : Req) (dramPktAddr size : Z) (isRead : bool) : res DRAMPacket :=
  let '(rank, bank, row) := decode dramPktAddr in
  assert_that (rank <? ranksPerChannel c) ;;
  assert_that (bank <? banksPerRank c) ;;
  assert_that (row <? rowsPerBank c) ;;
  assert_that (row <? NO_ROW) ;;
  Ok (mkDRAMPacket r isRead rank bank (u32 row) (u16 (banksPerRank c * rank + bank))
        dramPktAddr size None).

(** ** Accepting requests *)

Definition readQueueFull (neededEntries : Z) (s : t) : bool :=
  readBufferSize c <?
    u64 (totalReadQueueSize (qos s) + Z.of_nat (length (respQueue s)) + neededEntries).
Definition writeQueueFull (neededEntries : Z) (s : t) : bool :=
  writeBufferSize c <? u64 (totalWriteQueueSize (qos s) + neededEntries).

(** [access] turns the packet into a response and is not part of the model. *)
Definition accessAndRespond (now : Z) (r : Req) (static_latency : Z) (s : t) : t :=
  let p := pkt r in
  let tick := if Packet.needsResponse p
              then Some (u64 (now + static_latency + Packet.headerDelay p + Packet.payloadDelay p))
              else None in
  with_answers (answers s ++ [mkAnswer (ptr r) tick]) s.

(** [queue[qosValue].push_back(p)] *)
Definition push (p : DRAMPacket) (queues : list (list DRAMPacket)) : res (list (list DRAMPacket)) :=
  q ← deref (queues !! qosValue (req p));
  Ok (<[qosValue (req p) := q ++ [p]]> queues).

Definition burst_size (r : Req) (a : Z) : Z :=
  u32 (Z.min (next_burst a) (u64 (Packet.addr (pkt r) + Packet.size (pkt r))) - a).

(** One burst of a write: the loop of lines 642-688. *)
Definition write_burst (now : Z) (r : Req) (a : Z) (s : t) : res t :=
  if bool_decide (burstAlign a ∈ isInWriteQueue s) then Ok s
  else
    p ← decodeAddr r a (burst_size r a) false;
    assert_that (totalWriteQueueSize (qos s) <? writeBufferSize c) ;;
    q ← push p (writeQueue s);
    let s := with_writes q (isInWriteQueue s ∪ {[ burstAlign a ]}) s in
    let s := with_qos (logRequest now WRITE p (qos s)) s in
    assert_that (totalWriteQueueSize (qos s) =? Z.of_nat (base.size (isInWriteQueue s))) ;;
    Ok s.

Fixpoint write_bursts (now : Z) (r : Req) (cnt : nat) (a : Z) (s : t) : res t :=
  match cnt with
  | O => Ok s
  | S cnt => s ← write_burst now r a s; write_bursts now r cnt (next_burst a) s
  end.

Definition addToWriteQueue (now : Z) (r : Req) (pktCount : Z) (s : t) : res t :=
  assert_that (Packet.isWrite (pkt r)) ;;
  s ← write_bursts now r (Z.to_nat pktCount) (Packet.addr (pkt r)) s;
  let s := accessAndRespond now r (frontendLatency c) s in
  Ok (with_next true s).

(** A queued write that holds every byte of a burst. *)
Definition subsumes (a size : Z) (p : DRAMPacket) : bool :=
  (addr p <=? a) && (u64 (a + size) <=? u64 (addr p + DramQueues.size p)).

(** How many of the queues serve the burst; the [break] leaves one queue only. *)
Definition serving (a size : Z) (s : t) : nat :=
  if bool_decide (burstAlign a ∈ isInWriteQueue s)
  then length (filter (fun q => existsb (subsumes a size) q = true) (writeQueue s))
  else 0.

Definition set_helper (h : option nat) (p : DRAMPacket) : DRAMPacket :=
  mkDRAMPacket (req p) (read p) (rank p) (bank p) (row p) (bankId p) (addr p) (size p) h.

(** The state of the loop of lines 544-612. *)
Record read_loop := mkReadLoop { serviced : Z; helper : option nat; ctrl : t }.

Definition new_helper (pktCount : Z) (l : read_loop) : read_loop :=
  if (1 <? pktCount) && bool_decide (helper l = None) then
    let s := ctrl l in
    mkReadLoop (serviced l) (Some (nextHelper s))
      (with_helpers (<[nextHelper s := mkBurstHelper pktCount 0]> (helpers s)) (S (nextHelper s)) s)
  else l.

Definition read_burst (now : Z) (r : Req) (pktCount a : Z) (l : read_loop) : res read_loop :=
  let size := burst_size r a in
  let found := serving a size (ctrl l) in
  if (0 <? Z.of_nat found) then Ok (mkReadLoop (serviced l + Z.of_nat found) (helper l) (ctrl l))
  else
    let l := new_helper pktCount l in
    p ← decodeAddr r a size true;
    let p := set_helper (helper l) p in
    assert_that (negb (readQueueFull 1 (ctrl l))) ;;
    q ← push p (readQueue (ctrl l));
    let s := with_reads q (ctrl l) in
    Ok (mkReadLoop (serviced l) (helper l) (with_qos (logRequest now READ p (qos s)) s)).

Fixpoint read_bursts (now : Z) (r : Req) (pktCount : Z) (cnt : nat) (a : Z) (l : read_loop)
    : res read_loop :=
  match cnt with
  | O => Ok l
  | S cnt => l ← read_burst now r pktCount a l; read_bursts now r pktCount cnt (next_burst a) l
  end.

Definition addToReadQueue (now : Z) (r : Req) (pktCount : Z) (s : t) : res t :=
  assert_that (negb (Packet.isWrite (pkt r))) ;;
  assert_that (negb (pktCount =? 0)) ;;
  l ← read_bursts now r pktCount (Z.to_nat pktCount) (Packet.addr (pkt r)) (mkReadLoop 0 None s);
  let s := ctrl l in
  if serviced l =? pktCount then Ok (accessAndRespond now r (frontendLatency c) s)
  else
    s ← match helper l with
        | None => Ok s
        | Some h =>
            bh ← deref (helpers s !! h);
            Ok (with_helpers (<[h := mkBurstHelper (burstCount bh) (serviced l)]> (helpers s))
                  (nextHelper s) s)
        end;
    Ok (with_next true s).

(** The last part of [recvTimingReq], lines 1237-1296: whether the request is
    accepted. *)
Definition dram_pkt_count (r : Req) : Z :=
  let offset := u32 (Z.land (Packet.addr (pkt r)) (burstSize c - 1)) in
  u32 (u32 (offset + Packet.size (pkt r)) + burstSize c - 1) / burstSize c.

Definition enqueueReq (now : Z) (r : Req) (s : t) : res (bool * t) :=
  panic_if (Packet.cacheResponding (pkt r)) ;;
  panic_if (negb (Packet.isRead (pkt r) || Packet.isWrite (pkt r))) ;;
  let n := dram_pkt_count r in
  assert_that (bool_decide (qosValue r < numPriorities c)%nat) ;;
  if Packet.isWrite (pkt r) then
    assert_that (negb (Packet.size (pkt r) =? 0)) ;;
    if writeQueueFull n s then
      Ok (false, with_retry (retryRdReq s) true (retriesSent s) s)
    else s ← addToWriteQueue now r n s; Ok (true, s)
  else
    assert_that (Packet.isRead (pkt r)) ;;
    assert_that (negb (Packet.size (pkt r) =? 0)) ;;
    if readQueueFull n s then
      Ok (false, with_retry true (retryWrReq s) (retriesSent s) s)
    else s ← addToReadQueue now r n s; Ok (true, s).

(** ** Serving the queues *)

(** What the rest of the controller decides when [nextReqEvent] fires: the
    direction a turnaround policy chose, whether all ranks are refreshing,
    whether the system drains, and the packet [chooseNext] takes of a queue. *)
Record Choice := mkChoice {
  turn : option BusState;
  allBusy : bool;
  draining : bool;
  chooseNext : list DRAMPacket -> option nat
}.

(** The loop over the queues, highest priority first: queue and position. *)
Fixpoint pick (choose : list DRAMPacket -> option nat) (queues : list (nat * list DRAMPacket))
    : option (nat * nat) :=
  match queues with
  | [] => None
  | (i, q) :: queues => match choose q with Some j => Some (i, j) | None => pick choose queues end
  end.

Definition by_priority (queues : list (list DRAMPacket)) : list (nat * list DRAMPacket) :=
  reverse (imap pair queues).

(** [queue[p->qosValue()].erase(it)] for an iterator of queue [i]. *)
Definition erase (i j : nat) (p : DRAMPacket) (queues : list (list DRAMPacket))
    : res (list (list DRAMPacket)) :=
  q ← deref (queues !! i);
  if bool_decide (qosValue (req p) = i) then Ok (<[i := delete j q]> queues) else Fail Undefined.

Definition chosen (i j : nat) (queues : list (list DRAMPacket)) : res DRAMPacket :=
  q ← deref (queues !! i); deref (q !! j).

(** Lines 2101-2146: the packet is read and waits for its response. *)
Definition serve_read (i j : nat) (s : t) : res t :=
  p ← chosen i j (readQueue s);
  let s := with_bus (busState s) (busStateNext s) (u32 (readsThisTime s + 1)) (writesThisTime s) s in
  assert_that (size p <=? burstSize c) ;;
  m ← logResponse READ p (qos s);
  let s := with_qos m s in
  match respQueue s with
  | [] => assert_that (negb (respondEvent s))
  | _ => assert_that (respondEvent s)
  end ;;
  let s := with_resp (respQueue s ++ [p]) true s in
  let s := if writeHighThreshold c <? totalWriteQueueSize (qos s)
           then with_bus (busState s) WRITE (readsThisTime s) (writesThisTime s) s else s in
  q ← erase i j p (readQueue s);
  Ok (with_reads q s).

(** Lines 2183-2242: the packet is written, and the direction for the next one. *)
Definition serve_write (draining : bool) (i j : nat) (s : t) : res t :=
  p ← chosen i j (writeQueue s);
  assert_that (size p <=? burstSize c) ;;
  let s := with_bus (busState s) (busStateNext s) (readsThisTime s) (u32 (writesThisTime s + 1)) s in
  m ← logResponse WRITE p (qos s);
  q ← erase i j p (writeQueue s);
  let s := with_qos m (with_writes q (isInWriteQueue s ∖ {[ burstAlign (addr p) ]}) s) in
  let n := totalWriteQueueSize (qos s) in
  let below_threshold := u64 (n + minWritesPerSwitch c) <? writeLowThreshold c in
  Ok (if (n =? 0) || (below_threshold && negb draining) ||
         (negb (totalReadQueueSize (qos s) =? 0) && (minWritesPerSwitch c <=? writesThisTime s))
      then with_bus (busState s) READ (readsThisTime s) (writesThisTime s) s else s).

(** [None]: the handler returns early and schedules no further event. *)
Definition serve (ch : Choice) (s : t) : res (option t) :=
  match busState s with
  | READ =>
      if totalReadQueueSize (qos s) =? 0 then
        if negb (totalWriteQueueSize (qos s) =? 0) &&
           (draining ch || (writeLowThreshold c <? totalWriteQueueSize (qos s)))
        then Ok (Some (with_bus READ WRITE (readsThisTime s) (writesThisTime s) s))
        else Ok None
      else match pick (chooseNext ch) (by_priority (readQueue s)) with
           | None => Ok None
           | Some (i, j) => s ← serve_read i j s; Ok (Some s)
           end
  | WRITE =>
      match pick (chooseNext ch) (by_priority (writeQueue s)) with
      | None => Ok None
      | Some (i, j) => s ← serve_write (draining ch) i j s; Ok (Some s)
      end
  end.

(** Lines 1956-1988: the direction of the bus. *)
Definition turnaround (ch : Choice) (s : t) : t :=
  let b' := default (busStateNext s) (turn ch) in
  let switched := negb (bool_decide (busState s = b')) in
  let reads := if switched && bool_decide (busState s = READ) then 0 else readsThisTime s in
  let writes := if switched && bool_decide (busState s = WRITE) then 0 else writesThisTime s in
  with_bus b' b' reads writes s.

Definition processNextReqEvent (ch : Choice) (s : t) : res t :=
  let s := turnaround ch s in
  if allBusy ch then Ok s
  else
    r ← serve ch s;
    match r with
    | None => Ok s
    | Some s =>
        let s := with_next true s in
        Ok (if retryWrReq s && (totalWriteQueueSize (qos s) <? writeBufferSize c)
            then with_retry (retryRdReq s) false (S (retriesSent s)) s else s)
    end.

(** Lines 1347-1363: one burst of a split packet, or a whole packet, is read. *)
Definition respond (now : Z) (p : DRAMPacket) (s : t) : res t :=
  let answer := accessAndRespond now (req p) (frontendLatency c + backendLatency c) in
  match burstHelper p with
  | Some h =>
      bh ← deref (helpers s !! h);
      let bh := mkBurstHelper (burstCount bh) (u32 (burstsServiced bh + 1)) in
      if burstsServiced bh =? burstCount bh
      then Ok (with_helpers (delete h (helpers s)) (nextHelper s) (answer s))
      else Ok (with_helpers (<[h := bh]> (helpers s)) (nextHelper s) s)
  | None => Ok (answer s)
  end.

Definition processRespondEvent (now : Z) (s : t) : res t :=
  p ← deref (head (respQueue s));
  s ← respond now p s;
  let s := with_resp (tail (respQueue s)) (respondEvent s) s in
  s ← match respQueue s with
      | [] => Ok s
      | _ => assert_that (negb (respondEvent s)) ;; Ok (with_resp (respQueue s) true s)
      end;
  Ok (if retryRdReq s then with_retry false (retryWrReq s) (S (retriesSent s)) s else s).
End Controller.

(** [DRAMCtrl::DRAMCtrl], the members of this model. *)
Definition new (c : config) : t :=
  mk (replicate (numPriorities c) []) (replicate (numPriorities c) []) ∅ [] ∅ 0
    (mkMemCtrl ∅ ∅ ∅ 0 0 ∅ ∅) false false false false READ READ 0 0 [] 0.
End DramQueues.
