(* ===== verification/DramSafety.v ===== *)
(** * Correctness of the memory controller's queues

    The decoding of addresses is a bijection; and from an empty controller, any
    sequence of requests, of scheduling events and of responses keeps the
    queues within their bounds, keeps every burst queued for writing once, and
    answers every accepted request exactly once. *)

From S2P Require Import Prelude Common PageTable Clock DramQueues.

Module DramSafety.
Import DramQueues.

(** ** Configurations *)

(** Power-of-two bursts are checked by the constructor of [DRAMCtrl]; ranks and
    banks fit [uint8_t] and rows the type of an open row. *)
Record config_ok (c : config) : Prop := {
  co_burst : exists k, 0 <= k < 31 /\ burstSize c = 2 ^ k;
  co_columns : 1 <= columnsPerStripe c <= columnsPerRowBuffer c;
  co_channels : 1 <= channels c;
  co_ranks : 1 <= ranksPerChannel c <= 256;
  co_banks : 1 <= banksPerRank c <= 256;
  co_rows : 1 <= rowsPerBank c <= NO_ROW;
  co_read : 0 <= readBufferSize c < 4294967296;
  co_write : 0 <= writeBufferSize c < 4294967296;
  co_priorities : (0 < numPriorities c)%nat
}.

Section Config.
Variable c : config.
Hypothesis Hc : config_ok c.

Lemma burst_pos : 1 <= burstSize c < 4294967296.
Proof.
  destruct (co_burst c Hc) as (k & Hk & ->). split; [pose proof (Z.pow_pos_nonneg 2 k); lia|].
  change 4294967296 with (2 ^ 32). apply Z.pow_lt_mono_r; lia.
Qed.

Lemma burst_ones : exists k, 0 <= k /\ burstSize c = 2 ^ k /\ burstSize c - 1 = Z.ones k.
Proof.
  destruct (co_burst c Hc) as (k & Hk & Hb). exists k. split; [lia|]. split; [done|].
  rewrite Hb, Z.ones_equiv. lia.
Qed.

Lemma burstAlign_spec a : burstAlign c a = a / burstSize c * burstSize c.
Proof.
  destruct burst_ones as (k & Hk & Hb & Ho). unfold burstAlign.
  rewrite Ho, <- Z.ldiff_land, Z.ldiff_ones_r, Z.shiftl_mul_pow2, Z.shiftr_div_pow2 by lia.
  by rewrite Hb.
Qed.

Lemma next_burst_spec a :
  0 <= a < 9223372036854775808 -> next_burst c a = (a / burstSize c + 1) * burstSize c.
Proof.
  intros Ha. pose proof burst_pos as Hp. unfold next_burst.
  assert (Z.lor a (burstSize c - 1) = burstAlign c a + (burstSize c - 1)) as ->
    by (unfold burstAlign; rewrite <- Z.sub_lor_l_same_r; lia).
  rewrite burstAlign_spec. rewrite u64_id; [lia|].
  unfold is_u64. Z.div_mod_to_equations. nia.
Qed.

(** ** The bursts of a request *)

(** What a valid request needs of its packet. *)
Record req_ok (r : Req) : Prop := {
  rq_addr : 0 <= Packet.addr (pkt r) < 4611686018427387904;
  rq_size : 1 <= Packet.size (pkt r) < 2147483648;
  rq_qos : (qosValue r < numPriorities c)%nat;
  rq_kind : Packet.isWrite (pkt r) = true \/ Packet.isRead (pkt r) = true;
  rq_cache : Packet.cacheResponding (pkt r) = false
}.

Definition req_end (r : Req) : Z := Packet.addr (pkt r) + Packet.size (pkt r).

Lemma dram_pkt_count_spec r :
  req_ok r ->
  dram_pkt_count c r =
    (Packet.addr (pkt r) mod burstSize c + Packet.size (pkt r) + burstSize c - 1) / burstSize c.
Proof.
  intros [Ha Hs _ _ _]. destruct (co_burst c Hc) as (k & Hk & Hb).
  assert (burstSize c <= 1073741824) as Hmax
    by (rewrite Hb; change 1073741824 with (2 ^ 30); apply Z.pow_le_mono_r; lia).
  pose proof burst_pos. unfold dram_pkt_count.
  assert (Z.land (Packet.addr (pkt r)) (burstSize c - 1) = Packet.addr (pkt r) mod burstSize c) as ->.
  { destruct burst_ones as (j & Hj & -> & ->). by apply Z.land_ones. }
  pose proof (Z.mod_pos_bound (Packet.addr (pkt r)) (burstSize c) ltac:(lia)).
  by rewrite !(u32_id (_ mod _)), !u32_id by (unfold is_u32; rewrite ?u32_id; unfold is_u32; lia).
Qed.

(** The start of the [i]-th burst of a request. *)
Definition start (r : Req) (i : Z) : Z :=
  if i =? 0 then Packet.addr (pkt r) else (Packet.addr (pkt r) / burstSize c + i) * burstSize c.

Lemma start_burst r i : start r i / burstSize c = Packet.addr (pkt r) / burstSize c + i.
Proof.
  pose proof burst_pos. unfold start. destruct (i =? 0) eqn:E; [lia|]. rewrite Z.div_mul; lia.
Qed.

Lemma count_pos r : req_ok r -> 1 <= dram_pkt_count c r.
Proof.
  intros Hr. rewrite dram_pkt_count_spec by done. pose proof burst_pos. destruct Hr as [Ha Hs _ _ _].
  pose proof (Z.mod_pos_bound (Packet.addr (pkt r)) (burstSize c) ltac:(lia)).
  apply Z.div_le_lower_bound; lia.
Qed.

(** The bursts of the loop start inside the request. *)
Lemma start_bounds r i :
  req_ok r -> 0 <= i < dram_pkt_count c r -> Packet.addr (pkt r) <= start r i < req_end r.
Proof.
  intros Hr Hi. rewrite dram_pkt_count_spec in Hi by done. destruct Hr as [Ha Hs _ _ _].
  pose proof burst_pos as Hb. unfold start, req_end. destruct (i =? 0) eqn:E; [lia|].
  apply Z.eqb_neq in E. pose proof (Z.div_mod (Packet.addr (pkt r)) (burstSize c) ltac:(lia)) as Hd.
  pose proof (Z.mod_pos_bound (Packet.addr (pkt r)) (burstSize c) ltac:(lia)) as Hm.
  set (A := Packet.addr (pkt r)) in *. set (S := Packet.size (pkt r)) in *. set (b := burstSize c) in *.
  pose proof (Z.mul_div_le (A mod b + S + b - 1) b ltac:(lia)).
  set (q := A / b) in *. set (m := A mod b) in *. set (n := (m + S + b - 1) / b) in *. nia.
Qed.

Lemma start_next r i :
  req_ok r -> 0 <= i < dram_pkt_count c r -> next_burst c (start r i) = start r (i + 1).
Proof.
  intros Hr Hi. pose proof (start_bounds r i Hr Hi) as Hb. destruct Hr as [Ha Hs _ _ _].
  unfold req_end in Hb. rewrite next_burst_spec by lia. rewrite start_burst. unfold start.
  rewrite (proj2 (Z.eqb_neq _ _)) by lia. f_equal. lia.
Qed.

(** A burst is not empty and does not leave its aligned block. *)
Lemma burst_size_spec r i :
  req_ok r -> 0 <= i < dram_pkt_count c r ->
  1 <= burst_size c r (start r i) <= burstSize c /\
  start r i + burst_size c r (start r i) <= burstAlign c (start r i) + burstSize c /\
  start r i + burst_size c r (start r i) <= req_end r.
Proof.
  intros Hr Hi. pose proof (start_bounds r i Hr Hi) as Hb. pose proof burst_pos as Hp.
  unfold burst_size. destruct Hr as [Ha Hs _ _ _].
  fold (req_end r). unfold req_end in *. rewrite next_burst_spec by lia.
  rewrite (u64_id (_ + _)) by (unfold is_u64; lia). rewrite burstAlign_spec.
  set (a := start r i) in *. set (e := Packet.addr (pkt r) + Packet.size (pkt r)) in *.
  pose proof (Z.div_mod a (burstSize c) ltac:(lia)). pose proof (Z.mod_pos_bound a (burstSize c) ltac:(lia)).
  rewrite u32_id by (unfold is_u32; nia). nia.
Qed.

(** ** Decoding *)

Lemma decode_range a rank bank row :
  decode c a = (rank, bank, row) ->
  rank < ranksPerChannel c /\ bank < banksPerRank c /\ row < rowsPerBank c.
Proof.
  destruct Hc as [_ _ _ Hra Hba Hro _ _ _]. unfold decode.
  assert (forall x n, 1 <= n <= 256 -> u8 (x mod n) < n) as H8.
  { intros x n Hn. unfold u8. pose proof (Z.mod_pos_bound x n ltac:(lia)). rewrite Z.mod_small; lia. }
  intros E. destruct (addrMapping c); injection E as <- <- <-;
    (split; [by apply H8|split; [by apply H8|apply Z.mod_pos_bound; lia]]).
Qed.

Lemma decodeAddr_ok r a sz isRead :
  exists p, decodeAddr c r a sz isRead = Ok p /\ req p = r /\ addr p = a /\ size p = sz /\
    burstHelper p = None.
Proof.
  unfold decodeAddr. destruct (decode c a) as [[rank bank] row] eqn:E.
  destruct (decode_range _ _ _ _ E) as (H1 & H2 & H3). pose proof (co_rows c Hc).
  rewrite !(proj2 (Z.ltb_lt _ _)) by lia. by eexists.
Qed.

(** The parts of an address below the bank and between rank and row. *)
Definition low_size : Z :=
  match addrMapping c with
  | RoRaBaChCo => columnsPerRowBuffer c * channels c
  | RoRaBaCoCh => columnsPerStripe c * channels c * (columnsPerRowBuffer c / columnsPerStripe c)
  | RoCoRaBaCh => columnsPerStripe c * channels c
  end.
Definition high_size : Z :=
  match addrMapping c with
  | RoCoRaBaCh => columnsPerRowBuffer c / columnsPerStripe c
  | _ => 1
  end.
Definition encode (row high rank bank low offset : Z) : Z :=
  ((((row * high_size + high) * ranksPerChannel c + rank) * banksPerRank c + bank) * low_size + low)
    * burstSize c + offset.

(** Rank, bank and row, in terms of the sizes. *)
Definition decode_ref (a : Z) : Z * Z * Z :=
  let x := a / burstSize c / low_size in
  let y := x / banksPerRank c in
  (y mod ranksPerChannel c, x mod banksPerRank c, y / ranksPerChannel c / high_size mod rowsPerBank c).

Lemma stripes_pos : 1 <= columnsPerRowBuffer c / columnsPerStripe c.
Proof. destruct Hc as [_ Hcol _ _ _ _ _ _ _]. apply Z.div_le_lower_bound; lia. Qed.

Lemma low_pos : 1 <= low_size.
Proof. pose proof stripes_pos. destruct Hc. unfold low_size. destruct (addrMapping c); nia. Qed.
Lemma high_pos : 1 <= high_size.
Proof. pose proof stripes_pos. unfold high_size. destruct (addrMapping c); lia. Qed.

Lemma decode_ref_spec a : decode c a = decode_ref a.
Proof.
  pose proof stripes_pos as Hs. destruct Hc as [_ Hcol Hch Hra Hba _ _ _ _].
  assert (forall x n, 1 <= n <= 256 -> u8 (x mod n) = x mod n) as H8.
  { intros x n Hn. unfold u8. pose proof (Z.mod_pos_bound x n ltac:(lia)). apply Z.mod_small; lia. }
  unfold decode, decode_ref, low_size, high_size.
  destruct (addrMapping c); rewrite !H8, ?Z.div_1_r by done.
  - by rewrite (Z.div_div _ (columnsPerRowBuffer c) (channels c)) by lia.
  - by rewrite (Z.div_div _ (columnsPerStripe c) (channels c)), (Z.div_div _ (_ * _) (_ / _)) by nia.
  - by rewrite (Z.div_div _ (columnsPerStripe c) (channels c)) by lia.
Qed.

Lemma div_cat x y n : 0 <= y < n -> (x * n + y) / n = x.
Proof. intros H. rewrite Z.div_add_l by lia. rewrite Z.div_small by lia. lia. Qed.
Lemma mod_cat x y n : 0 <= y < n -> (x * n + y) mod n = y.
Proof. intros H. rewrite Z.add_comm, Z.mod_add by lia. by apply Z.mod_small. Qed.

Lemma div_mod_cat a n : 0 < n -> a / n * n + a mod n = a.
Proof. intros H. pose proof (Z.div_mod a n ltac:(lia)). lia. Qed.

(** C38: the three address mappings lose nothing and mix nothing.  Any row,
    rank and bank of the channel, with any column, channel and byte, are decoded
    from the address that is composed of them; and any address of the device is
    composed of the rank, bank and row it is decoded to. *)
Theorem decode_bijective :
  (forall row high rank bank low offset,
     0 <= row < rowsPerBank c -> 0 <= high < high_size -> 0 <= rank < ranksPerChannel c ->
     0 <= bank < banksPerRank c -> 0 <= low < low_size -> 0 <= offset < burstSize c ->
     decode c (encode row high rank bank low offset) = (rank, bank, row)) /\
  (forall a rank bank row,
     0 <= a < rowsPerBank c * high_size * ranksPerChannel c * banksPerRank c * low_size * burstSize c ->
     decode c a = (rank, bank, row) ->
     exists high low offset, 0 <= high < high_size /\ 0 <= low < low_size /\
       0 <= offset < burstSize c /\ a = encode row high rank bank low offset).
Proof.
  pose proof burst_pos as Hb. pose proof low_pos as Hl. pose proof high_pos as Hh.
  destruct Hc as [_ _ _ Hra Hba Hro _ _ _]. split.
  - intros row high rank bank low offset H1 H2 H3 H4 H5 H6. rewrite decode_ref_spec.
    unfold decode_ref, encode. rewrite !div_cat, !mod_cat by done.
    by rewrite Z.mod_small.
  - intros a rank bank row Ha. rewrite decode_ref_spec. unfold decode_ref.
    set (x := a / burstSize c / low_size). set (y := x / banksPerRank c). intros [= <- <- <-].
    exists (y / ranksPerChannel c mod high_size), (a / burstSize c mod low_size), (a mod burstSize c).
    split; [apply Z.mod_pos_bound; lia|]. split; [apply Z.mod_pos_bound; lia|].
    split; [apply Z.mod_pos_bound; lia|].
    set (z := y / ranksPerChannel c). set (w := z / high_size).
    assert (w mod rowsPerBank c = w) as ->.
    { apply Z.mod_small. unfold w, z, y, x. rewrite !Z.div_div by nia.
      split; [apply Z.div_pos; nia|]. apply Z.div_lt_upper_bound; nia. }
    unfold encode.
    unfold w. rewrite div_mod_cat by lia. unfold z. rewrite div_mod_cat by lia.
    unfold y. rewrite div_mod_cat by lia. unfold x. by rewrite !div_mod_cat by lia.
Qed.

(** ** The queues as bags

    The per-priority queues matter only up to the order of their packets. *)

Definition placed (qs : list (list DRAMPacket)) : Prop :=
  length qs = numPriorities c /\
  forall i q p, qs !! i = Some q -> p ∈ q -> qosValue (req p) = i.

Lemma concat_insert (qs : list (list DRAMPacket)) i q q' :
  qs !! i = Some q -> exists rest, concat qs ≡ₚ q ++ rest /\ concat (<[i := q']> qs) ≡ₚ q' ++ rest.
Proof.
  intros Hq. exists (concat (take i qs) ++ concat (drop (S i) qs)).
  pose proof (lookup_lt_Some _ _ _ Hq). rewrite insert_take_drop by done.
  rewrite <- (take_drop_middle qs i q) at 1 by done. rewrite !concat_app. cbn. split; solve_Permutation.
Qed.

Lemma push_ok p qs :
  placed qs -> (qosValue (req p) < numPriorities c)%nat ->
  exists qs', push p qs = Ok qs' /\ concat qs' ≡ₚ p :: concat qs /\ placed qs'.
Proof.
  intros [Hlen Hp] Hq. unfold push.
  destruct (lookup_lt_is_Some_2 qs (qosValue (req p))) as [q E]; [lia|]. rewrite E. cbn.
  eexists. split; [done|].
  destruct (concat_insert qs _ q (q ++ [p]) E) as (rest & H1 & H2). split.
  { rewrite H2, H1. solve_Permutation. }
  split; [by rewrite length_insert|]. intros i q' p' Hi Hin.
  rewrite list_lookup_insert in Hi. case_decide as Hd; [|by eapply Hp].
  injection Hi as <-. destruct Hd as [<- _]. apply elem_of_app in Hin as [Hin|Hin]; [by eapply Hp|].
  by apply list_elem_of_singleton in Hin as ->.
Qed.

Lemma erase_ok i j qs q p :
  placed qs -> qs !! i = Some q -> q !! j = Some p ->
  chosen i j qs = Ok p /\
  exists qs', erase i j p qs = Ok qs' /\ concat qs ≡ₚ p :: concat qs' /\ placed qs'.
Proof.
  intros [Hlen Hp] Hq Hj. unfold chosen, erase. rewrite Hq. cbn. rewrite Hj. split; [done|].
  assert (qosValue (req p) = i) as Hpi by (eapply Hp; [done|by eapply list_elem_of_lookup_2]).
  rewrite bool_decide_eq_true_2 by done. eexists. split; [done|].
  destruct (concat_insert qs i q (delete j q) Hq) as (rest & H1 & H2). split.
  { rewrite H1, H2. rewrite (delete_Permutation q j p) at 1 by done. done. }
  split; [by rewrite length_insert|]. intros i' q' p' Hi Hin.
  rewrite list_lookup_insert in Hi. case_decide as Hd; [|by eapply Hp].
  injection Hi as <-. destruct Hd as [<- _]. eapply Hp; [done|].
  apply (delete_Permutation q j p) in Hj as Hperm. rewrite Hperm. by apply list_elem_of_further.
Qed.

(** *** The packets queued for writing *)

Definition within (p : DRAMPacket) : Prop :=
  0 <= addr p < 9223372036854775808 /\ 1 <= size p <= burstSize c /\
  addr p + size p <= burstAlign c (addr p) + burstSize c.

Record writes_ok (W : list DRAMPacket) (bursts : gset Z) : Prop := {
  wo_nodup : NoDup (burstAlign c ∘ addr <$> W);
  wo_bursts : bursts = list_to_set (burstAlign c ∘ addr <$> W);
  wo_within : Forall within W
}.

#[local] Instance writes_ok_proper : Proper ((≡ₚ) ==> (=) ==> iff) writes_ok.
Proof.
  assert (forall W W' b, W ≡ₚ W' -> writes_ok W b -> writes_ok W' b) as H.
  { intros W W' b HP [H1 H2 H3]. split; [by rewrite <- HP| |by rewrite <- HP].
    rewrite H2. apply list_to_set_perm_L. by rewrite HP. }
  intros W W' HP b _ <-. split; by apply H.
Qed.

Lemma writes_size W b : writes_ok W b -> base.size b = length W.
Proof.
  intros [H1 -> _]. rewrite size_list_to_set by done. by rewrite length_fmap.
Qed.

Lemma writes_add W b p :
  writes_ok W b -> burstAlign c (addr p) ∉ b -> within p ->
  writes_ok (p :: W) (b ∪ {[ burstAlign c (addr p) ]}).
Proof.
  intros [H1 H2 H3] Hb Hp. split; [| |by constructor].
  - rewrite fmap_cons. constructor; [|done]. rewrite H2 in Hb. by rewrite elem_of_list_to_set in Hb.
  - rewrite fmap_cons, list_to_set_cons, H2. cbn. set_solver.
Qed.

Lemma writes_remove W b p :
  writes_ok (p :: W) b -> writes_ok W (b ∖ {[ burstAlign c (addr p) ]}).
Proof.
  intros [H1 H2 H3]. rewrite fmap_cons in H1. apply NoDup_cons in H1 as [Hn H1].
  apply Forall_cons in H3 as [_ H3]. split; [done| |done].
  rewrite H2, fmap_cons, list_to_set_cons. cbn in Hn |- *. apply set_eq. intros x.
  rewrite elem_of_difference, elem_of_union, elem_of_singleton, elem_of_list_to_set.
  split; [naive_solver|]. intros Hx. split; [by right|]. by intros ->.
Qed.

(** *** Forwarding: at most one of the queues serves a burst *)

Lemma subsumes_burst a n p :
  within p -> 0 <= a < 9223372036854775808 -> 1 <= n <= burstSize c -> subsumes a n p = true ->
  burstAlign c (addr p) = burstAlign c a.
Proof.
  intros (Ha & Hs & Hw) Hr Hn H. pose proof burst_pos as Hb.
  unfold subsumes in H. apply andb_true_iff in H as [H1 H2].
  apply Z.leb_le in H1, H2. rewrite burstAlign_spec in Hw. rewrite !burstAlign_spec.
  rewrite !u64_id in H2 by (unfold is_u64; lia).
  f_equal. apply Z.div_unique_pos with (a - addr p / burstSize c * burstSize c); [|lia].
  pose proof (Z.mul_div_le (addr p) (burstSize c) ltac:(lia)). lia.
Qed.

Lemma serving_le_1 s a n :
  placed (writeQueue s) -> writes_ok (concat (writeQueue s)) (isInWriteQueue s) ->
  0 <= a < 9223372036854775808 -> 1 <= n <= burstSize c -> (serving c a n s <= 1)%nat.
Proof.
  intros Hpl Hw Ha Hn. unfold serving. case_bool_decide; [|lia].
  set (f := fun q => existsb (subsumes a n) q = true).
  assert (forall qs, NoDup (burstAlign c ∘ addr <$> concat qs) -> Forall within (concat qs) ->
    (length (filter f qs) <= 1)%nat) as Hgen.
  { clear -Hc Ha Hn. induction qs as [|q qs IH]; intros Hnd Hin; [cbn; lia|].
    cbn [concat] in *. rewrite fmap_app in Hnd. apply NoDup_app in Hnd as (_ & Hd & Hnd).
    apply Forall_app in Hin as [Hin1 Hin2]. rewrite filter_cons. case_decide as Hq; [|by apply IH].
    cbn [length]. enough (filter f qs = []) as -> by (cbn; lia).
    apply elem_of_nil_inv. intros q' [Hf Hq']%list_elem_of_filter.
    apply existsb_exists in Hq as (p & Hp%list_elem_of_In & Hsp).
    apply existsb_exists in Hf as (p' & Hp'%list_elem_of_In & Hsp').
    assert (p' ∈ concat qs) as Hc' 
      by (apply list_elem_of_In, in_concat; exists q'; by rewrite <- !list_elem_of_In).
    eapply Forall_forall in Hin1; [|exact Hp]. eapply Forall_forall in Hin2; [|exact Hc'].
    apply (Hd (burstAlign c (addr p))).
    - by apply (list_elem_of_fmap_2 (burstAlign c ∘ addr)).
    - rewrite (subsumes_burst a n p) by done. rewrite <- (subsumes_burst a n p') by done.
      by apply (list_elem_of_fmap_2 (burstAlign c ∘ addr)). }
  apply Hgen; [apply (wo_nodup _ _ Hw)|apply (wo_within _ _ Hw)].
Qed.

(** *** The log of the queued packets *)

Definition priority_key (p : DRAMPacket) : Z * nat := (masterId (req p), qosValue (req p)).
Definition time_key (p : DRAMPacket) : Z * Z := (masterId (req p), addr p).

Definition tally `{EqDecision K} (f : DRAMPacket -> K) (k : K) (l : list DRAMPacket) : Z :=
  Z.of_nat (length (filter (fun p => f p = k) l)).

Lemma tally_cons `{EqDecision K} (f : DRAMPacket -> K) k p l :
  tally f k (p :: l) = tally f k l + (if decide (f p = k) then 1 else 0).
Proof. unfold tally. rewrite filter_cons. case_decide; cbn; lia. Qed.

Lemma tally_perm `{EqDecision K} (f : DRAMPacket -> K) k l l' : l ≡ₚ l' -> tally f k l = tally f k l'.
Proof. intros H. unfold tally. by rewrite H. Qed.

Lemma tally_bound `{EqDecision K} (f : DRAMPacket -> K) k l : 0 <= tally f k l <= Z.of_nat (length l).
Proof. unfold tally. pose proof (length_filter (fun p => f p = k) l). lia. Qed.

Record log_ok (Q : list DRAMPacket) (m : MemCtrl) : Prop := {
  lo_masters : forall p, p ∈ Q -> masterId (req p) ∈ masters m;
  lo_priority : forall k, default 0 (packetPriorities m !! k) = tally priority_key k Q;
  lo_times : forall k, Z.of_nat (length (default [] (requestTimes m !! k))) = tally time_key k Q
}.

Lemma log_perm Q Q' m : Q ≡ₚ Q' -> log_ok Q m -> log_ok Q' m.
Proof.
  intros HP [H1 H2 H3]. split.
  - intros p Hp. apply H1. by rewrite HP.
  - intros k. by rewrite H2, (tally_perm _ _ _ _ HP).
  - intros k. by rewrite H3, (tally_perm _ _ _ _ HP).
Qed.

Lemma log_request_ok now dir Q p m :
  log_ok Q m -> Z.of_nat (length Q) + 1 < 18446744073709551616 ->
  log_ok (p :: Q) (logRequest now dir p m).
Proof.
  intros [H1 H2 H3] Hlen.
  assert (log_ok (p :: Q) (mkMemCtrl (masters m ∪ {[ masterId (req p) ]}) ∅ ∅ 0 0
    (<[priority_key p := u64 (default 0 (packetPriorities m !! priority_key p) + 1)]> (packetPriorities m))
    (<[time_key p := default [] (requestTimes m !! time_key p) ++ [now]]> (requestTimes m)))) as H.
  { split; cbn [masters packetPriorities requestTimes].
    - intros q Hq. apply elem_of_cons in Hq as [->|Hq]; [set_solver|]. apply H1 in Hq. set_solver.
    - intros k. rewrite tally_cons, lookup_insert, <- H2. pose proof (tally_bound priority_key k Q).
      case_decide as Hk; cbn; [|lia]. rewrite Hk, H2, u64_id; [lia|unfold is_u64; lia].
    - intros k. rewrite tally_cons, lookup_insert, <- H3.
      case_decide as Hk; cbn; [|lia]. rewrite Hk, length_app. cbn. lia. }
  destruct H as [G1 G2 G3]. unfold logRequest. fold (priority_key p) (time_key p). by destruct dir; split.
Qed.

Lemma take_time_ok k rt :
  (0 < length (default [] (rt !! k)))%nat ->
  exists rt', take_time k rt = Ok rt' /\
    forall k', Z.of_nat (length (default [] (rt' !! k'))) =
      Z.of_nat (length (default [] (rt !! k'))) - (if decide (k = k') then 1 else 0).
Proof.
  intros H. unfold take_time. destruct (rt !! k) as [[|x [|y l]]|] eqn:E; cbn in H; try lia.
  - eexists. split; [done|]. intros k'. rewrite lookup_delete. case_decide as Hk; [|lia].
    subst k'. rewrite E. done.
  - eexists. split; [done|]. intros k'. rewrite lookup_insert. case_decide as Hk; [|lia].
    subst k'. rewrite E. cbn. lia.
Qed.

Lemma log_response_ok dir Q p m :
  log_ok (p :: Q) m -> Z.of_nat (length Q) < 4294967296 * 2 ->
  exists m', logResponse dir p m = Ok m' /\ log_ok Q m' /\
    totalReadQueueSize m' = 
      match dir with READ => u64 (totalReadQueueSize m - 1) | WRITE => totalReadQueueSize m end /\
    totalWriteQueueSize m' = 
      match dir with READ => totalWriteQueueSize m | WRITE => u64 (totalWriteQueueSize m - 1) end.
Proof.
  intros [H1 H2 H3] Hlen. unfold logResponse. fold (priority_key p) (time_key p).
  rewrite bool_decide_eq_true_2 by (apply H1, list_elem_of_here). cbn [negb panic_if mbind res_bind].
  pose proof (H2 (priority_key p)) as Hp. rewrite tally_cons, decide_True in Hp by done.
  pose proof (tally_bound priority_key (priority_key p) Q) as Hb.
  rewrite (proj2 (Z.eqb_neq _ _)) by lia. cbn [panic_if mbind res_bind].
  pose proof (H3 (time_key p)) as Ht. rewrite tally_cons, decide_True in Ht by done.
  pose proof (tally_bound time_key (time_key p) Q).
  destruct (take_time_ok (time_key p) (requestTimes m)) as (rt & -> & Hrt); [lia|]. cbn [mbind res_bind].
  assert (log_ok Q (mkMemCtrl (masters m) ∅ ∅ 0 0
    (<[priority_key p := u64 (default 0 (packetPriorities m !! priority_key p) - 1)]> (packetPriorities m)) rt))
    as [G1 G2 G3].
  { split; cbn [masters packetPriorities requestTimes].
    - intros q Hq. by apply H1, list_elem_of_further.
    - intros k. rewrite lookup_insert. specialize (H2 k). rewrite tally_cons in H2.
      case_decide as Hk; cbn; [|lia]. subst k. rewrite Hp, u64_id; [lia|unfold is_u64; lia].
    - intros k. rewrite Hrt, H3, tally_cons. lia. }
  eexists. split; [done|]. by destruct dir.
Qed.

(** *** The packets waiting for a response *)

Definition packet_of (p : DRAMPacket) : nat := ptr (req p).

(** The bursts of a split packet share a [BurstHelper] that counts those still
    waiting; a packet of one burst waits once. *)
Record reads_ok (P : list DRAMPacket) (hs : gmap nat BurstHelper) (nh : nat) : Prop := {
  ro_helper : forall h bh, hs !! h = Some bh -> (h < nh)%nat /\ 0 <= burstsServiced bh /\
    burstsServiced bh + tally burstHelper (Some h) P = burstCount bh /\ burstCount bh < 4294967296;
  ro_some : forall p h, p ∈ P -> burstHelper p = Some h -> is_Some (hs !! h) /\
    forall q, q ∈ P -> packet_of q = packet_of p <-> burstHelper q = Some h;
  ro_none : forall p, p ∈ P -> burstHelper p = None -> tally packet_of (packet_of p) P = 1
}.

Lemma reads_perm P P' hs nh : P ≡ₚ P' -> reads_ok P hs nh -> reads_ok P' hs nh.
Proof.
  intros HP [H1 H2 H3]. split.
  - intros h bh Hh. rewrite <- (tally_perm _ _ _ _ HP). by apply H1.
  - intros p h Hp. rewrite <- HP in Hp. intros Hh. destruct (H2 p h Hp Hh) as [H4 H5].
    split; [done|]. intros q Hq. rewrite <- HP in Hq. by apply H5.
  - intros p Hp Hn. rewrite <- HP in Hp. rewrite <- (tally_perm _ _ _ _ HP). by apply H3.
Qed.

Lemma tally_zero `{EqDecision K} (f : DRAMPacket -> K) k l : k ∉ f <$> l <-> tally f k l = 0.
Proof.
  unfold tally. split.
  - intros H. enough (filter (fun p => f p = k) l = []) as -> by done.
    apply elem_of_nil_inv. intros p [Hf Hp]%list_elem_of_filter. apply H. rewrite <- Hf.
    by apply list_elem_of_fmap_2.
  - intros H (p & -> & Hp)%list_elem_of_fmap.
    assert (p ∈ filter (fun q => f q = f p) l) as Hin by (by apply list_elem_of_filter).
    destruct (filter _ l); [by apply not_elem_of_nil in Hin|cbn in H; lia].
Qed.

Lemma tally_all `{EqDecision K} (f : DRAMPacket -> K) k l :
  Forall (fun p => f p = k) l -> tally f k l = Z.of_nat (length l).
Proof.
  unfold tally. induction 1 as [|p l Hp _ IH]; [done|]. rewrite filter_cons, decide_True by done.
  cbn. lia.
Qed.

Lemma tally_app `{EqDecision K} (f : DRAMPacket -> K) k l l' :
  tally f k (l ++ l') = tally f k l + tally f k l'.
Proof. unfold tally. rewrite filter_app, length_app. lia. Qed.

Lemma reads_single p P hs nh :
  reads_ok P hs nh -> packet_of p ∉ packet_of <$> P -> burstHelper p = None ->
  reads_ok (p :: P) hs nh.
Proof.
  intros [H1 H2 H3] Hfresh Hn.
  assert (forall q, q ∈ P -> packet_of q <> packet_of p) as Hne
    by (intros q Hq E; apply Hfresh; rewrite <- E; by apply list_elem_of_fmap_2).
  split.
  - intros h bh Hh. rewrite tally_cons, Hn, decide_False by done. rewrite Z.add_0_r. by apply H1.
  - intros q h [->|Hq]%elem_of_cons Hh; [congruence|]. destruct (H2 q h Hq Hh) as [H4 H5].
    split; [done|]. intros q' [->|Hq']%elem_of_cons; [|by apply H5]. rewrite Hn.
    split; [|done]. intros E. by destruct (Hne q Hq).
  - intros q [->|Hq]%elem_of_cons Hh.
    + rewrite tally_cons, decide_True by done. by rewrite (proj1 (tally_zero packet_of (packet_of p) P)).
    + rewrite tally_cons, decide_False by (intros E; by destruct (Hne q Hq)). rewrite Z.add_0_r. by apply H3.
Qed.

Lemma reads_split N P hs nh x n k :
  reads_ok P hs nh -> x ∉ packet_of <$> P ->
  Forall (fun p => packet_of p = x /\ burstHelper p = Some nh) N ->
  0 <= k -> k + Z.of_nat (length N) = n -> n < 4294967296 ->
  reads_ok (N ++ P) (<[nh := mkBurstHelper n k]> hs) (S nh).
Proof.
  intros [H1 H2 H3] Hfresh HN Hk Hn Hmax.
  assert (forall q, q ∈ P -> packet_of q <> x) as Hne
    by (intros q Hq <-; apply Hfresh; by apply list_elem_of_fmap_2).
  assert (forall q, q ∈ P -> burstHelper q <> Some nh) as Hnh.
  { intros q Hq E. destruct (H2 q nh Hq E) as [[bh Hbh] _]. destruct (H1 nh bh Hbh). lia. }
  rewrite Forall_forall in HN. split.
  - intros h bh. rewrite lookup_insert, tally_app. case_decide as Hd.
    + intros [= <-]. subst h. cbn. rewrite (tally_all burstHelper (Some nh) N)
        by (apply Forall_forall; intros q Hq; apply (HN q Hq)).
      assert (tally burstHelper (Some nh) P = 0) as ->; [|lia].
      apply tally_zero. intros (q & E & Hq)%list_elem_of_fmap. by apply (Hnh q Hq).
    + intros Hh. destruct (H1 h bh Hh) as (G1 & G2 & G3 & G4).
      assert (tally burstHelper (Some h) N = 0) as ->; [|lia].
      apply tally_zero. intros (q & E & Hq)%list_elem_of_fmap. apply Hd. destruct (HN q Hq). congruence.
  - intros p h [Hp|Hp]%elem_of_app Hh.
    + destruct (HN p Hp) as [E1 E2]. assert (h = nh) as -> by congruence.
      rewrite lookup_insert_eq. split; [done|]. intros q [Hq|Hq]%elem_of_app.
      * destruct (HN q Hq). split; congruence.
      * rewrite E1. split; intros E; [by destruct (Hne q Hq)|by destruct (Hnh q Hq)].
    + destruct (H2 p h Hp Hh) as [[bh Hbh] H5]. destruct (H1 h bh Hbh).
      rewrite lookup_insert_ne by lia. split; [done|]. intros q [Hq|Hq]%elem_of_app; [|by apply H5].
      destruct (HN q Hq) as [-> ->]. split; [intros E; by destruct (Hne p Hp)|intros [= ->]; lia].
  - intros p [Hp|Hp]%elem_of_app Hh; [destruct (HN p Hp); congruence|].
    rewrite tally_app, (proj1 (tally_zero packet_of (packet_of p) N)); [by apply H3|].
    intros (q & E & Hq)%list_elem_of_fmap. destruct (HN q Hq) as [E' _]. apply (Hne p Hp). congruence.
Qed.

Lemma reads_drop p P hs nh :
  reads_ok (p :: P) hs nh -> burstHelper p = None ->
  reads_ok P hs nh /\ packet_of p ∉ packet_of <$> P.
Proof.
  intros [H1 H2 H3] Hn.
  pose proof (H3 p (list_elem_of_here _ _) Hn) as Hp. rewrite tally_cons, decide_True in Hp by done.
  assert (packet_of p ∉ packet_of <$> P) as Hfresh by (apply tally_zero; lia).
  split; [|done]. split.
  - intros h bh Hh. specialize (H1 h bh Hh). by rewrite tally_cons, Hn, decide_False, Z.add_0_r in H1.
  - intros q h Hq Hh. destruct (H2 q h) as [H4 H5]; [by apply list_elem_of_further|done|].
    split; [done|]. intros q' Hq'. apply H5. by apply list_elem_of_further.
  - intros q Hq Hh. specialize (H3 q (list_elem_of_further _ _ _ Hq) Hh).
    rewrite tally_cons, decide_False in H3; [lia|].
    intros E. apply Hfresh. rewrite E. by apply list_elem_of_fmap_2.
Qed.

(** One burst of a split packet less, with what its helper then says. *)
Lemma reads_served p P hs nh h bh :
  reads_ok (p :: P) hs nh -> burstHelper p = Some h -> hs !! h = Some bh ->
  burstsServiced bh + 1 + tally burstHelper (Some h) P = burstCount bh /\
  (packet_of p ∈ packet_of <$> P <-> tally burstHelper (Some h) P <> 0) /\
  (tally burstHelper (Some h) P = 0 -> reads_ok P (delete h hs) nh) /\
  reads_ok P (<[h := mkBurstHelper (burstCount bh) (burstsServiced bh + 1)]> hs) nh.
Proof.
  intros [H1 H2 H3] Hp Hbh.
  destruct (H1 h bh Hbh) as (G1 & G2 & G3 & G4). rewrite tally_cons, decide_True in G3 by done.
  destruct (H2 p h (list_elem_of_here _ _) Hp) as [_ Hgrp].
  assert (packet_of p ∈ packet_of <$> P <-> tally burstHelper (Some h) P <> 0) as Hiff.
  { rewrite <- (tally_zero burstHelper (Some h) P). split.
    - intros (q & E & Hq)%list_elem_of_fmap Hz. apply Hz. apply list_elem_of_fmap. exists q. split; [|done].
      symmetry. apply Hgrp; [by apply list_elem_of_further|done].
    - intros Hz. apply dec_stable. intros Hn. apply Hz. intros (q & E & Hq)%list_elem_of_fmap.
      apply Hn. apply list_elem_of_fmap. exists q. split; [|done]. symmetry.
      by apply Hgrp; [apply list_elem_of_further|]. }
  assert (forall h' bh', h' <> h -> hs !! h' = Some bh' -> (h' < nh)%nat /\ 0 <= burstsServiced bh' /\
    burstsServiced bh' + tally burstHelper (Some h') P = burstCount bh' /\ burstCount bh' < 4294967296) as Hoth.
  { intros h' bh' Hne Hl. specialize (H1 h' bh' Hl). rewrite tally_cons, decide_False in H1 by congruence.
    by rewrite Z.add_0_r in H1. }
  assert (forall q h', q ∈ P -> burstHelper q = Some h' -> is_Some (hs !! h') /\
    forall q', q' ∈ P -> packet_of q' = packet_of q <-> burstHelper q' = Some h') as Hsome.
  { intros q h' Hq Hh. destruct (H2 q h') as [H4 H5]; [by apply list_elem_of_further|done|].
    split; [done|]. intros q' Hq'. by apply H5, list_elem_of_further. }
  assert (forall q, q ∈ P -> burstHelper q = None -> tally packet_of (packet_of q) P = 1) as Hnone.
  { intros q Hq Hn. specialize (H3 q (list_elem_of_further _ _ _ Hq) Hn).
    rewrite tally_cons, decide_False in H3; [lia|]. intros E.
    assert (burstHelper q = Some h) by (apply Hgrp; [by apply list_elem_of_further|done]). congruence. }
  split; [lia|]. split; [done|]. split.
  - intros Hz. split; [| |done].
    + intros h' bh'. rewrite lookup_delete. case_decide; [done|]. intros Hl. by apply Hoth.
    + intros q h' Hq Hh. destruct (Hsome q h' Hq Hh) as [H4 H5]. split; [|done].
      rewrite lookup_delete_ne; [done|]. intros <-. apply (proj2 (tally_zero burstHelper (Some h) P) Hz).
      rewrite <- Hh. by apply list_elem_of_fmap_2.
  - split; [| |done].
    + intros h' bh'. rewrite lookup_insert. case_decide as Hd; [|intros Hl; by apply Hoth].
      intros [= <-]. subst h'. cbn. lia.
    + intros q h' Hq Hh. destruct (Hsome q h' Hq Hh) as [H4 H5]. split; [|done].
      rewrite lookup_insert. by case_decide.
Qed.

Definition answer (now : Z) (p : DRAMPacket) (s : t) : t :=
  accessAndRespond now (req p) (frontendLatency c + backendLatency c) s.

(** The answer leaves with the last of the packet's bursts. *)
Lemma respond_ok now p P s :
  reads_ok (p :: P) (helpers s) (nextHelper s) ->
  exists hs, respond c now p s =
      Ok (with_helpers hs (nextHelper s)
            (if decide (packet_of p ∈ packet_of <$> P) then s else answer now p s)) /\
    reads_ok P hs (nextHelper s).
Proof.
  intros Hr. unfold respond. destruct (burstHelper p) as [h|] eqn:Hp.
  - destruct (ro_some _ _ _ Hr p h (list_elem_of_here _ _) Hp) as [[bh Hbh] _].
    destruct (ro_helper _ _ _ Hr h bh Hbh) as (_ & H0 & _ & Hmax).
    destruct (reads_served p P _ _ h bh Hr Hp Hbh) as (H1 & H2 & H3 & H4).
    pose proof (tally_bound burstHelper (Some h) P).
    rewrite Hbh. cbn [deref mbind res_bind burstCount burstsServiced].
    rewrite u32_id by (unfold is_u32; lia). destruct (_ =? _) eqn:E.
    + apply Z.eqb_eq in E. exists (delete h (helpers s)). split; [|apply H3; lia].
      rewrite decide_False; [done|]. rewrite H2. lia.
    + apply Z.eqb_neq in E. eexists. split; [|exact H4]. rewrite decide_True; [done|]. apply H2. lia.
  - destruct (reads_drop p P _ _ Hr Hp) as [H1 H2]. exists (helpers s). split; [|done].
    by rewrite decide_False.
Qed.

(** ** The invariant *)

(** Evaluates the effects of an operation on the controller's state. *)
Ltac run_state := cbn [assert_that mbind res_bind with_reads with_writes with_resp with_helpers
  with_qos with_retry with_next with_bus with_answers readQueue writeQueue isInWriteQueue respQueue
  helpers nextHelper qos retryRdReq retryWrReq nextReqEvent respondEvent busState busStateNext
  readsThisTime writesThisTime answers retriesSent].

Notation R s := (concat (readQueue s)).
Notation W s := (concat (writeQueue s)).

(** Everything but the packets that wait for responses. *)
Record core (s : t) : Prop := {
  cr_reads : placed (readQueue s);
  cr_writes : placed (writeQueue s);
  cr_bursts : writes_ok (W s) (isInWriteQueue s);
  cr_log : log_ok (R s ++ W s) (qos s);
  cr_total_reads : totalReadQueueSize (qos s) = Z.of_nat (length (R s));
  cr_total_writes : totalWriteQueueSize (qos s) = Z.of_nat (length (W s));
  cr_read_room : Z.of_nat (length (R s) + length (respQueue s)) <= readBufferSize c;
  cr_write_room : Z.of_nat (length (W s)) <= writeBufferSize c;
  cr_sizes : Forall (fun p => size p <= burstSize c) (R s)
}.

Definition waiting (s : t) : list DRAMPacket := R s ++ respQueue s.

Record inv (s : t) : Prop := {
  in_core : core s;
  in_reads : reads_ok (waiting s) (helpers s) (nextHelper s)
}.

(** The answers and the packets still waiting make up the accepted requests. *)
Definition count (x : nat) (l : list nat) : nat := length (filter (fun y => y = x) l).

#[local] Arguments count : simpl never.

Definition balance (answered waits accepted : list nat) : Prop :=
  forall x, (count x answered + (if decide (x ∈ waits) then 1 else 0))%nat = count x accepted.

Definition settled (s : t) (accepted : list nat) : Prop :=
  balance (to <$> answers s) (packet_of <$> waiting s) accepted.

Lemma count_snoc x y l : count x (l ++ [y]) = (count x l + (if decide (y = x) then 1 else 0))%nat.
Proof. unfold count. rewrite filter_app, length_app, filter_cons. by case_decide. Qed.

Lemma balance_ext a P P' acc : (forall y, y ∈ P' <-> y ∈ P) -> balance a P acc -> balance a P' acc.
Proof. intros HP H x. rewrite <- (H x). f_equal. repeat case_decide; naive_solver. Qed.

Lemma balance_at_once a P acc x : balance a P acc -> balance (a ++ [x]) P (acc ++ [x]).
Proof. intros H y. rewrite !count_snoc, <- (H y). lia. Qed.

Lemma balance_wait a P P' acc x :
  x ∉ P -> (forall y, y ∈ P' <-> y = x \/ y ∈ P) -> balance a P acc -> balance a P' (acc ++ [x]).
Proof.
  intros Hx HP H y. rewrite count_snoc, <- (H y). repeat case_decide; subst; try lia; naive_solver.
Qed.

Lemma balance_done a P P' acc x :
  x ∉ P' -> (forall y, y ∈ P <-> y = x \/ y ∈ P') -> balance a P acc -> balance (a ++ [x]) P' acc.
Proof.
  intros Hx HP H y. rewrite count_snoc, <- (H y). repeat case_decide; subst; try lia; naive_solver.
Qed.

(** *** Writes *)

(** A write leaves the reads alone. *)
Definition reads_kept (s s' : t) : Prop :=
  readQueue s' = readQueue s /\ respQueue s' = respQueue s /\ helpers s' = helpers s /\
  nextHelper s' = nextHelper s /\ answers s' = answers s /\ respondEvent s' = respondEvent s.

Lemma write_burst_ok now r i s :
  core s -> req_ok r -> 0 <= i < dram_pkt_count c r -> Z.of_nat (length (W s)) < writeBufferSize c ->
  exists s', write_burst c now r (start r i) s = Ok s' /\ core s' /\ reads_kept s s' /\
    (length (W s') <= S (length (W s)))%nat.
Proof.
  intros Hs Hr Hi Hroom. unfold write_burst. case_bool_decide as Hin.
  { exists s. split; [done|]. split; [done|]. split; [done|lia]. }
  destruct (decodeAddr_ok r (start r i) (burst_size c r (start r i)) false)
    as (p & -> & Hp1 & Hp2 & Hp3 & _). cbn [mbind res_bind].
  destruct Hs as [C1 C2 C3 C4 C5 C6 C7 C8 C9]. rewrite C6, (proj2 (Z.ltb_lt _ _)) by lia.
  cbn [assert_that mbind res_bind].
  destruct (push_ok p (writeQueue s) C2) as (q & -> & Hq & Hpl); [rewrite Hp1; apply Hr|].
  cbn [mbind res_bind].
  pose proof (start_bounds r i Hr Hi) as Hb. pose proof (burst_size_spec r i Hr Hi) as (G1 & G2 & _).
  assert (within p) as Hw.
  { unfold within. rewrite Hp2, Hp3. destruct Hr as [Ha Hsz _ _ _]. unfold req_end in Hb. split; [lia|done]. }
  pose proof (writes_add _ _ p C3 ltac:(by rewrite Hp2) Hw) as Hadd. rewrite Hp2 in Hadd.
  rewrite <- Hq in Hadd. destruct Hc as [_ _ _ _ _ _ Hrb Hwb _].
  pose proof (log_request_ok now WRITE _ p _ C4) as Hlog.
  rewrite length_app in Hlog. specialize (Hlog ltac:(lia)).
  assert (totalWriteQueueSize (logRequest now WRITE p (qos s)) = Z.of_nat (length (concat q))) as Htot.
  { cbn. rewrite C6, Hq. cbn [length]. rewrite u64_id; [lia|unfold is_u64; lia]. }
  cbn [with_writes with_qos qos isInWriteQueue]. rewrite (writes_size _ _ Hadd), Htot, Z.eqb_refl.
  cbn [assert_that mbind res_bind]. eexists. split; [done|]. split; [|split; [done|]].
  - split; cbn [with_writes with_qos qos isInWriteQueue readQueue writeQueue respQueue]; try done.
    + eapply log_perm; [|exact Hlog]. rewrite Hq. by rewrite Permutation_middle.
    + rewrite Hq. cbn [length]. lia.
  - cbn [with_writes with_qos writeQueue]. rewrite Hq. cbn [length]. lia.
Qed.

Lemma write_bursts_ok now r n i s :
  core s -> req_ok r -> 0 <= i -> i + Z.of_nat n = dram_pkt_count c r ->
  Z.of_nat (length (W s)) + Z.of_nat n <= writeBufferSize c ->
  exists s', write_bursts c now r n (start r i) s = Ok s' /\ core s' /\ reads_kept s s'.
Proof.
  revert i s. induction n as [|n IH]; intros i s Hs Hr Hi Hn Hroom; cbn [write_bursts].
  { by exists s. }
  destruct (write_burst_ok now r i s Hs Hr) as (s1 & -> & H1 & K1 & L1); [lia|lia|].
  cbn [mbind res_bind]. rewrite start_next by (done || lia).
  destruct (IH (i + 1) s1 H1 Hr) as (s2 & -> & H2 & K2); [lia..|].
  exists s2. split; [done|]. split; [done|]. unfold reads_kept in *. naive_solver congruence.
Qed.

(** A write is answered when it is accepted. *)
Lemma addToWriteQueue_ok now r s acc :
  inv s -> settled s acc -> req_ok r -> Packet.isWrite (pkt r) = true ->
  Z.of_nat (length (W s)) + dram_pkt_count c r <= writeBufferSize c ->
  exists s', addToWriteQueue c now r (dram_pkt_count c r) s = Ok s' /\ inv s' /\
    settled s' (acc ++ [ptr r]) /\ respQueue s' = respQueue s /\ respondEvent s' = respondEvent s /\
    (forall y, y ∈ packet_of <$> waiting s' -> y = ptr r \/ y ∈ packet_of <$> waiting s).
Proof.
  intros [Hcore Hreads] Hset Hr Hw Hroom. unfold addToWriteQueue. rewrite Hw. cbn [assert_that mbind res_bind].
  pose proof (count_pos r Hr) as Hpos.
  destruct (write_bursts_ok now r (Z.to_nat (dram_pkt_count c r)) 0 s Hcore Hr)
    as (s1 & E1 & H1 & (K1 & K2 & K3 & K4 & K5 & K6)); [lia..|].
  change (start r 0) with (Packet.addr (pkt r)) in E1. rewrite E1. cbn [mbind res_bind].
  eexists. split; [done|]. split; [|split; [|split; [done|split; [done|]]]].
  - split; [by destruct H1|]. unfold waiting in *. cbn. by rewrite K1, K2, K3, K4.
  - unfold settled, waiting in *. cbn. rewrite K1, K2, K5, fmap_app. by apply balance_at_once.
  - intros y. unfold waiting. cbn. rewrite K1, K2. by right.
Qed.
(** *** Reads *)

(** The loop over the bursts: [i] of the [n] bursts are behind it, [N] of them
    queued, the others forwarded; the helper is made for the first one queued. *)
Definition made (n : Z) (N : list DRAMPacket) : bool := (1 <? n) && bool_decide (N <> []).

Record partial (s0 : t) (r : Req) (n i : Z) (N : list DRAMPacket) (l : read_loop) : Prop := {
  pa_core : core (ctrl l);
  pa_queue : R (ctrl l) ≡ₚ N ++ R s0;
  pa_count : 0 <= serviced l /\ serviced l + Z.of_nat (length N) = i;
  pa_new : Forall (fun p => packet_of p = ptr r /\
    burstHelper p = if 1 <? n then Some (nextHelper s0) else None) N;
  pa_same : writeQueue (ctrl l) = writeQueue s0 /\ respQueue (ctrl l) = respQueue s0 /\
    answers (ctrl l) = answers s0 /\ respondEvent (ctrl l) = respondEvent s0;
  pa_helper : helper l = (if made n N then Some (nextHelper s0) else None);
  pa_helpers : helpers (ctrl l) =
    if made n N then <[nextHelper s0 := mkBurstHelper n 0]> (helpers s0) else helpers s0;
  pa_next : nextHelper (ctrl l) = if made n N then S (nextHelper s0) else nextHelper s0
}.

Lemma core_helpers h n s : core s -> core (with_helpers h n s).
Proof. by destruct 1. Qed.

(** The helper is there once a burst is to be queued. *)
Lemma new_helper_ok s0 r n i N l :
  partial s0 r n i N l ->
  let l' := new_helper n l in
  core (ctrl l') /\ readQueue (ctrl l') = readQueue (ctrl l) /\ writeQueue (ctrl l') = writeQueue (ctrl l) /\
  respQueue (ctrl l') = respQueue (ctrl l) /\ answers (ctrl l') = answers (ctrl l) /\
  respondEvent (ctrl l') = respondEvent (ctrl l) /\ serviced l' = serviced l /\
  helper l' = (if 1 <? n then Some (nextHelper s0) else None) /\
  helpers (ctrl l') = (if 1 <? n then <[nextHelper s0 := mkBurstHelper n 0]> (helpers s0) else helpers s0) /\
  nextHelper (ctrl l') = if 1 <? n then S (nextHelper s0) else nextHelper s0.
Proof.
  intros [P1 P2 P3 P4 P5 P6 P7 P8]. unfold new_helper, made in *. cbn zeta.
  destruct (1 <? n) eqn:En; cbn [andb] in *; [|by rewrite P6, P7, P8].
  case_bool_decide as HN; rewrite P6; cbn; [by rewrite P7, P8|].
  split; [by apply core_helpers|]. by rewrite P7, P8.
Qed.

(** A burst queued for reading. *)
Lemma push_read_ok now p s :
  core s -> (qosValue (req p) < numPriorities c)%nat -> size p <= burstSize c ->
  Z.of_nat (length (R s) + length (respQueue s)) < readBufferSize c ->
  readQueueFull c 1 s = false /\
  exists q, push p (readQueue s) = Ok q /\ concat q ≡ₚ p :: R s /\
    core (with_qos (logRequest now READ p (qos s)) (with_reads q s)).
Proof.
  intros [C1 C2 C3 C4 C5 C6 C7 C8 C9] Hq Hsz Hroom.
  pose proof (co_read c Hc) as Hrb. pose proof (co_write c Hc) as Hwb. split.
  { unfold readQueueFull. apply Z.ltb_ge. rewrite C5, u64_id; [lia|unfold is_u64; lia]. }
  destruct (push_ok p (readQueue s) C1 Hq) as (q & -> & Hperm & Hpl). exists q.
  split; [done|]. split; [done|].
  split; cbn [with_qos with_reads readQueue writeQueue respQueue qos isInWriteQueue]; try done.
  - pose proof (log_request_ok now READ _ p _ C4) as Hlog. rewrite length_app in Hlog.
    eapply log_perm; [|apply Hlog; lia]. by rewrite Hperm.
  - cbn [logRequest totalReadQueueSize]. rewrite C5, Hperm. cbn [length]. rewrite u64_id; [lia|unfold is_u64; lia].
  - rewrite Hperm. cbn [length]. lia.
  - rewrite Hperm. by constructor.
Qed.

Lemma read_burst_ok now s0 r n i N l :
  partial s0 r n i N l -> req_ok r -> n = dram_pkt_count c r -> 0 <= i < n ->
  Z.of_nat (length (R (ctrl l)) + length (respQueue (ctrl l))) < readBufferSize c ->
  exists N' l', read_burst c now r n (start r i) l = Ok l' /\ partial s0 r n (i + 1) N' l' /\
    (length N' <= S (length N))%nat.
Proof.
  intros HP Hr Hn Hi Hroom. unfold read_burst. subst n.
  pose proof (start_bounds r i Hr Hi) as Hb. pose proof (burst_size_spec r i Hr Hi) as (G1 & G2 & _).
  assert (0 <= start r i < 9223372036854775808) as Hst
    by (destruct Hr as [Ha Hsz _ _ _]; unfold req_end in Hb; lia).
  set (n := dram_pkt_count c r) in *. set (sz := burst_size c r (start r i)) in *.
  pose proof (serving_le_1 (ctrl l) (start r i) sz (cr_writes _ (pa_core _ _ _ _ _ _ HP))
    (cr_bursts _ (pa_core _ _ _ _ _ _ HP)) Hst G1) as Hle.
  destruct (0 <? _) eqn:Ef.
  { apply Z.ltb_lt in Ef. exists N. eexists. split; [done|]. split; [|lia].
    destruct HP as [P1 P2 P3 P4 P5 P6 P7 P8]. split; try done. cbn. lia. }
  destruct (new_helper_ok s0 r n i N l HP) as (D1 & D2 & D3 & D4 & D5 & D6 & D7 & D8 & D9 & D10).
  set (l1 := new_helper n l) in *.
  destruct (decodeAddr_ok r (start r i) sz true) as (p & -> & Hp1 & Hp2 & Hp3 & _). cbn [mbind res_bind].
  set (p' := set_helper (helper l1) p).
  destruct (push_read_ok now p' (ctrl l1) D1) as (-> & q & -> & Hq & Hcore);
    [cbn; rewrite Hp1; apply Hr|cbn; lia|by rewrite D2, D4|].
  cbn [negb assert_that mbind res_bind]. exists (p' :: N). eexists. split; [done|].
  destruct HP as [P1 P2 P3 P4 (Q1 & Q2 & Q3 & Q4) P6 P7 P8].
  assert (made n (p' :: N) = (1 <? n)) as Hmade
    by (unfold made; rewrite bool_decide_eq_true_2 by done; apply andb_true_r).
  split; [|cbn; lia].
  split; cbn [ctrl with_qos with_reads readQueue writeQueue respQueue answers respondEvent
    helpers nextHelper serviced helper]; rewrite ?Hmade; try done.
  - by rewrite Hq, D2, P2.
  - rewrite D7. cbn [length]. lia.
  - constructor; [|done]. cbn. unfold packet_of. cbn. by rewrite Hp1, D8.
  - by rewrite D3, D4, D5, D6.
Qed.

Lemma read_bursts_ok now s0 r n k i N l :
  partial s0 r n i N l -> req_ok r -> n = dram_pkt_count c r -> 0 <= i -> i + Z.of_nat k = n ->
  Z.of_nat (length (R s0) + length (respQueue s0)) + n <= readBufferSize c ->
  (Z.of_nat (length N) <= i) ->
  exists N' l', read_bursts c now r n k (start r i) l = Ok l' /\ partial s0 r n n N' l'.
Proof.
  revert i N l. induction k as [|k IH]; intros i N l HP Hr Hn Hi Hk Hroom HN; cbn [read_bursts].
  { exists N, l. split; [done|]. assert (i = n) as Ei by lia. by rewrite Ei in HP. }
  assert (Z.of_nat (length (R (ctrl l)) + length (respQueue (ctrl l))) < readBufferSize c) as Hlt.
  { destruct HP as [_ P2 _ _ (_ & P5 & _) _ _ _]. rewrite P2, P5, length_app. lia. }
  destruct (read_burst_ok now s0 r n i N l HP Hr Hn ltac:(lia) Hlt) as (N1 & l1 & -> & HP1 & HL).
  cbn [mbind res_bind]. subst n. rewrite start_next by (done || lia).
  apply (IH (i + 1) N1 l1 HP1 Hr); [done|lia|lia|done|lia].
Qed.

Lemma partial_start s r n : core s -> partial s r n 0 [] (mkReadLoop 0 None s).
Proof.
  intros Hs. assert (made n [] = false) as Hm by (unfold made; by rewrite andb_false_r).
  split; cbn [ctrl serviced helper]; rewrite ?Hm; done.
Qed.

(** What the reads look like once the loop is left with a burst queued. *)
Lemma partial_reads s0 r n N l :
  partial s0 r n n N l -> reads_ok (waiting s0) (helpers s0) (nextHelper s0) ->
  ptr r ∉ packet_of <$> waiting s0 -> N <> [] -> 1 <= n < 4294967296 ->
  exists hs, match helper l with
    | None => Ok (ctrl l)
    | Some h => bh ← deref (helpers (ctrl l) !! h);
        Ok (with_helpers (<[h := mkBurstHelper (burstCount bh) (serviced l)]> (helpers (ctrl l)))
              (nextHelper (ctrl l)) (ctrl l))
    end = Ok (with_helpers hs (nextHelper (ctrl l)) (ctrl l)) /\
    reads_ok (N ++ waiting s0) hs (nextHelper (ctrl l)).
Proof.
  intros [P1 P2 [P3 P3'] P4 _ P6 P7 P8] Hreads Hfresh HN Hn.
  unfold made in *. rewrite bool_decide_eq_true_2, andb_true_r in P6, P7, P8 by done.
  destruct (1 <? n) eqn:En.
  - rewrite P6, P7, P8, lookup_insert_eq. cbn [deref mbind res_bind burstCount]. rewrite insert_insert_eq.
    eexists. split; [done|]. by apply (reads_split N _ _ _ (ptr r)); try lia.
  - apply Z.ltb_ge in En. rewrite P6. exists (helpers s0). rewrite P8. split.
    { destruct (ctrl l). cbn in *. by subst. }
    destruct N as [|p [|q N]]; [done| |cbn in *; lia]. cbn [app].
    apply Forall_cons in P4 as [[E1 E2] _]. apply reads_single; [done|by rewrite E1|done].
Qed.

Lemma partial_packets s0 r n i N l :
  partial s0 r n i N l -> N <> [] -> forall y, y ∈ packet_of <$> N <-> y = ptr r.
Proof.
  intros [_ _ _ P4 _ _ _ _] HN y. rewrite Forall_forall in P4. rewrite list_elem_of_fmap. split.
  - intros (p & -> & Hp). apply (P4 p Hp).
  - intros ->. destruct N as [|p N]; [done|]. exists p. split; [|apply list_elem_of_here].
    symmetry. apply P4, list_elem_of_here.
Qed.

Lemma addToReadQueue_ok now r s acc :
  inv s -> settled s acc -> req_ok r -> Packet.isWrite (pkt r) = false ->
  ptr r ∉ packet_of <$> waiting s -> dram_pkt_count c r < 4294967296 ->
  Z.of_nat (length (R s) + length (respQueue s)) + dram_pkt_count c r <= readBufferSize c ->
  exists s', addToReadQueue c now r (dram_pkt_count c r) s = Ok s' /\ inv s' /\
    settled s' (acc ++ [ptr r]) /\ respQueue s' = respQueue s /\ respondEvent s' = respondEvent s /\
    (forall y, y ∈ packet_of <$> waiting s' -> y = ptr r \/ y ∈ packet_of <$> waiting s) /\
    (nextReqEvent s' = true \/ R s' ≡ₚ R s).
Proof.
  intros [Hcore Hreads] Hset Hr Hw Hfresh Hmax Hroom. unfold addToReadQueue. rewrite Hw.
  pose proof (count_pos r Hr) as Hpos. rewrite (proj2 (Z.eqb_neq _ _)) by lia.
  cbn [negb assert_that mbind res_bind]. set (n := dram_pkt_count c r) in *.
  destruct (read_bursts_ok now s r n (Z.to_nat n) 0 [] _ (partial_start s r n Hcore) Hr)
    as (N & l & E & HP); [done|lia|lia|done|cbn; lia|].
  change (start r 0) with (Packet.addr (pkt r)) in E. rewrite E. cbn [mbind res_bind].
  pose proof HP as [P1 P2 [P3 P3'] P4 (Q1 & Q2 & Q3 & Q4) P6 P7 P8].
  assert (R (ctrl l) ++ respQueue (ctrl l) ≡ₚ N ++ waiting s) as Hwait
    by (rewrite P2, Q2; unfold waiting; by rewrite app_assoc).
  destruct (serviced l =? n) eqn:En.
  - apply Z.eqb_eq in En. assert (N = []) as -> by (destruct N; [done|cbn in *; lia]).
    assert (made n [] = false) as Hm by (unfold made; by rewrite andb_false_r).
    rewrite Hm in P7, P8. eexists. split; [done|]. split; [|split; [|split; [done|split; [done|split]]]].
    + split; [by destruct P1|]. cbn. rewrite P7, P8. by eapply reads_perm; [symmetry; exact Hwait|].
    + unfold settled, waiting in *. cbn [with_answers accessAndRespond answers readQueue respQueue].
      rewrite Q3, fmap_app. apply balance_at_once. eapply balance_ext; [|exact Hset].
      intros y. by rewrite Hwait.
    + intros y. unfold waiting in *. cbn. rewrite Hwait. by right.
    + by right.
  - apply Z.eqb_neq in En. assert (N <> []) as HN by (intros ->; cbn in *; lia).
    destruct (partial_reads s r n N l HP Hreads Hfresh HN ltac:(lia)) as (hs & -> & Hro).
    cbn [mbind res_bind]. eexists. split; [done|]. split; [|split; [|split; [done|split; [done|split]]]].
    + split; [by destruct P1|]. cbn. by eapply reads_perm; [symmetry; exact Hwait|].
    + unfold settled, waiting in *. cbn [with_next with_helpers answers readQueue respQueue].
      rewrite Q3. eapply balance_wait; [exact Hfresh| |exact Hset].
      intros y. rewrite Hwait, fmap_app, elem_of_app.
      rewrite (partial_packets s r n n N l HP HN). done.
    + intros y. unfold waiting in *. cbn. rewrite Hwait, fmap_app, elem_of_app.
      rewrite (partial_packets s r n n N l HP HN). done.
    + by left.
Qed.

(** ** The events *)

(** Between events the response event is scheduled exactly when a response
    waits. *)
Record good (s : t) (accepted : list nat) : Prop := {
  gd_inv : inv s;
  gd_settled : settled s accepted;
  gd_event : respondEvent s = bool_decide (respQueue s <> [])
}.

Lemma count_max r : dram_pkt_count c r < 4294967296.
Proof.
  pose proof burst_pos. unfold dram_pkt_count. pose proof (u32_range
    (u32 (u32 (Z.land (Packet.addr (pkt r)) (burstSize c - 1)) + Packet.size (pkt r)) + burstSize c - 1)) as Hr.
  unfold is_u32 in Hr. apply Z.div_lt_upper_bound; nia.
Qed.

Lemma good_retry r w n s acc : good s acc -> good (with_retry r w n s) acc.
Proof. intros [[H1 H2] H3 H4]. split; [|done|done]. split; [by destruct H1|done]. Qed.

Lemma enqueueReq_ok now r s acc :
  good s acc -> req_ok r -> ptr r ∉ packet_of <$> waiting s ->
  exists b s', enqueueReq c now r s = Ok (b, s') /\ good s' (if b : bool then acc ++ [ptr r] else acc) /\
    (nextReqEvent s' = true \/ R s' ≡ₚ R s).
Proof.
  intros Hg Hr Hfresh. pose proof Hg as [Hinv Hset Hev]. unfold enqueueReq.
  pose proof (count_pos r Hr) as Hpos. pose proof (count_max r) as Hmax.
  pose proof (in_core _ Hinv) as [C1 C2 C3 C4 C5 C6 C7 C8 C9].
  pose proof (co_read c Hc) as Hrb. pose proof (co_write c Hc) as Hwb.
  pose proof Hr as [Ha Hsz Hq Hk Hca]. rewrite Hca. cbn [panic_if mbind res_bind].
  rewrite (bool_decide_eq_true_2 _ Hq), (proj2 (Z.eqb_neq _ _)) by lia.
  destruct (Packet.isWrite (pkt r)) eqn:Hw.
  - rewrite orb_true_r. cbn [negb panic_if assert_that mbind res_bind].
    destruct (writeQueueFull c _ s) eqn:Hf; [eexists _, _; split; [done|split; [by apply good_retry|by right]]|].
    unfold writeQueueFull in Hf. rewrite C6, u64_id in Hf by (unfold is_u64; lia). apply Z.ltb_ge in Hf.
    destruct (addToWriteQueue_ok now r s acc Hinv Hset Hr Hw) as (s' & E & H1 & H2 & H3 & H4 & _); [lia|].
    rewrite E. cbn [mbind res_bind]. exists true, s'. split; [done|]. split; [split; [done|done|by rewrite H3, H4]|].
    left. unfold addToWriteQueue in E. rewrite Hw in E. cbn in E. destruct (write_bursts _ _ _ _ _ _); [by injection E as <-|done].
  - destruct Hk as [?|Hk]; [done|]. rewrite Hk. cbn [orb negb panic_if assert_that mbind res_bind].
    destruct (readQueueFull c _ s) eqn:Hf; [eexists _, _; split; [done|split; [by apply good_retry|by right]]|].
    unfold readQueueFull in Hf. rewrite C5, u64_id in Hf by (unfold is_u64; lia). apply Z.ltb_ge in Hf.
    destruct (addToReadQueue_ok now r s acc Hinv Hset Hr Hw Hfresh Hmax) as (s' & -> & H1 & H2 & H3 & H4 & _ & H5); [lia|].
    cbn [mbind res_bind]. exists true, s'. split; [done|]. split; [split; [done|done|by rewrite H3, H4]|done].
Qed.

(** *** Serving the queues *)

Lemma pick_spec choose L i j :
  pick choose L = Some (i, j) -> exists q, (i, q) ∈ L /\ choose q = Some j.
Proof.
  induction L as [|[k q] L IH]; cbn; [done|]. destruct (choose q) as [j'|] eqn:E.
  - intros [= -> ->]. exists q. split; [apply list_elem_of_here|done].
  - intros H. destruct (IH H) as (q' & H1 & H2). exists q'. split; [by apply list_elem_of_further|done].
Qed.

Lemma by_priority_spec qs i q : (i, q) ∈ by_priority qs -> qs !! i = Some q.
Proof.
  unfold by_priority. rewrite elem_of_reverse. intros (k & q' & [= -> ->] & H)%elem_of_lookup_imap_1.
  done.
Qed.

Lemma good_bus b b' r w s acc : good s acc -> good (with_bus b b' r w s) acc.
Proof. intros [[H1 H2] H3 H4]. split; [|done|done]. split; [by destruct H1|done]. Qed.

Lemma good_next e s acc : good s acc -> good (with_next e s) acc.
Proof. intros [[H1 H2] H3 H4]. split; [|done|done]. split; [by destruct H1|done]. Qed.

Lemma resp_assert s :
  respondEvent s = bool_decide (respQueue s <> []) ->
  match respQueue s with
  | [] => assert_that (negb (respondEvent s))
  | _ => assert_that (respondEvent s)
  end = Ok tt.
Proof. intros ->. by destruct (respQueue s). Qed.

Lemma serve_read_ok i j q p s acc :
  good s acc -> readQueue s !! i = Some q -> q !! j = Some p ->
  exists s', serve_read c i j s = Ok s' /\ good s' acc.
Proof.
  intros [[Hcore Hreads] Hset Hev] Hq Hj. unfold serve_read.
  pose proof Hcore as [C1 C2 C3 C4 C5 C6 C7 C8 C9]. pose proof (co_read c Hc). pose proof (co_write c Hc).
  destruct (erase_ok i j _ q p C1 Hq Hj) as (-> & qs & Eq & Hperm & Hpl). cbn [mbind res_bind with_bus].
  assert (size p <= burstSize c) as Hsz by (rewrite Hperm in C9; by apply Forall_cons in C9 as [? _]).
  rewrite (proj2 (Z.leb_le _ _) Hsz). run_state.
  assert (length (R s) = S (length (concat qs))) as Hlen by (by rewrite Hperm).
  destruct (log_response_ok READ (concat qs ++ W s) p (qos s)) as (m & -> & Hlog & Hr1 & Hr2);
    [eapply log_perm; [|exact C4]; by rewrite Hperm|rewrite length_app; lia|].
  run_state. rewrite (resp_assert s Hev). run_state. rewrite Hr2, C6.
  assert (forall s1, readQueue s1 = readQueue s -> writeQueue s1 = writeQueue s ->
    isInWriteQueue s1 = isInWriteQueue s -> respQueue s1 = respQueue s ++ [p] -> respondEvent s1 = true ->
    qos s1 = m -> helpers s1 = helpers s -> nextHelper s1 = nextHelper s -> answers s1 = answers s ->
    exists s', (q ← erase i j p (readQueue s1); Ok (with_reads q s1)) = Ok s' /\ good s' acc) as Hfin.
  { intros s1 E1 E2 E3 E4 E5 E6 E7 E8 E9. rewrite E1, Eq. cbn [mbind res_bind]. eexists. split; [done|].
    assert (concat qs ++ respQueue s ++ [p] ≡ₚ waiting s) as Hw
      by (unfold waiting; rewrite Hperm; solve_Permutation).
    split.
    - split.
      + split; cbn; rewrite ?E2, ?E3, ?E4, ?E6; try done.
        * rewrite Hr1, C5, u64_id; [lia|unfold is_u64; lia].
        * by rewrite Hr2, C6.
        * rewrite length_app. cbn. lia.
        * rewrite Hperm in C9. by apply Forall_cons in C9 as [_ ?].
      + unfold waiting. cbn. rewrite E4, E7, E8. by eapply reads_perm; [symmetry; exact Hw|].
    - unfold settled, waiting. cbn. rewrite E4, E9. eapply balance_ext; [|exact Hset].
      intros y. by rewrite Hw.
    - cbn. rewrite E4, E5. symmetry. apply bool_decide_eq_true. intros [_ ?]%app_nil. done. }
  destruct (_ <? _); by apply Hfin.
Qed.

Lemma serve_write_ok d i j q p s acc :
  good s acc -> writeQueue s !! i = Some q -> q !! j = Some p ->
  exists s', serve_write c d i j s = Ok s' /\ good s' acc.
Proof.
  intros [[Hcore Hreads] Hset Hev] Hq Hj. unfold serve_write.
  pose proof Hcore as [C1 C2 C3 C4 C5 C6 C7 C8 C9]. pose proof (co_read c Hc). pose proof (co_write c Hc).
  destruct (erase_ok i j _ q p C2 Hq Hj) as (-> & qs & Eq & Hperm & Hpl). cbn [mbind res_bind with_bus].
  rewrite Hperm in C3. assert (size p <= burstSize c) as Hsz
    by (pose proof (wo_within _ _ C3) as Hw; apply Forall_cons in Hw as [(_ & [_ ?] & _) _]; done).
  rewrite (proj2 (Z.leb_le _ _) Hsz). run_state.
  assert (length (W s) = S (length (concat qs))) as Hlen by (by rewrite Hperm).
  destruct (log_response_ok WRITE (R s ++ concat qs) p (qos s)) as (m & -> & Hlog & Hr1 & Hr2);
    [eapply log_perm; [|exact C4]; rewrite Hperm; by rewrite <- Permutation_middle|rewrite length_app; lia|].
  run_state. rewrite Eq. run_state.
  assert (good (with_qos m (with_writes qs (isInWriteQueue s ∖ {[ burstAlign c (addr p) ]})
    (with_bus (busState s) (busStateNext s) (readsThisTime s) (u32 (writesThisTime s + 1)) s))) acc) as Hgood.
  { split; [|done|done]. split; [|done]. split; cbn; try done.
    - by apply writes_remove.
    - by rewrite Hr1, C5.
    - rewrite Hr2, C6, u64_id; [lia|unfold is_u64; lia].
    - lia. }
  eexists. split; [done|]. destruct (_ || _); [by apply good_bus|done].
Qed.

Definition choice_ok (ch : Choice) : Prop :=
  forall q j, chooseNext ch q = Some j -> (j < length q)%nat.

(** The packet the loop over the priorities ends with. *)
Lemma picked ch qs i j :
  choice_ok ch -> pick (chooseNext ch) (by_priority qs) = Some (i, j) ->
  exists q p, qs !! i = Some q /\ q !! j = Some p.
Proof.
  intros Hch Hp. apply pick_spec in Hp as (q & Hq%by_priority_spec & Hj).
  apply Hch in Hj. destruct (lookup_lt_is_Some_2 q j Hj) as [p E]. by exists q, p.
Qed.

Lemma serve_event_ok ch s acc :
  good s acc -> choice_ok ch ->
  exists o, serve c ch s = Ok o /\ match o with None => True | Some s' => good s' acc end.
Proof.
  intros Hg Hch. unfold serve. destruct (busState s).
  - destruct (_ =? 0).
    { destruct (_ && _); eexists; split; [done|by apply good_bus|done|done]. }
    destruct (pick _ _) as [[i j]|] eqn:Hp; [|by exists None].
    destruct (picked ch _ i j Hch Hp) as (q & p & Hq & Hj).
    destruct (serve_read_ok i j q p s acc Hg Hq Hj) as (s' & -> & H). by exists (Some s').
  - destruct (pick _ _) as [[i j]|] eqn:Hp; [|by exists None].
    destruct (picked ch _ i j Hch Hp) as (q & p & Hq & Hj).
    destruct (serve_write_ok (draining ch) i j q p s acc Hg Hq Hj) as (s' & -> & H). by exists (Some s').
Qed.

Lemma processNextReqEvent_ok ch s acc :
  good s acc -> choice_ok ch -> exists s', processNextReqEvent c ch s = Ok s' /\ good s' acc.
Proof.
  intros Hg Hch. unfold processNextReqEvent.
  assert (good (turnaround ch s) acc) as Ht by (by apply good_bus).
  destruct (allBusy ch); [by eexists|].
  destruct (serve_event_ok ch _ acc Ht Hch) as (o & -> & Ho). cbn [mbind res_bind].
  destruct o as [s'|]; [|by eexists]. eexists. split; [done|].
  destruct (_ && _); [apply good_retry|]; by apply good_next.
Qed.

(** The response event has fired: it is no longer scheduled. *)
Lemma processRespondEvent_ok now s acc :
  inv s -> settled s acc -> respQueue s <> [] -> respondEvent s = false ->
  exists s', processRespondEvent c now s = Ok s' /\ good s' acc.
Proof.
  intros [Hcore Hreads] Hset Hne Hev. unfold processRespondEvent.
  destruct (respQueue s) as [|p rest] eqn:Hq; [done|]. cbn [head hd_error deref mbind res_bind].
  assert (waiting s ≡ₚ p :: (R s ++ rest)) as Hw by (unfold waiting; rewrite Hq; solve_Permutation).
  destruct (respond_ok now p (R s ++ rest) s (reads_perm _ _ _ _ Hw Hreads)) as (hs & -> & Hro).
  cbn [mbind res_bind].
  set (s1 := if decide _ then s else answer now p s).
  assert (core s1 /\ R s1 = R s /\ respQueue s1 = p :: rest /\ respondEvent s1 = false /\
    nextHelper s1 = nextHelper s) as (K1 & K2 & K3 & K4 & K5) by (unfold s1; by case_decide; destruct Hcore).
  assert (balance (to <$> answers s1) (packet_of <$> R s ++ rest) acc) as Hbal.
  { unfold s1. case_decide as Hin.
    - eapply balance_ext; [|exact Hset]. intros y. rewrite Hw, fmap_cons, elem_of_cons. naive_solver.
    - cbn. rewrite fmap_app. eapply balance_done; [exact Hin| |exact Hset].
      intros y. by rewrite Hw, fmap_cons, elem_of_cons. }
  assert (forall ev, ev = bool_decide (rest <> []) ->
    good (with_resp rest ev (with_helpers hs (nextHelper s) s1)) acc) as Hgood.
  { intros ev Hv. split; [|by unfold settled, waiting; cbn; rewrite K2|done].
    split; [|by unfold waiting; cbn; rewrite K2].
    destruct K1 as [C1 C2 C3 C4 C5 C6 C7 C8 C9]. split; cbn; try done. rewrite K3 in C7. cbn in C7. lia. }
  run_state. rewrite K3, K4. cbn [tail negb].
  destruct rest as [|p' rest']; run_state; (eexists; split; [done|]).
  - case_match; [apply good_retry|]; by apply (Hgood false).
  - case_match; [apply good_retry|]; by apply (Hgood true).
Qed.

(** ** Runs *)

Inductive event :=
| Request (now : Z) (r : Req)
| NextRequest (ch : Choice)
| Response (now : Z).

(** The state with the packets accepted so far.  An event that is not scheduled
    does not fire. *)
Definition step (ev : event) (st : t * list nat) : res (t * list nat) :=
  let '(s, acc) := st in
  match ev with
  | Request now r =>
      '(b, s) ← enqueueReq c now r s; Ok (s, if b : bool then acc ++ [ptr r] else acc)
  | NextRequest ch =>
      if nextReqEvent s then s ← processNextReqEvent c ch (with_next false s); Ok (s, acc)
      else Ok (s, acc)
  | Response now =>
      if respondEvent s
      then s ← processRespondEvent c now (with_resp (respQueue s) false s); Ok (s, acc)
      else Ok (s, acc)
  end.

Definition run (evs : list event) (st : t * list nat) : res (t * list nat) := for_each evs step st.

(** A packet is not sent again while it waits. *)
Definition valid (ev : event) (s : t) : Prop :=
  match ev with
  | Request now r => req_ok r /\ ptr r ∉ packet_of <$> waiting s
  | NextRequest ch => choice_ok ch
  | Response now => True
  end.

Fixpoint valid_from (evs : list event) (st : t * list nat) : Prop :=
  match evs with
  | [] => True
  | ev :: evs => valid ev st.1 /\ forall st', step ev st = Ok st' -> valid_from evs st'
  end.

Lemma controller_step_ok ev s acc :
  good s acc -> valid ev s -> exists s' acc', step ev (s, acc) = Ok (s', acc') /\ good s' acc'.
Proof.
  intros Hg Hv. destruct ev as [now r|ch|now]; cbn [step valid] in *.
  - destruct Hv as [Hr Hf]. destruct (enqueueReq_ok now r s acc Hg Hr Hf) as (b & s' & -> & H & _).
    by exists s', (if b then acc ++ [ptr r] else acc).
  - destruct (nextReqEvent s); [|by eexists _, _].
    destruct (processNextReqEvent_ok ch (with_next false s) acc) as (s' & -> & H);
      [by apply good_next|done|]. by exists s', acc.
  - pose proof Hg as [[H1 H2] H3 H4]. destruct (respondEvent s) eqn:He; [|by exists s, acc].
    destruct (processRespondEvent_ok now (with_resp (respQueue s) false s) acc) as (s' & -> & H).
    + split; [by destruct H1|done].
    + done.
    + cbn. symmetry in H4. by apply bool_decide_eq_true in H4.
    + done.
    + by exists s', acc.
Qed.

Lemma run_ok evs s acc :
  good s acc -> valid_from evs (s, acc) -> exists s' acc', run evs (s, acc) = Ok (s', acc') /\ good s' acc'.
Proof.
  revert s acc. induction evs as [|ev evs IH]; intros s acc Hg Hv; [by exists s, acc|].
  destruct Hv as [Hv Hvs]. destruct (controller_step_ok ev s acc Hg Hv) as (s1 & acc1 & E & Hg1).
  unfold run. cbn [for_each]. rewrite E. cbn [mbind res_bind]. apply (IH s1 acc1 Hg1). by apply Hvs.
Qed.

Lemma new_good : good (new c) [].
Proof.
  assert (concat (replicate (numPriorities c) ([] : list DRAMPacket)) = []) as Hn
    by (induction (numPriorities c); cbn; done).
  assert (placed (replicate (numPriorities c) [])) as Hp.
  { split; [apply length_replicate|]. intros i q p [-> _]%lookup_replicate Hin. by apply not_elem_of_nil in Hin. }
  split; [|by intros x; cbn; rewrite Hn|done]. split.
  - pose proof (co_read c Hc). pose proof (co_write c Hc).
    split; cbn [new readQueue writeQueue isInWriteQueue respQueue qos]; rewrite ?Hn; try done; [| |cbn; lia..].
    + split; [constructor|done|constructor].
    + split; [by intros p ?%not_elem_of_nil|done|done].
  - unfold waiting. cbn. rewrite Hn. split; [done|by intros p h ?%not_elem_of_nil|by intros p ?%not_elem_of_nil].
Qed.

Lemma count_perm l l' : (forall x, count x l = count x l') -> l ≡ₚ l'.
Proof.
  intros H. apply (Permutation_count_occ Nat.eq_dec). intros x.
  assert (forall l, count_occ Nat.eq_dec l x = count x l) as Hc'; [|by rewrite !Hc'].
  clear. induction l as [|y l IH]; [done|]. unfold count in *. rewrite filter_cons. cbn.
  destruct (Nat.eq_dec y x); rewrite IH; by case_decide.
Qed.

(** C9: in any sequence of requests, of scheduling events with any choice of
    the next packet and any state of the ranks, and of responses, no assertion
    and no panic of the controller's queues fails, no freed burst helper is
    used, the queues keep their bounds, and no burst is queued for writing twice.
    Every accepted request is either answered exactly once or still waits; once
    nothing waits, the answers are the accepted requests. *)
Theorem controller_safe evs :
  valid_from evs (new c, []) ->
  exists s accepted, run evs (new c, []) = Ok (s, accepted) /\
    Z.of_nat (length (R s) + length (respQueue s)) <= readBufferSize c /\
    Z.of_nat (length (W s)) <= writeBufferSize c /\
    NoDup (burstAlign c ∘ addr <$> W s) /\
    balance (to <$> answers s) (packet_of <$> waiting s) accepted /\
    (waiting s = [] -> to <$> answers s ≡ₚ accepted).
Proof.
  intros Hv. destruct (run_ok evs (new c) [] new_good Hv) as (s & acc & E & [[Hcore _] Hset _]).
  exists s, acc. split; [done|]. destruct Hcore as [_ _ C3 _ _ _ C7 C8 _].
  split; [done|]. split; [done|]. split; [apply (wo_nodup _ _ C3)|]. split; [done|].
  intros Hw. apply count_perm. intros x. rewrite <- (Hset x), Hw.
  rewrite decide_False by apply not_elem_of_nil. lia.
Qed.
End Config.

(** ** Witnesses *)

Definition sample_config : config :=
  mkConfig 64 128 1 2 8 1 65536 RoRaBaCoCh 8 8 6 4 2 10000 10000 1.

Lemma sample_config_ok : config_ok sample_config.
Proof.
  split; unfold NO_ROW; cbn; try lia. exists 6. lia.
Qed.

Definition sample_req (n : nat) (write : bool) (a sz : Z) : Req :=
  mkReq n (Packet.mk write (negb write) write true false false sz sz a None (Some a) None None
    0 0 false false false false false false 0) 1 0.

(** The first packet of a queue. *)
Definition sample_choice : Choice :=
  mkChoice None false false (fun q => match q with [] => None | _ => Some 0%nat end).

(** A write, a read it serves, a read of two bursts one of which it serves, and
    a read of one burst, before the events that serve and answer them. *)
Definition sample_events : list event :=
  [Request 10 (sample_req 1 true 0x240000040 64); Request 11 (sample_req 2 false 0x240000048 8);
   Request 12 (sample_req 3 false 0x240000060 64); Request 13 (sample_req 4 false 0x240000200 8);
   NextRequest sample_choice; NextRequest sample_choice; Response 50; Response 60].

Lemma sample_req_ok n w a sz :
  0 <= a < 4611686018427387904 -> 1 <= sz < 2147483648 -> req_ok sample_config (sample_req n w a sz).
Proof. intros Ha Hs. split; cbn; try done; [lia|]. destruct w; auto. Qed.

Lemma sample_valid : valid_from sample_config sample_events (new sample_config, []).
Proof.
  assert (choice_ok sample_choice) as Hch by (intros q j; destruct q; cbn; [done|intros [= <-]; lia]).
  unfold sample_events. repeat (cbn [valid_from]; split;
    [first [exact I | exact Hch
           | split; [apply sample_req_ok; lia|apply (bool_decide_unpack _); vm_compute; exact I]]
    |intros st E; vm_compute in E; apply ok_inj in E; subst st]).
  exact I.
Qed.

Lemma controller_safe_witness :
  exists s accepted, run sample_config sample_events (new sample_config, []) = Ok (s, accepted) /\
    accepted = [1; 2; 3; 4]%nat /\ to <$> answers s ≡ₚ accepted.
Proof.
  destruct (controller_safe sample_config sample_config_ok sample_events sample_valid)
    as (s & acc & E & _ & _ & _ & _ & Hp).
  exists s, acc. split; [exact E|]. split.
  - exact (ok_check (fun x => x.2 = [1; 2; 3; 4]%nat) _ (s, acc) E ltac:(vm_compute; reflexivity)).
  - apply Hp. exact (ok_check (fun x => waiting x.1 = []) _ (s, acc) E ltac:(vm_compute; reflexivity)).
Defined.

Lemma decode_bijective_witness :
  decode sample_config (encode sample_config 5 0 1 3 100 8) = (1, 3, 5).
Proof.
  apply (proj1 (decode_bijective sample_config sample_config_ok)); vm_compute; split; discriminate || reflexivity.
Defined.

End DramSafety.
