(* ===== verification/DramRank.v ===== *)
(** * The banks and ranks of the memory controller

    Models [DRAMCtrl::Bank] and [DRAMCtrl::Rank] ([mem/dram_ctrl.hh]) and the
    part of [mem/dram_ctrl.cc] that decides when a command goes to a bank:
    [activateBank], [prechargeBank] and [doDRAMAccess] with their timing
    constraints, and the packet schedulers [chooseNext], [chooseNextFRFCFS] and
    [minBankPrep].  The refresh and power state machines of a rank are in
    [DramPower].  An event of a rank is the tick it is scheduled at.  The energy model (the external
    DRAMPower library) is the list of commands it is given; statistics are left
    out.  Ticks are integers that do not wrap, except where the code subtracts. *)

From S2P Require Import Prelude Common PageTable Clock DramQueues.

Module DramRank.
Import DramQueues.

(** ** Parameters *)

Inductive MemSched := fcfs | frfcfs.
Inductive PageManage := open | open_adaptive | close | close_adaptive.

#[global] Instance sched_eq_dec : EqDecision MemSched.
Proof. solve_decision. Defined.
#[global] Instance page_eq_dec : EqDecision PageManage.
Proof. solve_decision. Defined.

Record timing := mkTiming {
  tCK : Z; tRTW : Z; tCS : Z; tBURST : Z; tCCD_L_WR : Z; tCCD_L : Z; tRCD : Z; tCL : Z; tRP : Z;
  tRAS : Z; tWR : Z; tRTP : Z; tRFC : Z; tREFI : Z; tRRD : Z; tRRD_L : Z; tXAW : Z; tXP : Z;
  tXS : Z; tWTR : Z;
  activationLimit : nat;
  bankGroupsPerRank : Z;
  memSchedPolicy : MemSched;
  pageMgmt : PageManage;
  maxAccessesPerRow : Z;
  enableDRAMPowerdown : bool;
  timeStampOffset : Z
}.

Definition bankGroupArch (k : timing) : bool := 0 <? bankGroupsPerRank k.
Definition rankToRankDly (k : timing) : Z := tCS k + tBURST k.
Definition wrToRdDly (k : timing) : Z := tCL k + tBURST k + tWTR k.
Definition rdToWrDly (k : timing) : Z := tRTW k + tBURST k.

(** ** State *)

Inductive MemCommand :=
| ACT | RD | WR | PRE | PREA | REF | PDN_F_ACT | PDN_F_PRE | PUP_ACT | PUP_PRE | SREN | SREX.

#[global] Instance command_eq_dec : EqDecision MemCommand.
Proof. solve_decision. Defined.

Record Command := mkCommand { type : MemCommand; cbank : Z; timeStamp : Z }.

Record Bank := mkBank {
  openRow : Z;
  bankgr : Z;
  rdAllowedAt : Z;
  wrAllowedAt : Z;
  preAllowedAt : Z;
  actAllowedAt : Z;
  rowAccesses : Z;
  bytesAccessed : Z
}.

Definition with_row v b := mkBank v (bankgr b) (rdAllowedAt b) (wrAllowedAt b) (preAllowedAt b)
  (actAllowedAt b) (rowAccesses b) (bytesAccessed b).
Definition with_col rd wr b := mkBank (openRow b) (bankgr b) rd wr (preAllowedAt b)
  (actAllowedAt b) (rowAccesses b) (bytesAccessed b).
Definition with_pre v b := mkBank (openRow b) (bankgr b) (rdAllowedAt b) (wrAllowedAt b) v
  (actAllowedAt b) (rowAccesses b) (bytesAccessed b).
Definition with_act v b := mkBank (openRow b) (bankgr b) (rdAllowedAt b) (wrAllowedAt b)
  (preAllowedAt b) v (rowAccesses b) (bytesAccessed b).
Definition with_count n by_ b := mkBank (openRow b) (bankgr b) (rdAllowedAt b) (wrAllowedAt b)
  (preAllowedAt b) (actAllowedAt b) n by_.

(** The banks of a rank.  [powerlib] is what the DRAMPower library was given:
    command, bank and cycle.  [issued] is every command in the order of the
    decisions; the code keeps no such list, it exists for the theorems. *)
Record Array := mkArray {
  banks : list Bank;
  numBanksActive : Z;
  actTicks : list Z;
  cmdList : list Command;
  powerlib : list (MemCommand * Z * Z);
  issued : list Command
}.

Definition with_banks v a := mkArray v (numBanksActive a) (actTicks a) (cmdList a) (powerlib a) (issued a).
Definition with_active v a := mkArray (banks a) v (actTicks a) (cmdList a) (powerlib a) (issued a).
Definition with_actTicks v a := mkArray (banks a) (numBanksActive a) v (cmdList a) (powerlib a) (issued a).
(** [cmdList.push_back(Command(type, bank, tick))] *)
Definition push_cmd (type : MemCommand) (bank tick : Z) (a : Array) : Array :=
  let c := mkCommand type bank tick in
  mkArray (banks a) (numBanksActive a) (actTicks a) (cmdList a ++ [c]) (powerlib a) (issued a ++ [c]).

Inductive PowerState := PWR_IDLE | PWR_REF | PWR_SREF | PWR_PRE_PDN | PWR_ACT | PWR_ACT_PDN.
Inductive RefreshState :=
| REF_IDLE | REF_DRAIN | REF_PD_EXIT | REF_SREF_EXIT | REF_PRE | REF_START | REF_RUN.

#[global] Instance power_eq_dec : EqDecision PowerState.
Proof. solve_decision. Defined.
#[global] Instance refresh_eq_dec : EqDecision RefreshState.
Proof. solve_decision. Defined.

Record Machine := mkMachine {
  pwrState : PowerState;
  pwrStateTrans : PowerState;
  pwrStatePostRefresh : PowerState;
  refreshState : RefreshState;
  inLowPowerState : bool;
  outstandingEvents : Z;
  wakeUpAllowedAt : Z;
  refreshDueAt : Z;
  pwrStateTick : Z
}.

Definition with_pwrState v m := mkMachine v (pwrStateTrans m) (pwrStatePostRefresh m) (refreshState m)
  (inLowPowerState m) (outstandingEvents m) (wakeUpAllowedAt m) (refreshDueAt m) (pwrStateTick m).
Definition with_trans v m := mkMachine (pwrState m) v (pwrStatePostRefresh m) (refreshState m)
  (inLowPowerState m) (outstandingEvents m) (wakeUpAllowedAt m) (refreshDueAt m) (pwrStateTick m).
Definition with_post v m := mkMachine (pwrState m) (pwrStateTrans m) v (refreshState m)
  (inLowPowerState m) (outstandingEvents m) (wakeUpAllowedAt m) (refreshDueAt m) (pwrStateTick m).
Definition with_refresh v m := mkMachine (pwrState m) (pwrStateTrans m) (pwrStatePostRefresh m) v
  (inLowPowerState m) (outstandingEvents m) (wakeUpAllowedAt m) (refreshDueAt m) (pwrStateTick m).
Definition with_low v m := mkMachine (pwrState m) (pwrStateTrans m) (pwrStatePostRefresh m) (refreshState m)
  v (outstandingEvents m) (wakeUpAllowedAt m) (refreshDueAt m) (pwrStateTick m).
Definition with_outstanding v m := mkMachine (pwrState m) (pwrStateTrans m) (pwrStatePostRefresh m) (refreshState m)
  (inLowPowerState m) v (wakeUpAllowedAt m) (refreshDueAt m) (pwrStateTick m).
Definition with_wakeUpAllowed v m := mkMachine (pwrState m) (pwrStateTrans m) (pwrStatePostRefresh m) (refreshState m)
  (inLowPowerState m) (outstandingEvents m) v (refreshDueAt m) (pwrStateTick m).
Definition with_due v m := mkMachine (pwrState m) (pwrStateTrans m) (pwrStatePostRefresh m) (refreshState m)
  (inLowPowerState m) (outstandingEvents m) (wakeUpAllowedAt m) v (pwrStateTick m).
Definition with_tick v m := mkMachine (pwrState m) (pwrStateTrans m) (pwrStatePostRefresh m) (refreshState m)
  (inLowPowerState m) (outstandingEvents m) (wakeUpAllowedAt m) (refreshDueAt m) v.

(** The events of a rank, and the tick each is scheduled at. *)
Inductive Ev := WriteDone | Activate | Precharge | Refresh | Power | WakeUp.

#[global] Instance ev_eq_dec : EqDecision Ev.
Proof. solve_decision. Defined.

Record Rank := mkRank {
  rankNo : Z;
  readEntries : Z;
  writeEntries : Z;
  array : Array;
  machine : Machine;
  event_at : Ev -> option Z
}.

Definition with_array v r := mkRank (rankNo r) (readEntries r) (writeEntries r) v (machine r) (event_at r).
Definition with_machine v r := mkRank (rankNo r) (readEntries r) (writeEntries r) (array r) v (event_at r).
Definition with_entries rd wr r := mkRank (rankNo r) rd wr (array r) (machine r) (event_at r).
Definition set_event (e : Ev) (w : option Z) (r : Rank) : Rank :=
  mkRank (rankNo r) (readEntries r) (writeEntries r) (array r) (machine r)
    (fun x => if decide (x = e) then w else event_at r x).

Definition on_array (f : Array -> Array) (r : Rank) : Rank := with_array (f (array r)) r.
Definition on_machine (f : Machine -> Machine) (r : Rank) : Rank := with_machine (f (machine r)) r.

Definition scheduled (e : Ev) (r : Rank) : bool := bool_decide (is_Some (event_at r e)).

(** [schedule] and [reschedule] of an event of the rank. *)
Definition schedule (now : Z) (e : Ev) (w : Z) (r : Rank) : res Rank :=
  assert_that (now <=? w) ;;
  assert_that (negb (scheduled e r)) ;;
  Ok (set_event e (Some w) r).
Definition reschedule (now : Z) (e : Ev) (w : Z) (r : Rank) : res Rank :=
  assert_that (now <=? w) ;;
  assert_that (scheduled e r) ;;
  Ok (set_event e (Some w) r).

(** What a rank reads of the controller: the direction of the bus, the rank
    accessed last, whether the next request is scheduled, and whether the
    controller drains or is drained. *)
Record Memory := mkMemory {
  busStateNext : BusState;
  activeRank : Z;
  nextReqScheduled : bool;
  drainingOrDrained : bool
}.

Definition inRefIdleState (r : Rank) : bool := bool_decide (refreshState (machine r) = REF_IDLE).
Definition inPwrIdleState (r : Rank) : bool := bool_decide (pwrState (machine r) = PWR_IDLE).

Definition isQueueEmpty (m : Memory) (r : Rank) : bool :=
  (bool_decide (busStateNext m = READ) && (readEntries r =? 0)) ||
  (bool_decide (busStateNext m = WRITE) && (writeEntries r =? 0)).

Definition forceSelfRefreshExit (m : Memory) (r : Rank) : bool :=
  negb (readEntries r =? 0) ||
  (bool_decide (busStateNext m = WRITE) && negb (writeEntries r =? 0)).

(** ** The controller's view of the banks *)

(** [bursts] is every column command with its rank; it exists for the theorems. *)
Record t := mk {
  ranks : list Rank;
  nextBurstAt : Z;
  nextReqTime : Z;
  lastRank : Z;
  bursts : list (nat * Command)
}.

Definition with_ranks v s := mk v (nextBurstAt s) (nextReqTime s) (lastRank s) (bursts s).

(** The difference of two ticks; it wraps when it is negative. *)
Definition tick_sub (a b : Z) : Z := if a <? b then u64 (a - b) else a - b.

Section Rank.
Context (c : config) (k : timing).

(** ** Commands to a bank *)

Definition max_act (v : Z) (b : Bank) : Bank := with_act (Z.max v (actAllowedAt b)) b.

(** The activation window of lines 1634-1665: at most [activationLimit]
    activates in [tXAW]; 0 stands for no activate. *)
Definition push_activate (act_tick : Z) (a : Array) : res Array :=
  match last (actTicks a) with
  | None => Ok a
  | Some oldest =>
      panic_if (negb (oldest =? 0) && (tick_sub act_tick oldest <? tXAW k)) ;;
      let ticks := act_tick :: removelast (actTicks a) in
      let a := with_actTicks ticks a in
      let oldest := default 0 (last ticks) in
      Ok (if negb (oldest =? 0) && (tick_sub act_tick oldest <? tXAW k)
          then with_banks (max_act (oldest + tXAW k) <$> banks a) a else a)
  end.

Definition activateBank (now : Z) (bk : nat) (act_tick row : Z) (r : Rank) : res Rank :=
  let a := array r in
  assert_that (bool_decide (length (actTicks a) = activationLimit k)) ;;
  b ← deref (banks a !! bk);
  assert_that (openRow b =? NO_ROW) ;;
  let b := with_count 0 0 (with_row row b) in
  let a := with_active (u32 (numBanksActive a + 1)) a in
  assert_that (numBanksActive a <=? banksPerRank c) ;;
  let a := push_cmd ACT (Z.of_nat bk) act_tick a in
  let b := with_pre (act_tick + tRAS k) b in
  let b := with_col (Z.max (act_tick + tRCD k) (rdAllowedAt b))
                    (Z.max (act_tick + tRCD k) (wrAllowedAt b)) b in
  let delay o := if bankGroupArch k && (bankgr b =? bankgr o) then tRRD_L k else tRRD k in
  let a := with_banks ((fun o => max_act (act_tick + delay o) o) <$> <[bk := b]> (banks a)) a in
  a ← push_activate act_tick a;
  let r := with_array a r in
  match event_at r Activate with
  | None => schedule now Activate act_tick r
  | Some w => if act_tick <? w then reschedule now Activate act_tick r else Ok r
  end.

Definition prechargeBank (now : Z) (bk : nat) (pre_at : Z) (trace : bool) (r : Rank) : res Rank :=
  let a := array r in
  b ← deref (banks a !! bk);
  assert_that (negb (openRow b =? NO_ROW)) ;;
  let pre_done_at := pre_at + tRP k in
  let b := max_act pre_done_at (with_pre pre_at (with_row NO_ROW b)) in
  let a := with_banks (<[bk := b]> (banks a)) a in
  assert_that (negb (numBanksActive a =? 0)) ;;
  let a := with_active (numBanksActive a - 1) a in
  let a := if trace then push_cmd PRE (Z.of_nat bk) pre_at a else a in
  let r := with_array a r in
  match event_at r Precharge with
  | None =>
      r ← schedule now Precharge pre_done_at r;
      Ok (on_machine (fun m => with_outstanding (u8 (outstandingEvents m + 1)) m) r)
  | Some w => if w <? pre_done_at then reschedule now Precharge pre_done_at r else Ok r
  end.

(** [Rank::scheduleWakeUpEvent] *)
Definition scheduleWakeUpEvent (now exit_delay : Z) (r : Rank) : res Rank :=
  let wake_up_tick := Z.max now (wakeUpAllowedAt (machine r)) in
  let m := machine r in
  let m := with_post (if bool_decide (refreshState m = REF_PD_EXIT) then pwrState m else PWR_IDLE) m in
  r ← schedule now WakeUp wake_up_tick (with_machine m r);
  let t := wake_up_tick + exit_delay in
  let wake b := with_act (Z.max t (actAllowedAt b)) (with_pre (Z.max t (preAllowedAt b))
    (with_col (Z.max t (rdAllowedAt b)) (Z.max t (wrAllowedAt b)) b)) in
  let r := on_array (fun a => with_banks (wake <$> banks a) a) r in
  let r := on_machine (with_low false) r in
  Ok (match pwrStateTrans (machine r) with
      | PWR_ACT_PDN => on_array (push_cmd PUP_ACT 0 wake_up_tick) r
      | PWR_PRE_PDN => on_array (push_cmd PUP_PRE 0 wake_up_tick) r
      | PWR_SREF => on_array (push_cmd SREX 0 wake_up_tick) r
      | _ => r
      end).

(** ** Accesses *)

(** The search of the adaptive page policies in the queue of the packet, which
    is at [pos]: has it another packet for the open row, or a conflicting one? *)
Definition scan_packet (p : DRAMPacket) (pos : nat * nat) (x : nat * nat * DRAMPacket)
    (found : bool * bool) : bool * bool :=
  let '(got_more_hits, got_bank_conflict) := found in
  if got_more_hits || bool_decide (x.1 = pos) then found
  else
    let o := x.2 in
    let same_rank_bank := (rank p =? rank o) && (bank p =? bank o) in
    let same_row := row p =? row o in
    (same_rank_bank && same_row, got_bank_conflict || (same_rank_bank && negb same_row)).

Definition positions (queues : list (list DRAMPacket)) : list (nat * nat * DRAMPacket) :=
  concat (imap (fun i q => imap (fun j o => (i, j, o)) q) queues).

Definition scan (p : DRAMPacket) (pos : nat * nat) (queues : list (list DRAMPacket)) : bool * bool :=
  foldl (fun found x => scan_packet p pos x found) (false, false) (positions queues).

Definition auto_precharge (p : DRAMPacket) (pos : nat * nat) (queues : list (list DRAMPacket))
    (b : Bank) : bool :=
  bool_decide (pageMgmt k = close) || (rowAccesses b =? maxAccessesPerRow k) ||
  match pageMgmt k with
  | open_adaptive =>
      let '(hits, conflict) := scan p pos queues in negb hits && conflict
  | close_adaptive => negb (scan p pos queues).1
  | _ => false
  end.

(** The delays after a column command to [p]: until the next read and until the
    next write of a bank of rank [j] and group [g]. *)
Definition column_delays (p : DRAMPacket) (group : Z) (j : nat) (o : Bank) : Z * Z :=
  if rank p =? Z.of_nat j then
    if bankGroupArch k && (group =? bankgr o) then
      (if read p then tCCD_L k else Z.max (tCCD_L k) (wrToRdDly k),
       if read p then Z.max (tCCD_L k) (rdToWrDly k) else tCCD_L_WR k)
    else (if read p then tBURST k else wrToRdDly k, if read p then rdToWrDly k else tBURST k)
  else (rankToRankDly k, rankToRankDly k).

Definition delay_bank (p : DRAMPacket) (group cmd_at : Z) (j : nat) (o : Bank) : Bank :=
  let '(rd, wr) := column_delays p group j o in
  with_col (Z.max (cmd_at + rd) (rdAllowedAt o)) (Z.max (cmd_at + wr) (wrAllowedAt o)) o.

Definition delay_ranks (p : DRAMPacket) (group cmd_at : Z) (rs : list Rank) : list Rank :=
  imap (fun j => on_array (fun a => with_banks (delay_bank p group cmd_at j <$> banks a) a)) rs.

(** The row of the packet is opened: lines 1748-1765. *)
Definition open_row (now : Z) (p : DRAMPacket) (r : Rank) : res Rank :=
  let bk := Z.to_nat (bank p) in
  b ← deref (banks (array r) !! bk);
  if openRow b =? row p then Ok r
  else
    r ← (if openRow b =? NO_ROW then Ok r
         else prechargeBank now bk (Z.max (preAllowedAt b) now) true r);
    b ← deref (banks (array r) !! bk);
    activateBank now bk (Z.max (actAllowedAt b) now) (row p) r.

(** [doDRAMAccess], with the queue of the packet and its position there; the
    result is the packet's [readyTime]. *)
Definition doDRAMAccess (now : Z) (p : DRAMPacket) (pos : nat * nat)
    (queues : list (list DRAMPacket)) (s : t) : res (Z * t) :=
  let rk := Z.to_nat (rank p) in
  let bk := Z.to_nat (bank p) in
  r ← deref (ranks s !! rk);
  r ← (if inLowPowerState (machine r) then
         assert_that (negb (bool_decide (pwrState (machine r) = PWR_SREF))) ;;
         scheduleWakeUpEvent now (tXP k) r
       else Ok r);
  r ← open_row now p r;
  b ← deref (banks (array r) !! bk);
  let col_allowed_at := if read p then rdAllowedAt b else wrAllowedAt b in
  let cmd_at := Z.max (Z.max col_allowed_at (nextBurstAt s)) now in
  let readyTime := cmd_at + tCL k + tBURST k in
  let rs := delay_ranks p (bankgr b) cmd_at (<[rk := r]> (ranks s)) in
  r ← deref (rs !! rk);
  b ← deref (banks (array r) !! bk);
  let b := with_pre (Z.max (preAllowedAt b)
             (if read p then cmd_at + tRTP k else readyTime + tWR k)) b in
  let b := with_count (u32 (rowAccesses b + 1)) (u32 (bytesAccessed b + burstSize c)) b in
  let r := on_array (fun a => with_banks (<[bk := b]> (banks a)) a) r in
  let command := if read p then RD else WR in
  let nextBurstAt := cmd_at + tBURST k in
  let r := on_array (push_cmd command (bank p) cmd_at) r in
  r ← (if auto_precharge p pos queues b
       then prechargeBank now bk (Z.max now (preAllowedAt b)) true r else Ok r);
  Ok (readyTime,
      mk (<[rk := r]> rs) nextBurstAt (tick_sub nextBurstAt (tRP k + tRCD k)) (rank p)
         (bursts s ++ [(rk, mkCommand command (bank p) cmd_at)])).

(** ** The schedulers *)

Definition MaxTick : Z := 18446744073709551615.

(** The rank of a packet. *)
Definition rankRef (s : t) (p : DRAMPacket) : res Rank := deref (ranks s !! Z.to_nat (rank p)).
Definition bankRef (s : t) (p : DRAMPacket) : res Bank :=
  r ← rankRef s p; deref (banks (array r) !! Z.to_nat (bank p)).

(** [replaceBits(bank_mask[i], j, j, 1)] *)
Definition set_bit (i j : nat) (mask : list Z) : list Z :=
  alter (fun v => u32 (Z.lor v (Z.shiftl 1 (Z.of_nat j)))) i mask.

(** [bits(v, j, j)] *)
Definition bit (v j : Z) : bool := Z.testbit v j.

(** What the loop of [minBankPrep] carries. *)
Record Prep := mkPrep {
  bank_mask : list Z;
  min_act_at : Z;
  found_seamless_bank : bool;
  hidden_bank_prep : bool
}.

(** A round of [minBankPrep] for bank [j] of rank [i] with waiting packets. *)
Definition prep_bank (now min_col_at hidden_act_max : Z) (bus : BusState) (i j : nat) (b : Bank)
    (st : Prep) : Prep :=
  let act_at := if openRow b =? NO_ROW then Z.max (actAllowedAt b) now
                else Z.max (preAllowedAt b) now + tRP k in
  let col_allowed_at := match bus with READ => rdAllowedAt b | WRITE => wrAllowedAt b end in
  let col_at := Z.max col_allowed_at (act_at + tRCD k) in
  let new_seamless_bank := col_at <=? min_col_at in
  if new_seamless_bank || (negb (found_seamless_bank st) && (act_at <=? min_act_at st)) then
    let mask := if negb (found_seamless_bank st) && (new_seamless_bank || (act_at <? min_act_at st))
                then (fun _ => 0) <$> bank_mask st else bank_mask st in
    mkPrep (set_bit i j mask) act_at (found_seamless_bank st || new_seamless_bank)
      (act_at <=? hidden_act_max)
  else st.

(** [got_waiting]: the banks with a packet in the queue for a rank that does not
    refresh, by [bankId]. *)
Definition got_waiting (queue : list DRAMPacket) (s : t) : res (list bool) :=
  for_each queue (fun p w =>
    r ← rankRef s p;
    if inRefIdleState r then
      _ ← deref (w !! Z.to_nat (bankId p)); Ok (<[Z.to_nat (bankId p) := true]> w)
    else Ok w)
    (replicate (Z.to_nat (ranksPerChannel c * banksPerRank c)) false).

Definition minBankPrep (now : Z) (bus : BusState) (queue : list DRAMPacket) (min_col_at : Z) (s : t)
    : res (list Z * bool) :=
  let hidden_act_max := Z.max (tick_sub min_col_at (tRCD k)) now in
  w ← got_waiting queue s;
  st ← for_each (seq 0 (Z.to_nat (ranksPerChannel c))) (fun i st =>
         for_each (seq 0 (Z.to_nat (banksPerRank c))) (fun j st =>
           let bank_id := u16 (Z.of_nat i * banksPerRank c + Z.of_nat j) in
           waiting ← deref (w !! Z.to_nat bank_id);
           if waiting : bool then
             r ← deref (ranks s !! i);
             assert_that (inRefIdleState r) ;;
             b ← deref (banks (array r) !! j);
             Ok (prep_bank now min_col_at hidden_act_max bus i j b st)
           else Ok st) st)
       (mkPrep (replicate (Z.to_nat (ranksPerChannel c)) 0) MaxTick false false);
  Ok (bank_mask st, hidden_bank_prep st).

(** What the loop of [chooseNextFRFCFS] carries; [earliest] is set once
    [minBankPrep] was called. *)
Record Pick := mkPick {
  selected : option nat;
  earliest : option (list Z * bool);
  found_hidden_bank : bool;
  found_prepped_pkt : bool;
  found_earliest_pkt : bool
}.

Inductive Round := Continue (st : Pick) | Break (it : nat).

Definition frfcfs_round (now : Z) (bus : BusState) (queue : list DRAMPacket) (min_col_at : Z) (s : t)
    (i : nat) (p : DRAMPacket) (st : Pick) : res Round :=
  r ← rankRef s p;
  b ← bankRef s p;
  let col_allowed_at := if read p then rdAllowedAt b else wrAllowedAt b in
  if negb (inRefIdleState r) then Ok (Continue st)
  else if openRow b =? row p then
    if col_allowed_at <=? min_col_at then Ok (Break i)
    else if negb (found_hidden_bank st) && negb (found_prepped_pkt st) then
      Ok (Continue (mkPick (Some i) (earliest st) (found_hidden_bank st) true (found_earliest_pkt st)))
    else Ok (Continue st)
  else if negb (found_earliest_pkt st) then
    e ← match earliest st with
        | Some e => Ok e
        | None => minBankPrep now bus queue min_col_at s
        end;
    let '(earliest_banks, hidden_bank_prep) := e in
    mask ← deref (earliest_banks !! Z.to_nat (rank p));
    Ok (Continue
      (if bit mask (bank p) then
         mkPick (if hidden_bank_prep || negb (found_prepped_pkt st) then Some i else selected st)
           (Some e) hidden_bank_prep (found_prepped_pkt st) true
       else mkPick (selected st) (Some e) (found_hidden_bank st) (found_prepped_pkt st) false))
  else Ok (Continue st).

Fixpoint frfcfs_loop (now : Z) (bus : BusState) (queue : list DRAMPacket) (min_col_at : Z) (s : t)
    (l : list (nat * DRAMPacket)) (st : Pick) : res (option nat) :=
  match l with
  | [] => Ok (selected st)
  | (i, p) :: l =>
      o ← frfcfs_round now bus queue min_col_at s i p st;
      match o with
      | Break i => Ok (Some i)
      | Continue st => frfcfs_loop now bus queue min_col_at s l st
      end
  end.

Definition chooseNextFRFCFS (now : Z) (bus : BusState) (extra_col_delay : Z) (queue : list DRAMPacket)
    (s : t) : res (option nat) :=
  let min_col_at := Z.max (nextBurstAt s + extra_col_delay) now in
  frfcfs_loop now bus queue min_col_at s (imap pair queue) (mkPick None None false false false).

(** The position [chooseNext] returns, or [None] for [queue.end()]. *)
Definition chooseNext (now : Z) (bus : BusState) (extra_col_delay : Z) (queue : list DRAMPacket)
    (s : t) : res (option nat) :=
  match queue with
  | [] => Ok None
  | [p] => r ← rankRef s p; Ok (if inRefIdleState r then Some O else None)
  | _ =>
      match memSchedPolicy k with
      | fcfs =>
          o ← search (imap pair queue) (fun x => r ← rankRef s x.2; Ok (inRefIdleState r));
          Ok (option_map fst o)
      | frfcfs => chooseNextFRFCFS now bus extra_col_delay queue s
      end
  end.
End Rank.
End DramRank.
