(* ===== verification/DramTiming.v ===== *)
(** * The timing of DRAM commands

    The commands that a rank is given respect the timing parameters of the
    device: [gap] is the distance a command has to keep from an earlier one of
    the same rank, and [column_gap] the distance of column commands on the data
    bus.  [array_ok] relates the four times that a bank keeps to the commands
    issued so far; every command keeps it. *)

From S2P Require Import Prelude Common PageTable Clock DramQueues DramRank.

Module DramTiming.
Import DramQueues DramRank.

(** Parameters as a device has them. *)
Record timing_ok (k : timing) : Prop := {
  ok_burst : 0 <= tBURST k; ok_cl : 0 <= tCL k; ok_rcd : 0 <= tRCD k; ok_rp : 0 < tRP k;
  ok_ras : 0 <= tRAS k; ok_wr : 0 <= tWR k; ok_rtp : 0 <= tRTP k; ok_rfc : 0 <= tRFC k;
  ok_rrd : 0 <= tRRD k; ok_rrd_l : 0 <= tRRD_L k; ok_xaw : 0 <= tXAW k;
  ok_cs : 0 <= tCS k; ok_rtw : 0 <= tRTW k; ok_wtr : 0 <= tWTR k; ok_ccd_l : 0 <= tCCD_L k;
  ok_ccd_l_wr : 0 <= tCCD_L_WR k; ok_xp : 0 <= tXP k
}.

(** ** The protocol of a rank *)

Section Protocol.
Context (k : timing).
(** The group of a bank. *)
Context (group : Z -> Z).

(** The distance from a command to a later one of the same rank, where the
    device asks for one. *)
Definition gap (c1 c2 : Command) : option Z :=
  let same := cbank c1 =? cbank c2 in
  match type c1, type c2 with
  | ACT, ACT => Some (if bankGroupArch k && (group (cbank c1) =? group (cbank c2)) then tRRD_L k else tRRD k)
  | ACT, (RD | WR) => if same then Some (tRCD k) else None
  | ACT, PRE => if same then Some (tRAS k) else None
  | ACT, PREA => Some (tRAS k)
  | RD, PRE => if same then Some (tRTP k) else None
  | RD, PREA => Some (tRTP k)
  | WR, PRE => if same then Some (tCL k + tBURST k + tWR k) else None
  | WR, PREA => Some (tCL k + tBURST k + tWR k)
  | PRE, ACT => if same then Some (tRP k) else None
  | PREA, ACT => Some (tRP k)
  | REF, (ACT | REF) => Some (tRFC k)
  | (PRE | PREA), REF => Some (tRP k)
  | PRE, PRE => if same then Some 0 else None
  | (PRE | PREA), PREA => Some 0
  | PREA, PRE => Some 0
  | _, _ => None
  end.

Definition respects (c1 c2 : Command) : Prop :=
  forall d, gap c1 c2 = Some d -> timeStamp c1 + d <= timeStamp c2.

(** Is bank [b] open after the commands [l]? *)
Definition opens (b : Z) (open : bool) (c : Command) : bool :=
  match type c with
  | ACT => if cbank c =? b then true else open
  | PRE => if cbank c =? b then false else open
  | PREA => false
  | _ => open
  end.
Definition is_open (b : Z) (l : list Command) : bool := foldl (opens b) false l.

(** A bank is activated when it is closed, and read, written and precharged when
    it is open; a refresh finds all banks closed. *)
Definition allowed (l : list Command) (c : Command) : Prop :=
  match type c with
  | ACT => is_open (cbank c) l = false
  | RD | WR | PRE => is_open (cbank c) l = true
  | REF => forall b, is_open b l = false
  | _ => True
  end.

Definition protocol (l : list Command) : Prop :=
  forall l1 c l2, l = l1 ++ c :: l2 -> allowed l1 c /\ Forall (fun c0 => respects c0 c) l1.

Lemma protocol_nil : protocol [].
Proof. intros [] ? ? ?; done. Qed.

Lemma protocol_snoc l c :
  protocol l -> allowed l c -> Forall (fun c0 => respects c0 c) l -> protocol (l ++ [c]).
Proof.
  intros Hl Ha Hr l1 c' l2 E. destruct l2 as [|x l2] using rev_ind.
  - apply app_inj_tail in E as [-> ->]. done.
  - clear IHl2. rewrite app_comm_cons, app_assoc in E. apply app_inj_tail in E as [E _]. by eapply Hl.
Qed.

Lemma is_open_snoc b l c : is_open b (l ++ [c]) = opens b (is_open b l) c.
Proof. unfold is_open. by rewrite foldl_app. Qed.

(** The ticks of the activates. *)
Definition activates (l : list Command) : list Z :=
  timeStamp <$> filter (fun c => type c = ACT) l.

Lemma activates_snoc l c :
  activates (l ++ [c]) = activates l ++ (if decide (type c = ACT) then [timeStamp c] else []).
Proof.
  unfold activates. rewrite filter_app, fmap_app. f_equal. rewrite filter_cons, filter_nil.
  by destruct (decide (type c = ACT)).
Qed.

(** At most [activationLimit] activates in a window of [tXAW]. *)
Definition windowed (l : list Command) : Prop :=
  forall i a b, activates l !! i = Some a -> activates l !! (i + activationLimit k)%nat = Some b ->
    (0 < activationLimit k)%nat -> a + tXAW k <= b.
End Protocol.

(** ** The banks *)

Definition is_closed (b : Bank) : bool := openRow b =? NO_ROW.
Definition open_banks (l : list Bank) : nat := length (filter (fun b => is_closed b = false) l).

(** The group of a bank, as the constructor of [Rank] sets it. *)
Definition group_of (k : timing) (i : Z) : Z := if bankGroupArch k then i mod bankGroupsPerRank k else i.

Section Banks.
Context (c : config) (k : timing) (Hk : timing_ok k).
Let group := group_of k.
Notation gap := (gap k group).

(** What a bank knows of the commands [l] issued to its rank. *)
Record bank_ok (l : list Command) (i : nat) (b : Bank) : Prop := {
  bk_group : bankgr b = group (Z.of_nat i);
  bk_row : 0 <= openRow b <= NO_ROW;
  bk_open : is_open (Z.of_nat i) l = negb (is_closed b);
  bk_pre : forall x d, x ∈ l -> gap x (mkCommand PRE (Z.of_nat i) 0) = Some d ->
    timeStamp x + d <= preAllowedAt b;
  bk_act : forall x d, x ∈ l -> gap x (mkCommand ACT (Z.of_nat i) 0) = Some d ->
    timeStamp x + d <= actAllowedAt b;
  bk_rd : forall x d, x ∈ l -> gap x (mkCommand RD (Z.of_nat i) 0) = Some d ->
    timeStamp x + d <= rdAllowedAt b;
  bk_wr : forall x d, x ∈ l -> gap x (mkCommand WR (Z.of_nat i) 0) = Some d ->
    timeStamp x + d <= wrAllowedAt b;
  bk_closed : is_closed b = true -> forall x d, x ∈ l ->
    gap x (mkCommand PRE (Z.of_nat i) 0) = Some d -> timeStamp x + d + tRP k <= actAllowedAt b
}.

(** [actTicks] holds the latest activates, the newest first. *)
Definition window_of (l : list Command) : list Z :=
  take (activationLimit k) (reverse (activates l) ++ replicate (activationLimit k) 0).

Record array_ok (a : Array) : Prop := {
  ar_banks : Z.of_nat (length (banks a)) = banksPerRank c;
  ar_count : Z.of_nat (length (banks a)) < 256;
  ar_active : numBanksActive a = Z.of_nat (open_banks (banks a));
  ar_bank : forall i b, banks a !! i = Some b -> bank_ok (issued a) i b;
  ar_cmds : forall x, x ∈ issued a ->
    0 < timeStamp x /\ 0 <= cbank x < banksPerRank c;
  ar_ticks : actTicks a = window_of (issued a);
  ar_window : forall x, last (actTicks a) = Some x -> x <> 0 ->
    forall b, b ∈ banks a -> x + tXAW k <= actAllowedAt b;
  ar_protocol : protocol k group (issued a);
  ar_windowed : windowed k (issued a)
}.

(** ** Commands that raise times *)

(** The bank [b'] has the row of [b] and waits at least as long. *)
Record raised (b b' : Bank) : Prop := {
  ra_group : bankgr b' = bankgr b;
  ra_row : openRow b' = openRow b;
  ra_pre : preAllowedAt b <= preAllowedAt b';
  ra_act : actAllowedAt b <= actAllowedAt b';
  ra_rd : rdAllowedAt b <= rdAllowedAt b';
  ra_wr : wrAllowedAt b <= wrAllowedAt b'
}.

Lemma raised_refl b : raised b b.
Proof. split; done || lia. Qed.

Lemma raised_trans b1 b2 b3 : raised b1 b2 -> raised b2 b3 -> raised b1 b3.
Proof. intros [] []. split; congruence || lia. Qed.

Lemma raised_max_act v b : raised b (max_act v b).
Proof. split; cbn; done || lia. Qed.

Lemma raised_closed b b' : raised b b' -> is_closed b' = is_closed b.
Proof. intros H. unfold is_closed. by rewrite (ra_row _ _ H). Qed.

Lemma bank_ok_raised l i b b' : raised b b' -> bank_ok l i b -> bank_ok l i b'.
Proof.
  intros Hr [H1 H2 H3 H4 H5 H6 H7 H8]. pose proof (raised_closed b b' Hr) as Hc.
  destruct Hr as [R1 R2 R3 R4 R5 R6]. split.
  - congruence.
  - lia.
  - by rewrite Hc.
  - intros x d Hx Hd. specialize (H4 x d Hx Hd). lia.
  - intros x d Hx Hd. specialize (H5 x d Hx Hd). lia.
  - intros x d Hx Hd. specialize (H6 x d Hx Hd). lia.
  - intros x d Hx Hd. specialize (H7 x d Hx Hd). lia.
  - rewrite Hc. intros E x d Hx Hd. specialize (H8 E x d Hx Hd). lia.
Qed.

Lemma open_banks_fmap (f : Bank -> Bank) l :
  (forall b, openRow (f b) = openRow b) -> open_banks (f <$> l) = open_banks l.
Proof.
  intros H. unfold open_banks. induction l as [|b l IH]; [done|].
  rewrite fmap_cons, !filter_cons. assert (is_closed (f b) = is_closed b) as -> by (unfold is_closed; by rewrite H).
  destruct (decide _); cbn; lia.
Qed.

Lemma open_banks_insert l i b b' :
  l !! i = Some b ->
  (open_banks (<[i := b']> l) + (if is_closed b then 0 else 1) =
   open_banks l + (if is_closed b' then 0 else 1))%nat.
Proof.
  revert i. unfold open_banks. induction l as [|x l IH]; intros [|i] Hi; try done; cbn in Hi.
  - injection Hi as ->. change (<[O := b']> (b :: l)) with (b' :: l). rewrite !filter_cons.
    destruct (is_closed b), (is_closed b'); repeat case_decide; cbn; try done; lia.
  - specialize (IH i Hi). change (<[S i := b']> (x :: l)) with (x :: <[i := b']> l).
    rewrite !filter_cons. case_decide; cbn; lia.
Qed.

Lemma open_banks_le l : (open_banks l <= length l)%nat.
Proof. apply length_filter. Qed.

Lemma open_banks_closed l i b : l !! i = Some b -> is_closed b = true -> (open_banks l < length l)%nat.
Proof.
  revert i. unfold open_banks. induction l as [|x l IH]; intros [|i] Hi Hb; try done; cbn in Hi.
  - injection Hi as ->. rewrite filter_cons, decide_False by congruence.
    pose proof (open_banks_le l). unfold open_banks in *. cbn. lia.
  - specialize (IH i Hi Hb). rewrite filter_cons. case_decide; cbn; lia.
Qed.

Lemma open_banks_open l i b : l !! i = Some b -> is_closed b = false -> (0 < open_banks l)%nat.
Proof.
  intros Hi Hb. pose proof (open_banks_insert l i b b Hi). unfold open_banks.
  assert (b ∈ filter (fun b => is_closed b = false) l) as Hin.
  { apply list_elem_of_filter. split; [done|]. by eapply list_elem_of_lookup_2. }
  destruct (filter _ l); [set_solver|cbn; lia].
Qed.

(** Times of banks are raised and nothing is issued. *)
Lemma array_ok_raised a (f : nat -> Bank -> Bank) :
  (forall i b, raised b (f i b)) -> array_ok a -> array_ok (with_banks (imap f (banks a)) a).
Proof.
  intros Hf [H1 H2 H3 H4 H5 H6 H7 H8 H9].
  split; cbn; rewrite ?length_imap; try done.
  - rewrite H3. f_equal. clear - Hf. generalize (banks a). intros l. revert f Hf.
    unfold open_banks. induction l as [|b l IH]; intros f Hf; [done|].
    rewrite imap_cons, !filter_cons. rewrite (raised_closed b (f O b)) by done.
    specialize (IH (f ∘ S) (fun i => Hf (S i))). case_decide; cbn; rewrite IH; done.
  - intros i b Hi. rewrite list_lookup_imap in Hi. apply fmap_Some in Hi as (b0 & Hb & ->).
    eapply bank_ok_raised; [apply Hf|by apply H4].
  - intros x Hx Hn b Hb. apply list_elem_of_lookup in Hb as [i Hi]. rewrite list_lookup_imap in Hi.
    apply fmap_Some in Hi as (b0 & Hb & ->). apply list_elem_of_lookup_2 in Hb.
    specialize (H7 x Hx Hn b0 Hb). pose proof (ra_act _ _ (Hf i b0)). lia.
Qed.

Lemma array_ok_fmap a (f : Bank -> Bank) :
  (forall b, raised b (f b)) -> array_ok a -> array_ok (with_banks (f <$> banks a) a).
Proof.
  intros Hf Ha. rewrite <- imap_const. apply (array_ok_raised a (fun _ => f)); done.
Qed.


(** ** The activation window *)

Lemma removelast_take {A} (l : list A) n :
  (n < length l)%nat -> removelast (take (S n) l) = take n l.
Proof.
  intros H. destruct (lookup_lt_is_Some_2 l n H) as [x Hx].
  rewrite (take_S_r _ _ _ Hx). apply removelast_last.
Qed.

Lemma window_push l bk act_tick :
  match activationLimit k with
  | O => window_of (l ++ [mkCommand ACT bk act_tick]) = []
  | S n => window_of (l ++ [mkCommand ACT bk act_tick]) = act_tick :: removelast (window_of l)
  end.
Proof.
  unfold window_of. rewrite activates_snoc, decide_True by done. rewrite reverse_app, reverse_singleton.
  destruct (activationLimit k) as [|n]; [done|]. cbn [timeStamp app take]. f_equal.
  by rewrite removelast_take by (rewrite length_app, length_replicate; lia).
Qed.

Lemma window_members l x : x ∈ window_of l -> x = 0 \/ x ∈ activates l.
Proof.
  unfold window_of. intros Hx%(subseteq_take). apply elem_of_app in Hx as [Hx|Hx].
  - right. by rewrite reverse_Permutation in Hx.
  - left. apply elem_of_replicate in Hx. naive_solver.
Qed.


(** The oldest tick of the window is the activate [activationLimit] ago. *)
Lemma window_oldest l i a :
  (0 < activationLimit k)%nat -> (i + activationLimit k = length (activates l))%nat ->
  activates l !! i = Some a -> last (window_of l) = Some a.
Proof.
  intros Hn Hi Ha. unfold window_of.
  rewrite take_app_le by (rewrite length_reverse; lia).
  rewrite last_lookup, length_take, length_reverse, lookup_take by lia.
  rewrite decide_True, reverse_lookup by lia. rewrite <- Ha. f_equal. lia.
Qed.

Lemma tick_sub_ge a b d : b + d <= a -> 0 <= d -> tick_sub a b <? d = false.
Proof. intros H Hd. unfold tick_sub. destruct (Z.ltb_spec a b); lia. Qed.

Lemma push_activate_ok l bk act_tick a :
  actTicks a = window_of l -> (forall x, x ∈ activates l -> x <= act_tick) ->
  (forall x, last (window_of l) = Some x -> x <> 0 -> x + tXAW k <= act_tick) ->
  exists f, push_activate k act_tick a =
      Ok (with_actTicks (window_of (l ++ [mkCommand ACT bk act_tick])) (with_banks (f <$> banks a) a)) /\
    (forall b, raised b (f b)) /\
    (forall x b, last (window_of (l ++ [mkCommand ACT bk act_tick])) = Some x -> x <> 0 ->
       act_tick <= actAllowedAt b -> x + tXAW k <= actAllowedAt (f b)).
Proof.
  intros Ht Hm Ho. pose proof (ok_xaw k Hk) as Hx. pose proof (window_push l bk act_tick) as Hw.
  unfold push_activate. rewrite Ht. destruct (activationLimit k) as [|n] eqn:En.
  - assert (window_of l = []) as -> by (unfold window_of; by rewrite En). cbn.
    exists id. rewrite Hw, list_fmap_id. split; [|split; [apply raised_refl|done]].
    destruct a. cbn in *. rewrite Ht. unfold window_of. by rewrite En.
  - destruct (last (window_of l)) as [oldest|] eqn:El.
    2: { apply last_None in El. apply (f_equal length) in El. unfold window_of in El.
         rewrite length_take, length_app, length_replicate, En in El. change (length []) with O in El. lia. }
    assert (negb (oldest =? 0) && (tick_sub act_tick oldest <? tXAW k) = false) as ->.
    { destruct (Z.eqb_spec oldest 0); [done|]. cbn. apply tick_sub_ge; [by apply Ho|done]. }
    cbn [panic_if mbind res_bind]. rewrite <- Hw.
    set (w := window_of (l ++ _)) in *. destruct (last w) as [o|] eqn:Ew.
    2: { apply last_None in Ew. rewrite Hw in Ew. done. }
    assert (o <> 0 -> o <= act_tick) as Hle.
    { intros Hne. apply last_Some_elem_of in Ew. apply window_members in Ew as [?|Ew]; [done|].
      rewrite activates_snoc, decide_True in Ew by done. cbn in Ew.
      apply elem_of_app in Ew as [Ew|Ew]; [auto|apply list_elem_of_singleton in Ew; lia]. }
    unfold id. cbn [from_option]. destruct (negb (o =? 0) && (tick_sub act_tick o <? tXAW k)) eqn:Ec.
    + exists (max_act (o + tXAW k)). split; [done|]. split; [apply raised_max_act|].
      intros x b [= <-] _ _. cbn. lia.
    + exists (fun b => b). rewrite list_fmap_id. split; [by destruct a|]. split; [apply raised_refl|].
      intros x b [= <-] Hne Hb. cbn. specialize (Hle Hne).
      assert (o =? 0 = false) as Ez by lia. rewrite Ez in Ec. cbn in Ec.
      unfold tick_sub in Ec. destruct (Z.ltb_spec act_tick o); lia.
Qed.


(** ** Issuing a command *)

Definition PREc (i : nat) : Command := mkCommand PRE (Z.of_nat i) 0.
Definition ACTc (i : nat) : Command := mkCommand ACT (Z.of_nat i) 0.
Definition RDc (i : nat) : Command := mkCommand RD (Z.of_nat i) 0.
Definition WRc (i : nat) : Command := mkCommand WR (Z.of_nat i) 0.

(** How bank [i] may change when the command [x] is issued. *)
Record issues (x : Command) (i : nat) (b b' : Bank) : Prop := {
  is_group : bankgr b' = bankgr b;
  is_row : 0 <= openRow b' <= NO_ROW;
  is_opens : opens (Z.of_nat i) (negb (is_closed b)) x = negb (is_closed b');
  is_actAllowed : actAllowedAt b <= actAllowedAt b';
  is_rdAllowed : rdAllowedAt b <= rdAllowedAt b';
  is_wrAllowed : wrAllowedAt b <= wrAllowedAt b';
  is_preAllowed : preAllowedAt b <= preAllowedAt b' \/
    (is_closed b = true /\ actAllowedAt b <= preAllowedAt b' + tRP k);
  is_closing : is_closed b' = true -> is_closed b = true \/ preAllowedAt b + tRP k <= actAllowedAt b';
  is_new_pre : forall d, gap x (PREc i) = Some d -> timeStamp x + d <= preAllowedAt b' /\
    (is_closed b' = true -> timeStamp x + d + tRP k <= actAllowedAt b');
  is_new_act : forall d, gap x (ACTc i) = Some d -> timeStamp x + d <= actAllowedAt b';
  is_new_rd : forall d, gap x (RDc i) = Some d -> timeStamp x + d <= rdAllowedAt b';
  is_new_wr : forall d, gap x (WRc i) = Some d -> timeStamp x + d <= wrAllowedAt b'
}.

Lemma bank_ok_issues l x i b b' : bank_ok l i b -> issues x i b b' -> bank_ok (l ++ [x]) i b'.
Proof.
  intros [H1 H2 H3 H4 H5 H6 H7 H8] [I1 I2 I3 I4 I5 I6 I7 I8 I9 I10 I11 I12]. split.
  - congruence.
  - done.
  - by rewrite is_open_snoc, H3.
  - intros y d [Hy| ->%list_elem_of_singleton]%elem_of_app Hd; [|by apply I9].
    destruct I7 as [?|[E ?]]; [specialize (H4 y d Hy Hd); lia|]. specialize (H8 E y d Hy Hd). lia.
  - intros y d [Hy| ->%list_elem_of_singleton]%elem_of_app Hd; [|by apply I10].
    specialize (H5 y d Hy Hd). lia.
  - intros y d [Hy| ->%list_elem_of_singleton]%elem_of_app Hd; [|by apply I11].
    specialize (H6 y d Hy Hd). lia.
  - intros y d [Hy| ->%list_elem_of_singleton]%elem_of_app Hd; [|by apply I12].
    specialize (H7 y d Hy Hd). lia.
  - intros E y d [Hy| ->%list_elem_of_singleton]%elem_of_app Hd; [|by apply I9].
    destruct (I8 E) as [Ec|?]; [specialize (H8 Ec y d Hy Hd); lia|]. specialize (H4 y d Hy Hd). lia.
Qed.

(** The banks after a command. *)
Definition all_issue (x : Command) (bs bs' : list Bank) : Prop :=
  length bs' = length bs /\
  forall i b b', bs !! i = Some b -> bs' !! i = Some b' -> issues x i b b'.

(** A command that is no activate. *)
Lemma array_ok_issue a a' x :
  array_ok a -> type x <> ACT -> 0 < timeStamp x -> 0 <= cbank x < banksPerRank c ->
  all_issue x (banks a) (banks a') -> issued a' = issued a ++ [x] -> actTicks a' = actTicks a ->
  numBanksActive a' = Z.of_nat (open_banks (banks a')) ->
  allowed (issued a) x -> (forall y, y ∈ issued a -> respects k group y x) -> array_ok a'.
Proof.
  intros [H1 H2 H3 H4 H5 H6 H7 H8 H9] Hna Ht Hb [Hl Hi] Eis Eat Hn Ha Hr.
  assert (activates (issued a') = activates (issued a)) as Eact
    by (rewrite Eis, activates_snoc, decide_False, app_nil_r by done; done).
  assert (forall i b', banks a' !! i = Some b' -> exists b, banks a !! i = Some b) as Hd.
  { intros i b' Hb'. apply lookup_lt_Some in Hb'. rewrite Hl in Hb'. by apply lookup_lt_is_Some_2. }
  split.
  - congruence.
  - by rewrite Hl.
  - done.
  - intros i b' Hb'. destruct (Hd i b' Hb') as [b Hib]. rewrite Eis. eapply bank_ok_issues; eauto.
  - rewrite Eis. intros y [Hy| ->%list_elem_of_singleton]%elem_of_app; [auto|done].
  - rewrite Eat, H6. unfold window_of. by rewrite Eact.
  - rewrite Eat. intros y Hy Hne b' Hb'. apply list_elem_of_lookup in Hb' as [i Hb'].
    destruct (Hd i b' Hb') as [b Hib]. pose proof (is_actAllowed _ _ _ _ (Hi i b b' Hib Hb')).
    specialize (H7 y Hy Hne b ltac:(by eapply list_elem_of_lookup_2)). lia.
  - rewrite Eis. apply protocol_snoc; [done|done|by apply Forall_forall].
  - unfold windowed. rewrite Eact. apply H9.
Qed.

(** An activate of the closed bank [bk]. *)
Lemma array_ok_activate a bk b bs act_tick f :
  array_ok a -> banks a !! bk = Some b -> is_closed b = true ->
  actAllowedAt b <= act_tick -> 0 < act_tick ->
  let x := mkCommand ACT (Z.of_nat bk) act_tick in
  all_issue x (banks a) bs -> (forall o, o ∈ bs -> act_tick <= actAllowedAt o) ->
  (forall o, raised o (f o)) ->
  (forall y o, last (window_of (issued a ++ [x])) = Some y -> y <> 0 -> act_tick <= actAllowedAt o ->
     y + tXAW k <= actAllowedAt (f o)) ->
  open_banks bs = S (open_banks (banks a)) ->
  array_ok (mkArray (f <$> bs) (numBanksActive a + 1) (window_of (issued a ++ [x]))
    (cmdList a ++ [x]) (powerlib a) (issued a ++ [x])).
Proof.
  intros [H1 H2 H3 H4 H5 H6 H7 H8 H9] Hb Hc Hact Ht x [Hl Hi] Hbs Hf Hwin Hopen.
  pose proof (H4 bk b Hb) as Hbk.
  assert (forall i b', bs !! i = Some b' -> exists b, banks a !! i = Some b) as Hd.
  { intros i b' Hb'. apply lookup_lt_Some in Hb'. rewrite Hl in Hb'. by apply lookup_lt_is_Some_2. }
  split; cbn [banks numBanksActive actTicks issued]; rewrite ?length_fmap.
  - congruence.
  - by rewrite Hl.
  - rewrite open_banks_fmap by (intros o; apply (ra_row _ _ (Hf o))). lia.
  - intros i b' Hb'. rewrite list_lookup_fmap in Hb'. apply fmap_Some in Hb' as (o & Ho & ->).
    destruct (Hd i o Ho) as [b0 Hib]. eapply bank_ok_raised; [done|].
    eapply bank_ok_issues; eauto.
  - intros y [Hy| ->%list_elem_of_singleton]%elem_of_app; [auto|]. split; [done|].
    apply lookup_lt_Some in Hb. cbn. lia.
  - done.
  - intros y Hy Hne b' Hb'. apply list_elem_of_fmap in Hb' as (o & -> & Ho). eauto.
  - apply protocol_snoc; [done| |].
    + unfold allowed. cbn. rewrite (bk_open _ _ _ Hbk), Hc. done.
    + apply Forall_forall. intros y Hy d Hd'. pose proof (bk_act _ _ _ Hbk y d Hy Hd'). cbn. lia.
  - intros i a1 a2. rewrite activates_snoc, decide_True by done. cbn [timeStamp x].
    intros E1 E2 Hlim. destruct (decide (i + activationLimit k < length (activates (issued a)))%nat) as [Hlt|Hge].
    + rewrite lookup_app_l in E1, E2 by lia. by eapply H9.
    + rewrite lookup_app_r in E2 by lia.
      destruct (i + activationLimit k - length (activates (issued a)))%nat as [|m] eqn:Em; [|by destruct m].
      cbn in E2. injection E2 as <-. rewrite lookup_app_l in E1 by lia.
      pose proof (window_oldest (issued a) i a1 Hlim ltac:(lia) E1) as Hlast.
      assert (0 < a1) as Hpos.
      { apply list_elem_of_lookup_2 in E1. unfold activates in E1. apply list_elem_of_fmap in E1 as (y & -> & Hy).
        apply list_elem_of_filter in Hy as [_ Hy]. by apply H5. }
      rewrite <- H6 in Hlast. specialize (H7 a1 Hlast ltac:(lia) b ltac:(by eapply list_elem_of_lookup_2)). lia.
Qed.


(** ** The operations *)

(** What accesses elsewhere see of the banks: column commands wait longer. *)
Definition later (bs bs' : list Bank) : Prop :=
  length bs' = length bs /\
  forall i b b', bs !! i = Some b -> bs' !! i = Some b' ->
    bankgr b' = bankgr b /\ rdAllowedAt b <= rdAllowedAt b' /\ wrAllowedAt b <= wrAllowedAt b'.

Lemma later_refl bs : later bs bs.
Proof. split; [done|]. intros i b b' H1 H2. assert (b = b') as -> by congruence. repeat split; lia. Qed.

Lemma later_trans bs1 bs2 bs3 : later bs1 bs2 -> later bs2 bs3 -> later bs1 bs3.
Proof.
  intros [L1 H1] [L2 H2]. split; [congruence|]. intros i b b' Hb Hb'.
  destruct (lookup_lt_is_Some_2 bs2 i) as [o Ho]; [rewrite L1; by eapply lookup_lt_Some|].
  destruct (H1 i b o Hb Ho) as (? & ? & ?). destruct (H2 i o b' Ho Hb') as (? & ? & ?).
  repeat split; [congruence|lia..].
Qed.

Lemma later_issue x bs bs' : all_issue x bs bs' -> later bs bs'.
Proof.
  intros [Hl H]. split; [done|]. intros i b b' Hb Hb'. destruct (H i b b' Hb Hb'). repeat split; done.
Qed.

Lemma later_raised bs (f : nat -> Bank -> Bank) :
  (forall i b, raised b (f i b)) -> later bs (imap f bs).
Proof.
  intros Hf. split; [apply length_imap|]. intros i b b' Hb Hb'.
  rewrite list_lookup_imap, Hb in Hb'. injection Hb' as <-. destruct (Hf i b). repeat split; done.
Qed.

Lemma later_fmap bs (f : Bank -> Bank) : (forall b, raised b (f b)) -> later bs (f <$> bs).
Proof. intros Hf. rewrite <- imap_const. by apply later_raised. Qed.

(** The commands [new] are issued, not before [now], and wait for the power model. *)
Definition logs (now : Z) (new : list Command) (a a' : Array) : Prop :=
  issued a' = issued a ++ new /\ cmdList a' = cmdList a ++ new /\ powerlib a' = powerlib a /\
  Forall (fun x => now <= timeStamp x) new.

Lemma logs_trans now l1 l2 a1 a2 a3 : logs now l1 a1 a2 -> logs now l2 a2 a3 -> logs now (l1 ++ l2) a1 a3.
Proof.
  intros (I1 & C1 & P1 & F1) (I2 & C2 & P2 & F2). unfold logs.
  rewrite I2, I1, C2, C1, P2, P1, !app_assoc. split; [done|]. split; [done|]. split; [done|]. by apply Forall_app.
Qed.

(** The parts of a rank that a command leaves alone, but for the events [es]. *)
Definition frame (es : list Ev) (r r' : Rank) : Prop :=
  rankNo r' = rankNo r /\ readEntries r' = readEntries r /\ writeEntries r' = writeEntries r /\
  forall e, e ∉ es -> event_at r' e = event_at r e.

Lemma activate_issues bk b act_tick row i o :
  let x := mkCommand ACT (Z.of_nat bk) act_tick in
  let b1 := with_col (Z.max (act_tick + tRCD k) (rdAllowedAt b)) (Z.max (act_tick + tRCD k) (wrAllowedAt b))
    (with_pre (act_tick + tRAS k) (with_count 0 0 (with_row row b))) in
  let delay o := if bankGroupArch k && (bankgr b =? bankgr o) then tRRD_L k else tRRD k in
  let o1 := if decide (i = bk) then b1 else o in
  0 <= row < NO_ROW -> is_closed b = true -> actAllowedAt b <= act_tick ->
  bankgr b = group (Z.of_nat bk) -> bankgr o = group (Z.of_nat i) ->
  0 <= openRow o <= NO_ROW -> (i = bk -> o = b) ->
  issues x i o (max_act (act_tick + delay o1) o1).
Proof.
  intros x b1 delay o1 Hrow Hc Hact Hgb Hgo Hro Heq.
  pose proof (ok_rcd k Hk). pose proof (ok_ras k Hk). pose proof (ok_rp k Hk).
  assert (is_closed b1 = false) as Hc1 by (unfold is_closed; cbn; apply Z.eqb_neq; lia).
  assert (bankgr o1 = group (Z.of_nat i)) as Hg1.
  { unfold o1. case_decide; [subst i; exact Hgb|done]. }
  assert (forall d, gap x (ACTc i) = Some d -> d = delay o1) as Hd.
  { intros d. cbn. unfold delay. rewrite Hg1, Hgb. intros [= <-]. done. }
  unfold o1. destruct (decide (i = bk)) as [->|Hne].
  - specialize (Heq eq_refl). subst o. split; cbn; try done; try lia.
    + unfold is_closed in Hc1. cbn in Hc1. rewrite Z.eqb_refl. unfold is_closed. cbn. by rewrite Hc1.
    + right. split; [done|lia].
    + unfold is_closed. cbn. intros E. unfold is_closed in Hc1. cbn in Hc1. congruence.
    + rewrite Z.eqb_refl. intros d [= <-]. split; [lia|]. unfold is_closed. cbn. intros E.
      unfold is_closed in Hc1. cbn in Hc1. congruence.
    + intros d Hd'. rewrite (Hd d Hd'). subst o1. lia.
    + rewrite Z.eqb_refl. intros d [= <-]. lia.
    + rewrite Z.eqb_refl. intros d [= <-]. lia.
  - assert (Z.of_nat bk =? Z.of_nat i = false) as En by (apply Z.eqb_neq; lia).
    split; cbn; rewrite ?En; try done; try lia.
    + by left.
    + intros d Hd'. rewrite (Hd d Hd'). subst o1. lia.
Qed.


(** The tick of the activate event after an activate. *)
Definition sooner (w : option Z) (tick : Z) : option Z :=
  Some (match w with Some w => Z.min w tick | None => tick end).

(** The banks after an activate, before the activation window. *)
Definition activated (bk : nat) (b : Bank) (act_tick row : Z) (bs : list Bank) : list Bank :=
  let b1 := with_col (Z.max (act_tick + tRCD k) (rdAllowedAt b)) (Z.max (act_tick + tRCD k) (wrAllowedAt b))
    (with_pre (act_tick + tRAS k) (with_count 0 0 (with_row row b))) in
  let delay o := if bankGroupArch k && (bankgr b =? bankgr o) then tRRD_L k else tRRD k in
  (fun o => max_act (act_tick + delay o) o) <$> <[bk := b1]> bs.

Lemma activated_issues a bk b act_tick row :
  array_ok a -> banks a !! bk = Some b -> is_closed b = true -> actAllowedAt b <= act_tick ->
  0 <= row < NO_ROW ->
  all_issue (mkCommand ACT (Z.of_nat bk) act_tick) (banks a) (activated bk b act_tick row (banks a)) /\
  (forall o, o ∈ activated bk b act_tick row (banks a) -> act_tick <= actAllowedAt o) /\
  open_banks (activated bk b act_tick row (banks a)) = S (open_banks (banks a)) /\
  (exists b', activated bk b act_tick row (banks a) !! bk = Some b' /\ openRow b' = row /\
    preAllowedAt b' = act_tick + tRAS k) /\
  forall i o, banks a !! i = Some o -> i <> bk -> exists o', activated bk b act_tick row (banks a) !! i = Some o' /\
    raised o o'.
Proof.
  intros Ha Hb Hc Hact Hrow. pose proof (ok_rrd k Hk). pose proof (ok_rrd_l k Hk).
  pose proof (ar_bank a Ha bk b Hb) as Hbk. pose proof (lookup_lt_Some _ _ _ Hb) as Hlt.
  unfold activated. set (b1 := with_col _ _ _). split; [split|split; [|split]].
  - by rewrite length_fmap, length_insert.
  - intros i o o' Ho Ho'. pose proof (ar_bank a Ha i o Ho) as Hoi.
    pose proof (activate_issues bk b act_tick row i o Hrow Hc Hact (bk_group _ _ _ Hbk)
      (bk_group _ _ _ Hoi) (bk_row _ _ _ Hoi) ltac:(intros ->; congruence)) as Hi.
    cbn zeta in Hi. rewrite list_lookup_fmap in Ho'. destruct (decide (i = bk)) as [->|Hne].
    + rewrite list_lookup_insert_eq in Ho' by done. injection Ho' as <-. exact Hi.
    + rewrite list_lookup_insert_ne, Ho in Ho' by done. injection Ho' as <-. exact Hi.
  - intros o (o0 & -> & _)%list_elem_of_fmap. cbn. destruct (bankGroupArch k && _); lia.
  - rewrite open_banks_fmap by done. pose proof (open_banks_insert _ _ _ b1 Hb) as E.
    assert (is_closed b1 = false) as Hc1 by (unfold is_closed; cbn; apply Z.eqb_neq; lia).
    rewrite Hc, Hc1 in E. lia.
  - split.
    + rewrite list_lookup_fmap, list_lookup_insert_eq by done. eexists. split; [done|]. done.
    + intros i o Ho Hne. rewrite list_lookup_fmap, list_lookup_insert_ne, Ho by done.
      eexists. split; [done|]. apply raised_max_act.
Qed.

(** An event is scheduled, or moved to an earlier tick. *)
Lemma sooner_event now tick r :
  now <= tick ->
  exists r', match event_at r Activate with
    | None => schedule now Activate tick r
    | Some w => if tick <? w then reschedule now Activate tick r else Ok r
    end = Ok r' /\ array r' = array r /\ machine r' = machine r /\ frame [Activate] r r' /\
    event_at r' Activate = sooner (event_at r Activate) tick.
Proof.
  intros Hn. unfold schedule, reschedule, scheduled. rewrite (proj2 (Z.leb_le now tick) Hn).
  destruct (event_at r Activate) as [w|] eqn:E; cbn.
  - destruct (Z.ltb_spec tick w).
    + eexists. split; [done|]. repeat split; [|unfold sooner; cbn; by rewrite Z.min_r by lia].
      intros e He. cbn. by rewrite decide_False by set_solver.
    + eexists. split; [done|]. repeat split. rewrite E. unfold sooner. by rewrite Z.min_l by lia.
  - eexists. split; [done|]. repeat split. intros e He. cbn. by rewrite decide_False by set_solver.
Qed.

Lemma activateBank_ok now bk act_tick row r b :
  array_ok (array r) -> banks (array r) !! bk = Some b -> is_closed b = true ->
  actAllowedAt b <= act_tick -> now <= act_tick -> 0 < act_tick -> 0 <= row < NO_ROW ->
  exists r' b', activateBank c k now bk act_tick row r = Ok r' /\ array_ok (array r') /\
    machine r' = machine r /\ frame [Activate] r r' /\
    event_at r' Activate = sooner (event_at r Activate) act_tick /\
    banks (array r') !! bk = Some b' /\ openRow b' = row /\
    later (banks (array r)) (banks (array r')) /\
    logs now [mkCommand ACT (Z.of_nat bk) act_tick] (array r) (array r') /\
    preAllowedAt b' >= act_tick + tRAS k /\
    forall i o, banks (array r) !! i = Some o -> i <> bk -> exists o', banks (array r') !! i = Some o' /\ raised o o'.
Proof.
  intros Ha Hb Hc Hact Hnow Hpos Hrow. pose proof Ha as [H1 H2 H3 H4 H5 H6 H7 H8 H9].
  pose proof (open_banks_closed _ _ _ Hb Hc) as Hlt.
  destruct (activated_issues _ bk b act_tick row Ha Hb Hc Hact Hrow) as (Hall & Hacts & Hopen & (b' & Hb' & Hr' & Hpr) & Hothers).
  unfold activateBank. set (a := array r) in *.
  assert (length (actTicks a) = activationLimit k) as Hlen
    by (rewrite H6; unfold window_of; rewrite length_take, length_app, length_replicate; lia).
  rewrite bool_decide_eq_true_2 by done. cbn [assert_that mbind res_bind]. rewrite Hb. cbn [deref mbind res_bind].
  change (openRow b =? NO_ROW) with (is_closed b). rewrite Hc. cbn [assert_that mbind res_bind].
  cbn [numBanksActive with_active]. rewrite u32_id by (unfold is_u32; lia).
  rewrite (proj2 (Z.leb_le (numBanksActive a + 1) (banksPerRank c))) by lia. cbn [assert_that mbind res_bind].
  match goal with |- context [with_banks ?l (push_cmd _ _ _ _)] =>
    change l with (activated bk b act_tick row (banks a)) end.
  set (bs := activated _ _ _ _ _) in *. set (x := mkCommand ACT (Z.of_nat bk) act_tick) in *.
  destruct (push_activate_ok (issued a) (Z.of_nat bk) act_tick
    (with_banks bs (push_cmd ACT (Z.of_nat bk) act_tick (with_active (numBanksActive a + 1) a))))
    as (f & -> & Hf & Hwin); [done| | |].
  { intros y Hy. unfold activates in Hy. apply list_elem_of_fmap in Hy as (z & -> & [Hz1 Hz2]%list_elem_of_filter).
    pose proof (bk_act _ _ _ (H4 bk b Hb) z) as Hg. unfold gap, DramTiming.gap in Hg. rewrite Hz1 in Hg. cbn in Hg.
    specialize (Hg _ Hz2 eq_refl). pose proof (ok_rrd k Hk). pose proof (ok_rrd_l k Hk).
    destruct (bankGroupArch k && _); lia. }
  { intros y Hy Hne. rewrite <- H6 in Hy. specialize (H7 y Hy Hne b ltac:(by eapply list_elem_of_lookup_2)). lia. }
  cbn [mbind res_bind].
  pose proof (array_ok_activate a bk b bs act_tick f Ha Hb Hc Hact Hpos Hall Hacts Hf Hwin Hopen) as Ha'.
  match goal with |- context [with_array ?A r] => set (r1 := with_array A r) end.
  destruct (sooner_event now act_tick r1 Hnow) as (r' & E & Earr & Em & Hfr & Eev).
  exists r', (f b'). split; [exact E|]. rewrite Earr, Em, Eev.
  split; [exact Ha'|]. split; [done|]. split; [exact Hfr|]. split; [done|].
  split; [cbn; by rewrite list_lookup_fmap, Hb'|]. split; [by rewrite (ra_row _ _ (Hf b'))|].
  split; [eapply later_trans; [by eapply later_issue|by apply later_fmap]|].
  split; [repeat split; by repeat constructor|]. split; [pose proof (ra_pre _ _ (Hf b')); lia|].
  intros i o Ho Hne. destruct (Hothers i o Ho Hne) as (o' & Ho' & Hra).
  exists (f o'). split; [cbn; by rewrite list_lookup_fmap, Ho'|]. by eapply raised_trans.
Qed.


(** A bank that the command does not concern. *)
Lemma issues_none x i l o :
  bank_ok l i o -> gap x (PREc i) = None -> gap x (ACTc i) = None -> gap x (RDc i) = None ->
  gap x (WRc i) = None -> (forall v, opens (Z.of_nat i) v x = v) -> issues x i o o.
Proof.
  intros Ho E1 E2 E3 E4 E5.
  split; [done|exact (bk_row _ _ _ Ho)|apply E5|lia|lia|lia|left; lia|by left|intros d; congruence..].
Qed.

Lemma issues_other x i l o :
  bank_ok l i o -> type x = PRE \/ type x = RD \/ type x = WR -> cbank x <> Z.of_nat i -> issues x i o o.
Proof.
  intros Ho Hx Hb. apply Z.eqb_neq in Hb.
  apply (issues_none _ _ l); [done|..]; unfold gap, DramTiming.gap, opens;
    destruct Hx as [->|[->| ->]]; cbn; rewrite ?Hb; done.
Qed.

(** The bank [bk] changes, the others do not. *)
Lemma insert_issues x bk b b' a :
  array_ok a -> banks a !! bk = Some b -> cbank x = Z.of_nat bk ->
  type x = PRE \/ type x = RD \/ type x = WR -> issues x bk b b' ->
  all_issue x (banks a) (<[bk := b']> (banks a)).
Proof.
  intros Ha Hb Hx Ht Hi. split; [apply length_insert|]. intros i o o' Ho Ho'.
  destruct (decide (bk = i)) as [<-|Hne].
  - rewrite list_lookup_insert_eq in Ho' by (by eapply lookup_lt_Some).
    injection Ho' as <-. assert (o = b) as -> by congruence. done.
  - rewrite list_lookup_insert_ne, Ho in Ho' by done. injection Ho' as <-.
    eapply issues_other; [by eapply ar_bank|done|lia].
Qed.

Definition precharged (pre_at : Z) (b : Bank) : Bank :=
  max_act (pre_at + tRP k) (with_pre pre_at (with_row NO_ROW b)).

Lemma precharged_issues bk b pre_at l :
  bank_ok l bk b -> is_closed b = false -> preAllowedAt b <= pre_at ->
  issues (mkCommand PRE (Z.of_nat bk) pre_at) bk b (precharged pre_at b).
Proof.
  intros Hb Hc Hp. pose proof (ok_rp k Hk).
  split; cbn; rewrite ?Z.eqb_refl; try done; try lia; try (intros d; congruence).
  - intros d [= <-]. split; [lia|]. intros _. lia.
  - intros d [= <-]. lia.
Qed.

(** The tick of the precharge event after a precharge, and the machine, which
    counts the event. *)
Definition later_of (w : option Z) (tick : Z) : option Z :=
  Some (match w with Some w => Z.max w tick | None => tick end).
Definition counted (w : option Z) (m : Machine) : Machine :=
  match w with
  | None => with_outstanding (u8 (outstandingEvents m + 1)) m
  | Some _ => m
  end.

Lemma later_event now tick r :
  now <= tick ->
  exists r', match event_at r Precharge with
    | None => r ← schedule now Precharge tick r;
        Ok (on_machine (fun m => with_outstanding (u8 (outstandingEvents m + 1)) m) r)
    | Some w => if w <? tick then reschedule now Precharge tick r else Ok r
    end = Ok r' /\ array r' = array r /\ machine r' = counted (event_at r Precharge) (machine r) /\
    frame [Precharge] r r' /\ event_at r' Precharge = later_of (event_at r Precharge) tick.
Proof.
  intros Hn. unfold schedule, reschedule, scheduled. rewrite (proj2 (Z.leb_le now tick) Hn).
  destruct (event_at r Precharge) as [w|] eqn:E; cbn.
  - destruct (Z.ltb_spec w tick).
    + eexists. split; [done|]. repeat split; [|unfold later_of; cbn; by rewrite Z.max_r by lia].
      intros e He. cbn. by rewrite decide_False by set_solver.
    + eexists. split; [done|]. repeat split. rewrite E. unfold later_of. by rewrite Z.max_l by lia.
  - eexists. split; [done|]. repeat split. intros e He. cbn. by rewrite decide_False by set_solver.
Qed.

Lemma prechargeBank_ok now bk pre_at r b :
  array_ok (array r) -> banks (array r) !! bk = Some b -> is_closed b = false ->
  preAllowedAt b <= pre_at -> now <= pre_at -> 0 < pre_at ->
  exists r', prechargeBank k now bk pre_at true r = Ok r' /\ array_ok (array r') /\
    machine r' = counted (event_at r Precharge) (machine r) /\ frame [Precharge] r r' /\
    event_at r' Precharge = later_of (event_at r Precharge) (pre_at + tRP k) /\
    banks (array r') = <[bk := precharged pre_at b]> (banks (array r)) /\
    logs now [mkCommand PRE (Z.of_nat bk) pre_at] (array r) (array r').
Proof.
  intros Ha Hb Hc Hp Hn Hpos. pose proof (ok_rp k Hk).
  pose proof (ar_bank _ Ha bk b Hb) as Hbk. pose proof (lookup_lt_Some _ _ _ Hb) as Hlt.
  pose proof (open_banks_open _ _ _ Hb Hc) as Ho. pose proof (ar_active _ Ha) as Hact.
  unfold prechargeBank. rewrite Hb. cbn [deref mbind res_bind].
  change (openRow b =? NO_ROW) with (is_closed b). rewrite Hc. cbn [negb assert_that mbind res_bind].
  cbn [numBanksActive with_banks].
  assert (numBanksActive (array r) =? 0 = false) as -> by (apply Z.eqb_neq; lia).
  cbn [negb assert_that mbind res_bind].
  match goal with |- context [with_array ?A r] => set (r1 := with_array A r) end.
  destruct (later_event now (pre_at + tRP k) r1 ltac:(lia)) as (r' & E & Earr & Em & Hf & Eev).
  exists r'. split; [exact E|]. rewrite Earr, Em, Eev.
  split; [|repeat (split; [done|]); repeat split; by repeat constructor].
  assert (is_closed (precharged pre_at b) = true) as Hc' by done.
  pose proof (open_banks_insert _ _ _ (precharged pre_at b) Hb) as Hcount. rewrite Hc, Hc' in Hcount.
  apply (array_ok_issue (array r) _ (mkCommand PRE (Z.of_nat bk) pre_at)); try done.
  - pose proof (ar_banks _ Ha). cbn. lia.
  - eapply insert_issues; [done|done|done|by left|]. by eapply precharged_issues.
  - change (numBanksActive (array r) - 1 =
      Z.of_nat (open_banks (<[bk := precharged pre_at b]> (banks (array r))))). lia.
  - unfold allowed. cbn. by rewrite (bk_open _ _ _ Hbk), Hc.
  - intros y Hy d Hd. pose proof (bk_pre _ _ _ Hbk y d Hy Hd). cbn. lia.
Qed.


(** A command that concerns no bank. *)
Lemma array_ok_push a type tick :
  array_ok a -> 0 < banksPerRank c -> 0 < tick ->
  type = PUP_ACT \/ type = PUP_PRE \/ type = SREX \/ type = PDN_F_ACT \/ type = PDN_F_PRE \/ type = SREN ->
  array_ok (push_cmd type 0 tick a).
Proof.
  intros Ha Hb Ht Hty. apply (array_ok_issue a _ (mkCommand type 0 tick)); try done.
  - by destruct Hty as [->|[->|[->|[->|[->| ->]]]]].
  - split; [done|]. cbn. intros i b b' H1 H2. assert (b' = b) as -> by congruence.
    apply (issues_none _ _ (issued a)); [by eapply ar_bank|..];
      by destruct Hty as [->|[->|[->|[->|[->| ->]]]]].
  - apply Ha.
  - by destruct Hty as [->|[->|[->|[->|[->| ->]]]]].
  - intros y Hy d Hd. exfalso. revert Hd. unfold gap, DramTiming.gap. cbn.
    destruct (DramRank.type y), Hty as [->|[->|[->|[->|[->| ->]]]]]; done.
Qed.

(** What waking up does to the machine. *)
Definition woken (m : Machine) : Machine :=
  with_low false (with_post (if bool_decide (refreshState m = REF_PD_EXIT) then pwrState m else PWR_IDLE) m).

Definition waken (t : Z) (b : Bank) : Bank :=
  with_act (Z.max t (actAllowedAt b)) (with_pre (Z.max t (preAllowedAt b))
    (with_col (Z.max t (rdAllowedAt b)) (Z.max t (wrAllowedAt b)) b)).

Lemma scheduleWakeUpEvent_ok now exit_delay r :
  array_ok (array r) -> 0 < banksPerRank c -> 0 < now -> event_at r WakeUp = None ->
  exists r', scheduleWakeUpEvent now exit_delay r = Ok r' /\ array_ok (array r') /\
    machine r' = woken (machine r) /\ frame [WakeUp] r r' /\
    event_at r' WakeUp = Some (Z.max now (wakeUpAllowedAt (machine r))) /\
    later (banks (array r)) (banks (array r')).
Proof.
  intros Ha Hb Hn Hw. unfold scheduleWakeUpEvent, schedule, scheduled. cbn. rewrite Hw.
  rewrite (proj2 (Z.leb_le now (Z.max now (wakeUpAllowedAt (machine r))))) by lia. cbn.
  set (tick := Z.max now _). set (wake := waken (tick + exit_delay)).
  assert (forall b, raised b (wake b)) as Hraise by (intros b; split; cbn; done || lia).
  pose proof (array_ok_fmap _ wake Hraise Ha) as Ha1.
  assert (forall ty, ty = PUP_ACT \/ ty = PUP_PRE \/ ty = SREX ->
    array_ok (push_cmd ty 0 tick (with_banks (wake <$> banks (array r)) (array r)))) as Hpush.
  { intros ty Hty. apply array_ok_push; [done|done|lia|tauto]. }
  eexists. split; [done|].
  assert (forall r2 : Rank, (exists A, array r2 = A /\ array_ok A /\ banks A = wake <$> banks (array r)) ->
    machine r2 = woken (machine r) -> frame [WakeUp] r r2 -> event_at r2 WakeUp = Some tick ->
    array_ok (array r2) /\ machine r2 = woken (machine r) /\ frame [WakeUp] r r2 /\
    event_at r2 WakeUp = Some tick /\ later (banks (array r)) (banks (array r2))) as Hend.
  { intros r2 (A & -> & HA & EA) Hm Hf He. rewrite EA. repeat (split; [done|]). by apply later_fmap. }
  assert (forall e, e ∉ [WakeUp] -> (if decide (e = WakeUp) then Some tick else event_at r e) = event_at r e) as Hev
    by (intros e He; by rewrite decide_False by set_solver).
  apply Hend.
  - destruct (pwrStateTrans (machine r)); eexists; (split; [reflexivity|]);
      (split; [first [exact Ha1|apply Hpush; tauto]|done]).
  - by destruct (pwrStateTrans (machine r)).
  - destruct (pwrStateTrans (machine r)); by repeat split.
  - by destruct (pwrStateTrans (machine r)).
Qed.

Lemma frame_refl es r : frame es r r.
Proof. by repeat split. Qed.

Lemma frame_trans es1 es2 r1 r2 r3 : frame es1 r1 r2 -> frame es2 r2 r3 -> frame (es1 ++ es2) r1 r3.
Proof.
  intros (F1 & F2 & F3 & F4) (G1 & G2 & G3 & G4). repeat split; [congruence..|].
  intros e He. rewrite G4, F4 by set_solver. done.
Qed.

(** ** What a rank goes through in an access *)

(** Something that is over at [t] is over before all banks are precharged. *)
Definition covered (r : Rank) (t : Z) : Prop :=
  (exists w, event_at r Precharge = Some w /\ t < w) \/
  (exists b, b ∈ banks (array r) /\ is_closed b = false /\ t < preAllowedAt b + tRP k).

(** A rank that is awake after some commands: the events and counters, and what
    they cover. *)
Record effect (now : Z) (r r' : Rank) : Prop := {
  ef_machine : machine r' =
    match event_at r Precharge, event_at r' Precharge with
    | None, Some _ => counted None (machine r)
    | _, _ => machine r
    end;
  ef_frame : frame [Precharge; Activate] r r';
  ef_precharge : forall w, event_at r Precharge = Some w ->
    exists w', event_at r' Precharge = Some w' /\ w <= w';
  ef_future : forall w, event_at r' Precharge = Some w -> event_at r Precharge = Some w \/ now <= w;
  ef_activate : event_at r' Activate = event_at r Activate \/
    exists a, event_at r' Activate = Some a /\ (now <= a \/ event_at r Activate = Some a) /\ covered r' a;
  ef_covered : forall t, covered r t -> covered r' t;
  ef_logs : exists new, logs now new (array r) (array r');
  ef_issued : forall x, x ∈ issued (array r') -> x ∈ issued (array r) \/ type x <> REF /\
    (type x = PRE \/ type x = PREA ->
     exists w, event_at r' Precharge = Some w /\ timeStamp x + tRP k <= w)
}.

Lemma covered_busy r t :
  array_ok (array r) -> covered r t -> numBanksActive (array r) <> 0 \/ event_at r Precharge <> None.
Proof.
  intros Ha [(w & E & _)|(b & Hb & Hc & _)]; [right; by rewrite E|left].
  apply list_elem_of_lookup in Hb as [i Hb]. rewrite (ar_active _ Ha).
  pose proof (open_banks_open _ _ _ Hb Hc). lia.
Qed.

Lemma covered_le r t t' : t <= t' -> covered r t' -> covered r t.
Proof.
  intros Ht [(w & ? & ?)|(b & ? & ? & ?)]; [left; exists w|right; exists b]; repeat split; try done; lia.
Qed.

Lemma effect_refl now r : effect now r r.
Proof.
  split; try done.
  - by destruct (event_at r Precharge).
  - intros w Hw. exists w. split; [done|lia].
  - by left.
  - by left.
  - exists []. unfold logs. rewrite !app_nil_r. repeat split. constructor.
  - by left.
Qed.

Lemma effect_trans now r1 r2 r3 : effect now r1 r2 -> effect now r2 r3 -> effect now r1 r3.
Proof.
  intros [M1 (N1 & R1 & W1 & F1) P1 U1 A1 C1 [n1 L1] I1] [M2 (N2 & R2 & W2 & F2) P2 U2 A2 C2 [n2 L2] I2]. split.
  - rewrite M2, M1. destruct (event_at r1 Precharge) as [w|] eqn:E1.
    + destruct (P1 w eq_refl) as (w' & -> & _). done.
    + destruct (event_at r2 Precharge) as [w|] eqn:E2; [|done].
      destruct (P2 w eq_refl) as (w' & -> & _). done.
  - repeat split; [congruence..|]. intros e He. by rewrite F2, F1.
  - intros w Hw. destruct (P1 w Hw) as (w1 & Hw1 & ?). destruct (P2 w1 Hw1) as (w2 & Hw2 & ?).
    exists w2. split; [done|lia].
  - intros w Hw. destruct (U2 w Hw) as [Hw2|]; auto.
  - destruct A2 as [E2|(a & E2 & Ha & Hc)].
    + rewrite E2. destruct A1 as [|(a & E1 & Ha & Hc)]; [by left|right; eauto 6].
    + right. exists a. split; [done|]. split; [|done]. destruct Ha as [|Ha]; [by left|].
      destruct A1 as [<-|(a1 & E1 & Ha1 & _)]; [by right|]. assert (a1 = a) as -> by congruence. done.
  - auto.
  - exists (n1 ++ n2). by eapply logs_trans.
  - intros x Hx. destruct (I2 x Hx) as [Hx2|Hp]; [|auto]. destruct (I1 x Hx2) as [|[Hnr Hp]]; [auto|].
    right. split; [done|]. intros Ht. destruct (Hp Ht) as (w & Hw & ?). destruct (P2 w Hw) as (w' & ? & ?).
    exists w'. split; [done|lia].
Qed.

(** The banks are closed by nothing but precharges. *)
Lemma covered_banks r r' t :
  (forall w, event_at r Precharge = Some w -> exists w', event_at r' Precharge = Some w' /\ w <= w') ->
  (forall i b, banks (array r) !! i = Some b -> is_closed b = false ->
     (exists w, event_at r' Precharge = Some w /\ preAllowedAt b + tRP k <= w) \/
     exists b', banks (array r') !! i = Some b' /\ is_closed b' = false /\ preAllowedAt b <= preAllowedAt b') ->
  covered r t -> covered r' t.
Proof.
  intros Hp Hb [(w & Hw & ?)|(b & Hin & Hc & ?)].
  - destruct (Hp w Hw) as (w' & ? & ?). left. exists w'. split; [done|lia].
  - apply list_elem_of_lookup in Hin as [i Hi]. destruct (Hb i b Hi Hc) as [(w & ? & ?)|(b' & Hb' & ? & ?)].
    + left. exists w. split; [done|lia].
    + right. exists b'. split; [by eapply list_elem_of_lookup_2|]. split; [done|lia].
Qed.

Lemma counted_machine w w' r :
  counted w (machine r) = match w, later_of w w' with
    | None, Some _ => counted None (machine r) | _, _ => machine r end.
Proof. by destruct w. Qed.

Lemma later_of_ge w v : forall u, w = Some u -> exists u', later_of w v = Some u' /\ u <= u'.
Proof. intros u ->. eexists. split; [done|lia]. Qed.

Lemma precharge_effect now bk pre_at r r' b :
  banks (array r) !! bk = Some b -> preAllowedAt b <= pre_at -> now <= pre_at ->
  machine r' = counted (event_at r Precharge) (machine r) -> frame [Precharge] r r' ->
  event_at r' Precharge = later_of (event_at r Precharge) (pre_at + tRP k) ->
  banks (array r') = <[bk := precharged pre_at b]> (banks (array r)) ->
  logs now [mkCommand PRE (Z.of_nat bk) pre_at] (array r) (array r') ->
  effect now r r'.
Proof.
  intros Hb Hp Hn Hm (F1 & F2 & F3 & F4) He Ebs Hlog. pose proof Hlog as (Eis & _). pose proof (ok_rp k Hk). split.
  - rewrite Hm, He. apply counted_machine.
  - repeat split; try done. intros e Hne. apply F4. set_solver.
  - rewrite He. apply later_of_ge.
  - intros w. rewrite He. unfold later_of. intros [= <-].
    destruct (event_at r Precharge) as [v|]; [|right; lia].
    destruct (decide (v < pre_at + tRP k)); [right; lia|left; f_equal; lia].
  - left. apply F4. set_solver.
  - intros t. apply covered_banks; [rewrite He; apply later_of_ge|]. intros i o Ho Hc.
    rewrite Ebs. destruct (decide (bk = i)) as [<-|Hne].
    + left. assert (o = b) as -> by congruence. rewrite He. eexists. split; [done|].
      destruct (event_at r Precharge); lia.
    + right. exists o. rewrite list_lookup_insert_ne by done. repeat split; [done..|lia].
  - by eexists.
  - intros x. rewrite Eis. intros [Hx| ->%list_elem_of_singleton]%elem_of_app; [by left|right].
    split; [done|]. intros _. rewrite He. eexists. split; [done|]. cbn. destruct (event_at r Precharge); lia.
Qed.

(** Commands that keep the events of a rank. *)
Lemma quiet_effect now r r' :
  machine r' = machine r -> frame [] r r' ->
  (forall i b, banks (array r) !! i = Some b -> is_closed b = false ->
     exists b', banks (array r') !! i = Some b' /\ is_closed b' = false /\ preAllowedAt b <= preAllowedAt b') ->
  (exists new, logs now new (array r) (array r') /\
     forall x, x ∈ new -> type x <> REF /\ type x <> PRE /\ type x <> PREA) ->
  effect now r r'.
Proof.
  intros Hm (F1 & F2 & F3 & F4) Hb (new & Hlog & Hx). pose proof Hlog as (Eis & _).
  assert (event_at r' Precharge = event_at r Precharge) as Ep by (apply F4; set_solver).
  split.
  - rewrite Hm, Ep. by destruct (event_at r Precharge).
  - repeat split; try done. intros e _. apply F4. set_solver.
  - rewrite Ep. intros w ->. exists w. split; [done|lia].
  - rewrite Ep. by left.
  - left. apply F4. set_solver.
  - intros t. apply covered_banks; [rewrite Ep; intros w ->; exists w; split; [done|lia]|].
    intros i b Hi Hc. right. by apply Hb.
  - by eexists.
  - intros x. rewrite Eis. intros [Hin|Hin]%elem_of_app; [by left|right].
    destruct (Hx x Hin) as (? & ? & ?). tauto.
Qed.

Lemma activate_effect now bk act_tick row r r' b b' :
  banks (array r) !! bk = Some b -> is_closed b = true -> now <= act_tick -> 0 <= row < NO_ROW ->
  machine r' = machine r -> frame [Activate] r r' ->
  event_at r' Activate = sooner (event_at r Activate) act_tick ->
  banks (array r') !! bk = Some b' -> openRow b' = row -> preAllowedAt b' >= act_tick + tRAS k ->
  logs now [mkCommand ACT (Z.of_nat bk) act_tick] (array r) (array r') ->
  (forall i o, banks (array r) !! i = Some o -> i <> bk -> exists o', banks (array r') !! i = Some o' /\ raised o o') ->
  effect now r r'.
Proof.
  intros Hb Hc Hn Hrow Hm (F1 & F2 & F3 & F4) He Hb' Hr' Hpre Hlog Ho. pose proof Hlog as (Eis & _).
  pose proof (ok_rp k Hk). pose proof (ok_ras k Hk).
  assert (event_at r' Precharge = event_at r Precharge) as Ep by (apply F4; set_solver). split.
  - rewrite Hm, Ep. by destruct (event_at r Precharge).
  - repeat split; try done. intros e Hne. apply F4. set_solver.
  - rewrite Ep. intros w ->. exists w. split; [done|lia].
  - rewrite Ep. by left.
  - right. rewrite He. unfold sooner. eexists. split; [done|]. split.
    + destruct (event_at r Activate) as [w|]; [|by left].
      destruct (decide (act_tick <= w)); [left; lia|right; f_equal; lia].
    + right. exists b'. split; [by eapply list_elem_of_lookup_2|]. split; [unfold is_closed; lia|].
      destruct (event_at r Activate); lia.
  - intros t. apply covered_banks; [rewrite Ep; intros w ->; exists w; split; [done|lia]|].
    intros i o Hi Hco. right. destruct (decide (i = bk)) as [->|Hne]; [congruence|].
    destruct (Ho i o Hi Hne) as (o' & Ho' & Hra). exists o'. split; [done|].
    split; [by rewrite (raised_closed _ _ Hra)|apply Hra].
  - by eexists.
  - intros x. rewrite Eis. intros [Hx| ->%list_elem_of_singleton]%elem_of_app; [by left|right].
    cbn. split; [done|]. by intros [].
Qed.

(** The row of a packet is opened. *)
Definition packet_ok (p : DRAMPacket) : Prop :=
  0 <= rank p < ranksPerChannel c /\ 0 <= bank p < banksPerRank c /\ 0 <= row p < NO_ROW /\
  bankId p = banksPerRank c * rank p + bank p.

Lemma open_row_ok now p r :
  array_ok (array r) -> packet_ok p -> 0 < now ->
  exists r' b, open_row c k now p r = Ok r' /\ array_ok (array r') /\ effect now r r' /\
    banks (array r') !! Z.to_nat (bank p) = Some b /\ openRow b = row p /\
    later (banks (array r)) (banks (array r')).
Proof.
  intros Ha (Hr & Hbk & Hrow & _) Hn. pose proof (ar_banks _ Ha) as Hlen.
  destruct (lookup_lt_is_Some_2 (banks (array r)) (Z.to_nat (bank p))) as [b Hb]; [lia|].
  unfold open_row. rewrite Hb. cbn [deref mbind res_bind].
  destruct (Z.eqb_spec (openRow b) (row p)) as [E|E].
  { exists r, b. split; [done|]. split; [done|]. split; [apply effect_refl|].
    split; [done|]. split; [done|]. apply later_refl. }
  assert (exists r1 b1, (if openRow b =? NO_ROW then Ok r
      else prechargeBank k now (Z.to_nat (bank p)) (Z.max (preAllowedAt b) now) true r) = Ok r1 /\
    array_ok (array r1) /\ effect now r r1 /\
    banks (array r1) !! Z.to_nat (bank p) = Some b1 /\ is_closed b1 = true /\
    later (banks (array r)) (banks (array r1))) as (r1 & b1 & -> & Ha1 & Hf1 & Hb1 & Hc1 & Hl1).
  { change (openRow b =? NO_ROW) with (is_closed b). destruct (is_closed b) eqn:Hc.
    - exists r, b. split; [done|]. split; [done|]. split; [apply effect_refl|].
      split; [done|]. split; [done|]. apply later_refl.
    - destruct (prechargeBank_ok now (Z.to_nat (bank p)) (Z.max (preAllowedAt b) now) r b)
        as (r1 & -> & Ha1 & Hm1 & Hf1 & He1 & Eb & Ei1); [done|done|done|lia|lia|lia|].
      exists r1, (precharged (Z.max (preAllowedAt b) now) b). split; [done|]. split; [done|].
      split; [apply (precharge_effect now (Z.to_nat (bank p)) (Z.max (preAllowedAt b) now) r r1 b); try done; lia|]. split; [|split; [done|]].
      + rewrite Eb. apply list_lookup_insert_eq. by eapply lookup_lt_Some.
      + rewrite Eb. apply (later_issue (mkCommand PRE (Z.of_nat (Z.to_nat (bank p)))
          (Z.max (preAllowedAt b) now))).
        eapply insert_issues; [done|done|done|by left|].
        apply (precharged_issues _ _ _ (issued (array r))); [by apply (ar_bank _ Ha)|done|lia]. }
  cbn [mbind res_bind]. rewrite Hb1. cbn [deref mbind res_bind].
  destruct (activateBank_ok now (Z.to_nat (bank p)) (Z.max (actAllowedAt b1) now) (row p) r1 b1)
    as (r2 & b2 & -> & Ha2 & Hm2 & Hf2 & He2 & Hb2 & Hrow2 & Hl2 & Hi2 & Hp2 & Ho2);
    [done|done|done|lia|lia|lia|done|].
  exists r2, b2. split; [done|]. split; [done|]. split; [|split; [done|split; [done|]]].
  - eapply effect_trans; [exact Hf1|]. apply (activate_effect now (Z.to_nat (bank p)) (Z.max (actAllowedAt b1) now) (row p) r1 r2 b1 b2); try done. lia.
  - by eapply later_trans.
Qed.


(** ** The data bus *)

(** The distance of two column commands on the channel, with their ranks. *)
Definition column_gap (x y : nat * Command) : Z :=
  if bool_decide (x.1 = y.1) then
    if bankGroupArch k && (group (cbank x.2) =? group (cbank y.2)) then
      match type x.2, type y.2 with
      | RD, RD => tCCD_L k
      | RD, _ => Z.max (tCCD_L k) (rdToWrDly k)
      | _, RD => Z.max (tCCD_L k) (wrToRdDly k)
      | _, _ => tCCD_L_WR k
      end
    else
      match type x.2, type y.2 with
      | RD, RD => tBURST k
      | RD, _ => rdToWrDly k
      | _, RD => wrToRdDly k
      | _, _ => tBURST k
      end
  else rankToRankDly k.

(** A column command waits for the earlier ones and for the bus. *)
Definition spaced (x y : nat * Command) : Prop :=
  timeStamp x.2 + column_gap x y <= timeStamp y.2 /\ timeStamp x.2 + tBURST k <= timeStamp y.2.

Record bus_ok (s : t) : Prop := {
  bu_ranks : Z.of_nat (length (ranks s)) = ranksPerChannel c;
  bu_array : forall j r, ranks s !! j = Some r -> array_ok (array r);
  bu_types : forall x, x ∈ bursts s -> type x.2 = RD \/ type x.2 = WR;
  bu_next : forall x, x ∈ bursts s -> timeStamp x.2 + tBURST k <= nextBurstAt s;
  bu_cols : forall x j r i b, x ∈ bursts s -> ranks s !! j = Some r -> banks (array r) !! i = Some b ->
    timeStamp x.2 + column_gap x (j, RDc i) <= rdAllowedAt b /\
    timeStamp x.2 + column_gap x (j, WRc i) <= wrAllowedAt b;
  bu_spaced : ForallOrdPairs spaced (bursts s)
}.

(** Column commands of another rank or bank only wait longer. *)
Lemma cols_later x j i bs bs' b' :
  later bs bs' -> bs' !! i = Some b' ->
  (forall b, bs !! i = Some b -> timeStamp x.2 + column_gap x (j, RDc i) <= rdAllowedAt b /\
     timeStamp x.2 + column_gap x (j, WRc i) <= wrAllowedAt b) ->
  timeStamp x.2 + column_gap x (j, RDc i) <= rdAllowedAt b' /\
  timeStamp x.2 + column_gap x (j, WRc i) <= wrAllowedAt b'.
Proof.
  intros [Hl H] Hb' Hb. destruct (lookup_lt_is_Some_2 bs i) as [b Eb];
    [rewrite <- Hl; by eapply lookup_lt_Some|].
  destruct (H i b b' Eb Hb') as (_ & ? & ?). destruct (Hb b Eb). lia.
Qed.

(** Ranks whose column commands wait at least as long. *)
Lemma bus_ok_later s rs :
  bus_ok s -> length rs = length (ranks s) ->
  (forall j r', rs !! j = Some r' -> exists r, ranks s !! j = Some r /\ array_ok (array r') /\
     later (banks (array r)) (banks (array r'))) -> bus_ok (with_ranks rs s).
Proof.
  intros [B1 B2 B3 B4 B5 B6] Hl Hr. split; cbn; try done.
  - congruence.
  - intros j r' Hj. by destruct (Hr j r' Hj) as (r & _ & ? & _).
  - intros x j r' i b' Hx Hj Hb'. destruct (Hr j r' Hj) as (r & Hj' & _ & Hlt).
    eapply cols_later; [exact Hlt|exact Hb'|]. intros b Hb. by eapply B5.
Qed.

Lemma ForallOrdPairs_snoc {A} (R : A -> A -> Prop) l x :
  ForallOrdPairs R l -> Forall (fun y => R y x) l -> ForallOrdPairs R (l ++ [x]).
Proof.
  induction 1 as [|y l Hy Hl IH]; intros Hf; cbn; [repeat constructor|].
  apply Forall_cons in Hf as [Hyx Hf]. constructor; [|auto].
  apply Forall_app. split; [done|]. by constructor.
Qed.

Lemma delay_bank_raised p g cmd_at j o : raised o (delay_bank k p g cmd_at j o).
Proof. unfold delay_bank. destruct (column_delays _ _ _ _ _) as [rd wr]. split; cbn; done || lia. Qed.

Definition burst_of (p : DRAMPacket) (cmd_at : Z) : nat * Command :=
  (Z.to_nat (rank p), mkCommand (if read p then RD else WR) (bank p) cmd_at).

(** The delays of the loop over the banks are the gaps of the bus. *)
Lemma delay_bank_gap p cmd_at j i o :
  0 <= rank p -> bankgr o = group (Z.of_nat i) ->
  let o' := delay_bank k p (group (bank p)) cmd_at j o in
  cmd_at + column_gap (burst_of p cmd_at) (j, RDc i) <= rdAllowedAt o' /\
  cmd_at + column_gap (burst_of p cmd_at) (j, WRc i) <= wrAllowedAt o'.
Proof.
  intros Hr Hg. unfold delay_bank, column_delays, column_gap, burst_of. cbn. rewrite Hg.
  destruct (Z.eqb_spec (rank p) (Z.of_nat j)) as [E|E].
  - rewrite bool_decide_eq_true_2 by lia. destruct (bankGroupArch k && _), (read p); cbn; lia.
  - rewrite bool_decide_eq_false_2 by lia. cbn. lia.
Qed.

(** ** Column commands *)

Definition column_bank (p : DRAMPacket) (cmd_at : Z) (b : Bank) : Bank :=
  let b := with_pre (Z.max (preAllowedAt b)
    (if read p then cmd_at + tRTP k else cmd_at + tCL k + tBURST k + tWR k)) b in
  with_count (u32 (rowAccesses b + 1)) (u32 (bytesAccessed b + burstSize c)) b.

Lemma column_ok a b p cmd_at :
  array_ok a -> packet_ok p -> banks a !! Z.to_nat (bank p) = Some b -> is_closed b = false ->
  0 < cmd_at -> (forall y, y ∈ issued a -> respects k group y (burst_of p cmd_at).2) ->
  array_ok (push_cmd (if read p then RD else WR) (bank p) cmd_at
    (with_banks (<[Z.to_nat (bank p) := column_bank p cmd_at b]> (banks a)) a)).
Proof.
  intros Ha (_ & Hbk & _ & _) Hb Hc Hpos Hr. set (x := mkCommand (if read p then RD else WR) (bank p) cmd_at).
  pose proof (ar_bank _ Ha _ _ Hb) as Hok.
  assert (cbank x = Z.of_nat (Z.to_nat (bank p))) as Ex by (cbn; lia).
  assert (is_closed (column_bank p cmd_at b) = false) as Hc' by done.
  apply (array_ok_issue a _ x); try done.
  - cbn. by destruct (read p).
  - apply (insert_issues x _ b); [done|done|done|cbn; destruct (read p); auto|].
    assert (opens (Z.of_nat (Z.to_nat (bank p))) (negb (is_closed b)) x = negb (is_closed b)) as Eo
      by (unfold opens; cbn; by destruct (read p)).
    pose proof (bk_row _ _ _ Hok).
    split; try done; try (cbn; lia); rewrite ?Hc'; try done.
    + intros d Hd. split; [|done]. revert Hd. unfold gap, DramTiming.gap, PREc. cbn.
      replace (bank p =? _) with true by (symmetry; by apply Z.eqb_eq). destruct (read p); intros [= <-]; lia.
    + intros d. unfold gap, DramTiming.gap. cbn. by destruct (read p).
    + intros d. unfold gap, DramTiming.gap. cbn. by destruct (read p).
    + intros d. unfold gap, DramTiming.gap. cbn. by destruct (read p).
  - cbn [numBanksActive push_cmd with_banks banks]. rewrite (ar_active _ Ha).
    pose proof (open_banks_insert _ _ _ (column_bank p cmd_at b) Hb) as E. rewrite Hc, Hc' in E. lia.
  - unfold allowed. pose proof (bk_open _ _ _ Hok) as Ho. rewrite Hc, <- Ex in Ho.
    cbn in Ho |- *. by destruct (read p).
Qed.

Lemma with_banks_issued bs a : issued (with_banks bs a) = issued a.
Proof. done. Qed.

(** The state of the machine when an access may come: a rank that is asleep is not
    in self-refresh, and not waking up yet. *)
Definition accessible (r : Rank) : Prop :=
  inLowPowerState (machine r) = true -> pwrState (machine r) <> PWR_SREF /\ event_at r WakeUp = None.

(** The rank of an access before its column command. *)
Lemma prepare_ok now p r :
  array_ok (array r) -> packet_ok p -> 0 < now -> accessible r ->
  exists r1 r2 b, (if inLowPowerState (machine r) then
        assert_that (negb (bool_decide (pwrState (machine r) = PWR_SREF))) ;;
        scheduleWakeUpEvent now (tXP k) r
      else Ok r) = Ok r1 /\ open_row c k now p r1 = Ok r2 /\ array_ok (array r2) /\
    (inLowPowerState (machine r) = false -> effect now r r2) /\
    banks (array r2) !! Z.to_nat (bank p) = Some b /\ openRow b = row p /\
    later (banks (array r)) (banks (array r2)).
Proof.
  intros Ha Hp Hn Hacc. assert (0 < banksPerRank c) as Hpos by (destruct Hp as (_ & ? & _); lia).
  assert (exists r1, (if inLowPowerState (machine r) then
        assert_that (negb (bool_decide (pwrState (machine r) = PWR_SREF))) ;;
        scheduleWakeUpEvent now (tXP k) r
      else Ok r) = Ok r1 /\ array_ok (array r1) /\ (inLowPowerState (machine r) = false -> r1 = r) /\
      later (banks (array r)) (banks (array r1))) as (r1 & E1 & Ha1 & Hf1 & Hl1).
  { destruct (inLowPowerState (machine r)) eqn:El.
    - destruct (Hacc El) as [Hs Hw]. rewrite bool_decide_eq_false_2 by done. cbn.
      destruct (scheduleWakeUpEvent_ok now (tXP k) r Ha Hpos Hn Hw) as (r1 & -> & Ha1 & _ & _ & _ & Hl).
      by exists r1.
    - exists r. split; [done|]. split; [done|]. split; [done|apply later_refl]. }
  destruct (open_row_ok now p r1 Ha1 Hp Hn) as (r2 & b & E2 & Ha2 & He & Hb & Hrow & Hl2).
  exists r1, r2, b. repeat (split; [done|]). split; [intros El; by rewrite <- (Hf1 El)|].
  split; [done|]. split; [done|]. by eapply later_trans.
Qed.

(** ** Accesses *)

Lemma column_later p cmd_at bs i b :
  bs !! i = Some b -> later bs (<[i := column_bank p cmd_at b]> bs).
Proof.
  intros Hb. split; [apply length_insert|]. intros j o o' Ho Ho'.
  destruct (decide (i = j)) as [<-|Hne].
  - rewrite list_lookup_insert_eq in Ho' by (by eapply lookup_lt_Some).
    injection Ho' as <-. assert (o = b) as -> by congruence. repeat split; cbn; lia.
  - rewrite list_lookup_insert_ne in Ho' by done. assert (o = o') as -> by congruence. repeat split; lia.
Qed.

Lemma precharge_later pre_at bs i b :
  bs !! i = Some b -> later bs (<[i := precharged pre_at b]> bs).
Proof.
  intros Hb. split; [apply length_insert|]. intros j o o' Ho Ho'.
  destruct (decide (i = j)) as [<-|Hne].
  - rewrite list_lookup_insert_eq in Ho' by (by eapply lookup_lt_Some).
    injection Ho' as <-. assert (o = b) as -> by congruence. repeat split; cbn; lia.
  - rewrite list_lookup_insert_ne in Ho' by done. assert (o = o') as -> by congruence. repeat split; lia.
Qed.

(** The second half of an access, from the rank whose row is open: the column
    command, and the precharge that may follow it. *)
Lemma burst_ok now p pos qs r b cmd_at :
  array_ok (array r) -> packet_ok p -> 0 < now -> now <= cmd_at ->
  banks (array r) !! Z.to_nat (bank p) = Some b -> is_closed b = false ->
  (forall y, y ∈ issued (array r) -> respects k group y (burst_of p cmd_at).2) ->
  let b1 := column_bank p cmd_at b in
  let r1 := on_array (push_cmd (if read p then RD else WR) (bank p) cmd_at)
              (on_array (fun a => with_banks (<[Z.to_nat (bank p) := b1]> (banks a)) a) r) in
  exists r2, (if auto_precharge k p pos qs b1
       then prechargeBank k now (Z.to_nat (bank p)) (Z.max now (preAllowedAt b1)) true r1 else Ok r1) = Ok r2 /\
    array_ok (array r2) /\ later (banks (array r)) (banks (array r2)) /\ effect now r r2 /\
    covered r2 (preAllowedAt b1 + tRP k - 1).
Proof.
  intros Ha Hp Hn Hcmd Hb Hc Hr b1 r1.
  pose proof (column_ok (array r) b p cmd_at Ha Hp Hb Hc ltac:(lia) Hr) as Ha1. fold b1 in Ha1.
  assert (banks (array r1) !! Z.to_nat (bank p) = Some b1) as Hb1
    by (apply list_lookup_insert_eq; by eapply lookup_lt_Some).
  pose proof (column_later p cmd_at _ _ b Hb) as Hl.
  assert (effect now r r1) as He1.
  { apply quiet_effect; [done|done| |].
    - intros i o Ho Hco. destruct (decide (Z.to_nat (bank p) = i)) as [<-|Hne].
      + exists b1. split; [done|]. split; [done|]. assert (o = b) as -> by congruence. cbn. lia.
      + exists o. cbn. rewrite list_lookup_insert_ne by done. repeat split; [done..|lia].
    - eexists. split; [by repeat split; repeat constructor|].
      intros x ->%list_elem_of_singleton. cbn. by destruct (read p). }
  pose proof (ok_rp k Hk).
  assert (covered r1 (preAllowedAt b1 + tRP k - 1)) as Hcov
    by (right; exists b1; split; [by eapply list_elem_of_lookup_2|]; split; [done|lia]).
  destruct (auto_precharge k p pos qs b1); [|exists r1; by repeat (split; [done|])].
  destruct (prechargeBank_ok now (Z.to_nat (bank p)) (Z.max now (preAllowedAt b1)) r1 b1)
    as (r2 & -> & Ha2 & Hm & Hf & Hev & Eb & Ei); [done|done|done|lia|lia|lia|].
  assert (effect now r1 r2) as He2.
  { apply (precharge_effect now (Z.to_nat (bank p)) (Z.max now (preAllowedAt b1)) r1 r2 b1); try done; lia. }
  exists r2. split; [done|]. split; [done|]. split; [|split; [by eapply effect_trans|by apply He2]].
  rewrite Eb. eapply later_trans; [exact Hl|]. by apply precharge_later.
Qed.

(** The column command of an access waits for what was issued to its bank. *)
Lemma column_respects a i b p cmd_at :
  array_ok a -> bank p = Z.of_nat i -> banks a !! i = Some b ->
  (if read p then rdAllowedAt b else wrAllowedAt b) <= cmd_at ->
  forall y, y ∈ issued a -> respects k group y (burst_of p cmd_at).2.
Proof.
  intros Ha Hi Hb Hcol y Hy d. pose proof (ar_bank _ Ha _ _ Hb) as Hok. cbn. rewrite Hi. intros Hd.
  assert (forall t u, gap y (mkCommand t (Z.of_nat i) u) = gap y (mkCommand t (Z.of_nat i) 0)) as Eg by done.
  rewrite Eg in Hd. destruct (read p).
  - pose proof (bk_rd _ _ _ Hok y d Hy Hd). lia.
  - pose proof (bk_wr _ _ _ Hok y d Hy Hd). lia.
Qed.

(** The other ranks after an access. *)
Definition delayed (p : DRAMPacket) (cmd_at : Z) (j : nat) (r : Rank) : Rank :=
  on_array (fun a => with_banks (delay_bank k p (group (bank p)) cmd_at j <$> banks a) a) r.

Lemma delayed_ok p cmd_at j r : array_ok (array r) -> array_ok (array (delayed p cmd_at j r)).
Proof. intros Ha. apply array_ok_fmap; [|done]. intros b. apply delay_bank_raised. Qed.

Lemma delayed_later p cmd_at j r : later (banks (array r)) (banks (array (delayed p cmd_at j r))).
Proof. apply later_fmap. intros b. apply delay_bank_raised. Qed.

Lemma delayed_effect now p cmd_at j r : effect now r (delayed p cmd_at j r).
Proof.
  apply quiet_effect; [done|done| |exists []; unfold logs; rewrite !app_nil_r; split; [by repeat constructor|set_solver]].
  intros i b Hb Hc. cbn. rewrite list_lookup_fmap, Hb.
  eexists. split; [done|]. pose proof (delay_bank_raised p (group (bank p)) cmd_at j b) as Hr.
  split; [by rewrite (raised_closed _ _ Hr)|apply Hr].
Qed.

Lemma delayed_gap p cmd_at j r i b' :
  array_ok (array r) -> packet_ok p -> banks (array (delayed p cmd_at j r)) !! i = Some b' ->
  cmd_at + column_gap (burst_of p cmd_at) (j, RDc i) <= rdAllowedAt b' /\
  cmd_at + column_gap (burst_of p cmd_at) (j, WRc i) <= wrAllowedAt b'.
Proof.
  intros Ha (Hr & _) Hb. cbn in Hb. apply list_lookup_fmap_Some in Hb as (b & -> & Hb).
  apply delay_bank_gap; [lia|]. by apply (bk_group _ _ _ (ar_bank _ Ha _ _ Hb)).
Qed.


Lemma lookup_insert_imap {A} (f : nat -> A -> A) l i x y j z :
  (<[i := y]> (imap f (<[i := x]> l))) !! j = Some z ->
  j = i /\ z = y \/ j <> i /\ exists o, l !! j = Some o /\ z = f j o.
Proof.
  intros H. destruct (decide (i = j)) as [<-|Hne].
  - left. apply list_lookup_insert_Some in H as [(_ & <- & _)|[? _]]; done.
  - right. split; [done|]. rewrite list_lookup_insert_ne, list_lookup_imap, list_lookup_insert_ne in H by done.
    apply fmap_Some in H as (o & Ho & ->). eauto.
Qed.

(** The bus after the column command of [p] at [cmd_at]. *)
Lemma bus_ok_burst s p cmd_at r2 r5 nr :
  bus_ok s -> packet_ok p -> nextBurstAt s <= cmd_at ->
  (forall x j i, x ∈ bursts s -> j = Z.to_nat (rank p) -> i = Z.to_nat (bank p) ->
     timeStamp x.2 + column_gap x (j, (burst_of p cmd_at).2) <= cmd_at) ->
  (exists r, ranks s !! Z.to_nat (rank p) = Some r /\ later (banks (array r)) (banks (array r2))) ->
  array_ok (array r2) -> array_ok (array r5) ->
  later (banks (array (delayed p cmd_at (Z.to_nat (rank p)) r2))) (banks (array r5)) ->
  bus_ok (mk (<[Z.to_nat (rank p) := r5]> (imap (delayed p cmd_at) (<[Z.to_nat (rank p) := r2]> (ranks s))))
    (cmd_at + tBURST k) nr (rank p) (bursts s ++ [burst_of p cmd_at])).
Proof.
  intros [B1 B2 B3 B4 B5 B6] Hp Hnb Hcol (r & Hr & Hl2) Ha2 Ha5 Hl5.
  split; cbn.
  - by rewrite length_insert, length_imap, length_insert.
  - intros j r' Hj. apply lookup_insert_imap in Hj as [[-> ->]|(_ & o & Ho & ->)]; [done|].
    by eapply delayed_ok, B2.
  - intros x [Hx| ->%list_elem_of_singleton]%elem_of_app; [by apply B3|]. cbn. destruct (read p); auto.
  - intros x [Hx| ->%list_elem_of_singleton]%elem_of_app; [|cbn; lia]. specialize (B4 x Hx).
    pose proof (ok_burst k Hk). lia.
  - intros x j r' i b' Hx Hj Hb'. apply lookup_insert_imap in Hj as [[-> ->]|(Hne & o & Ho & ->)].
    + eapply cols_later; [exact Hl5|exact Hb'|]. intros b2 Hb2.
      apply elem_of_app in Hx as [Hx| ->%list_elem_of_singleton]; [|exact (delayed_gap p cmd_at _ r2 i b2 Ha2 Hp Hb2)].
      eapply cols_later; [eapply later_trans; [exact Hl2|apply delayed_later]|exact Hb2|].
      intros b Hb. by eapply B5.
    + apply elem_of_app in Hx as [Hx| ->%list_elem_of_singleton];
        [|eapply delayed_gap; [by eapply B2|done|done]].
      eapply cols_later; [apply delayed_later|exact Hb'|]. intros b Hb. by eapply B5.
  - apply ForallOrdPairs_snoc; [done|]. apply Forall_forall. intros x Hx. split; cbn.
    + by apply (Hcol x _ _ Hx eq_refl eq_refl).
    + specialize (B4 x Hx). lia.
Qed.

(** An access never fails; it issues its column command, and keeps the timing of
    the banks and of the bus. *)
Lemma doDRAMAccess_ok now p pos qs s r :
  bus_ok s -> packet_ok p -> 0 < now -> ranks s !! Z.to_nat (rank p) = Some r -> accessible r ->
  exists cmd_at r' nr, now <= cmd_at /\ nextBurstAt s <= cmd_at /\
    (inLowPowerState (machine r) = false -> effect now r r') /\
    covered r' ((if read p then cmd_at + tRTP k else cmd_at + tCL k + tBURST k + tWR k) + tRP k - 1) /\
    let s' := mk (<[Z.to_nat (rank p) := r']> (imap (delayed p cmd_at) (ranks s)))
                (cmd_at + tBURST k) nr (rank p) (bursts s ++ [burst_of p cmd_at]) in
    doDRAMAccess c k now p pos qs s = Ok (cmd_at + tCL k + tBURST k, s') /\ bus_ok s'.
Proof.
  intros Hs Hp Hn Hr Hacc. pose proof Hp as (Hrk & Hbk & Hrow & _).
  destruct (prepare_ok now p r (bu_array _ Hs _ _ Hr) Hp Hn Hacc)
    as (r1 & r2 & b & E1 & E2 & Ha2 & Hf & Hb & Hrw & Hl2).
  pose proof (ar_bank _ Ha2 _ _ Hb) as Hok.
  assert (is_closed b = false) as Hc by (unfold is_closed; lia).
  assert (bank p = Z.of_nat (Z.to_nat (bank p))) as Ebk by lia.
  assert (bankgr b = group (bank p)) as Hg by (rewrite (bk_group _ _ _ Hok); f_equal; lia).
  set (cmd_at := Z.max (Z.max (if read p then rdAllowedAt b else wrAllowedAt b) (nextBurstAt s)) now).
  set (rk := Z.to_nat (rank p)) in *.
  pose proof (lookup_lt_Some _ _ _ Hr) as Hlt.
  set (r3 := delayed p cmd_at rk r2).
  pose proof (delayed_ok p cmd_at rk r2 Ha2) as Ha3. fold r3 in Ha3.
  set (b3 := delay_bank k p (group (bank p)) cmd_at rk b).
  assert (banks (array r3) !! Z.to_nat (bank p) = Some b3) as Hb3
    by (cbn; by rewrite list_lookup_fmap, Hb).
  assert (is_closed b3 = false) as Hc3
    by (unfold b3; rewrite (raised_closed _ _ (delay_bank_raised p _ cmd_at rk b)); done).
  destruct (burst_ok now p pos qs r3 b3 cmd_at Ha3 Hp Hn ltac:(lia) Hb3 Hc3) as (r5 & E5 & Ha5 & Hl5 & He5 & Hcov).
  { change (issued (array r3)) with (issued (array r2)). eapply column_respects; [done|done|done|lia]. }
  exists cmd_at, r5, (tick_sub (cmd_at + tBURST k) (tRP k + tRCD k)).
  split; [lia|]. split; [lia|]. split; [|split].
  { intros El. eapply effect_trans; [by apply Hf|]. eapply effect_trans; [|exact He5]. apply delayed_effect. }
  { eapply covered_le; [|exact Hcov]. cbn. lia. }
  cbn zeta.
  assert (<[rk := r5]> (imap (delayed p cmd_at) (ranks s)) =
    <[rk := r5]> (imap (delayed p cmd_at) (<[rk := r2]> (ranks s)))) as ->.
  { apply list_eq. intros j. destruct (decide (rk = j)) as [<-|Hne].
    - by rewrite !list_lookup_insert_eq by (rewrite ?length_imap, ?length_insert; lia).
    - by rewrite !list_lookup_insert_ne, !list_lookup_imap, list_lookup_insert_ne by done. }
  split.
  - unfold doDRAMAccess. fold rk. rewrite Hr. cbn [deref mbind res_bind]. rewrite E1.
    cbn [mbind res_bind]. rewrite E2. cbn [mbind res_bind]. rewrite Hb. cbn [deref mbind res_bind]. fold cmd_at.
    unfold delay_ranks. rewrite Hg. change (imap _ (<[rk := r2]> (ranks s)))
      with (imap (delayed p cmd_at) (<[rk := r2]> (ranks s))).
    rewrite list_lookup_imap, list_lookup_insert_eq by done. cbn [fmap option_fmap option_map deref mbind res_bind].
    fold r3. rewrite Hb3. cbn [deref mbind res_bind]. cbn zeta in E5. unfold column_bank in E5.
    rewrite E5. done.
  - apply bus_ok_burst; [done|done|lia| |by exists r|done|done|done].
    intros x j i Hx -> ->. pose proof (bu_cols _ Hs x rk r) as Hcols.
    destruct (cols_later x rk _ _ _ b Hl2 Hb) as [Hrd Hwr]; [intros o Ho; by eapply Hcols|].
    assert ((if read p then rdAllowedAt b else wrAllowedAt b) <= cmd_at) as Hcmd by lia.
    cbn. unfold column_gap, RDc, WRc in *. rewrite <- Ebk in Hrd, Hwr. cbn in Hrd, Hwr |- *.
    revert Hcmd. clearbody cmd_at. destruct (read p); intros Hcmd; (etrans; [|exact Hcmd]); done.
Qed.

End Banks.
End DramTiming.
