(* ===== verification/DramPower.v ===== *)
(** * Refresh and power states of the ranks

    Models the events of [DRAMCtrl::Rank] in [dram_ctrl.cc]: the activate,
    precharge, write, refresh, power and wake-up events, with the refresh and the
    power state machine, and the commands that are handed to the power model; and
    what the events of the controller ([processNextReqEvent],
    [processRespondEvent]) do to the ranks.  An event leaves [event_at] before its
    handler runs.  Statistics are left out; of the DRAMPower library only the
    commands it is given are kept. *)

From S2P Require Import Prelude Common PageTable Clock DramQueues DramRank.

Module DramPower.
Import DramQueues DramRank.

Section Power.
Context (c : config) (k : timing).
(** [std::sort] by [sortTime]; the order of commands of one tick is not specified. *)
Context (sort : list Command -> list Command).

(** ** Construction *)

(** The constructor of [Rank]. *)
Definition new_bank (b : nat) : Bank :=
  mkBank NO_ROW (if 0 <? bankGroupsPerRank k then Z.of_nat b mod bankGroupsPerRank k else Z.of_nat b)
    0 0 0 0 0 0.
Definition new_rank (i : nat) : Rank :=
  mkRank (Z.of_nat i) 0 0
    (mkArray (new_bank <$> seq 0 (Z.to_nat (banksPerRank c))) 0 (replicate (activationLimit k) 0) [] [] [])
    (mkMachine PWR_IDLE PWR_IDLE PWR_IDLE REF_IDLE false 0 0 0 0)
    (fun _ => None).

Definition rank_startup (now ref_tick : Z) (r : Rank) : res Rank :=
  assert_that (now <? ref_tick) ;;
  schedule now Refresh ref_tick (on_machine (with_tick now) r).

(** [DRAMCtrl::startup] in timing mode; [timeStampOffset], which it sets, is a constant
    of [timing]. *)
Definition startup (now : Z) (s : t) : res t :=
  rs ← for_each (ranks s) (fun r rs => r ← rank_startup now (now + tREFI k - tRP k) r; Ok (rs ++ [r])) [];
  Ok (mk rs (now + tRP k + tRCD k) (nextReqTime s) (lastRank s) (bursts s)).

Definition new : t :=
  mk (new_rank <$> seq 0 (Z.to_nat (ranksPerChannel c))) 0 0 0 [].

(** ** The power model *)

Fixpoint split_due (now : Z) (l : list Command) : list Command * list Command :=
  match l with
  | [] => ([], [])
  | x :: l' => if timeStamp x <=? now then let '(d, r) := split_due now l' in (x :: d, r) else ([], l)
  end.

Definition to_powerlib (x : Command) : MemCommand * Z * Z :=
  (type x, cbank x, divCeil (timeStamp x) (tCK k) - timeStampOffset k).

Definition flushCmdList (now : Z) (a : Array) : Array :=
  let '(due, rest) := split_due now (sort (cmdList a)) in
  mkArray (banks a) (numBanksActive a) (actTicks a) rest (powerlib a ++ (to_powerlib <$> due)) (issued a).

Definition updatePowerStats (now : Z) (r : Rank) : Rank := on_array (flushCmdList now) r.

Definition computeStats (now : Z) (r : Rank) : Rank :=
  on_machine (with_tick now) (updatePowerStats now r).

Definition suspend (now : Z) (r : Rank) : res Rank :=
  assert_that (scheduled Refresh r) ;;
  Ok (on_machine (with_post PWR_IDLE) (updatePowerStats now (set_event Refresh None r))).

(** ** Power states *)

Definition schedulePowerEvent (now : Z) (pwr_state : PowerState) (tick : Z) (r : Rank) : res Rank :=
  assert_that (now <=? tick) ;;
  panic_if (scheduled Power r) ;;
  schedule now Power tick (on_machine (with_trans pwr_state) r).

Definition powerDownSleep (now : Z) (pwr_state : PowerState) (tick : Z) (r : Rank) : res Rank :=
  r ← (match pwr_state with
       | PWR_ACT_PDN =>
           r ← schedulePowerEvent now pwr_state tick r;
           Ok (on_array (push_cmd PDN_F_ACT 0 tick) r)
       | PWR_PRE_PDN =>
           r ← schedulePowerEvent now pwr_state tick r;
           Ok (on_array (push_cmd PDN_F_PRE 0 tick) r)
       | PWR_REF =>
           r ← schedulePowerEvent now PWR_PRE_PDN tick r;
           Ok (on_array (push_cmd PDN_F_PRE 0 tick) r)
       | PWR_SREF =>
           assert_that (bool_decide (pwrStatePostRefresh (machine r) = PWR_PRE_PDN)) ;;
           r ← schedulePowerEvent now PWR_SREF tick r;
           Ok (on_array (push_cmd SREN 0 tick) r)
       | _ => Ok r
       end);
  Ok (on_machine (fun m => with_low true (with_wakeUpAllowed (tick + tCK k) m)) r).

Definition processWakeUpEvent (now : Z) (r : Rank) : res Rank :=
  match pwrState (machine r) with
  | PWR_ACT_PDN => schedulePowerEvent now PWR_ACT now r
  | PWR_PRE_PDN | PWR_SREF => schedulePowerEvent now PWR_IDLE now r
  | _ => Fail AssertFailure
  end.

(** ** Events of the banks *)

Definition incr_outstanding (m : Machine) : Machine := with_outstanding (u8 (outstandingEvents m + 1)) m.
(** The counter is asserted to be positive and decremented. *)
Definition decr_outstanding (m : Machine) : res Machine :=
  assert_that (0 <? outstandingEvents m) ;;
  Ok (with_outstanding (outstandingEvents m - 1) m).

Definition processActivateEvent (now : Z) (r : Rank) : res Rank :=
  if bool_decide (pwrState (machine r) = PWR_ACT) then Ok r
  else schedulePowerEvent now PWR_ACT now r.

Definition processPrechargeEvent (now : Z) (m : Memory) (r : Rank) : res Rank :=
  mc ← decr_outstanding (machine r);
  let r := with_machine mc r in
  if numBanksActive (array r) =? 0 then
    if isQueueEmpty m r && (outstandingEvents (machine r) =? 0) && enableDRAMPowerdown k then
      assert_that (bool_decide (pwrState (machine r) = PWR_ACT)) ;;
      powerDownSleep now PWR_PRE_PDN now r
    else schedulePowerEvent now PWR_IDLE now r
  else Ok r.

Definition processWriteDoneEvent (r : Rank) : res Rank :=
  mc ← decr_outstanding (machine r); Ok (with_machine mc r).

(** ** Refresh *)

Definition checkDrainDone (now : Z) (r : Rank) : res Rank :=
  if bool_decide (refreshState (machine r) = REF_DRAIN) then
    schedule now Refresh now (on_machine (with_refresh REF_PD_EXIT) r)
  else Ok r.

(** A bank in the precharge of all banks at [pre_at]. *)
Definition precharge_one (now pre_at : Z) (i : nat) (r : Rank) : res Rank :=
  b ← deref (banks (array r) !! i);
  if negb (openRow b =? NO_ROW) then prechargeBank k now i pre_at false r
  else
    let b := with_pre (Z.max (preAllowedAt b) pre_at)
               (with_act (Z.max (actAllowedAt b) (pre_at + tRP k)) b) in
    Ok (on_array (fun a => with_banks (<[i := b]> (banks a)) a) r).

Definition precharge_at (now : Z) (bs : list Bank) : Z :=
  foldl (fun pre_at b => Z.max (preAllowedAt b) pre_at) now bs.

(** The stage [REF_PRE] of [processRefreshEvent]. *)
Definition refresh_pre (now : Z) (r : Rank) : res Rank :=
  r ← (if negb (numBanksActive (array r) =? 0) then
         let pre_at := precharge_at now (banks (array r)) in
         r ← for_each (seq 0 (length (banks (array r)))) (precharge_one now pre_at) r;
         Ok (on_array (push_cmd PREA 0 pre_at) r)
       else if bool_decide (pwrState (machine r) = PWR_IDLE) && (outstandingEvents (machine r) =? 1) then
         schedulePowerEvent now PWR_REF now r
       else assert_that (scheduled Precharge r) ;; Ok r);
  assert_that (numBanksActive (array r) =? 0) ;;
  Ok r.

(** The stage [REF_START]. *)
Definition refresh_start (now : Z) (r : Rank) : res Rank :=
  assert_that (numBanksActive (array r) =? 0) ;;
  assert_that (bool_decide (pwrState (machine r) = PWR_REF)) ;;
  let ref_done_at := now + tRFC k in
  let r := on_array (fun a => with_banks (with_act ref_done_at <$> banks a) a) r in
  let r := on_array (push_cmd REF 0 now) r in
  let r := updatePowerStats now r in
  let due := refreshDueAt (machine r) + tREFI k in
  panic_if (due <? ref_done_at) ;;
  schedule now Refresh ref_done_at (on_machine (fun m => with_refresh REF_RUN (with_due due m)) r).

(** The stage [REF_RUN]. *)
Definition refresh_run (now : Z) (m : Memory) (r : Rank) : res Rank :=
  assert_that (numBanksActive (array r) =? 0) ;;
  assert_that (bool_decide (pwrState (machine r) = PWR_REF)) ;;
  assert_that (negb (scheduled Power r)) ;;
  r ← (if drainingOrDrained m then schedulePowerEvent now PWR_IDLE now r
       else if negb (bool_decide (pwrStatePostRefresh (machine r) = PWR_IDLE)) then
         powerDownSleep now (pwrState (machine r)) now r
       else if isQueueEmpty m r && enableDRAMPowerdown k then
         assert_that (outstandingEvents (machine r) =? 1) ;;
         powerDownSleep now PWR_PRE_PDN now r
       else schedulePowerEvent now PWR_IDLE now r);
  schedule now Refresh (refreshDueAt (machine r) - tRP k) r.

Definition processRefreshEvent (now : Z) (m : Memory) (r : Rank) : res Rank :=
  let r :=
    match refreshState (machine r) with
    | REF_IDLE | REF_SREF_EXIT =>
        on_machine (fun mc => incr_outstanding (with_refresh REF_DRAIN (with_due now mc))) r
    | _ => r
    end in
  if bool_decide (refreshState (machine r) = REF_DRAIN) && (rankNo r =? activeRank m) && nextReqScheduled m
  then Ok r
  else
    let r := if bool_decide (refreshState (machine r) = REF_DRAIN)
             then on_machine (with_refresh REF_PD_EXIT) r else r in
    if bool_decide (refreshState (machine r) = REF_PD_EXIT) && inLowPowerState (machine r)
    then scheduleWakeUpEvent now (tXP k) r
    else
      let r := if bool_decide (refreshState (machine r) = REF_PD_EXIT)
               then on_machine (with_refresh REF_PRE) r else r in
      match refreshState (machine r) with
      | REF_PRE => refresh_pre now r
      | REF_START => refresh_start now r
      | REF_RUN => refresh_run now m r
      | _ => Ok r
      end.

(** ** The power event *)

(** A refresh has ended: the rank is idle again, and the next request is
    scheduled at [now] unless it is already; the flag says so. *)
Definition refresh_over (m : Memory) (r : Rank) : res (Rank * bool) :=
  assert_that (outstandingEvents (machine r) =? 1) ;;
  mc ← decr_outstanding (machine r);
  let r := with_machine (with_refresh REF_IDLE mc) r in
  assert_that (bool_decide (pwrState (machine r) = PWR_IDLE) ||
               bool_decide (pwrState (machine r) = PWR_PRE_PDN)) ;;
  Ok (r, negb (nextReqScheduled m)).

(** The rank came to the idle state while a refresh waits. *)
Definition idle_for_refresh (now : Z) (prev_state : PowerState) (r : Rank) : res Rank :=
  match refreshState (machine r) with
  | REF_PRE | REF_PD_EXIT =>
      if negb (scheduled Activate r) then
        assert_that (negb (scheduled Power r)) ;;
        if bool_decide (refreshState (machine r) = REF_PD_EXIT) then
          assert_that (bool_decide (prev_state = PWR_PRE_PDN)) ;;
          schedulePowerEvent now PWR_REF (now + tXP k) r
        else Ok (on_machine (with_pwrState PWR_REF) r)
      else assert_that (scheduled Precharge r) ;; Ok r
  | _ => Ok r
  end.

(** The rank enters the refresh state: it refreshes, or goes to self-refresh. *)
Definition enter_refresh (now : Z) (m : Memory) (r : Rank) : res Rank :=
  assert_that (bool_decide (refreshState (machine r) = REF_PRE) ||
               bool_decide (refreshState (machine r) = REF_PD_EXIT)) ;;
  if bool_decide (pwrStatePostRefresh (machine r) = PWR_PRE_PDN) && isQueueEmpty m r &&
     negb (drainingOrDrained m) && enableDRAMPowerdown k
  then
    r ← powerDownSleep now PWR_SREF now r;
    assert_that (outstandingEvents (machine r) =? 1) ;;
    mc ← decr_outstanding (machine r);
    Ok (with_machine (with_pwrState PWR_IDLE mc) r)
  else
    assert_that (negb (scheduled Power r)) ;;
    r ← schedule now Refresh now r;
    Ok (on_machine (with_refresh REF_START) r).

(** The flag says that the next request is scheduled at [now]. *)
Definition processPowerEvent (now : Z) (m : Memory) (r : Rank) : res (Rank * bool) :=
  assert_that (pwrStateTick (machine r) <=? now) ;;
  let prev_state := pwrState (machine r) in
  let r := on_machine (fun mc => with_tick now (with_pwrState (pwrStateTrans mc) mc)) r in
  '(r, next) ← (if bool_decide (prev_state = PWR_REF) then refresh_over m r else Ok (r, false));
  r ← (if bool_decide (pwrState (machine r) = PWR_ACT) && bool_decide (refreshState (machine r) = REF_PD_EXIT)
       then
         assert_that (bool_decide (prev_state = PWR_ACT_PDN)) ;;
         schedule now Refresh now (on_machine (with_refresh REF_PRE) r)
       else if bool_decide (pwrState (machine r) = PWR_IDLE) then
         if bool_decide (prev_state = PWR_SREF) then
           schedule now Refresh (now + tXS k) (on_machine (with_refresh REF_SREF_EXIT) r)
         else idle_for_refresh now prev_state r
       else Ok r);
  r ← (if bool_decide (pwrState (machine r) = PWR_REF) then enter_refresh now m r else Ok r);
  Ok (r, next).

(** ** The ranks in the events of the controller *)

Definition on_rank (i : nat) (f : Rank -> res Rank) (s : t) : res t :=
  r ← deref (ranks s !! i); r ← f r; Ok (with_ranks (<[i := r]> (ranks s)) s).

(** The loop over the ranks in [processNextReqEvent]: a rank that waits to drain
    goes on with its refresh, and a rank in self-refresh may have to wake up; the
    number counts the busy ranks. *)
Definition check_rank (now : Z) (m : Memory) (r : Rank) : res (Rank * Z) :=
  if inRefIdleState r then Ok (r, 0)
  else
    '(r, busy) ← (if negb (bool_decide (pwrState (machine r) = PWR_SREF)) then
                    r ← checkDrainDone now r; Ok (r, 1)
                  else Ok (r, 0));
    r ← (if bool_decide (pwrState (machine r) = PWR_SREF) && inLowPowerState (machine r) &&
            forceSelfRefreshExit m r
         then scheduleWakeUpEvent now (tXS k) r else Ok r);
    Ok (r, busy).

Definition check_ranks (now : Z) (m : Memory) (s : t) : res (t * Z) :=
  for_each (seq 0 (length (ranks s))) (fun i '(s, busyRanks) =>
    r ← deref (ranks s !! i);
    '(r, busy) ← check_rank now m r;
    Ok (with_ranks (<[i := r]> (ranks s)) s, busyRanks + busy)) (s, 0).

(** The reads that wait for their data, with their ready times, and the tick of
    [respondEvent]. *)
Record Ctrl := mkCtrl { bus : t; respQueue : list (DRAMPacket * Z); respondAt : option Z }.

(** The access of [processNextReqEvent] to the read [p]; the request queues are in
    [DramQueues.serve_read]. *)
Definition serve_read (now : Z) (p : DRAMPacket) (pos : nat * nat) (queues : list (list DRAMPacket))
    (w : Ctrl) : res Ctrl :=
  r ← rankRef (bus w) p;
  assert_that (inRefIdleState r) ;;
  '(readyTime, s) ← doDRAMAccess c k now p pos queues (bus w);
  s ← on_rank (Z.to_nat (rank p)) (fun r => Ok (on_machine incr_outstanding r)) s;
  assert_that (size p <=? burstSize c) ;;
  assert_that (now <=? readyTime) ;;
  at_ ← match last (respQueue w) with
        | None => assert_that (bool_decide (respondAt w = None)) ;; Ok (Some readyTime)
        | Some x =>
            assert_that (x.2 <=? readyTime) ;;
            assert_that (bool_decide (is_Some (respondAt w))) ;; Ok (respondAt w)
        end;
  Ok (mkCtrl s (respQueue w ++ [(p, readyTime)]) at_).

(** The write event of the rank covers the latest write. *)
Definition write_done (now readyTime : Z) (r : Rank) : res Rank :=
  match event_at r WriteDone with
  | None => r ← schedule now WriteDone readyTime r; Ok (on_machine incr_outstanding r)
  | Some at_ => if at_ <? readyTime then reschedule now WriteDone readyTime r else Ok r
  end.

(** The access to the write [p]; the request queues are in [DramQueues.serve_write]. *)
Definition serve_write (now : Z) (p : DRAMPacket) (pos : nat * nat) (queues : list (list DRAMPacket))
    (w : Ctrl) : res Ctrl :=
  r ← rankRef (bus w) p;
  assert_that (inRefIdleState r) ;;
  assert_that (size p <=? burstSize c) ;;
  '(readyTime, s) ← doDRAMAccess c k now p pos queues (bus w);
  s ← on_rank (Z.to_nat (rank p))
        (fun r => write_done now readyTime (with_entries (readEntries r) (u32 (writeEntries r - 1)) r)) s;
  Ok (mkCtrl s (respQueue w) (respondAt w)).

(** What [processRespondEvent] does to the rank of the read that is answered. *)
Definition respond_rank (now : Z) (m : Memory) (r : Rank) : res Rank :=
  let r := with_entries (u32 (readEntries r - 1)) (writeEntries r) r in
  mc ← decr_outstanding (machine r);
  let r := with_machine mc r in
  assert_that (negb (bool_decide (pwrState (machine r) = PWR_SREF)) &&
               negb (bool_decide (pwrState (machine r) = PWR_PRE_PDN)) &&
               negb (bool_decide (pwrState (machine r) = PWR_ACT_PDN))) ;;
  if isQueueEmpty m r && (outstandingEvents (machine r) =? 0) && enableDRAMPowerdown k then
    assert_that (negb (scheduled Activate r)) ;;
    assert_that (negb (scheduled Precharge r)) ;;
    powerDownSleep now
      (if bool_decide (pwrState (machine r) = PWR_IDLE) then PWR_PRE_PDN else PWR_ACT_PDN) now r
  else Ok r.

(** The ranks and the times in [processRespondEvent]; the packet and its answer are in
    [DramQueues.processRespondEvent]. *)
Definition processRespondEvent (now : Z) (m : Memory) (w : Ctrl) : res Ctrl :=
  match respQueue w with
  | [] => Fail Undefined
  | (p, _) :: rest =>
      s ← on_rank (Z.to_nat (rank p)) (respond_rank now m) (bus w);
      at_ ← match rest with
            | [] => Ok None
            | x :: _ => assert_that (now <=? x.2) ;; Ok (Some x.2)
            end;
      Ok (mkCtrl s rest at_)
  end.

(** ** Draining *)

Definition allRanksDrained (s : t) : bool :=
  forallb (fun r => inPwrIdleState r && inRefIdleState r) (ranks s).

(** A rank in self-refresh is woken up. *)
Definition drain_ranks (now : Z) (s : t) : res t :=
  for_each (seq 0 (length (ranks s))) (fun i s =>
    on_rank i (fun r => if bool_decide (pwrState (machine r) = PWR_SREF)
                        then scheduleWakeUpEvent now (tXS k) r else Ok r) s) s.

Inductive DrainState := Draining | Drained.

(** [drain], with the sizes of the queues and whether the next request is
    scheduled; the flag says that it is scheduled at [now]. *)
Definition drain (now totalWriteQueueSize totalReadQueueSize : Z) (nextReqScheduled : bool) (w : Ctrl)
    : res (DrainState * bool * Ctrl) :=
  if negb ((totalWriteQueueSize =? 0) && (totalReadQueueSize =? 0) && bool_decide (respQueue w = []) &&
           allRanksDrained (bus w))
  then
    let kick := (totalWriteQueueSize =? 0) && negb nextReqScheduled in
    s ← drain_ranks now (bus w);
    Ok (Draining, kick, mkCtrl s (respQueue w) (respondAt w))
  else Ok (Drained, false, w).

(** [drainResume]: [was_timing] is [isTimingMode], [timing] the mode of the system,
    which is the new [isTimingMode]. *)
Definition drainResume (now : Z) (was_timing timing : bool) (s : t) : res t :=
  if negb was_timing && timing then startup now s
  else if was_timing && negb timing then
    rs ← for_each (ranks s) (fun r rs => r ← suspend now r; Ok (rs ++ [r])) [];
    Ok (with_ranks rs s)
  else Ok s.
End Power.
End DramPower.
