(* ===== verification/DramRefresh.v ===== *)
(** * Refresh keeps the timing of the device

    Proves that the refresh and power state machines of [DramPower], run by the
    events of the simulator together with the accesses, never fail an assertion
    and never break the protocol of the device, in the default configuration of
    the controller, where the ranks do not power down. *)

From S2P Require Import Prelude Common PageTable Clock DramQueues DramRank DramTiming DramPower.

Module DramRefresh.
Import DramQueues DramRank DramTiming DramPower.

(** What the refresh needs of the parameters: the data of a read has left before
    a precharge that follows it is over, and a refresh outlasts the distances
    between activates. *)
Record refresh_ok (k : timing) : Prop := {
  rf_data : tCL k + tBURST k < tRTP k + tRP k;
  rf_refi : tRP k < tREFI k;
  rf_rrd : tRRD k <= tRAS k + tRP k + tRFC k;
  rf_rrd_l : tRRD_L k <= tRAS k + tRP k + tRFC k;
  rf_xaw : tXAW k <= tRAS k + tRP k + tRFC k
}.

Section Refresh.
Context (c : config) (k : timing) (Hk : timing_ok k) (Hf : refresh_ok k).
Context (sort : list Command -> list Command).
Notation array_ok := (DramTiming.array_ok c k).
Notation gap := (gap k (group_of k)).
Notation effect := (DramTiming.effect k).
Notation covered := (DramTiming.covered k).

(** ** Precharging all banks *)

Definition shut (pre_at : Z) (b : Bank) : Bank :=
  if is_closed b then
    with_pre (Z.max (preAllowedAt b) pre_at) (with_act (Z.max (actAllowedAt b) (pre_at + tRP k)) b)
  else precharged k pre_at b.

Lemma shut_closed pre_at b : is_closed (shut pre_at b) = true.
Proof. unfold shut. by destruct (is_closed b) eqn:E. Qed.

Lemma open_banks_app l1 l2 : open_banks (l1 ++ l2) = (open_banks l1 + open_banks l2)%nat.
Proof. unfold open_banks. by rewrite filter_app, length_app. Qed.

Lemma open_banks_shut pre_at l : open_banks (shut pre_at <$> l) = O.
Proof.
  unfold open_banks. induction l as [|b l IH]; [done|].
  rewrite fmap_cons, filter_cons, decide_False by (by rewrite shut_closed). done.
Qed.

Lemma precharge_at_ge now bs :
  now <= precharge_at now bs /\ forall b, b ∈ bs -> preAllowedAt b <= precharge_at now bs.
Proof.
  unfold precharge_at. revert now. induction bs as [|b bs IH]; intros now; cbn.
  - split; [lia|set_solver].
  - destruct (IH (Z.max (preAllowedAt b) now)) as [H1 H2]. split; [lia|].
    intros o [->|Ho]%elem_of_cons; [lia|auto].
Qed.

(** The rank after the first [m] banks. *)
Record shutting (now pre_at : Z) (r : Rank) (m : nat) (r' : Rank) : Prop := {
  sh_banks : banks (array r') = (shut pre_at <$> take m (banks (array r))) ++ drop m (banks (array r));
  sh_active : numBanksActive (array r') = Z.of_nat (open_banks (drop m (banks (array r))));
  sh_ticks : actTicks (array r') = actTicks (array r);
  sh_issued : issued (array r') = issued (array r);
  sh_list : cmdList (array r') = cmdList (array r);
  sh_power : powerlib (array r') = powerlib (array r);
  sh_frame : frame [Precharge] r r';
  sh_event : open_banks (take m (banks (array r))) = O /\ machine r' = machine r /\
      event_at r' Precharge = event_at r Precharge \/
    open_banks (take m (banks (array r))) <> O /\
    machine r' = counted (event_at r Precharge) (machine r) /\
    event_at r' Precharge = later_of (event_at r Precharge) (pre_at + tRP k)
}.

Lemma lookup_shutting pre_at (bs : list Bank) m b :
  bs !! m = Some b -> ((shut pre_at <$> take m bs) ++ drop m bs) !! m = Some b.
Proof.
  intros Hb. pose proof (lookup_lt_Some _ _ _ Hb).
  rewrite lookup_app_r; rewrite length_fmap, length_take_le by lia; [|lia].
  by rewrite Nat.sub_diag, lookup_drop, Nat.add_0_r.
Qed.

Lemma insert_shutting pre_at (bs : list Bank) m b :
  bs !! m = Some b ->
  <[m := shut pre_at b]> ((shut pre_at <$> take m bs) ++ drop m bs) =
    (shut pre_at <$> take (S m) bs) ++ drop (S m) bs.
Proof.
  intros Hb. pose proof (lookup_lt_Some _ _ _ Hb). rewrite (take_S_r _ _ _ Hb), fmap_app, <- app_assoc.
  rewrite insert_app_r_alt; rewrite length_fmap, length_take_le by lia; [|lia].
  by rewrite Nat.sub_diag, (drop_S _ _ _ Hb).
Qed.


Lemma open_banks_drop bs m b :
  bs !! m = Some b ->
  open_banks (drop m bs) = ((if is_closed b then 0 else 1) + open_banks (drop (S m) bs))%nat /\
  open_banks (take (S m) bs) = (open_banks (take m bs) + (if is_closed b then 0 else 1))%nat.
Proof.
  intros Hb. rewrite (drop_S _ _ _ Hb), (take_S_r _ _ _ Hb), open_banks_app. unfold open_banks at 1 4.
  rewrite !filter_cons, filter_nil. destruct (is_closed b); repeat case_decide; try done; cbn; lia.
Qed.

Lemma shut_step now pre_at r m r1 :
  now <= pre_at -> (m < length (banks (array r)))%nat -> shutting now pre_at r m r1 ->
  exists r2, precharge_one k now pre_at m r1 = Ok r2 /\ shutting now pre_at r (S m) r2.
Proof.
  intros Hn Hm [Eb En Et Ei El Epl HF He]. destruct (lookup_lt_is_Some_2 _ _ Hm) as [b Hb].
  pose proof (ok_rp k Hk). destruct (open_banks_drop _ _ _ Hb) as [Ed Etk].
  unfold precharge_one. rewrite Eb, (lookup_shutting pre_at _ _ _ Hb). cbn [deref mbind res_bind].
  change (openRow b =? NO_ROW) with (is_closed b). destruct (is_closed b) eqn:Hc; cbn [negb].
  - eexists. split; [done|]. split; cbn.
    + rewrite <- (insert_shutting _ _ _ _ Hb), Eb. f_equal. unfold shut. by rewrite Hc.
    + rewrite En, Ed. done.
    + done.
    + done.
    + done.
    + done.
    + done.
    + rewrite Etk, Nat.add_0_r. done.
  - unfold prechargeBank. rewrite Eb, (lookup_shutting pre_at _ _ _ Hb). cbn [deref mbind res_bind].
    change (openRow b =? NO_ROW) with (is_closed b). rewrite Hc. cbn [negb assert_that mbind res_bind numBanksActive with_banks].
    assert (numBanksActive (array r1) =? 0 = false) as -> by (apply Z.eqb_neq; lia).
    cbn [negb assert_that mbind res_bind].
    match goal with |- context [with_array ?A r1] => set (r1' := with_array A r1) end.
    destruct (later_event k Hk now (pre_at + tRP k) r1' ltac:(lia)) as (r2 & E & Earr & Em & Hfr & Eev).
    exists r2. split; [exact E|]. split.
    + rewrite Earr. cbn. rewrite <- (insert_shutting _ _ _ _ Hb). f_equal. unfold shut. by rewrite Hc.
    + rewrite Earr. cbn. lia.
    + by rewrite Earr.
    + by rewrite Earr.
    + by rewrite Earr.
    + by rewrite Earr.
    + destruct HF as (F1 & F2 & F3 & F4), Hfr as (G1 & G2 & G3 & G4). cbn in G1, G2, G3, G4.
      repeat split; [congruence..|]. intros e Hne. by rewrite G4, F4.
    + right. rewrite Etk. split; [lia|]. rewrite Em, Eev. cbn [event_at machine with_array r1'].
      change (event_at r1' Precharge) with (event_at r1 Precharge). change (machine r1') with (machine r1).
      destruct He as [(_ & -> & ->)|(_ & -> & ->)]; [done|].
      split; [by destruct (event_at r Precharge)|]. unfold later_of.
      destruct (event_at r Precharge); f_equal; lia.
Qed.


Lemma shut_issues l i b pre_at :
  bank_ok k l i b -> preAllowedAt b <= pre_at ->
  issues k (mkCommand PREA 0 pre_at) i b (shut pre_at b).
Proof.
  intros Hb Hp. pose proof (ok_rp k Hk). pose proof (bk_row _ _ _ _ Hb). unfold shut.
  destruct (is_closed b) eqn:Hc; split; cbn; rewrite ?Hc; try done; try lia; try (intros d; congruence).
  - unfold is_closed in *. cbn. by rewrite Hc.
  - intros d [= <-]. split; [lia|]. intros _. lia.
  - intros d [= <-]. lia.
  - intros d [= <-]. split; [lia|]. intros _. lia.
  - intros d [= <-]. lia.
Qed.

Lemma shut_later pre_at bs : later bs (shut pre_at <$> bs).
Proof.
  split; [apply length_fmap|]. intros i b b' Hb Hb'. rewrite list_lookup_fmap, Hb in Hb'. injection Hb' as <-.
  unfold shut. destruct (is_closed b); repeat split; cbn; lia.
Qed.

(** A command that may be followed by a precharge of all banks. *)
Lemma gap_prea a y pre_at d :
  array_ok a -> (forall b, b ∈ banks a -> preAllowedAt b <= pre_at) -> y ∈ issued a ->
  gap y (mkCommand PREA 0 pre_at) = Some d -> timeStamp y + d <= pre_at.
Proof.
  intros Ha Hp Hy Hd. destruct (ar_cmds _ _ _ Ha y Hy) as [_ Hr]. pose proof (ar_banks _ _ _ Ha).
  destruct (lookup_lt_is_Some_2 (banks a) (Z.to_nat (cbank y))) as [b Hb]; [lia|].
  specialize (Hp b ltac:(by eapply list_elem_of_lookup_2)).
  pose proof (bk_pre _ _ _ _ (ar_bank _ _ _ Ha _ _ Hb) y d Hy) as H0. rewrite Z2Nat.id in H0 by lia.
  enough (timeStamp y + d <= preAllowedAt b) by lia. apply H0. revert Hd.
  unfold DramTiming.gap. cbn. rewrite Z.eqb_refl. by destruct (type y).
Qed.

(** All banks are precharged. *)
Lemma precharge_all_ok now r :
  array_ok (array r) -> 0 < now -> 0 < banksPerRank c -> numBanksActive (array r) <> 0 ->
  exists r1 r2, let pre_at := precharge_at now (banks (array r)) in
    for_each (seq 0 (length (banks (array r)))) (precharge_one k now pre_at) r = Ok r1 /\
    r2 = on_array (push_cmd PREA 0 pre_at) r1 /\
    array_ok (array r2) /\ effect now r r2 /\ numBanksActive (array r2) = 0 /\ event_at r2 Precharge <> None /\
    later (banks (array r)) (banks (array r2)).
Proof.
  intros Ha Hn Hpos Hact. set (bs := banks (array r)). set (pre_at := precharge_at now bs).
  destruct (precharge_at_ge now bs) as [Hge Hall]. fold pre_at in Hge, Hall.
  destruct (for_each_seq (shutting now pre_at r) (length bs) (precharge_one k now pre_at) r) as (r1 & E1 & H1).
  { split; try done; [|by left]. by rewrite (ar_active _ _ _ Ha). }
  { intros m r1 Hm. by apply shut_step. }
  destruct H1 as [Eb En Et Ei El Epl (F1 & F2 & F3 & F4) He].
  fold bs in Eb, En, He. rewrite take_ge, drop_ge, ?app_nil_r in Eb by done. rewrite drop_ge in En by done.
  rewrite take_ge in He by done. destruct He as [(E0 & _)|(_ & Em & Ee)];
    [exfalso; apply Hact; rewrite (ar_active _ _ _ Ha); fold bs; lia|].
  exists r1, (on_array (push_cmd PREA 0 pre_at) r1). cbn zeta. split; [done|]. split; [done|].
  split; [|split; [|cbn; rewrite En, Ee, Eb; split; [done|split; [done|apply shut_later]]]].
  - apply (array_ok_issue c k (array r) _ (mkCommand PREA 0 pre_at)); try done; cbn.
    + lia.
    + split; [by rewrite Eb, length_fmap|]. intros i b b' Hb Hb'. rewrite Eb, list_lookup_fmap in Hb'.
      fold bs in Hb. rewrite Hb in Hb'. injection Hb' as <-. apply (shut_issues (issued (array r))).
      * by apply (ar_bank _ _ _ Ha).
      * apply Hall. by eapply list_elem_of_lookup_2.
    + by rewrite Ei.
    + rewrite En, Eb. symmetry. by apply (f_equal Z.of_nat), open_banks_shut.
    + intros y Hy d Hd. by eapply gap_prea.
  - split.
    + cbn. rewrite Em, Ee. apply counted_machine.
    + repeat split; try done. cbn. intros e Hne. apply F4. set_solver.
    + cbn. rewrite Ee. apply later_of_ge.
    + cbn. intros w. rewrite Ee. unfold later_of. intros [= <-]. pose proof (ok_rp k Hk).
      destruct (event_at r Precharge) as [v|]; [|right; lia].
      destruct (decide (v < pre_at + tRP k)); [right; lia|left; f_equal; lia].
    + left. cbn. apply F4. set_solver.
    + intros t. apply covered_banks; [cbn; rewrite Ee; apply later_of_ge|]. intros i b Hb _. left.
      cbn. rewrite Ee. eexists. split; [done|].
      specialize (Hall b ltac:(by eapply list_elem_of_lookup_2)). destruct (event_at r Precharge); lia.
    + exists [mkCommand PREA 0 pre_at]. unfold logs. cbn. rewrite Ei, El, Epl. repeat split. by repeat constructor.
    + intros x. cbn. rewrite Ei. intros [Hx| ->%list_elem_of_singleton]%elem_of_app; [by left|right].
      split; [done|]. intros _. rewrite Ee. eexists. split; [done|]. cbn. destruct (event_at r Precharge); lia.
Qed.


(** ** The refresh command *)

(** A bank that is closed was closed by a precharge. *)
Lemma closed_later i l1 l2 :
  is_open i l1 = true -> is_open i (l1 ++ l2) = false ->
  exists m1 y m2, l2 = m1 ++ y :: m2 /\ (type y = PRE /\ cbank y = i \/ type y = PREA).
Proof.
  revert l1. induction l2 as [|y l2 IH]; intros l1 H1 H2; [rewrite app_nil_r in H2; congruence|].
  destruct (decide (type y = PRE /\ cbank y = i \/ type y = PREA)) as [Hy|Hy].
  { by exists [], y, l2. }
  destruct (IH (l1 ++ [y])) as (m1 & z & m2 & -> & Hz).
  - rewrite is_open_snoc, H1. unfold opens. destruct (type y) eqn:E; try done.
    + by destruct (cbank y =? i).
    + destruct (Z.eqb_spec (cbank y) i); [exfalso; apply Hy; auto|done].
    + exfalso. apply Hy. auto.
  - by rewrite <- app_assoc.
  - by exists (y :: m1), z, m2.
Qed.

(** What a closed bank has behind it. *)
Lemma settled l i x d t :
  protocol k (group_of k) l -> is_open i l = false -> x ∈ l -> gap x (mkCommand PRE i 0) = Some d ->
  (forall y, y ∈ l -> type y = PRE \/ type y = PREA -> timeStamp y + tRP k <= t) ->
  timeStamp x + d + tRP k <= t.
Proof.
  intros Hl Hc Hx Hd Ht. apply list_elem_of_split in Hx as (l1 & l2 & ->).
  destruct (Hl l1 x l2 eq_refl) as [Hal _].
  destruct (decide (type x = PRE \/ type x = PREA)) as [Hp|Hp].
  { specialize (Ht x ltac:(set_solver) Hp). revert Hd. unfold DramTiming.gap. cbn.
    destruct Hp as [-> | ->]; [destruct (cbank x =? i)|]; intros [= <-]; lia. }
  assert (cbank x = i /\ is_open i (l1 ++ [x]) = true) as [Hi Ho].
  { rewrite is_open_snoc. unfold opens. revert Hd Hal. unfold DramTiming.gap, allowed. cbn.
    destruct (Z.eqb_spec (cbank x) i) as [<-|]; destruct (type x); try done; naive_solver. }
  rewrite cons_middle, app_assoc in Hc. destruct (closed_later i (l1 ++ [x]) l2 Ho Hc) as (m1 & y & m2 & -> & Hy).
  destruct (Hl (l1 ++ x :: m1) y m2) as [_ Hr]; [by rewrite <- app_assoc|].
  rewrite Forall_forall in Hr. specialize (Hr x ltac:(set_solver)).
  specialize (Ht y ltac:(set_solver) ltac:(tauto)).
  enough (timeStamp x + d <= timeStamp y) by lia. apply Hr. revert Hd. unfold DramTiming.gap. cbn.
  destruct Hy as [[-> ->]| ->]; [done|]. rewrite Hi, Z.eqb_refl. by destruct (type x).
Qed.

Lemma is_open_range l i :
  (forall x, x ∈ l -> cbank x <> i) -> is_open i l = false.
Proof.
  induction l as [|x l IH] using rev_ind; intros H; [done|]. rewrite is_open_snoc, IH by set_solver.
  specialize (H x ltac:(set_solver)). unfold opens.
  assert (cbank x =? i = false) as -> by (by apply Z.eqb_neq). by destruct (type x).
Qed.

Lemma all_closed a i : array_ok a -> numBanksActive a = 0 -> is_open i (issued a) = false.
Proof.
  intros Ha Hn. destruct (decide (0 <= i < banksPerRank c)) as [Hi|Hi].
  - pose proof (ar_banks _ _ _ Ha). destruct (lookup_lt_is_Some_2 (banks a) (Z.to_nat i)) as [b Hb]; [lia|].
    pose proof (bk_open _ _ _ _ (ar_bank _ _ _ Ha _ _ Hb)) as Ho. rewrite Z2Nat.id in Ho by lia.
    rewrite Ho. destruct (is_closed b) eqn:E; [done|].
    pose proof (open_banks_open k Hk _ _ _ Hb E). rewrite (ar_active _ _ _ Ha) in Hn. lia.
  - apply is_open_range. intros x Hx <-. by apply Hi, (ar_cmds _ _ _ Ha).
Qed.

Lemma closed_bank a i b : array_ok a -> numBanksActive a = 0 -> banks a !! i = Some b -> is_closed b = true.
Proof.
  intros Ha Hn Hb. destruct (is_closed b) eqn:E; [done|].
  pose proof (open_banks_open k Hk _ _ _ Hb E). rewrite (ar_active _ _ _ Ha) in Hn. lia.
Qed.

(** An activate before a refresh. *)
Lemma settled_act a x t :
  array_ok a -> numBanksActive a = 0 -> x ∈ issued a -> type x = ACT ->
  (forall y, y ∈ issued a -> type y = PRE \/ type y = PREA -> timeStamp y + tRP k <= t) ->
  timeStamp x + tRAS k + tRP k <= t.
Proof.
  intros Ha Hn Hx Hty Ht.
  apply (settled (issued a) (cbank x) x (tRAS k)); [apply Ha|by apply all_closed|done| |done].
  unfold DramTiming.gap. cbn. by rewrite Hty, Z.eqb_refl.
Qed.

Lemma refresh_array a now :
  array_ok a -> numBanksActive a = 0 -> 0 < now -> 0 < banksPerRank c ->
  (forall x, x ∈ issued a -> type x = PRE \/ type x = PREA -> timeStamp x + tRP k <= now) ->
  (forall x, x ∈ issued a -> type x = REF -> timeStamp x + tRFC k <= now) ->
  array_ok (push_cmd REF 0 now (with_banks (with_act (now + tRFC k) <$> banks a) a)).
Proof.
  intros Ha Hn Hpos Hbk Hp Hr. pose proof Ha as [H1 H2 H3 H4 H5 H6 H7 H8 H9].
  pose proof (ok_rfc k Hk). pose proof (ok_rp k Hk). pose proof Hf as [_ _ F1 F2 F3].
  assert (forall x d i, x ∈ issued a -> gap x (ACTc i) = Some d -> timeStamp x + d <= now + tRFC k) as Hact.
  { intros x d i Hx. unfold DramTiming.gap, ACTc. cbn. destruct (type x) eqn:Ht; try done.
    - pose proof (settled_act a x now Ha Hn Hx Ht Hp). destruct (_ && _); intros [= <-]; lia.
    - specialize (Hp x Hx (or_introl Ht)). destruct (_ =? _); intros [= <-]. lia.
    - specialize (Hp x Hx (or_intror Ht)). intros [= <-]. lia.
    - specialize (Hr x Hx Ht). intros [= <-]. lia. }
  split; cbn.
  - by rewrite length_fmap.
  - by rewrite length_fmap.
  - rewrite H3. f_equal. symmetry. by apply open_banks_fmap.
  - intros i b'. rewrite list_lookup_fmap. destruct (banks a !! i) as [b|] eqn:Hb; [|done]. intros [= <-].
    pose proof (closed_bank a i b Ha Hn Hb) as Hc. pose proof (all_closed a (Z.of_nat i) Ha Hn) as Hop.
    destruct (H4 i b Hb) as [B1 B2 B3 B4 B5 B6 B7 B8]. split; cbn; try done.
    + rewrite is_open_snoc. cbn. done.
    + intros x d [Hx| ->%list_elem_of_singleton]%elem_of_app Hd; [by apply B4|done].
    + intros x d [Hx| ->%list_elem_of_singleton]%elem_of_app Hd; [by eapply Hact|]. cbn. injection Hd as <-. lia.
    + intros x d [Hx| ->%list_elem_of_singleton]%elem_of_app Hd; [by apply B6|done].
    + intros x d [Hx| ->%list_elem_of_singleton]%elem_of_app Hd; [by apply B7|done].
    + intros _ x d [Hx| ->%list_elem_of_singleton]%elem_of_app Hd; [|done].
      pose proof (settled (issued a) (Z.of_nat i) x d now H8 Hop Hx Hd Hp). lia.
  - intros x [Hx| ->%list_elem_of_singleton]%elem_of_app; [by apply H5|cbn; lia].
  - rewrite H6. unfold window_of. by rewrite activates_snoc, decide_False, app_nil_r by done.
  - intros x Hx Hne b (b0 & -> & _)%list_elem_of_fmap. cbn. rewrite H6 in Hx.
    destruct (window_members k (issued a) x) as [|Hx1]; [|done|].
    { apply last_Some_elem_of in Hx. done. }
    unfold activates in Hx1. apply list_elem_of_fmap in Hx1 as (y & -> & [Hy1 Hy2]%list_elem_of_filter).
    pose proof (settled_act a y now Ha Hn Hy2 Hy1 Hp). lia.
  - apply protocol_snoc; [done|intros b; by apply all_closed|]. apply Forall_forall.
    intros y Hy d. unfold DramTiming.gap. cbn. destruct (type y) eqn:Ht; try done; intros [= <-]; auto.
  - unfold windowed. rewrite activates_snoc, decide_False, app_nil_r by done. apply H9.
Qed.


(** ** The invariant of a rank *)

Definition flag (o : option Z) : Z := match o with Some _ => 1 | None => 0 end.
Definition refreshing (m : Machine) : Z := if bool_decide (refreshState m = REF_IDLE) then 0 else 1.
Definition awake (p : PowerState) : Prop := p = PWR_IDLE \/ p = PWR_ACT.
Definition soon (T : Z) (o : option Z) : Prop := forall w, o = Some w -> T <= w.

(** The states of the two machines, by the refresh and the power event; [n] banks
    are active. *)
Definition state_ok (T n : Z) (m : Machine) (pre ref pow : option Z) : Prop :=
  match refreshState m, pow with
  | REF_IDLE, None => awake (pwrState m) /\ is_Some ref
  | REF_IDLE, Some _ => awake (pwrState m) /\ is_Some ref /\ awake (pwrStateTrans m)
  | REF_DRAIN, None => awake (pwrState m) /\ ref = None
  | REF_DRAIN, Some _ => awake (pwrState m) /\ ref = None /\ awake (pwrStateTrans m)
  | REF_PD_EXIT, None => awake (pwrState m) /\ ref = Some T
  | REF_PRE, None => awake (pwrState m) /\ ref = None /\ n = 0 /\ pre <> None
  | REF_PRE, Some _ => awake (pwrState m) /\ ref = None /\ n = 0 /\
      (pwrStateTrans m = PWR_ACT /\ pre <> None \/
       (pwrStateTrans m = PWR_IDLE \/ pwrStateTrans m = PWR_REF) /\ pre = None)
  | REF_START, None => pwrState m = PWR_REF /\ ref = Some T /\ n = 0 /\ pre = None
  | REF_RUN, None => pwrState m = PWR_REF /\ n = 0 /\ pre = None /\ is_Some ref
  | REF_RUN, Some _ => pwrState m = PWR_REF /\ n = 0 /\ pre = None /\ is_Some ref /\
      pwrStateTrans m = PWR_IDLE
  | _, _ => False
  end.

(** What the power model was given until tick [T]: with the commands that wait it
    is all that was issued, in the order of time. *)
Definition traced (T : Z) (a : Array) : Prop :=
  exists given, powerlib a = to_powerlib k <$> given /\ given ++ cmdList a ≡ₚ issued a /\
    StronglySorted (fun x y => timeStamp x <= timeStamp y) given /\
    (forall x, x ∈ given -> timeStamp x <= T) /\
    forall x y, x ∈ given -> y ∈ cmdList a -> timeStamp x <= timeStamp y.

Lemma traced_logs T new a a' : traced T a -> logs T new a a' -> traced T a'.
Proof.
  intros (g & P & Hp & Hs & Ht & Hc) (I & C & P' & F). exists g. rewrite P', C, I.
  split; [done|]. split; [by rewrite app_assoc, Hp|]. split; [done|]. split; [done|].
  intros x y Hx [Hy|Hy]%elem_of_app; [auto|]. rewrite Forall_forall in F. specialize (F y Hy). specialize (Ht x Hx). lia.
Qed.

Lemma traced_advance T t a : traced T a -> T <= t -> traced t a.
Proof.
  intros (g & P & Hp & Hs & Ht & Hc) Hle. exists g. repeat (split; [done|]). split; [|done].
  intros x Hx. specialize (Ht x Hx). lia.
Qed.

Lemma split_due_spec T l :
  StronglySorted (fun x y => timeStamp x <= timeStamp y) l ->
  let '(d, r) := split_due T l in
  l = d ++ r /\ StronglySorted (fun x y => timeStamp x <= timeStamp y) d /\
  (forall x, x ∈ d -> timeStamp x <= T) /\ (forall x y, x ∈ d -> y ∈ r -> timeStamp x <= timeStamp y).
Proof.
  induction 1 as [|x l Hl IH Hx]; cbn.
  - split; [done|]. split; [constructor|]. set_solver.
  - destruct (Z.leb_spec (timeStamp x) T) as [Hle|Hgt].
    + destruct (split_due T l) as [d r]. destruct IH as (-> & Hd & Ht & Hc). rewrite Forall_app in Hx.
      destruct Hx as [Hx1 Hx2]. rewrite Forall_forall in Hx2. split; [done|]. split; [by constructor|].
      split; [intros y [->|Hy]%elem_of_cons; auto|]. intros y z [->|Hy]%elem_of_cons Hz; auto.
    + split; [done|]. split; [constructor|]. set_solver.
Qed.

Lemma StronglySorted_join {A} (R : A -> A -> Prop) l1 l2 :
  StronglySorted R l1 -> StronglySorted R l2 -> (forall x y, x ∈ l1 -> y ∈ l2 -> R x y) ->
  StronglySorted R (l1 ++ l2).
Proof.
  intros H1 H2 H. induction H1 as [|x l1 Hl IH Hx]; cbn; [done|].
  constructor; [apply IH; set_solver|]. apply Forall_app. split; [done|]. apply Forall_forall. set_solver.
Qed.

(** [std::sort] as the C++ standard describes it. *)
Context (Hsort : forall l, sort l ≡ₚ l /\ StronglySorted (fun x y => timeStamp x <= timeStamp y) (sort l)).

Lemma traced_flush T a : traced T a -> traced T (flushCmdList k sort T a).
Proof.
  intros (g & P & Hp & Hs & Ht & Hc). destruct (Hsort (cmdList a)) as [Hperm Hsorted].
  pose proof (split_due_spec T _ Hsorted) as Hsp. unfold flushCmdList.
  destruct (split_due T (sort (cmdList a))) as [d r]. destruct Hsp as (E & Hd & Hdt & Hdc).
  rewrite E in Hperm. assert (forall x, x ∈ d \/ x ∈ r -> x ∈ cmdList a) as Hin
    by (intros x Hx; rewrite <- Hperm; by apply elem_of_app).
  exists (g ++ d). cbn. rewrite P, fmap_app. split; [done|]. split; [by rewrite <- app_assoc, Hperm|].
  split; [apply StronglySorted_join; [done|done|]; intros x y Hx Hy; apply Hc; [done|]; apply Hin; by left|].
  split.
  - intros x [Hx|Hx]%elem_of_app; auto.
  - intros x y [Hx|Hx]%elem_of_app Hy; [apply Hc; [done|]; apply Hin; by right|auto].
Qed.

(** A rank at tick [T] that waits for the data of [reads], with its events. *)
Record inv (T : Z) (reads : list Z) (a : Array) (m : Machine) (wd act pre ref pow wk : option Z) : Prop := {
  in_array : array_ok a;
  in_low : inLowPowerState m = false /\ wk = None /\ pwrStatePostRefresh m = PWR_IDLE;
  in_power : forall w, pow = Some w -> w = T;
  in_future : soon T wd /\ soon T act /\ soon T pre /\ soon T ref;
  in_reads : forall t, t ∈ reads -> T <= t;
  in_count : outstandingEvents m = Z.of_nat (length reads) + flag wd + flag pre + refreshing m;
  in_room : (length reads <= 250)%nat;
  in_cover : forall t, t ∈ reads \/ wd = Some t \/ act = Some t ->
    (exists w, pre = Some w /\ t < w) \/
    (exists b, b ∈ banks a /\ is_closed b = false /\ t < preAllowedAt b + tRP k);
  in_pre : forall x, x ∈ issued a -> type x = PRE \/ type x = PREA ->
    timeStamp x + tRP k <= T \/ exists w, pre = Some w /\ timeStamp x + tRP k <= w;
  in_ref : forall x, x ∈ issued a -> type x = REF -> timeStamp x + tRFC k <= T \/
    refreshState m = REF_RUN /\ pow = None /\ exists w, ref = Some w /\ timeStamp x + tRFC k <= w;
  in_tick : pwrStateTick m <= T;
  in_active : (match pow with None => pwrState m | Some _ => pwrStateTrans m end) = PWR_ACT ->
    numBanksActive a <> 0 \/ pre <> None;
  in_state : state_ok T (numBanksActive a) m pre ref pow;
  in_started : forall w, ref = Some w -> 0 < w;
  in_busy : refreshState m <> REF_IDLE -> 0 < T;
  in_trace : traced T a
}.

Definition rank_ok (T : Z) (reads : list Z) (r : Rank) : Prop :=
  inv T reads (array r) (machine r) (event_at r WriteDone) (event_at r Activate)
    (event_at r Precharge) (event_at r Refresh) (event_at r Power) (event_at r WakeUp).

Lemma none_open a b : array_ok a -> numBanksActive a = 0 -> b ∈ banks a -> is_closed b = false -> False.
Proof.
  intros Ha Hn Hb Hc. apply list_elem_of_lookup in Hb as [i Hb].
  pose proof (closed_bank a i b Ha Hn Hb). congruence.
Qed.

Lemma soon_none T : soon T None.
Proof. done. Qed.
Lemma soon_le T w : T <= w -> soon T (Some w).
Proof. by intros H v [= <-]. Qed.

#[local] Hint Resolve soon_none soon_le : core.

(** Nothing is pending in a rank whose banks are precharged. *)
Lemma nothing_pending T rd a m wd act ref pow wk :
  inv T rd a m wd act None ref pow wk -> numBanksActive a = 0 -> rd = [] /\ wd = None /\ act = None.
Proof.
  intros H Hn. assert (forall t, t ∈ rd \/ wd = Some t \/ act = Some t -> False) as Hno.
  { intros t Ht. destruct (in_cover _ _ _ _ _ _ _ _ _ _ H t Ht) as [(w & [=] & _)|(b & Hb & Hc & _)].
    by eapply none_open; [apply H|..]. }
  repeat split.
  - destruct rd as [|t rd]; [done|]. exfalso. apply (Hno t). set_solver.
  - destruct wd as [t|]; [|done]. exfalso. by apply (Hno t); auto.
  - destruct act as [t|]; [|done]. exfalso. by apply (Hno t); auto.
Qed.

(** ** The events *)

Lemma activate_inv T rd a m wd pre ref wk :
  inv T rd a m wd (Some T) pre ref None wk -> refreshState m <> REF_PD_EXIT ->
  (pwrState m = PWR_ACT -> inv T rd a m wd None pre ref None wk) /\
  (pwrState m <> PWR_ACT -> inv T rd a (with_trans PWR_ACT m) wd None pre ref (Some T) wk).
Proof.
  intros H Hpd. pose proof H as [I1 I2 I3 (U1 & U2 & U3 & U4) I5 I6 I7 I8 I9 I10 I11 I12 I13 I14 I15 I16].
  assert (forall t, t ∈ rd \/ wd = Some t \/ None = Some t ->
    (exists w, pre = Some w /\ t < w) \/
    (exists b, b ∈ banks a /\ is_closed b = false /\ t < preAllowedAt b + tRP k)) as Hc
    by (intros t [?|[?|[=]]]; auto).
  assert (numBanksActive a <> 0 \/ pre <> None) as Hb.
  { destruct (decide (numBanksActive a = 0)); [|by left]. right. intros ->.
    destruct (nothing_pending _ _ _ _ _ _ _ _ _ H) as (_ & _ & [=]). done. }
  split; intros Hp; split; auto; cbn.
  - naive_solver.
  - intros x Hx Ht. destruct (I10 x Hx Ht) as [|(E & _ & w & Ew & _)]; [by left|].
    exfalso. unfold state_ok in I13. rewrite E in I13. destruct I13 as (_ & En & Ep & _). naive_solver.
  - unfold state_ok in *. cbn. destruct (refreshState m) eqn:E; unfold awake in *; naive_solver.
Qed.


Lemma precharge_inv T rd a m wd act ref wk :
  inv T rd a m wd act (Some T) ref None wk -> refreshState m <> REF_PD_EXIT ->
  let m1 := with_outstanding (outstandingEvents m - 1) m in
  0 < outstandingEvents m /\
  (numBanksActive a <> 0 -> inv T rd a m1 wd act None ref None wk) /\
  (numBanksActive a = 0 -> inv T rd a (with_trans PWR_IDLE m1) wd act None ref (Some T) wk).
Proof.
  intros H Hpd m1. pose proof H as [I1 I2 I3 (U1 & U2 & U3 & U4) I5 I6 I7 I8 I9 I10 I11 I12 I13 I14 I15 I16].
  assert (forall t, t ∈ rd \/ wd = Some t \/ act = Some t ->
    (exists w, None = Some w /\ t < w) \/
    (exists b, b ∈ banks a /\ is_closed b = false /\ t < preAllowedAt b + tRP k)) as Hc.
  { intros t Ht. destruct (I8 t Ht) as [(w & [= <-] & Hlt)|]; [|by right].
    exfalso. enough (T <= t) by lia. destruct Ht as [Ht|[Ht|Ht]]; [by apply I5|by apply U1|by apply U2]. }
  assert (forall x, x ∈ issued a -> type x = PRE \/ type x = PREA ->
    timeStamp x + tRP k <= T \/ exists w, None = Some w /\ timeStamp x + tRP k <= w) as Hp.
  { intros x Hx Ht. left. by destruct (I9 x Hx Ht) as [|(w & [= <-] & ?)]. }
  assert (forall x, x ∈ issued a -> type x = REF -> timeStamp x + tRFC k <= T) as Hr.
  { intros x Hx Ht. destruct (I10 x Hx Ht) as [|(E & _)]; [done|]. exfalso.
    unfold state_ok in I13. rewrite E in I13. destruct I13 as (_ & _ & [=] & _). }
  cbn [flag] in I6. unfold refreshing in I6.
  split; [destruct wd, (bool_decide _); cbn [flag] in I6; lia|].
  split; intros Hn; split; auto; cbn; try done; try (unfold refreshing; cbn; lia).
  - unfold state_ok in *. cbn. destruct (refreshState m); naive_solver.
  - naive_solver.
  - unfold state_ok, awake in *. cbn. destruct (refreshState m); naive_solver.
Qed.

Lemma write_done_inv T rd a m act pre ref wk :
  inv T rd a m (Some T) act pre ref None wk ->
  0 < outstandingEvents m /\
  inv T rd a (with_outstanding (outstandingEvents m - 1) m) None act pre ref None wk.
Proof.
  intros [I1 I2 I3 (U1 & U2 & U3 & U4) I5 I6 I7 I8 I9 I10 I11 I12 I13 I14 I15 I16].
  cbn [flag] in I6. unfold refreshing in I6.
  split; [destruct pre, (bool_decide _); cbn [flag] in I6; lia|].
  split; auto; cbn.
  - unfold refreshing. cbn. lia.
  - intros t [?|[[=]|?]]; auto.
Qed.

Lemma respond_inv T t rd a m wd act pre ref wk :
  inv T (t :: rd) a m wd act pre ref None wk ->
  0 < outstandingEvents m /\
  inv T rd a (with_outstanding (outstandingEvents m - 1) m) wd act pre ref None wk.
Proof.
  intros [I1 I2 I3 (U1 & U2 & U3 & U4) I5 I6 I7 I8 I9 I10 I11 I12 I13 I14 I15 I16].
  cbn [length] in I6, I7. unfold refreshing in I6.
  split; [destruct pre, wd, (bool_decide _); cbn [flag] in I6; lia|].
  split; auto; cbn.
  - intros u Hu. apply I5. set_solver.
  - unfold refreshing. cbn. lia.
  - lia.
  - intros u [?|?]; apply I8; [left; set_solver|by right].
Qed.

(** *** The power event *)

Lemma power_stay T rd a m wd act pre ref wk :
  inv T rd a m wd act pre ref (Some T) wk -> awake (pwrStateTrans m) ->
  (refreshState m = REF_IDLE \/ refreshState m = REF_DRAIN \/
   refreshState m = REF_PRE /\ pwrStateTrans m = PWR_ACT) ->
  inv T rd a (with_tick T (with_pwrState (pwrStateTrans m) m)) wd act pre ref None wk.
Proof.
  intros [I1 I2 I3 I4 I5 I6 I7 I8 I9 I10 I11 I12 I13 I14 I15 I16] Hw Hs.
  split; auto; cbn; [done| |lia|].
  - intros x Hx Ht. destruct (I10 x Hx Ht) as [|(E & [=] & _)]; [by left].
  - unfold state_ok in *. cbn. destruct (refreshState m); naive_solver.
Qed.

Lemma power_start T rd a m wd act pre ref wk :
  inv T rd a m wd act pre ref (Some T) wk -> refreshState m = REF_PRE -> pwrStateTrans m <> PWR_ACT ->
  act = None /\ ref = None /\
  inv T rd a (with_refresh REF_START (with_pwrState PWR_REF (with_tick T m))) wd act pre (Some T) None wk.
Proof.
  intros H Hs Hn. pose proof H as [I1 I2 I3 (U1 & U2 & U3 & U4) I5 I6 I7 I8 I9 I10 I11 I12 I13 I14 I15 I16].
  unfold state_ok in I13. rewrite Hs in I13. destruct I13 as (Hw & -> & En & [[? ?]|[Ht ->]]); [done|].
  destruct (nothing_pending _ _ _ _ _ _ _ _ _ H En) as (_ & _ & ->).
  assert (0 < T) as HT by (apply I15; by rewrite Hs).
  split; [done|]. split; [done|]. split; auto; cbn; try done.
  - repeat split; auto. apply soon_le. lia.
  - by rewrite I6; unfold refreshing; cbn; rewrite Hs.
  - intros x Hx Hx'. left. by destruct (I10 x Hx Hx') as [|(E & [=] & _)].
  - by intros w [= <-].
Qed.

Lemma power_over T rd a m wd act pre ref wk :
  inv T rd a m wd act pre ref (Some T) wk -> refreshState m = REF_RUN ->
  outstandingEvents m = 1 /\ pwrState m = PWR_REF /\ pwrStateTrans m = PWR_IDLE /\
  inv T rd a (with_refresh REF_IDLE (with_outstanding 0 (with_tick T (with_pwrState PWR_IDLE m))))
    wd act pre ref None wk.
Proof.
  intros H Hs. pose proof H as [I1 I2 I3 I4 I5 I6 I7 I8 I9 I10 I11 I12 I13 I14 I15 I16].
  unfold state_ok in I13. rewrite Hs in I13. destruct I13 as (Hw & En & -> & Hrf & Ht).
  destruct (nothing_pending _ _ _ _ _ _ _ _ _ H En) as (-> & -> & ->).
  assert (outstandingEvents m = 1) as Eo by (rewrite I6; unfold refreshing; by rewrite Hs).
  repeat (split; [done|]). split; auto; cbn; try done.
  - intros x Hx Hx'. left. by destruct (I10 x Hx Hx') as [|(E & [=] & _)].
  - unfold state_ok, awake. cbn. auto.
Qed.


(** *** The refresh event *)

Lemma u8_small x : 0 <= x < 256 -> DramQueues.u8 x = x.
Proof. intros H. unfold DramQueues.u8. apply Z.mod_small. lia. Qed.

Lemma count_small T rd a m wd act pre ref pow wk :
  inv T rd a m wd act pre ref pow wk -> 0 <= outstandingEvents m <= 253.
Proof.
  intros [I1 I2 I3 I4 I5 I6 I7 I8 I9 I10 I11 I12 I13 I14 I15 I16]. unfold refreshing in I6.
  destruct wd, pre, (bool_decide _); cbn [flag] in I6; lia.
Qed.

Lemma refresh_due_inv T rd a m wd act pre wk :
  inv T rd a m wd act pre (Some T) None wk -> refreshState m = REF_IDLE ->
  inv T rd a (incr_outstanding (with_refresh REF_DRAIN (with_due T m))) wd act pre None None wk.
Proof.
  intros H Hs. pose proof (count_small _ _ _ _ _ _ _ _ _ _ H) as Hc.
  destruct H as [I1 I2 I3 (U1 & U2 & U3 & U4) I5 I6 I7 I8 I9 I10 I11 I12 I13 I14 I15 I16].
  split; auto; cbn; try done.
  - assert (refreshing m = 0) as E0 by (unfold refreshing; by rewrite Hs).
    change (refreshing (incr_outstanding _)) with 1. rewrite u8_small by lia. lia.
  - intros x Hx Hx'. left. destruct (I10 x Hx Hx') as [|(E & _)]; [done|congruence].
  - unfold state_ok in *. cbn. rewrite Hs in I13. naive_solver.
Qed.

Lemma pd_exit_inv T rd a m wd act pre ref wk :
  inv T rd a m wd act pre ref None wk -> refreshState m = REF_PD_EXIT ->
  inv T rd a (with_refresh REF_DRAIN m) wd act pre None None wk.
Proof.
  intros [I1 I2 I3 (U1 & U2 & U3 & U4) I5 I6 I7 I8 I9 I10 I11 I12 I13 I14 I15 I16] Hs.
  assert (0 < T) by (apply I15; by rewrite Hs).
  split; auto; cbn; try done.
  - rewrite I6. unfold refreshing. by rewrite Hs.
  - intros x Hx Hx'. left. destruct (I10 x Hx Hx') as [|(E & _)]; [done|congruence].
  - unfold state_ok in *. cbn. rewrite Hs in I13. naive_solver.
Qed.

(** A rank after commands, where [st] stands for its refresh state. *)
Lemma effect_inv T rd r r' st :
  inv T rd (array r) (with_refresh st (machine r)) (event_at r WriteDone) (event_at r Activate)
    (event_at r Precharge) (event_at r Refresh) None (event_at r WakeUp) ->
  event_at r Power = None -> st <> REF_RUN -> (refreshState (machine r) = REF_IDLE <-> st = REF_IDLE) ->
  effect T r r' -> array_ok (array r') ->
  state_ok T (numBanksActive (array r')) (machine r') (event_at r' Precharge) (event_at r Refresh) None ->
  rank_ok T rd r'.
Proof.
  intros H Hpow Hst Hidle He Ha' Hs'. pose proof (count_small _ _ _ _ _ _ _ _ _ _ H) as Hc. cbn in Hc.
  destruct H as [I1 I2 I3 (U1 & U2 & U3 & U4) I5 I6 I7 I8 I9 I10 I11 I12 I13 I14 I15 I16]. cbn in *.
  destruct He as [M (N1 & N2 & N3 & F) P U A C [new HL] I].
  assert (forall v, v <> Precharge -> v <> Activate -> event_at r' v = event_at r v) as F'
    by (intros v ? ?; apply F; set_solver).
  assert (machine r' = machine r \/ machine r' = counted None (machine r)) as M'
    by (rewrite M; destruct (event_at r Precharge), (event_at r' Precharge); auto).
  assert (forall (Q : Machine -> Prop), (forall o, Q (with_outstanding o (machine r))) -> Q (machine r')) as HQ.
  { intros Q HQ. destruct M' as [-> | ->]; [|apply HQ]. specialize (HQ (outstandingEvents (machine r))).
    by destruct (machine r). }
  unfold rank_ok. rewrite (F' WriteDone), (F' Refresh), (F' Power), (F' WakeUp), Hpow by done. split; try done.
  - apply HQ. intros o. cbn. done.
  - repeat split; [done| |intros w Hw; destruct (U w Hw); auto|done].
    destruct A as [->|(a & -> & Hn & _)]; [done|]. apply soon_le. destruct Hn; auto.
  - assert (refreshing (machine r') = refreshing (with_refresh st (machine r))) as ->.
    { apply HQ. intros o. unfold refreshing. cbn. by rewrite (bool_decide_ext _ _ Hidle). }
    rewrite M. destruct (event_at r Precharge) as [w|] eqn:Ep.
    + destruct (P w eq_refl) as (w' & -> & _). done.
    + destruct (event_at r' Precharge); [|done]. cbn in *. rewrite u8_small by lia. lia.
  - intros t Ht. destruct (decide (event_at r' Activate = Some t)) as [Et|Et].
    + destruct A as [E|(a & E & _ & Hcov)].
      * apply C. apply I8. right. right. congruence.
      * assert (a = t) as -> by congruence. exact Hcov.
    + apply C. apply I8. naive_solver.
  - intros x Hx Ht. destruct (I x Hx) as [Hold|[_ Hnew]]; [|right; auto].
    destruct (I9 x Hold Ht) as [|(w & Hw & ?)]; [by left|right]. destruct (P w Hw) as (w' & ? & ?).
    exists w'. split; [done|lia].
  - intros x Hx Ht. destruct (I x Hx) as [Hold|[Hnew _]]; [|done]. left.
    by destruct (I10 x Hold Ht) as [|(? & _)].
  - apply HQ. intros o. done.
  - intros Hact. assert (pwrState (machine r) = PWR_ACT) as E
      by (revert Hact; apply HQ; intros o; done).
    destruct (I12 E) as [Hn|Hp].
    + rewrite (ar_active _ _ _ I1) in Hn. unfold open_banks in Hn.
      destruct (filter (fun b => is_closed b = false) (banks (array r))) as [|b l] eqn:Ef; [done|].
      assert (b ∈ filter (fun b => is_closed b = false) (banks (array r))) as [Hb1 Hb2]%list_elem_of_filter
        by (rewrite Ef; set_solver).
      eapply covered_busy; [exact Hk|exact Ha'|]. apply (C (preAllowedAt b)). right. exists b. pose proof (ok_rp k Hk).
      repeat split; [done..|lia].
    + right. destruct (event_at r Precharge) as [w|]; [|done]. by destruct (P w eq_refl) as (w' & -> & _).
  - apply HQ. intros o. cbn. intros Hne. apply I15. naive_solver.
  - by eapply traced_logs.
Qed.


(** A power event at the present tick. *)
Lemma schedule_power T st r :
  event_at r Power = None ->
  schedulePowerEvent T st T r = Ok (set_event Power (Some T) (on_machine (with_trans st) r)).
Proof.
  intros Hp. unfold schedulePowerEvent, schedule, scheduled. cbn. by rewrite Z.leb_refl, Hp.
Qed.

Lemma schedule_free T e w r :
  event_at r e = None -> T <= w -> schedule T e w r = Ok (set_event e (Some w) r).
Proof.
  intros He Hw. unfold schedule, scheduled. by rewrite (proj2 (Z.leb_le T w) Hw), He.
Qed.

Lemma refresh_pre_ok T rd r :
  inv T rd (array r) (with_refresh REF_DRAIN (machine r)) (event_at r WriteDone) (event_at r Activate)
    (event_at r Precharge) (event_at r Refresh) None (event_at r WakeUp) ->
  event_at r Power = None -> refreshState (machine r) = REF_PRE -> 0 < banksPerRank c ->
  exists r', refresh_pre k T r = Ok r' /\ rank_ok T rd r' /\ later (banks (array r)) (banks (array r')).
Proof.
  intros H Hpow Hs Hbk. pose proof H as [I1 I2 I3 (U1 & U2 & U3 & U4) I5 I6 I7 I8 I9 I10 I11 I12 I13 I14 I15 I16].
  cbn in *. assert (0 < T) as HT by (by apply I15).
  unfold state_ok in I13. cbn in I13. destruct I13 as [Hw Href]. unfold refresh_pre.
  destruct (Z.eqb_spec (numBanksActive (array r)) 0) as [Hn|Hn]; cbn [negb].
  - assert (pwrState (machine r) = PWR_ACT -> event_at r Precharge <> None) as Hact
      by (intros E; destruct (I12 E); done).
    assert (forall x, x ∈ issued (array r) -> type x = REF -> timeStamp x + tRFC k <= T) as Hrf
      by (intros x Hx Ht; by destruct (I10 x Hx Ht) as [|([=] & _)]).
    destruct (event_at r Precharge) as [w|] eqn:Ep.
    + assert (bool_decide (pwrState (machine r) = PWR_IDLE) && (outstandingEvents (machine r) =? 1) = false) as ->.
      { apply andb_false_iff. right. apply Z.eqb_neq. rewrite I6. change (refreshing _) with 1.
        destruct (event_at r WriteDone); cbn [flag]; lia. }
      unfold scheduled. rewrite Ep, bool_decide_eq_true_2 by eauto. cbn [assert_that mbind res_bind].
      rewrite Hn. cbn. exists r. split; [done|]. split; [|apply later_refl]. unfold rank_ok. rewrite Hpow, Ep. split; auto; try done.
      * rewrite I6. unfold refreshing at 2. by rewrite Hs.
      * unfold state_ok. rewrite Hs. auto.
    + destruct (nothing_pending _ _ _ _ _ _ _ _ _ H Hn) as (-> & Ewd & Eact).
      assert (pwrState (machine r) = PWR_IDLE) as Epw by (destruct Hw; [done|]; exfalso; by apply Hact).
      assert (outstandingEvents (machine r) = 1) as Eo by (rewrite I6, Ewd; done).
      rewrite Epw, Eo. cbn [andb bool_decide]. rewrite bool_decide_eq_true_2 by done. cbn [andb Z.eqb Pos.eqb].
      rewrite schedule_power by done. cbn [mbind res_bind]. cbn [array set_event on_machine with_machine].
      rewrite Hn. cbn [Z.eqb assert_that mbind res_bind]. eexists. split; [done|]. split; [|apply later_refl].
      unfold rank_ok. cbn. change (inv T [] (array r) (with_trans PWR_REF (machine r)) (event_at r WriteDone)
        (event_at r Activate) (event_at r Precharge) (event_at r Refresh) (Some T) (event_at r WakeUp)).
      rewrite Ep. split; auto; cbn; try done.
      * by intros w [= <-].
      * rewrite Eo, Ewd. unfold refreshing. cbn. by rewrite Hs.
      * unfold state_ok. cbn. rewrite Hs. auto 10.
  - destruct (precharge_all_ok T r I1 HT Hbk Hn) as (r1 & r2 & E1 & -> & Ha2 & He2 & En2 & Ep2 & Hl2).
    cbn zeta in E1. rewrite E1. cbn [mbind res_bind]. rewrite En2. cbn [Z.eqb assert_that mbind res_bind].
    eexists. split; [done|]. split; [|exact Hl2]. eapply (effect_inv T rd r _ REF_DRAIN); try done; [by rewrite Hs|].
    assert (refreshState (machine r1) = REF_PRE /\ pwrState (machine r1) = pwrState (machine r)) as [E2 E3].
    { pose proof (ef_machine _ _ _ _ He2) as Hm. cbn in Hm. rewrite Hm.
      by destruct (event_at r Precharge), (event_at r1 Precharge). }
    unfold state_ok. cbn. rewrite E2, E3. auto.
Qed.

Lemma refresh_start_ok T rd r :
  inv T rd (array r) (machine r) (event_at r WriteDone) (event_at r Activate) (event_at r Precharge)
    (Some T) None (event_at r WakeUp) ->
  event_at r Refresh = None -> event_at r Power = None -> refreshState (machine r) = REF_START ->
  0 < banksPerRank c -> T + tRFC k <= refreshDueAt (machine r) + tREFI k ->
  exists r', refresh_start k sort T r = Ok r' /\ rank_ok T rd r' /\ later (banks (array r)) (banks (array r')).
Proof.
  intros H Href Hpow Hs Hbk Htime. pose proof (ok_rp k Hk). pose proof (ok_rfc k Hk).
  pose proof H as [I1 I2 I3 (U1 & U2 & U3 & U4) I5 I6 I7 I8 I9 I10 I11 I12 I13 I14 I15 I16].
  unfold state_ok in I13. rewrite Hs in I13. destruct I13 as (Hw & _ & Hn & Ep). rewrite Ep in *.
  destruct (nothing_pending _ _ _ _ _ _ _ _ _ H Hn) as (-> & Ewd & Eact).
  assert (0 < T) as HT by (by apply I14).
  assert (forall x, x ∈ issued (array r) -> type x = REF -> timeStamp x + tRFC k <= T) as Hrf.
  { intros x Hx Ht. destruct (I10 x Hx Ht) as [|(E & _)]; [done|congruence]. }
  assert (forall x, x ∈ issued (array r) -> type x = PRE \/ type x = PREA -> timeStamp x + tRP k <= T) as Hpr.
  { intros x Hx Ht. by destruct (I9 x Hx Ht) as [|(w & [=] & _)]. }
  pose proof (refresh_array (array r) T I1 Hn HT Hbk Hpr Hrf) as Ha.
  unfold refresh_start. rewrite Hn, Hw. cbn [Z.eqb assert_that mbind res_bind].
  rewrite bool_decide_eq_true_2 by done. cbn [assert_that mbind res_bind].
  set (r1 := updatePowerStats _ _ _ _).
  assert (machine r1 = machine r) as Em by done. assert (event_at r1 = event_at r) as Ee by done.
  rewrite Em. assert (refreshDueAt (machine r) + tREFI k <? T + tRFC k = false) as -> by lia.
  cbn [panic_if mbind res_bind]. rewrite schedule_free by (try done; lia). eexists. split; [done|].
  assert (array_ok (array r1) /\ issued (array r1) = issued (array r) ++ [mkCommand REF 0 T] /\
    numBanksActive (array r1) = 0 /\ later (banks (array r)) (banks (array r1))) as (Ha1 & Ei1 & En1 & Hl1).
  { unfold r1, updatePowerStats. cbn. unfold flushCmdList. cbn.
    destruct (split_due T _) as [due rest].
    split; [destruct Ha; split; done|]. split; [done|]. split; [done|]. cbn. split; [apply length_fmap|].
    intros i b b' Hb Hb'. rewrite list_lookup_fmap, Hb in Hb'. injection Hb' as <-. repeat split; cbn; lia. }
  split; [|exact Hl1].
  assert (traced T (array r1)) as Htr.
  { apply traced_flush. eapply traced_logs; [exact I16|]. repeat split. by repeat constructor. }
  change (inv T [] (array r1) (with_refresh REF_RUN (with_due (refreshDueAt (machine r) + tREFI k) (machine r)))
    (event_at r WriteDone) (event_at r Activate) (event_at r Precharge) (Some (T + tRFC k))
    (event_at r Power) (event_at r WakeUp)).
  rewrite Ep, Ewd, Eact, Hpow. rewrite Ewd in I6.
  revert Ha1 Ei1 En1 Htr. generalize (array r1). intros a1 Ha1 Ei1 En1 Htr. split; auto; cbn; try done.
  - repeat split; auto. apply soon_le. lia.
  - rewrite I6. unfold refreshing. by rewrite Hs.
  - intros t [?|[[=]|[=]]]. set_solver.
  - intros x. rewrite Ei1. intros [Hx| ->%list_elem_of_singleton]%elem_of_app; [left; auto|by intros []].
  - intros x. rewrite Ei1. intros [Hx| ->%list_elem_of_singleton]%elem_of_app Ht; [left; auto|].
    right. repeat split. exists (T + tRFC k). cbn. split; [done|lia].
  - by rewrite Hw.
  - intros w [= <-]. lia.
Qed.


(** The default configuration: ranks do not power down. *)
Context (Hpd : enableDRAMPowerdown k = false) (Hbk : 0 < banksPerRank c).

Lemma refresh_run_ok T mem rd r :
  inv T rd (array r) (machine r) (event_at r WriteDone) (event_at r Activate) (event_at r Precharge)
    (Some T) None (event_at r WakeUp) ->
  event_at r Refresh = None -> event_at r Power = None -> refreshState (machine r) = REF_RUN ->
  T <= refreshDueAt (machine r) - tRP k ->
  exists r', refresh_run k T mem r = Ok r' /\ rank_ok T rd r' /\ later (banks (array r)) (banks (array r')).
Proof.
  intros H Href Hpow Hs Hdue. pose proof (ok_rp k Hk).
  pose proof H as [I1 (L1 & L2 & L3) I3 (U1 & U2 & U3 & U4) I5 I6 I7 I8 I9 I10 I11 I12 I13 I14 I15 I16].
  unfold state_ok in I13. rewrite Hs in I13. destruct I13 as (Hw & Hn & Ep & _).
  assert (0 < T) as HT by (by apply I14).
  unfold refresh_run, scheduled. rewrite Hn, Hw, Hpow, L3, Hpd. cbn [Z.eqb assert_that mbind res_bind negb].
  rewrite !bool_decide_eq_true_2 by done. rewrite (bool_decide_eq_false_2 (is_Some None)) by (by intros []).
  cbn [negb assert_that mbind res_bind].
  match goal with |- context [if drainingOrDrained mem then ?x else ?y] =>
    assert ((if drainingOrDrained mem then x else y) = Ok (set_event Power (Some T) (on_machine (with_trans PWR_IDLE) r))) as E
  end.
  { rewrite andb_false_r, schedule_power by done. by destruct (drainingOrDrained mem). }
  cbn zeta in E |- *. rewrite E. cbn [mbind res_bind]. rewrite schedule_free; [|done|cbn; lia].
  eexists. split; [done|]. split; [|apply later_refl].
  change (inv T rd (array r) (with_trans PWR_IDLE (machine r)) (event_at r WriteDone) (event_at r Activate)
    (event_at r Precharge) (Some (refreshDueAt (machine r) - tRP k)) (Some T) (event_at r WakeUp)).
  split; auto; cbn; try done.
  - by intros w [= <-].
  - intros x Hx Ht. left. by destruct (I10 x Hx Ht) as [|(_ & _ & w & [= <-] & ?)].
  - unfold state_ok. cbn. rewrite Hs. repeat split; eauto.
  - intros w [= <-]. lia.
Qed.

(** Comparisons of states that are known. *)
Ltac known :=
  repeat match goal with
  | |- context [bool_decide (?x = ?y)] =>
      first [change (bool_decide (x = y)) with true | change (bool_decide (x = y)) with false]; cbn
  end.

(** What a refresh that comes too late stops the simulator with: the refresh would
    end after the next one is due, or the event of the next one would be in the
    past. *)
Definition late (T : Z) (r : Rank) : option fault :=
  match refreshState (machine r) with
  | REF_START => if refreshDueAt (machine r) + tREFI k <? T + tRFC k then Some Panic else None
  | REF_RUN => if refreshDueAt (machine r) - tRP k <? T then Some AssertFailure else None
  | _ => None
  end.

(** The refresh ends after the next one is due. *)
Lemma refresh_start_late T r :
  numBanksActive (array r) = 0 -> pwrState (machine r) = PWR_REF ->
  refreshDueAt (machine r) + tREFI k < T + tRFC k -> refresh_start k sort T r = Fail Panic.
Proof.
  intros Hn Hw Hlt. unfold refresh_start. rewrite Hn, Hw. cbn [Z.eqb assert_that mbind res_bind].
  rewrite bool_decide_eq_true_2 by done. cbn [assert_that mbind res_bind].
  change (machine (updatePowerStats _ _ _ _)) with (machine r).
  by rewrite (proj2 (Z.ltb_lt _ _) Hlt).
Qed.

(** The next refresh cannot be scheduled. *)
Lemma refresh_run_late T mem r :
  event_at r Power = None -> refreshDueAt (machine r) - tRP k < T ->
  numBanksActive (array r) = 0 -> pwrState (machine r) = PWR_REF -> pwrStatePostRefresh (machine r) = PWR_IDLE ->
  refresh_run k T mem r = Fail AssertFailure.
Proof.
  intros Hpow Hlt Hn Hw Hpost. unfold refresh_run, scheduled. rewrite Hn, Hw, Hpow, Hpost, Hpd.
  cbn [Z.eqb assert_that mbind res_bind negb].
  rewrite !bool_decide_eq_true_2 by done. rewrite (bool_decide_eq_false_2 (is_Some None)) by (by intros []).
  cbn [negb assert_that mbind res_bind]. rewrite andb_false_r, schedule_power by done.
  assert (forall (b : bool) (x : res Rank), (if b then x else x) = x) as -> by (by intros []).
  cbn [mbind res_bind]. unfold schedule. cbn [machine set_event on_machine with_machine with_trans refreshDueAt].
  by rewrite (proj2 (Z.leb_gt _ _) Hlt).
Qed.

Lemma processRefreshEvent_ok T mem rd r :
  rank_ok T rd r -> event_at r Refresh = Some T -> event_at r Power = None ->
  match late T r with
  | Some e => processRefreshEvent k sort T mem (set_event Refresh None r) = Fail e
  | None => exists r', processRefreshEvent k sort T mem (set_event Refresh None r) = Ok r' /\ rank_ok T rd r' /\
      later (banks (array r)) (banks (array r'))
  end.
Proof.
  intros H Href Hpow. pose proof H as Hr. unfold rank_ok in H. rewrite Href, Hpow in H.
  pose proof (in_low _ _ _ _ _ _ _ _ _ _ H) as (Hlow & _ & Hpost). unfold processRefreshEvent, late.
  cbn [machine set_event].
  assert (forall st r1, r1 = on_machine (with_refresh REF_PRE) (set_event Refresh None st) ->
    inv T rd (array r1) (with_refresh REF_DRAIN (machine r1)) (event_at st WriteDone) (event_at st Activate)
      (event_at st Precharge) None None (event_at st WakeUp) -> event_at st Power = None ->
    exists r', refresh_pre k T r1 = Ok r' /\ rank_ok T rd r' /\ later (banks (array st)) (banks (array r'))) as Hpre.
  { intros st r1 -> Hi Hp. by apply (refresh_pre_ok T rd (on_machine (with_refresh REF_PRE) (set_event Refresh None st))). }
  destruct (refreshState (machine r)) eqn:Hs.
  - pose proof (refresh_due_inv _ _ _ _ _ _ _ _ H Hs) as Hd.
    set (m1 := incr_outstanding _) in Hd |- *.
    cbn [machine on_machine with_machine refreshState m1 incr_outstanding with_outstanding with_refresh].
    rewrite bool_decide_eq_true_2 by done.
    destruct (true && (rankNo _ =? activeRank mem) && nextReqScheduled mem).
    { eexists. split; [done|]. split; [|apply later_refl].
      change (inv T rd (array r) m1 (event_at r WriteDone) (event_at r Activate) (event_at r Precharge)
        None (event_at r Power) (event_at r WakeUp)). by rewrite Hpow. }
    cbn. rewrite Hlow. cbn. apply (Hpre (with_machine m1 r)); [done| |done].
    exact Hd.
  - exfalso. pose proof (in_state _ _ _ _ _ _ _ _ _ _ H) as Hst. unfold state_ok in Hst. rewrite Hs in Hst. naive_solver.
  - pose proof (pd_exit_inv _ _ _ _ _ _ _ _ _ H Hs) as Hd.
    cbn. rewrite Hs. known. rewrite Hs. known. rewrite Hlow. cbn. apply (Hpre r); [done| |done]. exact Hd.
  - exfalso. pose proof (in_state _ _ _ _ _ _ _ _ _ _ H) as Hst. unfold state_ok in Hst. by rewrite Hs in Hst.
  - exfalso. pose proof (in_state _ _ _ _ _ _ _ _ _ _ H) as Hst. unfold state_ok in Hst. rewrite Hs in Hst. naive_solver.
  - cbn. rewrite Hs. known. rewrite Hs. known. rewrite Hs.
    pose proof (in_state _ _ _ _ _ _ _ _ _ _ H) as Hst. unfold state_ok in Hst. rewrite Hs in Hst.
    destruct Hst as (Hw & _ & Hn & _).
    destruct (Z.ltb_spec (refreshDueAt (machine r) + tREFI k) (T + tRFC k)); [by apply refresh_start_late|].
    by apply (refresh_start_ok T rd (set_event Refresh None r)).
  - cbn. rewrite Hs. known. rewrite Hs. known. rewrite Hs.
    pose proof (in_state _ _ _ _ _ _ _ _ _ _ H) as Hst. unfold state_ok in Hst. rewrite Hs in Hst.
    destruct Hst as (Hw & Hn & _).
    destruct (Z.ltb_spec (refreshDueAt (machine r) - tRP k) T); [by apply refresh_run_late|].
    by apply (refresh_run_ok T mem rd (set_event Refresh None r)).
Qed.


Lemma scheduled_free e r : event_at r e = None -> scheduled e r = false.
Proof. intros H. unfold scheduled. rewrite H. by apply bool_decide_eq_false_2; intros []. Qed.

(** The rank goes to the refresh state. *)
Lemma enter_refresh_ok T mem r :
  refreshState (machine r) = REF_PRE -> pwrStatePostRefresh (machine r) = PWR_IDLE ->
  event_at r Power = None -> event_at r Refresh = None ->
  enter_refresh k T mem r = Ok (on_machine (with_refresh REF_START) (set_event Refresh (Some T) r)).
Proof.
  intros Hs Hp Hpow Href. unfold enter_refresh. rewrite Hs, Hp. known.
  rewrite (scheduled_free Power) by done. cbn. by rewrite schedule_free by (done || lia).
Qed.


(** The power event of a rank that neither starts nor ends a refresh. *)
Lemma power_plain T mem r :
  pwrStateTick (machine r) <= T -> awake (pwrState (machine r)) -> awake (pwrStateTrans (machine r)) ->
  (refreshState (machine r) = REF_IDLE \/ refreshState (machine r) = REF_DRAIN \/
   refreshState (machine r) = REF_PRE /\ pwrStateTrans (machine r) = PWR_ACT) ->
  processPowerEvent k T mem r =
    Ok (on_machine (fun mc => with_tick T (with_pwrState (pwrStateTrans mc) mc)) r, false).
Proof.
  destruct r as [? ? ? ? [pw tr po rf lo ou wu du ti] ?]. unfold processPowerEvent. cbn.
  intros Ht Hw Htr Hs. rewrite (proj2 (Z.leb_le _ _) Ht). cbn.
  destruct Hw as [-> | ->], Htr as [-> | ->], Hs as [->|[->|[-> [=]]]]; by known.
Qed.

(** The power event of a rank whose banks are precharged for a refresh. *)
Lemma power_refresh T mem r :
  pwrStateTick (machine r) <= T -> awake (pwrState (machine r)) ->
  pwrStateTrans (machine r) = PWR_IDLE \/ pwrStateTrans (machine r) = PWR_REF ->
  refreshState (machine r) = REF_PRE -> pwrStatePostRefresh (machine r) = PWR_IDLE ->
  event_at r Power = None -> event_at r Refresh = None -> event_at r Activate = None ->
  processPowerEvent k T mem r =
    Ok (on_machine (with_refresh REF_START) (set_event Refresh (Some T)
          (on_machine (fun mc => with_pwrState PWR_REF (with_tick T mc)) r)), false).
Proof.
  intros Ht Hw Htr Hs Hp Hpow Href Hact. unfold processPowerEvent. rewrite (proj2 (Z.leb_le _ _) Ht). cbn.
  assert (bool_decide (pwrState (machine r) = PWR_REF) = false) as ->
    by (apply bool_decide_eq_false_2; destruct Hw; congruence).
  assert (bool_decide (pwrState (machine r) = PWR_SREF) = false) as ->
    by (apply bool_decide_eq_false_2; destruct Hw; congruence).
  cbn. rewrite Hs. destruct Htr as [E|E]; rewrite E; known.
  - unfold idle_for_refresh. cbn. rewrite Hs, !scheduled_free by done. known. rewrite enter_refresh_ok by done. done.
  - rewrite enter_refresh_ok by done. unfold on_machine. cbn. by rewrite E.
Qed.

(** The power event at the end of a refresh. *)
Lemma power_end T mem r :
  pwrStateTick (machine r) <= T -> pwrState (machine r) = PWR_REF -> pwrStateTrans (machine r) = PWR_IDLE ->
  outstandingEvents (machine r) = 1 ->
  exists b, processPowerEvent k T mem r =
    Ok (on_machine (fun mc => with_refresh REF_IDLE (with_outstanding 0 (with_tick T (with_pwrState PWR_IDLE mc)))) r, b).
Proof.
  destruct r as [? ? ? ? [pw tr po rf lo ou wu du ti] ?]. unfold processPowerEvent. cbn.
  intros Ht -> -> ->. rewrite (proj2 (Z.leb_le _ _) Ht). cbn. eexists. known. done.
Qed.

Lemma processPowerEvent_ok T mem rd r :
  rank_ok T rd r -> event_at r Power = Some T ->
  exists r' b, processPowerEvent k T mem (set_event Power None r) = Ok (r', b) /\ rank_ok T rd r' /\
    array r' = array r.
Proof.
  intros H Hpow. unfold rank_ok in H. rewrite Hpow in H.
  pose proof (in_state _ _ _ _ _ _ _ _ _ _ H) as Hst. pose proof (in_tick _ _ _ _ _ _ _ _ _ _ H) as Ht.
  pose proof (in_low _ _ _ _ _ _ _ _ _ _ H) as (_ & _ & Hpost). unfold state_ok in Hst.
  destruct (refreshState (machine r)) eqn:Hs; try done.
  - destruct Hst as (Hw & Hrf & Htr). rewrite power_plain by (cbn; auto). eexists _, _. split; [done|]. split; [|done].
    exact (power_stay _ _ _ _ _ _ _ _ _ H Htr (or_introl Hs)).
  - destruct Hst as (Hw & Hrf & Htr). rewrite power_plain by (cbn; auto). eexists _, _. split; [done|]. split; [|done].
    exact (power_stay _ _ _ _ _ _ _ _ _ H Htr (or_intror (or_introl Hs))).
  - destruct Hst as (Hw & Hrf & Hn & [[Etr Hp]|[Htr Hp]]).
    + rewrite power_plain by (cbn; auto; by right). eexists _, _. split; [done|]. split; [|done].
      apply (power_stay _ _ _ _ _ _ _ _ _ H); [by right|auto].
    + destruct (power_start _ _ _ _ _ _ _ _ _ H Hs) as (Ha & _ & Hi); [by destruct Htr as [-> | ->]|].
      rewrite power_refresh by (cbn; done). eexists _, _. split; [done|]. split; [|done]. exact Hi.
  - destruct (power_over _ _ _ _ _ _ _ _ _ H Hs) as (Eo & Ew & Et & Hi).
    destruct (power_end T mem (set_event Power None r)) as [b ->]; [done..|].
    eexists _, _. split; [done|]. split; [|done]. exact Hi.
Qed.

Lemma power_none T rd r :
  event_at r Power = None ->
  inv T rd (array r) (machine r) (event_at r WriteDone) (event_at r Activate)
    (event_at r Precharge) (event_at r Refresh) None (event_at r WakeUp) -> rank_ok T rd r.
Proof. intros Hp H. unfold rank_ok. by rewrite Hp. Qed.

(** The events of the banks. *)
Lemma processActivateEvent_ok T rd r :
  rank_ok T rd r -> event_at r Activate = Some T -> event_at r Power = None ->
  refreshState (machine r) <> REF_PD_EXIT ->
  exists r', processActivateEvent T (set_event Activate None r) = Ok r' /\ rank_ok T rd r' /\ array r' = array r.
Proof.
  intros H Hact Hpow Hs. unfold rank_ok in H. rewrite Hact, Hpow in H.
  destruct (activate_inv _ _ _ _ _ _ _ _ H Hs) as [H1 H2]. unfold processActivateEvent. cbn.
  destruct (decide (pwrState (machine r) = PWR_ACT)) as [E|E].
  - rewrite bool_decide_eq_true_2 by done. eexists. split; [done|]. split; [|done]. apply (power_none T rd); [done|]. exact (H1 E).
  - rewrite bool_decide_eq_false_2, schedule_power by done. eexists. split; [done|]. split; [|done]. exact (H2 E).
Qed.

Lemma processPrechargeEvent_ok T mem rd r :
  rank_ok T rd r -> event_at r Precharge = Some T -> event_at r Power = None ->
  refreshState (machine r) <> REF_PD_EXIT ->
  exists r', processPrechargeEvent k T mem (set_event Precharge None r) = Ok r' /\ rank_ok T rd r' /\ array r' = array r.
Proof.
  intros H Hpre Hpow Hs. unfold rank_ok in H. rewrite Hpre, Hpow in H.
  destruct (precharge_inv _ _ _ _ _ _ _ _ H Hs) as (Hout & H1 & H2).
  unfold processPrechargeEvent, decr_outstanding. cbn. rewrite (proj2 (Z.ltb_lt _ _) Hout). cbn.
  destruct (Z.eqb_spec (numBanksActive (array r)) 0) as [E|E].
  - rewrite Hpd, andb_false_r, schedule_power by done. eexists. split; [done|]. split; [|done]. exact (H2 E).
  - eexists. split; [done|]. split; [|done]. apply (power_none T rd); [done|]. exact (H1 E).
Qed.

Lemma processWriteDoneEvent_ok T rd r :
  rank_ok T rd r -> event_at r WriteDone = Some T -> event_at r Power = None ->
  exists r', processWriteDoneEvent (set_event WriteDone None r) = Ok r' /\ rank_ok T rd r' /\ array r' = array r.
Proof.
  intros H Hwd Hpow. unfold rank_ok in H. rewrite Hwd, Hpow in H.
  destruct (write_done_inv _ _ _ _ _ _ _ _ H) as [Hout H1].
  unfold processWriteDoneEvent, decr_outstanding. cbn. rewrite (proj2 (Z.ltb_lt _ _) Hout). cbn.
  eexists. split; [done|]. split; [|done]. by apply (power_none T rd).
Qed.

Lemma state_pwr T n m pre ref pow :
  state_ok T n m pre ref pow -> awake (pwrState m) \/ pwrState m = PWR_REF.
Proof. unfold state_ok. destruct (refreshState m), pow; tauto. Qed.

Lemma respond_rank_ok T mem t rd r :
  rank_ok T (t :: rd) r -> event_at r Power = None ->
  exists r', respond_rank k T mem r = Ok r' /\ rank_ok T rd r' /\ array r' = array r.
Proof.
  intros H Hpow. unfold rank_ok in H. rewrite Hpow in H.
  pose proof (in_state _ _ _ _ _ _ _ _ _ _ H) as Hst.
  destruct (respond_inv _ _ _ _ _ _ _ _ _ _ H) as [Hout H1].
  unfold respond_rank, decr_outstanding. cbn. rewrite (proj2 (Z.ltb_lt _ _) Hout). cbn.
  assert (negb (bool_decide (pwrState (machine r) = PWR_SREF)) &&
    negb (bool_decide (pwrState (machine r) = PWR_PRE_PDN)) &&
    negb (bool_decide (pwrState (machine r) = PWR_ACT_PDN)) = true) as ->.
  { destruct (state_pwr _ _ _ _ _ _ Hst) as [[-> | ->]| ->]; done. }
  cbn. rewrite Hpd, andb_false_r. eexists. split; [done|]. split; [|done]. by apply (power_none T rd).
Qed.

Lemma check_rank_ok T mem rd r :
  rank_ok T rd r -> event_at r Power = None ->
  exists r' n, check_rank k T mem r = Ok (r', n) /\ rank_ok T rd r' /\ array r' = array r /\ event_at r' Power = None /\
    (inRefIdleState r = true -> r' = r) /\ inRefIdleState r' = inRefIdleState r.
Proof.
  intros H Hpow. pose proof H as H0. unfold rank_ok in H0. rewrite Hpow in H0.
  pose proof (in_state _ _ _ _ _ _ _ _ _ _ H0) as Hst. pose proof (in_low _ _ _ _ _ _ _ _ _ _ H0) as (Hlow & _).
  unfold check_rank. destruct (inRefIdleState r) eqn:Ei; [by exists r, 0|].
  assert (bool_decide (pwrState (machine r) = PWR_SREF) = false) as Es.
  { apply bool_decide_eq_false_2. destruct (state_pwr _ _ _ _ _ _ Hst) as [[]|]; congruence. }
  rewrite Es. cbn [negb]. unfold checkDrainDone.
  destruct (decide (refreshState (machine r) = REF_DRAIN)) as [Hs|Hs].
  - rewrite bool_decide_eq_true_2 by done. unfold state_ok in Hst. rewrite Hs in Hst. destruct Hst as [Hw Href].
    rewrite schedule_free by (done || lia). cbn. rewrite Es. cbn.
    eexists _, _. split; [done|]. split; [|done].
    change (inv T rd (array r) (with_refresh REF_PD_EXIT (machine r)) (event_at r WriteDone) (event_at r Activate)
      (event_at r Precharge) (Some T) (event_at r Power) (event_at r WakeUp)). rewrite Hpow, Href in *.
    destruct H0 as [I1 I2 I3 (U1 & U2 & U3 & U4) I5 I6 I7 I8 I9 I10 I11 I12 I13 I14 I15 I16].
    assert (0 < T) by (apply I15; congruence). split; auto; cbn; try done.
    + repeat split; auto. apply soon_le. lia.
    + rewrite I6. unfold refreshing. by rewrite Hs.
    + intros x Hx Ht. left. destruct (I10 x Hx Ht) as [|(E & _)]; [done|congruence].
    + by intros w [= <-].
  - rewrite bool_decide_eq_false_2 by done. cbn. rewrite Es. cbn. by eexists _, _.
Qed.


(** ** Time and accesses *)

Lemma rank_advance T t rd r :
  rank_ok T rd r -> T <= t -> (forall e w, event_at r e = Some w -> t <= w) ->
  (forall x, x ∈ rd -> t <= x) -> rank_ok t rd r.
Proof.
  intros [I1 I2 I3 I4 I5 I6 I7 I8 I9 I10 I11 I12 I13 I14 I15 I16] Ht He Hx.
  split; auto; try done.
  - intros w Hw. pose proof (I3 w Hw). pose proof (He _ _ Hw). lia.
  - repeat split; intros w Hw; by eapply He.
  - intros x Hin Hty. destruct (I9 x Hin Hty) as [|?]; [left; lia|by right].
  - intros x Hin Hty. destruct (I10 x Hin Hty) as [|?]; [left; lia|by right].
  - lia.
  - unfold state_ok in *. destruct (refreshState (machine r)), (event_at r Power); try done.
    + destruct I13 as [? Hr]. split; [done|]. pose proof (He _ _ Hr). assert (t = T) as -> by lia. done.
    + destruct I13 as (? & Hr & ?). split; [done|]. pose proof (He _ _ Hr). assert (t = T) as -> by lia. done.
  - intros Hs. specialize (I15 Hs). lia.
  - by eapply traced_advance.
Qed.

Lemma delayed_rank T rd p cmd_at j r : rank_ok T rd r -> rank_ok T rd (delayed k p cmd_at j r).
Proof.
  intros [I1 I2 I3 I4 I5 I6 I7 I8 I9 I10 I11 I12 I13 I14 I15 I16].
  unfold delayed. split; auto; cbn; try done.
  - by apply (delayed_ok c k p cmd_at j r).
  - intros t Ht. apply (ef_covered k _ _ _ (delayed_effect k Hk T p cmd_at j r) t). by apply I8.
Qed.

(** The rank of an access. *)
Lemma access_rank T rd r r' :
  rank_ok T rd r -> inRefIdleState r = true -> event_at r Power = None ->
  effect T r r' -> array_ok (array r') -> rank_ok T rd r'.
Proof.
  intros H Hi Hpow He Ha. unfold inRefIdleState in Hi. apply bool_decide_eq_true_1 in Hi.
  pose proof H as H0. unfold rank_ok in H0. rewrite Hpow in H0.
  pose proof (in_state _ _ _ _ _ _ _ _ _ _ H0) as Hst. unfold state_ok in Hst. rewrite Hi in Hst.
  assert (with_refresh REF_IDLE (machine r) = machine r) as E by (rewrite <- Hi; by destruct (machine r)).
  apply (effect_inv T rd r r' REF_IDLE); try done; [by rewrite E|].
  assert (refreshState (machine r') = REF_IDLE /\ pwrState (machine r') = pwrState (machine r)) as [E1 E2].
  { rewrite (ef_machine _ _ _ _ He), <- Hi. by destruct (event_at r Precharge), (event_at r' Precharge). }
  unfold state_ok. by rewrite E1, E2.
Qed.

Lemma read_rank T rd r ready :
  rank_ok T rd r -> T <= ready -> covered r ready -> (length rd < 250)%nat ->
  rank_ok T (rd ++ [ready]) (on_machine incr_outstanding r).
Proof.
  intros H Ht Hc Hl. pose proof (count_small _ _ _ _ _ _ _ _ _ _ H) as Ho.
  destruct H as [I1 I2 I3 I4 I5 I6 I7 I8 I9 I10 I11 I12 I13 I14 I15 I16].
  split; auto; cbn; try done.
  - intros t [?| ->%list_elem_of_singleton]%elem_of_app; auto.
  - rewrite u8_small, length_app by lia. unfold refreshing in *. cbn in *. lia.
  - rewrite length_app. cbn. lia.
  - intros t [[?| ->%list_elem_of_singleton]%elem_of_app|?]; auto.
Qed.

Lemma write_rank T rd r ready :
  rank_ok T rd r -> T <= ready -> covered r ready ->
  exists r', write_done T ready r = Ok r' /\ rank_ok T rd r' /\ array r' = array r.
Proof.
  intros H Ht Hc. pose proof (count_small _ _ _ _ _ _ _ _ _ _ H) as Ho.
  destruct H as [I1 I2 I3 (U1 & U2 & U3 & U4) I5 I6 I7 I8 I9 I10 I11 I12 I13 I14 I15 I16]. unfold write_done.
  destruct (event_at r WriteDone) as [w|] eqn:Ew.
  - destruct (Z.ltb_spec w ready).
    + unfold reschedule, scheduled. rewrite (proj2 (Z.leb_le T ready) Ht), Ew, bool_decide_eq_true_2 by eauto.
      eexists. split; [done|]. split; [|done]. split; auto; try done.
      * repeat split; auto. by apply soon_le.
      * intros t [?|[[= <-]|?]]; auto.
    + exists r. split; [done|]. split; [|done]. unfold rank_ok. rewrite Ew. by split; auto.
  - rewrite schedule_free by done. eexists. split; [done|]. split; [|done].
    change (inv T rd (array r) (incr_outstanding (machine r)) (Some ready) (event_at r Activate)
      (event_at r Precharge) (event_at r Refresh) (event_at r Power) (event_at r WakeUp)).
    split; auto 10; cbn; try done.
    + rewrite u8_small by lia. unfold refreshing in *. cbn in *. lia.
    + intros t [?|[[= <-]|?]]; auto.
Qed.

End Refresh.
End DramRefresh.
