(* ===== verification/DramRun.v ===== *)
(** * The device under all interleavings

    The controller's ranks are driven by the event queue: requests are served,
    data is returned, and the events of the ranks fire at their ticks.  A step is
    one event; the steps of a run are the events in an order the queue allows.
    Every run keeps the protocol of the device. *)

From S2P Require Import Prelude Common PageTable Clock DramQueues DramRank DramTiming DramPower DramRefresh.

Module DramRun.
Import DramQueues DramRank DramTiming DramPower DramRefresh.

(** ** Runs *)

Record World := mkWorld { clock : Z; ctrl : Ctrl }.

(** The steps: time passes, an event of a rank fires, the next request event runs
    and may access the device for a packet, the data of a read returns, and the
    numbers of queued packets of a rank change. *)
Inductive op :=
| Advance (t : Z)
| Fire (j : nat) (e : Ev) (m : Memory)
| NextReq (m : Memory) (access : option (DRAMPacket * (nat * nat) * list (list DRAMPacket)))
| Respond (m : Memory)
| Enqueue (j : nat) (rd wr : Z).

Section Run.
Context (c : config) (k : timing).
Context (sort : list Command -> list Command).

Definition handle (now : Z) (e : Ev) (m : Memory) (r : Rank) : res Rank :=
  match e with
  | WriteDone => processWriteDoneEvent r
  | Activate => processActivateEvent now r
  | Precharge => processPrechargeEvent k now m r
  | Refresh => processRefreshEvent k sort now m r
  | Power => '(r, _) ← processPowerEvent k now m r; Ok r
  | WakeUp => processWakeUpEvent now r
  end.

Definition with_bus s w := mkCtrl s (respQueue w) (respondAt w).

Definition run_op (o : op) (w : World) : res World :=
  let now := clock w in
  let x := ctrl w in
  match o with
  | Advance t => Ok (mkWorld t x)
  | Fire j e m =>
      s ← on_rank j (fun r => handle now e m (set_event e None r)) (bus x);
      Ok (mkWorld now (with_bus s x))
  | NextReq m access =>
      '(s, _) ← check_ranks k now m (bus x);
      x ← match access with
          | None => Ok (with_bus s x)
          | Some (p, pos, queues) =>
              if read p then serve_read c k now p pos queues (with_bus s x)
              else serve_write c k now p pos queues (with_bus s x)
          end;
      Ok (mkWorld now x)
  | Respond m =>
      x ← processRespondEvent k now m (mkCtrl (bus x) (respQueue x) None);
      Ok (mkWorld now x)
  | Enqueue j rd wr =>
      s ← on_rank j (fun r => Ok (with_entries rd wr r)) (bus x);
      Ok (mkWorld now (with_bus s x))
  end.

(** No rank has a power event pending. *)
Definition quiet (x : Ctrl) : Prop :=
  forall j r, ranks (bus x) !! j = Some r -> event_at r Power = None.

(** What the event queue allows.  Time passes when nothing is due.  A power event
    is scheduled at the present tick, and of the events of a tick the newest is
    served first: it goes before all others; so does, within its rank, the refresh
    event that [checkDrainDone] scheduled.  An access is to a rank that is
    not refreshing, as the scheduler chooses it, and the read buffer has room. *)
Definition legal (o : op) (w : World) : Prop :=
  let now := clock w in
  let x := ctrl w in
  match o with
  | Advance t => now <= t /\ (forall u, respondAt x = Some u -> t <= u) /\
      forall j r e u, ranks (bus x) !! j = Some r -> event_at r e = Some u -> t <= u
  | Fire j e m => exists r, ranks (bus x) !! j = Some r /\ event_at r e = Some now /\
      (e <> Power -> quiet x /\ (e <> Refresh -> refreshState (machine r) <> REF_PD_EXIT))
  | NextReq m None => quiet x
  | NextReq m (Some (p, _, _)) => quiet x /\ 0 < now /\ packet_ok c p /\ size p <= burstSize c /\
      (read p = true -> (length (respQueue x) < 250)%nat) /\
      forall r, ranks (bus x) !! Z.to_nat (rank p) = Some r -> inRefIdleState r = true
  | Respond m => quiet x /\ respondAt x = Some now
  | Enqueue j rd wr => is_Some (ranks (bus x) !! j)
  end.

(** The step that stops the simulator, and with what: a refresh that comes too late. *)
Definition stops (o : op) (w : World) : option fault :=
  match o with
  | Fire j Refresh _ => r ← ranks (bus (ctrl w)) !! j; late k (clock w) r
  | _ => None
  end.

(** The worlds that runs reach from [w0]. *)
Inductive reach (w0 : World) : World -> Prop :=
| reach_start : reach w0 w0
| reach_step o w w' : reach w0 w -> legal o w -> run_op o w = Ok w' -> reach w0 w'.

(** ** The invariant *)

Context (Hk : timing_ok k) (Hf : refresh_ok k).
Context (Hsort : forall l, sort l ≡ₚ l /\ StronglySorted (fun x y => timeStamp x <= timeStamp y) (sort l)).
Context (Hpd : enableDRAMPowerdown k = false) (Hbk : 0 < banksPerRank c < 256).

(** The ready times of the reads to rank [j]. *)
Definition reads_of (j : nat) (q : list (DRAMPacket * Z)) : list Z :=
  snd <$> filter (fun x => Z.to_nat (rank x.1) = j) q.

Record world_ok (w : World) : Prop := {
  wo_bus : bus_ok c k (bus (ctrl w));
  wo_rank : forall j r, ranks (bus (ctrl w)) !! j = Some r ->
    rank_ok c k (clock w) (reads_of j (respQueue (ctrl w))) r;
  wo_packets : forall x, x ∈ respQueue (ctrl w) -> packet_ok c x.1 /\ x.2 <= nextBurstAt (bus (ctrl w)) + tCL k;
  wo_sorted : StronglySorted (fun x y => x.2 <= y.2) (respQueue (ctrl w));
  wo_respond : respondAt (ctrl w) = snd <$> head (respQueue (ctrl w))
}.

Lemma reads_app j q1 q2 : reads_of j (q1 ++ q2) = reads_of j q1 ++ reads_of j q2.
Proof. unfold reads_of. by rewrite filter_app, fmap_app. Qed.

Lemma reads_length j q : (length (reads_of j q) <= length q)%nat.
Proof. unfold reads_of. rewrite length_fmap. apply length_filter. Qed.

Lemma reads_elem j q t : t ∈ reads_of j q <-> exists x, x ∈ q /\ Z.to_nat (rank x.1) = j /\ x.2 = t.
Proof.
  unfold reads_of. rewrite list_elem_of_fmap. setoid_rewrite list_elem_of_filter. naive_solver.
Qed.

(** A rank changes. *)
Lemma rank_changes w j r r' q at_ t :
  world_ok w -> clock w = t -> ranks (bus (ctrl w)) !! j = Some r ->
  rank_ok c k t (reads_of j q) r' -> later (banks (array r)) (banks (array r')) ->
  (forall i, i <> j -> reads_of i q = reads_of i (respQueue (ctrl w))) ->
  (forall x, x ∈ q -> x ∈ respQueue (ctrl w)) -> StronglySorted (fun x y => x.2 <= y.2) q ->
  at_ = snd <$> head q ->
  world_ok (mkWorld t (mkCtrl (with_ranks (<[j := r']> (ranks (bus (ctrl w)))) (bus (ctrl w))) q at_)).
Proof.
  intros [W1 W2 W3 W4 W5] <- Hj Hr' Hl Hq Hin Hs ->. split; cbn; try done.
  - apply bus_ok_later; [done|apply length_insert|]. intros i o Ho.
    apply list_lookup_insert_Some in Ho as [(<- & <- & _)|[Hne Ho]].
    + exists r. split; [done|]. split; [|done]. apply Hr'.
    + exists o. split; [done|]. split; [by apply (W2 i o)|apply later_refl].
  - intros i o Ho. apply list_lookup_insert_Some in Ho as [(<- & <- & _)|[Hne Ho]]; [done|].
    pose proof (W2 i o Ho) as H. rewrite <- (Hq i) in H by done. exact H.
  - intros x Hx. by apply W3, Hin.
Qed.

(** ** The steps keep the invariant *)

Lemma advance_ok t w : world_ok w -> legal (Advance t) w -> exists w', run_op (Advance t) w = Ok w' /\ world_ok w'.
Proof.
  intros [W1 W2 W3 W4 W5] (Ht & Hr & He). eexists. split; [done|]. split; try done. cbn.
  intros j r Hj. apply (rank_advance c k (clock w)); [by apply W2|done|by eauto|].
  intros u (x & Hx & _ & <-)%reads_elem.
  destruct (respQueue (ctrl w)) as [|y q] eqn:Eq; [set_solver|]. cbn in W5.
  specialize (Hr y.2 W5). apply elem_of_cons in Hx as [->|Hx]; [done|].
  apply StronglySorted_inv in W4 as [_ Hf']. rewrite Forall_forall in Hf'. specialize (Hf' x Hx). lia.
Qed.

Lemma dram_handle_ok T e m rd r :
  rank_ok c k T rd r -> event_at r e = Some T -> (e <> Power -> event_at r Power = None) ->
  (e <> Power -> e <> Refresh -> refreshState (machine r) <> REF_PD_EXIT) ->
  match (if decide (e = Refresh) then late k T r else None) with
  | Some f => handle T e m (set_event e None r) = Fail f
  | None => exists r', handle T e m (set_event e None r) = Ok r' /\ rank_ok c k T rd r' /\
      later (banks (array r)) (banks (array r'))
  end.
Proof.
  intros H He Hp Hx. destruct e; try rewrite decide_False by done; try rewrite decide_True by done; cbn [handle].
  - destruct (processWriteDoneEvent_ok c k T rd r H He) as (r' & E & ? & Ea); [by apply Hp|].
    exists r'. split; [done|]. split; [done|rewrite Ea; apply later_refl].
  - destruct (processActivateEvent_ok c k Hk Hf sort Hsort T rd r H He) as (r' & E & ? & Ea); [by apply Hp|by apply Hx|].
    exists r'. split; [done|]. split; [done|rewrite Ea; apply later_refl].
  - destruct (processPrechargeEvent_ok c k sort Hsort Hpd T m rd r H He) as (r' & E & ? & Ea); [by apply Hp|by apply Hx|].
    exists r'. split; [done|]. split; [done|rewrite Ea; apply later_refl].
  - apply processRefreshEvent_ok; auto. lia.
  - destruct (processPowerEvent_ok c k Hk Hf sort Hsort T m rd r H He) as (r' & b & -> & ? & Ea).
    exists r'. split; [done|]. split; [done|rewrite Ea; apply later_refl].
  - destruct (in_low _ _ _ _ _ _ _ _ _ _ _ _ H) as (_ & E & _). congruence.
Qed.

Lemma fire_ok j e m w :
  world_ok w -> legal (Fire j e m) w ->
  match stops (Fire j e m) w with
  | Some f => run_op (Fire j e m) w = Fail f
  | None => exists w', run_op (Fire j e m) w = Ok w' /\ world_ok w'
  end.
Proof.
  intros Hw (r & Hj & He & Hp). pose proof (wo_rank _ Hw j r Hj) as Hr.
  pose proof (dram_handle_ok (clock w) e m _ r Hr He) as H.
  assert (stops (Fire j e m) w = if decide (e = Refresh) then late k (clock w) r else None) as ->
    by (cbn; rewrite Hj; by destruct e).
  cbn. unfold on_rank. rewrite Hj. cbn [deref mbind res_bind].
  destruct (if decide (e = Refresh) then _ else _) as [f|].
  - rewrite H; [done| |]; intros Hne; [by destruct (Hp Hne) as [Hq _]; eapply Hq|by apply Hp].
  - destruct H as (r' & E & Hr' & Hl); [intros Hne; by destruct (Hp Hne) as [Hq _]; eapply Hq|intros Hne; by apply Hp|].
    rewrite E. eexists. split; [done|]. eapply rank_changes; try done; apply Hw.
Qed.

Lemma dram_enqueue_ok j rd wr w :
  world_ok w -> legal (Enqueue j rd wr) w -> exists w', run_op (Enqueue j rd wr) w = Ok w' /\ world_ok w'.
Proof.
  intros Hw [r Hj]. cbn. unfold on_rank. rewrite Hj. eexists. split; [done|].
  apply (rank_changes w j r (with_entries rd wr r)); try done; [|apply later_refl|apply Hw..].
  exact (wo_rank _ Hw j r Hj).
Qed.

Lemma reads_cons j p t q :
  reads_of j ((p, t) :: q) = if decide (Z.to_nat (rank p) = j) then t :: reads_of j q else reads_of j q.
Proof. unfold reads_of. rewrite filter_cons. cbn. by case_decide. Qed.

Lemma dram_respond_ok m w :
  world_ok w -> legal (Respond m) w -> exists w', run_op (Respond m) w = Ok w' /\ world_ok w'.
Proof.
  intros Hw [Hq Hat]. pose proof Hw as [W1 W2 W3 W4 W5].
  destruct (respQueue (ctrl w)) as [|[p t] q] eqn:Eq; [cbn in W5; congruence|].
  cbn in W5. assert (t = clock w) as -> by congruence.
  destruct (W3 (p, clock w)) as [(Hrk & _) _]; [set_solver|]. cbn in Hrk.
  destruct (lookup_lt_is_Some_2 (ranks (bus (ctrl w))) (Z.to_nat (rank p))) as [r Hr];
    [pose proof (bu_ranks _ _ _ W1); lia|].
  pose proof (W2 _ _ Hr) as Hok. rewrite reads_cons, decide_True in Hok by done.
  destruct (respond_rank_ok c k Hk Hf sort Hsort Hpd (clock w) m _ _ r Hok) as (r' & E & Hok' & Ea); [by eapply Hq|].
  apply StronglySorted_inv in W4 as [Hs Hall].
  assert (exists at_, match q with
    | [] => Ok None | x :: _ => assert_that (clock w <=? x.2) ;; Ok (Some x.2) end = Ok at_ /\
    at_ = snd <$> head q) as (at_ & Eat & Hat').
  { destruct q as [|x q]; [by exists None|]. apply Forall_cons in Hall as [Hx _]. cbn in Hx.
    rewrite (proj2 (Z.leb_le _ _) Hx). by exists (Some x.2). }
  unfold run_op, processRespondEvent. cbn [respQueue bus clock ctrl]. rewrite Eq.
  unfold on_rank. rewrite Hr. cbn [deref mbind res_bind]. rewrite E. cbn [mbind res_bind]. rewrite Eat.
  eexists. split; [done|].
  apply (rank_changes w (Z.to_nat (rank p)) r r' q at_); try done.
  - rewrite Ea. apply later_refl.
  - intros i Hi. rewrite Eq, reads_cons, decide_False by done. done.
  - rewrite Eq. set_solver.
Qed.


(** The loop over the ranks. *)

(** A rank is checked: no rank drains any longer. *)
Record checked (r0 r : Rank) : Prop := {
  ck_array : array r = array r0;
  ck_reads : readEntries r = readEntries r0;
  ck_writes : writeEntries r = writeEntries r0;
  ck_idle : inRefIdleState r = inRefIdleState r0;
  ck_drain : refreshState (machine r) <> REF_DRAIN
}.

Lemma rank_awake T rd r : rank_ok c k T rd r -> event_at r Power = None -> pwrState (machine r) <> PWR_SREF.
Proof.
  intros H Hp. pose proof (in_state _ _ _ _ _ _ _ _ _ _ _ _ H) as Hst. rewrite Hp in Hst.
  destruct (state_pwr _ _ _ _ _ _ Hst) as [[]|]; congruence.
Qed.

Lemma check_rank_checked now m r r' n :
  pwrState (machine r) <> PWR_SREF -> check_rank k now m r = Ok (r', n) ->
  checked r r' /\ n = if inRefIdleState r then 0 else 1.
Proof.
  intros Hs. unfold check_rank, inRefIdleState. case_bool_decide as Hi.
  { intros [= <- <-]. split; [|done]. split; try done. congruence. }
  rewrite bool_decide_eq_false_2 by done. cbn [negb]. unfold checkDrainDone. case_bool_decide as Hd.
  - intros E. apply bind_ok in E as ([r1 b] & E1 & E). apply bind_ok in E1 as (r2 & E2 & E1). injection E1 as <- <-.
    unfold schedule in E2. do 2 apply bind_ok in E2 as (_ & _ & E2). injection E2 as <-. cbn in E.
    rewrite bool_decide_eq_false_2 in E by done. cbn in E. injection E as <- <-. split; [|done].
    split; cbn; try done. unfold inRefIdleState. rewrite Hd. done.
  - cbn. rewrite bool_decide_eq_false_2 by done. cbn. intros [= <- <-]. done.
Qed.

Lemma checks_ok m w :
  world_ok w -> quiet (ctrl w) ->
  exists s n, check_ranks k (clock w) m (bus (ctrl w)) = Ok (s, n) /\
    world_ok (mkWorld (clock w) (with_bus s (ctrl w))) /\ quiet (with_bus s (ctrl w)) /\
    (0 < n -> exists j r0, ranks (bus (ctrl w)) !! j = Some r0 /\ inRefIdleState r0 = false) /\
    forall j r, ranks s !! j = Some r -> exists r0, ranks (bus (ctrl w)) !! j = Some r0 /\ checked r0 r.
Proof.
  intros Hw Hq. unfold check_ranks.
  set (I := fun (i : nat) (st : t * Z) => exists rs, st.1 = with_ranks rs (bus (ctrl w)) /\
    length rs = length (ranks (bus (ctrl w))) /\
    (0 < st.2 -> exists j r0, ranks (bus (ctrl w)) !! j = Some r0 /\ inRefIdleState r0 = false) /\
    forall j r, rs !! j = Some r -> rank_ok c k (clock w) (reads_of j (respQueue (ctrl w))) r /\
      event_at r Power = None /\ exists r0, ranks (bus (ctrl w)) !! j = Some r0 /\
      if decide (j < i)%nat then checked r0 r else r = r0).
  match goal with |- context [for_each ?l ?b ?st] =>
    destruct (for_each_seq I (length (ranks (bus (ctrl w)))) b st) as ([s n] & E & rs & Es & Hl & Hn & Hrs) end.
  - exists (ranks (bus (ctrl w))). split; [by destruct (bus (ctrl w))|]. split; [done|]. split; [cbn; lia|].
    intros j r Hj. split; [by apply Hw|]. split; [by eapply Hq|]. by exists r.
  - intros i [s n] Hi (rs & Es & Hl & Hn & Hrs). cbn [fst snd] in Es, Hn. subst s.
    destruct (lookup_lt_is_Some_2 rs i) as [r Hr]; [lia|].
    destruct (Hrs i r Hr) as (Hok & Hp & r0 & Hr0 & Ea). rewrite decide_False in Ea by lia. subst r0.
    destruct (check_rank_ok c k (clock w) m _ r Hok Hp) as (r' & b & E & Hok' & _ & Hp' & _).
    destruct (check_rank_checked _ _ _ _ _ (rank_awake _ _ _ Hok Hp) E) as [Hck Hb].
    cbn [ranks with_ranks]. rewrite Hr. cbn [deref mbind res_bind]. rewrite E. eexists. split; [done|].
    exists (<[i := r']> rs). split; [done|]. split; [by rewrite length_insert|]. split.
    { cbn. intros Hpos. destruct (inRefIdleState r) eqn:Ei; [apply Hn; lia|eauto]. }
    intros j o Ho. apply list_lookup_insert_Some in Ho as [(<- & <- & _)|[Hne Ho]].
    + split; [done|]. split; [done|]. exists r. split; [done|]. by rewrite decide_True by lia.
    + destruct (Hrs j o Ho) as (? & ? & o0 & Ho0 & Hcase). split; [done|]. split; [done|]. exists o0. split; [done|].
      destruct (decide (j < i)%nat); [by rewrite decide_True by lia|]. by rewrite decide_False by lia.
  - cbn [fst snd] in Es, Hn. subst s. exists (with_ranks rs (bus (ctrl w))), n. split; [done|].
    assert (forall j r, rs !! j = Some r -> exists r0, ranks (bus (ctrl w)) !! j = Some r0 /\ checked r0 r) as Hck.
    { intros j r Hj. destruct (Hrs j r Hj) as (_ & _ & r0 & Hr0 & H). exists r0. split; [done|].
      by rewrite decide_True in H by (rewrite <- Hl; by eapply lookup_lt_Some). }
    split; [|split; [|done]].
    + destruct Hw as [W1 W2 W3 W4 W5]. split; try done.
      * apply bus_ok_later; [done|done|]. intros j r Hj. destruct (Hck j r Hj) as (r0 & Hr0 & [Ea _ _ _ _]).
        exists r0. split; [done|]. split; [by apply (Hrs j r Hj)|]. rewrite Ea. apply later_refl.
      * intros j r Hj. by apply Hrs.
    + intros j r Hj. by eapply Hrs.
Qed.

(** The access to the device. *)
Lemma access_ok p pos qs w r :
  world_ok w -> quiet (ctrl w) -> 0 < clock w -> packet_ok c p ->
  ranks (bus (ctrl w)) !! Z.to_nat (rank p) = Some r -> inRefIdleState r = true ->
  exists ready s r', doDRAMAccess c k (clock w) p pos qs (bus (ctrl w)) = Ok (ready, s) /\
    ranks s !! Z.to_nat (rank p) = Some r' /\ event_at r' Power = None /\
    covered k r' ready /\ clock w <= ready /\
    nextBurstAt (bus (ctrl w)) + tCL k <= ready /\ ready <= nextBurstAt s + tCL k /\
    world_ok (mkWorld (clock w) (with_bus s (ctrl w))).
Proof.
  intros Hw Hq Hn Hp Hr Hi. pose proof Hw as [W1 W2 W3 W4 W5]. pose proof (W2 _ _ Hr) as Hok.
  pose proof (in_low _ _ _ _ _ _ _ _ _ _ _ _ Hok) as (Hlow & _).
  destruct (doDRAMAccess_ok c k Hk (clock w) p pos qs (bus (ctrl w)) r W1 Hp Hn Hr)
    as (cmd_at & r' & nr & H1 & H2 & He & Hcov & E & Hb); [intros El; congruence|].
  cbn zeta in E, Hb. pose proof (ok_burst k Hk). pose proof (ok_cl k Hk). pose proof (ok_wr k Hk). pose proof (ok_rp k Hk).
  pose proof (lookup_lt_Some _ _ _ Hr) as Hlt. specialize (He Hlow).
  eexists _, _, r'. split; [exact E|]. cbn [ranks nextBurstAt].
  assert ((<[Z.to_nat (rank p) := r']> (imap (delayed k p cmd_at) (ranks (bus (ctrl w))))) !! Z.to_nat (rank p) =
    Some r') as Hr' by (apply list_lookup_insert_eq; by rewrite length_imap).
  split; [done|]. split.
  { rewrite (proj2 (proj2 (proj2 (ef_frame _ _ _ _ He)))) by set_solver. by eapply Hq. }
  split; [eapply covered_le; [|exact Hcov]; pose proof (rf_data k Hf); destruct (read p); lia|].
  split; [lia|]. split; [lia|]. split; [lia|].
  pose proof (bu_array _ _ _ Hb _ _ Hr') as Ha'. split; cbn [ctrl bus respQueue respondAt with_bus clock ranks nextBurstAt]; try done.
  - intros j o Ho. destruct (decide (j = Z.to_nat (rank p))) as [->|Hne].
    + rewrite Hr' in Ho. injection Ho as <-. eapply access_rank; [done|done|exact Hsort|exact Hok|done|by eapply Hq|done|done].
    + rewrite list_lookup_insert_ne, list_lookup_imap in Ho by done.
      apply fmap_Some in Ho as (o0 & Ho & ->). apply delayed_rank; [done|]. by apply W2.
  - intros x Hx. destruct (W3 x Hx). split; [done|lia].
Qed.

Lemma StronglySorted_snoc {A} (R : A -> A -> Prop) l x :
  StronglySorted R l -> Forall (fun y => R y x) l -> StronglySorted R (l ++ [x]).
Proof.
  induction 1 as [|y l Hl IH Hy]; intros Hf'; cbn; [repeat constructor|].
  apply Forall_cons in Hf' as [Hyx Hf']. constructor; [auto|]. apply Forall_app. split; [done|]. by constructor.
Qed.

Lemma dram_serve_read_ok p pos qs w :
  world_ok w -> legal (NextReq (mkMemory READ 0 false false) (Some (p, pos, qs))) w -> read p = true ->
  exists x, serve_read c k (clock w) p pos qs (ctrl w) = Ok x /\ world_ok (mkWorld (clock w) x).
Proof.
  intros Hw (Hq & Hn & Hp & Hsz & Hroom & Hi) Hrd. specialize (Hroom Hrd).
  destruct (lookup_lt_is_Some_2 (ranks (bus (ctrl w))) (Z.to_nat (rank p))) as [r Hr].
  { pose proof (bu_ranks _ _ _ (wo_bus _ Hw)). destruct Hp as (? & _). lia. }
  specialize (Hi r Hr).
  destruct (access_ok p pos qs w r Hw Hq Hn Hp Hr Hi) as (ready & s & r' & E & Hr' & _ & Hcov & H1 & H2 & H3 & Hw').
  pose proof Hw as [_ _ W3 W4 W5].
  assert (exists at_, match last (respQueue (ctrl w)) with
    | None => assert_that (bool_decide (respondAt (ctrl w) = None)) ;; Ok (Some ready)
    | Some x => assert_that (x.2 <=? ready) ;;
        assert_that (bool_decide (is_Some (respondAt (ctrl w)))) ;; Ok (respondAt (ctrl w))
    end = Ok at_ /\ at_ = snd <$> head (respQueue (ctrl w) ++ [(p, ready)])) as (at_ & Eat & Hat).
  { destruct (last (respQueue (ctrl w))) as [x|] eqn:El.
    - assert (x ∈ respQueue (ctrl w)) as Hx by (by apply last_Some_elem_of).
      destruct (W3 x Hx) as [_ Hle]. rewrite (proj2 (Z.leb_le x.2 ready)) by lia. rewrite W5.
      destruct (respQueue (ctrl w)) as [|y q]; [done|]. cbn. by exists (Some y.2).
    - apply last_None in El. rewrite W5, El. by exists (Some ready). }
  unfold serve_read, rankRef. rewrite Hr. cbn [deref mbind res_bind]. rewrite Hi. cbn [assert_that mbind res_bind].
  rewrite E. cbn [mbind res_bind]. unfold on_rank. rewrite Hr'. cbn [deref mbind res_bind].
  rewrite (proj2 (Z.leb_le _ _) Hsz), (proj2 (Z.leb_le _ _) H1). cbn [assert_that mbind res_bind]. rewrite Eat.
  eexists. split; [done|]. destruct Hw' as [B1 B2 B3 B4 B5].
  split; cbn [ctrl bus respQueue respondAt with_bus clock ranks nextBurstAt with_ranks] in *; try done.
  - apply bus_ok_later; [done|apply length_insert|]. intros j o Ho.
    apply list_lookup_insert_Some in Ho as [(<- & <- & _)|[_ Ho]].
    + exists r'. split; [done|]. split; [by apply (B2 _ _ Hr')|apply later_refl].
    + exists o. split; [done|]. split; [by apply (B2 j o)|apply later_refl].
  - intros j o Ho. rewrite reads_app, reads_cons. apply list_lookup_insert_Some in Ho as [(<- & <- & _)|[Hne Ho]].
    + rewrite decide_True by done. apply read_rank; [by apply B2|done|done|].
      pose proof (reads_length (Z.to_nat (rank p)) (respQueue (ctrl w))). lia.
    + rewrite decide_False by done. unfold reads_of at 2. cbn. rewrite app_nil_r. by apply B2.
  - intros x [Hx| ->%list_elem_of_singleton]%elem_of_app; [by apply B3|done].
  - apply StronglySorted_snoc; [done|]. apply Forall_forall. intros x Hx. destruct (W3 x Hx). cbn. lia.
Qed.

Lemma dram_serve_write_ok p pos qs w :
  world_ok w -> legal (NextReq (mkMemory READ 0 false false) (Some (p, pos, qs))) w ->
  exists x, serve_write c k (clock w) p pos qs (ctrl w) = Ok x /\ world_ok (mkWorld (clock w) x).
Proof.
  intros Hw (Hq & Hn & Hp & Hsz & _ & Hi).
  destruct (lookup_lt_is_Some_2 (ranks (bus (ctrl w))) (Z.to_nat (rank p))) as [r Hr].
  { pose proof (bu_ranks _ _ _ (wo_bus _ Hw)). destruct Hp as (? & _). lia. }
  specialize (Hi r Hr).
  destruct (access_ok p pos qs w r Hw Hq Hn Hp Hr Hi) as (ready & s & r' & E & Hr' & _ & Hcov & H1 & H2 & H3 & Hw').
  destruct (write_rank c k (clock w) _ (with_entries (readEntries r') (u32 (writeEntries r' - 1)) r') ready
    (wo_rank _ Hw' _ _ Hr') H1 Hcov) as (r2 & Ew & Hok2 & Ea2).
  unfold serve_write, rankRef. rewrite Hr. cbn [deref mbind res_bind]. rewrite Hi. cbn [assert_that mbind res_bind].
  rewrite (proj2 (Z.leb_le _ _) Hsz). cbn [assert_that mbind res_bind].
  rewrite E. cbn [mbind res_bind]. unfold on_rank. rewrite Hr'. cbn [deref mbind res_bind].
  rewrite Ew. cbn [mbind res_bind]. eexists. split; [done|].
  apply (rank_changes (mkWorld (clock w) (with_bus s (ctrl w))) (Z.to_nat (rank p)) r'); try done;
    [|apply Hw'..]. rewrite Ea2. apply later_refl.
Qed.

Lemma next_req_ok m a w :
  world_ok w -> legal (NextReq m a) w -> exists w', run_op (NextReq m a) w = Ok w' /\ world_ok w'.
Proof.
  intros Hw Hl. assert (quiet (ctrl w)) as Hq by (destruct a as [[[p pos] qs]|]; [apply Hl|done]).
  destruct (checks_ok m w Hw Hq) as (s & n & E & Hw1 & Hq1 & _ & Hidle). cbn [run_op]. rewrite E. cbn [mbind res_bind].
  destruct a as [[[p pos] qs]|]; [|by eexists].
  assert (legal (NextReq (mkMemory READ 0 false false) (Some (p, pos, qs))) (mkWorld (clock w) (with_bus s (ctrl w)))) as Hl1.
  { destruct Hl as (_ & Hn & Hp & Hsz & Hroom & Hi). split; [done|]. repeat (split; [done|]).
    intros r Hr. destruct (Hidle _ r Hr) as (r0 & Hr0 & Hx). rewrite (ck_idle _ _ Hx). auto. }
  destruct (read p) eqn:Er.
  - destruct (dram_serve_read_ok p pos qs _ Hw1 Hl1 Er) as (x & Ex & Hx). cbn [clock ctrl] in Ex. rewrite Ex. eexists. split; [done|exact Hx].
  - destruct (dram_serve_write_ok p pos qs _ Hw1 Hl1) as (x & Ex & Hx). cbn [clock ctrl] in Ex. rewrite Ex. eexists. split; [done|exact Hx].
Qed.

(** Every step that may happen succeeds and keeps the invariant, but a late refresh. *)
Lemma dram_step_ok o w :
  world_ok w -> legal o w ->
  match stops o w with
  | Some f => run_op o w = Fail f
  | None => exists w', run_op o w = Ok w' /\ world_ok w'
  end.
Proof.
  destruct o; [apply advance_ok|apply fire_ok|apply next_req_ok|apply dram_respond_ok|apply dram_enqueue_ok].
Qed.

Lemma reach_ok w0 w : world_ok w0 -> reach w0 w -> world_ok w.
Proof.
  intros H0. induction 1 as [|o w w' _ IH Hl E]; [done|].
  pose proof (dram_step_ok o w IH Hl) as H. destruct (stops o w); [congruence|].
  destruct H as (w1 & E1 & H1). congruence.
Qed.


(** ** The start *)

Definition started (t0 : Z) (r : Rank) : Rank :=
  set_event Refresh (Some (t0 + tREFI k - tRP k)) (on_machine (with_tick t0) r).

Lemma rank_startup_ok t0 r :
  event_at r Refresh = None -> rank_startup t0 (t0 + tREFI k - tRP k) r = Ok (started t0 r).
Proof.
  intros Hr. pose proof (rf_refi k Hf). unfold rank_startup.
  rewrite (proj2 (Z.ltb_lt t0 (t0 + tREFI k - tRP k))) by lia. cbn [assert_that mbind res_bind].
  by rewrite schedule_free by (done || lia).
Qed.

Lemma startup_ok t0 s :
  0 <= t0 -> (forall r, r ∈ ranks s -> event_at r Refresh = None) ->
  startup k t0 s = Ok (mk (started t0 <$> ranks s) (t0 + tRP k + tRCD k) (nextReqTime s) (lastRank s) (bursts s)).
Proof.
  intros Ht Hr. pose proof (rf_refi k Hf). unfold startup.
  assert (forall l acc, (forall r, r ∈ l -> event_at r Refresh = None) ->
    for_each l (fun r rs => r ← rank_startup t0 (t0 + tREFI k - tRP k) r; Ok (rs ++ [r])) acc =
      Ok (acc ++ (started t0 <$> l))) as Hl.
  { induction l as [|r l IH]; intros acc Hn; cbn [for_each fmap list_fmap]; [by rewrite app_nil_r|].
    rewrite rank_startup_ok by (done || apply Hn; set_solver). cbn [mbind res_bind].
    rewrite IH by set_solver. by rewrite <- app_assoc. }
  rewrite Hl by done. done.
Qed.

Lemma lookup_new_bank i b :
  (new_bank k <$> seq 0 (Z.to_nat (banksPerRank c))) !! i = Some b -> b = new_bank k i.
Proof.
  rewrite list_lookup_fmap. destruct (seq 0 _ !! i) as [n|] eqn:E; [|done].
  apply lookup_seq in E as [-> _]. by intros [= <-].
Qed.

Lemma open_banks_none l : Forall (fun b => is_closed b = true) l -> open_banks l = O.
Proof.
  induction 1 as [|b l Hb _ IH]; [done|]. unfold open_banks. by rewrite filter_cons, decide_False by congruence.
Qed.

Lemma new_array_ok i : array_ok c k (array (new_rank c k i)).
Proof.
  split; cbn.
  - rewrite length_fmap, length_seq. lia.
  - rewrite length_fmap, length_seq. lia.
  - change (0 = Z.of_nat (open_banks (new_bank k <$> seq 0 (Z.to_nat (banksPerRank c))))).
    rewrite open_banks_none; [done|]. apply Forall_forall. intros b Hb. apply list_elem_of_lookup in Hb as [j Hb%lookup_new_bank]. by subst.
  - intros j b ->%lookup_new_bank. split; try done; try set_solver.
  - set_solver.
  - unfold window_of. cbn. by rewrite take_ge by (rewrite length_replicate; lia).
  - intros x Hx Hne. exfalso. apply Hne. apply last_Some_elem_of in Hx. by apply elem_of_replicate in Hx as [-> _].
  - apply protocol_nil.
  - intros j a b Ha. done.
Qed.

Ltac empty_case :=
  solve [intros; repeat match goal with H : _ \/ _ |- _ => destruct H end;
    first [discriminate | match goal with H : _ ∈ _ |- _ => by inversion H end]].

Lemma start_ok t0 :
  0 <= t0 -> 0 <= ranksPerChannel c ->
  exists s, startup k t0 (new c k) = Ok s /\ world_ok (mkWorld t0 (mkCtrl s [] None)).
Proof.
  intros Ht Hr. pose proof (rf_refi k Hf). pose proof (ok_rp k Hk).
  assert (forall r, r ∈ ranks (new c k) -> exists i, r = new_rank c k i) as Hnew
    by (intros r (i & -> & _)%list_elem_of_fmap; eauto).
  eexists. split; [apply startup_ok; [done|]; by intros r (i & ->)%Hnew|].
  assert (forall j r, (started t0 <$> ranks (new c k)) !! j = Some r -> exists i, r = started t0 (new_rank c k i)) as Hst.
  { intros j r Hj. apply list_lookup_fmap_Some in Hj as (o & -> & Ho).
    destruct (Hnew o) as [i ->]; [by eapply list_elem_of_lookup_2|]. eauto. }
  split; cbn [ctrl bus clock respQueue respondAt]; try done; [split; cbn [ranks bursts]; try empty_case| |empty_case|constructor].
  - cbn. rewrite !length_fmap, length_seq. lia.
  - intros j r (i & ->)%Hst. apply new_array_ok.
  - constructor.
  - intros j r (i & ->)%Hst. change (inv c k t0 [] (array (new_rank c k i)) (with_tick t0 (machine (new_rank c k i)))
      None None None (Some (t0 + tREFI k - tRP k)) None None).
    split; try done; try empty_case.
    + apply new_array_ok.
    + repeat split; try done. apply soon_le. lia.
    + cbn. lia.
    + unfold state_ok, awake. cbn. split; [by left|]. eauto.
    + intros w [= <-]. lia.
    + exists []. split; [done|]. split; [done|]. split; [constructor|]. split; intros x; [|intros y]; by intros ?%not_elem_of_nil.
Qed.

(** An event that is due can fire: the precedence of events blocks none. *)
Lemma never_blocked w j r e :
  world_ok w -> ranks (bus (ctrl w)) !! j = Some r -> event_at r e = Some (clock w) ->
  exists j e, forall m, legal (Fire j e m) w.
Proof.
  intros Hw Hj He.
  destruct (decide (Exists (fun r => event_at r Power <> None) (ranks (bus (ctrl w))))) as [Hx|Hx].
  { apply Exists_exists in Hx as (r1 & Hr1 & Hp). apply list_elem_of_lookup in Hr1 as [j1 Hj1].
    destruct (event_at r1 Power) as [u|] eqn:Eu; [|done].
    pose proof (in_power _ _ _ _ _ _ _ _ _ _ _ _ (wo_rank _ Hw j1 r1 Hj1) u Eu) as ->.
    exists j1, Power. intros m. exists r1. done. }
  assert (quiet (ctrl w)) as Hq.
  { intros j1 r1 Hj1. destruct (event_at r1 Power) eqn:Eu; [|done]. exfalso. apply Hx, Exists_exists.
    exists r1. rewrite Eu. split; [by eapply list_elem_of_lookup_2|done]. }
  destruct (decide (Exists (fun r => refreshState (machine r) = REF_PD_EXIT) (ranks (bus (ctrl w))))) as [Hd|Hd].
  - apply Exists_exists in Hd as (r1 & Hr1 & Hs). apply list_elem_of_lookup in Hr1 as [j1 Hj1].
    pose proof (in_state _ _ _ _ _ _ _ _ _ _ _ _ (wo_rank _ Hw j1 r1 Hj1)) as Hst. unfold state_ok in Hst.
    rewrite Hs, (Hq j1 r1 Hj1) in Hst. destruct Hst as [_ Hrf].
    exists j1, Refresh. intros m. exists r1. repeat (split; [done|]). done.
  - exists j, e. intros m. exists r. split; [done|]. split; [done|].
    intros Hne. split; [done|]. intros _ Hs. apply Hd, Exists_exists. exists r.
    split; [by eapply list_elem_of_lookup_2|done].
Qed.


(** ** Runs that are computed *)

Definition all_events : list Ev := [WriteDone; Activate; Precharge; Refresh; Power; WakeUp].

Definition quietb (x : Ctrl) : bool :=
  forallb (fun r => bool_decide (event_at r Power = None)) (ranks (bus x)).

Definition not_before (t : Z) (o : option Z) : bool := match o with Some u => t <=? u | None => true end.

Definition packet_okb (p : DRAMPacket) : bool :=
  (0 <=? rank p) && (rank p <? ranksPerChannel c) && (0 <=? bank p) && (bank p <? banksPerRank c) &&
  (0 <=? row p) && (row p <? NO_ROW) && (bankId p =? banksPerRank c * rank p + bank p).

Definition legalb (o : op) (w : World) : bool :=
  let now := clock w in
  let x := ctrl w in
  match o with
  | Advance t => (now <=? t) && not_before t (respondAt x) &&
      forallb (fun r => forallb (fun e => not_before t (event_at r e)) all_events) (ranks (bus x))
  | Fire j e m =>
      match ranks (bus x) !! j with
      | None => false
      | Some r => bool_decide (event_at r e = Some now) &&
          (bool_decide (e = Power) || quietb x &&
             (bool_decide (e = Refresh) || negb (bool_decide (refreshState (machine r) = REF_PD_EXIT))))
      end
  | NextReq m None => quietb x
  | NextReq m (Some (p, _, _)) => quietb x && (0 <? now) && packet_okb p && (size p <=? burstSize c) &&
      (negb (read p) || (length (respQueue x) <? 250)%nat) &&
      match ranks (bus x) !! Z.to_nat (rank p) with Some r => inRefIdleState r | None => true end
  | Respond m => quietb x && bool_decide (respondAt x = Some now)
  | Enqueue j rd wr => bool_decide (is_Some (ranks (bus x) !! j))
  end.

Lemma quietb_true x : quietb x = true -> quiet x.
Proof.
  unfold quietb. rewrite forallb_forall. intros H j r Hj.
  specialize (H r ltac:(apply list_elem_of_In; by eapply list_elem_of_lookup_2)).
  by apply bool_decide_eq_true_1 in H.
Qed.

Lemma legalb_true o w : legalb o w = true -> legal o w.
Proof.
  destruct o as [t|j e m|m [[[p pos] qs]|]|m|j rd wr]; cbn [legalb legal]; rewrite ?andb_true_iff.
  - intros [[H1 H2] H3]. split; [lia|]. split.
    + intros u Hu. rewrite Hu in H2. cbn in H2. lia.
    + rewrite forallb_forall in H3. intros j r e u Hj He.
      specialize (H3 r ltac:(apply list_elem_of_In; by eapply list_elem_of_lookup_2)).
      rewrite forallb_forall in H3. specialize (H3 e ltac:(destruct e; cbn; tauto)). rewrite He in H3. cbn in H3. lia.
  - destruct (ranks (bus (ctrl w)) !! j) as [r|]; [|done]. rewrite !andb_true_iff. intros [H1 H2]. exists r.
    apply bool_decide_eq_true_1 in H1. split; [done|]. split; [done|].
    intros Hne. rewrite (bool_decide_eq_false_2 (e = Power)) in H2 by done. cbn in H2.
    apply andb_true_iff in H2 as [Hq H2]. split; [by apply quietb_true|]. intros Hnr Hs.
    rewrite (bool_decide_eq_false_2 (e = Refresh)), bool_decide_eq_true_2 in H2 by done. done.
  - intros [[[[[H1 H2] H3] H4] H5] H6]. split; [by apply quietb_true|]. split; [lia|].
    split; [unfold packet_okb in H3; unfold packet_ok; lia|]. split; [lia|]. split.
    + intros Hr. rewrite Hr in H5. cbn in H5. by apply Nat.ltb_lt.
    + intros r Hr. by rewrite Hr in H6.
  - apply quietb_true.
  - intros [H1 H2]. split; [by apply quietb_true|]. by apply bool_decide_eq_true_1 in H2.
  - apply bool_decide_eq_true_1.
Qed.

Definition run (os : list op) (w : World) : res World :=
  for_each os (fun o w => assert_that (legalb o w) ;; run_op o w) w.

Lemma run_reach os w0 w : run os w0 = Ok w -> reach w0 w.
Proof.
  intros H. apply (for_each_inv os _ (reach w0) w0 w) in H; [done| |apply reach_start].
  intros o w1 w2 _ Hr E. destruct (legalb o w1) eqn:El; [|done]. cbn in E.
  eapply reach_step; [done|by apply legalb_true|done].
Qed.


(** ** The fields of a rank *)

Lemma window_length a : array_ok c k a -> length (actTicks a) = activationLimit k.
Proof.
  intros Ha. rewrite (ar_ticks _ _ _ Ha). unfold window_of.
  rewrite length_take, length_app, length_replicate. lia.
Qed.

Lemma active_range a : array_ok c k a -> 0 <= numBanksActive a <= banksPerRank c.
Proof.
  intros Ha. rewrite (ar_active _ _ _ Ha), <- (ar_banks _ _ _ Ha). unfold open_banks.
  pose proof (length_filter (fun b => is_closed b = false) (banks a)). lia.
Qed.

Lemma bank_typed a b : array_ok c k a -> b ∈ banks a -> 0 <= openRow b <= NO_ROW /\ 0 <= bankgr b < 256.
Proof.
  intros Ha [i Hi]%list_elem_of_lookup. pose proof (ar_bank _ _ _ Ha i b Hi) as Hb.
  split; [apply Hb|]. rewrite (bk_group _ _ _ _ Hb). unfold group_of, bankGroupArch.
  pose proof (lookup_lt_Some _ _ _ Hi). pose proof (ar_count _ _ _ Ha).
  destruct (0 <? bankGroupsPerRank k) eqn:E; [|lia].
  pose proof (Z.mod_pos_bound (Z.of_nat i) (bankGroupsPerRank k)). pose proof (Z.mod_le (Z.of_nat i) (bankGroupsPerRank k)). lia.
Qed.

(** ** The promises of the device *)

(** C10: where ranks do not power down, for timings with [timing_ok]
    and [refresh_ok] and for every sequence of requests (fewer than 250 reads
    in flight), data returns and rank events that the event queue allows from the
    start, every step that may happen succeeds but one: a refresh event that
    comes too late.  It stops the simulator with the fatal error when the refresh
    would end after the next is due, and fails an assertion at its end when the
    event of the next would be in the past.  An event that is due is
    never blocked.  Throughout, the commands of each rank keep the
    protocol of the device: a bank is activated when it is closed, read, written
    and precharged when it is open, refreshed when all banks are closed, each
    command waits for the timing of those before it (tRCD, tRAS, tRP, tRTP,
    tWR, tRRD, tRFC), and at most [activationLimit] activates fall in a window of
    tXAW.  The column commands of all ranks keep the distances of the data bus.
    The open rows and their number agree with the commands. *)
Theorem dram_protocol t0 :
  0 <= t0 -> 0 <= ranksPerChannel c ->
  exists s, startup k t0 (new c k) = Ok s /\
    forall w, reach (mkWorld t0 (mkCtrl s [] None)) w ->
      (forall o, legal o w ->
         match stops o w with
         | Some f => run_op o w = Fail f
         | None => exists w', run_op o w = Ok w'
         end) /\
      ((exists j r e, ranks (bus (ctrl w)) !! j = Some r /\ event_at r e = Some (clock w)) ->
       exists j e, forall m, legal (Fire j e m) w) /\
      (forall j r, ranks (bus (ctrl w)) !! j = Some r ->
         protocol k (group_of k) (issued (array r)) /\ windowed k (issued (array r)) /\
         numBanksActive (array r) = Z.of_nat (open_banks (banks (array r))) /\
         forall i b, banks (array r) !! i = Some b ->
           is_open (Z.of_nat i) (issued (array r)) = negb (is_closed b)) /\
      ForallOrdPairs (spaced k) (bursts (bus (ctrl w))).
Proof.
  intros Ht Hr. destruct (start_ok t0 Ht Hr) as (s & E & H0). exists s. split; [done|].
  intros w Hw. apply reach_ok in Hw; [|done]. split; [|split; [|split]].
  - intros o Hl. pose proof (dram_step_ok o w Hw Hl) as H. destruct (stops o w); [done|].
    destruct H as (w' & ? & _). eauto.
  - intros (j & r & e & Hj & He). by eapply never_blocked.
  - intros j r Hj. pose proof (in_array _ _ _ _ _ _ _ _ _ _ _ _ (wo_rank _ Hw j r Hj)) as Ha.
    split; [apply Ha|]. split; [apply Ha|]. split; [apply Ha|]. intros i b Hb. apply (ar_bank _ _ _ Ha i b Hb).
  - apply (wo_bus _ Hw).
Qed.

(** C20: what the power model is told is what the device did.  At any
    moment of such a run, the commands of a rank that were given to DRAMPower and
    those that still wait to be given are together exactly the commands the rank
    issued, each once; those given are in the order of their times, and none that
    waits is older than one that was given.  Each is given in cycles of the device's
    clock. *)
Theorem power_trace t0 s w j r :
  0 <= t0 -> 0 <= ranksPerChannel c -> startup k t0 (new c k) = Ok s ->
  reach (mkWorld t0 (mkCtrl s [] None)) w -> ranks (bus (ctrl w)) !! j = Some r ->
  exists given, powerlib (array r) = to_powerlib k <$> given /\
    given ++ cmdList (array r) ≡ₚ issued (array r) /\
    StronglySorted (fun x y => timeStamp x <= timeStamp y) given /\
    forall x y, x ∈ given -> y ∈ cmdList (array r) -> timeStamp x <= timeStamp y.
Proof.
  intros Ht Hr E Hw Hj. destruct (start_ok t0 Ht Hr) as (s' & E' & H0).
  rewrite E in E'. injection E' as <-. apply reach_ok in Hw; [|done].
  destruct (in_trace _ _ _ _ _ _ _ _ _ _ _ _ (wo_rank _ Hw j r Hj)) as (g & ? & ? & ? & _ & ?). eauto.
Qed.

(** C21: the fields of the ranks keep their types and counts.  At any
    moment of such a run a rank has its banks and its window of activates; the
    number of active banks is at most the number of banks, rows and bank groups
    fit their fields, and banks in commands fit in eight bits.  The counter of
    outstanding events, which has eight bits and wraps, is the number of reads in
    flight plus the pending write and precharge events and the refresh.  The data of
    reads returns in order, and the response event is at the time of the oldest. *)
Theorem dram_typed t0 s w :
  0 <= t0 -> 0 <= ranksPerChannel c -> startup k t0 (new c k) = Ok s ->
  reach (mkWorld t0 (mkCtrl s [] None)) w ->
  (forall j r, ranks (bus (ctrl w)) !! j = Some r ->
     let a := array r in
     Z.of_nat (length (banks a)) = banksPerRank c /\ length (actTicks a) = activationLimit k /\
     0 <= numBanksActive a <= banksPerRank c /\
     (forall b, b ∈ banks a -> 0 <= openRow b <= NO_ROW /\ 0 <= bankgr b < 256) /\
     (forall x, x ∈ issued a -> 0 <= cbank x < 256) /\
     outstandingEvents (machine r) = Z.of_nat (length (reads_of j (respQueue (ctrl w)))) +
       flag (event_at r WriteDone) + flag (event_at r Precharge) + refreshing (machine r) /\
     0 <= outstandingEvents (machine r) < 256) /\
  StronglySorted (fun x y => x.2 <= y.2) (respQueue (ctrl w)) /\
  respondAt (ctrl w) = snd <$> head (respQueue (ctrl w)).
Proof.
  intros Ht Hr E Hw. destruct (start_ok t0 Ht Hr) as (s' & E' & H0).
  rewrite E in E'. injection E' as <-. apply reach_ok in Hw; [|done].
  split; [|split; apply Hw]. intros j r Hj. pose proof (wo_rank _ Hw j r Hj) as H.
  pose proof (in_array _ _ _ _ _ _ _ _ _ _ _ _ H) as Ha. cbn zeta.
  split; [apply Ha|]. split; [by apply window_length|]. split; [by apply active_range|].
  split; [by intros b Hb; eapply bank_typed|]. split.
  { intros x Hx. pose proof (ar_cmds _ _ _ Ha x Hx). pose proof Hbk. lia. }
  pose proof (in_count _ _ _ _ _ _ _ _ _ _ _ _ H) as Hc. split; [done|]. rewrite Hc.
  pose proof (in_room _ _ _ _ _ _ _ _ _ _ _ _ H). unfold flag, refreshing.
  destruct (event_at r WriteDone), (event_at r Precharge); case_bool_decide; lia.
Qed.

End Run.

(** ** Witnesses *)

(** Commands sorted by insertion. *)
Fixpoint insert_cmd (x : Command) (l : list Command) : list Command :=
  match l with
  | [] => [x]
  | y :: l' => if timeStamp x <? timeStamp y then x :: l else y :: insert_cmd x l'
  end.
Definition sort_cmds (l : list Command) : list Command := foldl (fun l x => insert_cmd x l) [] l.

Lemma insert_cmd_ok x l :
  StronglySorted (fun x y => timeStamp x <= timeStamp y) l ->
  insert_cmd x l ≡ₚ x :: l /\ StronglySorted (fun x y => timeStamp x <= timeStamp y) (insert_cmd x l).
Proof.
  induction 1 as [|y l H IH Hy]; cbn; [split; [done|repeat constructor]|].
  destruct (timeStamp x <? timeStamp y) eqn:E; [split; [done|]|].
  - constructor; [by constructor|]. constructor; [lia|]. eapply Forall_impl; [exact Hy|]. cbn. lia.
  - destruct IH as [P S]. split; [rewrite P; constructor|]. constructor; [done|]. rewrite P.
    constructor; [lia|done].
Qed.

Lemma sort_cmds_ok l :
  sort_cmds l ≡ₚ l /\ StronglySorted (fun x y => timeStamp x <= timeStamp y) (sort_cmds l).
Proof.
  unfold sort_cmds. assert (forall m, StronglySorted (fun x y => timeStamp x <= timeStamp y) m ->
    foldl (fun l x => insert_cmd x l) m l ≡ₚ m ++ l /\
    StronglySorted (fun x y => timeStamp x <= timeStamp y) (foldl (fun l x => insert_cmd x l) m l)) as H.
  { induction l as [|x l IH]; intros m Hm; cbn; [by rewrite app_nil_r|].
    destruct (insert_cmd_ok x m Hm) as [P S]. destruct (IH _ S) as [P' S']. split; [|done].
    rewrite P', P. cbn. apply Permutation_middle. }
  apply (H []). constructor.
Qed.

(** A device of one rank with two banks. *)
Definition small_config : config := mkConfig 64 16 1 1 2 1 64 RoRaBaCoCh 32 64 54 32 16 10 10 1.
Definition small_timing : timing :=
  mkTiming 1 2 2 3 5 5 14 14 14 32 15 8 35 400 3 5 21 6 40 5 4 2 frfcfs open_adaptive 16 false 0.
Definition small_packet (rd : bool) (bk rw : Z) : DRAMPacket :=
  mkDRAMPacket (mkReq 0 (Packet.mk (negb rd) rd (negb rd) true false false 64 64 0 None (Some 0) None None
    0 0 false false false false false false 0) 1 0) rd 0 bk rw bk 0 64 None.
Definition small_memory : Memory := mkMemory READ 0 false false.



(** Two reads, a write to another row, a read just before the refresh is due, and
    the refresh. *)
Definition small_access (rd : bool) (bk rw : Z) : op :=
  NextReq small_memory (Some (small_packet rd bk rw, (O, O), [])).
Definition fire (e : Ev) : op := Fire 0 e small_memory.
Definition small_ops : list op :=
  [Advance 10; small_access true 0 5; small_access true 1 5; fire Activate; fire Power;
   Advance 45; Respond small_memory; Advance 48; Respond small_memory;
   Advance 60; small_access false 0 7; Advance 74; fire Activate; fire Precharge;
   Advance 105; fire WriteDone; Advance 380; small_access true 1 9; Advance 386; fire Refresh;
   Advance 394; fire Activate; Advance 425; Respond small_memory;
   Advance 440; fire Precharge; fire Power; fire Refresh; Advance 475; fire Refresh; fire Power; Advance 480].

Definition commands_of (w : World) : list Command :=
  match ranks (bus (ctrl w)) !! O with Some r => issued (array r) | None => [] end.

Lemma dram_protocol_witness :
  exists s w, startup small_timing 0 (new small_config small_timing) = Ok s /\
    run small_config small_timing sort_cmds small_ops (mkWorld 0 (mkCtrl s [] None)) = Ok w /\
    commands_of w =
      [mkCommand ACT 0 10; mkCommand RD 0 28; mkCommand ACT 1 13; mkCommand RD 1 31; mkCommand PRE 0 60;
       mkCommand ACT 0 74; mkCommand WR 0 88; mkCommand PRE 1 380; mkCommand ACT 1 394; mkCommand RD 1 408;
       mkCommand PREA 0 426; mkCommand REF 0 440] /\
    protocol small_timing (group_of small_timing) (commands_of w) /\
    ForallOrdPairs (spaced small_timing) (bursts (bus (ctrl w))).
Proof.
  assert (timing_ok small_timing) as Hk by (split; vm_compute; discriminate || reflexivity).
  assert (refresh_ok small_timing) as Hf by (split; vm_compute; discriminate || reflexivity).
  assert (0 < banksPerRank small_config < 256) as Hb by (split; vm_compute; reflexivity).
  destruct (dram_protocol small_config small_timing sort_cmds Hk Hf sort_cmds_ok eq_refl Hb 0 ltac:(vm_compute; discriminate) ltac:(vm_compute; discriminate))
    as (s & Es & H).
  assert (exists w, run small_config small_timing sort_cmds small_ops (mkWorld 0 (mkCtrl s [] None)) = Ok w /\
    exists r, ranks (bus (ctrl w)) !! O = Some r /\ issued (array r) =
      [mkCommand ACT 0 10; mkCommand RD 0 28; mkCommand ACT 1 13; mkCommand RD 1 31; mkCommand PRE 0 60;
       mkCommand ACT 0 74; mkCommand WR 0 88; mkCommand PRE 1 380; mkCommand ACT 1 394; mkCommand RD 1 408;
       mkCommand PREA 0 426; mkCommand REF 0 440]) as (w & Ew & r & Er & Ei).
  { injection Es as <-. eexists. split; [vm_compute; reflexivity|]. eexists. split; vm_compute; reflexivity. }
  destruct (H w (run_reach _ _ _ Hb small_ops _ w Ew)) as (_ & _ & Hr & Hs).
  exists s, w. split; [done|]. split; [done|]. unfold commands_of. rewrite Er. split; [done|].
  split; [apply (Hr _ _ Er)|done].
Defined.

Lemma power_trace_witness :
  exists s w r given, startup small_timing 0 (new small_config small_timing) = Ok s /\
    run small_config small_timing sort_cmds small_ops (mkWorld 0 (mkCtrl s [] None)) = Ok w /\
    ranks (bus (ctrl w)) !! O = Some r /\
    powerlib (array r) =
      [(ACT, 0, 10); (ACT, 1, 13); (RD, 0, 28); (RD, 1, 31); (PRE, 0, 60); (ACT, 0, 74); (WR, 0, 88);
       (PRE, 1, 380); (ACT, 1, 394); (RD, 1, 408); (PREA, 0, 426); (REF, 0, 440)] /\
    powerlib (array r) = to_powerlib small_timing <$> given /\ given ++ cmdList (array r) ≡ₚ issued (array r).
Proof.
  assert (timing_ok small_timing) as Hk by (split; vm_compute; discriminate || reflexivity).
  assert (refresh_ok small_timing) as Hf by (split; vm_compute; discriminate || reflexivity).
  assert (0 < banksPerRank small_config < 256) as Hb by (split; vm_compute; reflexivity).
  assert (exists s w r, startup small_timing 0 (new small_config small_timing) = Ok s /\
    run small_config small_timing sort_cmds small_ops (mkWorld 0 (mkCtrl s [] None)) = Ok w /\
    ranks (bus (ctrl w)) !! O = Some r /\ powerlib (array r) =
      [(ACT, 0, 10); (ACT, 1, 13); (RD, 0, 28); (RD, 1, 31); (PRE, 0, 60); (ACT, 0, 74); (WR, 0, 88);
       (PRE, 1, 380); (ACT, 1, 394); (RD, 1, 408); (PREA, 0, 426); (REF, 0, 440)])
    as (s & w & r & Es & Ew & Er & Ep).
  { eexists _, _, _. split; [reflexivity|]. split; [vm_compute; reflexivity|].
    split; [reflexivity|vm_compute; reflexivity]. }
  destruct (power_trace small_config small_timing sort_cmds Hk Hf sort_cmds_ok eq_refl Hb 0 s w 0%nat r
    ltac:(vm_compute; discriminate) ltac:(vm_compute; discriminate) Es (run_reach _ _ _ Hb small_ops _ w Ew) Er)
    as (given & Hg & Hp & _).
  by exists s, w, r, given.
Defined.

(** Two reads are in flight. *)
Lemma dram_typed_witness :
  exists s w r, startup small_timing 0 (new small_config small_timing) = Ok s /\
    run small_config small_timing sort_cmds (take 5 small_ops) (mkWorld 0 (mkCtrl s [] None)) = Ok w /\
    ranks (bus (ctrl w)) !! O = Some r /\ outstandingEvents (machine r) = 2 /\
    outstandingEvents (machine r) = Z.of_nat (length (reads_of 0 (respQueue (ctrl w)))) +
      flag (event_at r WriteDone) + flag (event_at r Precharge) + refreshing (machine r).
Proof.
  assert (timing_ok small_timing) as Hk by (split; vm_compute; discriminate || reflexivity).
  assert (refresh_ok small_timing) as Hf by (split; vm_compute; discriminate || reflexivity).
  assert (0 < banksPerRank small_config < 256) as Hb by (split; vm_compute; reflexivity).
  assert (exists s w r, startup small_timing 0 (new small_config small_timing) = Ok s /\
    run small_config small_timing sort_cmds (take 5 small_ops) (mkWorld 0 (mkCtrl s [] None)) = Ok w /\
    ranks (bus (ctrl w)) !! O = Some r /\ outstandingEvents (machine r) = 2) as (s & w & r & Es & Ew & Er & Eo).
  { eexists _, _, _. split; [reflexivity|]. split; [vm_compute; reflexivity|].
    split; [reflexivity|vm_compute; reflexivity]. }
  destruct (dram_typed small_config small_timing sort_cmds Hk Hf sort_cmds_ok eq_refl Hb 0 s w
    ltac:(vm_compute; discriminate) ltac:(vm_compute; discriminate) Es (run_reach _ _ _ Hb (take 5 small_ops) _ w Ew))
    as (H & _).
  destruct (H _ _ Er) as (_ & _ & _ & _ & _ & Ho & _). by exists s, w, r.
Defined.

(** A device whose data returns later than its row closes: with a closed-page policy
    the refresh may come between the two, and the assertion that a precharge is
    pending ([processRefreshEvent], state [REF_PRE]) fails. *)
Definition slow_timing : timing :=
  mkTiming 1 2 2 3 5 5 14 30 14 32 15 8 35 72 3 5 21 6 40 5 4 2 frfcfs close 16 false 0.
Definition slow_ops : list op :=
  [Advance 10; small_access true 0 5; fire Activate; fire Power; Advance 56; fire Precharge; fire Power; Advance 58].

Lemma late_data_stops_refresh :
  ~ refresh_ok slow_timing /\
  exists s w, startup slow_timing 0 (new small_config slow_timing) = Ok s /\
    run small_config slow_timing sort_cmds slow_ops (mkWorld 0 (mkCtrl s [] None)) = Ok w /\
    run_op small_config slow_timing sort_cmds (fire Refresh) w = Fail AssertFailure.
Proof.
  split; [intros H; pose proof (rf_data _ H); vm_compute in *; done|].
  eexists _, _. split; [reflexivity|]. split; [vm_compute; reflexivity|]. vm_compute. reflexivity.
Qed.

(** A rank whose next-request event waits for longer than a refresh interval: the
    refresh that drains then comes too late. *)
Definition busy_memory : Memory := mkMemory READ 0 true false.
Definition late_ops : list op :=
  [Advance 386; Fire 0 Refresh busy_memory; Advance 800; NextReq small_memory None; fire Refresh; fire Power].

Lemma late_refresh_stops :
  exists s w, startup small_timing 0 (new small_config small_timing) = Ok s /\
    run small_config small_timing sort_cmds late_ops (mkWorld 0 (mkCtrl s [] None)) = Ok w /\
    legalb small_config (fire Refresh) w = true /\ stops small_timing (fire Refresh) w = Some Panic.
Proof.
  eexists _, _. split; [reflexivity|]. split; [vm_compute; reflexivity|]. split; vm_compute; reflexivity.
Qed.

End DramRun.
