(* ===== verification/DramSched.v ===== *)
(** * The packet schedulers of the memory controller

    [chooseNext] and [chooseNextFRFCFS] ([mem/dram_ctrl.cc], modelled in
    [DramRank]) against a reference: which packet of a queue is served next, in
    terms of the packets alone.  The masks of [minBankPrep] are shown to hold the
    banks that can be opened first. *)

From S2P Require Import Prelude Common PageTable Clock DramQueues DramRank DramTiming.

Module DramSched.
Import DramQueues DramRank DramTiming.

(** ** The reference *)

(** The first position of an indexed list whose element satisfies [f]. *)
Fixpoint first {A} (f : A -> bool) (l : list (nat * A)) : option nat :=
  match l with
  | [] => None
  | (i, x) :: l' => if f x then Some i else first f l'
  end.

Definition orelse {A} (o o' : option A) : option A := match o with Some _ => o | None => o' end.

Section Sched.
Context (c : config) (k : timing) (now : Z) (bus : BusState) (queue : list DRAMPacket) (min_col_at : Z) (s : t).

Definition available (p : DRAMPacket) : bool :=
  match ranks s !! Z.to_nat (rank p) with Some r => inRefIdleState r | None => false end.
Definition bank_of (p : DRAMPacket) : option Bank :=
  ranks s !! Z.to_nat (rank p) ≫= fun r => banks (array r) !! Z.to_nat (bank p).
Definition has_bank (f : Bank -> bool) (p : DRAMPacket) : bool :=
  match bank_of p with Some b => f b | None => false end.

(** When a bank can be activated, and when it can then be accessed. *)
Definition act_at (b : Bank) : Z :=
  if openRow b =? NO_ROW then Z.max (actAllowedAt b) now else Z.max (preAllowedAt b) now + tRP k.
Definition col_at (b : Bank) : Z :=
  Z.max (match bus with READ => rdAllowedAt b | WRITE => wrAllowedAt b end) (act_at b + tRCD k).
Definition opens_in_time (b : Bank) : bool := col_at b <=? min_col_at.
Definition hidden_max : Z := Z.max (tick_sub min_col_at (tRCD k)) now.

(** The bank of [p] has the row of [p] open; it can take the access at once. *)
Definition row_hit (p : DRAMPacket) : bool :=
  available p && has_bank (fun b => openRow b =? row p) p.
Definition seamless_hit (p : DRAMPacket) : bool :=
  row_hit p && has_bank (fun b => (if read p then rdAllowedAt b else wrAllowedAt b) <=? min_col_at) p.

(** Of the banks that packets of available ranks wait for, the bank of [p] is
    among the first: those that open without a gap on the bus, and if there is none
    those that can be activated first. *)
Definition waits_for (f : Bank -> bool) (q : DRAMPacket) : bool := available q && has_bank f q.
Definition earliest_bank (b : Bank) : bool :=
  if existsb (waits_for opens_in_time) queue then opens_in_time b
  else forallb (fun q => negb (waits_for (fun o => act_at o <? act_at b) q)) queue.

(** A packet whose row must be opened first, in one of those banks. *)
Definition earliest_miss (p : DRAMPacket) : bool :=
  available p && negb (row_hit p) && has_bank earliest_bank p.

(** Some bank can be activated behind the transfers under way. *)
Definition hidden : bool := existsb (waits_for (fun b => act_at b <=? hidden_max)) queue.

(** First the oldest seamless row hit.  Then the oldest packet that must open its row
    in one of the earliest banks and the oldest row hit: in this order if some bank
    can be activated behind the transfers, in the other order if none can. *)
Definition frfcfs_ref : option nat :=
  let l := imap pair queue in
  orelse (first seamless_hit l)
    (if hidden then orelse (first earliest_miss l) (first row_hit l)
     else orelse (first row_hit l) (first earliest_miss l)).

(** ** Well-formed queues *)

Record sched_ok : Prop := {
  so_ranks : length (ranks s) = Z.to_nat (ranksPerChannel c);
  so_count : 0 <= ranksPerChannel c;
  so_banks : forall i r, ranks s !! i = Some r -> length (banks (array r)) = Z.to_nat (banksPerRank c);
  so_mask : 0 < banksPerRank c <= 32;
  so_ids : ranksPerChannel c * banksPerRank c <= 65536;
  so_ticks : forall i r b, ranks s !! i = Some r -> b ∈ banks (array r) -> act_at b <= MaxTick;
  so_packets : forall p, p ∈ queue -> packet_ok c p
}.

Context (Hok : sched_ok).

(** ** The banks that packets wait for *)

Definition waiting (i j : nat) : Prop :=
  exists p, p ∈ queue /\ available p = true /\ rank p = Z.of_nat i /\ bank p = Z.of_nat j.

Definition bank_index (p : DRAMPacket) : nat := Z.to_nat (bankId p).

Lemma packet_rank p : packet_ok c p -> exists r b, ranks s !! Z.to_nat (rank p) = Some r /\
  banks (array r) !! Z.to_nat (bank p) = Some b.
Proof.
  intros (Hr & Hb & _). destruct (lookup_lt_is_Some_2 (ranks s) (Z.to_nat (rank p))) as [r Er].
  { rewrite (so_ranks Hok). lia. }
  destruct (lookup_lt_is_Some_2 (banks (array r)) (Z.to_nat (bank p))) as [b Eb].
  { rewrite (so_banks Hok _ _ Er). lia. }
  eauto.
Qed.

Lemma index_bound p :
  packet_ok c p -> (Z.to_nat (bankId p) < Z.to_nat (ranksPerChannel c * banksPerRank c))%nat.
Proof. intros (Hr & Hb & _ & ->). nia. Qed.

Lemma index_split i j i' j' n : 0 <= j < n -> 0 <= j' < n -> n * i + j = i' * n + j' -> i = i' /\ j = j'.
Proof. intros ? ? ?. assert (i = i') by nia. split; [done|]. subst. nia. Qed.

Lemma got_waiting_loop l w0 :
  (forall p, p ∈ l -> packet_ok c p) -> length w0 = Z.to_nat (ranksPerChannel c * banksPerRank c) ->
  exists w, for_each l (fun p w => r ← rankRef s p;
      if inRefIdleState r then
        _ ← deref (w !! Z.to_nat (bankId p)); Ok (<[Z.to_nat (bankId p) := true]> w)
      else Ok w) w0 = Ok w /\ length w = length w0 /\
    forall n, w !! n = Some true <-> w0 !! n = Some true \/
      exists p, p ∈ l /\ available p = true /\ Z.to_nat (bankId p) = n.
Proof.
  revert w0. induction l as [|p l IH]; intros w0 Hp Hl; cbn.
  { exists w0. split; [done|]. split; [done|]. intros n. set_solver. }
  destruct (packet_rank p) as (r & b & Er & _); [apply Hp; set_solver|].
  pose proof (index_bound p (Hp p ltac:(set_solver))) as Hi.
  assert (rankRef s p = Ok r) as -> by (unfold rankRef; by rewrite Er). cbn. assert (available p = inRefIdleState r) as Ea by (unfold available; by rewrite Er).
  destruct (inRefIdleState r).
  - destruct (lookup_lt_is_Some_2 w0 (Z.to_nat (bankId p))) as [v Hv]; [lia|]. rewrite Hv. cbn.
    destruct (IH (<[Z.to_nat (bankId p):=true]> w0)) as (w & E & Hw & H); [set_solver|by rewrite length_insert|].
    exists w. split; [done|]. rewrite length_insert in Hw. split; [done|]. intros n. rewrite H.
    destruct (decide (n = Z.to_nat (bankId p))) as [->|Hn].
    + rewrite list_lookup_insert_eq by lia. set_solver.
    + rewrite list_lookup_insert_ne by done. set_solver.
  - destruct (IH w0) as (w & E & Hw & H); [set_solver|done|]. exists w. split; [done|]. split; [done|].
    intros n. rewrite H. split; (intros [?|(q & Hq & Haq & <-)]; [by left|]).
    + right. exists q. split; [by right|done].
    + apply elem_of_cons in Hq as [->|Hq]; [congruence|]. right. eauto.
Qed.

Lemma got_waiting_ok :
  exists w, got_waiting c queue s = Ok w /\
    forall i j : nat, Z.of_nat i < ranksPerChannel c -> Z.of_nat j < banksPerRank c ->
      exists b, w !! (Z.to_nat (u16 (Z.of_nat i * banksPerRank c + Z.of_nat j))) = Some b /\
        (b = true <-> waiting i j).
Proof.
  pose proof (so_mask Hok) as Hm. pose proof (so_ids Hok) as Hids.
  destruct (got_waiting_loop queue (replicate (Z.to_nat (ranksPerChannel c * banksPerRank c)) false))
    as (w & E & Hl & Hw); [apply Hok|by rewrite length_replicate|].
  exists w. split; [done|]. intros i j Hi Hj. rewrite length_replicate in Hl.
  rewrite u16_id by nia.
  destruct (lookup_lt_is_Some_2 w (Z.to_nat (Z.of_nat i * banksPerRank c + Z.of_nat j))) as [b Hb]; [nia|].
  exists b. split; [done|]. transitivity (w !! Z.to_nat (Z.of_nat i * banksPerRank c + Z.of_nat j) = Some true).
  { rewrite Hb. naive_solver. }
  rewrite Hw, lookup_replicate. split.
  - intros [[? _]|(p & Hp & Ha & He)]; [done|]. exists p. split; [done|]. split; [done|].
    destruct (so_packets Hok p Hp) as (Hr & Hbk & _ & Eid). rewrite Eid in He.
    apply (index_split _ _ _ _ (banksPerRank c)); [lia|lia|]. nia.
  - intros (p & Hp & Ha & Er & Ebk). right. exists p. split; [done|]. split; [done|].
    destruct (so_packets Hok p Hp) as (_ & _ & _ & ->). rewrite Er, Ebk. f_equal. lia.
Qed.

(** ** The mask of the first banks *)

Definition marked (mask : list Z) (i j : nat) : bool :=
  match mask !! i with Some v => bit v (Z.of_nat j) | None => false end.

Lemma marked_reset (mask : list Z) i j : marked ((fun _ => 0) <$> mask) i j = false.
Proof. unfold marked, bit. rewrite list_lookup_fmap. destruct (mask !! i); cbn; [apply Z.testbit_0_l|done]. Qed.

Lemma marked_set i j mask i' j' :
  (i < length mask)%nat -> (j < 32)%nat -> (j' < 32)%nat ->
  marked (set_bit i j mask) i' j' = true <-> (i = i' /\ j = j') \/ marked mask i' j' = true.
Proof.
  intros Hi Hj Hj'. unfold marked, set_bit, bit. destruct (decide (i = i')) as [->|Hn].
  - destruct (lookup_lt_is_Some_2 mask i' Hi) as [v Hv].
    rewrite list_lookup_alter_eq, Hv. cbn. unfold u32. change 4294967296 with (2 ^ 32).
    rewrite Z.mod_pow2_bits_low, Z.lor_spec, orb_true_iff, Z.shiftl_spec by lia.
    destruct (decide (j = j')) as [->|Hne].
    + rewrite Z.sub_diag. naive_solver.
    + assert (Z.testbit 1 (Z.of_nat j' - Z.of_nat j) = false) as ->; [|naive_solver].
      destruct (Z.ltb_spec (Z.of_nat j' - Z.of_nat j) 0); [by apply Z.testbit_neg_r|].
      apply (Z.bits_above_log2 1); [lia|]. change (Z.log2 1) with 0. lia.
  - rewrite list_lookup_alter_ne by done. naive_solver.
Qed.

Lemma set_bit_length i j mask : length (set_bit i j mask) = length mask.
Proof. apply length_alter. Qed.

Lemma in_time_hidden b : opens_in_time b = true -> act_at b <= hidden_max.
Proof.
  unfold opens_in_time, col_at, hidden_max, tick_sub. intros H. apply Z.leb_le in H.
  pose proof (u64_range (min_col_at - tRCD k)) as Hu. unfold is_u64 in Hu. destruct (min_col_at <? tRCD k) eqn:E; lia.
Qed.

(** What [minBankPrep] knows of the banks [W] it has looked at. *)
Record prepared (W : nat -> nat -> Bank -> Prop) (st : Prep) : Prop := {
  pr_length : length (bank_mask st) = Z.to_nat (ranksPerChannel c);
  pr_seamless : found_seamless_bank st = true ->
    (exists i j b, W i j b /\ opens_in_time b = true) /\ hidden_bank_prep st = true /\
    forall i j, (j < 32)%nat -> marked (bank_mask st) i j = true <-> exists b, W i j b /\ opens_in_time b = true;
  pr_least : found_seamless_bank st = false ->
    (forall i j b, W i j b -> opens_in_time b = false /\ min_act_at st <= act_at b) /\
    (forall i j, (j < 32)%nat -> marked (bank_mask st) i j = true <-> exists b, W i j b /\ act_at b = min_act_at st) /\
    ((forall i j b, ~ W i j b) /\ min_act_at st = MaxTick /\ hidden_bank_prep st = false \/
     (exists i j b, W i j b /\ act_at b = min_act_at st) /\
       hidden_bank_prep st = (min_act_at st <=? hidden_max))
}.

Lemma prepared_ext (W W' : nat -> nat -> Bank -> Prop) st :
  (forall i j b, W i j b <-> W' i j b) -> prepared W st -> prepared W' st.
Proof.
  intros H [Hl Hs Hn]. split; [done|..].
  - setoid_rewrite <- H. done.
  - setoid_rewrite <- H. done.
Qed.

Lemma prepared_start :
  prepared (fun _ _ _ => False) (mkPrep (replicate (Z.to_nat (ranksPerChannel c)) 0) MaxTick false false).
Proof.
  split; cbn; [by rewrite length_replicate|done|]. intros _. split; [done|].
  split; [|by left; split; [naive_solver|]]. intros i j _. split; [|naive_solver]. unfold marked, bit.
  destruct (replicate _ 0 !! i) as [v|] eqn:E; [|done]. apply lookup_replicate in E as [-> _].
  by rewrite Z.testbit_0_l.
Qed.

(** A further bank. *)
Definition add_bank (W : nat -> nat -> Bank -> Prop) (i j : nat) (b : Bank) : nat -> nat -> Bank -> Prop :=
  fun x y o => W x y o \/ (x = i /\ y = j /\ o = b).

Lemma prepared_seamless W i j b st :
  prepared W st -> (i < Z.to_nat (ranksPerChannel c))%nat -> (j < 32)%nat -> opens_in_time b = true ->
  prepared (add_bank W i j b)
    (mkPrep (set_bit i j (if found_seamless_bank st then bank_mask st else (fun _ => 0) <$> bank_mask st))
       (act_at b) true true).
Proof.
  intros [Hl Hs Hn] Hi Hj Hb. split; cbn; [|intros _|done].
  { rewrite set_bit_length. destruct (found_seamless_bank st); [|rewrite length_fmap]; done. }
  split; [by exists i, j, b; split; [right|]|]. split; [done|]. intros x y Hy.
  rewrite marked_set by (destruct (found_seamless_bank st); rewrite ?length_fmap; lia). unfold add_bank.
  destruct (found_seamless_bank st).
  - destruct (Hs eq_refl) as (_ & _ & Hm). rewrite Hm by done. naive_solver.
  - rewrite marked_reset. destruct (Hn eq_refl) as (Hm & _). split; [naive_solver|].
    intros (o & [Ho|Ho] & He); [|naive_solver]. destruct (Hm _ _ _ Ho). congruence.
Qed.

Lemma prepared_least W i j b st :
  prepared W st -> (i < Z.to_nat (ranksPerChannel c))%nat -> (j < 32)%nat -> opens_in_time b = false ->
  found_seamless_bank st = false -> act_at b <= min_act_at st ->
  prepared (add_bank W i j b)
    (mkPrep (set_bit i j (if act_at b <? min_act_at st then (fun _ => 0) <$> bank_mask st else bank_mask st))
       (act_at b) false (act_at b <=? hidden_max)).
Proof.
  intros [Hl _ Hn] Hi Hj Hb Hf Hle. destruct (Hn Hf) as (Hm & Hk & _). split; cbn; [|done|intros _].
  { rewrite set_bit_length. destruct (act_at b <? min_act_at st); [rewrite length_fmap|]; done. }
  unfold add_bank. split; [|split].
  - intros x y o [Ho|(_ & _ & ->)]; [|done]. destruct (Hm _ _ _ Ho). split; [done|lia].
  - intros x y Hy. rewrite marked_set by (destruct (act_at b <? min_act_at st); rewrite ?length_fmap; lia).
    destruct (Z.ltb_spec (act_at b) (min_act_at st)) as [Hlt|Hge].
    + rewrite marked_reset. split; [naive_solver|]. intros (o & [Ho|Ho] & He); [|naive_solver].
      destruct (Hm _ _ _ Ho). lia.
    + rewrite Hk by done. split.
      * intros [[-> ->]|(o & Ho & He)]; [exists b; auto|]. exists o. split; [by left|lia].
      * intros (o & [Ho|(-> & -> & ->)] & He); [right|by left]. exists o. split; [done|lia].
  - right. split; [|done]. exists i, j, b. naive_solver.
Qed.

Lemma prepared_skip W i j b st :
  prepared W st -> opens_in_time b = false ->
  (found_seamless_bank st = false -> min_act_at st < act_at b) -> act_at b <= MaxTick ->
  prepared (add_bank W i j b) st.
Proof.
  intros [Hl Hs Hn] Hb Hlt Hx. unfold add_bank. split; [done|..].
  - intros Hf. destruct (Hs Hf) as ((x & y & o & Ho & Hi) & Hh & Hm).
    split; [exists x, y, o; naive_solver|]. split; [done|]. intros u v Hv. rewrite Hm by done. naive_solver congruence.
  - intros Hf. specialize (Hlt Hf). destruct (Hn Hf) as (Hm & Hk & Hc). split; [|split].
    + intros x y o [Ho|(_ & _ & ->)]; [by apply (Hm x y o)|]. split; [done|lia].
    + intros x y Hy. rewrite Hk by done. split; [naive_solver|].
      intros (o & [Ho|(_ & _ & ->)] & He); [eauto|lia].
    + destruct Hc as [(_ & Hmin & _)|((x & y & o & Ho & He) & Hh)]; [lia|]. right. split; [|done].
      exists x, y, o. naive_solver.
Qed.

Lemma prep_bank_ok W i j b st :
  prepared W st -> (i < Z.to_nat (ranksPerChannel c))%nat -> (j < 32)%nat -> act_at b <= MaxTick ->
  prepared (add_bank W i j b) (prep_bank k now min_col_at hidden_max bus i j b st).
Proof.
  intros Hp Hi Hj Hb. unfold prep_bank. fold (act_at b). fold (col_at b). fold (opens_in_time b).
  destruct (opens_in_time b) eqn:Eo; cbn.
  - rewrite (proj2 (Z.leb_le _ _) (in_time_hidden b Eo)), orb_true_r, andb_true_r.
    pose proof (prepared_seamless W i j b st Hp Hi Hj Eo) as H. destruct (found_seamless_bank st); exact H.
  - destruct (found_seamless_bank st) eqn:Ef; cbn; [apply prepared_skip; [done|done|congruence|done]|].
    destruct (Z.leb_spec (act_at b) (min_act_at st)); [|by apply prepared_skip].
    by apply prepared_least.
Qed.

(** The banks that packets wait for, up to bank [j] of rank [i]. *)
Definition bank_at (i j : nat) : option Bank := ranks s !! i ≫= fun r => banks (array r) !! j.
Definition seen (i j : nat) (x y : nat) (o : Bank) : Prop :=
  (x < i \/ x = i /\ y < j)%nat /\ (y < Z.to_nat (banksPerRank c))%nat /\ waiting x y /\ bank_at x y = Some o.

Lemma seen_next_rank i x y o : seen i (Z.to_nat (banksPerRank c)) x y o <-> seen (S i) 0 x y o.
Proof. unfold seen. intuition lia. Qed.

Lemma seen_next_bank i j b x y o :
  (j < Z.to_nat (banksPerRank c))%nat -> waiting i j -> bank_at i j = Some b ->
  add_bank (seen i j) i j b x y o <-> seen i (S j) x y o.
Proof.
  intros Hj Hw Hb. unfold add_bank, seen. split.
  - intros [(H1 & H2 & H3 & H4)|(-> & -> & ->)]; [|by repeat split; [lia|..]]. repeat split; [lia|done..].
  - intros (H1 & H2 & H3 & H4). destruct (decide (x = i /\ y = j)) as [[-> ->]|Hn].
    + right. rewrite Hb in H4. by injection H4 as ->.
    + left. repeat split; [lia|done..].
Qed.

Lemma seen_idle i j x y o : ~ waiting i j -> seen i j x y o <-> seen i (S j) x y o.
Proof.
  intros Hw. unfold seen. split; intros (H1 & H2 & H3 & H4); repeat split; try done; try lia.
  destruct (decide (x = i /\ y = j)) as [[-> ->]|Hn]; [done|lia].
Qed.

Lemma waiting_idle i j r : waiting i j -> ranks s !! i = Some r -> inRefIdleState r = true.
Proof.
  intros (p & _ & Ha & Er & _) Hr. unfold available in Ha.
  replace (Z.to_nat (rank p)) with i in Ha by lia. by rewrite Hr in Ha.
Qed.

Lemma prep_round (w : list bool) i j st :
  (exists b, w !! (Z.to_nat (u16 (Z.of_nat i * banksPerRank c + Z.of_nat j))) = Some b /\ (b = true <-> waiting i j)) ->
  (i < Z.to_nat (ranksPerChannel c))%nat -> (j < Z.to_nat (banksPerRank c))%nat -> prepared (seen i j) st ->
  exists st', (waiting ← deref (w !! Z.to_nat (u16 (Z.of_nat i * banksPerRank c + Z.of_nat j)));
      if waiting : bool then
        r ← deref (ranks s !! i);
        assert_that (inRefIdleState r) ;;
        b ← deref (banks (array r) !! j);
        Ok (prep_bank k now min_col_at hidden_max bus i j b st)
      else Ok st) = Ok st' /\ prepared (seen i (S j)) st'.
Proof.
  intros (v & Hv & Hw) Hi Hj Hp. rewrite Hv. cbn [deref mbind res_bind]. pose proof (so_mask Hok) as Hm.
  destruct v.
  - destruct (lookup_lt_is_Some_2 (ranks s) i) as [r Er]; [by rewrite (so_ranks Hok)|].
    destruct (lookup_lt_is_Some_2 (banks (array r)) j) as [b Eb]; [by rewrite (so_banks Hok _ _ Er)|].
    assert (waiting i j) as Hij by by apply Hw.
    rewrite Er. cbn [deref mbind res_bind]. rewrite (waiting_idle i j r Hij Er), Eb.
    eexists. split; [done|]. eapply prepared_ext.
    + intros x y o. apply seen_next_bank; [done|done|]. unfold bank_at. by rewrite Er.
    + apply prep_bank_ok; [done|done|lia|]. eapply (so_ticks Hok); [done|]. by eapply list_elem_of_lookup_2.
  - exists st. split; [done|]. eapply prepared_ext; [|exact Hp]. intros x y o. apply seen_idle.
    intros H. by apply Hw in H.
Qed.

Lemma minBankPrep_loop :
  exists st, minBankPrep c k now bus queue min_col_at s = Ok (bank_mask st, hidden_bank_prep st) /\
    prepared (seen (Z.to_nat (ranksPerChannel c)) 0) st.
Proof.
  destruct got_waiting_ok as (w & Ew & Hw). unfold minBankPrep. rewrite Ew. cbn [mbind res_bind].
  match goal with |- context [for_each (seq 0 ?n) ?body ?st0] =>
    destruct (for_each_seq (fun i st => prepared (seen i 0) st) n body st0) as (st & E & Hst) end.
  - eapply prepared_ext; [|apply prepared_start]. intros i j b. unfold seen. intuition lia.
  - intros i st Hi Hst. fold hidden_max.
    match goal with |- context [for_each (seq 0 ?n) ?body ?st0] =>
      destruct (for_each_seq (fun j st => prepared (seen i j) st) n body st0) as (st' & E & Hst') end.
    + done.
    + intros j st' Hj Hst'. apply prep_round; [apply Hw; lia|done..].
    + exists st'. split; [done|]. eapply prepared_ext; [apply seen_next_rank|done].
  - rewrite E. by exists st.
Qed.


(** ** The mask in terms of the packets *)

Definition wanted : nat -> nat -> Bank -> Prop := seen (Z.to_nat (ranksPerChannel c)) 0.

Lemma wanted_packet x y o :
  wanted x y o <-> exists p, p ∈ queue /\ available p = true /\ bank_of p = Some o /\
    rank p = Z.of_nat x /\ bank p = Z.of_nat y.
Proof.
  unfold wanted, seen, waiting, bank_at, bank_of. split.
  - intros (_ & _ & (p & Hp & Ha & Er & Eb) & Ho). exists p. rewrite Er, Eb, !Nat2Z.id. done.
  - intros (p & Hp & Ha & Ho & Er & Eb). destruct (so_packets Hok p Hp) as (Hr & Hb & _).
    rewrite Er, Eb, !Nat2Z.id in Ho. repeat split; [lia|lia| |done]. eauto.
Qed.

Lemma waits_for_true f p : waits_for f p = true <-> available p = true /\ exists o, bank_of p = Some o /\ f o = true.
Proof.
  unfold waits_for, has_bank. rewrite andb_true_iff. destruct (bank_of p); naive_solver.
Qed.

Lemma waits_wanted f : existsb (waits_for f) queue = true <-> exists x y o, wanted x y o /\ f o = true.
Proof.
  rewrite existsb_exists. setoid_rewrite waits_for_true. split.
  - intros (p & Hp%list_elem_of_In & Ha & o & Ho & Hf). destruct (so_packets Hok p Hp) as (Hr & Hb & _).
    exists (Z.to_nat (rank p)), (Z.to_nat (bank p)), o. split; [|done]. apply wanted_packet. exists p.
    repeat split; [done|done|done|lia|lia].
  - intros (x & y & o & (p & Hp & Ha & Ho & _)%wanted_packet & Hf). exists p.
    rewrite <- list_elem_of_In. eauto.
Qed.

Lemma earliest_bank_spec st x y o :
  prepared wanted st -> wanted x y o ->
  earliest_bank o = true <-> if found_seamless_bank st then opens_in_time o = true else act_at o = min_act_at st.
Proof.
  intros [_ Hs Hn] Ho. unfold earliest_bank. destruct (found_seamless_bank st).
  - destruct (Hs eq_refl) as (Hx & _). by rewrite (proj2 (waits_wanted opens_in_time) Hx).
  - destruct (Hn eq_refl) as (Hm & _ & Hc). destruct (existsb (waits_for opens_in_time) queue) eqn:E.
    { apply waits_wanted in E as (x1 & y1 & o1 & H1 & H2). destruct (Hm _ _ _ H1). congruence. }
    destruct Hc as [(Hno & _)|((x1 & y1 & o1 & H1 & He) & _)]; [by apply Hno in Ho|].
    transitivity (existsb (waits_for (fun q => act_at q <? act_at o)) queue = false).
    + rewrite forallb_forall, <- not_true_iff_false, existsb_exists. setoid_rewrite negb_true_iff.
      split; [intros H (q & Hq & Ht); specialize (H q Hq); congruence|].
      intros H q Hq. apply not_true_iff_false. eauto.
    + rewrite <- not_true_iff_false, waits_wanted. destruct (Hm _ _ _ Ho). split.
      * intros H2. destruct (Z.lt_ge_cases (act_at o1) (act_at o)); [|lia]. destruct H2. exists x1, y1, o1. split; [done|lia].
      * intros H2 (x2 & y2 & o2 & H3 & H4). destruct (Hm _ _ _ H3). lia.
Qed.

Lemma hidden_spec st : prepared wanted st -> hidden_bank_prep st = hidden.
Proof.
  intros [_ Hs Hn]. unfold hidden. symmetry. destruct (found_seamless_bank st).
  - destruct (Hs eq_refl) as ((x & y & o & Ho & Hi) & -> & _). apply waits_wanted. exists x, y, o.
    split; [done|]. by apply Z.leb_le, in_time_hidden.
  - destruct (Hn eq_refl) as (Hm & _ & [(Hno & _ & ->)|((x & y & o & Ho & He) & ->)]).
    + apply not_true_iff_false. rewrite waits_wanted. intros (x & y & o & Ho & _). by apply Hno in Ho.
    + apply eq_true_iff_eq. rewrite waits_wanted, Z.leb_le. split.
      * intros (x1 & y1 & o1 & H1 & H2). destruct (Hm _ _ _ H1). lia.
      * intros H. exists x, y, o. split; [done|lia].
Qed.

Lemma has_bank_true f p : has_bank f p = true <-> exists o, bank_of p = Some o /\ f o = true.
Proof. unfold has_bank. destruct (bank_of p); naive_solver. Qed.

Lemma earliest_exists st p :
  prepared wanted st -> p ∈ queue -> available p = true ->
  exists q, q ∈ queue /\ available q = true /\ has_bank earliest_bank q = true.
Proof.
  intros Hst Hp Ha. assert (exists x y o, wanted x y o /\ earliest_bank o = true) as (x & y & o & Hw & He).
  { destruct (found_seamless_bank st) eqn:Ef.
    - destruct (pr_seamless _ _ Hst Ef) as ((x & y & o & Ho & Hi) & _). exists x, y, o. split; [done|].
      apply (earliest_bank_spec st x y o Hst Ho). by rewrite Ef.
    - destruct (pr_least _ _ Hst Ef) as (_ & _ & [(Hno & _)|((x & y & o & Ho & Hi) & _)]).
      + destruct (packet_rank p (so_packets Hok p Hp)) as (r & o & Er & Eo).
        destruct (so_packets Hok p Hp) as (Hr & Hb & _). exfalso.
        apply (Hno (Z.to_nat (rank p)) (Z.to_nat (bank p)) o), wanted_packet. exists p. unfold bank_of. rewrite Er.
        repeat split; [done|done|done|lia|lia].
      + exists x, y, o. split; [done|]. apply (earliest_bank_spec st x y o Hst Ho). by rewrite Ef. }
  apply wanted_packet in Hw as (q & Hq & Haq & Eo & _). exists q. rewrite has_bank_true. eauto.
Qed.

Lemma minBankPrep_ok :
  exists mask, minBankPrep c k now bus queue min_col_at s = Ok (mask, hidden) /\
    (forall p, p ∈ queue -> available p = true ->
       exists v, mask !! Z.to_nat (rank p) = Some v /\ bit v (bank p) = has_bank earliest_bank p) /\
    (forall p, p ∈ queue -> available p = true ->
       exists q, q ∈ queue /\ available q = true /\ has_bank earliest_bank q = true).
Proof.
  destruct minBankPrep_loop as (st & E & Hst). fold wanted in Hst. rewrite (hidden_spec st Hst) in E.
  exists (bank_mask st). split; [done|]. pose proof (so_mask Hok) as Hb32. split.
  - intros p Hp Ha. destruct (so_packets Hok p Hp) as (Hr & Hb & _).
    destruct (lookup_lt_is_Some_2 (bank_mask st) (Z.to_nat (rank p))) as [v Hv]; [rewrite (pr_length _ _ Hst); lia|].
    exists v. split; [done|]. destruct (packet_rank p (so_packets Hok p Hp)) as (r & o & Er & Eo).
    assert (bank_of p = Some o) as Ho by (unfold bank_of; by rewrite Er).
    assert (wanted (Z.to_nat (rank p)) (Z.to_nat (bank p)) o) as Hw.
    { apply wanted_packet. exists p. repeat split; [done|done|done|lia|lia]. }
    apply eq_true_iff_eq. transitivity (marked (bank_mask st) (Z.to_nat (rank p)) (Z.to_nat (bank p)) = true).
    { unfold marked. by rewrite Hv, Z2Nat.id by lia. }
    unfold has_bank. rewrite Ho, (earliest_bank_spec st _ _ _ Hst Hw).
    assert (forall o', wanted (Z.to_nat (rank p)) (Z.to_nat (bank p)) o' -> o' = o) as Hu.
    { intros o' (_ & _ & _ & Ho'). unfold bank_at in Ho'. rewrite Er in Ho'. cbn in Ho'. congruence. }
    destruct (found_seamless_bank st) eqn:Ef.
    + destruct (pr_seamless _ _ Hst Ef) as (_ & _ & ->); [|lia].
      split; [intros (o' & H1%Hu & ?); congruence|eauto].
    + destruct (pr_least _ _ Hst Ef) as (_ & -> & _); [|lia].
      split; [intros (o' & H1%Hu & ?); congruence|eauto].
  - intros p. by apply (earliest_exists st).
Qed.

(** ** The search in the queue *)

(** What [chooseNextFRFCFS] has selected when [hit] is the first row hit and [miss]
    the first packet for an earliest bank so far. *)
Definition choice (hit miss : option nat) : option nat :=
  if hidden then orelse miss hit else orelse hit miss.

Record tracks (mask : list Z) (hit miss : option nat) (st : Pick) : Prop := {
  tr_selected : selected st = choice hit miss;
  tr_miss : found_earliest_pkt st = bool_decide (is_Some miss);
  tr_hidden : found_hidden_bank st = bool_decide (is_Some miss) && hidden;
  tr_hit : found_hidden_bank st = false -> found_prepped_pkt st = bool_decide (is_Some hit);
  tr_prep : earliest st = None \/ earliest st = Some (mask, hidden)
}.

(** The packets of a well-formed queue, through [rankRef] and [bankRef]. *)
Lemma packet_refs p :
  packet_ok c p -> exists r b, rankRef s p = Ok r /\ bankRef s p = Ok b /\
    available p = inRefIdleState r /\ bank_of p = Some b.
Proof.
  intros Hp. destruct (packet_rank p Hp) as (r & b & Er & Eb). exists r, b.
  unfold bankRef, rankRef, available, bank_of. rewrite Er. cbn. by rewrite Eb.
Qed.

Section Loop.
Context (mask : list Z).
Context (Hprep : minBankPrep c k now bus queue min_col_at s = Ok (mask, hidden)).
Context (Hmask : forall p, p ∈ queue -> available p = true ->
  exists v, mask !! Z.to_nat (rank p) = Some v /\ bit v (bank p) = has_bank earliest_bank p).

Lemma miss_round p hit miss i st :
  p ∈ queue -> available p = true -> row_hit p = false -> tracks mask hit miss st ->
  exists st', (if negb (found_earliest_pkt st) then
      e ← match earliest st with Some e => Ok e | None => minBankPrep c k now bus queue min_col_at s end;
      let '(earliest_banks, hidden_bank_prep) := e in
      mask ← deref (earliest_banks !! Z.to_nat (rank p));
      Ok (Continue
        (if bit mask (bank p) then
           mkPick (if hidden_bank_prep || negb (found_prepped_pkt st) then Some i else selected st)
             (Some e) hidden_bank_prep (found_prepped_pkt st) true
         else mkPick (selected st) (Some e) (found_hidden_bank st) (found_prepped_pkt st) false))
    else Ok (Continue st)) = Ok (Continue st') /\
    tracks mask hit (orelse miss (if earliest_miss p then Some i else None)) st'.
Proof.
  intros Hp Ha Hh [Hsel Hmi Hhid Hhit Hpr]. rewrite Hmi. unfold earliest_miss. rewrite Ha, Hh. cbn.
  destruct miss as [m|]; cbn; [by exists st; split|].
  assert (match earliest st with Some e => Ok e | None => minBankPrep c k now bus queue min_col_at s end
    = Ok (mask, hidden)) as -> by (destruct Hpr as [->| ->]; done). cbn.
  destruct (Hmask p Hp Ha) as (v & -> & Ev). cbn [deref mbind res_bind]. rewrite Ev. cbn in Hhid. specialize (Hhit Hhid).
  eexists. split; [done|]. destruct (has_bank earliest_bank p); cbn.
  - split; cbn; try done; [|by right]. rewrite Hhit, Hsel. unfold choice. by destruct hidden, hit.
  - split; cbn; try done. by right.
Qed.

Lemma hit_round hit miss i st :
  tracks mask hit miss st ->
  exists st', (if negb (found_hidden_bank st) && negb (found_prepped_pkt st) then
      Ok (Continue (mkPick (Some i) (earliest st) (found_hidden_bank st) true (found_earliest_pkt st)))
    else Ok (Continue st)) = Ok (Continue st') /\
    tracks mask (orelse hit (Some i)) (orelse miss None) st'.
Proof.
  intros [Hsel Hmi Hhid Hhit Hpr]. replace (orelse miss None) with miss by by destruct miss.
  destruct (found_hidden_bank st) eqn:Eh; cbn.
  - exists st. split; [done|]. split; try done; [|by rewrite Eh|congruence].
    rewrite Hsel. unfold choice. destruct miss as [m|]; [|done]. cbn in Hhid. rewrite <- Hhid. done.
  - rewrite (Hhit eq_refl). destruct hit as [h|]; cbn.
    + exists st. split; [done|]. split; try done; [by rewrite Eh|]. intros _. by apply Hhit.
    + eexists. split; [done|]. split; cbn; try done. unfold choice. destruct miss as [m|]; [|by destruct hidden].
      cbn in Hhid. by rewrite <- Hhid.
Qed.

Lemma frfcfs_round_ok p hit miss i st :
  p ∈ queue -> tracks mask hit miss st ->
  if seamless_hit p then frfcfs_round c k now bus queue min_col_at s i p st = Ok (Break i)
  else exists st', frfcfs_round c k now bus queue min_col_at s i p st = Ok (Continue st') /\
    tracks mask (orelse hit (if row_hit p then Some i else None))
      (orelse miss (if earliest_miss p then Some i else None)) st'.
Proof.
  intros Hp Ht. destruct (packet_refs p (so_packets Hok p Hp)) as (r & b & Er & Eb & Ea & Eo).
  unfold frfcfs_round. rewrite Er, Eb. cbn [mbind res_bind].
  assert (row_hit p = inRefIdleState r && (openRow b =? row p)) as Eh.
  { unfold row_hit, has_bank. by rewrite Ea, Eo. }
  assert (seamless_hit p = row_hit p && ((if read p then rdAllowedAt b else wrAllowedAt b) <=? min_col_at)) as ->.
  { unfold seamless_hit, has_bank. by rewrite Eo. }
  destruct (inRefIdleState r) eqn:Ei; cbn [negb andb] in *.
  - rewrite <- Eh. destruct (row_hit p) eqn:Ehit; cycle 1.
    { cbn [andb]. replace (orelse hit None) with hit by by destruct hit. by apply miss_round. }
    assert (earliest_miss p = false) as -> by (unfold earliest_miss; by rewrite Ehit, andb_false_r).
    cbn [andb]. destruct (_ <=? min_col_at); [done|]. by apply hit_round.
  - rewrite Eh. cbn. exists st. split; [done|]. unfold earliest_miss. rewrite Ea. cbn. by destruct hit, miss.
Qed.

Lemma frfcfs_loop_ok l hit miss st :
  (forall i p, (i, p) ∈ l -> p ∈ queue) ->
  tracks mask hit miss st ->
  frfcfs_loop c k now bus queue min_col_at s l st =
    Ok (orelse (first seamless_hit l) (choice (orelse hit (first row_hit l)) (orelse miss (first earliest_miss l)))).
Proof.
  revert hit miss st. induction l as [|[i p] l IH]; intros hit miss st Hl Ht; cbn.
  { rewrite (tr_selected _ _ _ _ Ht). destruct hit, miss; done. }
  assert (p ∈ queue) as Hp by (eapply (Hl i p); left).
  pose proof (frfcfs_round_ok p hit miss i st Hp Ht) as H. destruct (seamless_hit p); [by rewrite H|].
  destruct H as (st' & -> & Ht'). cbn. rewrite (IH _ _ _ (fun i p H => Hl i p (list_elem_of_further _ _ _ H)) Ht').
  do 2 f_equal. destruct hit, miss, (row_hit p), (earliest_miss p); done.
Qed.
End Loop.

Lemma first_some {A} (f : A -> bool) l i : first f l = Some i -> exists x, (i, x) ∈ l /\ f x = true.
Proof.
  induction l as [|[j x] l IH]; cbn; [done|]. destruct (f x) eqn:E.
  - intros [= <-]. exists x. split; [left|done].
  - intros H. destruct (IH H) as (y & Hy & ?). exists y. split; [by right|done].
Qed.

Lemma first_is_some {A} (f : A -> bool) l i x : (i, x) ∈ l -> f x = true -> is_Some (first f l).
Proof.
  induction l as [|[j y] l IH]; cbn; intros H Hf; [by inversion H|]. destruct (f y) eqn:E; [done|].
  apply elem_of_cons in H as [[= <- <-]|H]; [congruence|auto].
Qed.

Lemma indexed_elem (l : list DRAMPacket) i p : (i, p) ∈ imap pair l <-> l !! i = Some p.
Proof.
  rewrite list_elem_of_lookup. setoid_rewrite list_lookup_imap_Some. naive_solver.
Qed.

Lemma frfcfs_ref_available i : frfcfs_ref = Some i -> exists p, queue !! i = Some p /\ available p = true.
Proof.
  assert (forall f, first f (imap pair queue) = Some i -> (forall p, f p = true -> available p = true) ->
    exists p, queue !! i = Some p /\ available p = true) as H.
  { intros f (p & Hp%indexed_elem & Hf)%first_some Ha. eauto. }
  unfold frfcfs_ref, orelse. intros E.
  assert (first seamless_hit (imap pair queue) = Some i \/ first row_hit (imap pair queue) = Some i \/
    first earliest_miss (imap pair queue) = Some i) as [E'|[E'|E']].
  { destruct (first seamless_hit _), hidden, (first row_hit _), (first earliest_miss _); auto. }
  - eapply H; [done|]. unfold seamless_hit, row_hit. intros p. rewrite !andb_true_iff. tauto.
  - eapply H; [done|]. unfold row_hit. intros p. rewrite !andb_true_iff. tauto.
  - eapply H; [done|]. unfold earliest_miss. intros p. rewrite !andb_true_iff. tauto.
Qed.

Lemma frfcfs_ref_some p : p ∈ queue -> available p = true -> is_Some frfcfs_ref.
Proof.
  intros Hp Ha. destruct minBankPrep_ok as (mask & _ & _ & Hex). destruct (Hex p Hp Ha) as (q & Hq & Haq & He).
  apply list_elem_of_lookup in Hq as [i Hi]. apply indexed_elem in Hi.
  assert (is_Some (first row_hit (imap pair queue)) \/ is_Some (first earliest_miss (imap pair queue))) as H.
  { destruct (row_hit q) eqn:Eh; [left|right]; eapply first_is_some; try done.
    unfold earliest_miss. by rewrite Haq, Eh, He. }
  unfold frfcfs_ref, orelse.
  destruct (first seamless_hit _), hidden, (first row_hit _), (first earliest_miss _), H as [[? [=]]|[? [=]]]; done.
Qed.

Lemma chooseNextFRFCFS_ref extra :
  Z.max (nextBurstAt s + extra) now = min_col_at ->
  chooseNextFRFCFS c k now bus extra queue s = Ok frfcfs_ref.
Proof.
  intros E. unfold chooseNextFRFCFS. rewrite E. destruct minBankPrep_ok as (mask & Em & Hm & _).
  rewrite (frfcfs_loop_ok mask Em Hm _ None None); [done| |].
  - intros i p Hi%indexed_elem. by eapply list_elem_of_lookup_2.
  - split; cbn; try done; [|by left]. unfold choice. by destruct hidden.
Qed.

End Sched.

(** ** The choice of the next packet *)

(** The policy of the controller: first come first served among the packets of
    available ranks, or the reference of FR-FCFS. *)
Definition next_ref (k : timing) (now : Z) (bus : BusState) (extra_col_delay : Z) (queue : list DRAMPacket)
    (s : t) : option nat :=
  match memSchedPolicy k, queue with
  | frfcfs, _ :: _ :: _ => frfcfs_ref k now bus queue (Z.max (nextBurstAt s + extra_col_delay) now) s
  | _, _ => first (available s) (imap pair queue)
  end.

Lemma search_first s (l : list (nat * DRAMPacket)) :
  (forall i p, (i, p) ∈ l -> exists r, rankRef s p = Ok r /\ available s p = inRefIdleState r) ->
  (o ← search l (fun x => r ← rankRef s x.2; Ok (inRefIdleState r)); Ok (option_map fst o)) =
    Ok (first (available s) l).
Proof.
  induction l as [|[i p] l IH]; intros H; cbn; [done|].
  destruct (H i p) as (r & -> & ->); [left|]. cbn. destruct (inRefIdleState r); [done|].
  apply IH. intros j q Hq. apply (H j q). by right.
Qed.

Lemma first_available s queue :
  (first (available s) (imap pair queue) = None <-> forall p, p ∈ queue -> available s p = false) /\
  forall i, first (available s) (imap pair queue) = Some i -> exists p, queue !! i = Some p /\ available s p = true.
Proof.
  split; [|by intros i (p & Hp%indexed_elem & ?)%first_some; eauto]. split.
  - intros E p [i Hi]%list_elem_of_lookup. apply not_true_iff_false. intros Ha.
    apply indexed_elem in Hi. destruct (first_is_some _ _ _ _ Hi Ha) as [x ?]. congruence.
  - intros H. destruct (first _ _) as [i|] eqn:E; [|done].
    apply first_some in E as (p & Hp%indexed_elem & Ha). rewrite H in Ha; [done|]. by eapply list_elem_of_lookup_2.
Qed.

Lemma choose_next_ok c k now bus extra_col_delay queue s :
  sched_ok c k now queue s ->
  let next := next_ref k now bus extra_col_delay queue s in
  chooseNext c k now bus extra_col_delay queue s = Ok next /\
  (next = None <-> forall p, p ∈ queue -> available s p = false) /\
  forall i, next = Some i -> exists p, queue !! i = Some p /\ available s p = true.
Proof.
  intros Hok next. set (m := Z.max (nextBurstAt s + extra_col_delay) now).
  assert (forall i p, (i, p) ∈ imap pair queue -> exists r, rankRef s p = Ok r /\ available s p = inRefIdleState r) as Hr.
  { intros i p Hi%indexed_elem%list_elem_of_lookup_2.
    destruct (packet_refs c k now queue s Hok p (so_packets _ _ _ _ _ Hok p Hi)) as (r & b & ? & _ & ? & _). eauto. }
  pose proof (search_first s (imap pair queue) Hr) as Hs.
  destruct queue as [|p [|q l]].
  - assert (next = first (available s) (imap pair [])) as -> by (unfold next, next_ref; by destruct (memSchedPolicy k)).
    split; [done|apply first_available].
  - assert (next = first (available s) (imap pair [p])) as -> by (unfold next, next_ref; by destruct (memSchedPolicy k)).
    split; [|apply first_available]. destruct (Hr O p) as (r & E & Ea); [left|].
    unfold chooseNext. rewrite E. cbn. by rewrite Ea.
  - unfold next, next_ref, chooseNext. destruct (memSchedPolicy k); [split; [exact Hs|apply first_available]|].
    fold m. split; [by apply chooseNextFRFCFS_ref|]. split; [|apply frfcfs_ref_available].
    split.
    + intros E x Hx. apply not_true_iff_false. intros Ha.
      destruct (frfcfs_ref_some c k now bus (p :: q :: l) m s Hok x Hx Ha) as [y Hy]. congruence.
    + intros H. destruct (frfcfs_ref _ _ _ _ _ _) as [i|] eqn:E; [|done].
      apply frfcfs_ref_available in E as (x & Hx & Ha). rewrite H in Ha; [done|]. by eapply list_elem_of_lookup_2.
Qed.

(** C13: for a queue whose packets are for ranks and banks of the device, with at
    most 32 banks per rank, the choice of the next packet never fails.  It finds none
    exactly when every packet is for a rank that refreshes, and a packet it finds is
    for a rank that does not.  FCFS takes the oldest such packet.  FR-FCFS takes the
    oldest row hit that needs no gap on the bus; failing that, it takes, if some bank
    can be activated behind the transfers under way, the oldest packet that must open
    its row in one of the earliest banks, or else the oldest row hit; and if no bank
    can, the oldest row hit, or else the oldest such packet.  The earliest banks are,
    of those packets wait for, the ones that open without a gap on the bus or, if
    there is none, the ones that can be activated first. *)
Theorem choose_next c k now bus extra_col_delay queue s :
  sched_ok c k now queue s ->
  let next := next_ref k now bus extra_col_delay queue s in
  chooseNext c k now bus extra_col_delay queue s = Ok next /\
  (next = None <-> forall p, p ∈ queue -> available s p = false) /\
  forall i, next = Some i -> exists p, queue !! i = Some p /\ available s p = true.
Proof. apply choose_next_ok. Qed.

(** ** Witness *)

(** Two ranks of four banks; rank 1 refreshes.  Bank 0 has row 5 open but its bus
    is late, bank 1 is closed, bank 2 has row 7 open and is free. *)
Definition sched_config : config := mkConfig 64 16 1 2 4 1 64 RoRaBaCoCh 32 64 54 32 16 10 10 1.
Definition sched_timing : timing :=
  mkTiming 1 2 2 3 5 5 14 14 14 32 15 8 35 400 3 5 21 6 40 5 4 2 frfcfs open_adaptive 16 false 0.
Definition sched_rank (i : Z) (st : RefreshState) (bs : list Bank) : Rank :=
  mkRank i 0 0 (mkArray bs 2 [0; 0; 0; 0] [] [] []) (mkMachine PWR_ACT PWR_ACT PWR_IDLE st false 0 0 0 0) (fun _ => None).
Definition sched_state : t :=
  mk [sched_rank 0 REF_IDLE [mkBank 5 0 150 150 90 90 0 0; mkBank NO_ROW 1 0 0 0 104 0 0;
        mkBank 7 0 90 90 90 90 0 0; mkBank NO_ROW 1 0 0 0 300 0 0];
      sched_rank 1 REF_PRE [mkBank 5 0 0 0 0 0 0 0; mkBank NO_ROW 1 0 0 0 0 0 0;
        mkBank NO_ROW 0 0 0 0 0 0 0; mkBank NO_ROW 1 0 0 0 0 0 0]] 100 0 0 [].
Definition sched_packet (rk bk rw : Z) : DRAMPacket :=
  mkDRAMPacket (mkReq 0 (Packet.mk false true false true false false 64 64 0 None (Some 0) None None
    0 0 false false false false false false 0) 1 0) true rk bk rw (4 * rk + bk) 0 64 None.

Definition choices (queue : list DRAMPacket) : res (option nat) :=
  chooseNext sched_config sched_timing 100 READ 0 queue sched_state.

Definition sched_queue : list DRAMPacket :=
  [sched_packet 1 0 5; sched_packet 0 3 2; sched_packet 0 0 5; sched_packet 0 1 9; sched_packet 0 2 7].

Lemma sched_queue_ok : sched_ok sched_config sched_timing 100 sched_queue sched_state.
Proof.
  split; try done.
  - intros i r Hr. by destruct i as [|[|i]]; cbn in Hr; [injection Hr as <-..|].
  - intros i r b Hr Hb. destruct i as [|[|i]]; cbn in Hr; [injection Hr as <-..|done]; cbn in Hb;
      repeat (apply elem_of_cons in Hb as [->|Hb]; [vm_compute; discriminate|]); by inversion Hb.
  - intros p Hp. unfold sched_queue in Hp. unfold packet_ok, NO_ROW.
    repeat (apply elem_of_cons in Hp as [->|Hp]; [cbn; lia|]). by inversion Hp.
Qed.

(** The seamless row hit, and without it the bank that opens behind the transfers or
    the row hit that is late, whichever the policy prefers. *)
Lemma choose_next_witness :
  choices sched_queue = Ok (next_ref sched_timing 100 READ 0 sched_queue sched_state) /\
  next_ref sched_timing 100 READ 0 sched_queue sched_state = Some 4%nat /\
  choices (take 4 sched_queue) = Ok (Some 2%nat) /\
  choices (take 2 sched_queue ++ [sched_packet 0 1 9]) = Ok (Some 2%nat) /\
  choices [sched_packet 1 0 5; sched_packet 1 3 2] = Ok None.
Proof.
  destruct (choose_next sched_config sched_timing 100 READ 0 sched_queue sched_state sched_queue_ok) as (E & _ & _).
  split; [exact E|]. repeat split; vm_compute; reflexivity.
Defined.

End DramSched.
