(* ===== verification/DramController.v ===== *)
(** * The memory controller as a whole

    The request queues ([DramQueues]), the schedulers and banks ([DramRank]) and the
    events of the ranks ([DramPower]) work on one controller: a request that is
    accepted schedules the next-request event; that event lets the ranks go on with
    their refresh, asks the scheduler for a packet and accesses the device; the data
    of a read comes back with the response event; and the end of a refresh schedules
    the next-request event again.  Each component keeps its view of the shared
    members (the queue of responses, whether an event is scheduled); [linked] says
    that the views agree. *)

From S2P Require Import Prelude Common PageTable Clock DramQueues DramSafety DramRank DramTiming.
From S2P Require Import DramPower DramRefresh DramRun DramSched.

Module DramController.
Import DramQueues DramRank DramTiming DramPower DramRefresh DramRun DramSched.

(** ** Model *)

Record Controller := mkController {
  queues : DramQueues.t;
  device : Ctrl;
  nextReqAt : option Z;
  curTick : Z
}.

Section Model.
Context (c : config) (k : timing).
Context (sort : list Command -> list Command).

(** What a rank reads of the controller; [d]: the controller drains or is drained. *)
Definition memory_of (d : bool) (w : Controller) : Memory :=
  mkMemory (DramQueues.busStateNext (queues w)) (lastRank (bus (device w))) (bool_decide (is_Some (nextReqAt w))) d.

(** The counters of the ranks follow the packets that were queued. *)
Definition queued (j : nat) (qs : list (list DRAMPacket)) : Z :=
  Z.of_nat (length (filter (fun p => Z.to_nat (rank p) = j) (concat qs))).
Definition count_packets (q q' : DramQueues.t) (s : DramRank.t) : DramRank.t :=
  with_ranks (imap (fun j r => with_entries
    (u32 (readEntries r + (queued j (readQueue q') - queued j (readQueue q))))
    (u32 (writeEntries r + (queued j (writeQueue q') - queued j (writeQueue q)))) r) (ranks s)) s.

(** A request arrives; the flag says whether it is accepted. *)
Definition accept (r : Req) (w : Controller) : res (bool * Controller) :=
  '(b, q) ← enqueueReq c (curTick w) r (queues w);
  let at_ := match nextReqAt w with
             | Some t => Some t
             | None => if nextReqEvent q then Some (curTick w) else None
             end in
  Ok (b, mkController q (with_bus (count_packets (queues w) q (bus (device w))) (device w)) at_ (curTick w)).

(** The loop over the queues of a direction, highest priority first. *)
Fixpoint pick_next (choose : list DRAMPacket -> res (option nat)) (l : list (nat * list DRAMPacket))
    : res (option (nat * nat)) :=
  match l with
  | [] => Ok None
  | (i, q) :: l =>
      o ← choose q;
      match o with Some j => Ok (Some (i, j)) | None => pick_next choose l end
  end.

(** The part of [processNextReqEvent] after the ranks were checked.  [None]: the
    handler returns early. *)
Definition serve_next (now : Z) (d : bool) (extra : Z) (q : DramQueues.t) (x : Ctrl)
    : res (option (DramQueues.t * Ctrl)) :=
  match busState q with
  | READ =>
      if totalReadQueueSize (qos q) =? 0 then
        if negb (totalWriteQueueSize (qos q) =? 0) &&
           (d || (writeLowThreshold c <? totalWriteQueueSize (qos q)))
        then Ok (Some (DramQueues.with_bus READ WRITE (readsThisTime q) (writesThisTime q) q, x))
        else Ok None
      else
        o ← pick_next (fun l => DramRank.chooseNext c k now READ extra l (bus x)) (by_priority (readQueue q));
        match o with
        | None => Ok None
        | Some (i, j) =>
            p ← chosen i j (readQueue q);
            x ← DramPower.serve_read c k now p (i, j) (readQueue q) x;
            q ← DramQueues.serve_read c i j q;
            Ok (Some (q, x))
        end
  | WRITE =>
      o ← pick_next (fun l => DramRank.chooseNext c k now WRITE extra l (bus x)) (by_priority (writeQueue q));
      match o with
      | None => Ok None
      | Some (i, j) =>
          p ← chosen i j (writeQueue q);
          x ← DramPower.serve_write c k now p (i, j) (writeQueue q) x;
          q ← DramQueues.serve_write c d i j q;
          Ok (Some (q, x))
      end
  end.

(** [processNextReqEvent], without a policy for the turnaround of the bus. *)
Definition processNextReqEvent (d : bool) (w : Controller) : res Controller :=
  let now := curTick w in
  let q0 := with_next false (queues w) in
  let q := turnaround (mkChoice None false d (fun _ => None)) q0 in
  let switched_cmd_type := negb (bool_decide (busState q0 = DramQueues.busStateNext q0)) in
  let m := mkMemory (DramQueues.busStateNext q) (lastRank (bus (device w))) false d in
  '(s, busyRanks) ← check_ranks k now m (bus (device w));
  let x := with_bus s (device w) in
  if busyRanks =? ranksPerChannel c then Ok (mkController q x None now)
  else
    let extra := if switched_cmd_type
                 then match busState q with READ => tCS k | WRITE => Z.min (tRTW k) (tCS k) end else 0 in
    o ← serve_next now d extra q x;
    match o with
    | None => Ok (mkController q x None now)
    | Some (q, x) =>
        let q := with_next true q in
        let q := if retryWrReq q && (totalWriteQueueSize (qos q) <? writeBufferSize c)
                 then with_retry (retryRdReq q) false (S (retriesSent q)) q else q in
        Ok (mkController q x (Some (Z.max (nextReqTime (bus x)) now)) now)
    end.

Definition processRespondEvent (d : bool) (w : Controller) : res Controller :=
  let now := curTick w in
  let x := device w in
  x ← DramPower.processRespondEvent k now (memory_of d w) (mkCtrl (bus x) (respQueue x) None);
  q ← DramQueues.processRespondEvent c now (with_resp (DramQueues.respQueue (queues w)) false (queues w));
  Ok (mkController q x (nextReqAt w) now).

(** An event of rank [j]. *)
Definition fire_event (d : bool) (j : nat) (e : Ev) (w : Controller) : res Controller :=
  let now := curTick w in
  let m := memory_of d w in
  r ← deref (ranks (bus (device w)) !! j);
  let r := set_event e None r in
  '(r, kick) ← match e with
               | Power => processPowerEvent k now m r
               | _ => r ← handle k sort now e m r; Ok (r, false)
               end;
  let x := with_bus (with_ranks (<[j := r]> (ranks (bus (device w)))) (bus (device w))) (device w) in
  Ok (if kick : bool then mkController (with_next true (queues w)) x (Some now) now
      else mkController (queues w) x (nextReqAt w) now).

(** ** Runs *)

Inductive step :=
| TimePasses (t : Z)
| Arrive (r : Req)
| NextRequest (d : bool)
| ReadData (d : bool)
| RankEvent (d : bool) (j : nat) (e : Ev).

(** The packets accepted so far are listed. *)
Definition perform (o : step) (st : Controller * list nat) : res (Controller * list nat) :=
  let '(w, accepted) := st in
  match o with
  | TimePasses t => Ok (mkController (queues w) (device w) (nextReqAt w) t, accepted)
  | Arrive r => '(b, w) ← accept r w; Ok (w, if b : bool then accepted ++ [ptr r] else accepted)
  | NextRequest d => w ← processNextReqEvent d w; Ok (w, accepted)
  | ReadData d => w ← processRespondEvent d w; Ok (w, accepted)
  | RankEvent d j e => w ← fire_event d j e w; Ok (w, accepted)
  end.

(** Ticks of the banks fit in 64 bits. *)
Definition ticks_fit (w : Controller) : Prop :=
  curTick w + tRP k <= MaxTick /\
  forall j r b, ranks (bus (device w)) !! j = Some r -> b ∈ banks (array r) ->
    actAllowedAt b <= MaxTick /\ preAllowedAt b + tRP k <= MaxTick.

(** The steps that the event queue and the port allow: time passes when nothing is
    due; an event fires at its tick, power events first; a packet is not sent again
    while it waits. *)
Definition allowed (o : step) (w : Controller) : Prop :=
  let now := curTick w in
  let x := device w in
  match o with
  | TimePasses t => legal c (Advance t) (mkWorld now x) /\ forall u, nextReqAt w = Some u -> t <= u
  | Arrive r => DramSafety.req_ok c r /\ ptr r ∉ DramSafety.packet_of <$> DramSafety.waiting (queues w)
  | NextRequest d => nextReqAt w = Some now /\ quiet x /\ 0 < now /\ ticks_fit w
  | ReadData d => legal c (Respond (memory_of d w)) (mkWorld now x)
  | RankEvent d j e => legal c (Fire j e (memory_of d w)) (mkWorld now x)
  end.

(** The step that stops the simulator: a refresh that comes too late. *)
Definition stopped (o : step) (w : Controller) : option fault :=
  match o with
  | RankEvent d j e => stops k (Fire j e (memory_of d w)) (mkWorld (curTick w) (device w))
  | _ => None
  end.

Inductive reached (w0 : Controller) : Controller -> list nat -> Prop :=
| reached_start : reached w0 w0 []
| reached_step o w acc w' acc' :
    reached w0 w acc -> allowed o w -> perform o (w, acc) = Ok (w', acc') -> reached w0 w' acc'.

End Model.

Notation R s := (concat (readQueue s)).
Notation W s := (concat (writeQueue s)).

Lemma elem_of_concat {A} (x : A) ls : x ∈ concat ls <-> exists l, x ∈ l /\ l ∈ ls.
Proof.
  rewrite list_elem_of_In, in_concat. setoid_rewrite list_elem_of_In. naive_solver.
Qed.

(** ** What a request does to the queues *)

Section Requests.
Context (c : config).

(** A packet that was decoded from an address. *)
Definition decoded (rd : bool) (p : DRAMPacket) : Prop :=
  exists r a n h p0, decodeAddr c r a n rd = Ok p0 /\ p = set_helper h p0.

Record grows (s s' : DramQueues.t) : Prop := {
  gr_bus : DramQueues.busStateNext s' = DramQueues.busStateNext s;
  gr_resp : DramQueues.respQueue s' = DramQueues.respQueue s;
  gr_next : nextReqEvent s' = true \/ nextReqEvent s' = nextReqEvent s;
  gr_reads : forall p, p ∈ R s' -> p ∈ R s \/ decoded true p;
  gr_writes : forall p, p ∈ W s' -> p ∈ W s \/ decoded false p;
  gr_nonempty : W s <> [] -> W s' <> []
}.

Lemma grows_same s : grows s s.
Proof. split; auto. Qed.

Lemma grows_trans s1 s2 s3 : grows s1 s2 -> grows s2 s3 -> grows s1 s3.
Proof.
  intros [A1 A2 A3 A4 A5 A6] [B1 B2 B3 B4 B5 B6]. split; [congruence|congruence| | | |auto].
  - destruct B3 as [?|B3]; [by left|]. rewrite B3. done.
  - intros p Hp. destruct (B4 p Hp); auto.
  - intros p Hp. destruct (B5 p Hp); auto.
Qed.

Lemma decodeAddr_fields r a n rd p :
  decodeAddr c r a n rd = Ok p -> exists rk bk rw, decode c a = (rk, bk, rw) /\
    (rk < ranksPerChannel c /\ bk < banksPerRank c /\ rw < NO_ROW) /\
    p = mkDRAMPacket r rd rk bk (u32 rw) (u16 (banksPerRank c * rk + bk)) a n None.
Proof.
  unfold decodeAddr. destruct (decode c a) as [[rk bk] rw]. intros H.
  destruct (rk <? _) eqn:E1; [|done]. cbn in H. destruct (bk <? _) eqn:E2; [|done]. cbn in H.
  destruct (rw <? rowsPerBank c); [|done]. cbn in H. destruct (rw <? NO_ROW) eqn:E3; [|done]. cbn in H.
  injection H as <-. exists rk, bk, rw. split; [done|]. split; [lia|done].
Qed.

Lemma push_queue p qs qs' : push p qs = Ok qs' -> concat qs' ≡ₚ p :: concat qs.
Proof.
  unfold push. destruct (qs !! qosValue (req p)) as [q|] eqn:E; [|done]. cbn. intros [= <-].
  destruct (DramSafety.concat_insert qs _ q (q ++ [p]) E) as (rest & H1 & H2). rewrite H1, H2. solve_Permutation.
Qed.

Lemma write_burst_grows now r a s s' : write_burst c now r a s = Ok s' -> grows s s'.
Proof.
  unfold write_burst. case_bool_decide; [intros [= <-]; apply grows_same|].
  destruct (decodeAddr c r a (burst_size c r a) false) as [p|] eqn:Ep; [|done]. cbn.
  destruct (_ <? writeBufferSize c); [|done]. cbn. destruct (push p (writeQueue s)) as [q|] eqn:Eq; [|done]. cbn.
  destruct (_ =? _); [|done]. cbn. intros [= <-]. apply push_queue in Eq.
  split; cbn; [done|done|by right|auto| |].
  - intros x Hx. rewrite Eq in Hx. apply elem_of_cons in Hx as [->|Hx]; [|by left]. right.
    exists r, a, (burst_size c r a), None, p. split; [done|].
    by apply decodeAddr_fields in Ep as (rk & bk & rw & _ & _ & ->).
  - intros _ Hn. rewrite Hn in Eq. by apply Permutation_nil_cons in Eq.
Qed.

Lemma write_bursts_grows now r n a s s' : write_bursts c now r n a s = Ok s' -> grows s s'.
Proof.
  revert a s. induction n as [|n IH]; intros a s; cbn; [intros [= <-]; apply grows_same|].
  destruct (write_burst c now r a s) as [s1|] eqn:E; [|done]. cbn. intros H.
  eapply grows_trans; [by eapply write_burst_grows|by eapply IH].
Qed.

Lemma grows_helpers h n s s' : grows s s' -> grows s (with_helpers h n s').
Proof. by destruct 1. Qed.
Lemma grows_answers l s s' : grows s s' -> grows s (with_answers l s').
Proof. by destruct 1. Qed.
Lemma grows_next s s' : grows s s' -> grows s (with_next true s').
Proof. destruct 1. split; cbn; auto. Qed.

Lemma grows_retry a b n s : grows s (with_retry a b n s).
Proof. split; cbn; auto. Qed.

Lemma read_burst_grows now r n a l l' :
  read_burst c now r n a l = Ok l' -> grows (DramQueues.ctrl l) (DramQueues.ctrl l').
Proof.
  unfold read_burst. destruct (0 <? _); [intros [= <-]; apply grows_same|].
  assert (grows (DramQueues.ctrl l) (DramQueues.ctrl (new_helper n l))) as Hh.
  { unfold new_helper. destruct (_ && _); cbn; [apply grows_helpers|]; apply grows_same. }
  generalize dependent (new_helper n l). intros l1 Hh.
  destruct (decodeAddr c r a (burst_size c r a) true) as [p|] eqn:Ep; [|done]. cbn.
  destruct (readQueueFull _ _ _); [done|]. cbn. destruct (push _ _) as [q|] eqn:Eq; [|done]. cbn. intros [= <-].
  apply push_queue in Eq. eapply grows_trans; [exact Hh|]. split; cbn; [done|done|by right| |auto|done].
  intros x Hx. rewrite Eq in Hx. apply elem_of_cons in Hx as [->|Hx]; [|by left]. right.
  by exists r, a, (burst_size c r a), (helper l1), p.
Qed.

Lemma read_bursts_grows now r n m a l l' :
  read_bursts c now r n m a l = Ok l' -> grows (DramQueues.ctrl l) (DramQueues.ctrl l').
Proof.
  revert a l. induction m as [|m IH]; intros a l; cbn; [intros [= <-]; apply grows_same|].
  destruct (read_burst c now r n a l) as [l1|] eqn:E; [|done]. cbn. intros H.
  eapply grows_trans; [by eapply read_burst_grows|by eapply IH].
Qed.

Lemma addToReadQueue_grows now r n s s' : addToReadQueue c now r n s = Ok s' -> grows s s'.
Proof.
  unfold addToReadQueue. intros H. apply bind_ok in H as (_ & _ & H). apply bind_ok in H as (_ & _ & H).
  apply bind_ok in H as (l & E & H). apply read_bursts_grows in E. cbn in E.
  destruct (_ =? n); [injection H as <-; by apply grows_answers|].
  apply bind_ok in H as (s1 & E1 & H). injection H as <-. apply grows_next.
  destruct (helper l) as [h|]; [|by injection E1 as <-]. apply bind_ok in E1 as (bh & _ & E1).
  injection E1 as <-. by apply grows_helpers.
Qed.

Lemma enqueue_grows now r s b s' : enqueueReq c now r s = Ok (b, s') -> grows s s'.
Proof.
  unfold enqueueReq. intros H. do 3 apply bind_ok in H as (_ & _ & H).
  destruct (Packet.isWrite (pkt r)); apply bind_ok in H as (_ & _ & H).
  - destruct (writeQueueFull _ _ _); [injection H as _ <-; apply grows_retry|]. apply bind_ok in H as (s1 & E & H).
    injection H as _ <-. unfold addToWriteQueue in E. apply bind_ok in E as (_ & _ & E).
    apply bind_ok in E as (s2 & E2 & E). injection E as <-.
    apply grows_next, grows_answers. by eapply write_bursts_grows.
  - apply bind_ok in H as (_ & _ & H).
    destruct (readQueueFull _ _ _); [injection H as _ <-; apply grows_retry|]. apply bind_ok in H as (s1 & E & H).
    injection H as _ <-. by eapply addToReadQueue_grows.
Qed.

Lemma decoded_ok rd p :
  DramSafety.config_ok c -> banksPerRank c <= 32 -> decoded rd p -> packet_ok c p /\ read p = rd.
Proof.
  intros Hc Hb (r & a & n & h & p0 & E & ->).
  apply decodeAddr_fields in E as (rk & bk & rw & Ed & Hlt & ->). split; [|done].
  assert (0 <= rk /\ 0 <= bk /\ 0 <= rw) as Hpos.
  { pose proof (DramSafety.co_rows c Hc). unfold decode in Ed.
    assert (forall x, 0 <= u8 x) as H8 by (intros x; unfold u8; apply Z.mod_pos_bound; lia).
    destruct (addrMapping c); injection Ed as <- <- <-; (split; [apply H8|split; [apply H8|]]);
      apply Z.mod_pos_bound; lia. }
  pose proof (DramSafety.co_ranks c Hc). unfold packet_ok, NO_ROW in *. cbn.
  rewrite u32_id, u16_id by (unfold is_u32; nia). lia.
Qed.
End Requests.

(** ** What the events leave alone *)

Section Steady.
Context (c : config) (k : timing) (sort : list Command -> list Command).

(** The counters of queued packets and the refresh state stay. *)
Record steady (r r' : Rank) : Prop := {
  st_reads : readEntries r' = readEntries r;
  st_writes : writeEntries r' = writeEntries r;
  st_refresh : refreshState (machine r') = refreshState (machine r)
}.

Lemma steady_refl r : steady r r.
Proof. done. Qed.
Lemma steady_trans r1 r2 r3 : steady r1 r2 -> steady r2 r3 -> steady r1 r3.
Proof. intros [] []. split; congruence. Qed.
Lemma steady_event e w r r' : steady r r' -> steady r (set_event e w r').
Proof. by destruct 1. Qed.
Lemma steady_array f r r' : steady r r' -> steady r (on_array f r').
Proof. by destruct 1. Qed.
Lemma steady_with a r r' : steady r r' -> steady r (with_array a r').
Proof. by destruct 1. Qed.
Lemma steady_machine f r r' :
  (forall m, refreshState (f m) = refreshState m) -> steady r r' -> steady r (on_machine f r').
Proof. intros Hf []. split; cbn; [done|done|]. by rewrite Hf. Qed.

Lemma schedule_steady now e w r r0 r' : steady r0 r -> schedule now e w r = Ok r' -> steady r0 r'.
Proof. unfold schedule. intros H E. res_inv. by apply steady_event. Qed.
Lemma reschedule_steady now e w r r0 r' : steady r0 r -> reschedule now e w r = Ok r' -> steady r0 r'.
Proof. unfold reschedule. intros H E. res_inv. by apply steady_event. Qed.

Lemma prechargeBank_steady now b t tr r r' : prechargeBank k now b t tr r = Ok r' -> steady r r'.
Proof.
  unfold prechargeBank. intros E. do 3 apply bind_ok in E as (? & _ & E).
  destruct (event_at _ Precharge) as [w|].
  - destruct (w <? _); [eapply reschedule_steady; [|exact E]|injection E as <-]; by apply steady_with.
  - apply bind_ok in E as (r1 & E1 & E). injection E as <-. apply steady_machine; [done|].
    eapply schedule_steady; [|exact E1]. by apply steady_with.
Qed.

Lemma activateBank_steady now b t row r r' : activateBank c k now b t row r = Ok r' -> steady r r'.
Proof.
  unfold activateBank. intros E. do 5 apply bind_ok in E as (? & _ & E).
  destruct (event_at _ Activate) as [w|].
  - destruct (_ <? w); [eapply reschedule_steady; [|exact E]|injection E as <-]; by apply steady_with.
  - eapply schedule_steady; [|exact E]. by apply steady_with.
Qed.

Lemma wakeUp_steady now d r r' : scheduleWakeUpEvent now d r = Ok r' -> steady r r'.
Proof.
  unfold scheduleWakeUpEvent. intros E. apply bind_ok in E as (r1 & E1 & E). injection E as <-.
  apply (schedule_steady _ _ _ _ r) in E1; [|by split].
  destruct (pwrStateTrans _); repeat apply steady_array; (apply steady_machine; [done|]); by apply steady_array.
Qed.

Lemma schedulePower_steady now p t r r' : schedulePowerEvent now p t r = Ok r' -> steady r r'.
Proof.
  unfold schedulePowerEvent. intros E. do 2 apply bind_ok in E as (? & _ & E).
  eapply schedule_steady; [|exact E]. by apply steady_machine.
Qed.

Lemma powerDownSleep_steady now p t r r' : powerDownSleep k now p t r = Ok r' -> steady r r'.
Proof.
  unfold powerDownSleep. intros E. apply bind_ok in E as (r1 & E1 & E). injection E as <-.
  apply steady_machine; [done|].
  destruct p; try (injection E1 as <-; apply steady_refl); [|apply bind_ok in E1 as (_ & _ & E1)|..];
    apply bind_ok in E1 as (? & E2 & E1); injection E1 as <-; apply steady_array; by eapply schedulePower_steady.
Qed.

Lemma open_row_steady now p r r' : open_row c k now p r = Ok r' -> steady r r'.
Proof.
  unfold open_row. intros E. apply bind_ok in E as (b & _ & E). destruct (openRow b =? row p).
  { injection E as <-. apply steady_refl. }
  apply bind_ok in E as (r1 & E1 & E). apply bind_ok in E as (b1 & _ & E).
  eapply steady_trans; [|by eapply activateBank_steady].
  destruct (openRow b =? NO_ROW); [injection E1 as <-; apply steady_refl|]. by eapply prechargeBank_steady.
Qed.

(** The ranks of an access. *)
Definition steady_all (s s' : DramRank.t) : Prop :=
  length (ranks s') = length (ranks s) /\
  forall j r', ranks s' !! j = Some r' -> exists r, ranks s !! j = Some r /\ steady r r'.

Lemma access_steady now p pos qs s ready s' :
  doDRAMAccess c k now p pos qs s = Ok (ready, s') -> steady_all s s'.
Proof.
  unfold doDRAMAccess. intros E. apply bind_ok in E as (r & Er%deref_ok & E). apply bind_ok in E as (r1 & E1 & E).
  apply bind_ok in E as (r2 & E2 & E). apply bind_ok in E as (b & _ & E).
  apply bind_ok in E as (r3 & E3%deref_ok & E). apply bind_ok in E as (b3 & _ & E).
  apply bind_ok in E as (r4 & E4 & E). injection E as _ <-. unfold steady_all. cbn [ranks].
  assert (steady r r2) as H2.
  { eapply steady_trans; [|by eapply open_row_steady]. destruct (inLowPowerState (machine r)).
    - apply bind_ok in E1 as (_ & _ & E1). by eapply wakeUp_steady.
    - injection E1 as <-. apply steady_refl. }
  unfold delay_ranks in *. rewrite list_lookup_imap, list_lookup_insert_eq in E3 by (by eapply lookup_lt_Some).
  cbn in E3. injection E3 as <-.
  match type of E4 with context [on_array (push_cmd ?a ?b ?t) ?x] =>
    assert (steady r r4) as H4; [assert (steady r (on_array (push_cmd a b t) x)) as H3 by
      (by repeat apply steady_array)|] end.
  { destruct (auto_precharge _ _ _ _ _); [|by injection E4 as <-].
    eapply steady_trans; [exact H3|by eapply prechargeBank_steady]. }
  split; [by rewrite length_insert, length_imap, length_insert|].
  intros j r' Hj. apply list_lookup_insert_Some in Hj as [(<- & <- & _)|[Hne Hj]]; [by exists r|].
  rewrite list_lookup_imap, list_lookup_insert_ne in Hj by done. apply fmap_Some in Hj as (r0 & H0 & ->).
  exists r0. split; [done|]. by apply steady_array.
Qed.
Lemma serve_read_steady now p pos qs x x' :
  DramPower.serve_read c k now p pos qs x = Ok x' ->
  steady_all (bus x) (bus x') /\ exists t, DramPower.respQueue x' = DramPower.respQueue x ++ [(p, t)].
Proof.
  unfold DramPower.serve_read. intros E. apply bind_ok in E as (r & _ & E). apply bind_ok in E as (_ & _ & E).
  apply bind_ok in E as ([ready s] & E1 & E). apply access_steady in E1 as [Hl H].
  apply bind_ok in E as (s1 & E1 & E). do 2 apply bind_ok in E as (_ & _ & E).
  apply bind_ok in E as (w & _ & E). injection E as <-. cbn [bus DramPower.respQueue]. split; [|eauto].
  unfold on_rank in E1. apply bind_ok in E1 as (r1 & Er%deref_ok & E1). apply bind_ok in E1 as (r2 & E2 & E1).
  injection E2 as <-. injection E1 as <-. split; cbn [ranks with_ranks]; [by rewrite length_insert|].
  intros j r' Hj. apply list_lookup_insert_Some in Hj as [(<- & <- & _)|[_ Hj]]; [|by apply H].
  destruct (H _ _ Er) as (r0 & H0 & Hs). exists r0. split; [done|]. by apply steady_machine.
Qed.

(** A write leaves the queue of its rank. *)
Lemma serve_write_steady now p pos qs x x' :
  DramPower.serve_write c k now p pos qs x = Ok x' ->
  length (ranks (bus x')) = length (ranks (bus x)) /\ DramPower.respQueue x' = DramPower.respQueue x /\
  forall j r', ranks (bus x') !! j = Some r' -> exists r, ranks (bus x) !! j = Some r /\
    readEntries r' = readEntries r /\ refreshState (machine r') = refreshState (machine r) /\
    writeEntries r' = if decide (j = Z.to_nat (rank p)) then u32 (writeEntries r - 1) else writeEntries r.
Proof.
  unfold DramPower.serve_write. intros E. apply bind_ok in E as (r & _ & E). do 2 apply bind_ok in E as (_ & _ & E).
  apply bind_ok in E as ([ready s] & E1 & E). apply access_steady in E1 as [Hl H].
  apply bind_ok in E as (s1 & E1 & E). injection E as <-. cbn [bus DramPower.respQueue].
  unfold on_rank in E1. apply bind_ok in E1 as (r1 & Er%deref_ok & E1). apply bind_ok in E1 as (r2 & E2 & E1).
  injection E1 as <-. cbn [ranks with_ranks]. split; [by rewrite length_insert|]. split; [done|].
  intros j r' Hj. apply list_lookup_insert_Some in Hj as [(<- & <- & _)|[Hne Hj]].
  - destruct (H _ _ Er) as (r0 & H0 & [S1 S2 S3]). exists r0. split; [done|]. rewrite decide_True by done.
    assert (steady (with_entries (readEntries r1) (u32 (writeEntries r1 - 1)) r1) r2) as [T1 T2 T3].
    { unfold write_done in E2. destruct (event_at _ WriteDone) as [w|].
      - destruct (w <? ready); [|injection E2 as <-; apply steady_refl].
        eapply reschedule_steady; [apply steady_refl|exact E2].
      - apply bind_ok in E2 as (r3 & E3 & E2). injection E2 as <-. apply steady_machine; [done|].
        eapply schedule_steady; [apply steady_refl|exact E3]. }
    cbn in T1, T2, T3. rewrite T1, T2, T3, S2. done.
  - destruct (H _ _ Hj) as (r0 & H0 & [S1 S2 S3]). exists r0. rewrite decide_False by done. done.
Qed.

(** *** Events of a rank *)

Record follows (m : Memory) (r r' : Rank) : Prop := {
  fo_reads : readEntries r' = readEntries r;
  fo_writes : writeEntries r' = writeEntries r;
  fo_busy : inRefIdleState r = false -> inRefIdleState r' = false;
  fo_drain : refreshState (machine r') = REF_DRAIN -> refreshState (machine r) = REF_DRAIN \/ nextReqScheduled m = true
}.

Lemma steady_follows m r r' : steady r r' -> follows m r r'.
Proof.
  intros [H1 H2 H3]. split; [done|done| |].
  - unfold inRefIdleState. by rewrite H3.
  - rewrite H3. by left.
Qed.

Lemma decr_steady r mc : decr_outstanding (machine r) = Ok mc -> steady r (with_machine mc r).
Proof. unfold decr_outstanding. intros E. res_inv. done. Qed.

Lemma precharge_steady now m r r' : processPrechargeEvent k now m r = Ok r' -> steady r r'.
Proof.
  unfold processPrechargeEvent. intros E. apply bind_ok in E as (mc & E1 & E). apply decr_steady in E1.
  destruct (numBanksActive _ =? 0); [|by injection E as <-]. eapply steady_trans; [exact E1|].
  destruct (_ && _).
  - apply bind_ok in E as (_ & _ & E). by eapply powerDownSleep_steady.
  - by eapply schedulePower_steady.
Qed.

Lemma refresh_pre_steady now r r' : refresh_pre k now r = Ok r' -> steady r r'.
Proof.
  unfold refresh_pre. intros E. apply bind_ok in E as (r1 & E1 & E). apply bind_ok in E as (_ & _ & E).
  injection E as <-. destruct (negb _); [|destruct (_ && _)].
  - apply bind_ok in E1 as (r2 & E2 & E1). injection E1 as <-. apply steady_array.
    eapply (for_each_inv _ _ (steady r)) in E2; [exact E2| |apply steady_refl].
    intros i r3 r4 _ H E. eapply steady_trans; [exact H|]. unfold precharge_one in E.
    apply bind_ok in E as (b & _ & E). destruct (negb _); [by eapply prechargeBank_steady|].
    injection E as <-. by apply steady_array.
  - by eapply schedulePower_steady.
  - apply bind_ok in E1 as (_ & _ & E1). by injection E1 as <-.
Qed.

Lemma refresh_run_steady now m r r' : refresh_run k now m r = Ok r' -> steady r r'.
Proof.
  unfold refresh_run. intros E. do 3 apply bind_ok in E as (_ & _ & E). apply bind_ok in E as (r1 & E1 & E).
  eapply schedule_steady; [|exact E]. destruct (drainingOrDrained m); [by eapply schedulePower_steady|].
  destruct (negb _); [by eapply powerDownSleep_steady|].
  destruct (_ && _); [|by eapply schedulePower_steady].
  apply bind_ok in E1 as (_ & _ & E1). by eapply powerDownSleep_steady.
Qed.

Lemma refresh_start_state now r r' :
  refresh_start k sort now r = Ok r' ->
  readEntries r' = readEntries r /\ writeEntries r' = writeEntries r /\ refreshState (machine r') = REF_RUN.
Proof.
  unfold refresh_start. intros E. do 3 apply bind_ok in E as (_ & _ & E).
  eapply schedule_steady in E; [|apply steady_refl]. by destruct E.
Qed.

(** A rank that is not idle, and does not drain either. *)
Lemma busy_follows m r r' :
  readEntries r' = readEntries r -> writeEntries r' = writeEntries r ->
  refreshState (machine r') <> REF_IDLE -> refreshState (machine r') <> REF_DRAIN -> follows m r r'.
Proof.
  intros H1 H2 H3 H4. split; [done|done| |done]. intros _. unfold inRefIdleState. by apply bool_decide_eq_false.
Qed.

Lemma refresh_follows now m r r' : processRefreshEvent k sort now m r = Ok r' -> follows m r r'.
Proof.
  unfold processRefreshEvent.
  set (r1 := match refreshState (machine r) with REF_IDLE | REF_SREF_EXIT => _ | _ => r end).
  assert (readEntries r1 = readEntries r /\ writeEntries r1 = writeEntries r /\
    refreshState (machine r1) <> REF_IDLE /\ refreshState (machine r1) <> REF_SREF_EXIT) as (H1 & H2 & H3 & H4).
  { unfold r1. destruct (refreshState (machine r)) eqn:E; cbn; rewrite ?E; repeat split; done. }
  clearbody r1. destruct (decide (refreshState (machine r1) = REF_DRAIN)) as [Ed|Ed].
  - rewrite Ed. cbn [bool_decide]. rewrite (bool_decide_eq_true_2 (REF_DRAIN = REF_DRAIN)) by done. cbn [andb].
    destruct ((rankNo r1 =? activeRank m) && nextReqScheduled m) eqn:En.
    { intros [= <-]. apply andb_true_iff in En as [_ En]. split; [done|done| |by right].
      intros _. unfold inRefIdleState. rewrite Ed. done. }
    cbn. destruct (inLowPowerState (machine r1)); cbn; intros E.
    + apply wakeUp_steady in E as [E1 E2 E3]. cbn in *. apply busy_follows; rewrite ?E1, ?E2, ?E3; done.
    + apply refresh_pre_steady in E as [E1 E2 E3]. cbn in *. apply busy_follows; rewrite ?E1, ?E2, ?E3; done.
  - rewrite !(bool_decide_eq_false_2 (refreshState (machine r1) = REF_DRAIN)) by done. cbn [andb].
    destruct (refreshState (machine r1)) eqn:Es; try done; cbn.
    + destruct (inLowPowerState (machine r1)); cbn; intros E.
      * apply wakeUp_steady in E as [E1 E2 E3]. apply busy_follows; rewrite ?E1, ?E2, ?E3, ?Es; done.
      * apply refresh_pre_steady in E as [E1 E2 E3]. cbn in *. apply busy_follows; rewrite ?E1, ?E2, ?E3; done.
    + rewrite !(bool_decide_eq_false_2 (REF_PRE = REF_PD_EXIT)) by done. cbn. rewrite Es. intros E. apply refresh_pre_steady in E as [E1 E2 E3]. apply busy_follows; rewrite ?E1, ?E2, ?E3, ?Es; done.
    + rewrite !(bool_decide_eq_false_2 (REF_START = REF_PD_EXIT)) by done. cbn. rewrite Es. intros E. apply refresh_start_state in E as (E1 & E2 & E3). apply busy_follows; rewrite ?E1, ?E2, ?E3; done.
    + rewrite !(bool_decide_eq_false_2 (REF_RUN = REF_PD_EXIT)) by done. cbn. rewrite Es. intros E. apply refresh_run_steady in E as [E1 E2 E3]. apply busy_follows; rewrite ?E1, ?E2, ?E3, ?Es; done.
Qed.

Lemma handle_follows now e m r r' :
  e <> Power -> handle k sort now e m r = Ok r' -> follows m r r'.
Proof.
  intros Hne E. destruct e; cbn in E; try done.
  - apply bind_ok in E as (mc & E1 & E). injection E as <-. by apply steady_follows, decr_steady.
  - unfold processActivateEvent in E. case_bool_decide; [injection E as <-; by apply steady_follows|].
    apply steady_follows. by eapply schedulePower_steady.
  - apply steady_follows. by eapply precharge_steady.
  - by eapply refresh_follows.
  - unfold processWakeUpEvent in E. apply steady_follows. destruct (pwrState (machine r)); try done;
      by eapply schedulePower_steady.
Qed.

Lemma idle_steady now p r r' : idle_for_refresh k now p r = Ok r' -> steady r r'.
Proof.
  unfold idle_for_refresh. intros E.
  assert (forall r', (if negb (scheduled Activate r) then
        assert_that (negb (scheduled Power r)) ;;
        if bool_decide (refreshState (machine r) = REF_PD_EXIT) then
          assert_that (bool_decide (p = PWR_PRE_PDN)) ;;
          schedulePowerEvent now PWR_REF (now + tXP k) r
        else Ok (on_machine (with_pwrState PWR_REF) r)
      else assert_that (scheduled Precharge r) ;; Ok r) = Ok r' -> steady r r') as H.
  { intros r1 E1. destruct (negb _); apply bind_ok in E1 as (_ & _ & E1); [|by injection E1 as <-].
    case_bool_decide; [|by injection E1 as <-]. apply bind_ok in E1 as (_ & _ & E1). by eapply schedulePower_steady. }
  destruct (refreshState (machine r)); try (by injection E as <-); by apply H.
Qed.

Lemma enter_state now m r r' :
  enter_refresh k now m r = Ok r' -> readEntries r' = readEntries r /\ writeEntries r' = writeEntries r /\
    (refreshState (machine r') = REF_START \/
     refreshState (machine r') = refreshState (machine r) /\ refreshState (machine r) <> REF_IDLE).
Proof.
  unfold enter_refresh. intros E. apply bind_ok in E as (_ & Ha%assert_that_ok & E). destruct (_ && _ && _ && _).
  - apply bind_ok in E as (r1 & E1%powerDownSleep_steady & E). apply bind_ok in E as (_ & _ & E).
    apply bind_ok in E as (mc & E2 & E). injection E as <-. apply decr_steady in E2. destruct E1 as [A1 A2 A3], E2 as [B1 B2 B3].
    cbn in *. split; [congruence|]. split; [congruence|]. right. split; [congruence|].
    intros Hi. rewrite Hi in Ha. done.
  - apply bind_ok in E as (_ & _ & E). apply bind_ok in E as (r1 & E1 & E). injection E as <-.
    eapply schedule_steady in E1; [|apply steady_refl]. destruct E1. cbn. auto.
Qed.

Lemma power_kick now m r r' b :
  processPowerEvent k now m r = Ok (r', b) -> b = true -> nextReqScheduled m = false.
Proof.
  unfold processPowerEvent. intros E Hb. apply bind_ok in E as (_ & _ & E).
  apply bind_ok in E as ([r1 b1] & E1 & E). apply bind_ok in E as (r2 & _ & E). apply bind_ok in E as (r3 & _ & E).
  injection E as _ ->. destruct (bool_decide (pwrState (machine r) = PWR_REF)); [|by injection E1 as _ <-].
  unfold refresh_over in E1. apply bind_ok in E1 as (_ & _ & E1). apply bind_ok in E1 as (mc & Em & E1).
  apply bind_ok in E1 as (_ & _ & E1). injection E1 as _ <-. by apply negb_true_iff.
Qed.

(** The power event: when a refresh ends, the next request is scheduled. *)
Lemma power_follows now m r r' b :
  processPowerEvent k now m r = Ok (r', b) ->
  readEntries r' = readEntries r /\ writeEntries r' = writeEntries r /\
  (inRefIdleState r = false -> inRefIdleState r' = false \/ b = negb (nextReqScheduled m)) /\
  (refreshState (machine r') = REF_DRAIN -> refreshState (machine r) = REF_DRAIN).
Proof.
  unfold processPowerEvent. intros E. apply bind_ok in E as (_ & _ & E).
  apply bind_ok in E as ([r1 b1] & E1 & E). apply bind_ok in E as (r2 & E2 & E). apply bind_ok in E as (r3 & E3 & E).
  injection E as <- <-.
  assert (readEntries r1 = readEntries r /\ writeEntries r1 = writeEntries r /\
    (b1 = negb (nextReqScheduled m) /\ refreshState (machine r1) = REF_IDLE \/
     refreshState (machine r1) = refreshState (machine r))) as (A1 & A2 & A3).
  { destruct (bool_decide (pwrState (machine r) = PWR_REF)); [|injection E1 as <- <-; auto].
    unfold refresh_over in E1. apply bind_ok in E1 as (_ & _ & E1). apply bind_ok in E1 as (mc & Em & E1).
    apply bind_ok in E1 as (_ & _ & E1). injection E1 as <- <-. cbn. auto. }
  assert (readEntries r2 = readEntries r1 /\ writeEntries r2 = writeEntries r1 /\
    (refreshState (machine r2) = refreshState (machine r1) \/ refreshState (machine r2) = REF_PRE \/
     refreshState (machine r2) = REF_SREF_EXIT)) as (B1 & B2 & B3).
  { destruct (_ && _) in E2.
    - apply bind_ok in E2 as (_ & _ & E2). eapply schedule_steady in E2; [|apply steady_refl]. destruct E2. cbn in *. auto.
    - destruct (bool_decide (pwrState (machine r1) = PWR_IDLE)); [|injection E2 as <-; auto].
      destruct (bool_decide (_ = PWR_SREF)) in E2; [|apply idle_steady in E2 as []; auto].
      eapply schedule_steady in E2; [|apply steady_refl]. destruct E2. cbn in *. auto. }
  assert (readEntries r3 = readEntries r2 /\ writeEntries r3 = writeEntries r2 /\
    (refreshState (machine r3) = REF_START \/ refreshState (machine r3) = refreshState (machine r2))) as (C1 & C2 & C3).
  { destruct (bool_decide (pwrState (machine r2) = PWR_REF)); [|injection E3 as <-; auto].
    apply enter_state in E3. intuition. }
  split; [congruence|]. split; [congruence|]. unfold inRefIdleState. rewrite !bool_decide_eq_false.
  destruct C3 as [C3|C3], B3 as [B3|[B3|B3]], A3 as [[-> A3]|A3]; rewrite C3, ?B3, ?A3; split; auto; try congruence.
Qed.
End Steady.

(** ** What the events do to the queues *)

Section Queues.
Context (c : config).

Lemma erase_queue i j qs q p qs' :
  qs !! i = Some q -> q !! j = Some p -> erase i j p qs = Ok qs' -> concat qs ≡ₚ p :: concat qs'.
Proof.
  intros Hq Hp. unfold erase. rewrite Hq. cbn. case_bool_decide; [|done]. intros [= <-].
  destruct (DramSafety.concat_insert qs i q (delete j q) Hq) as (rest & H1 & H2).
  rewrite H1, H2. rewrite (delete_Permutation q j p) at 1 by done. done.
Qed.

(** The packet of a read moves to the responses. *)
Lemma serve_read_queues i j q p s s' :
  readQueue s !! i = Some q -> q !! j = Some p -> DramQueues.serve_read c i j s = Ok s' ->
  R s ≡ₚ p :: R s' /\ writeQueue s' = writeQueue s /\
  DramQueues.respQueue s' = DramQueues.respQueue s ++ [p] /\
  (DramQueues.busStateNext s' = WRITE -> DramQueues.busStateNext s = WRITE \/
   writeHighThreshold c < totalWriteQueueSize (qos s') /\ totalWriteQueueSize (qos s') = totalWriteQueueSize (qos s)).
Proof.
  intros Hq Hp. unfold DramQueues.serve_read, chosen. rewrite Hq. cbn. rewrite Hp. cbn. intros E.
  apply bind_ok in E as (_ & _ & E). apply bind_ok in E as (m & Em & E). apply bind_ok in E as (_ & _ & E).
  assert (totalWriteQueueSize m = totalWriteQueueSize (qos s)) as Hm.
  { unfold logResponse in Em. do 2 apply bind_ok in Em as (_ & _ & Em). apply bind_ok in Em as (rt & _ & Em). by injection Em as <-. }
  cbn in E. destruct (writeHighThreshold c <? totalWriteQueueSize m) eqn:Et; cbn in E;
    apply bind_ok in E as (qs & Eq & E); injection E as <-; cbn; (split; [by eapply erase_queue|]); auto.
  split; [done|]. split; [done|]. intros _. right. split; [lia|done].
Qed.

(** The packet of a write leaves its queue; the bus stays with writes only while
    there are some. *)
Lemma serve_write_queues d i j q p s s' :
  writeQueue s !! i = Some q -> q !! j = Some p -> DramQueues.serve_write c d i j s = Ok s' ->
  W s ≡ₚ p :: W s' /\ readQueue s' = readQueue s /\ DramQueues.respQueue s' = DramQueues.respQueue s /\
  (DramQueues.busStateNext s' = WRITE -> totalWriteQueueSize (qos s') <> 0).
Proof.
  intros Hq Hp. unfold DramQueues.serve_write, chosen. rewrite Hq. cbn. rewrite Hp. cbn. intros E.
  apply bind_ok in E as (_ & _ & E). apply bind_ok in E as (m & Em & E). apply bind_ok in E as (qs & Eq & E).
  injection E as <-. match goal with |- context [if ?b then _ else _] => destruct b eqn:Eb end; cbn;
    (split; [by eapply erase_queue|]); (split; [done|]); (split; [done|]); [done|].
  intros _ Hz. rewrite Hz in Eb. done.
Qed.

(** A response leaves the packets that wait for the device alone. *)
Lemma respond_queues now s s' :
  DramQueues.processRespondEvent c now s = Ok s' ->
  readQueue s' = readQueue s /\ writeQueue s' = writeQueue s /\
  DramQueues.respQueue s' = tail (DramQueues.respQueue s) /\
  DramQueues.busStateNext s' = DramQueues.busStateNext s /\ nextReqEvent s' = nextReqEvent s.
Proof.
  unfold DramQueues.processRespondEvent. intros E. apply bind_ok in E as (p & _ & E).
  apply bind_ok in E as (s1 & E1 & E). apply bind_ok in E as (s2 & E2 & E). injection E as <-.
  assert (readQueue s1 = readQueue s /\ writeQueue s1 = writeQueue s /\
    DramQueues.respQueue s1 = DramQueues.respQueue s /\
    DramQueues.busStateNext s1 = DramQueues.busStateNext s /\ nextReqEvent s1 = nextReqEvent s) as (A1 & A2 & A3 & A4 & A5).
  { unfold respond in E1. destruct (burstHelper p) as [h|]; [|by injection E1 as <-].
    apply bind_ok in E1 as (bh & _ & E1). destruct (_ =? _); by injection E1 as <-. }
  assert (readQueue s2 = readQueue s1 /\ writeQueue s2 = writeQueue s1 /\
    DramQueues.respQueue s2 = tail (DramQueues.respQueue s1) /\
    DramQueues.busStateNext s2 = DramQueues.busStateNext s1 /\ nextReqEvent s2 = nextReqEvent s1) as (B1 & B2 & B3 & B4 & B5).
  { cbn in E2. destruct (tail (DramQueues.respQueue s1)) eqn:Et; [injection E2 as <-; cbn; by rewrite ?Et|].
    apply bind_ok in E2 as (_ & _ & E2). injection E2 as <-. cbn. done. }
  destruct (retryRdReq s2); cbn; rewrite <- A1, <- A2, <- A3, <- A4, <- A5; done.
Qed.

(** The loop over the priorities. *)
Lemma pick_next_pure choose f l :
  (forall i q, (i, q) ∈ l -> choose q = Ok (f q)) -> pick_next choose l = Ok (pick f l).
Proof.
  induction l as [|[i q] l IH]; intros H; cbn; [done|]. rewrite (H i q) by left. cbn.
  destruct (f q); [done|]. apply IH. intros. eapply H. right. done.
Qed.

Lemma pick_none f l : pick f l = None -> forall i q, (i, q) ∈ l -> f q = None.
Proof.
  induction l as [|[i q] l IH]; cbn; intros H i' q' Hin; [by inversion Hin|].
  destruct (f q) eqn:E; [done|]. apply elem_of_cons in Hin as [[= -> ->]|Hin]; [done|]. by eapply IH.
Qed.
End Queues.

(** ** The invariant of the controller *)

Section Whole.
Context (c : config) (k : timing) (sort : list Command -> list Command).
Context (Hc : DramSafety.config_ok c) (Hk : timing_ok k) (Hf : refresh_ok k).
Context (Hsort : forall l, sort l ≡ₚ l /\ StronglySorted (fun x y => timeStamp x <= timeStamp y) (sort l)).
Context (Hpd : enableDRAMPowerdown k = false) (Hbanks : banksPerRank c <= 32).
Context (Hroom : readBufferSize c <= 250) (Hhigh : 0 <= writeHighThreshold c).

(** A rank refreshes. *)
Definition refreshes (w : Controller) : Prop :=
  exists j r, ranks (bus (device w)) !! j = Some r /\ inRefIdleState r = false.

(** The counters of a rank agree with the queues. *)
Definition counted (q : DramQueues.t) (x : Ctrl) : Prop :=
  forall j r, ranks (bus x) !! j = Some r ->
    readEntries r = queued j (readQueue q) + Z.of_nat (length (reads_of j (DramPower.respQueue x))) /\
    writeEntries r = queued j (writeQueue q).

(** The views of the components agree. *)
Record linked (q : DramQueues.t) (x : Ctrl) : Prop := {
  ln_resp : fst <$> DramPower.respQueue x = DramQueues.respQueue q;
  ln_reads : forall p, p ∈ R q -> packet_ok c p /\ read p = true;
  ln_writes : forall p, p ∈ W q -> packet_ok c p /\ read p = false;
  ln_bus : DramQueues.busStateNext q = WRITE -> W q <> [];
  ln_counted : counted q x
}.

Record whole_ok (w : Controller) (acc : list nat) : Prop := {
  wh_queues : DramSafety.good c (queues w) acc;
  wh_device : world_ok c k (mkWorld (curTick w) (device w));
  wh_linked : linked (queues w) (device w);
  wh_next : nextReqEvent (queues w) = bool_decide (is_Some (nextReqAt w));
  wh_drain : forall j r, ranks (bus (device w)) !! j = Some r ->
    refreshState (machine r) = REF_DRAIN -> is_Some (nextReqAt w);
  wh_progress : R (queues w) <> [] \/ DramQueues.busStateNext (queues w) = WRITE ->
    is_Some (nextReqAt w) \/ refreshes w
}.

Lemma banks_range : 0 < banksPerRank c < 256.
Proof. pose proof (DramSafety.co_banks c Hc). lia. Qed.

Lemma queued_le j qs : 0 <= queued j qs <= Z.of_nat (length (concat qs)).
Proof. unfold queued. pose proof (length_filter (fun p => Z.to_nat (rank p) = j) (concat qs)). lia. Qed.

Lemma queued_perm j qs qs' p :
  concat qs ≡ₚ p :: concat qs' ->
  queued j qs = queued j qs' + if decide (Z.to_nat (rank p) = j) then 1 else 0.
Proof.
  intros H. unfold queued. rewrite (Permutation_length (filter_Permutation _ _ _ H)), filter_cons.
  case_decide; cbn; lia.
Qed.

(** *** Time passes *)

Lemma time_passes_ok t w acc :
  whole_ok w acc -> allowed c k (TimePasses t) w ->
  exists w', perform c k sort (TimePasses t) (w, acc) = Ok (w', acc) /\ whole_ok w' acc.
Proof.
  intros [H1 H2 H3 H4 H5 H6] [Hl Hn]. eexists. split; [done|].
  destruct (advance_ok c k sort Hk Hf Hsort Hpd banks_range t _ H2 Hl) as (w1 & E & Hw1). injection E as <-. by split.
Qed.

(** *** A request arrives *)

Lemma count_packets_ok t x q q' :
  world_ok c k (mkWorld t x) -> world_ok c k (mkWorld t (with_bus (count_packets q q' (bus x)) x)).
Proof.
  intros [W1 W2 W3 W4 W5]. split; cbn in *; try done.
  - apply bus_ok_later; [done|by rewrite length_imap|]. intros j r Hj.
    rewrite list_lookup_imap in Hj. apply fmap_Some in Hj as (r0 & H0 & ->). exists r0.
    split; [done|]. split; [apply (bu_array _ _ _ W1 _ _ H0)|apply later_refl].
  - intros j r Hj. rewrite list_lookup_imap in Hj. apply fmap_Some in Hj as (r0 & H0 & ->).
    exact (W2 j r0 H0).
Qed.

Lemma counted_grows q q' x :
  counted q x -> length (DramPower.respQueue x) = length (DramQueues.respQueue q') ->
  Z.of_nat (length (R q') + length (DramQueues.respQueue q')) <= readBufferSize c ->
  Z.of_nat (length (W q')) <= writeBufferSize c ->
  counted q' (with_bus (count_packets q q' (bus x)) x).
Proof.
  intros H Hl HR HW j r Hj. cbn in Hj. rewrite list_lookup_imap in Hj. apply fmap_Some in Hj as (r0 & H0 & ->).
  destruct (H j r0 H0) as [E1 E2]. cbn [readEntries writeEntries with_entries with_bus DramPower.respQueue].
  rewrite E1, E2.
  pose proof (queued_le j (readQueue q')). pose proof (queued_le j (writeQueue q')).
  pose proof (reads_length j (DramPower.respQueue x)).
  pose proof (DramSafety.co_read c Hc). pose proof (DramSafety.co_write c Hc).
  split; (rewrite u32_id; [lia|unfold is_u32; lia]).
Qed.

Lemma arrive_ok r w acc :
  whole_ok w acc -> allowed c k (Arrive r) w ->
  exists w' acc', perform c k sort (Arrive r) (w, acc) = Ok (w', acc') /\ whole_ok w' acc'.
Proof.
  intros [H1 H2 [L1 L2 L3 L4 L5] H4 H5 H6] [Hr Hfresh].
  destruct (DramSafety.enqueueReq_ok c Hc (curTick w) r (queues w) acc H1 Hr Hfresh) as (b & q & E & Hg & Hp).
  pose proof (enqueue_grows c _ _ _ _ _ E) as [G1 G2 G3 G4 G5 G6].
  cbn [perform]. unfold accept. rewrite E. cbn [mbind res_bind]. eexists _, _. split; [done|].
  set (at_ := match nextReqAt w with Some t => Some t | None => if nextReqEvent q then Some (curTick w) else None end).
  assert (is_Some (nextReqAt w) -> is_Some at_) as Hat by (unfold at_; by intros [t ->]).
  assert (nextReqEvent q = true -> is_Some at_) as Hat' by (unfold at_; intros ->; by destruct (nextReqAt w)).
  split; cbn [queues device nextReqAt curTick].
  - done.
  - by apply count_packets_ok.
  - split; cbn [DramPower.respQueue with_bus].
    + by rewrite G2.
    + intros p Hin. destruct (G4 p Hin); [auto|]. by apply decoded_ok.
    + intros p Hin. destruct (G5 p Hin); [auto|]. by apply decoded_ok.
    + rewrite G1. auto.
    + destruct (DramSafety.gd_inv _ _ _ Hg) as [Hcore _]. apply counted_grows; [done| |apply Hcore..].
      rewrite G2, <- L1. by rewrite length_fmap.
  - destruct G3 as [G3|G3]; rewrite G3; [symmetry; apply bool_decide_eq_true; auto|].
    rewrite H4. unfold at_. rewrite G3, H4. destruct (nextReqAt w); done.
  - intros j r' Hj Hd. cbn in Hj. rewrite list_lookup_imap in Hj. apply fmap_Some in Hj as (r0 & H0 & ->).
    apply Hat. by eapply H5.
  - intros Hn. destruct Hp as [Hp|Hp]; [by left; apply Hat'|]. rewrite G1 in Hn.
    assert (R (queues w) <> [] \/ DramQueues.busStateNext (queues w) = WRITE) as Hn'.
    { destruct Hn as [Hn|Hn]; [left|by right]. intros Ez. rewrite Ez in Hp. symmetry in Hp. by apply Permutation_nil in Hp. }
    destruct (H6 Hn') as [Hs|(j & r0 & Hj & Hi)]; [left; auto|right]. eexists j, _. cbn.
    rewrite list_lookup_imap, Hj. by split.
Qed.

(** *** An event of a rank *)

Lemma fire_world now e j m x w' :
  run_op c k sort (Fire j e m) (mkWorld now x) = Ok w' ->
  exists r r' b, ranks (bus x) !! j = Some r /\
    match e with
    | Power => processPowerEvent k now m (set_event e None r)
    | _ => r ← handle k sort now e m (set_event e None r); Ok (r, false)
    end = Ok (r', b) /\
    w' = mkWorld now (with_bus (with_ranks (<[j := r']> (ranks (bus x))) (bus x)) x) /\
    readEntries r' = readEntries r /\ writeEntries r' = writeEntries r /\
    (inRefIdleState r = false -> inRefIdleState r' = false \/ b = negb (nextReqScheduled m)) /\
    (refreshState (machine r') = REF_DRAIN -> refreshState (machine r) = REF_DRAIN \/ nextReqScheduled m = true) /\
    (b = true -> nextReqScheduled m = false).
Proof.
  cbn [run_op]. unfold on_rank. cbn [clock ctrl]. intros E. apply bind_ok in E as (s & E & E2). injection E2 as <-.
  apply bind_ok in E as (r & Er%deref_ok & E). apply bind_ok in E as (r' & E1 & E). injection E as <-.
  exists r, r'. destruct (decide (e = Power)) as [->|Hne].
  - cbn [handle] in E1. apply bind_ok in E1 as ([r1 b] & E1 & E). injection E as <-. exists b.
    pose proof (power_kick _ _ _ _ _ _ E1) as Hb.
    apply power_follows in E1 as H. destruct H as (H1 & H2 & H3 & H4). cbn in H1, H2.
    do 5 (split; [done|]). split; [exact H3|]. split; [|done]. intros Hd. left. by apply H4.
  - exists false. apply handle_follows in E1 as H; [|done]. destruct H as [H1 H2 H3 H4]. cbn in H1, H2.
    split; [done|]. split; [destruct e; try done; by rewrite E1|]. do 3 (split; [done|]).
    split; [intros Hi; left; by apply H3|]. split; [|done]. intros Hd. destruct (H4 Hd); auto.
Qed.

Lemma rank_event_ok d j e w acc :
  whole_ok w acc -> allowed c k (RankEvent d j e) w -> stopped k (RankEvent d j e) w = None ->
  exists w', perform c k sort (RankEvent d j e) (w, acc) = Ok (w', acc) /\ whole_ok w' acc.
Proof.
  intros [H1 H2 [L1 L2 L3 L4 L5] H4 H5 H6] Hl Hst. cbn [allowed stopped] in Hl, Hst.
  pose proof (fire_ok c k sort Hk Hf Hsort Hpd banks_range j e _ _ H2 Hl) as Hfire. rewrite Hst in Hfire.
  destruct Hfire as (w1 & E & Hw1).
  apply fire_world in E as (r & r' & b & Hr & E & -> & Er & Ew & Hidle & Hdrain & Hb).
  cbn [perform]. unfold fire_event. rewrite Hr. cbn [deref mbind res_bind]. rewrite E. cbn [mbind res_bind].
  eexists. split; [done|]. set (rs := <[j := r']> (ranks (bus (device w)))) in *.
  assert (forall i o, rs !! i = Some o -> exists o0, ranks (bus (device w)) !! i = Some o0 /\
    (i = j /\ o = r' /\ o0 = r \/ o = o0)) as Hrs.
  { intros i o Ho. apply list_lookup_insert_Some in Ho as [(<- & <- & _)|[_ Ho]]; eauto 8. }
  assert (nextReqScheduled (memory_of d w) = bool_decide (is_Some (nextReqAt w))) as Hm by done.
  set (at_ := if b then Some (curTick w) else nextReqAt w).
  assert (whole_ok (mkController (if b then with_next true (queues w) else queues w)
    (with_bus (with_ranks rs (bus (device w))) (device w)) at_ (curTick w)) acc) as H;
    [|destruct b; exact H].
  assert (is_Some (nextReqAt w) -> is_Some at_) as Hat by (unfold at_; by destruct b).
  split; cbn [queues device nextReqAt curTick].
  - destruct b; [by apply DramSafety.good_next|done].
  - exact Hw1.
  - assert (counted (queues w) (with_bus (with_ranks rs (bus (device w))) (device w))) as Hcnt.
    { intros i o Ho. destruct (Hrs i o Ho) as (o0 & Ho0 & [(-> & -> & ->)| ->]); [|by apply L5].
      rewrite Er, Ew. by apply L5. }
    destruct b; by split.
  - unfold at_. destruct b; [done|]. done.
  - intros i o Ho Hd. destruct (Hrs i o Ho) as (o0 & Ho0 & [(-> & -> & ->)| ->]); [|apply Hat; by eapply H5].
    destruct (Hdrain Hd) as [Hd'|Hd']; [apply Hat; by eapply H5|]. rewrite Hm in Hd'. apply bool_decide_eq_true in Hd'. auto.
  - intros Hn. assert (R (queues w) <> [] \/ DramQueues.busStateNext (queues w) = WRITE) as Hn' by (by destruct b).
    destruct (H6 Hn') as [?|(i & o & Ho & Hi)]; [left; auto|].
    destruct (decide (i = j)) as [->|Hne].
    + rewrite Hr in Ho. injection Ho as <-. destruct (Hidle Hi) as [Hi'|Hb'].
      * right. exists j, r'. split; [|done]. cbn. unfold rs. apply list_lookup_insert_eq. by eapply lookup_lt_Some.
      * left. unfold at_. destruct b; [done|]. rewrite Hm in Hb'. symmetry in Hb'. apply negb_false_iff, bool_decide_eq_true in Hb'. done.
    + right. exists i, o. split; [|done]. cbn. unfold rs. by rewrite list_lookup_insert_ne.
Qed.

(** A refresh that is late. *)
Lemma rank_event_late d j e w acc f :
  whole_ok w acc -> allowed c k (RankEvent d j e) w -> stopped k (RankEvent d j e) w = Some f ->
  perform c k sort (RankEvent d j e) (w, acc) = Fail f.
Proof.
  intros Hw Hl Hst. cbn [allowed stopped] in Hl, Hst.
  pose proof (fire_ok c k sort Hk Hf Hsort Hpd banks_range j e _ _ (wh_device _ _ Hw) Hl) as Hfire.
  rewrite Hst in Hfire. destruct e; try discriminate. cbn [perform]. unfold fire_event.
  cbn in Hfire. unfold on_rank in Hfire. cbn in Hst. destruct (ranks (bus (device w)) !! j) as [r|]; [|discriminate].
  cbn [deref mbind res_bind] in *. cbn [handle].
  by destruct (processRefreshEvent _ _ _ _ _); [|injection Hfire as ->].
Qed.

(** *** The data of a read returns *)

Lemma respond_device now m s q x' :
  DramPower.processRespondEvent k now m (mkCtrl s q None) = Ok x' ->
  exists p t rest r r', q = (p, t) :: rest /\ ranks s !! Z.to_nat (rank p) = Some r /\
    DramPower.respQueue x' = rest /\ bus x' = with_ranks (<[Z.to_nat (rank p) := r']> (ranks s)) s /\
    refreshState (machine r') = refreshState (machine r) /\
    readEntries r' = u32 (readEntries r - 1) /\ writeEntries r' = writeEntries r.
Proof.
  unfold DramPower.processRespondEvent. cbn [DramPower.respQueue bus]. destruct q as [|[p t] rest]; [done|]. intros E.
  apply bind_ok in E as (s' & E & E1). apply bind_ok in E1 as (at_ & _ & E1). injection E1 as <-.
  unfold on_rank in E. apply bind_ok in E as (r & Er%deref_ok & E). apply bind_ok in E as (r' & E1 & E).
  injection E as <-. exists p, t, rest, r, r'. do 4 (split; [done|]).
  unfold respond_rank in E1. apply bind_ok in E1 as (mc & Em & E1). apply decr_steady in Em as [M1 M2 M3]. cbn in M3.
  apply bind_ok in E1 as (_ & _ & E1). destruct (_ && _ && _) in E1.
  - do 2 apply bind_ok in E1 as (_ & _ & E1). apply powerDownSleep_steady in E1 as [A1 A2 A3]. cbn in *. by rewrite A3.
  - injection E1 as <-. done.
Qed.

Lemma read_data_ok d w acc :
  whole_ok w acc -> allowed c k (ReadData d) w ->
  exists w', perform c k sort (ReadData d) (w, acc) = Ok (w', acc) /\ whole_ok w' acc.
Proof.
  intros [H1 H2 [L1 L2 L3 L4 L5] H4 H5 H6] Hl. cbn [allowed] in Hl.
  destruct (dram_respond_ok c k sort Hk Hf Hsort Hpd banks_range _ _ H2 Hl) as (w1 & E & Hw1).
  cbn [run_op clock ctrl] in E. apply bind_ok in E as (x & Ex & E). injection E as <-.
  apply respond_device in Ex as Hx. destruct Hx as (p & t & rest & r & r' & Eq & Hr & Ers & Eb & Erf & Er & Ew).
  assert (DramQueues.respQueue (queues w) = p :: (fst <$> rest)) as Eq' by (by rewrite <- L1, Eq).
  pose proof (DramSafety.gd_event _ _ _ H1) as Hev. rewrite Eq', bool_decide_eq_true_2 in Hev by done.
  destruct (DramSafety.controller_step_ok c Hc (DramSafety.Response (curTick w)) (queues w) acc H1 I)
    as (q & acc' & Es & Hg). cbn [DramSafety.step] in Es. rewrite Hev in Es. apply bind_ok in Es as (q1 & Es & E1).
  injection E1 as <- <-. apply respond_queues in Es as Hq. cbn in Hq. destruct Hq as (Q1 & Q2 & Q3 & Q4 & Q5).
  cbn [perform]. unfold processRespondEvent. rewrite Ex. cbn [mbind res_bind]. rewrite Es. cbn [mbind res_bind].
  eexists. split; [done|]. rewrite Eq' in Q3. cbn in Q3.
  assert (forall i o, ranks (bus x) !! i = Some o -> exists o0, ranks (bus (device w)) !! i = Some o0 /\
    refreshState (machine o) = refreshState (machine o0) /\ writeEntries o = writeEntries o0 /\
    readEntries o = if decide (Z.to_nat (rank p) = i) then u32 (readEntries o0 - 1) else readEntries o0) as Hrs.
  { intros i o Ho. rewrite Eb in Ho. cbn in Ho. apply list_lookup_insert_Some in Ho as [(<- & <- & _)|[Hne Ho]].
    - exists r. by rewrite decide_True by done.
    - exists o. by rewrite decide_False by done. }
  split; cbn [queues device nextReqAt curTick].
  - done.
  - exact Hw1.
  - split; rewrite ?Q1, ?Q2, ?Q4; try done; [by rewrite Ers, Q3|].
    intros i o Ho. destruct (Hrs i o Ho) as (o0 & Ho0 & _ & -> & ->). destruct (L5 i o0 Ho0) as [E1 E2].
    rewrite Q1, Q2, Ers. split; [|done]. rewrite Eq, reads_cons in E1.
    destruct (decide (Z.to_nat (rank p) = i)); [|done]. cbn [length] in E1.
    pose proof (DramSafety.cr_read_room _ _ (DramSafety.in_core _ _ (DramSafety.gd_inv _ _ _ H1))) as Hb.
    pose proof (queued_le i (readQueue (queues w))). pose proof (reads_length i rest).
    assert (length (DramQueues.respQueue (queues w)) = S (length rest)) as Hlen by (rewrite Eq'; cbn; by rewrite length_fmap).
    rewrite u32_id; [lia|unfold is_u32; lia].
  - by rewrite Q5.
  - intros i o Ho Hd. destruct (Hrs i o Ho) as (o0 & Ho0 & Ed & _). rewrite Ed in Hd. by eapply H5.
  - rewrite Q1, Q4. intros Hn. destruct (H6 Hn) as [?|(i & o & Ho & Hi)]; [by left|right].
    destruct (lookup_lt_is_Some_2 (ranks (bus x)) i) as [o' Ho'].
    { rewrite Eb. cbn. rewrite length_insert. by eapply lookup_lt_Some. }
    exists i, o'. split; [done|]. destruct (Hrs i o' Ho') as (o0 & Ho0 & Ed & _). rewrite Ho in Ho0. injection Ho0 as <-.
    unfold inRefIdleState in *. by rewrite Ed.
Qed.

(** *** The next request *)

(** The scheduler is asked about queues of well-formed packets. *)
Lemma queue_sched now x l :
  world_ok c k (mkWorld now x) -> now + tRP k <= MaxTick ->
  (forall j r b, ranks (bus x) !! j = Some r -> b ∈ banks (array r) ->
     actAllowedAt b <= MaxTick /\ preAllowedAt b + tRP k <= MaxTick) ->
  (forall p, p ∈ l -> packet_ok c p) -> sched_ok c k now l (bus x).
Proof.
  intros [W1 W2 _ _ _] Hn Ht Hp. cbn in *. pose proof (DramSafety.co_ranks c Hc). pose proof (DramSafety.co_banks c Hc).
  pose proof (ok_rp k Hk). split; try done; try nia.
  - pose proof (bu_ranks _ _ _ W1). lia.
  - intros i r Hr. pose proof (ar_banks _ _ _ (bu_array _ _ _ W1 _ _ Hr)). lia.
  - intros i r b Hr Hb. destruct (Ht i r b Hr Hb). unfold act_at. destruct (_ =? _); lia.
Qed.

(** The packet that the loop over the priorities ends with is for a rank that does
    not refresh; without one, every packet is for a rank that does. *)
Lemma next_packet now dir extra x qs :
  (forall l, l ∈ qs -> sched_ok c k now l (bus x)) ->
  exists o, pick_next (fun l => DramRank.chooseNext c k now dir extra l (bus x)) (by_priority qs) = Ok o /\
    match o with
    | None => forall p, p ∈ concat qs -> available (bus x) p = false
    | Some (i, j) => exists l p, qs !! i = Some l /\ l !! j = Some p /\ available (bus x) p = true
    end.
Proof.
  intros Hs. rewrite (pick_next_pure _ (fun l => next_ref k now dir extra l (bus x))).
  2:{ intros i l Hl%DramSafety.by_priority_spec. apply choose_next_ok, Hs. by eapply list_elem_of_lookup_2. }
  eexists. split; [done|]. destruct (pick _ _) as [[i j]|] eqn:Ep.
  - apply DramSafety.pick_spec in Ep as (l & Hl%DramSafety.by_priority_spec & Hj).
    destruct (choose_next_ok c k now dir extra l (bus x)) as (_ & _ & H).
    { apply Hs. by eapply list_elem_of_lookup_2. }
    destruct (H j Hj) as (p & Hp & Ha). eauto.
  - intros p Hp. apply elem_of_concat in Hp as (l & Hpl & Hl).
    apply list_elem_of_lookup in Hl as Hi. destruct Hi as [i Hi].
    destruct (choose_next_ok c k now dir extra l (bus x) (Hs l Hl)) as (_ & [H _] & _). apply H; [|done].
    apply (pick_none _ _ Ep i l). unfold by_priority. apply elem_of_reverse.
    apply list_elem_of_lookup. exists i. by rewrite list_lookup_imap, Hi.
Qed.

(** An available packet is for an idle rank, and the others for ranks that refresh. *)
Lemma available_rank now x p :
  world_ok c k (mkWorld now x) -> packet_ok c p ->
  exists r, ranks (bus x) !! Z.to_nat (rank p) = Some r /\ available (bus x) p = inRefIdleState r.
Proof.
  intros [W1 _ _ _ _] (Hr & _). cbn in W1. pose proof (bu_ranks _ _ _ W1).
  destruct (lookup_lt_is_Some_2 (ranks (bus x)) (Z.to_nat (rank p))) as [r E]; [lia|].
  exists r. split; [done|]. unfold available. by rewrite E.
Qed.

Lemma serve_read_whole now i j l p q x acc :
  DramSafety.good c q acc -> world_ok c k (mkWorld now x) -> linked q x -> quiet x -> 0 < now ->
  DramQueues.busStateNext q = READ ->
  readQueue q !! i = Some l -> l !! j = Some p -> available (bus x) p = true ->
  exists q' x', DramPower.serve_read c k now p (i, j) (readQueue q) x = Ok x' /\
    DramQueues.serve_read c i j q = Ok q' /\
    DramSafety.good c q' acc /\ world_ok c k (mkWorld now x') /\ linked q' x' /\ steady_all (bus x) (bus x').
Proof.
  intros Hg Hw [L1 L2 L3 L4 L5] Hq Hn Hbus Hl Hj Ha.
  assert (p ∈ R q) as Hin by (apply elem_of_concat; exists l; split; by eapply list_elem_of_lookup_2).
  destruct (L2 p Hin) as [Hp Hrd]. destruct (DramSafety.gd_inv _ _ _ Hg) as [Hcore _].
  destruct (DramSafety.serve_read_ok c Hc i j l p q acc Hg Hl Hj) as (q' & Eq & Hg').
  destruct (serve_read_queues c i j l p q q' Hl Hj Eq) as (HR & HW & Hresp & Hnext).
  destruct (available_rank now x p Hw Hp) as (r & Hr & Hidle).
  destruct (dram_serve_read_ok c k sort Hk Hf Hsort Hpd banks_range p (i, j) (readQueue q) (mkWorld now x) Hw)
    as (x' & Ex & Hx'); [|done|].
  { split; [done|]. split; [done|]. split; [done|]. split; [|split].
    - pose proof (DramSafety.cr_sizes _ _ Hcore) as Hsz. rewrite Forall_forall in Hsz. by apply Hsz.
    - intros _. pose proof (DramSafety.cr_read_room _ _ Hcore). rewrite HR in *. cbn in *.
      rewrite <- L1, length_fmap in *. lia.
    - cbn. intros r0 Hr0. rewrite Hr in Hr0. injection Hr0 as <-. congruence. }
  cbn [clock ctrl] in Ex, Hx'. destruct (serve_read_steady _ _ _ _ _ _ _ _ Ex) as [Hst [t Ht]].
  exists q', x'. do 4 (split; [done|]). split; [|done]. split.
  - rewrite Ht, fmap_app, L1, Hresp. done.
  - intros o Ho. apply L2. rewrite HR. by right.
  - by rewrite HW.
  - rewrite HW. intros Hb. destruct (Hnext Hb) as [?|[Hhi _]]; [congruence|].
    destruct (DramSafety.gd_inv _ _ _ Hg') as [Hcore' _]. rewrite (DramSafety.cr_total_writes _ _ Hcore'), HW in Hhi.
    intros Ez. rewrite Ez in Hhi. cbn in Hhi. lia.
  - intros n o Ho. destruct Hst as [_ Hst]. destruct (Hst n o Ho) as (o0 & Ho0 & [S1 S2 _]).
    destruct (L5 n o0 Ho0) as [E1 E2]. rewrite S1, S2, HW, E1, E2, Ht, reads_app, length_app, reads_cons.
    split; [|done]. rewrite (queued_perm n _ _ _ HR). destruct (decide (Z.to_nat (rank p) = n)); cbn; lia.
Qed.

Lemma serve_write_whole now d i j l p q x acc :
  DramSafety.good c q acc -> world_ok c k (mkWorld now x) -> linked q x -> quiet x -> 0 < now ->
  writeQueue q !! i = Some l -> l !! j = Some p -> available (bus x) p = true ->
  exists q' x', DramPower.serve_write c k now p (i, j) (writeQueue q) x = Ok x' /\
    DramQueues.serve_write c d i j q = Ok q' /\
    DramSafety.good c q' acc /\ world_ok c k (mkWorld now x') /\ linked q' x' /\
    forall n o, ranks (bus x') !! n = Some o -> exists o0, ranks (bus x) !! n = Some o0 /\
      refreshState (machine o) = refreshState (machine o0).
Proof.
  intros Hg Hw [L1 L2 L3 L4 L5] Hq Hn Hl Hj Ha.
  assert (p ∈ W q) as Hin by (apply elem_of_concat; exists l; split; by eapply list_elem_of_lookup_2).
  destruct (L3 p Hin) as [Hp Hrd]. destruct (DramSafety.gd_inv _ _ _ Hg) as [Hcore _].
  destruct (DramSafety.serve_write_ok c Hc d i j l p q acc Hg Hl Hj) as (q' & Eq & Hg').
  destruct (serve_write_queues c d i j l p q q' Hl Hj Eq) as (HW & HR & Hresp & Hnext).
  destruct (available_rank now x p Hw Hp) as (r & Hr & Hidle).
  destruct (dram_serve_write_ok c k sort Hk Hf Hsort Hpd banks_range p (i, j) (writeQueue q) (mkWorld now x) Hw)
    as (x' & Ex & Hx').
  { split; [done|]. split; [done|]. split; [done|]. split; [|split].
    - pose proof (DramSafety.wo_within _ _ _ (DramSafety.cr_bursts _ _ Hcore)) as Hsz. rewrite Forall_forall in Hsz.
      by apply (Hsz p Hin).
    - congruence.
    - cbn. intros r0 Hr0. rewrite Hr in Hr0. injection Hr0 as <-. congruence. }
  cbn [clock ctrl] in Ex, Hx'. destruct (serve_write_steady _ _ _ _ _ _ _ _ Ex) as (_ & Ers & Hst).
  exists q', x'. do 4 (split; [done|]). split; [|intros n o Ho; destruct (Hst n o Ho) as (o0 & ? & _ & ? & _); eauto]. split.
  - by rewrite Ers, L1, Hresp.
  - by rewrite HR.
  - intros o Ho. apply L3. rewrite HW. by right.
  - intros Hb Ez. destruct (DramSafety.gd_inv _ _ _ Hg') as [Hcore' _].
    apply (Hnext Hb). by rewrite (DramSafety.cr_total_writes _ _ Hcore'), Ez.
  - intros n o Ho. destruct (Hst n o Ho) as (o0 & Ho0 & S1 & _ & S2). destruct (L5 n o0 Ho0) as [E1 E2].
    rewrite S1, S2, HR, E1, Ers. split; [done|]. rewrite E2, (queued_perm n _ _ _ HW).
    pose proof (queued_le n (writeQueue q')). pose proof (DramSafety.cr_write_room _ _ Hcore) as Hb.
    rewrite HW in Hb. cbn in Hb. pose proof (DramSafety.co_write c Hc).
    destruct (decide (Z.to_nat (rank p) = n)), (decide (n = Z.to_nat (rank p))); try congruence; [|lia].
    rewrite u32_id; [lia|unfold is_u32; lia].
Qed.

(** The part after the ranks were checked. *)
Lemma serve_next_ok now d extra q x acc :
  DramSafety.good c q acc -> world_ok c k (mkWorld now x) -> linked q x -> quiet x -> 0 < now ->
  DramQueues.busStateNext q = busState q -> now + tRP k <= MaxTick ->
  (forall j r b, ranks (bus x) !! j = Some r -> b ∈ banks (array r) ->
     actAllowedAt b <= MaxTick /\ preAllowedAt b + tRP k <= MaxTick) ->
  exists o, serve_next c k now d extra q x = Ok o /\
    match o with
    | None => R q <> [] \/ busState q = WRITE ->
        exists j r, ranks (bus x) !! j = Some r /\ inRefIdleState r = false
    | Some (q', x') => DramSafety.good c q' acc /\ world_ok c k (mkWorld now x') /\ linked q' x'
    end.
Proof.
  intros Hg Hw Hln Hq Hn Hbus Hr Ht. pose proof Hln as [L1 L2 L3 L4 L5]. destruct (DramSafety.gd_inv _ _ _ Hg) as [Hcore _].
  assert (forall qs p, (forall p, p ∈ concat qs -> packet_ok c p) -> p ∈ concat qs -> (forall p, p ∈ concat qs ->
    available (bus x) p = false) -> exists j r, ranks (bus x) !! j = Some r /\ inRefIdleState r = false) as Hbusy.
  { intros qs p Hqs Hp Hun. destruct (available_rank now x p Hw (Hqs p Hp)) as (r & Er & Ea).
    exists (Z.to_nat (rank p)), r. split; [done|]. rewrite <- Ea. auto. }
  assert (forall qs, (forall p, p ∈ concat qs -> packet_ok c p) -> forall l, l ∈ qs -> sched_ok c k now l (bus x)) as Hsched.
  { intros qs Hqs l Hl. eapply queue_sched; try done. intros p Hp. apply Hqs, elem_of_concat. eauto. }
  unfold serve_next. destruct (busState q) eqn:Eb.
  - rewrite (DramSafety.cr_total_reads _ _ Hcore). destruct (Z.of_nat (length (R q)) =? 0) eqn:E0.
    { destruct (negb _ && _) eqn:Ew.
      - eexists. split; [done|]. split; [by apply DramSafety.good_bus|]. split; [done|]. split; try done.
        cbn. intros _. apply andb_true_iff in Ew as [Ew _]. rewrite (DramSafety.cr_total_writes _ _ Hcore) in Ew.
        intros Ez. by rewrite Ez in Ew.
      - exists None. split; [done|]. intros [Hne|?]; [|done]. by destruct (R q). }
    destruct (next_packet now READ extra x (readQueue q)) as (o & -> & Ho).
    { apply Hsched. intros p Hp. by apply L2. }
    cbn [mbind res_bind]. destruct o as [[i j]|].
    + destruct Ho as (l & p & Hl & Hj & Ha). unfold chosen. rewrite Hl. cbn [deref mbind res_bind]. rewrite Hj.
      destruct (serve_read_whole now i j l p q x acc) as (q' & x' & Ex & Eq & Hg' & Hw' & Hl' & _); try done.
      cbn [deref mbind res_bind]. rewrite Ex. cbn [mbind res_bind]. rewrite Eq. eexists. by split.
    + exists None. split; [done|]. intros _. destruct (R q) as [|p rest] eqn:ER; [cbn in E0; done|].
      apply (Hbusy (readQueue q) p); rewrite ER; [intros o Hin; by apply L2|left|done].
  - destruct (next_packet now WRITE extra x (writeQueue q)) as (o & -> & Ho).
    { apply Hsched. intros p Hp. by apply L3. }
    cbn [mbind res_bind]. destruct o as [[i j]|].
    + destruct Ho as (l & p & Hl & Hj & Ha). unfold chosen. rewrite Hl. cbn [deref mbind res_bind]. rewrite Hj.
      destruct (serve_write_whole now d i j l p q x acc) as (q' & x' & Ex & Eq & Hg' & Hw' & Hl' & _); try done.
      cbn [deref mbind res_bind]. rewrite Ex. cbn [mbind res_bind]. rewrite Eq. eexists. by split.
    + exists None. split; [done|]. intros _. destruct (W q) as [|p rest] eqn:EW; [by destruct (L4 Hbus)|].
      apply (Hbusy (writeQueue q) p); rewrite EW; [intros o Hin; by apply L3|left|done].
Qed.

(** The handler returns early. *)
Lemma early_return now q x s acc :
  DramSafety.good c q acc -> world_ok c k (mkWorld now x) -> linked q x -> nextReqEvent q = false ->
  (forall j r, ranks (bus x) !! j = Some r -> exists r0, ranks s !! j = Some r0 /\ checked r0 r) ->
  (R q <> [] \/ DramQueues.busStateNext q = WRITE -> exists j r, ranks (bus x) !! j = Some r /\ inRefIdleState r = false) ->
  whole_ok (mkController q x None now) acc.
Proof.
  intros H1 H2 H3 H4 H5 H6. split; cbn; try done; [|intros Hn; right; by apply H6].
  intros j r Hj Hd. destruct (H5 j r Hj) as (r0 & _ & Hck). by destruct (ck_drain _ _ Hck).
Qed.

(** A packet was served, or the bus turns: the next request follows. *)
Lemma served now t q x acc :
  DramSafety.good c q acc -> world_ok c k (mkWorld now x) -> linked q x ->
  let q := with_next true q in
  whole_ok (mkController (if retryWrReq q && (totalWriteQueueSize (qos q) <? writeBufferSize c)
    then with_retry (retryRdReq q) false (S (retriesSent q)) q else q) x (Some t) now) acc.
Proof.
  intros Hg Hw [L1 L2 L3 L4 L5] q'. assert (DramSafety.good c q' acc) as Hg' by (by apply DramSafety.good_next).
  destruct (_ && _); split; cbn; try done; try (by left); by apply DramSafety.good_retry.
Qed.

Lemma next_request_ok d w acc :
  whole_ok w acc -> allowed c k (NextRequest d) w ->
  exists w', perform c k sort (NextRequest d) (w, acc) = Ok (w', acc) /\ whole_ok w' acc.
Proof.
  intros [H1 H2 [L1 L2 L3 L4 L5] H4 H5 H6] (Hat & Hq & Hn & Hnow & Ht).
  cbn [perform]. unfold processNextReqEvent.
  set (q := turnaround (mkChoice None false d (fun _ => None)) (with_next false (queues w))).
  set (m := mkMemory (DramQueues.busStateNext q) (lastRank (bus (device w))) false d).
  assert (DramSafety.good c q acc) as Hg by (by apply DramSafety.good_bus, DramSafety.good_next).
  destruct (checks_ok c k m _ H2 Hq) as (s & n & E & Hw1 & Hq1 & Hpos & Hck). cbn [clock ctrl] in *.
  rewrite E. cbn [mbind res_bind]. set (x := with_bus s (device w)) in *.
  assert (linked q x) as Hln.
  { split; try done. intros j r Hj. destruct (Hck j r Hj) as (r0 & Hr0 & [_ C2 C3 _ _]). rewrite C2, C3. by apply L5. }
  destruct (n =? ranksPerChannel c) eqn:En.
  { eexists. split; [done|]. eapply early_return; try done. intros _.
    pose proof (DramSafety.co_ranks c Hc). destruct Hpos as (j & r0 & Hr0 & Hi); [lia|].
    destruct (lookup_lt_is_Some_2 (ranks (bus x)) j) as [r Hr].
    { pose proof (bu_ranks _ _ _ (wo_bus _ _ _ Hw1)) as B1. pose proof (bu_ranks _ _ _ (wo_bus _ _ _ H2)) as B2.
      cbn in B1, B2. apply lookup_lt_Some in Hr0. cbn. lia. }
    exists j, r. split; [done|]. destruct (Hck j r Hr) as (r1 & Hr1 & Hx). rewrite (ck_idle _ _ Hx). congruence. }
  match goal with |- context [serve_next c k _ d ?e q x] =>
    destruct (serve_next_ok (curTick w) d e q x acc) as (o & -> & Ho); try done end.
  { intros j r b Hj Hb. destruct (Hck j r Hj) as (r0 & Hr0 & Hx). rewrite (ck_array _ _ Hx) in Hb. by eapply Ht. }
  cbn [mbind res_bind]. destruct o as [[q' x']|]; (eexists; split; [done|]).
  - destruct Ho as (? & ? & ?). by apply served.
  - by eapply early_return.
Qed.

Lemma whole_step_ok o w acc :
  whole_ok w acc -> allowed c k o w ->
  match stopped k o w with
  | Some f => perform c k sort o (w, acc) = Fail f
  | None => exists w' acc', perform c k sort o (w, acc) = Ok (w', acc') /\ whole_ok w' acc'
  end.
Proof.
  intros Hw Ha. destruct o as [u|r|d|d|d j e]; [cbn [stopped]..|].
  - destruct (time_passes_ok u w acc Hw Ha) as (w' & ? & ?). eauto.
  - by apply arrive_ok.
  - destruct (next_request_ok d w acc Hw Ha) as (w' & ? & ?). eauto.
  - destruct (read_data_ok d w acc Hw Ha) as (w' & ? & ?). eauto.
  - destruct (stopped k (RankEvent d j e) w) eqn:Es; [by apply rank_event_late|].
    destruct (rank_event_ok d j e w acc Hw Ha Es) as (w' & ? & ?). eauto.
Qed.

(** ** The start *)

Definition start (t0 : Z) (s : DramRank.t) : Controller :=
  mkController (DramQueues.new c) (mkCtrl s [] None) None t0.

Lemma start_ranks t0 s j r :
  startup k t0 (DramPower.new c k) = Ok s -> ranks s !! j = Some r ->
  readEntries r = 0 /\ writeEntries r = 0 /\ refreshState (machine r) = REF_IDLE.
Proof.
  unfold startup. intros E Hj. apply bind_ok in E as (rs & E & E1). injection E1 as <-. cbn in Hj.
  apply (for_each_inv _ _ (Forall (fun r => readEntries r = 0 /\ writeEntries r = 0 /\ refreshState (machine r) = REF_IDLE))) in E.
  - rewrite Forall_forall in E. apply E. by eapply list_elem_of_lookup_2.
  - intros o rs1 rs2 Ho H E1. apply bind_ok in E1 as (o' & E2 & E1). injection E1 as <-. apply Forall_app. split; [done|].
    constructor; [|constructor]. apply list_elem_of_fmap in Ho as (i & -> & _).
    unfold rank_startup in E2. apply bind_ok in E2 as (_ & _ & E2).
    eapply schedule_steady in E2; [|apply steady_refl]. by destruct E2.
  - constructor.
Qed.

Lemma reached_ok t0 s w acc :
  0 <= t0 -> startup k t0 (DramPower.new c k) = Ok s -> reached c k sort (start t0 s) w acc -> whole_ok w acc.
Proof.
  intros Ht Es. induction 1 as [|o w acc w' acc' _ IH Ha E].
  - pose proof (DramSafety.co_ranks c Hc). assert (concat (replicate (numPriorities c) ([] : list DRAMPacket)) = []) as Hn
      by (induction (numPriorities c); cbn; done).
    destruct (start_ok c k sort Hk Hf Hsort Hpd banks_range t0 Ht ltac:(lia)) as (s' & Es' & Hw).
    rewrite Es in Es'. injection Es' as <-. split; cbn; try done.
    + by apply DramSafety.new_good.
    + split; cbn; rewrite ?Hn; try done; [by intros p ?%not_elem_of_nil..|].
      intros j r Hj. destruct (start_ranks t0 s j r Es Hj) as (-> & -> & _). unfold queued. cbn. by rewrite Hn.
    + intros j r Hj Hd. destruct (start_ranks t0 s j r Es Hj) as (_ & _ & Hi). congruence.
    + rewrite Hn. naive_solver.
  - pose proof (whole_step_ok o w acc IH Ha) as H. destruct (stopped k o w); [congruence|].
    destruct H as (w1 & acc1 & E1 & H1). congruence.
Qed.

(** A rank that refreshes has an event pending, or waits for the next request. *)
Lemma refresh_pending T rd r :
  rank_ok c k T rd r -> inRefIdleState r = false ->
  refreshState (machine r) = REF_DRAIN \/
  exists e, (e = Precharge \/ e = Refresh \/ e = Power) /\ is_Some (event_at r e).
Proof.
  intros H Hi. pose proof (in_state _ _ _ _ _ _ _ _ _ _ _ _ H) as Hst. unfold state_ok in Hst.
  unfold inRefIdleState in Hi. apply bool_decide_eq_false in Hi.
  destruct (event_at r Power) eqn:Ep; [right; exists Power; rewrite Ep; auto|].
  destruct (refreshState (machine r)); try done; [by left|right..].
  - destruct Hst as [_ Hr]. exists Refresh. rewrite Hr. auto.
  - destruct Hst as (_ & _ & _ & Hpre). exists Precharge. split; [auto|]. by destruct (event_at r Precharge).
  - destruct Hst as (_ & Hr & _). exists Refresh. rewrite Hr. auto.
  - destruct Hst as (_ & _ & _ & Hr). exists Refresh. auto.
Qed.

(** Something will happen: the next request is scheduled, or a rank refreshes and an
    event of it is pending. *)
Definition will_continue (w : Controller) : Prop :=
  is_Some (nextReqAt w) \/
  exists j r e, ranks (bus (device w)) !! j = Some r /\ inRefIdleState r = false /\
    (e = Precharge \/ e = Refresh \/ e = Power) /\ is_Some (event_at r e).

Lemma whole_continues w acc :
  whole_ok w acc -> R (queues w) <> [] \/ DramQueues.busStateNext (queues w) = WRITE -> will_continue w.
Proof.
  intros Hw Hn. destruct (wh_progress _ _ Hw Hn) as [?|(j & r & Hj & Hi)]; [by left|].
  destruct (refresh_pending _ _ r (wo_rank _ _ _ (wh_device _ _ Hw) j r Hj) Hi) as [Hd|(e & He & Hs)].
  - left. by eapply wh_drain.
  - right. exists j, r, e. done.
Qed.

(** C8: the memory controller works as a whole.  With ranks that do not power
    down, at most 32 banks per rank, a read buffer of at most 250 and no policy for
    the turnaround of the bus, for timings with [timing_ok] and [refresh_ok],
    from the start and under any requests and any order of events that the
    event queue allows while ticks fit in 64 bits, every step succeeds but a refresh
    event that comes too late, which stops with the fatal error or the failed
    assertion of [stopped]: no other assertion of the queues, the scheduler, the
    accesses or the refresh and power states fails.  The queues keep their bounds,
    every accepted request is answered once or still waits, commands keep
    the protocol of the device, and the counters of the ranks are the numbers of
    their packets.  While a read or a started batch of writes waits, the next request
    is scheduled or a rank refreshes with an event pending; while data is under way
    the response event is scheduled. *)
Theorem controller_composed t0 :
  0 <= t0 ->
  exists s, startup k t0 (DramPower.new c k) = Ok s /\
    forall w acc, reached c k sort (start t0 s) w acc ->
      (forall o, allowed c k o w ->
         match stopped k o w with
         | Some f => perform c k sort o (w, acc) = Fail f
         | None => exists st, perform c k sort o (w, acc) = Ok st
         end) /\
      Z.of_nat (length (R (queues w)) + length (DramQueues.respQueue (queues w))) <= readBufferSize c /\
      Z.of_nat (length (W (queues w))) <= writeBufferSize c /\
      DramSafety.balance (to <$> answers (queues w)) (DramSafety.packet_of <$> DramSafety.waiting (queues w)) acc /\
      (forall j r, ranks (bus (device w)) !! j = Some r ->
         protocol k (group_of k) (issued (array r)) /\ windowed k (issued (array r))) /\
      ForallOrdPairs (spaced k) (bursts (bus (device w))) /\
      counted (queues w) (device w) /\
      (R (queues w) <> [] \/ DramQueues.busStateNext (queues w) = WRITE -> will_continue w) /\
      (DramQueues.respQueue (queues w) <> [] -> is_Some (respondAt (device w))).
Proof.
  intros Ht. pose proof (DramSafety.co_ranks c Hc).
  destruct (start_ok c k sort Hk Hf Hsort Hpd banks_range t0 Ht ltac:(lia)) as (s & Es & _).
  exists s. split; [done|]. intros w acc Hr. apply (reached_ok t0 s w acc Ht Es) in Hr as Hw.
  pose proof Hw as [[[Hcore _] Hset _] Hdev [L1 _ _ _ L5] _ _ _].
  split; [|split; [apply Hcore|split; [apply Hcore|split; [done|split; [|split; [|split; [done|split]]]]]]].
  - intros o Ha. pose proof (whole_step_ok o w acc Hw Ha) as H1. destruct (stopped k o w); [done|].
    destruct H1 as (w' & acc' & ? & _). eauto.
  - intros j r Hj. pose proof (in_array _ _ _ _ _ _ _ _ _ _ _ _ (wo_rank _ _ _ Hdev j r Hj)) as Ha. split; apply Ha.
  - apply (wo_bus _ _ _ Hdev).
  - by eapply whole_continues.
  - intros Hne. pose proof (wo_respond _ _ _ Hdev) as Hat. cbn in Hat. rewrite Hat, <- L1 in *.
    by destruct (DramPower.respQueue (device w)).
Qed.

(** ** Runs that are computed *)

Definition req_okb (r : Req) : bool :=
  (0 <=? Packet.addr (pkt r)) && (Packet.addr (pkt r) <? 4611686018427387904) &&
  (1 <=? Packet.size (pkt r)) && (Packet.size (pkt r) <? 2147483648) && (qosValue r <? numPriorities c)%nat &&
  (Packet.isWrite (pkt r) || Packet.isRead (pkt r)) && negb (Packet.cacheResponding (pkt r)).

Definition ticks_fitb (w : Controller) : bool :=
  (curTick w + tRP k <=? MaxTick) &&
  forallb (fun r => forallb (fun b => (actAllowedAt b <=? MaxTick) && (preAllowedAt b + tRP k <=? MaxTick))
    (banks (array r))) (ranks (bus (device w))).

Definition allowedb (o : step) (w : Controller) : bool :=
  let now := curTick w in
  let world := mkWorld now (device w) in
  match o with
  | TimePasses t => legalb c (Advance t) world && not_before t (nextReqAt w)
  | Arrive r => req_okb r &&
      negb (existsb (Nat.eqb (ptr r)) (DramSafety.packet_of <$> DramSafety.waiting (queues w)))
  | NextRequest d => bool_decide (nextReqAt w = Some now) && quietb (device w) && (0 <? now) && ticks_fitb w
  | ReadData d => legalb c (Respond (memory_of d w)) world
  | RankEvent d j e => legalb c (Fire j e (memory_of d w)) world
  end.

Lemma req_okb_true r : req_okb r = true -> DramSafety.req_ok c r.
Proof.
  unfold req_okb. rewrite !andb_true_iff. intros [[[[[[H1 H2] H3] H4] H5] H6] H7].
  split; [lia|lia|by apply Nat.ltb_lt| |by apply negb_true_iff]. by apply orb_true_iff in H6.
Qed.

Lemma ticks_fitb_true w : ticks_fitb w = true -> ticks_fit k w.
Proof.
  unfold ticks_fitb. rewrite andb_true_iff, forallb_forall. intros [H1 H2]. split; [lia|]. intros j r b Hj Hb.
  specialize (H2 r ltac:(apply list_elem_of_In; by eapply list_elem_of_lookup_2)). rewrite forallb_forall in H2.
  specialize (H2 b ltac:(by apply list_elem_of_In)). lia.
Qed.

Lemma allowedb_true o w : allowedb o w = true -> allowed c k o w.
Proof.
  destruct o as [t|r|d|d|d j e]; cbn [allowedb allowed].
  - rewrite andb_true_iff. intros [H1 H2]. split; [by apply legalb_true; [apply banks_range|]|].
    intros u Hu. rewrite Hu in H2. cbn in H2. lia.
  - rewrite andb_true_iff. intros [H1 H2]. split; [by apply req_okb_true|]. intros Hin.
    apply negb_true_iff, not_true_iff_false in H2. apply H2, existsb_exists. exists (ptr r).
    split; [by apply list_elem_of_In|by apply Nat.eqb_eq].
  - rewrite !andb_true_iff. intros [[[H1 H2] H3] H4]. apply bool_decide_eq_true in H1.
    split; [done|]. split; [by apply quietb_true|]. split; [lia|by apply ticks_fitb_true].
  - apply legalb_true, banks_range.
  - apply legalb_true, banks_range.
Qed.

Definition run_steps (os : list step) (st : Controller * list nat) : res (Controller * list nat) :=
  for_each os (fun o st => assert_that (allowedb o st.1) ;; perform c k sort o st) st.

Lemma run_steps_reached w0 os st :
  run_steps os (w0, []) = Ok st -> reached c k sort w0 st.1 st.2.
Proof.
  intros H. apply (for_each_inv os _ (fun st => reached c k sort w0 st.1 st.2)) in H; [done| |apply reached_start].
  intros o [w acc] [w' acc'] _ Hr E. cbn [fst] in E. destruct (allowedb o w) eqn:Ea; [|done]. cbn [assert_that mbind res_bind] in E.
  eapply reached_step; [exact Hr|by apply allowedb_true|exact E].
Qed.
End Whole.
(** ** Witness *)

(** Two reads of different rows, a write and a read that the write serves; then the
    write goes to the device, and a refresh. *)
Definition whole_config : config := mkConfig 64 16 1 1 2 1 64 RoRaBaCoCh 32 64 4 0 1 10 10 1.
Definition rank_event (e : Ev) : step := RankEvent false 0 e.
Definition whole_steps : list step :=
  [TimePasses 10; Arrive (DramSafety.sample_req 1 false 0x0 64); Arrive (DramSafety.sample_req 2 true 0x4000 64);
   Arrive (DramSafety.sample_req 3 false 0x1000 64); Arrive (DramSafety.sample_req 4 false 0x4000 64);
   NextRequest false; rank_event Activate; rank_event Power; NextRequest false; TimePasses 45;
   NextRequest false; NextRequest false; ReadData false; TimePasses 56; rank_event Activate; TimePasses 87;
   ReadData false; TimePasses 91; NextRequest false; TimePasses 102; rank_event Precharge; TimePasses 133;
   rank_event WriteDone; TimePasses 386; rank_event Refresh; TimePasses 400; rank_event Precharge;
   rank_event Power; rank_event Refresh; TimePasses 435; rank_event Refresh].
Definition whole_commands (w : Controller) : list Command :=
  match ranks (bus (device w)) !! O with Some r => issued (array r) | None => [] end.

Lemma whole_config_ok : DramSafety.config_ok whole_config.
Proof. split; unfold NO_ROW; cbn; try lia. exists 6. lia. Qed.

Lemma controller_composed_witness :
  exists s w acc, startup small_timing 0 (DramPower.new whole_config small_timing) = Ok s /\
    run_steps whole_config small_timing sort_cmds whole_steps (start whole_config 0 s, []) = Ok (w, acc) /\
    acc = [1; 2; 3; 4]%nat /\
    answers (queues w) = [mkAnswer 2 (Some 20); mkAnswer 4 (Some 20); mkAnswer 1 (Some 65); mkAnswer 3 (Some 107)] /\
    whole_commands w =
      [mkCommand ACT 0 10; mkCommand RD 0 28; mkCommand PRE 0 42; mkCommand ACT 0 56; mkCommand RD 0 70;
       mkCommand PRE 0 88; mkCommand ACT 0 102; mkCommand WR 0 116; mkCommand PREA 0 386; mkCommand REF 0 400] /\
    DramSafety.balance (to <$> answers (queues w)) (DramSafety.packet_of <$> DramSafety.waiting (queues w)) acc /\
    protocol small_timing (group_of small_timing) (whole_commands w).
Proof.
  assert (timing_ok small_timing) as Hk by (split; vm_compute; discriminate || reflexivity).
  assert (refresh_ok small_timing) as Hf by (split; vm_compute; discriminate || reflexivity).
  assert (banksPerRank whole_config <= 32) as Hb by (vm_compute; discriminate).
  destruct (controller_composed whole_config small_timing sort_cmds whole_config_ok Hk Hf sort_cmds_ok eq_refl Hb
    ltac:(vm_compute; discriminate) ltac:(vm_compute; discriminate) 0 ltac:(vm_compute; discriminate)) as (s & Es & H).
  assert (exists w acc, run_steps whole_config small_timing sort_cmds whole_steps (start whole_config 0 s, []) = Ok (w, acc) /\
    acc = [1; 2; 3; 4]%nat /\
    answers (queues w) = [mkAnswer 2 (Some 20); mkAnswer 4 (Some 20); mkAnswer 1 (Some 65); mkAnswer 3 (Some 107)] /\
    exists r, ranks (bus (device w)) !! O = Some r /\ issued (array r) =
      [mkCommand ACT 0 10; mkCommand RD 0 28; mkCommand PRE 0 42; mkCommand ACT 0 56; mkCommand RD 0 70;
       mkCommand PRE 0 88; mkCommand ACT 0 102; mkCommand WR 0 116; mkCommand PREA 0 386; mkCommand REF 0 400])
    as (w & acc & Ew & Eacc & Ea & r & Er & Ei).
  { injection Es as <-. eexists _, _. split; [vm_compute; reflexivity|]. split; [reflexivity|].
    split; [vm_compute; reflexivity|]. eexists. split; [reflexivity|vm_compute; reflexivity]. }
  destruct (H w acc) as (_ & _ & _ & Hbal & Hp & _).
  { exact (run_steps_reached whole_config small_timing sort_cmds whole_config_ok Hb _ whole_steps (w, acc) Ew). }
  exists s, w, acc. do 4 (split; [done|]). unfold whole_commands. rewrite Er. split; [done|]. split; [done|].
  by apply (Hp O r Er).
Defined.

End DramController.
