(* ===== verification/Bmo.v ===== *)
(** * Memory operations of persistent writes

    Models what [class DRAMCtrl] ([mem/dram_ctrl.cc], lines 729-1240) does for a
    persistent request before it is queued: the metadata caches are read for the
    request and for the predictions of the backend, a write is compared with the
    predictions of its line, the latency of encryption and verification (EV) or
    of deduplication and wear levelling (DW) that is left is recorded for the
    write-back instruction, and the packets of the metadata caches are moved to
    the queues of the controller. *)

From S2P Require Import Prelude Common PageTable CacheLine CompletedWrite Backend Clock LruSet.
From S2P Require Import MetadataCache DramQueues DramSafety.

Module Bmo.
Module CWE := CompletedWriteEntry.

(** ** Latency *)

(** [txopt/param.hh] *)
Definition METADATA_CACHE_MISS_LATENCY : Z := 40000.
Definition IV_HASH_LATENCY : Z := 40000.
Definition DE_DUP_HASH_LATENCY : Z := 300000.
Definition ENCRYPTION_LATENCY : Z := 40000.
Definition WEAR_LEVELLING : Z := 0.
Definition TREE_HEIGHT : Z := Z.of_nat MetadataCache.VERIFICATION_TREE_HEIGHT.

(** The environment: [ENABLE_EV] and [ENABLE_DW], read at the start, and the
    variables [getWriteLatency] reads. *)
Record env := mkEnv {
  isEVEnabled : bool;
  isDWEnabled : bool;
  DISABLE_ADDR_PRED_PERF : bool;
  DISABLE_DATA_PRED_PERF : bool
}.

Section Latency.
Variable e : env.
Variable now : Z.

(** What is left of the work at the current tick. *)
Definition remaining (finishTick : Z) (st : Stats.t) : Z * Stats.t :=
  if now <? finishTick then (u64 (finishTick - now), Stats.incr "bmoFinishAfter" st)
  else (0, Stats.incr "bmoFinishBefore" st).

Definition ev_finish (p : Packet.t) (timeOfAddrGen timeOfDataGen : Z) : Z :=
  let miss := if Packet.counterCacheHit p then 0 else METADATA_CACHE_MISS_LATENCY in
  let addrOnlyFinishTick :=
    u64 (u64 (ENCRYPTION_LATENCY + miss + IV_HASH_LATENCY * (1 + TREE_HEIGHT) +
              u64 (Packet.verificationCacheMisses p * METADATA_CACHE_MISS_LATENCY)) + timeOfAddrGen) in
  let independentAddrLatency := u64 (timeOfAddrGen + ENCRYPTION_LATENCY) in
  let dataFinishTick := u64 (Z.max independentAddrLatency timeOfDataGen + IV_HASH_LATENCY) in
  Z.max addrOnlyFinishTick dataFinishTick.

Definition dw_finish (p : Packet.t) (timeOfAddrGen timeOfDataGen : Z) : Z :=
  let miss := if Packet.counterCacheHit p then 0 else METADATA_CACHE_MISS_LATENCY in
  let wearLevellingFinishTick := u64 (timeOfAddrGen + WEAR_LEVELLING) in
  let dataOnlyFinishTick := u64 (timeOfDataGen + DE_DUP_HASH_LATENCY + miss) in
  let dependentFinishTick := Z.max timeOfAddrGen dataOnlyFinishTick in
  Z.max dependentFinishTick wearLevellingFinishTick.

Definition getWriteLatency (p : Packet.t) (entry : CWE.t) (addrPredicted : bool) (st : Stats.t)
    : res (Z * Stats.t) :=
  let st := if addrPredicted then st else Stats.incr "addrNotPredicted" st in
  panic_if (isEVEnabled e && isDWEnabled e) ;;
  addrGen ← CWE.get_time_of_addr_gen entry;
  dataGen ← CWE.get_time_of_data_gen entry;
  let st := if addrPredicted && (u64 (now - addrGen) <? 50 * 1000)
            then Stats.incr "untimelyPrediction" st else st in
  let timeOfAddrGen := if DISABLE_ADDR_PRED_PERF e then now else addrGen in
  let timeOfDataGen := if DISABLE_DATA_PRED_PERF e then now else dataGen in
  let '(result, st) :=
    if isEVEnabled e then
      let extra := (if Packet.counterCacheHit p then 0 else 1) + Packet.verificationCacheMisses p in
      remaining (ev_finish p timeOfAddrGen timeOfDataGen) (Stats.add "extraMemoryAccesses" extra st)
    else (0, st) in
  let '(result, st) :=
    if isDWEnabled e then remaining (dw_finish p timeOfAddrGen timeOfDataGen) st else (result, st) in
  let st := Stats.sample "timeliness" (u64 (now - Z.max dataGen addrGen) / 1000) st in
  Ok (result, Stats.sample "bmoFinishDist" result st).
End Latency.

(** ** State *)

(** The controller with the predictor's static state it reads; [memory] holds
    the queues.  [dedupReadQueue] and [AtomicCounterWriteQueue], which no
    statement fills, and [counter_write_length], which stays 0, are left out. *)
Record t := mk {
  caches : MetadataCache.t;
  memory : DramQueues.t;
  backend : Backend.t;
  clwbLatency : gmap Z Z;
  prevArrival : Z;
  stats : Stats.t
}.

Definition with_caches v s := mk v (memory s) (backend s) (clwbLatency s) (prevArrival s) (stats s).
Definition with_memory v s := mk (caches s) v (backend s) (clwbLatency s) (prevArrival s) (stats s).
Definition with_backend v s := mk (caches s) (memory s) v (clwbLatency s) (prevArrival s) (stats s).
Definition with_latency v g s := mk (caches s) (memory s) (backend s) v (prevArrival s) g.
Definition with_arrival v s := mk (caches s) (memory s) (backend s) (clwbLatency s) v (stats s).
Definition with_stats f s :=
  mk (caches s) (memory s) (backend s) (clwbLatency s) (prevArrival s) (f (stats s)).

Definition isAddrNonVolatile (a : Z) : bool := 8 * 1024 * 1024 * 1024 <? a.
Definition isAddrVolatile (a : Z) : bool := negb (isAddrNonVolatile a).

Definition emulateBMOSlowdown (e : env) (now : Z) (p : Packet.t) (entry : CWE.t)
    (addrPredicted dataPredicted : bool) (s : t) : res t :=
  paddr ← Packet.getPaddr p;
  let st := Stats.incr "BMOLatencyEmulationCount" (stats s) in
  let entry := if addrPredicted then entry
               else CWE.set_time_of_addr_gen now (CWE.set_time_of_data_gen now entry) in
  let entry := if dataPredicted then entry else CWE.set_time_of_data_gen now entry in
  '(bmoLatency, st) ← getWriteLatency e now p entry addrPredicted st;
  Ok (with_latency (<[paddr := bmoLatency]> (clwbLatency s)) st s).

(** ** Comparison with the predictions *)

(** The loop of lines 1103-1124: whether a used prediction equals the write. *)
Fixpoint find_used (p : Packet.t) (q : list CWE.t) : res bool :=
  match q with
  | [] => Ok false
  | completedEntry :: q =>
      CWE.get_generator_hash completedEntry ;;
      a ← (if CWE.is_used completedEntry then Backend.isPktEqualCompletedEntryAddr p completedEntry
           else Ok false);
      m ← (if a : bool then Backend.isPktEqualCompletedEntry p completedEntry else Ok false);
      if m : bool then
        CWE.get_time_of_addr_gen completedEntry ;; Backend.is_free completedEntry ;; Ok true
      else find_used p q
  end.

(** Lines 1126-1145: [i] is never incremented, so the entry taken and erased is
    the oldest one of the queue, not the one that was found. *)
Definition take_prediction (p : Packet.t) (q : list CWE.t) : res (option CWE.t * list CWE.t) :=
  found ← find_used p (reverse q);
  if found : bool then
    match q with
    | [] => Fail Panic
    | entry :: q => Ok (Some entry, q)
    end
  else Ok (None, q).

(** Lines 1148-1160: the entry of a write whose data was not predicted. *)
Definition unpredicted_entry (now : Z) (q : list CWE.t) : res CWE.t :=
  match q with
  | [] => Ok (CWE.set_time_of_data_gen now (CWE.set_time_of_addr_gen now (CWE.new now)))
  | entry :: _ =>
      a ← CWE.get_addr entry;
      tick ← CWE.get_time_of_addr_gen entry;
      Ok (CWE.set_time_of_addr_gen tick (CWE.set_addr a (CWE.new now)))
  end.

Definition BMOHandleWriteRequest (e : env) (now : Z) (p : Packet.t) (s : t) : res t :=
  paddr ← Packet.getPaddr p;
  let b := backend s in
  let q := default [] (Backend.completedWrites b !! paddr) in
  let wasAddrPredicted := negb (bool_decide (q = [])) in
  '(found, q) ← (if wasAddrPredicted then take_prediction p q else Ok (None, q));
  let b := Backend.with_writes (<[paddr := q]> (Backend.completedWrites b)) b in
  entry ← match found with Some entry => Ok entry | None => unpredicted_entry now q end;
  let matches_ := default 0 (Backend.addrMatches b !! paddr) in
  let b := Backend.with_matches (<[paddr := matches_]> (Backend.addrMatches b)) b in
  let wasAddrPredicted := wasAddrPredicted || (0 <? matches_) in
  emulateBMOSlowdown e now p entry wasAddrPredicted (bool_decide (is_Some found))
    (with_backend b s).

(** ** Packets of the metadata caches *)

Section Controller.
Context `{O : IterOrder}.
Variable e : env.
Variable dc : DramQueues.config.
(** What the shifts of [dataToMTOffset] that are wider than [int] give. *)
Variable oversized : Z -> Z.

Definition funcMasterId : Z := 1.

(** A packet that was created by [new]: its address is not that of a packet in
    use, the request [used] at hand included. *)
Definition metadata_req (used : list nat) (x : MetadataCache.QueueEntry) (m : DramQueues.t)
    : DramQueues.Req :=
  DramQueues.mkReq (fresh (used ++ (DramSafety.packet_of <$> DramSafety.waiting m)))
    (MetadataCache.pkt x) funcMasterId 0.

(** [counter_write_length] is 0. *)
Definition counterWriteQueueFull (request_size : Z) : bool :=
  MetadataCache.COUNTER_WRITE_QUEUE_SIZE <? u32 (0 + request_size).

(** The loops of lines 973-1066: a queue of the caches is emptied into a queue
    of the controller, until that is full. *)
Fixpoint flush (full : Z -> DramQueues.t -> bool)
    (add : DramQueues.Req -> Z -> DramQueues.t -> res DramQueues.t) (used : list nat)
    (q : list MetadataCache.QueueEntry) (m : DramQueues.t)
    : res (list MetadataCache.QueueEntry * DramQueues.t) :=
  match q with
  | [] => Ok ([], m)
  | x :: q' =>
      if full (MetadataCache.pkt_count x) m then Ok (q, m)
      else
        m ← add (metadata_req used x m) (MetadataCache.pkt_count x) m;
        flush full add used q' m
  end.

Definition flush_stats (writes reads : Z) (st : Stats.t) : Stats.t :=
  Stats.add "bytesWrittenSys" (8 * writes) (Stats.add "writeReqs" writes
    (Stats.add "bytesReadSys" (8 * reads) (Stats.add "readReqs" reads st))).

Definition FlushPendingBMOQueues (now : Z) (used : list nat) (s : t) : res t :=
  let c := caches s in
  let add_write := DramQueues.addToWriteQueue dc now in
  let add_read := DramQueues.addToReadQueue dc now in
  '(ce, m) ← flush (fun n _ => counterWriteQueueFull n) add_write used
               (MetadataCache.CounterCacheEvictionQueue c) (memory s);
  '(ve, m) ← flush (DramQueues.writeQueueFull dc) add_write used
               (MetadataCache.VerificationCacheEvictionQueue c) m;
  '(cm, m) ← flush (DramQueues.readQueueFull dc) add_read used
               (MetadataCache.CounterCacheMissQueue c) m;
  '(vm, m) ← flush (DramQueues.readQueueFull dc) add_read used
               (MetadataCache.VerificationCacheMissQueue c) m;
  let moved q q' := Z.of_nat (length (q : list MetadataCache.QueueEntry)) - Z.of_nat (length q') in
  let writes := moved (MetadataCache.CounterCacheEvictionQueue c) ce +
                moved (MetadataCache.VerificationCacheEvictionQueue c) ve in
  let reads := moved (MetadataCache.CounterCacheMissQueue c) cm +
               moved (MetadataCache.VerificationCacheMissQueue c) vm in
  let c := MetadataCache.with_counter_queues (MetadataCache.CounterWriteQueue c) cm ce
             (MetadataCache.EvictionCnt c) (MetadataCache.with_node_queues vm ve c) in
  Ok (with_stats (fun st => flush_stats writes reads (Stats.incr "pendingBMOQueueFlushes" st))
        (with_memory m (with_caches c s))).

(** ** Requests *)

(** The predictions of the backend have their metadata fetched. *)
Definition fetch_metadata (entry : CWE.t) (c : MetadataCache.t) : res MetadataCache.t :=
  a ← CWE.get_addr entry;
  '(_, c) ← MetadataCache.readCounterCache a c;
  '(_, c) ← MetadataCache.readVerificationCache_entry oversized entry 0 c;
  Ok c.

Definition checkPendingPredictionQueue (s : t) : res t :=
  c ← for_each (Backend.pendingPredictionQueue (backend s)) fetch_metadata (caches s);
  Ok (with_stats (Stats.incr "pendingPredictionQueueChecks")
        (with_caches c (with_backend (Backend.with_pending [] (backend s)) s))).

Definition with_hits (counter verification : bool) (p : Packet.t) : Packet.t :=
  Packet.mk (Packet.isWrite p) (Packet.isRead p) (Packet.hasData p) (Packet.needsResponse p)
    (Packet.cacheResponding p) (Packet.isToPOC p) (Packet.size p) (Packet.reqSize p)
    (Packet.addr p) (Packet.vaddr p) (Packet.paddr p) (Packet.pc p) (Packet.data p)
    (Packet.headerDelay p) (Packet.payloadDelay p) (Packet.isCounterPacket p)
    (Packet.isCounterCacheEviction p) (Packet.isVerificationPacket p)
    (Packet.isVerificationCacheEviction p) counter verification (Packet.verificationCacheMisses p).

(** Lines 1184-1196: the caches are read for the packet. *)
Definition read_metadata (paddr : Z) (p : Packet.t) (c : MetadataCache.t)
    : res (Packet.t * MetadataCache.t) :=
  let p := with_hits (MetadataCache.isCounterCacheHit paddr c)
             (MetadataCache.isVerificationCacheHit paddr c) p in
  '(_, c) ← (if isDWEnabled e || isEVEnabled e then MetadataCache.readCounterCache paddr c
             else Ok (true, c));
  if isEVEnabled e then MetadataCache.readVerificationCache_pkt oversized p c else Ok (p, c).

(** Lines 1202-1212: the counter and the nodes on the way to the root are written. *)
Definition write_metadata (p : Packet.t) (c : MetadataCache.t) : res MetadataCache.t :=
  '(_, c) ← (if isEVEnabled e || isDWEnabled e then MetadataCache.writeCounterCache p c
             else Ok (true, c));
  if isEVEnabled e then
    for_each MetadataCache.levels
      (fun nodeLevel c => '(_, c) ← MetadataCache.writeVerificationCache oversized p nodeLevel c; Ok c) c
  else Ok c.

(** The packet is changed in place. *)
Definition BMOHandleRequest (now : Z) (r : DramQueues.Req) (s : t) : res (Packet.t * t) :=
  let p := DramQueues.pkt r in
  paddr ← Packet.getPaddr p;
  if isAddrNonVolatile paddr then
    s ← FlushPendingBMOQueues now [DramQueues.ptr r] s;
    s ← checkPendingPredictionQueue s;
    '(p, c) ← read_metadata paddr p (caches s);
    let s := with_caches c s in
    if Packet.isWrite p && Packet.hasData p && Packet.hasPaddr p then
      s ← BMOHandleWriteRequest e now p s;
      c ← write_metadata p (caches s);
      Ok (p, with_caches c s)
    else Ok (p, s)
  else Ok (p, s).

(** [dumpTrace]: what it checks. *)
Definition dumpTrace (p : Packet.t) : res unit :=
  a ← Packet.getPaddr p;
  if (Packet.isWrite p && (Packet.size p =? 64) && is_paddr_pm a) || Packet.isToPOC p then
    if Packet.size p =? 64 then Packet.getPtr p ;; Ok tt
    else panic_if (negb ((Packet.size p =? 1) && Packet.isToPOC p))
  else Ok tt.

Definition recvTimingReq (now : Z) (r : DramQueues.Req) (s : t) : res (bool * Packet.t * t) :=
  let p := DramQueues.pkt r in
  (if Packet.isWrite p then
     a ← Packet.getPaddr p; if is_paddr_pm a then dumpTrace p else Ok tt
   else Ok tt) ;;
  '(p, s) ← (if Backend.predictorEnabled (backend s) then BMOHandleRequest now r s else Ok (p, s));
  let r := DramQueues.mkReq (DramQueues.ptr r) p (DramQueues.masterId r) (DramQueues.qosValue r) in
  '(accepted, m) ← DramQueues.enqueueReq dc now r (memory s);
  let st := if prevArrival s =? 0 then stats s
            else Stats.add "totGap" (u64 (now - prevArrival s)) (stats s) in
  let st := if (accepted : bool) && Packet.isWrite p
            then Stats.add "bytesWrittenSys" (Packet.size p) (Stats.incr "writeReqs" st)
            else if accepted : bool
            then Stats.add "bytesReadSys" (Packet.size p) (Stats.incr "readReqs" st)
            else Stats.incr (if Packet.isWrite p then "numWrRetry" else "numRdRetry") st in
  Ok (accepted, p, with_stats (fun _ => st) (with_arrival now (with_memory m s))).
End Controller.
End Bmo.
