(* ===== verification/BmoSafety.v ===== *)
(** * Correctness of the memory operations of persistent writes

    The recorded latency is what is left of the work at the time of the write;
    the outcome of a write on every branch; the empty queue a write leaves in
    the result buffer stops the backend; and the controller, with the metadata
    caches, the predictions and its queues together, handles every request. *)

From S2P Require Import Prelude Common PageTable CacheLine CompletedWrite Backend Clock LruSet.
From S2P Require Import MetadataCache DramQueues DramSafety Bmo.

Module BmoSafety.
Import Bmo.
Module CWE := CompletedWriteEntry.

(** ** Latency *)

Definition miss_latency (p : Packet.t) : Z := if Packet.counterCacheHit p then 0 else 40000.

(** The work of encryption and verification that depends on the address, the
    later of it and of the hash of the data, and the work of deduplication. *)
Definition work_left (e : env) (now : Z) (p : Packet.t) (addrGen dataGen : Z) : Z :=
  if isEVEnabled e then
    Z.max 0 (Z.max (addrGen + 40000 + miss_latency p + 13 * 40000 + 40000 * Packet.verificationCacheMisses p)
                   (Z.max (addrGen + 40000) dataGen + 40000) - now)
  else if isDWEnabled e then Z.max 0 (Z.max addrGen (dataGen + 300000 + miss_latency p) - now)
  else 0.

Definition times_ok (now : Z) (entry : CWE.t) : Prop :=
  CWE.has CWE.F_TIME_OF_ADDR_GEN entry = true /\ CWE.has CWE.F_TIME_OF_DATA_GEN entry = true /\
  0 <= CWE.timeOfAddrGen entry <= now /\ 0 <= CWE.timeOfDataGen entry <= now.

Definition seen (disabled : bool) (now tick : Z) : Z := if disabled then now else tick.

Lemma remaining_ok now finish st :
  0 <= now -> 0 <= finish < 18446744073709551616 -> (remaining now finish st).1 = Z.max 0 (finish - now).
Proof.
  intros Hn Hf. unfold remaining. destruct (Z.ltb_spec now finish); cbn; [|lia].
  rewrite u64_id; [lia|unfold is_u64; lia].
Qed.

Lemma ev_finish_ok p ta td :
  0 <= ta < 9223372036854775808 -> 0 <= td < 9223372036854775808 -> 0 <= Packet.verificationCacheMisses p <= 1000000 ->
  ev_finish p ta td =
    Z.max (ta + 40000 + miss_latency p + 13 * 40000 + 40000 * Packet.verificationCacheMisses p)
          (Z.max (ta + 40000) td + 40000).
Proof.
  intros Ha Hd Hm. unfold ev_finish. cbv zeta. unfold METADATA_CACHE_MISS_LATENCY, IV_HASH_LATENCY, ENCRYPTION_LATENCY.
  change TREE_HEIGHT with 12. fold (miss_latency p).
  assert (0 <= miss_latency p <= 40000) by (unfold miss_latency; case_match; lia).
  rewrite !(u64_id (_ * 40000)), !(u64_id (_ + _ + _ + _)), !(u64_id (ta + 40000)), !u64_id
    by (unfold is_u64; rewrite ?u64_id; unfold is_u64; lia).
  lia.
Qed.

Lemma dw_finish_ok p ta td :
  0 <= ta < 9223372036854775808 -> 0 <= td < 9223372036854775808 ->
  dw_finish p ta td = Z.max ta (td + 300000 + miss_latency p).
Proof.
  intros Ha Hd. unfold dw_finish, METADATA_CACHE_MISS_LATENCY, DE_DUP_HASH_LATENCY, WEAR_LEVELLING.
  cbv zeta. fold (miss_latency p).
  assert (0 <= miss_latency p <= 40000) by (unfold miss_latency; case_match; lia).
  rewrite !u64_id by (unfold is_u64; lia). lia.
Qed.

Lemma getWriteLatency_ok e now p entry predicted st :
  isEVEnabled e && isDWEnabled e = false -> times_ok now entry -> now < 9223372036854775808 ->
  0 <= Packet.verificationCacheMisses p <= 1000000 ->
  exists st', getWriteLatency e now p entry predicted st =
    Ok (work_left e now p (seen (DISABLE_ADDR_PRED_PERF e) now (CWE.timeOfAddrGen entry))
          (seen (DISABLE_DATA_PRED_PERF e) now (CWE.timeOfDataGen entry)), st').
Proof.
  intros Hmode (F1 & F2 & Ha & Hd) Hnow Hm. unfold getWriteLatency. rewrite Hmode.
  unfold CWE.get_time_of_addr_gen, CWE.get_time_of_data_gen. rewrite F1, F2.
  cbn [negb panic_if mbind res_bind]. fold (seen (DISABLE_ADDR_PRED_PERF e) now (CWE.timeOfAddrGen entry))
    (seen (DISABLE_DATA_PRED_PERF e) now (CWE.timeOfDataGen entry)).
  set (ta := seen _ _ _). set (td := seen _ now (CWE.timeOfDataGen entry)).
  assert (0 <= ta <= now /\ 0 <= td <= now) as [Hta Htd] by (unfold ta, td, seen; split; case_match; lia).
  unfold work_left. destruct (isEVEnabled e).
  - cbn [andb] in Hmode. rewrite Hmode. set (g := Stats.add _ _ _).
    destruct (remaining now _ g) as [l st1] eqn:E. apply (f_equal fst) in E.
    rewrite ev_finish_ok, remaining_ok in E by (try lia; unfold miss_latency; case_match; lia).
    cbn in E. subst l. by eexists.
  - destruct (isDWEnabled e); [|by eexists]. set (g := if predicted && _ then _ else _).
    destruct (remaining now _ g) as [l st1] eqn:E. apply (f_equal fst) in E.
    rewrite dw_finish_ok, remaining_ok in E by (try lia; unfold miss_latency; case_match; lia).
    cbn in E. subst l. by eexists.
Qed.

(** Thirteen hashes, the encryption, the counter and the nodes that missed. *)
Definition worst_case (p : Packet.t) : Z := 600000 + 40000 * Packet.verificationCacheMisses p.

Lemma work_left_mono e now p ta td ta' td' :
  ta' <= ta -> td' <= td -> work_left e now p ta' td' <= work_left e now p ta td.
Proof. intros Ha Hd. unfold work_left. repeat case_match; lia. Qed.

Lemma work_left_bounds e now p ta td :
  ta <= now -> td <= now -> 0 <= Packet.verificationCacheMisses p ->
  0 <= work_left e now p ta td <= worst_case p /\
  (ta + worst_case p <= now -> td + worst_case p <= now -> work_left e now p ta td = 0).
Proof.
  intros Ha Hd Hm. assert (0 <= miss_latency p <= 40000) by (unfold miss_latency; case_match; lia).
  unfold work_left, worst_case. repeat case_match; lia.
Qed.

(** C22: the latency recorded for a persistent write, when the misses counted in
    its packet are at most a million and no tick is in the future.  With both
    encryption with verification and deduplication the simulation panics.  Otherwise
    it is the part of the metadata work that is not done when the write arrives,
    given the ticks at which its address and its data were predicted.  It is at least
    0 and at most 600000 ticks (thirteen hashes, the encryption and a miss of the
    counter) plus 40000 for each miss counted.  If address and data are predicted no
    later, it is no longer.  If both are predicted that worst case ahead, and neither
    kind of prediction is disabled, it is 0. *)
Theorem write_latency_bounds e now p entry predicted st :
  times_ok now entry -> now < 9223372036854775808 -> 0 <= Packet.verificationCacheMisses p <= 1000000 ->
  if isEVEnabled e && isDWEnabled e then getWriteLatency e now p entry predicted st = Fail Panic else
  exists l st', getWriteLatency e now p entry predicted st = Ok (l, st') /\
    l = work_left e now p (seen (DISABLE_ADDR_PRED_PERF e) now (CWE.timeOfAddrGen entry))
          (seen (DISABLE_DATA_PRED_PERF e) now (CWE.timeOfDataGen entry)) /\
    0 <= l <= worst_case p /\
    (forall entry' predicted' st1, times_ok now entry' ->
       CWE.timeOfAddrGen entry' <= CWE.timeOfAddrGen entry ->
       CWE.timeOfDataGen entry' <= CWE.timeOfDataGen entry ->
       exists l' st1', getWriteLatency e now p entry' predicted' st1 = Ok (l', st1') /\ l' <= l) /\
    (DISABLE_ADDR_PRED_PERF e = false -> DISABLE_DATA_PRED_PERF e = false ->
     CWE.timeOfAddrGen entry + worst_case p <= now -> CWE.timeOfDataGen entry + worst_case p <= now -> l = 0).
Proof.
  intros Ht Hnow Hm. destruct (isEVEnabled e && isDWEnabled e) eqn:Hmode.
  { unfold getWriteLatency. by rewrite Hmode. }
  destruct (getWriteLatency_ok e now p entry predicted st Hmode Ht Hnow Hm) as (st' & E).
  eexists _, st'. split; [exact E|]. split; [done|]. destruct Ht as (_ & _ & Ha & Hd).
  split; [apply work_left_bounds; [unfold seen; case_match; lia..|lia]|]. split.
  - intros entry' predicted' st1 Ht' Ha' Hd'.
    destruct (getWriteLatency_ok e now p entry' predicted' st1 Hmode Ht' Hnow Hm) as (st1' & E').
    eexists _, st1'. split; [exact E'|]. apply work_left_mono; unfold seen; case_match; lia.
  - intros D1 D2. unfold seen. rewrite D1, D2. apply work_left_bounds; lia.
Qed.

(** ** A persistent write *)

(** A prediction the backend used for an earlier request of the same words. *)
Definition is_match (words : list Z) (x : CWE.t) : bool :=
  CWE.is_used x && Backend.matches words (CacheLine.dataChunks (CWE.cacheline x)).

Lemma find_used_ok p paddr words q :
  Backend.line_pkt p paddr words -> Forall (Backend.entry_ok paddr) q ->
  find_used p q = Ok (existsb (is_match words) q).
Proof.
  intros Hp. induction 1 as [|x q [Hx Ha _] _ IH]; [done|]. cbn [find_used existsb].
  rewrite CWE.get_generator_hash_ok by done. cbn [mbind res_bind]. unfold is_match at 1.
  destruct (CWE.is_used x); cbn [andb orb mbind res_bind]; [|by rewrite IH].
  assert (Backend.isPktEqualCompletedEntryAddr p x = Ok true) as ->.
  { unfold Backend.isPktEqualCompletedEntryAddr, Packet.getPaddr. rewrite CWE.get_addr_ok by done.
    destruct Hp as (_ & -> & _). cbn. by rewrite Ha, Z.eqb_refl. }
  cbn [mbind res_bind]. rewrite (Backend.isPktEqualCompletedEntry_ok p paddr words) by done.
  rewrite Ha, Z.eqb_refl. cbn [andb mbind res_bind].
  destruct (Backend.matches _ _); cbn [orb]; [|by rewrite IH].
  rewrite CWE.get_time_of_addr_gen_ok by done. cbn [mbind res_bind].
  by destruct (Backend.is_free_ok x (CWE.wf_line _ Hx)) as [f ->].
Qed.

Lemma existsb_reverse {A} (f : A -> bool) l : existsb f (reverse l) = existsb f l.
Proof.
  apply eq_true_iff_eq. rewrite !existsb_exists. setoid_rewrite <- list_elem_of_In.
  by setoid_rewrite elem_of_reverse.
Qed.

(** The ticks of the predictions of a line are not in the future. *)
Definition timely (now : Z) (x : CWE.t) : Prop :=
  0 <= CWE.timeOfAddrGen x <= now /\ 0 <= CWE.timeOfDataGen x <= now.

(** When address and data count as predicted: those of the oldest prediction of
    the line, the data only if some used prediction has the words. *)
Definition predicted_at (now : Z) (words : list Z) (q : list CWE.t) : Z * Z :=
  match q with
  | [] => (now, now)
  | x :: _ => (CWE.timeOfAddrGen x, if existsb (is_match words) q then CWE.timeOfDataGen x else now)
  end.

Definition modes_ok (e : env) : Prop := isEVEnabled e && isDWEnabled e = false.

Definition latency_of (e : env) (now : Z) (p : Packet.t) (g : Z * Z) : Z :=
  work_left e now p (seen (DISABLE_ADDR_PRED_PERF e) now g.1) (seen (DISABLE_DATA_PRED_PERF e) now g.2).

(** The entry the latency is computed of. *)
Definition stamped (now : Z) (addrPredicted dataPredicted : bool) (entry : CWE.t) : CWE.t :=
  let entry := if addrPredicted then entry
               else CWE.set_time_of_addr_gen now (CWE.set_time_of_data_gen now entry) in
  if dataPredicted then entry else CWE.set_time_of_data_gen now entry.

Lemma emulate_ok e now p paddr entry a d s :
  modes_ok e -> Packet.paddr p = Some paddr -> times_ok now (stamped now a d entry) ->
  now < 9223372036854775808 -> 0 <= Packet.verificationCacheMisses p <= 1000000 ->
  exists st, emulateBMOSlowdown e now p entry a d s =
    Ok (with_latency (<[paddr := latency_of e now p (CWE.timeOfAddrGen (stamped now a d entry),
      CWE.timeOfDataGen (stamped now a d entry))]> (clwbLatency s)) st s).
Proof.
  intros Hmode Hp Ht Hn Hm. unfold emulateBMOSlowdown, Packet.getPaddr. rewrite Hp.
  cbn [Packet.valid mbind res_bind]. fold (stamped now a d entry).
  destruct (getWriteLatency_ok e now p (stamped now a d entry) a
    (Stats.incr "BMOLatencyEmulationCount" (stats s)) Hmode Ht Hn Hm) as (st & ->).
  by exists st.
Qed.

Lemma emulate_panics e now p paddr entry a d s :
  isEVEnabled e && isDWEnabled e = true -> Packet.paddr p = Some paddr ->
  emulateBMOSlowdown e now p entry a d s = Fail Panic.
Proof.
  intros Hmode Hp. unfold emulateBMOSlowdown, Packet.getPaddr, getWriteLatency. rewrite Hp.
  cbn [Packet.valid mbind res_bind]. by rewrite Hmode.
Qed.

(** The entry of each branch, as it is stamped. *)
Lemma predicted_entry_ok now words q x rest matches_ :
  q = x :: rest -> CWE.wf x -> timely now x -> 0 <= now ->
  let a := negb (bool_decide (q = [])) || (0 <? matches_) in
  (existsb (is_match words) q = true ->
   times_ok now (stamped now a true x) /\
   (CWE.timeOfAddrGen (stamped now a true x), CWE.timeOfDataGen (stamped now a true x)) = predicted_at now words q) /\
  (existsb (is_match words) q = false ->
   exists entry, unpredicted_entry now q = Ok entry /\ times_ok now (stamped now a false entry) /\
   (CWE.timeOfAddrGen (stamped now a false entry), CWE.timeOfDataGen (stamped now a false entry)) =
     predicted_at now words q).
Proof.
  intros -> Hx [Ha Hd] Hn. cbn [bool_decide negb orb].
  rewrite bool_decide_eq_false_2 by done. cbn [negb orb stamped]. unfold predicted_at. split; intros E; rewrite E.
  - split; [|done]. split; [apply (CWE.wf_addr_gen _ Hx)|]. split; [apply (CWE.wf_data_gen _ Hx)|done].
  - unfold unpredicted_entry. rewrite CWE.get_addr_ok, CWE.get_time_of_addr_gen_ok by done.
    cbn [mbind res_bind]. eexists. split; [done|]. split; [|done].
    split; [done|]. split; [done|]. cbn. lia.
Qed.

Lemma empty_entry_ok now words matches_ :
  0 <= now ->
  exists entry, unpredicted_entry now [] = Ok entry /\
    times_ok now (stamped now (negb (bool_decide ([] = ([] : list CWE.t))) || (0 <? matches_)) false entry) /\
    (CWE.timeOfAddrGen (stamped now (negb (bool_decide ([] = ([] : list CWE.t))) || (0 <? matches_)) false entry),
     CWE.timeOfDataGen (stamped now (negb (bool_decide ([] = ([] : list CWE.t))) || (0 <? matches_)) false entry)) =
      predicted_at now words [].
Proof.
  intros Hn. eexists. split; [done|]. cbn [bool_decide decide_rel negb orb].
  destruct (0 <? matches_); (split; [split; [done|]; split; [done|]; cbn; lia|done]).
Qed.

(** What a write does to the predictions of its line. *)
Definition consumed (words : list Z) (q : list CWE.t) : list CWE.t :=
  if existsb (is_match words) q then tail q else q.

Definition line_timely (now paddr : Z) (b : Backend.t) : Prop :=
  Forall (timely now) (default [] (Backend.completedWrites b !! paddr)).

(** The result buffer a write leaves. *)
Definition buffer_after (paddr : Z) (words : list Z) (b : Backend.t) : Backend.t :=
  let q := default [] (Backend.completedWrites b !! paddr) in
  Backend.with_matches
    (<[paddr := default 0 (Backend.addrMatches b !! paddr)]> (Backend.addrMatches b))
    (Backend.with_writes (<[paddr := consumed words q]> (Backend.completedWrites b)) b).

Lemma write_prepared e now p paddr words s :
  Backend.line_pkt p paddr words -> Backend.lines_ok (backend s) ->
  line_timely now paddr (backend s) -> 0 <= now ->
  exists entry a d, BMOHandleWriteRequest e now p s =
      emulateBMOSlowdown e now p entry a d (with_backend (buffer_after paddr words (backend s)) s) /\
    times_ok now (stamped now a d entry) /\
    (CWE.timeOfAddrGen (stamped now a d entry), CWE.timeOfDataGen (stamped now a d entry)) =
      predicted_at now words (default [] (Backend.completedWrites (backend s) !! paddr)).
Proof.
  intros Hp Hb Ht Hn. unfold BMOHandleWriteRequest, Packet.getPaddr.
  pose proof Hp as (_ & Hpa & _ & _). rewrite Hpa. cbn [Packet.valid mbind res_bind].
  unfold buffer_after. unfold line_timely in Ht.
  set (q := default [] (Backend.completedWrites (backend s) !! paddr)) in *.
  cbn [Backend.with_writes Backend.addrMatches].
  set (m := default 0 (Backend.addrMatches (backend s) !! paddr)).
  assert (Forall (Backend.entry_ok paddr) q) as Hq.
  { unfold q. destruct (Backend.completedWrites (backend s) !! paddr) as [q'|] eqn:E; [|constructor].
    by apply (Backend.lk_queues _ Hb). }
  destruct q as [|x rest] eqn:Eq.
  - destruct (empty_entry_ok now words m Hn) as (entry & E & T).
    rewrite bool_decide_eq_true_2 in T |- * by done. cbn [negb mbind res_bind consumed existsb].
    rewrite E. cbn [mbind res_bind]. by eexists entry, _, false.
  - pose proof (predicted_entry_ok now words _ x rest m eq_refl) as [H1 H2];
      [by apply Forall_cons in Hq as [[? _ _] _]|by apply Forall_cons in Ht as [? _]|done|].
    rewrite bool_decide_eq_false_2 in H1, H2 |- * by done. cbn [negb orb] in *.
    unfold take_prediction. rewrite (find_used_ok p paddr words)
      by (done || by rewrite reverse_Permutation).
    rewrite existsb_reverse. cbn [mbind res_bind]. unfold consumed.
    destruct (existsb (is_match words) (x :: rest)) eqn:Ex; cbn [mbind res_bind].
    + rewrite (bool_decide_eq_true_2 (is_Some _)) by done. exists x, true, true. split; [done|]. by apply H1.
    + destruct (H2 eq_refl) as (entry & E & T). rewrite E. cbn [mbind res_bind].
      exists entry, true, false. split; [done|exact T].
Qed.

Lemma write_request_ok e now p paddr words s :
  modes_ok e -> Backend.line_pkt p paddr words -> Backend.lines_ok (backend s) ->
  line_timely now paddr (backend s) -> 0 <= now < 9223372036854775808 ->
  0 <= Packet.verificationCacheMisses p <= 1000000 ->
  exists st, BMOHandleWriteRequest e now p s =
    Ok (with_latency (<[paddr := latency_of e now p
      (predicted_at now words (default [] (Backend.completedWrites (backend s) !! paddr)))]> (clwbLatency s)) st
      (with_backend (buffer_after paddr words (backend s)) s)).
Proof.
  intros Hmode Hp Hb Ht Hn Hm.
  destruct (write_prepared e now p paddr words s Hp Hb Ht ltac:(lia)) as (entry & a & d & -> & T1 & T2).
  destruct (emulate_ok e now p paddr entry a d (with_backend (buffer_after paddr words (backend s)) s)
    Hmode ltac:(apply Hp) T1 ltac:(lia) Hm) as (st & E). rewrite T2 in E. by exists st.
Qed.

(** C19: a persistent full-line write.  With both EV and DW enabled the simulation
    panics.  Otherwise the write returns; it records for its line the latency of
    the address and the data as they were predicted by the oldest prediction of
    the line, the data counting only if some used prediction of the line has the
    write's words; it removes that oldest prediction then, whichever one matched;
    and it leaves a queue for the line, an empty one if the line had none. *)
Theorem bmo_write_spec e now p paddr words s :
  Backend.line_pkt p paddr words -> Backend.lines_ok (backend s) ->
  line_timely now paddr (backend s) -> 0 <= now < 9223372036854775808 ->
  0 <= Packet.verificationCacheMisses p <= 1000000 ->
  if isEVEnabled e && isDWEnabled e then BMOHandleWriteRequest e now p s = Fail Panic
  else exists s', BMOHandleWriteRequest e now p s = Ok s' /\
    Backend.completedWrites (backend s') =
      <[paddr := consumed words (default [] (Backend.completedWrites (backend s) !! paddr))]>
        (Backend.completedWrites (backend s)) /\
    clwbLatency s' = <[paddr := latency_of e now p
      (predicted_at now words (default [] (Backend.completedWrites (backend s) !! paddr)))]> (clwbLatency s) /\
    caches s' = caches s /\ memory s' = memory s.
Proof.
  intros Hp Hb Ht Hn Hm. destruct (isEVEnabled e && isDWEnabled e) eqn:Hmode.
  - destruct (write_prepared e now p paddr words s Hp Hb Ht ltac:(lia)) as (entry & a & d & -> & _).
    apply (emulate_panics _ _ _ paddr); [done|apply Hp].
  - destruct (write_request_ok e now p paddr words s Hmode Hp Hb Ht Hn Hm) as (st & ->).
    by eexists.
Qed.

(** ** The empty queue it leaves *)

Lemma buffer_after_ok paddr words b :
  Backend.lines_ok b -> Backend.lines_ok (buffer_after paddr words b).
Proof.
  intros [H1 H2]. split; [|done]. intros a q. cbn. rewrite lookup_insert. case_decide as Ha; [|by apply H1].
  intros [= <-]. subst a. unfold consumed.
  destruct (Backend.completedWrites b !! paddr) as [q|] eqn:E; [|cbn; split; [lia|constructor]].
  destruct (H1 paddr q E) as [H3 H4]. cbn [default from_option id]. case_match; [|done].
  destruct q as [|x q]; [done|]. apply Forall_cons in H4 as [_ H4]. cbn [length tail] in *. split; [lia|done].
Qed.

Lemma remove_empty_stops `{O : IterOrder} a b :
  Backend.completedWrites b !! a = Some [] -> Backend.remove_empty b = Fail Undefined.
Proof.
  intros H. unfold Backend.remove_empty.
  assert ((a, []) ∈ filter (fun x : Z * list CWE.t => x.2 = []) (iter (Backend.completedWrites b))) as Hin
    by (apply list_elem_of_filter; split; [done|by apply elem_of_iter]).
  destruct (filter _ _); [by apply not_elem_of_nil in Hin|done].
Qed.

(** C23: a persistent write to a line without predictions leaves an empty queue
    for the line in the result buffer; the next prediction the backend stores for
    another line finds it, and the loop that erases empty queues has undefined
    behaviour. *)
Theorem unpredicted_write_undefined `{O : IterOrder} pt hitC hitV e now now' p paddr words s entry pa :
  modes_ok e -> Backend.line_pkt p paddr words -> Backend.lines_ok (backend s) ->
  0 <= now < 9223372036854775808 -> 0 <= Packet.verificationCacheMisses p <= 1000000 ->
  Backend.completedWrites (backend s) !! paddr = None -> Backend.usePredictor (backend s) = true ->
  CWE.wf entry -> Backend.pcs_known entry -> PageTable.translate pt (CWE.addr entry) = Some pa -> pa <> paddr ->
  exists s', BMOHandleWriteRequest e now p s = Ok s' /\
    Backend.completedWrites (backend s') !! paddr = Some [] /\
    Backend.addCompletedWrite pt hitC hitV now' entry (backend s') = Fail Undefined.
Proof.
  intros Hmode Hp Hb Hn Hm Hnone Huse He Hpc Ht Hne.
  assert (line_timely now paddr (backend s)) as Htime by (unfold line_timely; rewrite Hnone; constructor).
  destruct (write_request_ok e now p paddr words s Hmode Hp Hb Htime Hn Hm) as (st & ->).
  eexists. split; [done|]. cbn [with_latency with_backend backend].
  assert (Backend.completedWrites (buffer_after paddr words (backend s)) !! paddr = Some []) as Hempty
    by (cbn; by rewrite lookup_insert_eq, Hnone).
  split; [done|]. unfold Backend.addCompletedWrite. rewrite CWE.get_addr_ok by done. cbn [mbind res_bind].
  rewrite Ht. destruct (PageTable.lookup_ pt (CWE.addr entry)) as [pe|] eqn:El;
    [|by unfold PageTable.translate in Ht; rewrite El in Ht].
  change (Backend.usePredictor (buffer_after paddr words (backend s))) with (Backend.usePredictor (backend s)).
  rewrite Huse. cbn [default from_option id].
  destruct (Backend.enqueue_ok hitC hitV entry pa _ (buffer_after_ok paddr words _ Hb) He Hpc)
    as (b1 & -> & _ & _ & _ & _ & Hw). cbn [mbind res_bind].
  rewrite (remove_empty_stops paddr); [done|]. by rewrite Hw, lookup_insert_ne.
Qed.


(** ** The packets of the metadata caches *)

Section Requests.
Context `{O : IterOrder}.
Variable e : env.
Variable dc : DramQueues.config.
Variable oversized : Z -> Z.
Hypothesis Hdc : DramSafety.config_ok dc.
Hypothesis Hmode : modes_ok e.
Import MetadataCache.

(** A packet waiting to be moved to the controller's queues. *)
Record entry_fits (write : bool) (x : QueueEntry) : Prop := {
  ef_write : Packet.isWrite (pkt x) = write;
  ef_read : Packet.isRead (pkt x) = negb write;
  ef_cache : Packet.cacheResponding (pkt x) = false;
  ef_size : Packet.size (pkt x) = 8;
  ef_addr : 0 <= Packet.addr (pkt x) < 4611686018427387904;
  ef_count : forall n m q, pkt_count x = DramQueues.dram_pkt_count dc (DramQueues.mkReq n (pkt x) m q)
}.

Lemma entry_fits_req write used x m : entry_fits write x -> DramSafety.req_ok dc (metadata_req used x m).
Proof.
  intros [H1 H2 H3 H4 H5 _]. split; cbn; [done|lia| | |done].
  - apply (DramSafety.co_priorities _ Hdc).
  - destruct write; [by left|right; by rewrite H2].
Qed.

Lemma queue_entry_fits c write a words f1 f2 f3 f4 :
  burstSize c = DramQueues.burstSize dc -> 0 <= a < 4611686018427387904 ->
  entry_fits write (queue_entry c a (request_packet write a 8 words f1 f2 f3 f4)).
Proof.
  intros Hb Ha. split; cbn; [done..|]. intros n m q. unfold queue_entry, DramQueues.dram_pkt_count. cbn.
  rewrite Hb. pose proof (DramSafety.burst_pos dc Hdc) as Hp.
  destruct (DramSafety.co_burst dc Hdc) as (k & Hk & Ek).
  assert (DramQueues.burstSize dc <= 1073741824) as Hmax
    by (rewrite Ek; change 1073741824 with (2 ^ 30); apply Z.pow_le_mono_r; lia).
  assert (0 <= Z.land a (DramQueues.burstSize dc - 1) < DramQueues.burstSize dc) as Hl.
  { destruct (DramSafety.burst_ones dc Hdc) as (j & Hj & -> & ->). rewrite Z.land_ones by lia.
    apply Z.mod_pos_bound, Z.pow_pos_nonneg; lia. }
  set (o := Z.land a _) in *. rewrite (u32_id o) by (unfold is_u32; lia).
  rewrite (u32_id (o + 8)) by (unfold is_u32; lia). rewrite (u32_id (o + 8 + _ - 1)) by (unfold is_u32; lia).
  unfold divCeil, counter_size. replace (8 + o) with (o + 8) by lia. apply u32_id. unfold is_u32.
  split; [apply Z.div_pos; lia|]. apply Z.div_lt_upper_bound; [lia|]. nia.
Qed.

Record queues_ok (c : MetadataCache.t) : Prop := {
  qk_burst : burstSize c = DramQueues.burstSize dc;
  qk_counter : Forall (entry_fits false) (CounterCacheMissQueue c);
  qk_node : Forall (entry_fits false) (VerificationCacheMissQueue c);
  qk_evict : Forall (entry_fits true) (VerificationCacheEvictionQueue c)
}.

Lemma counter_addr_range a : 0 <= a < 18446744073709551616 -> 0 <= counter_addr a < 4611686018427387904.
Proof.
  intros Ha. unfold counter_addr, COUNTER_ADDR_DIFF.
  assert (0 <= a / 8 < 2305843009213693952) by (split; [apply Z.div_pos; lia|apply Z.div_lt_upper_bound; lia]).
  rewrite u64_id; [lia|unfold is_u64; lia].
Qed.

Lemma access_counter_queues a w c b c' :
  queues_ok c -> 0 <= a < 18446744073709551616 -> access_counter a w c = Ok (b, c') -> queues_ok c'.
Proof.
  intros [H1 H2 H3 H4] Ha. unfold access_counter. destruct (_ <? _); [|done]. cbn [assert_that mbind res_bind].
  destruct (LruSet.use _ _ _ _) as [[[hit victim] m]|]; [|done]. cbn [mbind res_bind].
  pose proof (queue_entry_fits c false (counter_addr a) [0; 0] true false false false H1 (counter_addr_range a Ha)).
  destruct hit; [intros [= <- <-]; by split|]. destruct victim; intros [= <- <-]; split; cbn; try done;
    apply Forall_app; (split; [done|by constructor]).
Qed.

Lemma readCounterCache_queues a c b c' :
  queues_ok c -> 0 <= a < 18446744073709551616 -> readCounterCache a c = Ok (b, c') -> queues_ok c'.
Proof.
  intros [H1 H2 H3 H4] Ha. apply access_counter_queues; [by split|].
  unfold counter_line, COUNTER_CACHE_LINE_SIZE. pose proof (Z.mul_div_le a 512). pose proof (Z.div_pos a 512). lia.
Qed.

Lemma writeCounterCache_queues p c b c' :
  queues_ok c -> 0 <= Packet.addr p < 18446744073709551616 -> writeCounterCache p c = Ok (b, c') -> queues_ok c'.
Proof.
  intros [H1 H2 H3 H4] Ha. unfold writeCounterCache. rewrite bind_ok. intros ([h c1] & E & E').
  assert (queues_ok c1) as [G1 G2 G3 G4].
  { eapply access_counter_queues; [|..|exact E]; [by split|].
    unfold counter_line, COUNTER_CACHE_LINE_SIZE.
    pose proof (Z.mul_div_le (Packet.addr p) 512). pose proof (Z.div_pos (Packet.addr p) 512). lia. }
  destruct (Packet.isWrite p); cbn [mbind res_bind] in E'; [|injection E' as <- <-; by split].
  unfold clean_counter in E'. destruct (_ !! _); cbn [deref mbind res_bind] in E'; [|done].
  injection E' as <- <-. by split.
Qed.

Lemma mt_addr_range a l ma : dataToMTAddr oversized a l = Ok ma -> 0 <= ma < 4611686018427387904.
Proof.
  unfold dataToMTAddr. pose proof (u64_range (Z.shiftr a (Z.of_nat l * 3) +
    one_shl oversized ((Z.of_nat VERIFICATION_TREE_HEIGHT - Z.of_nat l) * 3))) as Hr.
  fold (dataToMTOffset oversized a l) in Hr. unfold is_u64 in Hr.
  assert (0 <= dataToMTOffset oversized a l / 8 < 2305843009213693952) as Hd
    by (split; [apply Z.div_pos; lia|apply Z.div_lt_upper_bound; lia]).
  unfold VERIFICATION_ADDR_DIFF. rewrite u64_id by (unfold is_u64; lia).
  destruct (_ <=? _); [|done]. cbn. intros [= <-]. lia.
Qed.

Lemma victim_key cap m l k v : LruSet.victim_of cap m l k = Some v -> v ∈ l.
Proof.
  unfold LruSet.victim_of. case_decide; [|done]. destruct (last l) as [z|] eqn:E; [|done].
  case_match; intros; simplify_eq. by apply last_Some_elem_of.
Qed.

Definition keys_fit (r : ref) : Prop := Forall is_u64 (node_keys r).

Lemma access_subset cap k l x : x ∈ LruSet.access cap k l -> x = k \/ x ∈ l.
Proof.
  unfold LruSet.access. intros H. apply elem_of_take in H as (i & Hi & _).
  apply list_elem_of_lookup_2, elem_of_cons in Hi as [->|Hi]; [by left|right].
  by apply list_elem_of_filter in Hi as [_ Hi].
Qed.

(** An access to a node, with the queues. *)
Lemma access_node_full n a l w c r :
  refines n c r -> 0 <= n < 4294967296 -> queues_ok c -> keys_fit r ->
  exists c', access_node oversized a l w c = Ok ((ref_node oversized a l r).1, c') /\
    refines (n + 1) c' (ref_node oversized a l r).2 /\ queues_ok c' /\ keys_fit (ref_node oversized a l r).2.
Proof.
  intros Hr Hn [H1 H2 H3 H4] Hk.
  destruct (access_node_ok oversized n a l w c r Hr Hn) as (c' & E & Hr'). exists c'.
  split; [exact E|]. split; [done|]. split.
  - unfold access_node in E. destruct (dataToMTAddr _ _ _) as [ma|] eqn:Em; [|done]. cbn [mbind res_bind] in E.
    destruct (rf_nodes _ _ _ Hr) as [Hrec Hlen].
    destruct (LruSet.use_spec VERIFICATION_CACHE_SIZE n _ (node_keys r)
      (dataToMTOffset oversized (verification_line a) l) w Hrec Hn Hlen) as (m & Eu & _);
      [unfold VERIFICATION_CACHE_SIZE; lia|].
    rewrite Eu in E. cbn [mbind res_bind] in E. set (h := bool_decide _) in E at 1.
    destruct h; apply ok_inj, (f_equal snd) in E; cbn [snd] in E; subst c'; [by split|].
    pose proof (queue_entry_fits c false ma [0; 0] false true false false H1 (mt_addr_range _ _ _ Em)).
    split; cbn; try done; [apply Forall_app; split; [done|by constructor]|].
    destruct (LruSet.victim_of _ _ _ _) as [v|] eqn:Ev; [|done].
    apply Forall_app. split; [done|]. constructor; [|constructor].
    apply queue_entry_fits; [done|]. apply victim_key in Ev. eapply Forall_forall in Hk; [|exact Ev].
    unfold is_u64 in Hk. unfold VERIFICATION_ADDR_DIFF.
    assert (0 <= v / 8 < 2305843009213693952) by (split; [apply Z.div_pos; lia|apply Z.div_lt_upper_bound; lia]).
    rewrite u64_id; [lia|unfold is_u64; lia].
  - unfold keys_fit in *. apply Forall_forall. intros x [->|Hx]%access_subset; [apply u64_range|].
    by eapply Forall_forall in Hk.
Qed.


(** ** Accesses, with the packets they queue *)

(** Packets are added behind those that wait to be sent. *)
Record extended (c c' : MetadataCache.t) : Prop := {
  ex_counter : CounterCacheMissQueue c `prefix_of` CounterCacheMissQueue c';
  ex_node : VerificationCacheMissQueue c `prefix_of` VerificationCacheMissQueue c';
  ex_evict : VerificationCacheEvictionQueue c `prefix_of` VerificationCacheEvictionQueue c'
}.

#[local] Instance extended_preorder : PreOrder extended.
Proof. split; [by split|]. intros x y z [] []. by split; etrans. Qed.

Lemma access_counter_extended a w c b c' : access_counter a w c = Ok (b, c') -> extended c c'.
Proof.
  unfold access_counter. destruct (_ <? _); [|done]. cbn [assert_that mbind res_bind].
  destruct (LruSet.use _ _ _ _) as [[[hit victim] m]|]; [|done]. cbn [mbind res_bind].
  destruct hit; [|destruct victim]; intros [= <- <-]; split; cbn; done || by apply prefix_app_r.
Qed.

Lemma readCounterCache_extended a c b c' : readCounterCache a c = Ok (b, c') -> extended c c'.
Proof. intros H%access_counter_extended. destruct H. by split. Qed.

Lemma writeCounterCache_extended p c b c' : writeCounterCache p c = Ok (b, c') -> extended c c'.
Proof.
  unfold writeCounterCache. rewrite bind_ok. intros ([h c1] & E & E').
  apply access_counter_extended in E as [G1 G2 G3].
  destruct (Packet.isWrite p); cbn [mbind res_bind] in E'; [|injection E' as <- <-; by split].
  unfold clean_counter in E'. destruct (_ !! _); cbn [deref mbind res_bind] in E'; [|done].
  injection E' as <- <-. by split.
Qed.

Lemma access_node_extended a l w c b c' : access_node oversized a l w c = Ok (b, c') -> extended c c'.
Proof.
  unfold access_node. destruct (dataToMTAddr _ _ _); [|done]. cbn [mbind res_bind].
  destruct (LruSet.use _ _ _ _) as [[[hit victim] m]|]; [|done]. cbn [mbind res_bind].
  destruct hit; [|destruct victim]; intros [= <- <-]; split; cbn; done || by apply prefix_app_r.
Qed.

Definition cache_ok (n : Z) (c : MetadataCache.t) : Prop :=
  exists r, refines n c r /\ keys_fit r /\ queues_ok c.

Lemma cache_weaken n n' c : n <= n' -> cache_ok n c -> cache_ok n' c.
Proof. intros Hn (r & H1 & H2). exists r. split; [by eapply refines_weaken|done]. Qed.

Lemma read_counter_ok n a c :
  cache_ok n c -> 0 <= n < 4294967296 -> 0 <= a < 18446744073709551616 ->
  exists b c', readCounterCache a c = Ok (b, c') /\ cache_ok (n + 1) c' /\ extended c c'.
Proof.
  intros (r & Hr & Hk & Hq) Hn Ha.
  destruct (apply_op_ok oversized n (ReadCounter a) c r Hr Hn) as (c' & E & Hr'); [cbn; lia|].
  cbn [apply_op] in E. eexists _, c'. split; [exact E|]. split; [|by eapply readCounterCache_extended].
  exists (ref_op oversized (ReadCounter a) r).2. split; [done|]. split; [done|]. by eapply readCounterCache_queues.
Qed.

Lemma write_counter_ok n p c :
  cache_ok n c -> 0 <= n < 4294967296 -> 0 <= Packet.addr p < 18446744073709551616 -> Packet.isWrite p = true ->
  exists b c', writeCounterCache p c = Ok (b, c') /\ cache_ok (n + 1) c' /\ extended c c'.
Proof.
  intros (r & Hr & Hk & Hq) Hn Ha Hw.
  destruct (apply_op_ok oversized n (WriteCounter p) c r Hr Hn) as (c' & E & Hr'); [split; [lia|done]|].
  cbn [apply_op] in E. eexists _, c'. split; [exact E|]. split; [|by eapply writeCounterCache_extended].
  exists (ref_op oversized (WriteCounter p) r).2. split; [done|]. split; [done|]. by eapply writeCounterCache_queues.
Qed.

Lemma node_ok n a l w c :
  cache_ok n c -> 0 <= n < 4294967296 ->
  exists b c', access_node oversized a l w c = Ok (b, c') /\ cache_ok (n + 1) c' /\ extended c c'.
Proof.
  intros (r & Hr & Hk & Hq) Hn. destruct (access_node_full n a l w c r Hr Hn Hq Hk) as (c' & E & H1 & H2 & H3).
  eexists _, c'. split; [exact E|]. split; [|by eapply access_node_extended].
  by exists (ref_node oversized a l r).2.
Qed.

Lemma walk_total ls a m n c :
  cache_ok n c -> 0 <= n -> n + Z.of_nat (length ls) <= 4294967296 ->
  0 <= m -> m + Z.of_nat (length ls) <= UINT64_MAX ->
  exists m' c', walk oversized ls a m c = Ok (m', c') /\ m <= m' <= m + Z.of_nat (length ls) /\
    cache_ok (n + Z.of_nat (length ls)) c' /\ extended c c'.
Proof.
  revert m n c. induction ls as [|l ls IH]; intros m n c Hc Hn Hlen Hm Hmax; cbn [walk length] in *.
  { exists m, c. split; [done|]. split; [lia|]. by rewrite Z.add_0_r. }
  unfold readVerificationCache at 1.
  destruct (node_ok n a l false c Hc ltac:(lia)) as (b & c1 & -> & H1 & X1). cbn [mbind res_bind].
  destruct b.
  { exists m, c1. split; [done|]. split; [lia|]. split; [|done]. eapply cache_weaken; [|done]. lia. }
  rewrite u64_id by (unfold is_u64; cbv [UINT64_MAX] in Hmax; lia).
  destruct (IH (m + 1) (n + 1) c1 H1) as (m' & c' & -> & H2 & H3 & X2); [lia..|].
  exists m', c'. split; [done|]. split; [lia|]. split; [|by etrans]. eapply cache_weaken; [|exact H3]. lia.
Qed.

Lemma write_nodes_ok p ls n c :
  cache_ok n c -> 0 <= n -> n + Z.of_nat (length ls) <= 4294967296 ->
  exists c', for_each ls (fun l c => '(_, c) ← writeVerificationCache oversized p l c; Ok c) c = Ok c' /\
    cache_ok (n + Z.of_nat (length ls)) c' /\ extended c c'.
Proof.
  revert n c. induction ls as [|l ls IH]; intros n c Hc Hn Hlen; cbn [for_each length] in *.
  { exists c. split; [done|]. by rewrite Z.add_0_r. }
  change (writeVerificationCache oversized p l c) with (access_node oversized (Packet.addr p) l true c).
  destruct (node_ok n (Packet.addr p) l true c Hc ltac:(lia)) as (b & c1 & -> & H1 & X1). cbn [mbind res_bind].
  destruct (IH (n + 1) c1 H1) as (c' & -> & H2 & X2); [lia..|]. exists c'. split; [done|]. split; [|by etrans].
  eapply cache_weaken; [|exact H2]. lia.
Qed.

(** The metadata of one prediction. *)
Lemma fetch_ok n entry c :
  cache_ok n c -> 0 <= n -> n + 13 <= 4294967296 -> CWE.wf entry -> 0 <= CWE.addr entry < 18446744073709551616 ->
  exists c', fetch_metadata oversized entry c = Ok c' /\ cache_ok (n + 13) c' /\ extended c c'.
Proof.
  intros Hc Hn Hlen He Ha. unfold fetch_metadata, readVerificationCache_entry.
  rewrite CWE.get_addr_ok by done. cbn [mbind res_bind].
  destruct (read_counter_ok n (CWE.addr entry) c Hc) as (b & c1 & -> & H1 & X1); [lia|done|]. cbn [mbind res_bind].
  destruct (walk_total levels (CWE.addr entry) 0 (n + 1) c1 H1) as (m' & c' & -> & _ & H2 & X2);
    [lia|change (Z.of_nat (length levels)) with 12; lia|lia|vm_compute; discriminate|].
  exists c'. split; [done|]. split; [|by etrans]. eapply cache_weaken; [|exact H2].
  change (Z.of_nat (length levels)) with 12. lia.
Qed.

Definition fetchable (entry : CWE.t) : Prop := CWE.wf entry /\ 0 <= CWE.addr entry < 18446744073709551616.

Lemma fetch_all_ok q n c :
  cache_ok n c -> 0 <= n -> n + 13 * Z.of_nat (length q) <= 4294967296 -> Forall fetchable q ->
  exists c', for_each q (fetch_metadata oversized) c = Ok c' /\ cache_ok (n + 13 * Z.of_nat (length q)) c' /\
    extended c c'.
Proof.
  revert n c. induction q as [|x q IH]; intros n c Hc Hn Hlen Hq; cbn [for_each length] in *.
  { exists c. split; [done|]. split; [|done]. eapply cache_weaken; [|done]. lia. }
  apply Forall_cons in Hq as [[Hx Ha] Hq].
  destruct (fetch_ok n x c Hc Hn ltac:(lia) Hx Ha) as (c1 & -> & H1 & X1). cbn [mbind res_bind].
  destruct (IH (n + 13) c1 H1) as (c' & -> & H2 & X2); [lia|lia|done|]. exists c'. split; [done|]. split; [|by etrans].
  eapply cache_weaken; [|exact H2]. lia.
Qed.

(** ** Moving the packets to the controller's queues *)

Import DramSafety.

Definition unused (used : list nat) (m : DramQueues.t) : Prop :=
  forall u, u ∈ used -> u ∉ packet_of <$> waiting m.

Lemma metadata_fresh used x m :
  DramQueues.ptr (metadata_req used x m) ∉ packet_of <$> waiting m /\
  DramQueues.ptr (metadata_req used x m) ∉ used.
Proof.
  pose proof (infinite_is_fresh (used ++ (packet_of <$> waiting m))) as H.
  rewrite elem_of_app in H. cbn. tauto.
Qed.

Lemma fits_count write used x m :
  entry_fits write x -> pkt_count x = DramQueues.dram_pkt_count dc (metadata_req used x m).
Proof. intros Hx. apply (ef_count _ _ Hx). Qed.

Lemma unused_add used x m m' :
  unused used m -> (forall y, y ∈ packet_of <$> waiting m' ->
    y = DramQueues.ptr (metadata_req used x m) \/ y ∈ packet_of <$> waiting m) -> unused used m'.
Proof.
  intros Hu Hsub u Hin Hw. destruct (Hsub u Hw) as [->|H]; [|by apply (Hu u Hin)].
  by apply (proj2 (metadata_fresh used x m)).
Qed.

Section Flush.
Variable now : Z.
Variable used : list nat.

(** One packet moved, and the rest of its queue. *)
Definition moves (write : bool) (full : Z -> DramQueues.t -> bool)
    (add : DramQueues.Req -> Z -> DramQueues.t -> res DramQueues.t) : Prop :=
  forall x m acc, entry_fits write x -> good dc m acc -> unused used m ->
    full (pkt_count x) m = false ->
    exists m', add (metadata_req used x m) (pkt_count x) m = Ok m' /\
      good dc m' (acc ++ [DramQueues.ptr (metadata_req used x m)]) /\ unused used m'.

(** The packets at the front of a queue of the caches become requests [ids] of the
    controller, in order; the packets [q'] stay, the first of which did not fit. *)
Definition drained (full : Z -> DramQueues.t -> bool)
    (add : DramQueues.Req -> Z -> DramQueues.t -> res DramQueues.t)
    (q q' : list QueueEntry) (m m' : DramQueues.t) (ids : list nat) : Prop :=
  exists taken, q = taken ++ q' /\ length ids = length taken /\
    for_each taken (fun x m => add (metadata_req used x m) (pkt_count x) m) m = Ok m' /\
    match q' with [] => True | x :: _ => full (pkt_count x) m' = true end.

Lemma flush_ok write full add q m acc :
  moves write full add -> Forall (entry_fits write) q -> good dc m acc -> unused used m ->
  exists q' m' ids, flush full add used q m = Ok (q', m') /\ Forall (entry_fits write) q' /\
    drained full add q q' m m' ids /\ good dc m' (acc ++ ids) /\ unused used m'.
Proof.
  intros Hmv Hq. revert m acc. induction Hq as [|x q Hx Hq IH]; intros m acc Hg Hu; cbn [flush].
  { exists [], m, []. split; [done|]. split; [done|]. rewrite app_nil_r. split; [by exists []|done]. }
  destruct (full (pkt_count x) m) eqn:Hf.
  { exists (x :: q), m, []. split; [done|]. split; [by constructor|]. rewrite app_nil_r.
    split; [by exists []|done]. }
  destruct (Hmv x m acc Hx Hg Hu Hf) as (m1 & E1 & Hg1 & Hu1). rewrite E1. cbn [mbind res_bind].
  destruct (IH m1 _ Hg1 Hu1) as (q' & m' & ids & -> & F & (taken & -> & Hl & Ht & Hn) & Hg' & Hu').
  exists q', m', (DramQueues.ptr (metadata_req used x m) :: ids). split; [done|]. split; [done|].
  split; [|by rewrite <- app_assoc in Hg'].
  exists (x :: taken). split; [done|]. split; [cbn; by rewrite Hl|]. split; [|done].
  cbn [for_each]. rewrite E1. exact Ht.
Qed.

Lemma moves_reads : moves false (DramQueues.readQueueFull dc) (DramQueues.addToReadQueue dc now).
Proof.
  intros x m acc Hx [Hinv Hset Hev] Hu Hf. pose proof (entry_fits_req false used x m Hx) as Hr.
  rewrite (fits_count _ used x m Hx) in Hf |- *.
  pose proof (in_core _ _ Hinv) as C. pose proof (co_read _ Hdc) as Hrb. pose proof (co_write _ Hdc) as Hwb.
  pose proof (count_max dc Hdc (metadata_req used x m)) as Hmax. pose proof (count_pos dc Hdc _ Hr) as Hpos.
  unfold DramQueues.readQueueFull in Hf. rewrite (cr_total_reads _ _ C) in Hf.
  pose proof (cr_read_room _ _ C) as Hroom.
  rewrite u64_id in Hf by (unfold is_u64; lia). apply Z.ltb_ge in Hf.
  destruct (addToReadQueue_ok dc Hdc now (metadata_req used x m) m acc Hinv Hset Hr) as (m' & E & H1 & H2 & H3 & H4 & H5 & _);
    [apply (ef_write _ _ Hx)|apply metadata_fresh|done|lia|].
  exists m'. split; [exact E|].
  split; [split; [done|done|by rewrite H3, H4]|by eapply unused_add].
Qed.

Lemma moves_writes : moves true (DramQueues.writeQueueFull dc) (DramQueues.addToWriteQueue dc now).
Proof.
  intros x m acc Hx [Hinv Hset Hev] Hu Hf. pose proof (entry_fits_req true used x m Hx) as Hr.
  rewrite (fits_count _ used x m Hx) in Hf |- *.
  pose proof (in_core _ _ Hinv) as C. pose proof (co_read _ Hdc) as Hrb. pose proof (co_write _ Hdc) as Hwb.
  pose proof (count_max dc Hdc (metadata_req used x m)) as Hmax. pose proof (count_pos dc Hdc _ Hr) as Hpos.
  unfold DramQueues.writeQueueFull in Hf. rewrite (cr_total_writes _ _ C) in Hf.
  pose proof (cr_write_room _ _ C) as Hroom.
  rewrite u64_id in Hf by (unfold is_u64; lia). apply Z.ltb_ge in Hf.
  destruct (addToWriteQueue_ok dc Hdc now (metadata_req used x m) m acc Hinv Hset Hr) as (m' & E & H1 & H2 & H3 & H4 & H5);
    [apply (ef_write _ _ Hx)|lia|].
  exists m'. split; [exact E|].
  split; [split; [done|done|by rewrite H3, H4]|by eapply unused_add].
Qed.
End Flush.


(** ** Requests *)

(** The controller after at most [n] accesses to its caches; [last] is not
    before the tick of any prediction. *)
Record ok (n last : Z) (acc : list nat) (s : Bmo.t) : Prop := {
  ok_caches : cache_ok n (caches s);
  ok_memory : good dc (memory s) acc;
  ok_lines : Backend.lines_ok (backend s);
  ok_times : forall a q, Backend.completedWrites (backend s) !! a = Some q -> Forall (timely last) q;
  ok_pending : Forall fetchable (Backend.pendingPredictionQueue (backend s))
}.

(** A physical request; a persistent write is the write of a full line. *)
Record valid (r : DramQueues.Req) (s : Bmo.t) : Prop := {
  va_req : req_ok dc r;
  va_new : unused [DramQueues.ptr r] (memory s);
  va_paddr : Packet.paddr (DramQueues.pkt r) = Some (Packet.addr (DramQueues.pkt r));
  va_line : Packet.isWrite (DramQueues.pkt r) = true ->
    is_paddr_pm (Packet.addr (DramQueues.pkt r)) = true ->
    exists words, Backend.line_pkt (DramQueues.pkt r) (Packet.addr (DramQueues.pkt r)) words;
  va_misses : 0 <= Packet.verificationCacheMisses (DramQueues.pkt r) <= 999988
}.

(** What a flush does: the packets of each queue are moved as far as they fit. *)
Definition flushed (now : Z) (used : list nat) (s s' : Bmo.t) (ids : list nat) : Prop :=
  let writes := drained used (DramQueues.writeQueueFull dc) (DramQueues.addToWriteQueue dc now) in
  let reads := drained used (DramQueues.readQueueFull dc) (DramQueues.addToReadQueue dc now) in
  exists m1 m2 i1 i2 i3, ids = i1 ++ i2 ++ i3 /\
    writes (VerificationCacheEvictionQueue (caches s)) (VerificationCacheEvictionQueue (caches s'))
      (memory s) m1 i1 /\
    reads (CounterCacheMissQueue (caches s)) (CounterCacheMissQueue (caches s')) m1 m2 i2 /\
    reads (VerificationCacheMissQueue (caches s)) (VerificationCacheMissQueue (caches s'))
      m2 (memory s') i3.

Lemma flush_all_ok now used n last acc s :
  ok n last acc s -> unused used (memory s) ->
  exists s' ids, FlushPendingBMOQueues dc now used s = Ok s' /\ flushed now used s s' ids /\
    ok n last (acc ++ ids) s' /\ unused used (memory s') /\ backend s' = backend s.
Proof.
  intros [(r & Hr & Hk & [Q1 Q2 Q3 Q4]) Hm Hl Ht Hp] Hu. unfold FlushPendingBMOQueues.
  destruct (rf_evictions _ _ _ Hr) as [Ev1 Ev2]. rewrite Ev1. cbn [flush mbind res_bind].
  destruct (flush_ok used true _ _ _ _ _ (moves_writes now used) Q4 Hm Hu) as (ve & m1 & i1 & -> & F1 & D1 & G1 & U1).
  cbn [mbind res_bind].
  destruct (flush_ok used false _ _ _ _ _ (moves_reads now used) Q2 G1 U1) as (cm & m2 & i2 & -> & F2 & D2 & G2 & U2).
  cbn [mbind res_bind].
  destruct (flush_ok used false _ _ _ _ _ (moves_reads now used) Q3 G2 U2) as (vm & m3 & i3 & -> & F3 & D3 & G3 & U3).
  cbn [mbind res_bind]. eexists _, (i1 ++ i2 ++ i3). split; [done|].
  split; [exists m1, m2, i1, i2, i3; done|]. split; [|done]. split; cbn; try done; [|by rewrite !app_assoc].
  exists r. split; [|split; [done|]].
  - destruct Hr as [R1 R2 R3 R4]. by split.
  - by split.
Qed.

Lemma check_pending_ok n last acc s :
  ok n last acc s -> 0 <= n -> let k := 13 * Z.of_nat (length (Backend.pendingPredictionQueue (backend s))) in
  n + k <= 4294967296 ->
  exists s', checkPendingPredictionQueue oversized s = Ok s' /\ ok (n + k) last acc s' /\
    memory s' = memory s /\ extended (caches s) (caches s') /\
    Backend.predictorEnabled (backend s') = Backend.predictorEnabled (backend s).
Proof.
  intros [Hc Hm Hl Ht Hp] Hn k Hk. unfold checkPendingPredictionQueue.
  destruct (fetch_all_ok _ n (caches s) Hc Hn Hk Hp) as (c' & -> & Hc' & Hx). cbn [mbind res_bind].
  eexists. split; [done|]. split; [|done]. split; cbn; try done.
  destruct Hl as [L1 L2]. by split.
Qed.

(** The packet keeps what the queues read of it. *)
Record same_packet (p p' : Packet.t) : Prop := {
  sp_write : Packet.isWrite p' = Packet.isWrite p;
  sp_read : Packet.isRead p' = Packet.isRead p;
  sp_data : Packet.hasData p' = Packet.hasData p /\ Packet.data p' = Packet.data p;
  sp_cache : Packet.cacheResponding p' = Packet.cacheResponding p;
  sp_size : Packet.size p' = Packet.size p;
  sp_addr : Packet.addr p' = Packet.addr p /\ Packet.paddr p' = Packet.paddr p;
  sp_misses : Packet.verificationCacheMisses p <= Packet.verificationCacheMisses p' <=
    Packet.verificationCacheMisses p + 12
}.

Lemma read_metadata_ok n p a c :
  cache_ok n c -> 0 <= n -> n + 13 <= 4294967296 -> Packet.paddr p = Some a -> 0 <= a < 4611686018427387904 ->
  0 <= Packet.verificationCacheMisses p <= 999988 ->
  exists p' c', read_metadata e oversized a p c = Ok (p', c') /\ same_packet p p' /\ cache_ok (n + 13) c' /\
    extended c c'.
Proof.
  intros Hc Hn Hlen Hp Ha Hm. unfold read_metadata. set (p1 := with_hits _ _ p).
  assert (exists b c1, (if isDWEnabled e || isEVEnabled e then readCounterCache a c else Ok (true, c)) = Ok (b, c1) /\
    cache_ok (n + 1) c1 /\ extended c c1) as (b & c1 & -> & H1 & X1).
  { case_match; [by apply read_counter_ok; [|lia|lia]|]. eexists _, c. split; [done|]. split; [|done].
    eapply cache_weaken; [|done]. lia. }
  cbn [mbind res_bind]. destruct (isEVEnabled e).
  - unfold readVerificationCache_pkt, Packet.getPaddr. change (Packet.paddr p1) with (Packet.paddr p).
    rewrite Hp. cbn [Packet.valid mbind res_bind].
    rewrite (proj2 (Z.eqb_neq _ _)) by (unfold UINT64_MAX; lia). cbn [panic_if mbind res_bind].
    destruct (walk_total levels a (Packet.verificationCacheMisses p1) (n + 1) c1 H1) as (m' & c' & -> & Hm' & H2 & X2);
      change (Z.of_nat (length levels)) with 12 in *; [lia|lia|cbn; lia|unfold UINT64_MAX; cbn; lia|].
    cbn [mbind res_bind]. eexists _, c'. split; [done|].
    split; [|split; [eapply cache_weaken; [|exact H2]; lia|by etrans]]. split; try done.
  - exists p1, c1. split; [done|]. split; [|split; [eapply cache_weaken; [|exact H1]; lia|done]].
    split; try done. cbn. lia.
Qed.

Lemma write_metadata_ok n p c :
  cache_ok n c -> 0 <= n -> n + 13 <= 4294967296 -> 0 <= Packet.addr p < 4611686018427387904 ->
  Packet.isWrite p = true ->
  exists c', write_metadata e oversized p c = Ok c' /\ cache_ok (n + 13) c' /\ extended c c'.
Proof.
  intros Hc Hn Hlen Ha Hw. unfold write_metadata.
  assert (exists b c1, (if isEVEnabled e || isDWEnabled e then writeCounterCache p c else Ok (true, c)) = Ok (b, c1) /\
    cache_ok (n + 1) c1 /\ extended c c1) as (b & c1 & -> & H1 & X1).
  { case_match; [by apply write_counter_ok; [|lia|lia|]|]. eexists _, c. split; [done|]. split; [|done].
    eapply cache_weaken; [|done]. lia. }
  cbn [mbind res_bind]. destruct (isEVEnabled e).
  - destruct (write_nodes_ok p levels (n + 1) c1 H1) as (c' & -> & H2 & X2);
      change (Z.of_nat (length levels)) with 12 in *; [lia|lia|].
    exists c'. split; [done|]. split; [|by etrans]. eapply cache_weaken; [|exact H2]. lia.
  - exists c1. split; [done|]. split; [|done]. eapply cache_weaken; [|exact H1]. lia.
Qed.

Lemma timely_weaken now now' x : now <= now' -> timely now x -> timely now' x.
Proof. unfold timely. lia. Qed.

(** The accesses a request costs. *)
Definition cost (s : Bmo.t) : Z := 26 + 13 * Z.of_nat (length (Backend.pendingPredictionQueue (backend s))).

Lemma ok_weaken n n' last last' acc s :
  n <= n' -> last <= last' -> ok n last acc s -> ok n' last' acc s.
Proof.
  intros Hn Hl [H1 H2 H3 H4 H5]. split; try done; [by eapply cache_weaken|].
  intros a q Hq. eapply Forall_impl; [by eapply H4|]. intros x. by apply timely_weaken.
Qed.

(** A persistent write, from the comparison with the predictions on. *)
Lemma handle_write_ok now n p a words acc s :
  ok n now acc s -> Backend.line_pkt p a words -> 0 <= n -> n + 13 <= 4294967296 ->
  0 <= now < 9223372036854775808 -> 0 <= Packet.verificationCacheMisses p <= 1000000 ->
  0 <= Packet.addr p < 4611686018427387904 -> Packet.isWrite p = true ->
  exists s', (s ← BMOHandleWriteRequest e now p s; c ← write_metadata e oversized p (caches s);
              Ok (p, Bmo.with_caches c s)) = Ok (p, s') /\
    ok (n + 13) now acc s' /\ memory s' = memory s /\ extended (caches s) (caches s') /\
    Backend.predictorEnabled (backend s') = Backend.predictorEnabled (backend s).
Proof.
  intros [H1 H2 H3 H4 H5] Hline Hn Hlen Hnow Hm Ha Hw.
  assert (line_timely now a (backend s)) as Ht.
  { unfold line_timely. destruct (_ !! a) as [q|] eqn:E; [by eapply H4|constructor]. }
  destruct (write_request_ok e now p a words s Hmode Hline H3 Ht Hnow Hm) as (st & ->).
  cbn [mbind res_bind caches with_latency with_backend].
  destruct (write_metadata_ok n p (caches s) H1 Hn Hlen Ha Hw) as (c' & -> & Hc' & Hx). cbn [mbind res_bind].
  eexists. split; [done|]. split; [|done]. split; cbn; try done; [by apply buffer_after_ok|].
  intros a' q. rewrite lookup_insert. case_decide as Hd; [|by apply H4]. intros [= <-]. subst a'.
  unfold line_timely in Ht. unfold consumed. case_match; [|done].
  destruct (default [] _); [done|]. by apply Forall_cons in Ht as [_ ?].
Qed.

Lemma line_same p p' a words : same_packet p p' -> Backend.line_pkt p a words -> Backend.line_pkt p' a words.
Proof.
  intros [_ _ [_ S1] _ S2 [_ S3] _] (L1 & L2 & L3 & L4). unfold Backend.line_pkt. by rewrite S1, S2, S3.
Qed.

(** The packets of the caches that a request sends to the controller's queues: those
    a flush moves, before new ones are queued behind the rest; none for a volatile
    address or without the predictor. *)
Definition sends (now : Z) (r : DramQueues.Req) (s s' : Bmo.t) (ids : list nat) : Prop :=
  if Backend.predictorEnabled (backend s) && isAddrNonVolatile (Packet.addr (DramQueues.pkt r)) then
    exists s1, FlushPendingBMOQueues dc now [DramQueues.ptr r] s = Ok s1 /\
      flushed now [DramQueues.ptr r] s s1 ids /\ extended (caches s1) (caches s')
  else ids = [] /\ caches s' = caches s.

Lemma handle_request_ok now n last acc r s :
  ok n last acc s -> valid r s -> 0 <= n -> n + cost s <= 4294967296 -> last <= now ->
  0 <= now < 9223372036854775808 -> Backend.predictorEnabled (backend s) = true ->
  exists p' s' ids, BMOHandleRequest e dc oversized now r s = Ok (p', s') /\
    same_packet (DramQueues.pkt r) p' /\ ok (n + cost s) now (acc ++ ids) s' /\
    unused [DramQueues.ptr r] (memory s') /\ sends now r s s' ids.
Proof.
  intros Hok [V1 V2 V3 V4 V5] Hn Hcost Hlast Hnow Hen. unfold BMOHandleRequest, sends, Packet.getPaddr.
  rewrite Hen. set (p := DramQueues.pkt r) in *. rewrite V3. cbn [Packet.valid mbind res_bind andb].
  assert (0 <= Packet.addr p < 4611686018427387904) as Ha by apply V1. unfold cost in *.
  destruct (isAddrNonVolatile _) eqn:Hnv.
  2:{ exists p, s, []. split; [done|]. split; [by split; try done; lia|]. rewrite app_nil_r. split; [|done].
      eapply ok_weaken; [..|done]; lia. }
  destruct (flush_all_ok now [DramQueues.ptr r] n last acc s Hok V2) as (s1 & ids & -> & Hfl & Hok1 & U1 & B1).
  cbn [mbind res_bind]. set (k := 13 * Z.of_nat (length _)) in *.
  destruct (check_pending_ok n last _ s1 Hok1 Hn) as (s2 & -> & Hok2 & M2 & X2 & B2);
    [rewrite B1; fold k; lia|]. rewrite B1 in Hok2, B2. fold k in Hok2.
  pose proof (ok_weaken (n + k) (n + k) last now _ s2 ltac:(lia) Hlast Hok2) as [C1 C2 C3 C4 C5].
  cbn [mbind res_bind].
  destruct (read_metadata_ok (n + k) p (Packet.addr p) (caches s2) C1) as (p' & c' & -> & Hsame & Hc' & X3);
    [lia|lia|done|done|done|].
  cbn [mbind res_bind]. rewrite <- M2 in U1. pose proof Hsame as [S1 S2 [S3 S3'] S4 S5 [S6 S6'] S7].
  assert (ok (n + k + 13) now (acc ++ ids) (Bmo.with_caches c' s2)) as Hok3 by (by split).
  assert (extended (caches s1) c') as X by by etrans.
  destruct (Packet.isWrite p' && Packet.hasData p' && Packet.hasPaddr p') eqn:Hwr.
  - apply andb_true_iff in Hwr as [[Hw _]%andb_true_iff _]. rewrite S1 in Hw.
    destruct (V4 Hw Hnv) as (words & Hline).
    destruct (handle_write_ok now (n + k + 13) p' (Packet.addr p) words _ _ Hok3
      (line_same _ _ _ _ Hsame Hline)) as (s' & -> & Hok' & M' & X' & B'); [lia|lia|done|lia|by rewrite S6|by rewrite S1|].
    exists p', s', ids. split; [done|]. split; [done|]. split; [eapply ok_weaken; [..|exact Hok']; lia|].
    rewrite M'. split; [done|]. exists s1. split; [done|]. split; [done|]. by etrans.
  - eexists p', _, ids. split; [done|]. split; [done|]. split; [eapply ok_weaken; [..|exact Hok3]; lia|].
    split; [done|]. by exists s1.
Qed.

Lemma dump_trace_ok p a words :
  Backend.line_pkt p a words -> dumpTrace p = Ok tt.
Proof.
  intros (L1 & L2 & L3 & L4). unfold dumpTrace, Packet.getPaddr, Packet.getPtr.
  rewrite L1, L2, L3. cbn. by case_match.
Qed.

(** C18: the memory controller as a whole, with at most one of encryption with
    verification and deduplication enabled.  In any state the invariant allows
    (predictions, packets the metadata caches wait to send, queues), and up to 2^32
    accesses to the metadata caches, a physical request that is, if it is a
    persistent write, one of a full line, is handled without a failed assertion,
    panic or undefined access.  For a persistent address the packets of each queue of
    the caches are moved to the controller's queues in order, as far as they fit, and
    new ones wait behind the rest.  Every request accepted before, every packet moved
    and, if it is accepted, the request itself is then answered exactly once or
    waits, and nothing else is.  The invariant holds again. *)
Theorem controller_handles_request now n last acc r s :
  ok n last acc s -> valid r s -> 0 <= n -> n + cost s <= 4294967296 -> last <= now ->
  0 <= now < 9223372036854775808 ->
  exists b p' s' ids, recvTimingReq e dc oversized now r s = Ok (b, p', s') /\
    same_packet (DramQueues.pkt r) p' /\ sends now r s s' ids /\
    let acc' := acc ++ ids ++ (if b : bool then [DramQueues.ptr r] else []) in
    ok (n + cost s) now acc' s' /\
    balance (DramQueues.to <$> DramQueues.answers (memory s')) (packet_of <$> waiting (memory s')) acc'.
Proof.
  intros Hok Hv Hn Hcost Hlast Hnow. unfold recvTimingReq.
  assert ((if Packet.isWrite (DramQueues.pkt r) then
     a ← Packet.getPaddr (DramQueues.pkt r); if is_paddr_pm a then dumpTrace (DramQueues.pkt r) else Ok tt
     else Ok tt) = Ok tt) as ->.
  { destruct (Packet.isWrite _) eqn:Hw; [|done]. unfold Packet.getPaddr. rewrite (va_paddr _ _ Hv).
    cbn [Packet.valid mbind res_bind]. destruct (is_paddr_pm _) eqn:Hpm; [|done].
    destruct (va_line _ _ Hv Hw Hpm) as (words & Hl). by eapply dump_trace_ok. }
  cbn [mbind res_bind].
  assert (exists p' s1 ids, (if Backend.predictorEnabled (backend s) then BMOHandleRequest e dc oversized now r s
      else Ok (DramQueues.pkt r, s)) = Ok (p', s1) /\ same_packet (DramQueues.pkt r) p' /\
      ok (n + cost s) now (acc ++ ids) s1 /\ unused [DramQueues.ptr r] (memory s1) /\ sends now r s s1 ids)
    as (p' & s1 & ids & -> & Hsame & Hok1 & Hu & Hsend).
  { destruct (Backend.predictorEnabled _) eqn:Hen; [by eapply handle_request_ok|].
    exists (DramQueues.pkt r), s, []. split; [done|]. rewrite app_nil_r.
    split; [split; try done; pose proof (va_misses _ _ Hv); lia|].
    split; [eapply ok_weaken; [..|done]; unfold cost in *; lia|]. split; [apply Hv|].
    unfold sends. by rewrite Hen. }
  cbn [mbind res_bind]. set (r' := DramQueues.mkReq _ p' _ _).
  assert (req_ok dc r') as Hr'.
  { destruct (va_req _ _ Hv) as [R1 R2 R3 R4 R5]. destruct Hsame as [S1 S2 _ S4 S5 [S6 _] _].
    split; cbn; rewrite ?S1, ?S2, ?S4, ?S5, ?S6; done. }
  destruct (enqueueReq_ok dc Hdc now r' (memory s1) (acc ++ ids) (ok_memory _ _ _ _ Hok1) Hr')
    as (b & m' & -> & Hg & _); [apply Hu; apply list_elem_of_here|].
  assert (good dc m' (acc ++ ids ++ (if b then [DramQueues.ptr r] else []))) as Hg'
    by (destruct b; [by rewrite app_assoc|by rewrite app_nil_r]).
  cbn [mbind res_bind]. eexists b, p', _, ids. split; [done|]. split; [done|].
  split; [|split; [|apply (gd_settled _ _ _ Hg')]].
  - unfold sends in *. cbn. by destruct (_ && _).
  - destruct Hok1 as [C1 C2 C3 C4 C5]. by split.
Qed.
End Requests.

(** ** Witnesses *)

Definition sample_env : env := mkEnv true false false false.

(** The backend of [Backend.sample_backend], its predictions used. *)
Definition sample_state : Bmo.t :=
  Bmo.mk (MetadataCache.new 64) (DramQueues.new DramSafety.sample_config)
    (Backend.with_enabled true true (Backend.with_writes
      (map CWE.mark_used <$> Backend.completedWrites Backend.sample_backend) Backend.sample_backend))
    ∅ 0 Stats.empty.

Lemma sample_lines : Backend.lines_ok (backend sample_state).
Proof.
  destruct (Backend.wf_lines _ Backend.sample_backend_wf) as [H1 H2]. split; [|done].
  intros a q. cbn [sample_state backend Backend.with_enabled Backend.with_writes Backend.completedWrites].
  rewrite lookup_fmap. destruct (_ !! a) as [q'|] eqn:E; [|done]. cbn. intros [= <-].
  destruct (H1 a q' E) as [H3 H4]. rewrite length_map. split; [done|].
  apply Forall_map. eapply Forall_impl; [exact H4|]. intros x [X1 X2 X3].
  split; [by apply CWE.mark_used_wf|done|done].
Qed.

Lemma sample_times a q : Backend.completedWrites (backend sample_state) !! a = Some q -> Forall (timely 9) q.
Proof.
  cbn [sample_state backend Backend.with_enabled Backend.with_writes Backend.completedWrites].
  intros (q' & <- & H)%lookup_fmap_Some. revert H. unfold Backend.sample_backend.
  cbn [Backend.completedWrites Backend.with_writes]. rewrite lookup_singleton_Some. intros [<- <-].
  repeat constructor; cbn; lia.
Qed.

Lemma sample_latency_witness_times : times_ok 9 (Backend.sample_prediction 0x240000040).
Proof. vm_compute. repeat split; discriminate. Qed.

Lemma write_latency_bounds_witness :
  exists l st, getWriteLatency sample_env 9 Backend.sample_pkt (Backend.sample_prediction 0x240000040) true
      Stats.empty = Ok (l, st) /\ 0 <= l <= worst_case Backend.sample_pkt.
Proof.
  destruct (write_latency_bounds sample_env 9 Backend.sample_pkt (Backend.sample_prediction 0x240000040) true
    Stats.empty) as (l & st & E & _ & Hl & _);
    [apply sample_latency_witness_times|reflexivity|split; vm_compute; discriminate|].
  exists l, st. split; [exact E|exact Hl].
Defined.

Lemma bmo_write_spec_witness :
  exists s', BMOHandleWriteRequest sample_env 9 Backend.sample_pkt sample_state = Ok s' /\
    Backend.completedWrites (backend s') !! 0x240000040 =
      Some [CWE.mark_used (Backend.sample_prediction 0x240000040)].
Proof.
  pose proof (bmo_write_spec sample_env 9 Backend.sample_pkt 0x240000040 Backend.sample_words sample_state) as H.
  cbn [isEVEnabled isDWEnabled sample_env andb] in H.
  destruct H as (s' & E & Hq & _);
    [apply Backend.sample_pkt_pm|apply sample_lines| |lia|split; vm_compute; discriminate|].
  - unfold line_timely. destruct (_ !! _) eqn:E; [by eapply sample_times|constructor].
  - exists s'. split; [exact E|]. rewrite Hq, lookup_insert_eq. vm_compute. reflexivity.
Defined.

Lemma unpredicted_write_undefined_witness :
  exists s', BMOHandleWriteRequest sample_env 9 (Packet.store 0x10000000080 0x240000080 0x500 Backend.sample_words)
      sample_state = Ok s' /\
    @Backend.addCompletedWrite tree_order Backend.sample_pt (fun _ => true) (fun _ => true) 10
      (Backend.sample_prediction 0x10000000040) (backend s') = Fail Undefined.
Proof.
  destruct (@unpredicted_write_undefined tree_order Backend.sample_pt (fun _ => true) (fun _ => true)
    sample_env 9 10 (Packet.store 0x10000000080 0x240000080 0x500 Backend.sample_words) 0x240000080
    Backend.sample_words sample_state (Backend.sample_prediction 0x10000000040) 0x240000040) as (s' & E & _ & F);
    [reflexivity|repeat split|apply sample_lines|lia|split; vm_compute; discriminate|reflexivity|reflexivity
    |apply Backend.sample_prediction_wf|apply Backend.sample_pcs_known|vm_compute; reflexivity|discriminate|].
  exists s'. split; [exact E|exact F].
Defined.

Lemma sample_ok : ok DramSafety.sample_config 0 9 [] sample_state.
Proof.
  split.
  - exists (MetadataCache.mkRef ∅ []). split; [apply MetadataCache.new_refines|].
    split; [constructor|]. split; [reflexivity|constructor..].
  - apply DramSafety.new_good, DramSafety.sample_config_ok.
  - apply sample_lines.
  - apply sample_times.
  - constructor.
Qed.

Lemma controller_handles_request_witness :
  exists p' s', @recvTimingReq tree_order sample_env DramSafety.sample_config (fun _ => 0) 12
      (DramQueues.mkReq 7 Backend.sample_pkt 1 0) sample_state = Ok (true, p', s') /\
    DramSafety.balance (DramQueues.to <$> DramQueues.answers (memory s'))
      (DramSafety.packet_of <$> DramSafety.waiting (memory s')) [7%nat].
Proof.
  destruct (@controller_handles_request tree_order sample_env DramSafety.sample_config (fun _ => 0)
    DramSafety.sample_config_ok eq_refl 12 0 9 [] (DramQueues.mkReq 7 Backend.sample_pkt 1 0) sample_state)
    as (b & p' & s' & ids & E & _ & Hs & _ & Hb).
  - apply sample_ok.
  - split; cbn [DramQueues.pkt DramQueues.ptr].
    + split; cbn; try done; [lia|by left].
    + intros u _. vm_compute. apply not_elem_of_nil.
    + reflexivity.
    + intros _ _. exists Backend.sample_words. apply Backend.sample_pkt_pm.
    + vm_compute. split; discriminate.
  - lia.
  - vm_compute. discriminate.
  - lia.
  - lia.
  - assert (b = true) as -> by exact (ok_check (fun x => x.1.1 = true) _ (b, p', s') E ltac:(vm_compute; reflexivity)).
    exists p', s'. split; [exact E|]. destruct ids as [|i ids]; [exact Hb|].
    destruct Hs as (s1 & _ & (m1 & m2 & i1 & i2 & i3 & Ei & D1 & D2 & D3) & _).
    destruct D1 as (t1 & T1 & L1 & _), D2 as (t2 & T2 & L2 & _), D3 as (t3 & T3 & L3 & _).
    symmetry in T1, T2, T3. apply app_nil in T1 as [-> _], T2 as [-> _], T3 as [-> _].
    apply nil_length_inv in L1 as ->, L2 as ->, L3 as ->. discriminate Ei.
Defined.

End BmoSafety.
