(* ===== verification/PmemTx.v ===== *)
(** * Persistent objects and transactions

    The workloads the simulator runs keep their data in pools of [libpmemobj].
    This file holds what their sources use of that library, as the manual pages
    of [pmemobj_tx_begin], [pmemobj_tx_add_range], [pmemobj_tx_alloc] and
    [pmemobj_tx_free] document it: objects with a type number, a transaction that
    restores every snapshot it took when it aborts or when the power fails, and
    memory that is released only when the transaction commits.

    A program that runs in a transaction is a state transformer [tx A].  Every
    call of the library and every store is followed by the next [fate] of an
    oracle, which says whether the machine goes on, the transaction aborts (only
    calls of the library can) or the power fails, so a theorem that holds for all
    oracles speaks of failures at every point of the program. *)

From S2P Require Import Prelude.

(** An object identifier ([PMEMoid]) of the one open pool; 0 is [OID_NULL]. *)
Notation oid := Z (only parsing).
Definition OID_NULL : oid := 0.
Definition OID_IS_NULL (o : oid) : bool := o =? 0.

(** A field of an object, by its position in the struct, with what it holds:
    an integer, an object identifier, or a struct of a key and an identifier.
    [Junk] is the content of memory that was allocated without being zeroed. *)
Notation ptr := (Z * nat)%type (only parsing).
Inductive cell :=
| Int (n : Z)
| Oid (o : oid)
| Item (key : Z) (value : oid)
| Junk.

#[global] Instance cell_eq_dec : EqDecision cell.
Proof. solve_decision. Defined.

(** The pool: the fields of its objects, and the type number of each object. *)
Record heap := mkHeap { cells : gmap ptr cell; types : gmap oid Z }.

Inductive fate := Go | AbortTx | PowerLoss.

(** The pool with the running transaction: whether there is one, the snapshots
    taken, latest first, the objects it allocated and those it will free. *)
Record state := mkState {
  pool : heap;
  active : bool;
  undo : list (ptr * cell);
  news : gset oid;
  frees : gset oid
}.

Definition idle (h : heap) : state := mkState h false [] ∅ ∅.

Inductive outcome (A : Type) :=
| Done (a : A) (orc : list fate) (s : state)
| Aborted (orc : list fate) (s : state)
| Crashed (s : state)
| Wrong (f : fault).
Arguments Done {A} a orc s.
Arguments Aborted {A} orc s.
Arguments Crashed {A} s.
Arguments Wrong {A} f.

Definition tx (A : Type) : Type := list fate -> state -> outcome A.

#[global] Instance tx_ret : MRet tx := fun A a orc s => Done a orc s.
#[global] Instance tx_bind : MBind tx := fun A B f m orc s =>
  match m orc s with
  | Done a orc' s' => f a orc' s'
  | Aborted orc' s' => Aborted orc' s'
  | Crashed s' => Crashed s'
  | Wrong e => Wrong e
  end.

Definition fail {A} (f : fault) : tx A := fun _ _ => Wrong f.

(** Where the allocator places the next object: any place that is not in use. *)
Class Allocator := {
  new_oid : gmap oid Z -> oid;
  new_oid_unused : forall ts, ts !! new_oid ts = None;
  new_oid_not_null : forall ts, new_oid ts <> OID_NULL
}.

(** An allocator to evaluate with: one past the highest object. *)
Definition highest (ts : gmap oid Z) : Z := foldr Z.max 0 (map_to_list ts).*1.

Lemma highest_le ts o ty : ts !! o = Some ty -> o <= highest ts.
Proof.
  intros H. unfold highest. apply elem_of_map_to_list in H.
  apply (list_elem_of_fmap_2 fst) in H. cbn in H.
  induction H as [o l|o o' l H IH]; cbn; lia.
Qed.

Lemma highest_nonneg ts : 0 <= highest ts.
Proof. unfold highest. induction (map_to_list ts).*1; cbn; lia. Qed.

#[local] Lemma bump_unused ts : ts !! (highest ts + 1) = None.
Proof.
  destruct (ts !! (highest ts + 1)) as [ty|] eqn:E; [|done].
  apply highest_le in E. lia.
Qed.

#[local] Lemma bump_not_null ts : highest ts + 1 <> OID_NULL.
Proof. pose proof (highest_nonneg ts). unfold OID_NULL. lia. Qed.

Definition bump_allocator : Allocator :=
  {| new_oid ts := highest ts + 1; new_oid_unused := bump_unused;
     new_oid_not_null := bump_not_null |}.

(** ** The calls *)
Section Calls.
Context `{A0 : Allocator}.

Definition with_cells (m : gmap ptr cell) (s : state) : state :=
  mkState (mkHeap m (types (pool s))) (active s) (undo s) (news s) (frees s).

(** The next fate, for a call that may abort and for a store, which may not. *)
Definition may_abort (k : tx unit) : tx unit := fun orc s =>
  match orc with
  | PowerLoss :: _ => Crashed s
  | AbortTx :: orc' => Aborted orc' s
  | Go :: orc' => k orc' s
  | [] => k [] s
  end.

Definition may_crash (k : tx unit) : tx unit := fun orc s =>
  match orc with
  | PowerLoss :: _ => Crashed s
  | _ => k (tail orc) s
  end.

(** The call is made inside a transaction; the library stops the program otherwise. *)
Definition in_tx (k : tx unit) : tx unit := fun orc s =>
  if active s then k orc s else Wrong Panic.

Definition load (p : ptr) : tx cell := fun orc s =>
  match cells (pool s) !! p with
  | Some c => Done c orc s
  | None => Wrong Undefined
  end.

Definition load_int (p : ptr) : tx Z :=
  c ← load p; match c with Int n => mret n | _ => fail Undefined end.
Definition load_oid (p : ptr) : tx oid :=
  c ← load p; match c with Oid o => mret o | _ => fail Undefined end.
Definition load_item (p : ptr) : tx (Z * oid) :=
  c ← load p; match c with Item k v => mret (k, v) | _ => fail Undefined end.

Definition put (p : ptr) (c : cell) (s : state) : state :=
  with_cells (<[p := c]> (cells (pool s))) s.

Definition store (p : ptr) (c : cell) : tx unit :=
  load p ;; may_crash (fun orc s => Done tt orc (put p c s)).

(** [TX_ADD_FIELD], [pmemobj_tx_add_range_direct]: a snapshot of one field. *)
Definition snapshot (p : ptr) (c : cell) (s : state) : state :=
  mkState (pool s) (active s) ((p, c) :: undo s) (news s) (frees s).

Definition tx_add (p : ptr) : tx unit :=
  c ← load p; in_tx (may_abort (fun orc s => Done tt orc (snapshot p c s))).

(** [TX_ADD]: a snapshot of the first [n] fields of an object. *)
Fixpoint tx_add_fields (o : oid) (n : nat) : tx unit :=
  match n with
  | O => mret tt
  | S n' => tx_add_fields o n' ;; tx_add (o, n')
  end.

(** [pmemobj_tx_alloc], [pmemobj_tx_zalloc]: an object with the given fields. *)
Fixpoint put_fields (o : oid) (i : nat) (cs : list cell) (m : gmap ptr cell) : gmap ptr cell :=
  match cs with
  | [] => m
  | c :: cs' => <[(o, i) := c]> (put_fields o (S i) cs' m)
  end.

Definition add_object (o : oid) (ty : Z) (cs : list cell) (s : state) : state :=
  mkState (mkHeap (put_fields o 0 cs (cells (pool s))) (<[o := ty]> (types (pool s))))
    (active s) (undo s) ({[o]} ∪ news s) (frees s).

Definition tx_alloc (ty : Z) (cs : list cell) : tx oid := fun orc s =>
  let o := new_oid (types (pool s)) in
  (in_tx (may_abort (fun orc s => Done tt orc (add_object o ty cs s))) ;; mret o) orc s.

(** [TX_FREE]: the object is released at the end of the transaction. *)
Definition release (o : oid) (s : state) : state :=
  mkState (pool s) (active s) (undo s) (news s) ({[o]} ∪ frees s).

Definition tx_free (o : oid) : tx unit :=
  in_tx (if OID_IS_NULL o then mret tt else may_abort (fun orc s =>
    if bool_decide (is_Some (types (pool s) !! o) /\ o ∉ frees s)
    then Done tt orc (release o s) else Wrong Undefined)).

(** [OID_INSTANCEOF(o, t)]: [pmemobj_type_num] asserts a valid object. *)
Definition OID_INSTANCEOF (o : oid) (ty : Z) : tx bool := fun orc s =>
  if OID_IS_NULL o then Wrong AssertFailure else
  match types (pool s) !! o with
  | Some ty' => Done (ty' =? ty) orc s
  | None => Wrong AssertFailure
  end.

(** ** Begin and end of a transaction *)
Definition undone (s : state) : gmap ptr cell :=
  foldl (fun m pc => <[pc.1 := pc.2]> m) (cells (pool s)) (undo s).

(** What an abort, or the recovery when the pool is opened after a power
    failure, makes of the pool. *)
Definition rollback (s : state) : heap :=
  mkHeap (filter (fun pc => pc.1.1 ∉ news s) (undone s))
         (filter (fun ot => ot.1 ∉ news s) (types (pool s))).

Definition commit (s : state) : heap :=
  mkHeap (filter (fun pc => pc.1.1 ∉ frees s) (cells (pool s)))
         (filter (fun ot => ot.1 ∉ frees s) (types (pool s))).

Definition begin (h : heap) : state := mkState h true [] ∅ ∅.

(** [TX_BEGIN(pop) { body } TX_ONABORT { onabort } TX_END]: a transaction inside
    another one belongs to it, and its abort is the abort of the outer one. *)
Definition TX {A} (body : tx A) (onabort : A) : tx A := fun orc s =>
  if active s then body orc s else
  match body orc (begin (pool s)) with
  | Done a orc' s' =>
      match orc' with
      | PowerLoss :: _ => Crashed (idle (rollback s'))
      | _ => Done a (tail orc') (idle (commit s'))
      end
  | Aborted orc' s' => Done onabort orc' (idle (rollback s'))
  | Crashed s' => Crashed (idle (rollback s'))
  | Wrong f => Wrong f
  end.
End Calls.

(** ** Reasoning about transactions *)

(** A computation that only reads: it returns [a] and changes nothing. *)
Definition reads {A} (s : state) (c : tx A) (a : A) : Prop := forall orc, c orc s = Done a orc s.

(** Every field belongs to an object. *)
Definition wf_heap (h : heap) : Prop :=
  forall p c, cells h !! p = Some c -> is_Some (types h !! p.1).

(** The transaction that began with the pool [h0] can still be undone. *)
Record restores (h0 : heap) (s : state) : Prop := mkRestores {
  res_active : active s = true;
  res_cells : forall p, p.1 ∉ news s -> undone s !! p = cells h0 !! p;
  res_types : forall o, o ∉ news s -> types (pool s) !! o = types h0 !! o;
  res_news : forall o, o ∈ news s -> types h0 !! o = None;
  res_wf : wf_heap (pool s)
}.

(** A field that may be written: its snapshot was taken, or its object is new. *)
Definition covered (s : state) (p : ptr) : Prop := p ∈ (undo s).*1 \/ p.1 ∈ news s.

(** [wp h0 c Q s]: started in [s], [c] has no undefined behaviour and fails no
    assertion, returns to a state of [Q] unless the oracle interrupts it, and
    whenever it is interrupted the pool [h0] can be restored. *)
Definition wp {A} (h0 : heap) (c : tx A) (Q : A -> state -> Prop) (s : state) : Prop :=
  forall orc, restores h0 s ->
  match c orc s with
  | Done a orc' s' => orc' `suffix_of` orc /\ restores h0 s' /\ Q a s'
  | Aborted orc' s' => orc' `suffix_of` orc /\ AbortTx ∈ orc /\ restores h0 s'
  | Crashed s' => PowerLoss ∈ orc /\ restores h0 s'
  | Wrong _ => False
  end.

Section Undo.
Implicit Types (l : list (ptr * cell)) (m : gmap ptr cell).

Lemma undo_agree (P : ptr -> Prop) l m1 m2 :
  (forall p, P p -> p ∉ l.*1 -> m1 !! p = m2 !! p) ->
  forall p, P p -> foldl (fun m pc => <[pc.1 := pc.2]> m) m1 l !! p =
                   foldl (fun m pc => <[pc.1 := pc.2]> m) m2 l !! p.
Proof.
  revert m1 m2. induction l as [|[q c] l IH]; intros m1 m2 H p Hp; cbn.
  - apply H; [done|]. cbn. set_solver.
  - apply IH; [|done]. intros p' Hp' Hl. destruct (decide (q = p')) as [->|Hne].
    + by rewrite !lookup_insert_eq.
    + rewrite !lookup_insert_ne by done. apply H; [done|]. cbn. set_solver.
Qed.

Lemma rollback_restores h0 s : wf_heap h0 -> restores h0 s -> rollback s = h0.
Proof.
  intros Hwf [_ Hc Ht Hn _]. destruct h0 as [cs ts]. unfold rollback. f_equal.
  - apply map_eq. intros p. destruct (decide (p.1 ∈ news s)) as [Hp|Hp].
    + transitivity (@None cell).
      { apply map_lookup_filter_None. right. intros c _ H. by apply H. }
      symmetry. apply eq_None_not_Some. intros [c E]. destruct (Hwf p c E) as [ty Hty].
      cbn in Hty. specialize (Hn _ Hp). cbn in Hn. congruence.
    + specialize (Hc p Hp). cbn in Hc. rewrite <- Hc. destruct (undone s !! p) as [c|] eqn:E.
      * by apply map_lookup_filter_Some.
      * apply map_lookup_filter_None. by left.
  - apply map_eq. intros o. destruct (decide (o ∈ news s)) as [Ho|Ho].
    + specialize (Hn o Ho). cbn in Hn. rewrite Hn. apply map_lookup_filter_None. right. intros c _ H. by apply H.
    + specialize (Ht o Ho). cbn in Ht. rewrite <- Ht.
      destruct (types (pool s) !! o) as [c|] eqn:E.
      * by apply map_lookup_filter_Some.
      * apply map_lookup_filter_None. by left.
Qed.
End Undo.

(** How the steps of a transaction keep it undoable. *)
Section Restores.
Context `{A0 : Allocator} (h0 : heap).

Lemma restores_begin : wf_heap h0 -> restores h0 (begin h0).
Proof. intros Hwf. split; [done|done|done|cbn; set_solver|done]. Qed.

Lemma restores_put p c s :
  is_Some (cells (pool s) !! p) -> covered s p -> restores h0 s -> restores h0 (put p c s).
Proof.
  intros [c' E] Hp [H1 H2 H3 H4 H5]. split; [done| |done|done|].
  - intros q Hq. rewrite <- (H2 q Hq). unfold undone, put, with_cells. cbn in *.
    apply (undo_agree (fun q => q.1 ∉ news s)); [|done]. intros p' Hp' Hl.
    apply lookup_insert_ne. intros ->. by destruct Hp.
  - intros q c0. cbn. destruct (decide (p = q)) as [->|].
    + intros _. by eapply H5.
    + rewrite lookup_insert_ne by done. apply H5.
Qed.

Lemma restores_snapshot p c s :
  cells (pool s) !! p = Some c -> restores h0 s -> restores h0 (snapshot p c s).
Proof.
  intros E [H1 H2 H3 H4 H5]. split; [done| |done|done|done]. intros q Hq. rewrite <- (H2 q Hq).
  unfold undone, snapshot. cbn. by rewrite insert_id.
Qed.

Lemma restores_release o s : restores h0 s -> restores h0 (release o s).
Proof. by intros [H1 H2 H3 H4 H5]. Qed.

Lemma lookup_put_fields o i cs m p :
  put_fields o i cs m !! p =
    if bool_decide (p.1 = o /\ (i <= p.2)%nat /\ (p.2 - i < length cs)%nat)
    then cs !! (p.2 - i)%nat else m !! p.
Proof.
  revert i. induction cs as [|c cs IH]; intros i; cbn.
  { by rewrite bool_decide_false by lia. }
  destruct p as [o' j]. destruct (decide ((o, i) = (o', j))) as [[= -> ->]|Hne].
  - rewrite lookup_insert_eq, bool_decide_true by (cbn; lia). cbn. by rewrite Nat.sub_diag.
  - rewrite lookup_insert_ne, IH by done. cbn. repeat case_bool_decide; try done.
    + destruct (j - i)%nat as [|n] eqn:En; [lia|]. cbn. f_equal. lia.
    + lia.
    + exfalso. destruct H0 as (-> & ? & ?). assert (i <> j) by congruence. lia.
Qed.

Lemma restores_alloc o ty cs s :
  types (pool s) !! o = None -> restores h0 s -> restores h0 (add_object o ty cs s).
Proof.
  intros Ho [H1 H2 H3 H4 H5]. unfold add_object. split; cbn; [done| | | |].
  - intros p Hp. assert (p.1 <> o /\ p.1 ∉ news s) as [Hpo Hpn] by set_solver.
    rewrite <- (H2 p Hpn). unfold undone. cbn.
    apply (undo_agree (fun q => q.1 <> o)); [|done].
    intros q Hq _. rewrite lookup_put_fields. by rewrite bool_decide_false by naive_solver.
  - intros o' Ho'. rewrite lookup_insert_ne by set_solver. apply H3. set_solver.
  - intros o' Ho'. destruct (decide (o' ∈ news s)) as [|Hn]; [by apply H4|].
    assert (o' = o) as -> by set_solver. by rewrite <- H3.
  - intros p c. cbn. rewrite lookup_put_fields. case_bool_decide as Hp.
    + intros _. destruct Hp as [-> _]. rewrite lookup_insert_eq. eauto.
    + intros E. destruct (decide (o = p.1)) as [->|]; [rewrite lookup_insert_eq; eauto|].
      rewrite lookup_insert_ne by done. by eapply H5.
Qed.
End Restores.

#[global] Arguments put_fields : simpl never.

(** *** Rules *)
Lemma elem_of_suffix {A} (x : A) l l' : l `suffix_of` l' -> x ∈ l -> x ∈ l'.
Proof. intros [k ->] H. apply elem_of_app. by right. Qed.

Section Reads.
Context (s : state).

Lemma reads_ret {A} (a : A) : reads s (mret a) a.
Proof. done. Qed.

Lemma reads_bind {A B} (c : tx A) (k : A -> tx B) a b :
  reads s c a -> reads s (k a) b -> reads s (c ≫= k) b.
Proof. intros H1 H2 orc. unfold mbind, tx_bind. by rewrite (H1 orc). Qed.

Lemma reads_load p c : cells (pool s) !! p = Some c -> reads s (load p) c.
Proof. intros E orc. unfold load. by rewrite E. Qed.

Lemma reads_int p n : cells (pool s) !! p = Some (Int n) -> reads s (load_int p) n.
Proof. intros E. eapply reads_bind; [by apply reads_load|done]. Qed.

Lemma reads_oid p o : cells (pool s) !! p = Some (Oid o) -> reads s (load_oid p) o.
Proof. intros E. eapply reads_bind; [by apply reads_load|done]. Qed.

Lemma reads_item p k v : cells (pool s) !! p = Some (Item k v) -> reads s (load_item p) (k, v).
Proof. intros E. eapply reads_bind; [by apply reads_load|done]. Qed.

Lemma reads_instanceof o ty ty' :
  o <> OID_NULL -> types (pool s) !! o = Some ty' -> reads s (OID_INSTANCEOF o ty) (ty' =? ty).
Proof.
  intros Ho E orc. unfold OID_INSTANCEOF, OID_IS_NULL. destruct (Z.eqb_spec o 0); [done|].
  by rewrite E.
Qed.
End Reads.

Section Rules.
Context `{A0 : Allocator} {h0 : heap}.
Implicit Types s : state.

Lemma wp_ret {A} (a : A) Q s : Q a s -> wp h0 (mret a) Q s.
Proof. by intros HQ orc Hs. Qed.

Lemma wp_bind {A B} (c : tx A) (k : A -> tx B) Q s :
  wp h0 c (fun a s' => wp h0 (k a) Q s') s -> wp h0 (c ≫= k) Q s.
Proof.
  intros H orc Hs. specialize (H orc Hs). unfold mbind, tx_bind.
  destruct (c orc s) as [a orc1 s1|orc1 s1|s1|]; [|done..]. destruct H as (Ho & Hr & HQ).
  specialize (HQ orc1 Hr). destruct (k a orc1 s1) as [b orc2 s2|orc2 s2|s2|]; [| | |done].
  - destruct HQ as (Ho' & ? & ?). split; [by etrans|done].
  - destruct HQ as (Ho' & ? & ?). split; [by etrans|]. split; [|done]. by eapply elem_of_suffix.
  - destruct HQ as (? & ?). split; [|done]. by eapply elem_of_suffix.
Qed.

Lemma wp_mono {A} (c : tx A) (Q Q' : A -> state -> Prop) s :
  (forall a s', Q a s' -> Q' a s') -> wp h0 c Q s -> wp h0 c Q' s.
Proof.
  intros HQ H orc Hs. specialize (H orc Hs). destruct (c orc s); naive_solver.
Qed.

(** What holds of every undoable state may be used. *)
Lemma wp_restores {A} (c : tx A) Q s : (restores h0 s -> wp h0 c Q s) -> wp h0 c Q s.
Proof. intros H orc Hs. by apply H. Qed.

Lemma wp_reads {A B} (c : tx A) (k : A -> tx B) a Q s :
  reads s c a -> wp h0 (k a) Q s -> wp h0 (c ≫= k) Q s.
Proof. intros H HQ orc Hs. unfold mbind, tx_bind. rewrite (H orc). by apply HQ. Qed.

(** A call that may abort, and a store. *)
Lemma wp_may_abort (f : state -> state) Q s :
  (restores h0 s -> restores h0 (f s)) -> Q tt (f s) ->
  wp h0 (in_tx (may_abort (fun orc s => Done tt orc (f s)))) Q s.
Proof.
  intros Hf HQ orc Hs. unfold in_tx, may_abort. rewrite (res_active _ _ Hs).
  destruct orc as [|[] orc]; cbn; [by auto|split; [by apply suffix_cons_r|by auto]| |].
  - split; [by apply suffix_cons_r|]. split; [by left|done].
  - split; [by left|done].
Qed.

Lemma wp_may_crash (f : state -> state) Q s :
  (restores h0 s -> restores h0 (f s)) -> Q tt (f s) ->
  wp h0 (may_crash (fun orc s => Done tt orc (f s))) Q s.
Proof.
  intros Hf HQ orc Hs. unfold may_crash.
  destruct orc as [|[] orc]; cbn; [by auto|split; [by apply suffix_cons_r|by auto]..|].
  split; [by left|done].
Qed.

Lemma wp_store p c s Q :
  is_Some (cells (pool s) !! p) -> covered s p -> Q tt (put p c s) -> wp h0 (store p c) Q s.
Proof.
  intros [c' E] Hc HQ. eapply wp_reads; [by apply reads_load|].
  apply wp_may_crash; [|done]. intros Hr. apply restores_put; [by eexists|done|done].
Qed.

Lemma wp_tx_add p c s Q :
  cells (pool s) !! p = Some c -> Q tt (snapshot p c s) -> wp h0 (tx_add p) Q s.
Proof.
  intros E HQ. eapply wp_reads; [by apply reads_load|].
  apply (wp_may_abort (snapshot p c)); [|done]. by apply restores_snapshot.
Qed.

Lemma wp_tx_alloc ty cs s Q :
  (forall o, types (pool s) !! o = None -> o <> OID_NULL -> Q o (add_object o ty cs s)) ->
  wp h0 (tx_alloc ty cs) Q s.
Proof.
  intros HQ. set (o := new_oid (types (pool s))).
  assert (wp h0 (in_tx (may_abort (fun orc s => Done tt orc (add_object o ty cs s))) ;; mret o) Q s) as H.
  { apply wp_bind, (wp_may_abort (add_object o ty cs)); [apply restores_alloc, new_oid_unused|].
    apply wp_ret, HQ; [apply new_oid_unused|apply new_oid_not_null]. }
  exact H.
Qed.

Lemma wp_tx_free o s Q :
  is_Some (types (pool s) !! o) -> o ∉ frees s -> o <> OID_NULL ->
  Q tt (release o s) -> wp h0 (tx_free o) Q s.
Proof.
  intros Ho Hf Hn HQ orc Hs. unfold tx_free, OID_IS_NULL. rewrite (proj2 (Z.eqb_neq o 0)) by done.
  pose proof (wp_may_abort (release o) Q s (restores_release h0 o s) HQ orc Hs) as H.
  unfold in_tx, may_abort in *. rewrite (res_active _ _ Hs) in *.
  destruct orc as [|[]]; rewrite ?bool_decide_true by done; done.
Qed.

Lemma wp_tx_free_null s (Q : unit -> state -> Prop) : Q tt s -> wp h0 (tx_free OID_NULL) Q s.
Proof. intros HQ orc Hs. unfold tx_free, in_tx. by rewrite (res_active _ _ Hs). Qed.

(** A nested transaction is part of the outer one. *)
Lemma wp_TX {A} (body : tx A) a Q s : wp h0 body Q s -> wp h0 (TX body a) Q s.
Proof.
  intros H orc Hs. unfold TX. rewrite (res_active _ _ Hs). by apply H.
Qed.
End Rules.

(** What a commit keeps: everything but the freed objects. *)
Lemma cells_commit s p : p.1 ∉ frees s -> cells (commit s) !! p = cells (pool s) !! p.
Proof.
  intros Hp. cbn. destruct (cells (pool s) !! p) as [c|] eqn:E.
  - by apply map_lookup_filter_Some.
  - apply map_lookup_filter_None. by left.
Qed.

Lemma types_commit s o : o ∉ frees s -> types (commit s) !! o = types (pool s) !! o.
Proof.
  intros Ho. cbn. destruct (types (pool s) !! o) as [c|] eqn:E.
  - by apply map_lookup_filter_Some.
  - apply map_lookup_filter_None. by left.
Qed.

Lemma types_freed s o : o ∈ frees s -> types (commit s) !! o = None.
Proof. intros Ho. apply map_lookup_filter_None. right. intros ty _ H. by apply H. Qed.

(** Objects of types other than [own] keep their type and, but for the object
    [map], their fields. *)
Definition keeps (own : Z -> bool) (map : oid) (h h' : heap) : Prop :=
  forall o ty, types h !! o = Some ty -> own ty = false ->
    types h' !! o = Some ty /\
    (o <> map -> forall i, cells h' !! (o, i) = cells h !! (o, i)).

Lemma keeps_refl own map h : keeps own map h h.
Proof. done. Qed.

Lemma keeps_trans own map h1 h2 h3 :
  keeps own map h1 h2 -> keeps own map h2 h3 -> keeps own map h1 h3.
Proof.
  intros H1 H2 o ty Ho Hty. destruct (H1 o ty Ho Hty) as [T1 C1].
  destruct (H2 o ty T1 Hty) as [T2 C2]. split; [done|]. intros Hm i. by rewrite C2, C1.
Qed.

Lemma keeps_put own map h p c s :
  (p.1 = map \/ match types h !! p.1 with Some ty => own ty = true | None => True end) ->
  keeps own map h (pool s) -> keeps own map h (pool (put p c s)).
Proof.
  intros Hp H o ty Ho Hty. destruct (H o ty Ho Hty) as [T C]. split; [done|].
  intros Hm i. cbn. rewrite lookup_insert_ne; [by apply C|]. intros ->. cbn in Hp.
  rewrite Ho in Hp. destruct Hp; congruence.
Qed.

Lemma keeps_alloc own map h o ty cs s :
  types (pool s) !! o = None -> keeps own map h (pool s) ->
  keeps own map h (pool (add_object o ty cs s)).
Proof.
  intros Hn H o' ty' Ho' Hty. destruct (H o' ty' Ho' Hty) as [T C].
  assert (o <> o') by congruence. cbn. rewrite lookup_insert_ne by done. split; [done|].
  intros Hm i. rewrite lookup_put_fields, bool_decide_false by (cbn; intros [? _]; congruence).
  by apply C.
Qed.

Lemma keeps_commit own map h s :
  (forall o ty, o ∈ frees s -> types h !! o = Some ty -> own ty = true) ->
  keeps own map h (pool s) -> keeps own map h (commit s).
Proof.
  intros Hf H o ty Ho Hty. destruct (H o ty Ho Hty) as [T C].
  assert (o ∉ frees s) as Hn by (intros Hin; specialize (Hf o ty Hin Ho); congruence).
  rewrite types_commit by done. split; [done|]. intros Hm i. rewrite cells_commit by done.
  by apply C.
Qed.

(** All objects but those of [os] keep their type and, but for the object [map],
    their fields. *)
Definition spares (os : list oid) (map : oid) (h h' : heap) : Prop :=
  forall o ty, types h !! o = Some ty -> o ∉ os ->
    types h' !! o = Some ty /\
    (o <> map -> forall i, cells h' !! (o, i) = cells h !! (o, i)).

Lemma spares_refl os map h : spares os map h h.
Proof. done. Qed.

Lemma spares_keeps own os map h h' :
  (forall o, o ∈ os -> exists ty, types h !! o = Some ty /\ own ty = true) ->
  spares os map h h' -> keeps own map h h'.
Proof.
  intros Hos H o ty Ho Hty. apply H; [done|]. intros (ty' & Ho' & Hty')%Hos. congruence.
Qed.

Lemma spares_put os map h p c s :
  p.1 = map \/ p.1 ∈ os \/ types h !! p.1 = None ->
  spares os map h (pool s) -> spares os map h (pool (put p c s)).
Proof.
  intros Hp H o ty Ho Hos. destruct (H o ty Ho Hos) as [T C]. split; [done|].
  intros Hm i. cbn. rewrite lookup_insert_ne; [by apply C|]. intros ->. cbn in Hp.
  destruct Hp as [?|[?|?]]; congruence.
Qed.

Lemma spares_alloc os map h o ty cs s :
  types (pool s) !! o = None -> spares os map h (pool s) ->
  spares os map h (pool (add_object o ty cs s)).
Proof.
  intros Hn H o' ty' Ho' Hos. destruct (H o' ty' Ho' Hos) as [T C].
  assert (o <> o') by congruence. cbn. rewrite lookup_insert_ne by done. split; [done|].
  intros Hm i. rewrite lookup_put_fields, bool_decide_false by (cbn; intros [? _]; congruence).
  by apply C.
Qed.

Lemma spares_commit os map h s :
  (forall o, o ∈ frees s -> o ∈ os) -> spares os map h (pool s) -> spares os map h (commit s).
Proof.
  intros Hf H o ty Ho Hos. destruct (H o ty Ho Hos) as [T C]. assert (o ∉ frees s) as Hn by auto.
  rewrite types_commit by done. split; [done|]. intros Hm i. rewrite cells_commit by done. by apply C.
Qed.

(** *** The outermost transaction

    [atomic h c onabort Q]: called outside a transaction on the pool [h], [c]
    has no undefined behaviour, and either returns with a pool of [Q], or leaves
    [h] exactly as it was: the transaction aborted and [onabort] is returned, or
    the power failed and the recovery restored [h].  It is interrupted only if
    the oracle says so. *)
Definition atomic {A} (h : heap) (c : tx A) (onabort : A) (Q : A -> heap -> Prop) : Prop :=
  forall orc,
  match c orc (idle h) with
  | Done a orc' s' =>
      orc' `suffix_of` orc /\
      ((exists h', s' = idle h' /\ Q a h') \/ (AbortTx ∈ orc /\ a = onabort /\ s' = idle h))
  | Crashed s' => PowerLoss ∈ orc /\ s' = idle h
  | Aborted _ _ | Wrong _ => False
  end.

Lemma wf_commit s : wf_heap (pool s) -> wf_heap (commit s).
Proof.
  intros H p c [E Hp]%map_lookup_filter_Some. destruct (H p c E) as [ty Hty].
  exists ty. by apply map_lookup_filter_Some.
Qed.

Lemma atomic_TX {A} (h : heap) (body : tx A) (onabort : A) (Q : A -> heap -> Prop) :
  wf_heap h -> wp h body (fun a s => wf_heap (commit s) -> Q a (commit s)) (begin h) ->
  atomic h (TX body onabort) onabort Q.
Proof.
  intros Hwf H orc. specialize (H orc (restores_begin h Hwf)). unfold TX. cbn.
  destruct (body orc (begin h)) as [a orc' s'|orc' s'|s'|f].
  - destruct H as (Ho & Hr & HQ). pose proof (rollback_restores _ _ Hwf Hr) as E.
    pose proof (wf_commit _ (res_wf _ _ Hr)) as Hc.
    assert (tail orc' `suffix_of` orc) as Ht.
    { etrans; [|exact Ho]. destruct orc'; [done|]. by apply suffix_cons_r. }
    destruct orc' as [|[] ?]; cbn in *; rewrite ?E; eauto 6. split; [|done].
    eapply elem_of_suffix; [exact Ho|]. by left.
  - destruct H as (Ho & Ha & Hr). split; [done|]. right. by rewrite (rollback_restores h).
  - destruct H as (Ha & Hr). by rewrite (rollback_restores h).
  - done.
Qed.

Lemma atomic_reads {A B} (h : heap) (c : tx A) (k : A -> tx B) a onabort Q :
  reads (idle h) c a -> atomic h (k a) onabort Q -> atomic h (c ≫= k) onabort Q.
Proof. intros H HQ orc. unfold mbind, tx_bind. rewrite (H orc). apply HQ. Qed.

Lemma atomic_read {A} (h : heap) (c : tx A) a onabort (Q : A -> heap -> Prop) :
  reads (idle h) c a -> Q a h -> atomic h c onabort Q.
Proof. intros H HQ orc. rewrite (H orc). eauto 6. Qed.

Lemma atomic_map {A B} (h : heap) (c : tx A) (f : A -> B) a (Q : A -> heap -> Prop) :
  atomic h c a Q ->
  atomic h (x ← c; mret (f x)) (f a) (fun y h' => exists x, y = f x /\ Q x h').
Proof.
  intros H orc. specialize (H orc). unfold mbind, tx_bind.
  destruct (c orc (idle h)); [|done..]. destruct H as [Hs [(h' & -> & HQ)|(Ho & -> & ->)]].
  - split; [done|]. left. eauto.
  - split; [done|]. by right.
Qed.

Lemma atomic_mono {A} (h : heap) (c : tx A) a (Q Q' : A -> heap -> Prop) :
  (forall x h', Q x h' -> Q' x h') -> atomic h c a Q -> atomic h c a Q'.
Proof. intros HQ H orc. specialize (H orc). destruct (c orc (idle h)); naive_solver. Qed.

(** *** Runs without failures *)
Lemma run_reads {A B} (c : tx A) (k : A -> tx B) a orc s :
  reads s c a -> (c ≫= k) orc s = k a orc s.
Proof. intros H. unfold mbind, tx_bind. by rewrite (H orc). Qed.

Lemma run_bind {A B} (c : tx A) (k : A -> tx B) a orc orc' s s' :
  c orc s = Done a orc' s' -> (c ≫= k) orc s = k a orc' s'.
Proof. intros H. unfold mbind, tx_bind. by rewrite H. Qed.

Lemma run_wrong {A B} (c : tx A) (k : A -> tx B) f orc s :
  c orc s = Wrong f -> (c ≫= k) orc s = Wrong f.
Proof. intros H. unfold mbind, tx_bind. by rewrite H. Qed.

Lemma run_store p c s : is_Some (cells (pool s) !! p) -> store p c [] s = Done tt [] (put p c s).
Proof. intros [c' E]. unfold store. rewrite (run_reads _ _ c'); [done|]. by apply reads_load. Qed.

Lemma run_alloc `{Allocator} ty cs s :
  active s = true ->
  tx_alloc ty cs [] s = Done (new_oid (types (pool s))) [] (add_object (new_oid (types (pool s))) ty cs s).
Proof. intros E. unfold tx_alloc, in_tx, mbind, tx_bind. by rewrite E. Qed.

(** Without failures the call returns. *)
Lemma atomic_run {A} (h : heap) (c : tx A) a (Q : A -> heap -> Prop) :
  atomic h c a Q -> exists x orc h', c [] (idle h) = Done x orc (idle h') /\ Q x h'.
Proof.
  intros H. specialize (H []). destruct (c [] (idle h)) as [x orc s'| |s'|]; [|done| |done].
  - destruct H as [_ [(h' & -> & HQ)|(Ho & _)]]; [eauto|set_solver].
  - destruct H as [Ho _]. set_solver.
Qed.

(** *** Calls that may consist of several transactions

    [call h c Q C]: called outside a transaction on the pool [h], with an oracle
    that aborts nothing, [c] has no undefined behaviour and returns with a pool of
    [Q] unless the power fails, and then the recovery leaves a pool of [C]. *)
Definition call {A} (h : heap) (c : tx A) (Q : A -> heap -> Prop) (C : heap -> Prop) : Prop :=
  forall orc, AbortTx ∉ orc ->
  match c orc (idle h) with
  | Done a orc' s' => orc' `suffix_of` orc /\ exists h', s' = idle h' /\ Q a h'
  | Crashed s' => PowerLoss ∈ orc /\ exists h', s' = idle h' /\ C h'
  | Aborted _ _ | Wrong _ => False
  end.

Lemma atomic_call {A} (h : heap) (c : tx A) a (Q : A -> heap -> Prop) (C : heap -> Prop) :
  atomic h c a Q -> C h -> call h c Q C.
Proof.
  intros H HC orc Ho. specialize (H orc). destruct (c orc (idle h)); [|done| |done].
  - destruct H as [Hs [H|(H & _)]]; [|done]. eauto.
  - destruct H as [Hp ->]. eauto.
Qed.

Lemma call_bind {A B} (h : heap) (c : tx A) (k : A -> tx B) Q' Q C :
  call h c Q' C -> (forall a h', Q' a h' -> call h' (k a) Q C) -> call h (c ≫= k) Q C.
Proof.
  intros H Hk orc Ho. specialize (H orc Ho). unfold mbind, tx_bind.
  destruct (c orc (idle h)) as [a orc1 s1| |s1|]; [|done| |done].
  - destruct H as (Hs & h' & -> & HQ). specialize (Hk a h' HQ orc1).
    assert (AbortTx ∉ orc1) as Ho1 by (intros Hin; by apply Ho, (elem_of_suffix _ orc1)).
    specialize (Hk Ho1). destruct (k a orc1 (idle h')) as [b orc2 s2| |s2|]; [|done| |done].
    + destruct Hk as (Hs2 & HQ2). split; [by etrans|done].
    + destruct Hk as (Hp & HC). split; [by eapply elem_of_suffix|done].
  - done.
Qed.

Lemma call_reads {A B} (h : heap) (c : tx A) (k : A -> tx B) a Q C :
  reads (idle h) c a -> call h (k a) Q C -> call h (c ≫= k) Q C.
Proof. intros H HQ orc Ho. rewrite (run_reads _ _ a) by done. by apply HQ. Qed.

Lemma call_ret {A} (h : heap) (a : A) (Q : A -> heap -> Prop) C : Q a h -> call h (mret a) Q C.
Proof. intros HQ orc Ho. cbn. eauto. Qed.

Lemma call_mono {A} (h : heap) (c : tx A) (Q Q' : A -> heap -> Prop) (C C' : heap -> Prop) :
  (forall a h', Q a h' -> Q' a h') -> (forall h', C h' -> C' h') -> call h c Q C -> call h c Q' C'.
Proof. intros HQ HC H orc Ho. specialize (H orc Ho). destruct (c orc (idle h)); naive_solver. Qed.

Lemma call_run {A} (h : heap) (c : tx A) (Q : A -> heap -> Prop) (C : heap -> Prop) :
  call h c Q C -> exists x orc h', c [] (idle h) = Done x orc (idle h') /\ Q x h'.
Proof.
  intros H. specialize (H [] ltac:(set_solver)).
  destruct (c [] (idle h)) as [x orc s'| |s'|]; [|done| |done].
  - destruct H as (_ & h' & -> & HQ). eauto.
  - destruct H as [Ho _]. set_solver.
Qed.

(** [attempt h c Q B C]: as [call], for all oracles: where a transaction was aborted
    [c] may also return with a pool of [B]. *)
Definition attempt {A} (h : heap) (c : tx A) (Q B : A -> heap -> Prop) (C : heap -> Prop) : Prop :=
  forall orc,
  match c orc (idle h) with
  | Done a orc' s' => orc' `suffix_of` orc /\
      exists h', s' = idle h' /\ (Q a h' \/ AbortTx ∈ orc /\ B a h')
  | Crashed s' => PowerLoss ∈ orc /\ exists h', s' = idle h' /\ C h'
  | Aborted _ _ | Wrong _ => False
  end.

Lemma atomic_attempt {A} (h : heap) (c : tx A) a (Q : A -> heap -> Prop) (C : heap -> Prop) :
  atomic h c a Q -> C h -> attempt h c Q (fun x h' => x = a /\ h' = h) C.
Proof.
  intros H HC orc. specialize (H orc). destruct (c orc (idle h)); [|done| |done].
  - destruct H as [Hs [(h' & -> & HQ)|(Ho & -> & ->)]]; split; eauto 6.
  - destruct H as [Hp ->]. eauto.
Qed.

Lemma attempt_bind {A B'} (h : heap) (c : tx A) (k : A -> tx B') Q1 B1 Q B C :
  attempt h c Q1 B1 C -> (forall a h', Q1 a h' -> attempt h' (k a) Q B C) ->
  (forall a h', B1 a h' -> attempt h' (k a) (fun b h'' => Q b h'' \/ B b h'') B C) ->
  attempt h (c ≫= k) Q B C.
Proof.
  intros H HQ HB orc. specialize (H orc). unfold mbind, tx_bind.
  destruct (c orc (idle h)) as [a orc1 s1| |s1|]; [|done..].
  destruct H as (Hs & h' & -> & [H1|[Ha H1]]); [specialize (HQ a h' H1 orc1)|specialize (HB a h' H1 orc1)];
    (destruct (k a orc1 (idle h')) as [b orc2 s2| |s2|]; [|done| |done]).
  - destruct HQ as (Hs2 & h2 & -> & H2). split; [by etrans|]. exists h2. split; [done|].
    destruct H2 as [?|[Ha ?]]; [by left|right]. split; [by eapply elem_of_suffix|done].
  - destruct HQ as (Hp & HC). split; [by eapply elem_of_suffix|done].
  - destruct HB as (Hs2 & h2 & -> & H2). split; [by etrans|]. exists h2. split; [done|]. tauto.
  - destruct HB as (Hp & HC). split; [by eapply elem_of_suffix|done].
Qed.

Lemma attempt_reads {A B'} (h : heap) (c : tx A) (k : A -> tx B') a Q B C :
  reads (idle h) c a -> attempt h (k a) Q B C -> attempt h (c ≫= k) Q B C.
Proof. intros H HQ orc. rewrite (run_reads _ _ a) by done. apply HQ. Qed.

Lemma attempt_ret {A} (h : heap) (a : A) (Q B : A -> heap -> Prop) C : Q a h -> attempt h (mret a) Q B C.
Proof. intros HQ orc. cbn. eauto. Qed.

Lemma attempt_mono {A} (h : heap) (c : tx A) (Q Q' B B' : A -> heap -> Prop) (C C' : heap -> Prop) :
  (forall a h', Q a h' -> Q' a h') -> (forall a h', B a h' -> B' a h') -> (forall h', C h' -> C' h') ->
  attempt h c Q B C -> attempt h c Q' B' C'.
Proof. intros HQ HB HC H orc. specialize (H orc). destruct (c orc (idle h)); naive_solver. Qed.

Lemma attempt_call {A} (h : heap) (c : tx A) (Q B : A -> heap -> Prop) (C : heap -> Prop) :
  attempt h c Q B C -> call h c Q C.
Proof. intros H orc Ho. specialize (H orc). destruct (c orc (idle h)); naive_solver. Qed.

(** [grows h h']: objects were added, those of [h] are as they were. *)
Definition grows (h h' : heap) : Prop :=
  forall o ty, types h !! o = Some ty ->
    types h' !! o = Some ty /\ forall i, cells h' !! (o, i) = cells h !! (o, i).

Lemma grows_refl h : grows h h.
Proof. done. Qed.

Lemma grows_alloc h o ty cs s :
  types (pool s) !! o = None -> grows h (pool s) -> grows h (pool (add_object o ty cs s)).
Proof.
  intros Hn H o' ty' Ho'. destruct (H o' ty' Ho') as [T C]. assert (o <> o') by congruence.
  cbn. rewrite lookup_insert_ne by done. split; [done|]. intros i.
  rewrite lookup_put_fields, bool_decide_false by (cbn; intros [? _]; congruence). apply C.
Qed.

Lemma grows_put h p c s :
  types h !! p.1 = None -> grows h (pool s) -> grows h (pool (put p c s)).
Proof.
  intros Hn H o ty Ho. destruct (H o ty Ho) as [T C]. split; [done|]. intros i. cbn.
  rewrite lookup_insert_ne; [apply C|]. intros ->. cbn in Hn. congruence.
Qed.

(** *** Transactions that nothing aborts

    [wpn h0 c Q s]: as [wp], for the oracles without an abort. *)
Definition wpn {A} (h0 : heap) (c : tx A) (Q : A -> state -> Prop) (s : state) : Prop :=
  forall orc, AbortTx ∉ orc -> restores h0 s ->
  match c orc s with
  | Done a orc' s' => orc' `suffix_of` orc /\ restores h0 s' /\ Q a s'
  | Crashed s' => PowerLoss ∈ orc /\ restores h0 s'
  | Aborted _ _ | Wrong _ => False
  end.

Lemma wp_wpn {A} h0 (c : tx A) Q s : wp h0 c Q s -> wpn h0 c Q s.
Proof.
  intros H orc Ho Hr. specialize (H orc Hr). destruct (c orc s) as [|orc' s'| |]; [done| |done..].
  by destruct H as (_ & Ha & _).
Qed.

Lemma wpn_bind {A B} h0 (c : tx A) (k : A -> tx B) Q s :
  wpn h0 c (fun a s' => wpn h0 (k a) Q s') s -> wpn h0 (c ≫= k) Q s.
Proof.
  intros H orc Ho Hr. specialize (H orc Ho Hr). unfold mbind, tx_bind.
  destruct (c orc s) as [a orc1 s1| |s1|]; [|done..]. destruct H as (Hs & Hr1 & HQ).
  assert (AbortTx ∉ orc1) as Ho1 by (intros Hin; by apply Ho, (elem_of_suffix _ orc1)).
  specialize (HQ orc1 Ho1 Hr1). destruct (k a orc1 s1) as [b orc2 s2| |s2|]; [|done| |done].
  - destruct HQ as (Hs2 & ? & ?). split; [by etrans|done].
  - destruct HQ as (Hp & ?). split; [by eapply elem_of_suffix|done].
Qed.

Lemma wpn_mono {A} h0 (c : tx A) (Q Q' : A -> state -> Prop) s :
  (forall a s', Q a s' -> Q' a s') -> wpn h0 c Q s -> wpn h0 c Q' s.
Proof. intros HQ H orc Ho Hr. specialize (H orc Ho Hr). destruct (c orc s); naive_solver. Qed.

Lemma wpn_reads {A B} h0 (c : tx A) (k : A -> tx B) a Q s :
  reads s c a -> wpn h0 (k a) Q s -> wpn h0 (c ≫= k) Q s.
Proof. intros H HQ orc Ho Hr. rewrite (run_reads _ _ a) by done. by apply HQ. Qed.

Lemma call_TX {A} (h : heap) (body : tx A) (onabort : A) (Q : A -> heap -> Prop) :
  wf_heap h -> wpn h body (fun a s => wf_heap (commit s) -> Q a (commit s)) (begin h) ->
  call h (TX body onabort) Q (fun h' => h' = h).
Proof.
  intros Hwf H orc Ho. specialize (H orc Ho (restores_begin h Hwf)). unfold TX. cbn.
  destruct (body orc (begin h)) as [a orc' s'| |s'|f]; [|done| |done].
  - destruct H as (Hs & Hr & HQ). pose proof (rollback_restores _ _ Hwf Hr) as E.
    pose proof (wf_commit _ (res_wf _ _ Hr)) as Hc.
    assert (tail orc' `suffix_of` orc) as Ht.
    { etrans; [|exact Hs]. destruct orc'; [done|]. by apply suffix_cons_r. }
    destruct orc' as [|[] ?]; cbn in *; rewrite ?E; eauto 6.
    split; [eapply elem_of_suffix; [exact Hs|by left]|]. eauto.
  - destruct H as (Hp & Hr). split; [done|]. exists h. by rewrite (rollback_restores h).
Qed.
