(* ===== verification/CtreeMap.v ===== *)
(** * Crit-bit tree map

    Models [pmdk/src/examples/libpmemobj/tree_map/ctree_map.c], the workload
    [ctree]: a trie over the bits of the keys in which an inner node holds the
    most significant bit in which its keys differ.  The operations work on the
    objects of the pool ([PmemTx]); the theorems relate them to a finite map. *)

From S2P Require Import Prelude PmemTx.

Module Ctree.
(** [CTREE_MAP_TYPE_OFFSET] and the type of [struct tree_map_node] *)
Definition CTREE_MAP_TYPE_OFFSET : Z := 1008.
Definition map_type : Z := CTREE_MAP_TYPE_OFFSET + 0.
Definition node_type : Z := CTREE_MAP_TYPE_OFFSET + 1.

Definition BIT_IS_SET (n i : Z) : bool := negb (Z.land n (Z.shiftl 1 i) =? 0).

(** [find_last_set_64] is [64 - __builtin_clzll(val) - 1]; the builtin has no
    defined result for 0, where the model gives -1. *)
Definition find_last_set_64 (val : Z) : Z := if val =? 0 then -1 else Z.log2 val.

Definition find_crit_bit (lhs rhs : Z) : Z := find_last_set_64 (Z.lxor lhs rhs).

(** The fields: [struct ctree_map] has its [root] entry; [struct tree_map_node]
    has [diff] and [entries[2]]. *)
Definition root (map : oid) : ptr := (map, 0%nat).
Definition diff (node : oid) : ptr := (node, 0%nat).
Definition entries (node : oid) (d : bool) : ptr := (node, if d then 2%nat else 1%nat).

(** The rounds of the loops below: a path has at most one node for each of the
    64 bits. *)
Definition rounds : nat := 65.

Section Model.
Context `{A0 : Allocator}.

(** [ctree_map_create]: [map] is the field of the caller that gets the map. *)
Definition ctree_map_create (map : ptr) : tx Z :=
  TX (tx_add map ;;
      m ← tx_alloc map_type [Item 0 OID_NULL];
      store map (Oid m) ;; mret 0) 1.

Fixpoint ctree_map_clear_node (fuel : nat) (p : oid) : tx unit :=
  match fuel with
  | O => fail OutOfFuel
  | S fuel =>
      if OID_IS_NULL p then mret tt else
      b ← OID_INSTANCEOF p node_type;
      (if b : bool then
         e0 ← load_item (entries p false);
         ctree_map_clear_node fuel e0.2 ;;
         e1 ← load_item (entries p true);
         ctree_map_clear_node fuel e1.2
       else mret tt) ;;
      tx_free p
  end.

Definition ctree_map_clear (map : oid) : tx Z :=
  TX (e ← load_item (root map);
      ctree_map_clear_node rounds e.2 ;;
      tx_add (root map) ;;
      e ← load_item (root map);
      store (root map) (Item e.1 OID_NULL) ;; mret tt) tt ;;
  mret 0.

Definition ctree_map_destroy (map : ptr) : tx Z :=
  TX (m ← load_oid map;
      ctree_map_clear m ;;
      tx_add map ;;
      m ← load_oid map;
      tx_free m ;;
      store map (Oid OID_NULL) ;; mret 0) 1.

(** The loop of [ctree_map_insert_leaf] that looks for the place of the node. *)
Fixpoint insert_position (fuel : nat) (key newdiff : Z) (p : ptr) : tx ptr :=
  match fuel with
  | O => fail OutOfFuel
  | S fuel =>
      e ← load_item p;
      b ← OID_INSTANCEOF e.2 node_type;
      if b : bool then
        d ← load_int (diff e.2);
        if d <? newdiff then mret p
        else insert_position fuel key newdiff (entries e.2 (BIT_IS_SET key d))
      else mret p
  end.

Definition ctree_map_insert_leaf (p : ptr) (e : Z * oid) (newdiff : Z) : tx unit :=
  new_node ← tx_alloc node_type [Junk; Junk; Junk];
  store (diff new_node) (Int newdiff) ;;
  nd ← load_int (diff new_node);
  let d := BIT_IS_SET e.1 nd in
  store (entries new_node d) (Item e.1 e.2) ;;
  p ← insert_position rounds e.1 nd p;
  old ← load_item p;
  store (entries new_node (negb d)) (Item old.1 old.2) ;;
  tx_add p ;;
  store p (Item 0 old.2) ;;
  store p (Item 0 new_node).

(** The descent of [ctree_map_insert]. *)
Fixpoint best_match (fuel : nat) (key : Z) (p : ptr) : tx ptr :=
  match fuel with
  | O => fail OutOfFuel
  | S fuel =>
      e ← load_item p;
      if OID_IS_NULL e.2 then mret p else
      b ← OID_INSTANCEOF e.2 node_type;
      if b : bool then
        d ← load_int (diff e.2);
        best_match fuel key (entries e.2 (BIT_IS_SET key d))
      else mret p
  end.

(** Its transaction, with the entry the descent found. *)
Definition insert_at (map : oid) (key : Z) (value : oid) (p : ptr) : tx Z :=
  e ← load_item p;
  if (e.1 =? 0) || (e.1 =? key) then
    tx_add p ;; store p (Item key value) ;; mret 0
  else
    ctree_map_insert_leaf (root map) (key, value) (find_crit_bit e.1 key) ;; mret 0.

Definition ctree_map_insert (map : oid) (key : Z) (value : oid) : tx Z :=
  p ← best_match rounds key (root map);
  TX (insert_at map key value p) 1.

(** [ctree_map_insert_new]: [constructor] writes to the bytes of the new object. *)
Definition ctree_map_insert_new (map : oid) (key size type_num : Z)
    (constructor : oid -> tx unit) : tx Z :=
  TX (n ← tx_alloc type_num (replicate (Z.to_nat size) Junk);
      constructor n ;;
      ctree_map_insert map key n ;; mret 0) 1.

(** [ctree_map_get_leaf]: the leaf with the entry that points to its node. *)
Fixpoint get_leaf_loop (fuel : nat) (key : Z) (n : ptr) (p : option ptr) :
    tx (ptr * option ptr) :=
  match fuel with
  | O => fail OutOfFuel
  | S fuel =>
      e ← load_item n;
      if OID_IS_NULL e.2 then mret (n, p) else
      b ← OID_INSTANCEOF e.2 node_type;
      if b : bool then
        d ← load_int (diff e.2);
        get_leaf_loop fuel key (entries e.2 (BIT_IS_SET key d)) (Some n)
      else mret (n, p)
  end.

Definition ctree_map_get_leaf (map : oid) (key : Z) : tx (option (ptr * option ptr)) :=
  np ← get_leaf_loop rounds key (root map) None;
  e ← load_item np.1;
  if e.1 =? key then mret (Some np) else mret None.

(** The two transactions of [ctree_map_remove]: the leaf is the root entry, or it
    is one of the entries of the node that [dest] points to. *)
Definition remove_root (leaf : ptr) : tx unit :=
  tx_add leaf ;;
  e ← load_item leaf;
  store leaf (Item 0 e.2) ;;
  store leaf (Item 0 OID_NULL).

Definition remove_inner (leaf dest : ptr) : tx unit :=
  node ← load_item dest;
  tx_add dest ;;
  e0 ← load_item (entries node.2 false);
  lf ← load_item leaf;
  other ← load_item (entries node.2 (e0.1 =? lf.1));
  store dest (Item other.1 other.2) ;;
  tx_free node.2.

Definition ctree_map_remove (map : oid) (key : Z) : tx oid :=
  l ← ctree_map_get_leaf map key;
  match l with
  | None => mret OID_NULL
  | Some (leaf, parent) =>
      ret ← load_item leaf;
      match parent with
      | None => TX (remove_root leaf) tt ;; mret ret.2
      | Some dest => TX (remove_inner leaf dest) tt ;; mret ret.2
      end
  end.

Definition ctree_map_remove_free (map : oid) (key : Z) : tx Z :=
  TX (val ← ctree_map_remove map key; tx_free val ;; mret 0) 1.

Definition ctree_map_get (map : oid) (key : Z) : tx oid :=
  l ← ctree_map_get_leaf map key;
  match l with
  | None => mret OID_NULL
  | Some (leaf, _) => e ← load_item leaf; mret e.2
  end.

Definition ctree_map_lookup (map : oid) (key : Z) : tx Z :=
  l ← ctree_map_get_leaf map key;
  mret (match l with None => 0 | Some _ => 1 end).

(** [ctree_map_foreach_node]: [cb] works on the state [acc] of the caller. *)
Fixpoint ctree_map_foreach_node {S} (fuel : nat) (e : Z * oid)
    (cb : Z -> oid -> S -> Z * S) (acc : S) : tx (Z * S) :=
  match fuel with
  | O => fail OutOfFuel
  | Datatypes.S fuel =>
      b ← OID_INSTANCEOF e.2 node_type;
      if b : bool then
        e0 ← load_item (entries e.2 false);
        r0 ← ctree_map_foreach_node fuel e0 cb acc;
        if r0.1 =? 0 then
          e1 ← load_item (entries e.2 true);
          r1 ← ctree_map_foreach_node fuel e1 cb r0.2;
          mret (0, r1.2)
        else mret (0, r0.2)
      else mret (cb e.1 e.2 acc)
  end.

Definition ctree_map_foreach {S} (map : oid) (cb : Z -> oid -> S -> Z * S) (acc : S) :
    tx (Z * S) :=
  e ← load_item (root map);
  if OID_IS_NULL e.2 then mret (0, acc) else ctree_map_foreach_node rounds e cb acc.

Definition ctree_map_is_empty (map : oid) : tx Z :=
  e ← load_item (root map); mret (if e.1 =? 0 then 1 else 0).

(** [ctree_map_check]: whether the object is no crit-bit map. *)
Definition ctree_map_check (map : oid) : tx Z :=
  if OID_IS_NULL map then mret 1 else
  b ← OID_INSTANCEOF map map_type; mret (if b : bool then 0 else 1).
End Model.

(** ** Crit-bit trees *)

(** A tree of the pool, with the objects of its inner nodes. *)
Inductive tree :=
| Leaf (key : Z) (value : oid)
| Node (o : oid) (d : Z) (l r : tree).

Fixpoint leaves (t : tree) : list (Z * oid) :=
  match t with
  | Leaf k v => [(k, v)]
  | Node _ _ l r => leaves l ++ leaves r
  end.

Definition keys (t : tree) : list Z := (leaves t).*1.
Arguments keys : simpl never.

Fixpoint nodes (t : tree) : list oid :=
  match t with
  | Leaf _ _ => []
  | Node o _ l r => o :: nodes l ++ nodes r
  end.

Definition child (d : bool) (l r : tree) : tree := if d then r else l.

Definition below (d : Z) (t : tree) : Prop :=
  match t with Leaf _ _ => True | Node _ d' _ _ => d' < d end.

(** Two keys that have the same bits above bit [d]. *)
Definition same_above (d a b : Z) : Prop := forall i, d < i -> Z.testbit a i = Z.testbit b i.

(** The bits of the nodes decrease along a path; the keys of a node have the
    same bits above its bit, and that bit tells its two subtrees apart. *)
Fixpoint crit (t : tree) : Prop :=
  match t with
  | Leaf _ _ => True
  | Node _ d l r =>
      0 <= d < 64 /\ below d l /\ below d r /\
      (forall k, k ∈ keys l -> Z.testbit k d = false) /\
      (forall k, k ∈ keys r -> Z.testbit k d = true) /\
      (forall k k', k ∈ keys l ++ keys r -> k' ∈ keys l ++ keys r -> same_above d k k') /\
      crit l /\ crit r
  end.

(** The leaf that the bits of a key lead to, and the change of a tree at the
    first subtree on that path where [stop] holds. *)
Fixpoint best (k : Z) (t : tree) : Z * oid :=
  match t with
  | Leaf k' v => (k', v)
  | Node _ d l r => best k (if Z.testbit k d then r else l)
  end.

Fixpoint change (stop : tree -> bool) (f : tree -> tree) (k : Z) (t : tree) : tree :=
  if stop t then f t else
  match t with
  | Leaf _ _ => f t
  | Node o d l r =>
      if Z.testbit k d then Node o d l (change stop f k r) else Node o d (change stop f k l) r
  end.

Fixpoint focus (stop : tree -> bool) (k : Z) (p : ptr) (t : tree) : ptr * tree :=
  if stop t then (p, t) else
  match t with
  | Leaf _ _ => (p, t)
  | Node o d l r =>
      if Z.testbit k d then focus stop k (entries o true) r else focus stop k (entries o false) l
  end.

Fixpoint height (t : tree) : nat :=
  match t with
  | Leaf _ _ => 0
  | Node _ _ l r => S (Nat.max (height l) (height r))
  end.

(** *** Properties of the trees *)
Definition contents (t : tree) : gmap Z oid := list_to_map (leaves t).
Definition values (t : tree) : list oid := (leaves t).*2.

Lemma BIT_IS_SET_spec n i : 0 <= i -> BIT_IS_SET n i = Z.testbit n i.
Proof.
  intros Hi. unfold BIT_IS_SET. rewrite Z.shiftl_1_l. destruct (Z.testbit n i) eqn:E.
  - apply negb_true_iff, Z.eqb_neq. intros H0. apply (f_equal (fun z => Z.testbit z i)) in H0.
    rewrite Z.land_spec, E, Z.pow2_bits_true, Z.bits_0 in H0 by done. done.
  - apply negb_false_iff, Z.eqb_eq. apply Z.bits_inj'. intros j Hj.
    rewrite Z.land_spec, Z.bits_0. destruct (decide (i = j)) as [<-|].
    + by rewrite E.
    + by rewrite Z.pow2_bits_false, andb_false_r by lia.
Qed.

(** The critical bit of two different keys. *)
Lemma crit_bit_spec a b :
  is_u64 a -> is_u64 b -> a <> b ->
  let d := find_crit_bit a b in
  0 <= d < 64 /\ Z.testbit a d <> Z.testbit b d /\ same_above d a b.
Proof.
  unfold is_u64. intros Ha Hb Hne. assert (0 < Z.lxor a b) as Hx.
  { assert (0 <= Z.lxor a b) by (apply Z.lxor_nonneg; lia).
    destruct (Z.eq_dec (Z.lxor a b) 0) as [E|]; [|lia]. by apply Z.lxor_eq in E. }
  cbn. unfold find_crit_bit, find_last_set_64. destruct (Z.eqb_spec (Z.lxor a b) 0); [lia|].
  split; [split; [apply Z.log2_nonneg|]|split].
  - eapply Z.le_lt_trans; [apply Z.log2_lxor; lia|].
    apply Z.max_lub_lt; [destruct (decide (a = 0)) as [->|]|destruct (decide (b = 0)) as [->|]];
      try done; apply Z.log2_lt_pow2; lia.
  - pose proof (Z.bit_log2 _ Hx) as H. rewrite Z.lxor_spec in H.
    by destruct (Z.testbit a _), (Z.testbit b _).
  - intros i Hi. pose proof (Z.bits_above_log2 (Z.lxor a b) i) as H.
    rewrite Z.lxor_spec in H. assert (xorb (Z.testbit a i) (Z.testbit b i) = false) by (apply H; lia).
    by destruct (Z.testbit a i), (Z.testbit b i).
Qed.

Lemma same_above_weaken d d' a b : d <= d' -> same_above d a b -> same_above d' a b.
Proof. intros H1 H2 i Hi. apply H2. lia. Qed.

Lemma same_above_sym d a b : same_above d a b -> same_above d b a.
Proof. intros H i Hi. by rewrite H. Qed.

Lemma same_above_trans d a b c : same_above d a b -> same_above d b c -> same_above d a c.
Proof. intros H1 H2 i Hi. by rewrite H1, H2. Qed.

Lemma keys_node o d l r : keys (Node o d l r) = keys l ++ keys r.
Proof. unfold keys. cbn. by rewrite fmap_app. Qed.

Lemma keys_leaf k v : keys (Leaf k v) = [k].
Proof. done. Qed.

Lemma height_bound t n : crit t -> below n t -> 0 <= n -> Z.of_nat (height t) <= n.
Proof.
  revert n. induction t as [k v|o d l IHl r IHr]; cbn; intros n Hc Hb Hn; [lia|].
  destruct Hc as (? & Hl & Hr & _ & _ & _ & Cl & Cr).
  specialize (IHl d Cl Hl). specialize (IHr d Cr Hr). lia.
Qed.

Lemma height_rounds t : crit t -> (height t < rounds)%nat.
Proof.
  intros H. assert (below 64 t) as Hb by (destruct t; cbn in *; naive_solver lia).
  pose proof (height_bound t 64 H Hb). unfold rounds. lia.
Qed.

Lemma best_leaf k t : best k t ∈ leaves t.
Proof.
  induction t as [k' v|o d l IHl r IHr]; cbn; [set_solver|].
  destruct (Z.testbit k d); set_solver.
Qed.

Lemma best_key k t : (best k t).1 ∈ keys t.
Proof. apply list_elem_of_fmap. exists (best k t). split; [done|]. apply best_leaf. Qed.

Lemma best_found k t : crit t -> k ∈ keys t -> (best k t).1 = k.
Proof.
  induction t as [k' v|o d l IHl r IHr]; intros Hc Hk; [cbn in *; set_solver|].
  destruct Hc as (? & _ & _ & Bl & Br & _ & Cl & Cr). rewrite keys_node in Hk. cbn.
  apply elem_of_app in Hk as [Hk|Hk].
  - rewrite (Bl _ Hk). by apply IHl.
  - rewrite (Br _ Hk). by apply IHr.
Qed.

Lemma crit_NoDup t : crit t -> NoDup (keys t).
Proof.
  induction t as [k v|o d l IHl r IHr]; intros Hc; [apply NoDup_singleton|].
  destruct Hc as (? & _ & _ & Bl & Br & _ & Cl & Cr). rewrite keys_node.
  apply NoDup_app. split; [by apply IHl|]. split; [|by apply IHr].
  intros k Hl Hr. specialize (Bl k Hl). specialize (Br k Hr). congruence.
Qed.

Lemma lookup_contents t k :
  crit t -> contents t !! k = if (best k t).1 =? k then Some (best k t).2 else None.
Proof.
  intros Hc. unfold contents. destruct (Z.eqb_spec (best k t).1 k) as [E|E].
  - apply elem_of_list_to_map_1; [by apply crit_NoDup|].
    pose proof (best_leaf k t). destruct (best k t); cbn in *. congruence.
  - apply not_elem_of_list_to_map_1. intros Hk. apply E. by apply best_found.
Qed.
(** *** Changes of a tree *)
Definition is_leaf (t : tree) : bool := match t with Leaf _ _ => true | Node _ _ _ _ => false end.
Definition stop_at (d : Z) (t : tree) : bool :=
  match t with Leaf _ _ => true | Node _ d' _ _ => d' <? d end.
Definition stop_parent (k : Z) (t : tree) : bool :=
  match t with Leaf _ _ => true | Node _ d l r => is_leaf (if Z.testbit k d then r else l) end.

Definition split (o : oid) (d k : Z) (v : oid) (t : tree) : tree :=
  if Z.testbit k d then Node o d t (Leaf k v) else Node o d (Leaf k v) t.
Definition sibling (k : Z) (t : tree) : tree :=
  match t with Leaf _ _ => t | Node _ d l r => if Z.testbit k d then l else r end.

Definition overwrite_tree (k : Z) (v : oid) (t : tree) : tree :=
  change is_leaf (fun _ => Leaf k v) k t.
Definition insert_tree (o : oid) (d k : Z) (v : oid) (t : tree) : tree :=
  change (stop_at d) (split o d k v) k t.
Definition remove_tree (k : Z) (t : tree) : tree := change (stop_parent k) (sibling k) k t.

Lemma change_parts stop f k p t :
  exists a b a' b',
    leaves t = a ++ leaves (focus stop k p t).2 ++ b /\
    leaves (change stop f k t) = a ++ leaves (f (focus stop k p t).2) ++ b /\
    nodes t = a' ++ nodes (focus stop k p t).2 ++ b' /\
    nodes (change stop f k t) = a' ++ nodes (f (focus stop k p t).2) ++ b'.
Proof.
  revert p. induction t as [k' v|o d l IHl r IHr]; intros p; cbn.
  - exists [], [], [], []. destruct (stop _); cbn; by rewrite ?app_nil_r.
  - destruct (stop _).
    { exists [], [], [], []. cbn. by rewrite !app_nil_r. }
    destruct (Z.testbit k d); cbn.
    + destruct (IHr (entries o true)) as (a & b & a' & b' & -> & -> & -> & ->).
      exists (leaves l ++ a), b, (o :: nodes l ++ a'), b'. cbn. by rewrite <- !app_assoc.
    + destruct (IHl (entries o false)) as (a & b & a' & b' & -> & -> & -> & ->).
      exists a, (b ++ leaves r), (o :: a'), (b' ++ nodes r). cbn. by rewrite <- !app_assoc.
Qed.

Lemma focus_leaf k p t : (focus is_leaf k p t).2 = Leaf (best k t).1 (best k t).2.
Proof.
  revert p. induction t as [k' v|o d l IHl r IHr]; intros p; cbn; [done|].
  by destruct (Z.testbit k d).
Qed.

(** A change that adds no key keeps a crit-bit tree. *)
Lemma crit_change stop f k p t :
  let sub := (focus stop k p t).2 in
  crit t -> crit (f sub) -> (forall n, below n sub -> below n (f sub)) ->
  (forall x, x ∈ keys (f sub) -> x ∈ keys sub) ->
  crit (change stop f k t) /\ (forall n, below n t -> below n (change stop f k t)) /\
  (forall x, x ∈ keys (change stop f k t) -> x ∈ keys t).
Proof.
  revert p. induction t as [k' v|o d l IHl r IHr]; intros p sub Hc Hf Hb Hk.
  { subst sub. cbn in *. by destruct (stop _). }
  subst sub. cbn in Hf, Hb, Hk |- *. destruct (stop _); [done|].
  destruct Hc as (Hd & Hl & Hr & Bl & Br & Hs & Cl & Cr). destruct (Z.testbit k d).
  - destruct (IHr (entries o true)) as (IC & IB & IK); [done..|]. rewrite keys_node. cbn.
    repeat split; try done; try lia; auto.
    + intros x x' Hx Hx'. apply Hs; set_solver.
    + rewrite keys_node. set_solver.
  - destruct (IHl (entries o false)) as (IC & IB & IK); [done..|]. rewrite keys_node. cbn.
    repeat split; try done; try lia; auto.
    + intros x x' Hx Hx'. apply Hs; set_solver.
    + rewrite keys_node. set_solver.
Qed.

(** Splitting off a key that first differs from the best match in bit [d]. *)
Lemma crit_split o d k v t :
  0 <= d < 64 -> crit t -> stop_at d t = true ->
  Z.testbit k d <> Z.testbit (best k t).1 d -> same_above d k (best k t).1 ->
  crit (split o d k v t).
Proof.
  intros Hd Hc Hstop Hbit Habove.
  assert (below d t) as Hb by (destruct t; cbn in *; [done|]; by apply Z.ltb_lt).
  assert (forall x, x ∈ keys t -> Z.testbit x d = Z.testbit (best k t).1 d /\
                                  same_above d x (best k t).1) as Hx.
  { intros x Hin. destruct t as [k' v'|o' d' l r]; [by apply list_elem_of_singleton in Hin as ->|].
    destruct Hc as (? & _ & _ & _ & _ & Hs & _ & _). cbn in Hb.
    assert (same_above d' x (best k (Node o' d' l r)).1) as H1.
    { apply Hs; rewrite <- (keys_node o' d'); [done|]. apply best_key. }
    split; [apply H1; lia|]. by apply (same_above_weaken d'); [lia|]. }
  assert (forall a b, a ∈ k :: keys t -> b ∈ k :: keys t -> same_above d a b) as Hs.
  { assert (forall a, a ∈ k :: keys t -> same_above d a (best k t).1) as Ha.
    { intros a [->|Hin]%elem_of_cons; [done|]. by apply Hx. }
    intros a b H1%Ha H2%Ha. eapply same_above_trans; [done|]. by apply same_above_sym. }
  unfold split. destruct (Z.testbit k d) eqn:Ek; cbn; rewrite ?keys_leaf; repeat split; try done; try lia.
  - intros x Hin. destruct (Hx x Hin) as [-> _]. by destruct (Z.testbit (best k t).1 d).
  - set_solver.
  - intros a b Ha Hb'. apply Hs; set_solver.
  - set_solver.
  - intros x Hin. destruct (Hx x Hin) as [-> _]. by destruct (Z.testbit (best k t).1 d).
Qed.

Lemma keys_split o d k v t x : x ∈ keys (split o d k v t) <-> x = k \/ x ∈ keys t.
Proof. unfold split. destruct (Z.testbit k d); rewrite keys_node; unfold keys; set_solver. Qed.

Lemma crit_insert_tree o d k v t :
  0 <= d < 64 -> crit t ->
  Z.testbit k d <> Z.testbit (best k t).1 d -> same_above d k (best k t).1 ->
  crit (insert_tree o d k v t) /\
  (forall n, d < n -> below n t -> below n (insert_tree o d k v t)) /\
  (forall x, x ∈ keys (insert_tree o d k v t) <-> x = k \/ x ∈ keys t).
Proof.
  intros Hd. unfold insert_tree. induction t as [k' v'|o' d' l IHl r IHr]; intros Hc Hbit Habove.
  { cbn. split; [by apply crit_split|]. split; [|intros x; apply keys_split].
    intros n Hn _. unfold split. by destruct (Z.testbit k d). }
  cbn [change]. destruct (stop_at d (Node o' d' l r)) eqn:Es.
  { split; [by apply crit_split|]. split; [|intros x; apply keys_split].
    intros n Hn _. unfold split. by destruct (Z.testbit k d). }
  cbn in Es. apply Z.ltb_ge in Es.
  destruct Hc as (Hd' & Hl & Hr & Bl & Br & Hs & Cl & Cr).
  assert (Z.testbit (best k (Node o' d' l r)).1 d' = Z.testbit k d') as Ebit.
  { cbn. destruct (Z.testbit k d') eqn:E; [apply Br|apply Bl]; apply best_key. }
  assert (d < d') by (destruct (Z.eq_dec d d') as [->|]; [congruence|lia]).
  assert (forall x, x ∈ keys l ++ keys r -> same_above d' x k) as Hk.
  { intros x Hx. apply (same_above_trans _ _ (best k (Node o' d' l r)).1).
    - apply Hs; [done|]. rewrite <- (keys_node o' d'). apply best_key.
    - apply (same_above_weaken d); [lia|]. by apply same_above_sym. }
  assert (forall a b, a ∈ k :: keys l ++ keys r -> b ∈ k :: keys l ++ keys r -> same_above d' a b) as Hall.
  { assert (forall a, a ∈ k :: keys l ++ keys r -> same_above d' a k) as Ha.
    { intros a [->|Hin]%elem_of_cons; [done|]. by apply Hk. }
    intros a b H1%Ha H2%Ha. eapply same_above_trans; [done|]. by apply same_above_sym. }
  cbn in Hbit, Habove. destruct (Z.testbit k d') eqn:E.
  - destruct IHr as (IC & IB & IK); [done..|]. rewrite keys_node. cbn.
    repeat split; try done; try lia; auto.
    + intros x [->|]%IK; [done|]. by apply Br.
    + intros a b Ha Hb. rewrite elem_of_app, IK in Ha, Hb.
      apply Hall; rewrite elem_of_cons, elem_of_app; tauto.
    + rewrite keys_node, !elem_of_app, IK. tauto.
    + rewrite keys_node, !elem_of_app, IK. tauto.
  - destruct IHl as (IC & IB & IK); [done..|]. rewrite keys_node. cbn.
    repeat split; try done; try lia; auto.
    + intros x [->|]%IK; [done|]. by apply Bl.
    + intros a b Ha Hb. rewrite elem_of_app, IK in Ha, Hb.
      apply Hall; rewrite elem_of_cons, elem_of_app; tauto.
    + rewrite keys_node, !elem_of_app, IK. tauto.
    + rewrite keys_node, !elem_of_app, IK. tauto.
Qed.


(** *** The changes as changes of the map *)
Lemma focus_parent k p o0 d0 l0 r0 :
  exists o d l r, (focus (stop_parent k) k p (Node o0 d0 l0 r0)).2 = Node o d l r /\
    (if Z.testbit k d then r else l) =
      Leaf (best k (Node o0 d0 l0 r0)).1 (best k (Node o0 d0 l0 r0)).2.
Proof.
  assert (forall t p, is_leaf t = false ->
    exists o d l r, (focus (stop_parent k) k p t).2 = Node o d l r /\
      (if Z.testbit k d then r else l) = Leaf (best k t).1 (best k t).2) as H.
  { induction t as [k' v|o d l IHl r IHr]; intros q Hl; [done|]. cbn.
    destruct (Z.testbit k d) eqn:Eb.
    - destruct r as [k' v|o' d' l' r']; [|by apply IHr].
      eexists _, _, _, _. split; [done|]. by rewrite Eb.
    - destruct l as [k' v|o' d' l' r']; [|by apply IHl].
      eexists _, _, _, _. split; [done|]. by rewrite Eb. }
  by apply H.
Qed.

Lemma crit_focus stop k p t : crit t -> crit (focus stop k p t).2.
Proof.
  revert p. induction t as [k' v|o d l IHl r IHr]; intros p Hc; cbn; destruct (stop _); try done.
  cbn in Hc. destruct (Z.testbit k d); [apply IHr|apply IHl]; apply Hc.
Qed.

Lemma contents_perm (t : tree) (ls : list (Z * oid)) :
  NoDup (keys t) -> leaves t ≡ₚ ls -> contents t = list_to_map ls.
Proof. intros H1 H2. unfold contents. by apply list_to_map_proper. Qed.

Lemma overwrite_tree_spec k v t :
  crit t -> (best k t).1 = k ->
  crit (overwrite_tree k v t) /\ contents (overwrite_tree k v t) = <[k := v]> (contents t) /\
  nodes (overwrite_tree k v t) = nodes t /\
  (forall x, x ∈ keys (overwrite_tree k v t) -> x ∈ keys t).
Proof.
  intros Hc Hk. unfold overwrite_tree.
  destruct (crit_change is_leaf (fun _ => Leaf k v) k (root 0) t) as (H1 & _ & H3);
    rewrite ?focus_leaf, ?keys_leaf, ?Hk; [done..|].
  destruct (change_parts is_leaf (fun _ => Leaf k v) k (root 0) t)
    as (a & b & a' & b' & E1 & E2 & E3 & E4).
  rewrite focus_leaf, Hk in *. cbn in E1, E2, E3, E4. split; [done|].
  split; [|by rewrite E4, E3].
  pose proof (crit_NoDup _ H1) as N1. pose proof (crit_NoDup _ Hc) as N2.
  rewrite (contents_perm _ ((k, v) :: a ++ b) N1) by (rewrite E2; by rewrite Permutation_middle).
  rewrite (contents_perm t ((k, (best k t).2) :: a ++ b) N2) by (rewrite E1; by rewrite Permutation_middle).
  cbn. by rewrite insert_insert_eq.
Qed.

Lemma insert_tree_spec o k v t :
  let d := find_crit_bit (best k t).1 k in
  crit t -> (forall x, x ∈ keys t -> is_u64 x) -> is_u64 k -> (best k t).1 <> k ->
  crit (insert_tree o d k v t) /\ contents (insert_tree o d k v t) = <[k := v]> (contents t) /\
  nodes (insert_tree o d k v t) ≡ₚ o :: nodes t /\
  (forall x, x ∈ keys (insert_tree o d k v t) <-> x = k \/ x ∈ keys t).
Proof.
  intros d Hc Hu Hk Hne.
  destruct (crit_bit_spec (best k t).1 k) as (Hd & Hbit & Hab); [apply Hu, best_key|done|done|].
  fold d in Hd, Hbit, Hab.
  destruct (crit_insert_tree o d k v t) as (H1 & _ & H3);
    [done|done|congruence|by apply same_above_sym|].
  destruct (change_parts (stop_at d) (split o d k v) k (root 0) t)
    as (a & b & a' & b' & E1 & E2 & E3 & E4).
  set (sub := (focus _ _ _ _).2) in *. unfold insert_tree in *.
  assert (leaves (split o d k v sub) ≡ₚ (k, v) :: leaves sub) as P.
  { unfold split. destruct (Z.testbit k d); cbn; [|done]. by rewrite Permutation_app_comm. }
  assert (nodes (split o d k v sub) = o :: nodes sub) as Pn.
  { unfold split. destruct (Z.testbit k d); cbn; [by rewrite app_nil_r|done]. }
  split; [done|]. split; [|split; [|done]].
  - rewrite (contents_perm _ ((k, v) :: leaves t) (crit_NoDup _ H1)); [done|].
    rewrite E2, E1, P. cbn. by rewrite <- Permutation_middle.
  - rewrite E4, E3, Pn. cbn. by rewrite <- Permutation_middle.
Qed.

Lemma remove_tree_spec k p t :
  crit t -> is_leaf t = false -> (best k t).1 = k ->
  crit (remove_tree k t) /\ contents (remove_tree k t) = delete k (contents t) /\
  (exists o d l r, (focus (stop_parent k) k p t).2 = Node o d l r /\
     (if Z.testbit k d then r else l) = Leaf k (best k t).2 /\
     nodes t ≡ₚ o :: nodes (remove_tree k t)) /\
  leaves t ≡ₚ best k t :: leaves (remove_tree k t).
Proof.
  intros Hc Hl Hk. destruct t as [|o0 d0 l0 r0]; [done|]. set (t := Node o0 d0 l0 r0) in *.
  destruct (focus_parent k p o0 d0 l0 r0) as (o & d & l & r & Ef & Ec). fold t in Ef, Ec.
  destruct (change_parts (stop_parent k) (sibling k) k p t)
    as (a & b & a' & b' & E1 & E2 & E3 & E4).
  rewrite Ef in *. cbn [sibling leaves nodes] in *. clearbody t. unfold remove_tree.
  assert (leaves l ++ leaves r ≡ₚ best k t :: leaves (if Z.testbit k d then l else r)) as P.
  { destruct (best k t) as [k' v']; cbn in *. destruct (Z.testbit k d); subst; cbn; [|done].
    by rewrite Permutation_app_comm. }
  assert (nodes l ++ nodes r = nodes (if Z.testbit k d then l else r)) as Pn.
  { destruct (Z.testbit k d); subst; cbn; [by rewrite app_nil_r|done]. }
  assert (leaves t ≡ₚ best k t :: leaves (change (stop_parent k) (sibling k) k t)) as Pl.
  { rewrite E1, E2, P. cbn. by rewrite <- Permutation_middle. }
  assert (crit (change (stop_parent k) (sibling k) k t)) as HC.
  { assert (crit (Node o d l r)) as Hsub.
    { rewrite <- Ef. by apply crit_focus. }
    destruct (crit_change (stop_parent k) (sibling k) k p t) as (H1 & _ & _);
      rewrite ?Ef; cbn [sibling]; [done| | | |done].
    - cbn in Hsub. destruct (Z.testbit k d); naive_solver.
    - intros n Hn. cbn in Hn, Hsub. destruct Hsub as (_ & B1 & B2 & _).
      destruct (Z.testbit k d); [destruct l|destruct r]; cbn in *; lia || done.
    - intros x Hx. rewrite keys_node. destruct (Z.testbit k d); set_solver. }
  split; [done|]. split; [|split; [|done]].
  - pose proof (crit_NoDup _ Hc) as N. unfold keys in N. rewrite Pl in N. cbn in N.
    rewrite (contents_perm t _ (crit_NoDup _ Hc) Pl). apply NoDup_cons in N as [N1 _].
    rewrite Hk in N1. destruct (best k t) as [k' v']. cbn in Hk |- *. subst k'.
    symmetry. apply delete_insert_id. by apply not_elem_of_list_to_map_1.
  - exists o, d, l, r. split; [done|]. split; [by rewrite <- Hk at 2|]. rewrite E3, E4, Pn. cbn. by rewrite <- Permutation_middle.
Qed.


(** ** Trees in the pool *)
Fixpoint stored (h : heap) (p : ptr) (t : tree) : Prop :=
  match t with
  | Leaf k v =>
      cells h !! p = Some (Item k v) /\ v <> OID_NULL /\
      exists ty, types h !! v = Some ty /\ ty <> node_type
  | Node o d l r =>
      cells h !! p = Some (Item 0 o) /\ o <> OID_NULL /\ types h !! o = Some node_type /\
      cells h !! diff o = Some (Int d) /\
      stored h (entries o false) l /\ stored h (entries o true) r
  end.

(** The objects of [h] are those of [h'] too, with the same types. *)
Definition extends (h h' : heap) : Prop :=
  forall o ty, types h !! o = Some ty -> types h' !! o = Some ty.

(** The slot of a stored tree, and the reads of the loops at it. *)
Lemma stored_item h p t : stored h p t -> exists k o, cells h !! p = Some (Item k o) /\ o <> OID_NULL.
Proof. destruct t; cbn; intros H; eexists _, _; split; apply H. Qed.

Lemma stored_frame h h' p t :
  (forall q, q = p \/ q.1 ∈ nodes t -> cells h' !! q = cells h !! q) ->
  (forall o, o ∈ nodes t ++ values t -> types h' !! o = types h !! o) ->
  stored h p t -> stored h' p t.
Proof.
  revert p. induction t as [k v|o d l IHl r IHr]; intros p Hc Ht; cbn.
  - rewrite Hc by (by left). rewrite Ht; [done|]. unfold values. cbn. set_solver.
  - intros (H1 & H2 & H3 & H4 & H5 & H6). rewrite Hc, Ht by (cbn; set_solver).
    rewrite (Hc (diff o)) by (right; cbn; set_solver).
    assert (forall x, x ∈ values l ∨ x ∈ values r -> x ∈ values (Node o d l r)) as Hv.
    { intros x. unfold values. cbn. rewrite fmap_app. set_solver. }
    split_and!; try done.
    + apply IHl; [|intros x Hx; apply Ht; cbn; set_solver|done].
      intros q [->|Hq]; apply Hc; right; cbn; set_solver.
    + apply IHr; [|intros x Hx; apply Ht; cbn; set_solver|done].
      intros q [->|Hq]; apply Hc; right; cbn; set_solver.
Qed.

Lemma stored_extends h h' p t :
  (forall q, q = p \/ q.1 ∈ nodes t -> cells h' !! q = cells h !! q) -> extends h h' ->
  stored h p t -> stored h' p t.
Proof.
  intros Hc He Hs. apply (stored_frame h); [done| |done]. intros o Ho.
  assert (is_Some (types h !! o)) as [ty Hty]; [|by rewrite Hty; apply He].
  clear -Ho Hs. revert p Hs. induction t as [k v|o' d l IHl r IHr]; intros p Hs; cbn in *.
  - unfold values in Ho. cbn in Ho. apply list_elem_of_singleton in Ho as ->.
    destruct Hs as (_ & _ & ty & Hty & _). eauto.
  - destruct Hs as (_ & _ & Ht & _ & Hl & Hr). unfold values in *. cbn in Ho.
    rewrite fmap_app in Ho. rewrite elem_of_cons, !elem_of_app in Ho.
    setoid_rewrite elem_of_app in IHl. setoid_rewrite elem_of_app in IHr.
    destruct Ho as [->|[[Ho|Ho]|[Ho|Ho]]]; [eauto|eapply IHl|eapply IHr|eapply IHl|eapply IHr]; eauto.
Qed.

Lemma focus_ptr stop k p t : (focus stop k p t).1 = p \/ (focus stop k p t).1.1 ∈ nodes t.
Proof.
  revert p. induction t as [k' v|o d l IHl r IHr]; intros p; cbn; destruct (stop _); try by left.
  right. rewrite elem_of_cons, elem_of_app. destruct (Z.testbit k d).
  - destruct (IHr (entries o true)) as [->|]; cbn; tauto.
  - destruct (IHl (entries o false)) as [->|]; cbn; tauto.
Qed.

Lemma focus_nodes stop k p t o : o ∈ nodes (focus stop k p t).2 -> o ∈ nodes t.
Proof.
  destruct (change_parts stop (fun t => t) k p t) as (_ & _ & a & b & _ & _ & -> & _).
  rewrite !elem_of_app. tauto.
Qed.

Lemma focus_ne stop k p t x : x <> p -> x.1 ∉ nodes t -> x <> (focus stop k p t).1.
Proof. intros H1 H2 ->. by destruct (focus_ptr stop k p t). Qed.

(** Changing the pool at the focus of a tree changes the tree there. *)
Lemma stored_change stop f k h h' p t :
  stored h p t -> p.1 ∉ nodes t -> NoDup (nodes t) ->
  (forall x, x <> (focus stop k p t).1 -> x = p \/ x.1 ∈ nodes t ->
     x.1 ∉ nodes (focus stop k p t).2 -> cells h' !! x = cells h !! x) ->
  extends h h' -> stored h' (focus stop k p t).1 (f (focus stop k p t).2) ->
  stored h' p (change stop f k t).
Proof.
  revert p. induction t as [k' v|o d l IHl r IHr]; intros p Hs Hp Hn Hc He Hf;
    cbn in Hc, Hf |- *; destruct (stop _); try done.
  cbn in Hs, Hp, Hn. destruct Hs as (H1 & H2 & H3 & H4 & H5 & H6).
  apply NoDup_cons in Hn as [Ho (Nl & Hlr & Nr)%NoDup_app].
  rewrite elem_of_cons, elem_of_app in Hp. rewrite elem_of_app in Ho.
  setoid_rewrite elem_of_cons in Hc. setoid_rewrite elem_of_app in Hc.
  assert (forall b t', (forall x, x ∈ nodes t' -> x ∈ nodes l \/ x ∈ nodes r) ->
    p <> (focus stop k (entries o b) t').1 /\ diff o <> (focus stop k (entries o b) t').1) as Hne.
  { intros b t' Ht'. split; (apply focus_ne; [|intros ?%Ht'; tauto]).
    - intros ->. cbn in Hp. tauto.
    - by destruct b. }
  destruct (Z.testbit k d); cbn.
  - destruct (Hne true r) as [N1 N2]; [tauto|]. split_and!; [|done|by apply He| | |].
    + rewrite Hc; [done|done|by left|intros ?%focus_nodes; tauto].
    + rewrite Hc; [done|done|by right; left|intros ?%focus_nodes; tauto].
    + apply (stored_extends h); [|done|done]. intros x Hx.
      assert (x.1 ∉ nodes r) by (destruct Hx as [->|Hx]; [cbn; tauto|by apply Hlr]).
      apply Hc; [|destruct Hx as [->|]; cbn; tauto|intros ?%focus_nodes; tauto].
      apply focus_ne; [|done]. intros ->. destruct Hx as [[=]|Hx]. cbn in Hx. tauto.
    + apply IHr; try done; [cbn; tauto|]. intros x Hx Hx' Hx''.
      apply Hc; [done|destruct Hx' as [->|]; cbn; tauto|done].
  - destruct (Hne false l) as [N1 N2]; [tauto|]. split_and!; [|done|by apply He| | |].
    + rewrite Hc; [done|done|by left|intros ?%focus_nodes; tauto].
    + rewrite Hc; [done|done|by right; left|intros ?%focus_nodes; tauto].
    + apply IHl; try done; [cbn; tauto|]. intros x Hx Hx' Hx''.
      apply Hc; [done|destruct Hx' as [->|]; cbn; tauto|done].
    + apply (stored_extends h); [|done|done]. intros x Hx.
      assert (x.1 ∉ nodes l) by (destruct Hx as [->|Hx]; [cbn; tauto|intros ?; by eapply Hlr]).
      apply Hc; [|destruct Hx as [->|]; cbn; tauto|intros ?%focus_nodes; tauto].
      apply focus_ne; [|done]. intros ->. destruct Hx as [[=]|Hx]. cbn in Hx. tauto.
Qed.

Lemma stored_focus stop k h p t :
  stored h p t -> p.1 ∉ nodes t -> NoDup (nodes t) ->
  stored h (focus stop k p t).1 (focus stop k p t).2 /\
  (focus stop k p t).1.1 ∉ nodes (focus stop k p t).2 /\ NoDup (nodes (focus stop k p t).2).
Proof.
  revert p. induction t as [k' v|o d l IHl r IHr]; intros p Hs Hp Hn; cbn; destruct (stop _); try done.
  cbn in Hs, Hp, Hn. destruct Hs as (H1 & H2 & H3 & H4 & H5 & H6).
  apply NoDup_cons in Hn as [Ho (Nl & Hlr & Nr)%NoDup_app]. rewrite elem_of_app in Ho.
  destruct (Z.testbit k d); [apply IHr|apply IHl]; try done; cbn; tauto.
Qed.

(** *** The descents *)
Lemma best_match_reads s k p t fuel :
  stored (pool s) p t -> crit t -> (height t < fuel)%nat ->
  reads s (best_match fuel k p) (focus is_leaf k p t).1.
Proof.
  revert p fuel. induction t as [k' v|o d l IHl r IHr]; intros p [|fuel] Hs Hc Hf; cbn in *; try lia.
  - destruct Hs as (E & Hv & ty & Ht & Hty).
    eapply reads_bind; [by apply reads_item|]. unfold OID_IS_NULL. cbn.
    destruct (Z.eqb_spec v 0); [done|].
    eapply reads_bind; [by apply reads_instanceof|]. by rewrite (proj2 (Z.eqb_neq _ _)).
  - destruct Hs as (E & Hv & Ht & Hd & Hl & Hr), Hc as (Hd' & _ & _ & _ & _ & _ & Cl & Cr).
    eapply reads_bind; [by apply reads_item|]. unfold OID_IS_NULL. cbn.
    destruct (Z.eqb_spec o 0); [done|].
    eapply reads_bind; [by apply reads_instanceof|]. rewrite Z.eqb_refl.
    eapply reads_bind; [by apply reads_int|]. rewrite BIT_IS_SET_spec by lia.
    destruct (Z.testbit k d); [apply IHr|apply IHl]; done || lia.
Qed.

Lemma insert_position_reads s k nd p t fuel :
  stored (pool s) p t -> crit t -> (height t < fuel)%nat ->
  reads s (insert_position fuel k nd p) (focus (stop_at nd) k p t).1.
Proof.
  revert p fuel. induction t as [k' v|o d l IHl r IHr]; intros p [|fuel] Hs Hc Hf; cbn in *; try lia.
  - destruct Hs as (E & Hv & ty & Ht & Hty).
    eapply reads_bind; [by apply reads_item|].
    eapply reads_bind; [by apply reads_instanceof|]. by rewrite (proj2 (Z.eqb_neq _ _)).
  - destruct Hs as (E & Hv & Ht & Hd & Hl & Hr), Hc as (Hd' & _ & _ & _ & _ & _ & Cl & Cr).
    eapply reads_bind; [by apply reads_item|].
    eapply reads_bind; [by apply reads_instanceof|]. rewrite Z.eqb_refl.
    eapply reads_bind; [by apply reads_int|]. destruct (d <? nd); [done|].
    rewrite BIT_IS_SET_spec by lia.
    destruct (Z.testbit k d); [apply IHr|apply IHl]; done || lia.
Qed.

Lemma get_leaf_reads s k p t fuel par :
  stored (pool s) p t -> crit t -> (height t < fuel)%nat ->
  reads s (get_leaf_loop fuel k p par)
    ((focus is_leaf k p t).1, if is_leaf t then par else Some (focus (stop_parent k) k p t).1).
Proof.
  revert p fuel par. induction t as [k' v|o d l IHl r IHr]; intros p [|fuel] par Hs Hc Hf; cbn in *; try lia.
  - destruct Hs as (E & Hv & ty & Ht & Hty).
    eapply reads_bind; [by apply reads_item|]. unfold OID_IS_NULL. cbn.
    destruct (Z.eqb_spec v 0); [done|].
    eapply reads_bind; [by apply reads_instanceof|]. by rewrite (proj2 (Z.eqb_neq _ _)).
  - destruct Hs as (E & Hv & Ht & Hd & Hl & Hr), Hc as (Hd' & _ & _ & _ & _ & _ & Cl & Cr).
    eapply reads_bind; [by apply reads_item|]. unfold OID_IS_NULL. cbn.
    destruct (Z.eqb_spec o 0); [done|].
    eapply reads_bind; [by apply reads_instanceof|]. rewrite Z.eqb_refl.
    eapply reads_bind; [by apply reads_int|]. rewrite BIT_IS_SET_spec by lia.
    destruct (Z.testbit k d).
    + specialize (IHr (entries o true) fuel (Some p)). destruct (is_leaf r); apply IHr; done || lia.
    + specialize (IHl (entries o false) fuel (Some p)). destruct (is_leaf l); apply IHl; done || lia.
Qed.

End Ctree.
