(* ===== verification/CtreeSpec.v ===== *)
(** * Correctness of the crit-bit tree map

    The operations of [CtreeMap] on a pool that holds a crit-bit tree: what they
    return, what they make of the map that the tree represents, and that an
    aborted transaction or a power failure leaves the pool as it was. *)

From S2P Require Import Prelude PmemTx CtreeMap.

Module CtreeSpec.
Import Ctree.

(** The map object [map] of the pool [h] holds the tree [t], or nothing. *)
Definition represents (h : heap) (map : oid) (t : option tree) : Prop :=
  match t with
  | None => cells h !! root map = Some (Item 0 OID_NULL)
  | Some t =>
      stored h (root map) t /\ map ∉ nodes t /\ NoDup (nodes t) /\ crit t /\
      forall k, k ∈ keys t -> 0 < k < 2 ^ 64
  end.

Definition map_of (t : option tree) : gmap Z oid :=
  match t with None => ∅ | Some t => contents t end.

(** The pool [h] holds the map [m] in the object [map]. *)
Definition holds (h : heap) (map : oid) (m : gmap Z oid) : Prop :=
  types h !! map = Some map_type /\ exists t, represents h map t /\ map_of t = m.

Definition rep (h : heap) (map : oid) (m : gmap Z oid) : Prop := wf_heap h /\ holds h map m.

(** The objects of the tree are its nodes. *)
Definition own (ty : Z) : bool := ty =? node_type.
Definition inner (t : option tree) : list oid := match t with None => [] | Some t => nodes t end.

(** A value that can be stored: an object that is not a node of a tree. *)
Definition value_ok (h : heap) (v : oid) : Prop :=
  v <> OID_NULL /\ exists ty, types h !! v = Some ty /\ ty <> node_type.

Definition leaf_ptr (k : Z) (map : oid) (t : option tree) : ptr :=
  match t with None => root map | Some t => (focus is_leaf k (root map) t).1 end.

Lemma stored_node h p t o : stored h p t -> o ∈ nodes t -> types h !! o = Some node_type.
Proof.
  revert p. induction t as [k v|o' d l IHl r IHr]; intros p Hs Ho; cbn in *; [set_solver|].
  destruct Hs as (_ & _ & Ht & _ & Hl & Hr). rewrite elem_of_cons, elem_of_app in Ho.
  destruct Ho as [->|[Ho|Ho]]; eauto.
Qed.

Lemma inner_keeps h map t h' : represents h map t -> spares (inner t) map h h' -> keeps own map h h'.
Proof.
  intros Ht. apply spares_keeps. destruct t as [t|]; cbn [inner]; [|by intros o ?%not_elem_of_nil].
  destruct Ht as (Hs & _). intros o Ho. exists node_type. by rewrite (stored_node _ _ _ _ Hs Ho).
Qed.

(** A tree whose root entry is copied to another place. *)
Lemma stored_move h h' p p' t :
  stored h p t -> cells h' !! p' = cells h !! p ->
  (forall x, x.1 ∈ nodes t -> cells h' !! x = cells h !! x) -> extends h h' -> stored h' p' t.
Proof.
  intros Hs Hp Hc He. destruct t as [k v|o d l r]; cbn in *.
  - destruct Hs as (E & Hv & ty & Ht & Hty). rewrite Hp. eauto 6.
  - destruct Hs as (E & Hv & Ht & Hd & Hl & Hr). rewrite Hp.
    setoid_rewrite elem_of_cons in Hc. setoid_rewrite elem_of_app in Hc.
    split_and!; [done|done|by apply He|rewrite Hc; [done|by left]| |];
      (eapply stored_extends; [|done|done]); intros x [->|Hx]; apply Hc; cbn; tauto.
Qed.

Lemma leaf_at h map k t :
  represents h map (Some t) ->
  cells h !! (focus is_leaf k (root map) t).1 = Some (Item (best k t).1 (best k t).2).
Proof.
  intros (Hs & Hm & Hn & _). destruct (stored_focus is_leaf k h (root map) t Hs Hm Hn) as (Hs' & _).
  rewrite focus_leaf in Hs'. apply Hs'.
Qed.

Section Ops.
Context `{A0 : Allocator}.

(** *** Lookups *)
Lemma get_leaf_found s map k t :
  represents (pool s) map t -> 0 < k ->
  reads s (ctree_map_get_leaf map k)
    (match t with
     | None => None
     | Some t =>
         if (best k t).1 =? k
         then Some ((focus is_leaf k (root map) t).1,
                    if is_leaf t then None else Some (focus (stop_parent k) k (root map) t).1)
         else None
     end).
Proof.
  intros Ht Hk. unfold ctree_map_get_leaf. destruct t as [t|].
  - pose proof (leaf_at _ _ k _ Ht) as E. destruct Ht as (Hs & Hm & Hn & Hc & Hu).
    eapply reads_bind; [by apply get_leaf_reads; [| |apply height_rounds]|]. cbn.
    eapply reads_bind; [by apply reads_item|]. cbn. by destruct (_ =? k).
  - eapply (reads_bind _ _ _ (root map, None)).
    + cbn. eapply reads_bind; [by apply reads_item|]. done.
    + eapply reads_bind; [by apply reads_item|]. cbn [fst]. by rewrite (proj2 (Z.eqb_neq 0 k)) by lia.
Qed.

Lemma get_reads s map t k :
  represents (pool s) map t -> 0 < k ->
  reads s (ctree_map_get map k) (default OID_NULL (map_of t !! k)).
Proof.
  intros Ht Hk. eapply reads_bind; [by apply get_leaf_found|]. destruct t as [t|]; [|done].
  cbn. rewrite lookup_contents by apply Ht. destruct (_ =? k); [|done].
  eapply reads_bind; [by apply reads_item, leaf_at|done].
Qed.

Lemma lookup_reads s map t k :
  represents (pool s) map t -> 0 < k ->
  reads s (ctree_map_lookup map k) (if decide (is_Some (map_of t !! k)) then 1 else 0).
Proof.
  intros Ht Hk. eapply reads_bind; [by apply get_leaf_found|]. destruct t as [t|]; cbn.
  - rewrite lookup_contents by apply Ht. destruct (_ =? k); cbn.
    + by rewrite decide_True by eauto.
    + by rewrite decide_False by (intros [? ?]; done).
  - by rewrite decide_False by (rewrite lookup_empty; intros [? ?]; done).
Qed.

Lemma best_match_map s map t k :
  represents (pool s) map t -> reads s (best_match rounds k (root map)) (leaf_ptr k map t).
Proof.
  intros Ht. destruct t as [t|].
  - destruct Ht as (Hs & Hm & Hn & Hc & Hu). cbn [leaf_ptr].
    by apply best_match_reads; [| |apply height_rounds].
  - cbn. eapply reads_bind; [by apply reads_item|done].
Qed.

(** *** Insertion *)
Definition inserted (s : state) (map : oid) (t0 : option tree) (m : gmap Z oid) (s' : state) : Prop :=
  frees s' = frees s /\ spares (inner t0) map (pool s) (pool s') /\
  exists t, represents (pool s') map (Some t) /\ map_of (Some t) = m.

Lemma insert_empty h0 s map k v :
  cells (pool s) !! root map = Some (Item 0 OID_NULL) -> 0 < k < 2 ^ 64 -> value_ok (pool s) v ->
  wp h0 (insert_at map k v (root map))
    (fun r s' => r = 0 /\ inserted s map None {[k := v]} s') s.
Proof.
  intros E Hk (Hv & ty & Ht & Hty). unfold insert_at.
  eapply wp_reads; [by apply reads_item|]. cbn [fst]. rewrite Z.eqb_refl. cbn [orb].
  apply wp_bind. eapply wp_tx_add; [done|]. apply wp_bind. apply wp_store.
  { cbn. eauto. } { left. cbn. set_solver. }
  apply wp_ret. split; [done|]. split; [done|]. split; [by apply spares_put; [left|]|].
  exists (Leaf k v). cbn. rewrite lookup_insert_eq. split; [|done].
  split; [eauto 6|]. split; [set_solver|]. split; [apply NoDup_nil_2|]. split; [done|].
  intros k' ->%list_elem_of_singleton. done.
Qed.

Lemma insert_over h0 s map k v t :
  represents (pool s) map (Some t) -> (best k t).1 = k -> 0 < k -> value_ok (pool s) v ->
  wp h0 (insert_at map k v (leaf_ptr k map (Some t)))
    (fun r s' => r = 0 /\ inserted s map (Some t) (<[k := v]> (contents t)) s') s.
Proof.
  intros Ht Hb Hk (Hv & ty & Hty & Hne). pose proof (leaf_at _ _ k _ Ht) as E.
  destruct Ht as (Hs & Hm & Hn & Hc & Hu). unfold insert_at. cbn [leaf_ptr].
  set (q := (focus is_leaf k (root map) t).1) in *. rewrite Hb in E.
  eapply wp_reads; [by apply reads_item|]. cbn [fst]. rewrite Z.eqb_refl, orb_true_r.
  apply wp_bind. eapply wp_tx_add; [done|]. apply wp_bind. apply wp_store.
  { cbn. eauto. } { left. cbn. set_solver. }
  apply wp_ret. split; [done|]. split; [done|].
  destruct (overwrite_tree_spec k v t Hc Hb) as (C1 & C2 & C3 & C4). split.
  { apply spares_put; [|done]. destruct (focus_ptr is_leaf k (root map) t) as [Eq|Hq].
    - left. unfold q. by rewrite Eq.
    - right. by left. }
  exists (overwrite_tree k v t). split; [|done]. split_and!; [|by rewrite C3|by rewrite C3|done|auto].
  apply (stored_change _ _ _ (pool s)); [done|done|done| |by intros ? ?|].
  - intros x Hx _ _. cbn. by rewrite lookup_insert_ne.
  - fold q. cbn. rewrite lookup_insert_eq. eauto 6.
Qed.


(** The state after [ctree_map_insert_leaf] put the new node [o] in the place of
    the entry [old] at [q]. *)
Definition leaf_state (o : oid) (nd k : Z) (v : oid) (q : ptr) (old : Z * oid) (s : state) : state :=
  let d := Z.testbit k nd in
  put q (Item 0 o) (put q (Item 0 old.2) (snapshot q (Item old.1 old.2)
    (put (entries o (negb d)) (Item old.1 old.2)
      (put (entries o d) (Item k v)
        (put (diff o) (Int nd) (add_object o node_type [Junk; Junk; Junk] s)))))).

Lemma leaf_state_cells o nd k v q old s x :
  q.1 <> o ->
  cells (pool (leaf_state o nd k v q old s)) !! x =
    if decide (x = q) then Some (Item 0 o)
    else if decide (x = diff o) then Some (Int nd)
    else if decide (x = entries o (Z.testbit k nd)) then Some (Item k v)
    else if decide (x = entries o (negb (Z.testbit k nd))) then Some (Item old.1 old.2)
    else cells (pool s) !! x.
Proof.
  intros Hq. unfold leaf_state. cbn. unfold put_fields. rewrite !lookup_insert.
  destruct x as [o' i], q as [oq iq]. cbn in Hq.
  unfold entries, diff. destruct (Z.testbit k nd); cbn; repeat case_decide; simplify_eq; done.
Qed.


Lemma leaf_state_stored o nd k v s map t :
  let q := (focus (stop_at nd) k (root map) t).1 in
  let sub := (focus (stop_at nd) k (root map) t).2 in
  represents (pool s) map (Some t) -> types (pool s) !! map = Some map_type ->
  value_ok (pool s) v -> types (pool s) !! o = None -> o <> OID_NULL ->
  forall old, cells (pool s) !! q = Some (Item old.1 old.2) ->
  stored (pool (leaf_state o nd k v q old s)) (root map) (insert_tree o nd k v t).
Proof.
  intros q sub (Hs & Hm & Hn & _) Hmap (Hv & ty & Hty & Hne) Ho Hnull old Hold.
  assert (o <> map) as Hom by congruence.
  assert (o ∉ nodes t) as Hon by (intros Hin; rewrite (stored_node _ _ _ _ Hs Hin) in Ho; done).
  assert (q.1 <> o) as Hqo.
  { destruct (focus_ptr (stop_at nd) k (root map) t) as [E|E]; unfold q; [by rewrite E|].
    intros <-. done. }
  assert (extends (pool s) (pool (leaf_state o nd k v q old s))) as He.
  { intros o' ty' Ho'. cbn. rewrite lookup_insert_ne by congruence. done. }
  destruct (stored_focus (stop_at nd) k (pool s) (root map) t Hs Hm Hn) as (Fs & Fq & _).
  fold q sub in Fs, Fq.
  apply (stored_change _ _ _ (pool s)); [done|done|done| |done|]; fold q; fold sub.
  - intros x Hx Hx' _. rewrite leaf_state_cells, decide_False by done.
    assert (x.1 <> o) by (destruct Hx' as [->|Hx']; [done|congruence || (intros <-; done)]).
    rewrite !decide_False; [done|by intros ->..].
  - assert (forall b, q <> entries o b) as Hqe by (intros b Hb; rewrite Hb in Hqo; done).
    assert (stored (pool (leaf_state o nd k v q old s)) (entries o (negb (Z.testbit k nd))) sub) as Hsub.
    { apply (stored_move (pool s) _ q); [done| | |done].
      - rewrite leaf_state_cells, decide_False by done.
        rewrite decide_False by (by destruct (Z.testbit k nd)).
        rewrite decide_False by (by destruct (Z.testbit k nd)). by rewrite decide_True.
      - intros x Hx. assert (x <> q) by (intros ->; done).
        assert (x.1 <> o) by (intros <-; apply Hon; by eapply focus_nodes).
        rewrite leaf_state_cells by done. rewrite !decide_False; [done|(done || by intros ->)..]. }
    assert (stored (pool (leaf_state o nd k v q old s)) (entries o (Z.testbit k nd)) (Leaf k v)) as Hleaf.
    { split; [|split; [done|]; exists ty; split; [by apply He|done]].
      rewrite leaf_state_cells, decide_False by done.
      rewrite decide_False by (by destruct (Z.testbit k nd)). by rewrite decide_True. }
    assert (cells (pool (leaf_state o nd k v q old s)) !! q = Some (Item 0 o)) as C1
      by (by rewrite leaf_state_cells, decide_True).
    assert (cells (pool (leaf_state o nd k v q old s)) !! diff o = Some (Int nd)) as C2
      by (by rewrite leaf_state_cells, decide_False, decide_True by (done || by intros <-)).
    assert (types (pool (leaf_state o nd k v q old s)) !! o = Some node_type) as T
      by (cbn; by rewrite lookup_insert_eq).
    unfold split. destruct (Z.testbit k nd) eqn:Eb; cbn [negb] in Hsub.
    + exact (conj C1 (conj Hnull (conj T (conj C2 (conj Hsub Hleaf))))).
    + exact (conj C1 (conj Hnull (conj T (conj C2 (conj Hleaf Hsub))))).
Qed.


(** The second half of [ctree_map_insert_leaf]. *)
Lemma place_leaf h0 s o nd k v map t (Q : unit -> state -> Prop) :
  let q := (focus (stop_at nd) k (root map) t).1 in
  let d := Z.testbit k nd in
  represents (pool s) map (Some t) -> types (pool s) !! map = Some map_type ->
  types (pool s) !! o = None ->
  (forall old, cells (pool s) !! q = Some (Item old.1 old.2) -> Q tt (leaf_state o nd k v q old s)) ->
  wp h0 (p ← insert_position rounds k nd (root map);
         old ← load_item p;
         store (entries o (negb d)) (Item old.1 old.2) ;;
         tx_add p ;; store p (Item 0 old.2) ;; store p (Item 0 o)) Q
    (put (entries o d) (Item k v)
      (put (diff o) (Int nd) (add_object o node_type [Junk; Junk; Junk] s))).
Proof.
  intros q d Ht Hmap Ho HQ. pose proof Ht as (Hs & Hm & Hn & Hc & Hu). set (s3 := put (entries o d) _ _).
  assert (forall x, x.1 <> o -> cells (pool s3) !! x = cells (pool s) !! x) as Hx.
  { intros x Hx. cbn. rewrite !lookup_insert_ne by (intros <-; done).
    by rewrite lookup_put_fields, bool_decide_false by (intros [? _]; done). }
  assert (o <> map) as Hom by congruence.
  assert (o ∉ nodes t) as Hon by (intros Hin; rewrite (stored_node _ _ _ _ Hs Hin) in Ho; done).
  assert (stored (pool s3) (root map) t) as Hs3.
  { apply (stored_extends (pool s)); [| |done].
    - intros x [->|Hin]; apply Hx; [done|congruence || by intros <-].
    - intros o' ty' Ho'. cbn. by rewrite lookup_insert_ne by congruence. }
  destruct (stored_focus (stop_at nd) k (pool s3) (root map) t Hs3 Hm Hn) as (Fs & _).
  fold q in Fs. apply stored_item in Fs as (ok & ov & Eo & _).
  assert (q.1 <> o) as Hqo.
  { destruct (focus_ptr (stop_at nd) k (root map) t) as [E|E]; unfold q; [by rewrite E|]. by intros <-. }
  eapply wp_reads; [by apply insert_position_reads; [| |apply height_rounds]|]. fold q.
  eapply wp_reads; [by apply reads_item|]. cbn [fst snd].
  apply wp_bind, wp_store.
  { cbn. unfold entries, diff. destruct d; cbn; rewrite !lookup_insert_ne by done;
      rewrite lookup_put_fields, bool_decide_true by (cbn; lia); eauto. }
  { right. cbn. set_solver. }
  apply wp_bind. eapply wp_tx_add; [cbn -[s3]; rewrite lookup_insert_ne; [done|by intros <-]|].
  apply wp_bind, wp_store; [cbn -[s3]; rewrite lookup_insert_ne; [eauto|by intros <-]|left; cbn; set_solver|].
  apply wp_store; [cbn -[s3]; rewrite lookup_insert_eq; eauto|left; cbn; set_solver|].
  apply (HQ (ok, ov)). by rewrite <- Hx.
Qed.

Lemma insert_new_leaf h0 s map k v t :
  represents (pool s) map (Some t) -> types (pool s) !! map = Some map_type ->
  (best k t).1 <> k -> 0 < k < 2 ^ 64 -> value_ok (pool s) v ->
  wp h0 (insert_at map k v (leaf_ptr k map (Some t)))
    (fun r s' => r = 0 /\ inserted s map (Some t) (<[k := v]> (contents t)) s') s.
Proof.
  intros Ht Hmap Hb Hk Hval. pose proof (leaf_at _ _ k _ Ht) as E. unfold insert_at. cbn [leaf_ptr].
  pose proof Ht as (Hs & Hm & Hn & Hc & Hu).
  assert (forall z, 0 < z < 2 ^ 64 -> is_u64 z) as Hz by (unfold is_u64; lia).
  assert (0 < (best k t).1) as Hb0 by apply Hu, best_key.
  eapply wp_reads; [by apply reads_item|]. cbn [fst].
  rewrite (proj2 (Z.eqb_neq _ 0)), (proj2 (Z.eqb_neq _ k)) by (done || lia). cbn [orb].
  set (nd := find_crit_bit _ _). unfold ctree_map_insert_leaf.
  assert (0 <= nd) as Hnd by (by apply crit_bit_spec; [apply Hz, Hu, best_key|apply Hz|]).
  apply wp_bind, wp_bind, wp_tx_alloc. intros o Ho Hnull.
  assert (forall i, (i < 3)%nat -> put_fields o 0 [Junk; Junk; Junk] (cells (pool s)) !! (o, i) = Some Junk) as Hj.
  { intros i Hi. rewrite lookup_put_fields, bool_decide_true by (cbn; lia). cbn. rewrite Nat.sub_0_r.
    by destruct i as [|[|[|]]]; [| | |lia]. }
  apply wp_bind, wp_store; [cbn; unfold diff; rewrite Hj by lia; eauto|right; cbn; set_solver|].
  eapply wp_reads; [apply reads_int; cbn; by rewrite lookup_insert_eq|].
  rewrite !BIT_IS_SET_spec by done. cbn [fst snd].
  apply wp_bind, wp_store.
  { cbn. unfold entries. destruct (Z.testbit k nd); rewrite lookup_insert_ne, Hj by (done || lia); eauto. }
  { right. cbn. set_solver. }
  apply (place_leaf _ _ _ _ _ _ _ t); [done|done|done|]. intros old Hold. apply wp_ret.
  destruct (insert_tree_spec o k v t) as (C1 & C2 & C3 & C4);
    [done|intros x Hx; by apply Hz, Hu|by apply Hz|done|]. fold nd in C1, C2, C3, C4.
  split; [done|]. split; [done|]. split.
  - unfold leaf_state. set (q := (focus (stop_at nd) k (root map) t).1) in *.
    assert (q.1 = map \/ q.1 ∈ nodes t \/ types (pool s) !! q.1 = None) as Hq.
    { destruct (focus_ptr (stop_at nd) k (root map) t) as [E'|E']; unfold q; [left; by rewrite E'|auto]. }
    apply spares_put, spares_put; [done|done|]. do 3 (apply spares_put; [by right; right|]).
    by apply spares_alloc.
  - exists (insert_tree o nd k v t). split; [|done]. split_and!.
    + by apply leaf_state_stored.
    + rewrite C3, elem_of_cons. intros [->|]; [congruence|done].
    + rewrite C3. apply NoDup_cons. split; [|done].
      intros Hin. rewrite (stored_node _ _ _ _ Hs Hin) in Ho. done.
    + done.
    + intros x [->|Hx]%C4; auto.
Qed.

Lemma insert_at_wp h0 s map k v t :
  represents (pool s) map t -> types (pool s) !! map = Some map_type -> 0 < k < 2 ^ 64 ->
  value_ok (pool s) v ->
  wp h0 (insert_at map k v (leaf_ptr k map t))
    (fun r s' => r = 0 /\ inserted s map t (<[k := v]> (map_of t)) s') s.
Proof.
  intros Ht Hmap Hk Hv. destruct t as [t|].
  - destruct (Z.eq_dec (best k t).1 k); [apply insert_over|apply insert_new_leaf]; done || lia.
  - apply insert_empty; done.
Qed.

(** *** Removal *)
Lemma represents_frees s map t :
  map ∉ frees s -> (forall o, o ∈ frees s -> match t with None => True | Some t => o ∉ nodes t ++ values t end) ->
  represents (pool s) map t -> represents (commit s) map t.
Proof.
  intros Hm Hf. destruct t as [t|]; cbn [represents].
  - intros (Hs & H). split; [|done]. apply (stored_frame (pool s)); [| |done].
    + intros x Hx. apply cells_commit. intros Hin. destruct Hx as [->|Hx]; [done|].
      apply (Hf _ Hin). set_solver.
    + intros o Ho. apply types_commit. intros Hin. by apply (Hf _ Hin).
  - intros E. by rewrite cells_commit.
Qed.

(** What a removal of [k] from the tree [t] leaves, with the node that it frees. *)
Definition removed (s : state) (map : oid) (k : Z) (t : tree) (s' : state) : Prop :=
  spares (nodes t) map (pool s) (pool s') /\ types (pool s') = types (pool s) /\
  exists t', represents (pool s') map t' /\ map_of t' = delete k (contents t) /\
    leaves t ≡ₚ best k t :: match t' with None => [] | Some t' => leaves t' end /\
    (frees s' = frees s \/
     exists o, frees s' = {[o]} ∪ frees s /\ types (pool s) !! o = Some node_type /\ o ∈ nodes t /\
       match t' with None => True | Some t' => o ∉ nodes t' end).

Lemma remove_root_wp h0 s map k v :
  represents (pool s) map (Some (Leaf k v)) ->
  wp h0 (remove_root (root map)) (fun _ s' => removed s map k (Leaf k v) s') s.
Proof.
  intros ((E & _) & _). unfold remove_root.
  apply wp_bind. eapply wp_tx_add; [done|]. eapply wp_reads; [by apply reads_item|].
  apply wp_bind, wp_store; [eauto|left; cbn; set_solver|].
  apply wp_store; [cbn; rewrite lookup_insert_eq; eauto|left; cbn; set_solver|].
  split; [do 2 (apply spares_put; [by left|]); done|]. split; [done|].
  exists None. cbn. rewrite lookup_insert_eq. split; [done|]. split; [|by split; [|left]].
  unfold contents. cbn. by rewrite delete_insert_eq, delete_empty.
Qed.


Lemma focus_leaf_parent k p t o d l r :
  is_leaf t = false -> (focus (stop_parent k) k p t).2 = Node o d l r ->
  (focus is_leaf k p t).1 = entries o (Z.testbit k d).
Proof.
  revert p. induction t as [k' v|o' d' l' IHl r' IHr]; intros p Hl; [done|]. cbn.
  destruct (Z.testbit k d') eqn:Eb.
  - destruct r' as [k' v|o1 d1 l1 r1]; cbn [is_leaf].
    + cbn. intros [= <- <- <- <-]. by rewrite Eb.
    + by apply IHr.
  - destruct l' as [k' v|o1 d1 l1 r1]; cbn [is_leaf].
    + cbn. intros [= <- <- <- <-]. by rewrite Eb.
    + by apply IHl.
Qed.

(** The entry beside the leaf of [k], as [remove_inner] finds it. *)
Lemma other_entry h o l r k v b :
  stored h (entries o false) l -> stored h (entries o true) r -> 0 < k ->
  (if b : bool then r else l) = Leaf k v ->
  (forall x, x ∈ keys l -> x = k -> b = false) ->
  exists k0 v0 k1 v1,
    cells h !! entries o false = Some (Item k0 v0) /\ (k0 =? k) = negb b /\
    cells h !! entries o (negb b) = Some (Item k1 v1).
Proof.
  intros Hl Hr Hk Hb Hx. destruct (stored_item _ _ _ Hl) as (k0 & v0 & E0 & _).
  destruct b; cbn [negb].
  - exists k0, v0, k0, v0. split; [done|]. split; [|done]. apply Z.eqb_neq. intros ->.
    destruct l as [k' v'|o' d' l' r']; cbn in Hl.
    + destruct Hl as [El _]. assert (k' = k) as -> by congruence.
      by specialize (Hx k ltac:(rewrite keys_leaf; set_solver) eq_refl).
    + destruct Hl as [El _]. assert (k = 0) by congruence. lia.
  - subst l. destruct (stored_item _ _ _ Hr) as (k1 & v1 & E1 & _).
    exists k, v, k1, v1. cbn in Hl. destruct Hl as [El _]. by rewrite Z.eqb_refl.
Qed.

Lemma remove_inner_wp h0 s map k t :
  represents (pool s) map (Some t) -> types (pool s) !! map = Some map_type ->
  is_leaf t = false -> (best k t).1 = k -> 0 < k -> frees s = ∅ ->
  wp h0 (remove_inner (focus is_leaf k (root map) t).1 (focus (stop_parent k) k (root map) t).1)
    (fun _ s' => removed s map k t s') s.
Proof.
  intros Ht Hmap Hl Hb Hk Hfr. pose proof (leaf_at _ _ k _ Ht) as El.
  destruct Ht as (Hs & Hm & Hn & Hc & Hu).
  destruct (remove_tree_spec k (root map) t Hc Hl Hb) as (C1 & C2 & (o & d & l & r & Ef & Elf & C3) & C4).
  destruct (stored_focus (stop_parent k) k _ _ _ Hs Hm Hn) as (Fs & Fq & Fn).
  rewrite (focus_leaf_parent _ _ _ _ _ _ _ Hl Ef) in El |- *.
  pose proof (crit_focus (stop_parent k) k (root map) t Hc) as Hcf.
  set (q := (focus (stop_parent k) k (root map) t).1) in *. rewrite Ef in Fs, Fq, Hcf, Fn.
  rewrite Hb in El. cbn [stored] in Fs. destruct Fs as (Eq & Hnull & Ht & Ed & Sl & Sr).
  assert (q = root map \/ q.1 ∈ nodes t) as Hq by apply focus_ptr.
  assert (o ∈ nodes t) as Hon by (rewrite C3; set_solver).
  assert (q.1 <> o) as Hqo by (cbn in Fq; set_solver).
  destruct (other_entry (pool s) o l r k (best k t).2 (Z.testbit k d)) as (k0 & v0 & k1 & v1 & E0 & Ek & E1);
    [done|done|done|done| |].
  { intros x Hx ->. by apply Hcf. }
  unfold remove_inner. eapply wp_reads; [by apply reads_item|]. cbn [snd].
  apply wp_bind. eapply wp_tx_add; [done|].
  eapply wp_reads; [by apply reads_item|]. eapply wp_reads; [by apply reads_item|]. cbn [fst].
  rewrite Ek. eapply wp_reads; [by apply reads_item|].
  apply wp_bind, wp_store; [cbn; eauto|left; cbn; set_solver|].
  apply wp_tx_free; [cbn; rewrite Ht; eauto|cbn; rewrite Hfr; set_solver|done|]. cbn [fst snd].
  split.
  { apply (spares_put (nodes t) map (pool s) q (Item k1 v1) (snapshot q (Item 0 o) s)); [|done].
    destruct Hq as [->|Hq]; [by left|right; by left]. }
  split; [done|]. pose proof Hn as N. rewrite C3 in N. apply NoDup_cons in N as [Ho Hn'].
  exists (Some (remove_tree k t)). split; [|split; [done|]; split; [done|]; right; by exists o].
  cbn [represents]. split_and!; [|intros Hin; apply Hm; rewrite C3; set_solver|done|done|].
  - apply (stored_change _ _ _ (pool s)); [done|done|done| |by intros ? ?|]; fold q.
    + intros x Hx _ _. cbn. by rewrite lookup_insert_ne.
    + rewrite Ef. cbn [sibling].
      apply (stored_move (pool s) _ (entries o (negb (Z.testbit k d)))); [by destruct (Z.testbit k d)| | |by intros ? ?].
      * cbn. by rewrite lookup_insert_eq.
      * intros x Hx. cbn. rewrite lookup_insert_ne; [done|]. intros ->. apply Fq. cbn.
        rewrite elem_of_cons, elem_of_app. destruct (Z.testbit k d); tauto.
  - intros x Hx. apply Hu. unfold keys in *. rewrite C4. cbn. set_solver.
Qed.


Lemma stored_value h p t v :
  stored h p t -> v ∈ values t -> exists ty, types h !! v = Some ty /\ ty <> node_type.
Proof.
  revert p. induction t as [k v'|o d l IHl r IHr]; intros p Hs Hv; unfold values in *; cbn in *.
  - apply list_elem_of_singleton in Hv as ->. apply Hs.
  - destruct Hs as (_ & _ & _ & _ & Hl & Hr). rewrite fmap_app, elem_of_app in Hv. naive_solver.
Qed.

Lemma removed_commit s map k t s' :
  frees s = ∅ -> types (pool s) !! map = Some map_type -> removed s map k t s' ->
  spares (nodes t) map (pool s) (commit s') /\ holds (commit s') map (delete k (contents t)).
Proof.
  intros Hf Hmap (Hk & Hty & t' & Ht' & Hm & _ & Hfr).
  assert (forall o, o ∈ frees s' -> types (pool s) !! o = Some node_type /\ o ∈ nodes t /\
    match t' with None => True | Some t' => o ∉ nodes t' end) as Ho.
  { destruct Hfr as [->|(o & -> & H1 & H2 & H3)]; rewrite Hf; set_solver. }
  assert (map ∉ frees s') as Hmf by (intros [H _]%Ho; rewrite Hmap in H; by injection H).
  split.
  - apply spares_commit; [|done]. by intros o (_ & H & _)%Ho.
  - split; [by rewrite types_commit, Hty|]. exists t'. split; [|done].
    apply represents_frees; [done| |done]. intros o Hin. destruct (Ho o Hin) as (H1 & _ & H2).
    destruct t' as [t'|]; [|done]. rewrite elem_of_app. intros [|Hv]; [done|].
    destruct Ht' as (Hs & _). destruct (stored_value _ _ _ _ Hs Hv) as (ty & H3 & H4).
    rewrite Hty in H3. congruence.
Qed.

Lemma inserted_commit s map t0 m s' :
  frees s = ∅ -> types (pool s) !! map = Some map_type -> represents (pool s) map t0 ->
  inserted s map t0 m s' ->
  spares (inner t0) map (pool s) (commit s') /\ holds (commit s') map m.
Proof.
  intros Hf Hmap Ht0 (Hfr & Hk & t & Ht & Hm). rewrite Hf in Hfr. split.
  - apply spares_commit; [rewrite Hfr; set_solver|done].
  - split; [rewrite types_commit by (rewrite Hfr; set_solver); by apply (inner_keeps _ _ _ _ Ht0 Hk)|].
    exists (Some t). split; [|done]. apply represents_frees; rewrite ?Hfr; set_solver.
Qed.

Lemma remove_atomic h map t k :
  wf_heap h -> types h !! map = Some map_type -> represents h map t -> 0 < k ->
  atomic h (ctree_map_remove map k) (default OID_NULL (map_of t !! k))
    (fun r h' => r = default OID_NULL (map_of t !! k) /\ rep h' map (delete k (map_of t)) /\
       spares (inner t) map h h').
Proof.
  intros Hwf Hmap Ht Hk. assert (rep h map (map_of t)) as Hrep by (split; [done|]; split; [done|]; eauto).
  eapply atomic_reads; [by apply get_leaf_found|]. destruct t as [t|]; cbn [map_of] in *.
  2: { eapply atomic_read; [by apply reads_ret|]. by rewrite lookup_empty, delete_empty. }
  rewrite lookup_contents by apply Ht. destruct (Z.eqb_spec (best k t).1 k) as [Eb|Eb].
  2: { eapply atomic_read; [by apply reads_ret|]. split; [done|]. split; [|apply spares_refl].
       rewrite delete_id; [done|]. rewrite lookup_contents by apply Ht. by rewrite (proj2 (Z.eqb_neq _ _)). }
  eapply atomic_reads; [by apply reads_item, leaf_at|]. cbn [snd default].
  assert (forall body, wp h body (fun _ s' => removed (begin h) map k t s') (begin h) ->
    atomic h (TX body tt ;; mret (best k t).2) (best k t).2
      (fun r h' => r = (best k t).2 /\ rep h' map (delete k (contents t)) /\ spares (nodes t) map h h')) as Hbody.
  { intros body Hb. eapply atomic_mono; [|apply (atomic_map h (TX body tt) (fun _ => (best k t).2) tt (fun _ h' =>
      wf_heap h' /\ spares (nodes t) map h h' /\ holds h' map (delete k (contents t))))].
    2: { apply atomic_TX; [done|]. eapply wp_mono; [|exact Hb]. intros ? s' Hr Hwf'.
         exact (conj Hwf' (removed_commit (begin h) map k t s' eq_refl Hmap Hr)). }
    intros r h' (_ & -> & Hwf' & Hkp & Hh). done. }
  destruct (is_leaf t) eqn:El; apply Hbody.
  - destruct t as [k' v|]; [|done]. cbn in Eb. subst k'. by apply remove_root_wp.
  - by apply remove_inner_wp.
Qed.

(** C15: on a pool that holds the finite map [m] as a crit-bit tree, with keys of 64
    bits other than 0 and values that are objects of the pool (not null) other
    than tree nodes, the operations are those of a finite map: a lookup finds
    the value of the key, an insertion adds or replaces it, a removal returns and
    drops it.  None has undefined behaviour or fails an assertion, and no loop
    runs for more than 65 rounds.  A change is all or nothing: when the
    transaction aborts or the power fails, at whatever store or library call, the
    pool is exactly what it was before.  All objects but the map object and
    the inner nodes of its tree, also the nodes of other trees, keep their type and
    contents. *)
Theorem ctree_refines_map h map t k :
  wf_heap h -> types h !! map = Some map_type -> represents h map t -> 0 < k < 2 ^ 64 ->
  let m := map_of t in
  reads (idle h) (ctree_map_get map k) (default OID_NULL (m !! k)) /\
  reads (idle h) (ctree_map_lookup map k) (if decide (is_Some (m !! k)) then 1 else 0) /\
  (forall v, value_ok h v ->
     atomic h (ctree_map_insert map k v) 1
       (fun r h' => r = 0 /\ rep h' map (<[k := v]> m) /\ spares (inner t) map h h')) /\
  atomic h (ctree_map_remove map k) (default OID_NULL (m !! k))
    (fun r h' => r = default OID_NULL (m !! k) /\ rep h' map (delete k m) /\ spares (inner t) map h h').
Proof.
  intros Hwf Hmap Ht Hk m.
  split; [by apply get_reads; [|lia]|]. split; [by apply lookup_reads; [|lia]|]. split.
  - intros v Hv. eapply atomic_reads; [by apply best_match_map|]. apply atomic_TX; [done|].
    eapply wp_mono; [|by apply insert_at_wp]. intros r s' [-> Hi] Hwf'.
    by destruct (inserted_commit (begin h) map _ _ s' eq_refl Hmap Ht Hi) as [K Hh].
  - apply remove_atomic; done || lia.
Qed.

(** *** Traversal *)
Lemma bit_order d a b :
  0 <= d -> Z.testbit a d = false -> Z.testbit b d = true -> same_above d a b -> a < b.
Proof.
  intros Hd Ha Hb Hs. destruct (Z.lt_ge_cases a b) as [|Hge]; [done|exfalso].
  assert (Z.shiftr b d <= Z.shiftr a d) as Hle.
  { rewrite !Z.shiftr_div_pow2 by done. apply Z.div_le_mono; [|done]. lia. }
  assert (Z.shiftr (Z.shiftr a d) 1 = Z.shiftr (Z.shiftr b d) 1) as Hhigh.
  { apply Z.bits_inj'. intros i Hi. rewrite !Z.shiftr_spec by lia. apply Hs. lia. }
  rewrite <- !Z.div2_spec in Hhigh.
  pose proof (Z.div2_odd (Z.shiftr a d)) as Ea. pose proof (Z.div2_odd (Z.shiftr b d)) as Eb.
  rewrite <- Z.bit0_odd, Z.shiftr_spec, Z.add_0_l, Ha in Ea by lia.
  rewrite <- Z.bit0_odd, Z.shiftr_spec, Z.add_0_l, Hb in Eb by lia. cbn [Z.b2z] in Ea, Eb. lia.
Qed.

Lemma keys_sorted t : crit t -> StronglySorted Z.lt (keys t).
Proof.
  induction t as [k v|o d l IHl r IHr]; intros Hc.
  { rewrite keys_leaf. repeat constructor. }
  destruct Hc as (Hd & _ & _ & Bl & Br & Hs & Cl & Cr). rewrite keys_node.
  assert (forall x y, x ∈ keys l -> y ∈ keys r -> x < y) as Hlt.
  { intros x y Hx Hy. apply (bit_order d); [lia|auto|auto|]. apply Hs; set_solver. }
  clear -Hlt IHl IHr Cl Cr. specialize (IHl Cl). specialize (IHr Cr). clear Cl Cr.
  induction IHl as [|x xs Hsx IH Hx]; cbn; [done|]. constructor.
  - apply IH. intros y z Hy Hz. apply Hlt; set_solver.
  - apply Forall_app. split; [done|]. apply Forall_forall. intros y Hy. apply Hlt; set_solver.
Qed.

Lemma foreach_node_reads {S} s p t fuel (cb : Z -> oid -> S -> Z * S) acc e :
  (forall k v a, (cb k v a).1 = 0) -> stored (pool s) p t -> cells (pool s) !! p = Some (Item e.1 e.2) ->
  (height t < fuel)%nat ->
  reads s (ctree_map_foreach_node fuel e cb acc)
    (0, foldl (fun a kv => (cb kv.1 kv.2 a).2) acc (leaves t)).
Proof.
  intros Hcb. revert p fuel e acc.
  induction t as [k v|o d l IHl r IHr]; intros p [|fuel] e acc Hs He Hf; cbn in Hf; try lia; cbn [stored] in Hs.
  - destruct Hs as (E & Hv & ty & Ht & Hty). assert (e = (k, v)) as -> by (destruct e; cbn in He; congruence).
    cbn. eapply reads_bind; [by apply reads_instanceof|]. rewrite (proj2 (Z.eqb_neq _ _)) by done.
    specialize (Hcb k v acc). destruct (cb k v acc); cbn in *. by subst.
  - destruct Hs as (E & Ho & Ht & Ed & Hl & Hr). assert (e = (0, o)) as -> by (destruct e; cbn in He; congruence).
    cbn. eapply reads_bind; [by apply reads_instanceof|]. rewrite Z.eqb_refl.
    destruct (stored_item _ _ _ Hl) as (k0 & v0 & E0 & _), (stored_item _ _ _ Hr) as (k1 & v1 & E1 & _).
    eapply reads_bind; [by apply reads_item|]. eapply reads_bind; [by eapply IHl; [| |lia]|].
    cbn. eapply reads_bind; [by apply reads_item|]. eapply reads_bind; [by eapply IHr; [| |lia]|].
    cbn. by rewrite foldl_app.
Qed.

Lemma foreach_reads {S} h map t (cb : Z -> oid -> S -> Z * S) acc :
  represents h map t -> (forall k v a, (cb k v a).1 = 0) ->
  exists l, l ≡ₚ map_to_list (map_of t) /\ StronglySorted Z.lt l.*1 /\
    reads (idle h) (ctree_map_foreach map cb acc)
      (0, foldl (fun a kv => (cb kv.1 kv.2 a).2) acc l).
Proof.
  intros Ht Hcb. destruct t as [t|]; cbn [map_of].
  - destruct Ht as (Hs & Hm & Hn & Hc & Hu). exists (leaves t). split.
    { unfold contents. rewrite map_to_list_to_map; [done|]. by apply crit_NoDup. }
    split; [by apply keys_sorted|]. destruct (stored_item _ _ _ Hs) as (k & v & E & Hv).
    eapply reads_bind; [by apply reads_item|]. unfold OID_IS_NULL. cbn [snd].
    rewrite (proj2 (Z.eqb_neq v 0)) by done.
    by eapply foreach_node_reads; [| | |apply height_rounds].
  - exists []. rewrite map_to_list_empty. split; [done|]. split; [constructor|].
    eapply reads_bind; [by apply reads_item|]. done.
Qed.

(** C24: a traversal with a callback that returns 0 calls it once for every
    entry of the map, in increasing order of the keys, and returns 0. *)
Theorem ctree_foreach_sorted {S} h map m (cb : Z -> oid -> S -> Z * S) acc :
  rep h map m -> (forall k v a, (cb k v a).1 = 0) ->
  exists l, l ≡ₚ map_to_list m /\ StronglySorted Z.lt l.*1 /\
    reads (idle h) (ctree_map_foreach map cb acc)
      (0, foldl (fun a kv => (cb kv.1 kv.2 a).2) acc l).
Proof. intros (Hwf & Hmap & t & Ht & <-) Hcb. by apply foreach_reads. Qed.

(** *** Clearing *)
Fixpoint objects (t : tree) : list oid :=
  match t with
  | Leaf _ v => [v]
  | Node o _ l r => objects l ++ objects r ++ [o]
  end.

Definition release_all (os : list oid) (s : state) : state :=
  mkState (pool s) (active s) (undo s) (news s) (list_to_set os ∪ frees s).

Lemma objects_perm t : objects t ≡ₚ nodes t ++ values t.
Proof.
  induction t as [k v|o d l IHl r IHr]; cbn; [done|]. unfold values in *. cbn. rewrite fmap_app, IHl, IHr.
  rewrite !app_assoc, (Permutation_app_comm _ [o]). cbn. constructor.
  rewrite <- !app_assoc. apply Permutation_app_head. rewrite !app_assoc. apply Permutation_app_tail.
  apply Permutation_app_comm.
Qed.

Lemma clear_node_wp h0 p t fuel s k o (Q : unit -> state -> Prop) :
  stored (pool s) p t -> cells (pool s) !! p = Some (Item k o) -> (height t < fuel)%nat ->
  NoDup (objects t) -> (forall x, x ∈ objects t -> x ∉ frees s) ->
  Q tt (release_all (objects t) s) -> wp h0 (ctree_map_clear_node fuel o) Q s.
Proof.
  revert p fuel s k o Q. induction t as [k' v|o' d l IHl r IHr];
    intros p [|fuel] s k o Q Hs He Hf Hn Hd HQ; cbn in Hf; try lia; cbn [stored] in Hs.
  - destruct Hs as (E & Hv & ty & Ht & Hty). assert (o = v) as -> by congruence. cbn.
    unfold OID_IS_NULL. rewrite (proj2 (Z.eqb_neq v 0)) by done.
    eapply wp_reads; [by apply reads_instanceof|]. rewrite (proj2 (Z.eqb_neq _ _)) by done.
    apply wp_bind, wp_ret, wp_tx_free; [eauto|apply Hd; cbn; set_solver|done|].
    unfold release_all in HQ. cbn in HQ. by rewrite (right_id_L ∅ (∪)) in HQ.
  - destruct Hs as (E & Ho & Ht & Ed & Hl & Hr). assert (o = o') as -> by congruence. cbn.
    unfold OID_IS_NULL. rewrite (proj2 (Z.eqb_neq o' 0)) by done.
    eapply wp_reads; [by apply reads_instanceof|]. rewrite Z.eqb_refl.
    destruct (stored_item _ _ _ Hl) as (k0 & v0 & E0 & _), (stored_item _ _ _ Hr) as (k1 & v1 & E1 & _).
    cbn [objects] in Hn, Hd, HQ. apply NoDup_app in Hn as (Nl & Hlr & (Nr & Hro & _)%NoDup_app).
    setoid_rewrite elem_of_app in Hd. setoid_rewrite elem_of_app in Hd.
    setoid_rewrite elem_of_app in Hlr.
    apply wp_bind. eapply wp_reads; [by apply reads_item|]. cbn [snd]. apply wp_bind.
    apply (IHl (entries o' false) fuel s k0); [done|done|lia|done|intros; apply Hd; tauto|].
    eapply wp_reads; [by apply reads_item|]. cbn [snd].
    apply (IHr (entries o' true) fuel _ k1); [done|done|lia|done| |].
    { intros x Hx. cbn. rewrite elem_of_union, elem_of_list_to_set. intros [Hin|Hin].
      - destruct (Hlr x Hin). by left.
      - apply (Hd x); tauto. }
    apply wp_tx_free; [by eexists| |done|].
    { cbn. rewrite !elem_of_union, !elem_of_list_to_set. intros [Hin|[Hin|Hin]].
      - apply (Hro o' Hin). set_solver.
      - apply (Hlr o' Hin). set_solver.
      - apply (Hd o'); [|done]. set_solver. }
    eapply eq_ind; [exact HQ|]. unfold release_all, release. cbn. f_equal. apply leibniz_equiv.
    rewrite !list_to_set_app. set_solver.
Qed.


(** The values of the map are objects of their own. *)
Definition separate (map : oid) (m : gmap Z oid) : Prop :=
  (forall k k' v, m !! k = Some v -> m !! k' = Some v -> k = k') /\
  (forall k v, m !! k = Some v -> v <> map).

Lemma separate_objects h map t :
  represents h map (Some t) -> separate map (contents t) -> NoDup (objects t) /\ map ∉ objects t.
Proof.
  intros (Hs & Hm & Hn & Hc & _) [H1 H2]. rewrite objects_perm, elem_of_app.
  assert (forall k v, (k, v) ∈ leaves t -> contents t !! k = Some v) as Hin.
  { intros k v Hk. apply elem_of_list_to_map_1; [by apply crit_NoDup|done]. }
  split.
  - apply NoDup_app. split; [done|]. split.
    + intros o Ho Hv. pose proof (stored_node _ _ _ _ Hs Ho).
      destruct (stored_value _ _ _ _ Hs Hv) as (ty & ? & ?). congruence.
    + apply NoDup_alt. intros i j v Hi Hj. unfold values in *.
      apply list_lookup_fmap_Some in Hi as ([k1 v1] & -> & Hi).
      apply list_lookup_fmap_Some in Hj as ([k2 v2] & E & Hj). cbn in E. subst v2.
      assert (k1 = k2) as ->.
      { eapply H1; apply Hin; by eapply list_elem_of_lookup_2. }
      eapply (NoDup_lookup (keys t)); [by apply crit_NoDup|..];
        unfold keys; by rewrite list_lookup_fmap, ?Hi, ?Hj.
  - intros [|Hv]; [done|]. apply list_elem_of_fmap in Hv as ([k v] & E & Hk). cbn in E. subst v.
    by apply (H2 k map); [apply Hin|].
Qed.

(** The inner nodes and the values of a map. *)
Definition all_objects (t : option tree) : list oid :=
  match t with None => [] | Some t => nodes t ++ values t end.

(** The root entry of a cleared map: [ctree_map_clear] resets its [slot] only. *)
Definition root_key (t : option tree) : Z :=
  match t with Some (Leaf k _) => k | _ => 0 end.

Lemma clear_atomic h map t :
  wf_heap h -> types h !! map = Some map_type -> represents h map t -> separate map (map_of t) ->
  atomic h (ctree_map_clear map) 0 (fun r h' => r = 0 /\ wf_heap h' /\
    types h' !! map = Some map_type /\ cells h' !! root map = Some (Item (root_key t) OID_NULL) /\
    (forall o, o ∈ all_objects t -> types h' !! o = None) /\ spares (all_objects t) map h h').
Proof.
  intros Hwf Hmap Ht Hsep. unfold ctree_map_clear.
  eapply atomic_mono; [|apply (atomic_map h (TX _ tt) (fun _ => 0) tt (fun _ h' => wf_heap h' /\
    types h' !! map = Some map_type /\ cells h' !! root map = Some (Item (root_key t) OID_NULL) /\
    (forall o, o ∈ all_objects t -> types h' !! o = None) /\ spares (all_objects t) map h h'))].
  { intros r h' (_ & -> & H). done. }
  apply atomic_TX; [done|]. destruct t as [t|]; cbn [map_of root_key] in *.
  - destruct (separate_objects _ _ _ Ht Hsep) as [No Hmo]. destruct Ht as (Hs & Hm & Hn & Hc & Hu).
    assert (exists k o, cells h !! root map = Some (Item k o) /\
      k = match t with Leaf k _ => k | _ => 0 end) as (k & o & E & Ek).
    { destruct t; cbn in Hs; eexists _, _; split; [apply Hs|done|apply Hs|done]. }
    eapply wp_reads; [by apply reads_item|]. apply wp_bind. cbn [snd].
    apply (clear_node_wp _ (root map) t _ _ k); [done|done|by apply height_rounds|done|cbn; set_solver|].
    apply wp_bind. eapply wp_tx_add; [done|]. eapply wp_reads; [by apply reads_item|].
    apply wp_bind, wp_store; [eauto|left; cbn; set_solver|]. apply wp_ret. intros Hwf'.
    assert (map ∉ list_to_set (objects t) ∪ (∅ : gset Z)) by (rewrite elem_of_union, elem_of_list_to_set; set_solver).
    split; [done|]. split; [by rewrite types_commit|].
    split; [rewrite cells_commit by done; cbn; by rewrite lookup_insert_eq, Ek|].
    split.
    + intros x Hx. apply types_freed. cbn. rewrite elem_of_union, elem_of_list_to_set. left. by rewrite objects_perm.
    + apply spares_commit; [|by apply spares_put; [left|]]. intros x. cbn.
      rewrite elem_of_union, elem_of_list_to_set, objects_perm. set_solver.
  - eapply wp_reads; [by apply reads_item|]. apply wp_bind, wp_ret. cbn [root_key].
    apply wp_bind. eapply wp_tx_add; [done|]. eapply wp_reads; [by apply reads_item|].
    apply wp_bind, wp_store; [eauto|left; cbn; set_solver|]. apply wp_ret. intros Hwf'.
    split; [done|]. split; [by rewrite types_commit by set_solver|].
    split; [rewrite cells_commit by set_solver; cbn; by rewrite lookup_insert_eq|].
    split; [set_solver|]. apply spares_commit; [set_solver|]. by apply spares_put; [left|].
Qed.


Lemma size_contents t : crit t -> size (contents t) = length (leaves t).
Proof.
  intros Hc. unfold contents. rewrite <- length_map_to_list, map_to_list_to_map; [done|].
  by apply crit_NoDup.
Qed.

Lemma size_one t : size (map_of t) = 1%nat -> exists k v, map_of t = {[k := v]}.
Proof.
  intros H. rewrite <- length_map_to_list in H.
  destruct (map_to_list (map_of t)) as [|[k v] [|]] eqn:E; [done| |done]. exists k, v.
  apply map_to_list_inj. by rewrite E, map_to_list_singleton.
Qed.

Lemma root_key_size h map t :
  represents h map t ->
  (size (map_of t) = 1%nat -> exists k v, map_of t = {[k := v]} /\ root_key t = k /\ 0 < k) /\
  (size (map_of t) <> 1%nat -> root_key t = 0).
Proof.
  intros Ht. destruct t as [t|]; [|by split; [|intros; done]].
  destruct Ht as (_ & _ & _ & Hc & Hu). cbn [map_of]. rewrite size_contents by done.
  destruct t as [k v|o d l r]; cbn [root_key leaves].
  - split; [|done]. intros _. exists k, v. split; [done|]. split; [done|]. apply Hu.
    rewrite keys_leaf. set_solver.
  - split; [|done]. rewrite length_app.
    assert (forall t, (0 < length (leaves t))%nat) as Hpos.
    { induction t as [|? ? l' IHl r' IHr]; cbn; [lia|]. rewrite length_app. lia. }
    pose proof (Hpos l). pose proof (Hpos r). lia.
Qed.

(** Inserting into a map whose root entry has a key but no object. *)
Lemma stale_insert_leaf h map k e nd :
  cells h !! root map = Some (Item k OID_NULL) -> types h !! map = Some map_type ->
  ctree_map_insert_leaf (root map) e nd [] (begin h) = Wrong AssertFailure.
Proof.
  intros Hr Hm. unfold ctree_map_insert_leaf. erewrite run_bind by (by apply run_alloc).
  set (o := new_oid (types (pool (begin h)))).
  assert (types h !! o = None) as Ho by apply new_oid_unused. assert (o <> map) as Hom by congruence.
  assert (forall i, (i < 3)%nat -> put_fields o 0 [Junk; Junk; Junk] (cells h) !! (o, i) = Some Junk) as Hj.
  { intros i Hi. rewrite lookup_put_fields, bool_decide_true by (cbn; lia). cbn. rewrite Nat.sub_0_r.
    by destruct i as [|[|[|]]]; [| | |lia]. }
  erewrite run_bind by (apply run_store; cbn; unfold diff; rewrite Hj by lia; eauto).
  rewrite (run_reads _ _ nd) by (apply reads_int; cbn; by rewrite lookup_insert_eq).
  erewrite run_bind.
  2: { apply run_store. cbn. unfold entries.
       destruct (BIT_IS_SET e.1 nd); rewrite lookup_insert_ne, Hj by (done || lia); eauto. }
  apply run_wrong. unfold insert_position, rounds. erewrite run_reads; [|apply reads_item].
  2: { cbn. unfold root, entries, diff. rewrite !lookup_insert_ne by congruence.
       rewrite lookup_put_fields, bool_decide_false by (cbn; intros [? _]; congruence). exact Hr. }
  done.
Qed.

Lemma stale_insert h map k k' v :
  cells h !! root map = Some (Item k OID_NULL) -> types h !! map = Some map_type ->
  0 < k -> 0 < k' -> k' <> k -> ctree_map_insert map k' v [] (idle h) = Wrong AssertFailure.
Proof.
  intros Hr Hm Hk Hk' Hne. unfold ctree_map_insert.
  rewrite (run_reads _ _ (root map)) by (cbn; eapply reads_bind; [by apply reads_item|done]).
  unfold TX. cbn [active idle pool]. unfold insert_at.
  rewrite (run_reads _ _ (k, OID_NULL)) by (by apply reads_item). cbn [fst].
  rewrite (proj2 (Z.eqb_neq k 0)), (proj2 (Z.eqb_neq k k')) by lia. cbn [orb].
  erewrite run_wrong; [done|]. by eapply stale_insert_leaf.
Qed.

(** C26: clearing a map whose values are distinct objects, none of them the map
    object, frees all its inner nodes and values in one transaction and leaves
    every other object as it is.  But only
    the identifier of the root entry is reset, not its key, and the test for
    emptiness reads that key, which is 0 in every map with two entries or more:
    exactly the maps with one entry are reported as not empty.  A map of one
    entry is therefore damaged when it is cleared: its key is still found,
    without a value, the map is reported as not empty, and inserting any other
    key fails an assertion. *)
Theorem ctree_clear_stale h map t :
  wf_heap h -> types h !! map = Some map_type -> represents h map t -> separate map (map_of t) ->
  let m := map_of t in
  reads (idle h) (ctree_map_is_empty map) (if decide (size m = 1%nat) then 0 else 1) /\
  atomic h (ctree_map_clear map) 0 (fun r h' => r = 0 /\
    (forall o, o ∈ all_objects t -> types h' !! o = None) /\ spares (all_objects t) map h h' /\
    (size m <> 1%nat -> rep h' map ∅) /\
    (size m = 1%nat -> exists k, is_Some (m !! k) /\
       reads (idle h') (ctree_map_lookup map k) 1 /\
       reads (idle h') (ctree_map_get map k) OID_NULL /\
       reads (idle h') (ctree_map_is_empty map) 0 /\
       forall k' v, 0 < k' -> k' <> k ->
         ctree_map_insert map k' v [] (idle h') = Wrong AssertFailure)).
Proof.
  intros Hwf Hmap Ht Hsep m. destruct (root_key_size _ _ _ Ht) as [R1 R2]. split.
  { destruct (decide (size m = 1%nat)) as [E|E].
    - destruct (R1 E) as (k & v & _ & Hk & Hk0).
      assert (exists o, cells h !! root map = Some (Item k o)) as [o Eo].
      { destruct t as [[k' v'|]|]; cbn in Hk; [|lia..]. subst k'. exists v'. apply Ht. }
      eapply reads_bind; [by apply reads_item|]. cbn [fst]. by rewrite (proj2 (Z.eqb_neq k 0)) by lia.
    - specialize (R2 E). assert (exists o, cells h !! root map = Some (Item 0 o)) as [o Eo].
      { destruct t as [[k' v'|]|]; cbn in R2; [subst k'; eexists; apply Ht|eexists; apply Ht|eexists; apply Ht]. }
      eapply reads_bind; [by apply reads_item|]. done. }
  eapply atomic_mono; [|by apply clear_atomic]. intros r h' (-> & Hwf' & Hm' & Hr & Hv & Hsp).
  split; [done|]. split; [done|]. split; [done|]. split.
  - intros Hs%R2. rewrite Hs in Hr. split; [done|]. split; [done|]. by exists None.
  - intros Hs%R1. destruct Hs as (k & v & E & Hk & Hk0). rewrite Hk in Hr.
    exists k. split; [unfold m; rewrite E, lookup_singleton_eq; eauto|].
    assert (reads (idle h') (ctree_map_get_leaf map k) (Some (root map, None))) as Hleaf.
    { eapply (reads_bind _ _ _ (root map, None)).
      - cbn. eapply reads_bind; [by apply reads_item|]. done.
      - eapply reads_bind; [by apply reads_item|]. cbn [fst]. by rewrite Z.eqb_refl. }
    split; [by eapply reads_bind|]. split.
    { eapply reads_bind; [done|]. eapply reads_bind; [by apply reads_item|done]. }
    split.
    { eapply reads_bind; [by apply reads_item|]. cbn [fst]. by rewrite (proj2 (Z.eqb_neq k 0)) by lia. }
    intros k' v' Hk' Hne. by eapply stale_insert.
Qed.

End Ops.

(** A pool with an empty map and an object to store in it. *)
Definition sample_pool : heap :=
  mkHeap {[(1, 0%nat) := Item 0 OID_NULL; (2, 0%nat) := Int 7]} {[1 := map_type; 2 := 1]}.

Lemma sample_wf : wf_heap sample_pool.
Proof.
  intros p c H. unfold sample_pool in H. cbn in H.
  apply lookup_insert_Some in H as [[<- _]|[_ H]]; [by eexists|].
  apply lookup_singleton_Some in H as [<- _]. by eexists.
Qed.

Lemma sample_value : value_ok sample_pool 2.
Proof. split; [done|]. by exists 1. Qed.

Lemma ctree_refines_map_witness :
  exists orc h', @ctree_map_insert bump_allocator 1 6 2 [] (idle sample_pool) = Done 0 orc (idle h') /\
    rep h' 1 {[6 := 2]}.
Proof.
  destruct (@ctree_refines_map bump_allocator sample_pool 1 None 6) as (_ & _ & Hi & _);
    [exact sample_wf|done|done|lia|].
  destruct (atomic_run _ _ _ _ (Hi 2 sample_value)) as (r & orc & h' & E & -> & Hr & _).
  exists orc, h'. split; [exact E|]. exact Hr.
Defined.

(** The same with the entry 6 in the map. *)
Definition sample_single : heap :=
  mkHeap {[(1, 0%nat) := Item 6 2; (2, 0%nat) := Int 7]} {[1 := map_type; 2 := 1]}.

Lemma sample_single_wf : wf_heap sample_single.
Proof.
  intros p c H. unfold sample_single in H. cbn in H.
  apply lookup_insert_Some in H as [[<- _]|[_ H]]; [by eexists|].
  apply lookup_singleton_Some in H as [<- _]. by eexists.
Qed.

Lemma sample_single_rep : represents sample_single 1 (Some (Leaf 6 2)).
Proof.
  cbn. split; [split; [done|]; split; [done|]; by exists 1|].
  split; [set_solver|]. split; [apply NoDup_nil_2|]. split; [done|].
  intros k ->%list_elem_of_singleton. done.
Qed.

Lemma ctree_foreach_sorted_witness :
  reads (idle sample_single) (ctree_map_foreach 1 (fun k _ ks => (0, ks ++ [k])) []) (0, [6]).
Proof.
  destruct (ctree_foreach_sorted sample_single 1 {[6 := 2]} (fun k _ ks => (0, ks ++ [k])) [])
    as (l & Hl & _ & Hr); [|done|].
  - split; [exact sample_single_wf|]. split; [done|]. exists (Some (Leaf 6 2)). split; [exact sample_single_rep|done].
  - rewrite map_to_list_singleton in Hl. apply Permutation_singleton_r in Hl. by rewrite Hl in Hr.
Defined.

Lemma ctree_clear_stale_witness :
  exists orc h', ctree_map_clear 1 [] (idle sample_single) = Done 0 orc (idle h') /\
    types h' !! 2 = None /\ reads (idle h') (ctree_map_is_empty 1) 0 /\
    @ctree_map_insert bump_allocator 1 7 2 [] (idle h') = Wrong AssertFailure.
Proof.
  destruct (@ctree_clear_stale bump_allocator sample_single 1 (Some (Leaf 6 2))) as [_ H].
  - exact sample_single_wf.
  - done.
  - exact sample_single_rep.
  - change (separate 1 {[6 := 2]}). split.
    + intros k k' v H1 H2. apply lookup_singleton_Some in H1 as [<- _], H2 as [<- _]. done.
    + intros k v H1. apply lookup_singleton_Some in H1 as [_ <-]. done.
  - destruct (atomic_run _ _ _ _ H) as (r & orc & h' & E & -> & Hfree & _ & _ & H1). exists orc, h'.
    split; [exact E|]. split; [apply Hfree; left|].
    destruct H1 as (k & Hk & _ & _ & Hem & Hin); [by apply map_size_singleton|].
    split; [exact Hem|]. apply Hin; [lia|]. intros <-. by destruct Hk.
Defined.
End CtreeSpec.
