(* ===== verification/Primality.v ===== *)
(** * A primality criterion

    Pocklington's criterion: enough large prime factors of [n - 1], together with a
    base that passes the test for each, make [n] prime.  [HashmapSpec] uses it for
    the modulus of the hash function. *)

From Stdlib Require Import Znumtheory Zpow_facts.
From S2P Require Import Prelude.

Module Primality.

(** A number has a prime divisor, which is small unless the number is prime. *)
Lemma small_prime_divisor n : 1 < n -> exists r, prime r /\ (r | n) /\ (r = n \/ r * r <= n).
Proof.
  intros Hn. induction (Z.lt_wf 0 n) as [n _ IH]. destruct (prime_dec n) as [Hp|Hp].
  { exists n. split; [done|]. split; [apply Z.divide_refl|by left]. }
  destruct (not_prime_divide n Hn Hp) as (d & Hd & e & ->).
  assert (1 < e < e * d) as He by nia. destruct (Z.le_ge_cases d e) as [Hle|Hle].
  - destruct (IH d) as (r & Hr & [c ->] & H); [lia..|]. exists r. split; [done|].
    split; [exists (e * c); lia|]. right. pose proof (prime_ge_2 _ Hr). destruct H; nia.
  - destruct (IH e) as (r & Hr & [c ->] & H); [lia..|]. exists r. split; [done|].
    split; [exists (c * d); lia|]. right. pose proof (prime_ge_2 _ Hr). destruct H; nia.
Qed.

Lemma prime_by_factors n : 1 < n -> (forall r, prime r -> (r | n) -> n < r * r) -> prime n.
Proof.
  intros Hn H. destruct (small_prime_divisor n Hn) as (r & Hr & Hd & [<-|Hs]); [done|].
  specialize (H r Hr Hd). lia.
Qed.

(** Trial division, for the factors of [n - 1]. *)
Definition trial (n : Z) : bool :=
  (1 <? n) && forallb (fun d => negb (n mod d =? 0)) (seqZ 2 (Z.sqrt n - 1)).

Lemma trial_prime n : trial n = true -> prime n.
Proof.
  unfold trial. intros [Hn H]%andb_prop. apply Z.ltb_lt in Hn. rewrite forallb_forall in H.
  apply prime_by_factors; [done|]. intros r Hr Hd. apply Z.nle_gt. intros Hs.
  pose proof (prime_ge_2 _ Hr). assert (r <= Z.sqrt n) by (apply Z.sqrt_le_square; lia).
  specialize (H r). rewrite <- list_elem_of_In, elem_of_seqZ in H. specialize (H ltac:(lia)).
  apply Z.mod_divide in Hd; [|lia]. rewrite Hd in H. done.
Qed.

(** ** Fermat's theorem *)
Definition product (l : list Z) : Z := foldr Z.mul 1 l.

Lemma product_Permutation l l' : l ≡ₚ l' -> product l = product l'.
Proof. unfold product. induction 1; cbn; [done|congruence|lia|congruence]. Qed.

Lemma product_coprime r l : prime r -> (forall x, x ∈ l -> ~ (r | x)) -> ~ (r | product l).
Proof.
  intros Hr. induction l as [|x l IH]; intros H; unfold product in *; cbn.
  - pose proof (prime_ge_2 _ Hr). intros Hd%Z.divide_1_r_nonneg; lia.
  - intros Hd. apply prime_mult in Hd as [Hd|Hd]; [| |done].
    + apply (H x); [left|done].
    + apply IH; [|done]. intros y Hy. apply H. by right.
Qed.

Lemma product_map_mod r a l :
  0 < r -> product ((fun x => (a * x) mod r) <$> l) mod r = (a ^ Z.of_nat (length l) * product l) mod r.
Proof.
  intros Hr. induction l as [|x l IH]; [by cbn|].
  change (product ((fun x => (a * x) mod r) <$> x :: l)) with
    (((a * x) mod r) * product ((fun x => (a * x) mod r) <$> l)).
  rewrite Z.mul_mod_idemp_l, <- Z.mul_mod_idemp_r, IH, Z.mul_mod_idemp_r by lia. f_equal.
  change (length (x :: l)) with (S (length l)). rewrite Nat2Z.inj_succ, Z.pow_succ_r by lia.
  change (product (x :: l)) with (x * product l). ring.
Qed.

Lemma fermat r a : prime r -> ~ (r | a) -> (r | a ^ (r - 1) - 1).
Proof.
  intros Hr Ha. pose proof (prime_ge_2 _ Hr) as H2. set (l := seqZ 1 (r - 1)).
  set (f := fun x => (a * x) mod r).
  assert (forall x, x ∈ l -> ~ (r | x)) as Hl.
  { intros x Hx [c ->]. apply elem_of_seqZ in Hx. destruct (Z.le_gt_cases c 0); nia. }
  assert (f <$> l ≡ₚ l) as Hp.
  { apply submseteq_length_Permutation; [|by rewrite length_fmap].
    apply NoDup_submseteq.
    - apply NoDup_fmap_2_strong; [|apply NoDup_seqZ]. intros x y Hx Hy E. subst f. cbn in E.
      apply elem_of_seqZ in Hx, Hy. assert ((a * (x - y)) mod r = 0) as E0.
      { rewrite Z.mul_sub_distr_l, Zminus_mod, E, Z.sub_diag. done. }
      apply Z.mod_divide in E0; [|lia]. apply prime_mult in E0 as [?|[c Hc]]; [done| |done].
      destruct (Z.lt_trichotomy c 0) as [?|[->|?]]; nia.
    - intros y (x & -> & Hx)%list_elem_of_fmap. apply elem_of_seqZ. subst f. cbn.
      pose proof (Z.mod_pos_bound (a * x) r). enough ((a * x) mod r <> 0) by lia.
      intros E. apply Z.mod_divide in E; [|lia]. apply prime_mult in E as [?|?]; [done| |done].
      by apply (Hl x). }
  pose proof (product_map_mod r a l ltac:(lia)) as E. fold f in E.
  rewrite (product_Permutation _ _ Hp) in E. unfold l in E at 2. rewrite length_seqZ, Z2Nat.id in E by lia.
  assert ((r | (a ^ (r - 1) - 1) * product l)) as Hd.
  { apply Z.mod_divide; [lia|]. rewrite Z.mul_sub_distr_r, Z.mul_1_l, Zminus_mod, <- E, Z.sub_diag. done. }
  apply prime_mult in Hd as [?|Hd]; [done| |done]. exfalso. by apply (product_coprime r l Hr Hl).
Qed.

(** ** Pocklington's criterion *)
Lemma power_one r a x k : 0 <= x -> 0 <= k -> (r | a ^ x - 1) -> (r | a ^ (x * k) - 1).
Proof.
  intros Hx Hk H. revert k Hk. apply natlike_ind.
  - rewrite Z.mul_0_r. cbn. apply Z.divide_0_r.
  - intros k Hk [c IH]. destruct H as [d Hd]. exists (d * a ^ (x * k) + c).
    rewrite Z.mul_succ_r, Z.pow_add_r by nia. rewrite Z.mul_add_distr_r, <- IH.
    replace (d * a ^ (x * k) * r) with (d * r * a ^ (x * k)) by ring. rewrite <- Hd. ring.
Qed.

Lemma order_factor r a q m :
  prime r -> ~ (r | a) -> prime q -> 0 <= m ->
  (r | a ^ (q * m) - 1) -> ~ (r | a ^ m - 1) -> (q | r - 1).
Proof.
  intros Hr Ha Hq Hm Hqm Hn. destruct (Zdivide_dec q (r - 1)) as [?|Hd]; [done|]. exfalso. apply Hn.
  pose proof (prime_ge_2 _ Hr). pose proof (prime_ge_2 _ Hq).
  destruct (rel_prime_bezout _ _ (prime_rel_prime q Hq _ Hd)) as [u v E].
  set (t := Z.abs u + Z.abs v). set (u' := u + t * (r - 1)). set (w := t * q - v).
  assert (0 <= u' /\ 0 <= w) as [Hu Hw] by (subst u' w t; nia).
  assert (q * m * u' = m + (r - 1) * (w * m)) as Em.
  { replace m with (m * (u * q + v * (r - 1))) at 2 by (rewrite E; lia). subst u' w. ring. }
  assert (0 <= q * m /\ 0 <= w * m) as [Hqm0 Hwm0] by (split; apply Z.mul_nonneg_nonneg; lia).
  assert (0 <= (r - 1) * (w * m)) as Hrw by (apply Z.mul_nonneg_nonneg; lia).
  pose proof (power_one r a (q * m) u' Hqm0 Hu Hqm) as [c Hc].
  pose proof (power_one r a (r - 1) (w * m) ltac:(lia) Hwm0 (fermat r a Hr Ha)) as [d Hd'].
  rewrite Em, Z.pow_add_r in Hc by done. exists (c - a ^ m * d).
  rewrite Z.mul_sub_distr_r, <- Hc. replace (a ^ m * d * r) with (a ^ m * (d * r)) by ring.
  rewrite <- Hd'. ring.
Qed.

(** The test of a base [a] for a factor [q] of [n - 1]. *)
Definition witness (n a q : Z) : bool :=
  trial q && ((n - 1) mod q =? 0) && (Z.gcd (Zpow_mod a ((n - 1) / q) n - 1) n =? 1).

Definition pocklington (n a q1 q2 : Z) : bool :=
  (1 <? n) && (n <? (q1 * q2 + 1) * (q1 * q2 + 1)) && negb (q1 =? q2) &&
  (Zpow_mod a (n - 1) n =? 1) && witness n a q1 && witness n a q2.

Lemma witness_divides n a q r :
  1 < n -> witness n a q = true -> (r | a ^ (n - 1) - 1) -> prime r -> (r | n) -> ~ (r | a) -> (q | r - 1).
Proof.
  unfold witness. intros Hn [[Hq Hd]%andb_prop Hg]%andb_prop H1 Hr Hrn Ha.
  apply trial_prime in Hq. pose proof (prime_ge_2 _ Hq). apply Z.eqb_eq, Z.mod_divide in Hd; [|lia].
  destruct Hd as [m Hm]. assert (0 <= m) by nia.
  apply (order_factor r a q m); try done; [by rewrite Z.mul_comm, <- Hm|].
  intros Hrm. apply Z.eqb_eq in Hg. rewrite Hm, Z.div_mul, Zpow_mod_correct in Hg by lia.
  assert ((r | a ^ m mod n - 1)) as Hx.
  { rewrite Z.mod_eq by lia. destruct Hrm as [c Hc]. destruct Hrn as [d ->].
    exists (c - d * (a ^ m / (d * r))). rewrite Z.mul_sub_distr_r, <- Hc. ring. }
  pose proof (Z.gcd_greatest _ _ _ Hx Hrn) as Hd. rewrite Hg in Hd.
  pose proof (prime_ge_2 _ Hr). apply Z.divide_1_r_nonneg in Hd; lia.
Qed.

Lemma pocklington_prime n a q1 q2 : pocklington n a q1 q2 = true -> prime n.
Proof.
  unfold pocklington. intros [[[[[Hn Hs]%andb_prop Hne]%andb_prop H1]%andb_prop W1]%andb_prop W2]%andb_prop.
  apply Z.ltb_lt in Hn, Hs. apply Z.eqb_eq in H1. rewrite Zpow_mod_correct in H1 by lia.
  apply negb_true_iff, Z.eqb_neq in Hne. apply prime_by_factors; [done|]. intros r Hr Hrn.
  pose proof (prime_ge_2 _ Hr). assert ((n | a ^ (n - 1) - 1)) as Hn1.
  { apply Z.mod_divide; [lia|]. rewrite Zminus_mod, H1, (Z.mod_small 1) by lia. done. }
  assert ((r | a ^ (n - 1) - 1)) as Hr1 by (by etrans).
  assert (~ (r | a)) as Ha.
  { intros Ha. assert ((r | a ^ (n - 1))) as Hp.
    { replace (n - 1) with (Z.succ (n - 2)) by lia. rewrite Z.pow_succ_r by lia. by apply Z.divide_mul_l. }
    pose proof (Z.divide_sub_r _ _ _ Hp Hr1) as Hd. replace (_ - (_ - 1)) with 1 in Hd by ring.
    apply Z.divide_1_r_nonneg in Hd; lia. }
  pose proof (witness_divides n a q1 r Hn W1 Hr1 Hr Hrn Ha) as D1.
  pose proof (witness_divides n a q2 r Hn W2 Hr1 Hr Hrn Ha) as D2.
  unfold witness in W1, W2. apply andb_prop in W1 as [[P1 _]%andb_prop _], W2 as [[P2 _]%andb_prop _].
  apply trial_prime in P1, P2. pose proof (prime_ge_2 _ P1). pose proof (prime_ge_2 _ P2).
  assert ((q1 * q2 | r - 1)) as D.
  { destruct D1 as [c Hc]. rewrite Hc in D2 |- *. rewrite (Z.mul_comm c).
    apply Z.mul_divide_mono_l. apply (Gauss _ q1); [by rewrite Z.mul_comm|].
    apply rel_prime_sym. apply prime_rel_prime; [done|].
    intros E. by apply prime_div_prime in E. }
  apply Z.divide_pos_le in D; [|lia]. nia.
Qed.

End Primality.
