(* ===== verification/HashmapTx.v ===== *)
(** * Transactional hash map

    Models [pmdk/src/examples/libpmemobj/hashmap/hashmap_tx.c], the workload
    [hashmap_tx]: an array of chains of entries that is rebuilt with twice the
    number of buckets when chains grow long, and with half of it when entries are
    removed. *)

From S2P Require Import Prelude PmemTx.

Module HashmapTx.
Definition HASHMAP_TX_TYPE_OFFSET : Z := 1004.
Definition hashmap_type : Z := HASHMAP_TX_TYPE_OFFSET + 0.
Definition buckets_type : Z := HASHMAP_TX_TYPE_OFFSET + 1.
Definition entry_type : Z := HASHMAP_TX_TYPE_OFFSET + 2.

(** [hashmap_internal.h] *)
Definition HASH_FUNC_COEFF_P : Z := 32212254719.
Definition INIT_BUCKETS_NUM : Z := 10.
Definition MIN_HASHSET_THRESHOLD : Z := 5.
Definition MAX_HASHSET_THRESHOLD : Z := 10.

(** The fields of [struct hashmap_tx], [struct buckets] and [struct entry]. *)
Definition seed (m : oid) : ptr := (m, 0%nat).
Definition hash_fun_a (m : oid) : ptr := (m, 1%nat).
Definition hash_fun_b (m : oid) : ptr := (m, 2%nat).
Definition hash_fun_p (m : oid) : ptr := (m, 3%nat).
Definition count (m : oid) : ptr := (m, 4%nat).
Definition buckets (m : oid) : ptr := (m, 5%nat).
Definition nbuckets (b : oid) : ptr := (b, 0%nat).
Definition bucket (b : oid) (i : Z) : ptr := (b, S (Z.to_nat i)).
Definition key (e : oid) : ptr := (e, 0%nat).
Definition value (e : oid) : ptr := (e, 1%nat).
Definition next (e : oid) : ptr := (e, 2%nat).

(** The fields of a zeroed [struct hashmap_tx], and of a [struct buckets] that was
    allocated with [sizeof(struct buckets) + len * sizeof(TOID(struct entry))]
    bytes, a [size_t]. *)
Definition zero_hashmap : list cell := [Int 0; Int 0; Int 0; Int 0; Int 0; Oid OID_NULL].
Definition buckets_size (len : Z) : Z := u64 (8 + len * 16).
Definition zero_buckets (len : Z) : list cell :=
  Int 0 :: replicate (Z.to_nat ((buckets_size len - 8) / 16)) (Oid OID_NULL).

(** Rounds for a walk along a chain: a chain without a cycle visits an object at
    most once. *)
Definition rounds : tx nat := fun orc s => Done (S (size (types (pool s)))) orc s.

Section Model.
Context `{A0 : Allocator}.

(** The [do]-[while] loop that draws [hash_fun_a]; [rands] is what [rand] returns. *)
Fixpoint draw_a (hashmap : oid) (rands : list Z) : tx (list Z) :=
  match rands with
  | [] => fail OutOfFuel
  | r :: rands =>
      store (hash_fun_a hashmap) (Int (u32 r)) ;;
      a ← load_int (hash_fun_a hashmap);
      if a =? 0 then draw_a hashmap rands else mret rands
  end.

Definition draw (rands : list Z) : tx (Z * list Z) :=
  match rands with [] => fail OutOfFuel | r :: rands => mret (r, rands) end.

(** A transaction whose handler calls [abort()]. *)
Definition die_on_abort {A} (c : tx A) : tx A := fun orc s =>
  match c orc s with
  | Aborted _ _ => Wrong Panic
  | r => r
  end.

Definition create_hashmap (hashmap : oid) (sd : Z) (rands : list Z) : tx unit :=
  die_on_abort (TX (
    tx_add_fields hashmap 6 ;;
    store (seed hashmap) (Int sd) ;;
    rands ← draw_a hashmap rands;
    rb ← draw rands;
    store (hash_fun_b hashmap) (Int (u32 rb.1)) ;;
    store (hash_fun_p hashmap) (Int HASH_FUNC_COEFF_P) ;;
    b ← tx_alloc buckets_type (zero_buckets INIT_BUCKETS_NUM);
    store (buckets hashmap) (Oid b) ;;
    b ← load_oid (buckets hashmap);
    store (nbuckets b) (Int INIT_BUCKETS_NUM)) tt).

Definition hash (hashmap bs : oid) (value : Z) : tx Z :=
  a ← load_int (hash_fun_a hashmap);
  b ← load_int (hash_fun_b hashmap);
  p ← load_int (hash_fun_p hashmap);
  len ← load_int (nbuckets bs);
  if (p =? 0) || (len =? 0) then fail Undefined
  else mret ((u64 (a * value + b) mod p) mod len).

(** The inner loop of [hm_tx_rebuild]: the entries of one old bucket. *)
Fixpoint rebuild_bucket (fuel : nat) (hashmap old new : oid) (i : Z) : tx unit :=
  en ← load_oid (bucket old i);
  if OID_IS_NULL en then mret tt else
  match fuel with
  | O => fail OutOfFuel
  | S fuel =>
      k ← load_int (key en);
      h ← hash hashmap new k;
      nx ← load_oid (next en);
      store (bucket old i) (Oid nx) ;;
      tx_add (next en) ;;
      hd ← load_oid (bucket new h);
      store (next en) (Oid hd) ;;
      store (bucket new h) (Oid en) ;;
      rebuild_bucket fuel hashmap old new i
  end.

(** The outer loop, from bucket [i] on; [n] buckets are left. *)
Fixpoint rebuild_buckets (n : nat) (hashmap old new : oid) (i : Z) : tx unit :=
  match n with
  | O => mret tt
  | S n =>
      fuel ← rounds;
      rebuild_bucket fuel hashmap old new i ;;
      rebuild_buckets n hashmap old new (i + 1)
  end.

Definition hm_tx_rebuild (hashmap : oid) (new_len : Z) : tx unit :=
  old ← load_oid (buckets hashmap);
  n ← load_int (nbuckets old);
  let new_len := if new_len =? 0 then n else new_len in
  TX (tx_add (buckets hashmap) ;;
      new ← tx_alloc buckets_type (zero_buckets new_len);
      store (nbuckets new) (Int new_len) ;;
      tx_add_fields old (S (Z.to_nat n)) ;;
      rebuild_buckets (Z.to_nat n) hashmap old new 0 ;;
      store (buckets hashmap) (Oid new) ;;
      tx_free old) tt.

(** The loop of [hm_tx_insert]: [None] when the key is there, otherwise the
    number of entries seen. *)
Fixpoint insert_scan (fuel : nat) (k : Z) (var : oid) (num : Z) : tx (option Z) :=
  if OID_IS_NULL var then mret (Some num) else
  match fuel with
  | O => fail OutOfFuel
  | S fuel =>
      k' ← load_int (key var);
      if k' =? k then mret None else
      nx ← load_oid (next var);
      insert_scan fuel k nx (num + 1)
  end.

(** The transaction of [hm_tx_insert]. *)
Definition insert_entry (hashmap bs : oid) (h k : Z) (v : oid) : tx Z :=
  bs' ← load_oid (buckets hashmap);
  tx_add (bucket bs' h) ;;
  tx_add (count hashmap) ;;
  e ← tx_alloc entry_type [Junk; Junk; Junk];
  store (key e) (Int k) ;;
  store (value e) (Oid v) ;;
  hd ← load_oid (bucket bs h);
  store (next e) (Oid hd) ;;
  store (bucket bs h) (Oid e) ;;
  c ← load_int (count hashmap);
  store (count hashmap) (Int (u64 (c + 1))) ;;
  mret 0.

Definition hm_tx_insert (hashmap : oid) (k : Z) (v : oid) : tx Z :=
  bs ← load_oid (buckets hashmap);
  h ← hash hashmap bs k;
  hd ← load_oid (bucket bs h);
  fuel ← rounds;
  seen ← insert_scan fuel k hd 0;
  match seen with
  | None => mret 1
  | Some num =>
      ret ← TX (insert_entry hashmap bs h k v) (-1);
      if negb (ret =? 0) then mret ret else
      let num := num + 1 in
      c ← load_int (count hashmap);
      n ← load_int (nbuckets bs);
      (if (MAX_HASHSET_THRESHOLD <? num) ||
          ((MIN_HASHSET_THRESHOLD <? num) && (u64 (2 * n) <? c))
       then hm_tx_rebuild hashmap (u64 (n * 2)) else mret tt) ;;
      mret 0
  end.

(** The loop of [hm_tx_remove]: the entry, or null, with its predecessor. *)
Fixpoint remove_scan (fuel : nat) (k : Z) (var prev : oid) : tx (oid * oid) :=
  if OID_IS_NULL var then mret (var, prev) else
  match fuel with
  | O => fail OutOfFuel
  | S fuel =>
      k' ← load_int (key var);
      if k' =? k then mret (var, prev) else
      nx ← load_oid (next var);
      remove_scan fuel k nx var
  end.

(** The transaction of [hm_tx_remove]. *)
Definition remove_entry (hashmap bs : oid) (h : Z) (var prev : oid) : tx Z :=
  (if OID_IS_NULL prev then
     bs' ← load_oid (buckets hashmap); tx_add (bucket bs' h)
   else tx_add (next prev)) ;;
  tx_add (count hashmap) ;;
  nx ← load_oid (next var);
  (if OID_IS_NULL prev then store (bucket bs h) (Oid nx) else store (next prev) (Oid nx)) ;;
  c ← load_int (count hashmap);
  store (count hashmap) (Int (u64 (c - 1))) ;;
  tx_free var ;;
  mret 0.

Definition hm_tx_remove (hashmap : oid) (k : Z) : tx oid :=
  bs ← load_oid (buckets hashmap);
  h ← hash hashmap bs k;
  hd ← load_oid (bucket bs h);
  fuel ← rounds;
  vp ← remove_scan fuel k hd OID_NULL;
  if OID_IS_NULL vp.1 then mret OID_NULL else
  retoid ← load_oid (value vp.1);
  ret ← TX (remove_entry hashmap bs h vp.1 vp.2) (-1);
  if negb (ret =? 0) then mret OID_NULL else
  c ← load_int (count hashmap);
  n ← load_int (nbuckets bs);
  (if c <? n then hm_tx_rebuild hashmap (n / 2) else mret tt) ;;
  mret retoid.

(** [hm_tx_foreach]: a callback that returns a number other than 0 ends the walk
    along its bucket only. *)
Fixpoint foreach_chain {S} (fuel : nat) (var : oid) (cb : Z -> oid -> S -> Z * S)
    (acc : Z * S) : tx (Z * S) :=
  if OID_IS_NULL var then mret acc else
  match fuel with
  | O => fail OutOfFuel
  | Datatypes.S fuel =>
      k ← load_int (key var);
      v ← load_oid (value var);
      let r := cb k v acc.2 in
      if negb (r.1 =? 0) then mret r else
      nx ← load_oid (next var);
      foreach_chain fuel nx cb r
  end.

Fixpoint foreach_buckets {S} (n : nat) (bs : oid) (i : Z) (cb : Z -> oid -> S -> Z * S)
    (acc : Z * S) : tx (Z * S) :=
  match n with
  | O => mret acc
  | Datatypes.S n =>
      hd ← load_oid (bucket bs i);
      fuel ← rounds;
      acc ← foreach_chain fuel hd cb acc;
      foreach_buckets n bs (i + 1) cb acc
  end.

Definition hm_tx_foreach {S} (hashmap : oid) (cb : Z -> oid -> S -> Z * S) (acc : S) : tx (Z * S) :=
  bs ← load_oid (buckets hashmap);
  n ← load_int (nbuckets bs);
  foreach_buckets (Z.to_nat n) bs 0 cb (0, acc).

(** [hm_tx_get] and [hm_tx_lookup] *)
Fixpoint get_scan (fuel : nat) (k : Z) (var : oid) : tx (option oid) :=
  if OID_IS_NULL var then mret None else
  match fuel with
  | O => fail OutOfFuel
  | S fuel =>
      k' ← load_int (key var);
      if k' =? k then v ← load_oid (value var); mret (Some v) else
      nx ← load_oid (next var);
      get_scan fuel k nx
  end.

Definition scan_map (hashmap : oid) (k : Z) : tx (option oid) :=
  bs ← load_oid (buckets hashmap);
  h ← hash hashmap bs k;
  hd ← load_oid (bucket bs h);
  fuel ← rounds;
  get_scan fuel k hd.

Definition hm_tx_get (hashmap : oid) (k : Z) : tx oid :=
  r ← scan_map hashmap k; mret (default OID_NULL r).

Definition hm_tx_lookup (hashmap : oid) (k : Z) : tx Z :=
  r ← scan_map hashmap k; mret (match r with None => 0 | Some _ => 1 end).

Definition hm_tx_count (hashmap : oid) : tx Z := load_int (count hashmap).

(** [hm_tx_init] restarts [rand] with the seed of the map. *)
Definition hm_tx_init (hashmap : oid) : tx Z := load_int (seed hashmap) ;; mret 0.

Definition hm_tx_create (map : ptr) (sd : Z) (rands : list Z) : tx Z :=
  TX (tx_add map ;;
      m ← tx_alloc hashmap_type zero_hashmap;
      store map (Oid m) ;;
      m ← load_oid map;
      create_hashmap m sd rands ;; mret 0) (-1).

Definition hm_tx_check (hashmap : oid) : tx Z :=
  if OID_IS_NULL hashmap then mret 1 else
  b ← OID_INSTANCEOF hashmap hashmap_type; mret (if b : bool then 0 else 1).

(** [hm_tx_cmd] with [HASHMAP_CMD_REBUILD] (0), [HASHMAP_CMD_DEBUG] (1), which prints
    to the file [arg], and an unknown command. *)
Definition EINVAL : Z := 22.
Definition hm_tx_cmd (hashmap : oid) (cmd arg : Z) : tx Z :=
  if cmd =? 0 then hm_tx_rebuild hashmap arg ;; mret 0
  else if cmd =? 1 then mret (if arg =? 0 then - EINVAL else 0)
  else mret (- EINVAL).
End Model.
End HashmapTx.
