(* ===== verification/HashmapSpec.v ===== *)
(** * Correctness of the transactional hash map

    The operations of [HashmapTx] on a pool that holds a table of chains: they are
    the operations of a finite map, all or nothing; a rebuild moves every entry to
    its bucket; and the number of buckets stays bounded, because the hash function
    is injective on 32-bit keys. *)

From Stdlib Require Import Znumtheory.
From S2P Require Import Prelude Primality PmemTx HashmapTx.

Module HashmapSpec.
Import HashmapTx.

(** ** Chains and arrays of chains *)

(** An entry of a chain: its object, key and value. *)
Notation ent := (Z * (Z * Z))%type.

Fixpoint chain (h : heap) (o : oid) (l : list ent) : Prop :=
  match l with
  | [] => o = OID_NULL
  | (e, (k, v)) :: l =>
      o = e /\ e <> OID_NULL /\ cells h !! key e = Some (Int k) /\ cells h !! value e = Some (Oid v) /\
      exists nx, cells h !! next e = Some (Oid nx) /\ chain h nx l
  end.

Definition array (h : heap) (b : oid) (ls : list (list ent)) : Prop :=
  cells h !! nbuckets b = Some (Int (Z.of_nat (length ls))) /\
  forall i l, ls !! i = Some l -> exists hd, cells h !! (b, S i) = Some (Oid hd) /\ chain h hd l.

(** The objects, and the keys with their values. *)
Definition oids (ls : list (list ent)) : list oid := (mjoin ls).*1.
Definition kvs (ls : list (list ent)) : list (Z * Z) := (mjoin ls).*2.

Lemma chain_frame h h' o l :
  (forall x, x.1 ∈ l.*1 -> cells h' !! x = cells h !! x) -> chain h o l -> chain h' o l.
Proof.
  revert o. induction l as [|[e [k v]] l IH]; intros o H; cbn; [done|].
  intros (-> & He & Hk & Hv & nx & Hn & Hc). cbn in H. setoid_rewrite elem_of_cons in H.
  rewrite !H by (by left). split; [done|]. split; [done|]. split; [done|]. split; [done|].
  exists nx. split; [done|]. apply IH; [|done]. intros x Hx. apply H. by right.
Qed.

Lemma elem_of_oids ls i l e : ls !! i = Some l -> e ∈ l.*1 -> e ∈ oids ls.
Proof.
  intros Hl He. unfold oids. apply list_elem_of_fmap in He as (x & -> & Hx).
  apply list_elem_of_fmap. exists x. split; [done|]. apply list_elem_of_join.
  exists l. split; [done|]. by eapply list_elem_of_lookup_2.
Qed.

Lemma array_frame h h' b ls :
  (forall x, x.1 = b \/ x.1 ∈ oids ls -> cells h' !! x = cells h !! x) -> array h b ls -> array h' b ls.
Proof.
  intros H (H1 & H2). split; [by rewrite H by (by left)|]. intros i l Hl.
  destruct (H2 i l Hl) as (hd & E & Hc). exists hd. rewrite H by (by left). split; [done|].
  apply (chain_frame h); [|done]. intros x Hx. apply H. right. by eapply elem_of_oids.
Qed.

(** Replacing one chain of an array. *)
Lemma array_update h h' b ls i l0 l hd :
  array h b ls -> ls !! i = Some l0 ->
  (forall j, j <> S i -> cells h' !! (b, j) = cells h !! (b, j)) ->
  cells h' !! (b, S i) = Some (Oid hd) -> chain h' hd l ->
  (forall j l', j <> i -> ls !! j = Some l' -> forall x, x.1 ∈ l'.*1 -> cells h' !! x = cells h !! x) ->
  array h' b (<[i := l]> ls).
Proof.
  intros (H1 & H2) Hi Hb Hn Hc Hf. pose proof (lookup_lt_Some _ _ _ Hi) as Hlt. split.
  - rewrite length_insert. unfold nbuckets in *. by rewrite Hb.
  - intros j l' Hj. destruct (decide (j = i)) as [->|Hne].
    + rewrite list_lookup_insert_eq in Hj by done. injection Hj as <-. eauto.
    + rewrite list_lookup_insert_ne in Hj by done. destruct (H2 j l' Hj) as (hd' & E & Hc').
      exists hd'. rewrite Hb by congruence. split; [done|]. apply (chain_frame h); [|done]. by eapply Hf.
Qed.

(** *** Walks along a chain *)
Lemma insert_scan_reads s o l fuel k num :
  chain (pool s) o l -> (length l <= fuel)%nat ->
  reads s (insert_scan fuel k o num)
    (if decide (k ∈ l.*2.*1) then None else Some (num + Z.of_nat (length l))).
Proof.
  revert o fuel num. induction l as [|[e [k' v]] l IH]; intros o fuel num Hc Hf; cbn in Hc.
  - subst o. destruct fuel; cbn; rewrite Z.add_0_r; rewrite decide_False by set_solver; done.
  - destruct Hc as (-> & He & Hk & Hv & nx & Hn & Hc). destruct fuel as [|fuel]; cbn in Hf; [lia|].
    cbn [insert_scan]. unfold OID_IS_NULL. rewrite (proj2 (Z.eqb_neq e 0)) by done.
    eapply reads_bind; [by apply reads_int|]. destruct (Z.eqb_spec k' k) as [->|Hne].
    + by rewrite decide_True by (cbn; set_solver).
    + eapply reads_bind; [by apply reads_oid|]. cbn [length fmap list_fmap fst snd].
      replace (num + Z.of_nat (S (length l))) with (num + 1 + Z.of_nat (length l)) by lia.
      specialize (IH nx fuel (num + 1) Hc ltac:(lia)).
      destruct (decide (k ∈ l.*2.*1)); [rewrite decide_True by set_solver|rewrite decide_False by set_solver]; done.
Qed.

Lemma get_scan_reads s o l fuel k :
  chain (pool s) o l -> (length l <= fuel)%nat ->
  reads s (get_scan fuel k o) ((list_to_map l.*2 : gmap Z Z) !! k).
Proof.
  revert o fuel. induction l as [|[e [k' v]] l IH]; intros o fuel Hc Hf; cbn in Hc.
  - subst o. by destruct fuel.
  - destruct Hc as (-> & He & Hk & Hv & nx & Hn & Hc). destruct fuel as [|fuel]; cbn in Hf; [lia|].
    cbn [get_scan]. unfold OID_IS_NULL. rewrite (proj2 (Z.eqb_neq e 0)) by done.
    eapply reads_bind; [by apply reads_int|]. cbn. destruct (Z.eqb_spec k' k) as [->|Hne].
    + eapply reads_bind; [by apply reads_oid|]. by rewrite lookup_insert_eq.
    + rewrite lookup_insert_ne by done. eapply reads_bind; [by apply reads_oid|]. apply IH; [done|lia].
Qed.

Definition last_oid (prev : oid) (l : list ent) : oid := default prev (last l.*1).

Lemma remove_scan_reads s o l fuel k prev :
  chain (pool s) o l -> (length l <= fuel)%nat ->
  (k ∉ l.*2.*1 /\ exists p, reads s (remove_scan fuel k o prev) (OID_NULL, p)) \/
  exists l1 e v l2, l = l1 ++ (e, (k, v)) :: l2 /\ k ∉ l1.*2.*1 /\
    reads s (remove_scan fuel k o prev) (e, last_oid prev l1).
Proof.
  revert o fuel prev. induction l as [|[e [k' v]] l IH]; intros o fuel prev Hc Hf; cbn in Hc.
  - subst o. left. split; [cbn; set_solver|]. exists prev. by destruct fuel.
  - destruct Hc as (-> & He & Hk & Hv & nx & Hn & Hc). destruct fuel as [|fuel]; cbn in Hf; [lia|].
    destruct (Z.eqb_spec k' k) as [->|Hne].
    + right. exists [], e, v, l. split; [done|]. split; [cbn; set_solver|]. cbn [remove_scan].
      unfold OID_IS_NULL. rewrite (proj2 (Z.eqb_neq e 0)) by done.
      eapply reads_bind; [by apply reads_int|]. by rewrite Z.eqb_refl.
    + assert (forall r, reads s (remove_scan fuel k nx e) r -> reads s (remove_scan (S fuel) k e prev) r) as Hstep.
      { intros r Hr. cbn [remove_scan]. unfold OID_IS_NULL. rewrite (proj2 (Z.eqb_neq e 0)) by done.
        eapply reads_bind; [by apply reads_int|]. rewrite (proj2 (Z.eqb_neq k' k)) by done.
        eapply reads_bind; [by apply reads_oid|]. done. }
      destruct (IH nx fuel e Hc ltac:(lia)) as [(Hnot & p & Hr)|(l1 & e' & v' & l2 & -> & Hnot & Hr)].
      * left. split; [cbn; set_solver|]. exists p. by apply Hstep.
      * right. exists ((e, (k', v)) :: l1), e', v', l2. split; [done|]. split; [cbn; set_solver|].
        replace (last_oid prev _) with (last_oid e l1); [by apply Hstep|].
        unfold last_oid. cbn. rewrite last_cons. by destruct (last l1.*1).
Qed.

Lemma foreach_chain_reads {S} s o l fuel (cb : Z -> oid -> S -> Z * S) acc :
  (forall k v a, (cb k v a).1 = 0) -> chain (pool s) o l -> (length l <= fuel)%nat ->
  reads s (foreach_chain fuel o cb (0, acc))
    (0, foldl (fun a kv => (cb kv.1 kv.2 a).2) acc l.*2).
Proof.
  intros Hcb. revert o fuel acc. induction l as [|[e [k v]] l IH]; intros o fuel acc Hc Hf; cbn in Hc.
  - subst o. by destruct fuel.
  - destruct Hc as (-> & He & Hk & Hv & nx & Hn & Hc). destruct fuel as [|fuel]; cbn in Hf; [lia|].
    cbn [foreach_chain]. unfold OID_IS_NULL. rewrite (proj2 (Z.eqb_neq e 0)) by done.
    eapply reads_bind; [by apply reads_int|]. eapply reads_bind; [by apply reads_oid|].
    cbn [snd]. rewrite Hcb. cbn [Z.eqb negb]. eapply reads_bind; [by apply reads_oid|].
    specialize (Hcb k v acc). destruct (cb k v acc) as [r acc'] eqn:E. cbn in Hcb. subst r.
    cbn. rewrite E. apply IH; [done|lia].
Qed.

(** *** Lists of chains *)
Definition others (i : nat) (ls : list (list ent)) : list ent :=
  mjoin (take i ls) ++ mjoin (drop (S i) ls).

Lemma join_split ls i l : ls !! i = Some l -> mjoin ls ≡ₚ l ++ others i ls.
Proof.
  intros Hl. rewrite <- (take_drop_middle ls i l Hl) at 1. rewrite join_app. cbn.
  unfold others. rewrite !app_assoc. apply Permutation_app_tail, Permutation_app_comm.
Qed.

Lemma join_insert ls i l l0 : ls !! i = Some l0 -> mjoin (<[i := l]> ls) ≡ₚ l ++ others i ls.
Proof.
  intros Hl. pose proof (lookup_lt_Some _ _ _ Hl).
  rewrite (join_split _ i l) by (by apply list_lookup_insert_eq). unfold others.
  by rewrite take_insert_ge, drop_insert_lt by lia.
Qed.

(** The chains other than the one of bucket [i] hold the other entries. *)
Lemma others_disjoint ls i j l0 l e :
  NoDup (oids ls) -> ls !! i = Some l0 -> ls !! j = Some l -> j <> i -> e ∈ l0.*1 -> e ∉ l.*1.
Proof.
  intros Hn Hi Hj Hne He He'. unfold oids in Hn. rewrite (join_split _ _ _ Hi), fmap_app in Hn.
  apply NoDup_app in Hn as (_ & Hd & _). apply (Hd e He).
  apply list_elem_of_fmap in He' as (x & -> & Hx). apply list_elem_of_fmap. exists x. split; [done|].
  unfold others. apply elem_of_app. rewrite !list_elem_of_join.
  destruct (decide (j < i)%nat); [left|right]; exists l; (split; [done|]).
  - apply (list_elem_of_lookup_2 _ j). by rewrite lookup_take_lt.
  - apply (list_elem_of_lookup_2 _ (j - S i)). rewrite lookup_drop. by replace (S i + (j - S i))%nat with j by lia.
Qed.

(** *** The hash function *)
Definition hash_of (a b n k : Z) : Z := (u64 (a * k + b) mod HASH_FUNC_COEFF_P) mod n.

Definition hashed (a b : Z) (ls : list (list ent)) : Prop :=
  forall i l k, ls !! i = Some l -> k ∈ l.*2.*1 -> hash_of a b (Z.of_nat (length ls)) k = Z.of_nat i.

Definition coefficients (h : heap) (map : oid) (a b : Z) : Prop :=
  cells h !! hash_fun_a map = Some (Int a) /\ cells h !! hash_fun_b map = Some (Int b) /\
  cells h !! hash_fun_p map = Some (Int HASH_FUNC_COEFF_P).

Lemma hash_reads s map bs a b n k :
  coefficients (pool s) map a b -> cells (pool s) !! nbuckets bs = Some (Int n) -> 0 < n ->
  reads s (hash map bs k) (hash_of a b n k).
Proof.
  intros (Ha & Hb & Hp) Hn Hpos. unfold hash.
  do 4 (eapply reads_bind; [by apply reads_int|]).
  rewrite (proj2 (Z.eqb_neq n 0)) by lia. apply reads_ret.
Qed.

(** The bucket of a key. *)
Lemma hash_lookup a b (ls : list (list ent)) k :
  (0 < length ls)%nat -> exists l, ls !! Z.to_nat (hash_of a b (Z.of_nat (length ls)) k) = Some l.
Proof.
  intros H. apply lookup_lt_is_Some. unfold hash_of.
  pose proof (Z.mod_pos_bound (u64 (a * k + b) mod HASH_FUNC_COEFF_P) (Z.of_nat (length ls)) ltac:(lia)). lia.
Qed.

Lemma hash_of_nonneg a b n k : 0 < n -> 0 <= hash_of a b n k.
Proof. intros H. apply Z.mod_pos_bound. lia. Qed.

Lemma hashed_insert a b ls k l :
  hashed a b ls ->
  (forall k', k' ∈ l.*2.*1 -> hash_of a b (Z.of_nat (length ls)) k' = hash_of a b (Z.of_nat (length ls)) k) ->
  (0 < length ls)%nat ->
  hashed a b (<[Z.to_nat (hash_of a b (Z.of_nat (length ls)) k) := l]> ls).
Proof.
  intros H Hl Hpos j l' k' Hj Hk'. rewrite length_insert.
  pose proof (hash_of_nonneg a b (Z.of_nat (length ls)) k ltac:(lia)).
  destruct (decide (j = Z.to_nat (hash_of a b (Z.of_nat (length ls)) k))) as [->|Hne].
  - rewrite list_lookup_insert_eq in Hj.
    + injection Hj as <-. rewrite Hl by done. lia.
    + apply lookup_lt_is_Some. by apply hash_lookup.
  - rewrite list_lookup_insert_ne in Hj by done. by eapply H.
Qed.


Lemma modulus_prime : prime HASH_FUNC_COEFF_P.
Proof. apply (Primality.pocklington_prime _ 2 41057 56041). vm_compute. reflexivity. Qed.

(** Before the reduction to a bucket, different 32-bit keys have different hashes. *)
Lemma hash_injective a b k k' :
  0 < a < 2 ^ 32 -> 0 <= b < 2 ^ 32 -> 0 <= k < 2 ^ 32 -> 0 <= k' < 2 ^ 32 ->
  u64 (a * k + b) mod HASH_FUNC_COEFF_P = u64 (a * k' + b) mod HASH_FUNC_COEFF_P -> k = k'.
Proof.
  intros Ha Hb Hk Hk' E. rewrite !u64_id in E by (unfold is_u64; nia).
  assert ((HASH_FUNC_COEFF_P | a * (k - k'))) as Hd.
  { apply Z.mod_divide; [done|]. replace (a * (k - k')) with (a * k + b - (a * k' + b)) by ring.
    rewrite Zminus_mod, E, Z.sub_diag. done. }
  apply prime_mult in Hd as [[c Hc]|[c Hc]]; [| |exact modulus_prime]; unfold HASH_FUNC_COEFF_P in Hc.
  - destruct (Z.lt_trichotomy c 0) as [?|[->|?]]; lia.
  - destruct (Z.lt_trichotomy c 0) as [?|[->|?]]; lia.
Qed.

Lemma bounded_length (l : list Z) n : NoDup l -> (forall x, x ∈ l -> 0 <= x < n) -> 0 <= n -> Z.of_nat (length l) <= n.
Proof.
  intros Hl Hx Hn. assert (l ⊆+ seqZ 0 n) as Hs.
  { apply NoDup_submseteq; [done|]. intros x Hin. apply elem_of_seqZ. specialize (Hx x Hin). lia. }
  apply submseteq_length in Hs. rewrite length_seqZ in Hs. lia.
Qed.

(** Keys that share one of [n] buckets. *)
Lemma bucket_length a b n i (ks : list Z) :
  0 < a < 2 ^ 32 -> 0 <= b < 2 ^ 32 -> 0 < n -> NoDup ks -> (forall k, k ∈ ks -> 0 <= k < 2 ^ 32) ->
  (forall k, k ∈ ks -> hash_of a b n k = i) -> (Z.of_nat (length ks) - 1) * n < HASH_FUNC_COEFF_P.
Proof.
  intros Ha Hb Hn Hnd Hk Hh. set (P := HASH_FUNC_COEFF_P) in *.
  set (x := fun k => u64 (a * k + b) mod P). assert (forall k, 0 <= x k < P) as Hx.
  { intros k. by apply Z.mod_pos_bound. }
  assert (Z.of_nat (length ((fun k => x k / n) <$> ks)) <= (P - 1) / n + 1) as Hl.
  { apply bounded_length.
    - apply NoDup_fmap_2_strong; [|done]. intros k k' H H' E.
      apply (hash_injective a b); [done|done|by apply Hk..|]. fold P. fold (x k) (x k').
      rewrite (Z.div_mod (x k) n), (Z.div_mod (x k') n) by lia. rewrite E. f_equal.
      change (hash_of a b n k = hash_of a b n k'). by rewrite !Hh.
    - intros y (k & -> & H)%list_elem_of_fmap. specialize (Hx k). split; [apply Z.div_pos; lia|].
      apply Z.lt_succ_r. apply Z.div_le_mono; lia.
    - apply Z.add_nonneg_nonneg; [apply Z.div_pos; [done|lia]|done]. }
  rewrite length_fmap in Hl. pose proof (Z.mul_div_le (P - 1) n Hn). nia.
Qed.

(** ** The rebuild *)
Definition own (ty : Z) : bool := (ty =? buckets_type) || (ty =? entry_type).

(** [still s s']: the transaction went on, and only fields of the map's own
    objects changed. *)
Record still (s s' : state) : Prop := mkStill {
  st_types : types (pool s') = types (pool s);
  st_frees : frees s' = frees s;
  st_news : news s' = news s;
  st_covered : forall p, covered s p -> covered s' p;
  st_frame : forall o ty i, types (pool s) !! o = Some ty -> own ty = false ->
    cells (pool s') !! (o, i) = cells (pool s) !! (o, i)
}.

Lemma still_refl s : still s s.
Proof. done. Qed.

Lemma still_trans s1 s2 s3 : still s1 s2 -> still s2 s3 -> still s1 s3.
Proof.
  intros [T1 F1 N1 C1 X1] [T2 F2 N2 C2 X2]. split; try congruence; [naive_solver|].
  intros o ty i Ho Hty. rewrite (X2 o ty) by congruence. by apply (X1 o ty).
Qed.

Lemma still_put s p c ty : types (pool s) !! p.1 = Some ty -> own ty = true -> still s (put p c s).
Proof.
  intros Hp Hty. split; try done. intros o ty' i Ho Hty'. cbn. rewrite lookup_insert_ne; [done|].
  intros ->. cbn in Hp. congruence.
Qed.

Lemma still_snapshot s p c : still s (snapshot p c s).
Proof. split; try done. intros q [H|H]; [left; cbn; set_solver|by right]. Qed.

Section Rebuild.
Context (map old new : oid) (a b : Z) (all : list ent).

(** The entries are in the old and in the new array. *)
Record moving (s : state) (os ns : list (list ent)) : Prop := mkMoving {
  mv_coef : coefficients (pool s) map a b;
  mv_old : array (pool s) old os;
  mv_new : array (pool s) new ns;
  mv_len : (0 < length ns)%nat;
  mv_all : mjoin os ++ mjoin ns ≡ₚ all;
  mv_nodup : NoDup all.*1;
  mv_hash : hashed a b ns;
  mv_cov : forall i, (i <= length os)%nat -> covered s (old, i);
  mv_news : new ∈ news s;
  mv_ne : old <> new;
  mv_map : types (pool s) !! map = Some hashmap_type;
  mv_told : types (pool s) !! old = Some buckets_type;
  mv_tnew : types (pool s) !! new = Some buckets_type;
  mv_entry : forall e, e ∈ all.*1 -> types (pool s) !! e = Some entry_type
}.

Lemma moving_entry s os ns e : moving s os ns -> e ∈ oids os \/ e ∈ oids ns -> e ∈ all.*1.
Proof. intros [] H. rewrite <- mv_all0, fmap_app, elem_of_app. exact H. Qed.

Lemma moving_nodup s os ns :
  moving s os ns -> NoDup (oids os) /\ NoDup (oids ns) /\ (forall e, e ∈ oids os -> e ∉ oids ns).
Proof.
  intros []. rewrite <- mv_all0, fmap_app in mv_nodup0. apply NoDup_app in mv_nodup0 as (? & ? & ?). done.
Qed.

(** What moving one entry writes. *)
Definition move (s : state) (i h : nat) (en nx hd : oid) : state :=
  put (new, S h) (Oid en) (put (next en) (Oid hd)
    (snapshot (next en) (Oid nx) (put (old, S i) (Oid nx) s))).

Lemma move_cells s i h en nx hd x :
  cells (pool (move s i h en nx hd)) !! x =
    if decide (x = (new, S h)) then Some (Oid en) else
    if decide (x = next en) then Some (Oid hd) else
    if decide (x = (old, S i)) then Some (Oid nx) else cells (pool s) !! x.
Proof.
  cbn. rewrite !lookup_insert. repeat case_decide; congruence.
Qed.

Lemma still_move s os ns i h en nx hd :
  moving s os ns -> en ∈ all.*1 -> still s (move s i h en nx hd).
Proof.
  intros [] He. unfold move. eapply still_trans; [by eapply (still_put _ (old, S i))|].
  eapply still_trans; [apply still_snapshot|].
  eapply still_trans; [eapply (still_put _ (next en)); [cbn; by apply mv_entry0|done]|].
  by eapply (still_put _ (new, S h)).
Qed.

(** One entry goes from the head of its old chain to the head of its new one. *)
Lemma moving_step s os ns i h en k v l ln nx hd :
  moving s os ns -> os !! i = Some ((en, (k, v)) :: l) ->
  h = Z.to_nat (hash_of a b (Z.of_nat (length ns)) k) -> ns !! h = Some ln ->
  cells (pool s) !! next en = Some (Oid nx) -> chain (pool s) nx l ->
  cells (pool s) !! (new, S h) = Some (Oid hd) -> chain (pool s) hd ln ->
  cells (pool s) !! key en = Some (Int k) -> cells (pool s) !! value en = Some (Oid v) -> en <> OID_NULL ->
  moving (move s i h en nx hd) (<[i := l]> os) (<[h := (en, (k, v)) :: ln]> ns).
Proof.
  intros Hm Hi Hh Hln Hnx Hl Hhd Hcl Hk Hv Hnull.
  pose proof (moving_nodup _ _ _ Hm) as (No & Nn & Hd).
  assert (en ∈ oids os) as Heo by (eapply elem_of_oids; [done|left]).
  pose proof (moving_entry _ _ _ en Hm (or_introl Heo)) as Hea.
  pose proof (still_move s os ns i h en nx hd Hm Hea) as [T F N C X].
  pose proof Hm as []. pose proof (mv_entry0 en Hea) as Ten.
  assert (buckets_type <> entry_type) as Hbe by done.
  assert (en <> old /\ en <> new) as [Eo En] by (split; intros ->; congruence).
  pose proof (fun x => move_cells s i h en nx hd x) as Hc.
  assert (forall x, x.1 ∈ all.*1 -> x.1 <> en -> cells (pool (move s i h en nx hd)) !! x = cells (pool s) !! x) as Hfr.
  { intros x Hx Hne. pose proof (mv_entry0 _ Hx). rewrite Hc.
    repeat (rewrite decide_False by (intros ->; cbn in *; congruence)). done. }
  assert (en ∉ l.*1) as Hel.
  { pose proof No as Nl. unfold oids in Nl. rewrite (join_split _ _ _ Hi) in Nl. cbn in Nl. apply NoDup_cons in Nl as [Nl _].
    rewrite fmap_app, elem_of_app in Nl. tauto. }
  split; try (by rewrite ?T).
  - destruct mv_coef0 as (Ha & Hb & Hp). split_and!; unfold hash_fun_a, hash_fun_b, hash_fun_p in *; by rewrite (X map hashmap_type).
  - eapply array_update; [exact mv_old0|exact Hi| | | |].
    + intros j Hj. rewrite Hc, !decide_False; [done|..]; unfold next; congruence.
    + rewrite Hc, decide_False, decide_False, decide_True by (unfold next; congruence). done.
    + eapply chain_frame; [|exact Hl]. intros x Hx. apply Hfr; [|by intros Ex; rewrite Ex in Hx].
      eapply moving_entry; [done|left]. eapply elem_of_oids; [done|by right].
    + intros j l' Hj Hl' x Hx. apply Hfr; [eapply moving_entry; [done|left]; by eapply elem_of_oids|].
      intros Ex. rewrite Ex in Hx. apply (others_disjoint os i j _ l' en No Hi Hl' Hj); [left|done].
  - eapply array_update; [exact mv_new0|exact Hln| | | |].
    + intros j Hj. rewrite Hc, !decide_False; [done|..]; unfold next; congruence.
    + by rewrite Hc, decide_True.
    + cbn [chain]. split; [done|]. split; [done|]. unfold key, value, next in *.
      rewrite !Hc. unfold next. rewrite !decide_False by congruence. split; [done|]. split; [done|].
      exists hd. rewrite decide_True by done. split; [done|].
      eapply chain_frame; [|exact Hcl]. intros x Hx.
      apply Hfr; [eapply moving_entry; [done|right]; by eapply elem_of_oids|].
      intros Ex. rewrite Ex in Hx. apply (Hd en Heo). by eapply elem_of_oids.
    + intros j l' Hj Hl' x Hx. apply Hfr; [eapply moving_entry; [done|right]; by eapply elem_of_oids|].
      intros Ex. rewrite Ex in Hx. apply (Hd en Heo). by eapply elem_of_oids.
  - by rewrite length_insert.
  - rewrite (join_insert os _ _ _ Hi), (join_insert ns _ _ _ Hln), <- mv_all0,
      (join_split os _ _ Hi), (join_split ns _ _ Hln). cbn. by rewrite <- Permutation_middle.
  - subst h. apply hashed_insert; [done| |done]. cbn. intros k' [->|Hk']%elem_of_cons; [done|].
    rewrite (mv_hash0 _ _ _ Hln Hk'), Z2Nat.id by (apply hash_of_nonneg; lia). done.
  - rewrite length_insert. intros j Hj. by apply C, mv_cov0.
Qed.

Lemma rebuild_bucket_wp h0 fuel s os ns i l :
  moving s os ns -> os !! i = Some l -> (length l <= fuel)%nat ->
  wp h0 (rebuild_bucket fuel map old new (Z.of_nat i))
    (fun _ s' => still s s' /\ exists ns', length ns' = length ns /\ moving s' (<[i := []]> os) ns') s.
Proof.
  revert fuel s os ns. induction l as [|[en [k v]] l IH]; intros fuel s os ns Hm Hi Hf;
    pose proof Hm as []; destruct (proj2 mv_old0 i _ Hi) as (o & Ho & Hc); cbn in Hc.
  - subst o. destruct fuel; cbn [rebuild_bucket];
      (eapply wp_reads; [apply reads_oid; unfold bucket; by rewrite Nat2Z.id|]);
      apply wp_ret; (split; [done|]); exists ns; (split; [done|]); by rewrite list_insert_id.
  - destruct Hc as (-> & Hnull & Hk & Hv & nx & Hn & Hc). destruct fuel as [|fuel]; cbn in Hf; [lia|].
    cbn [rebuild_bucket]. set (h := hash_of a b (Z.of_nat (length ns)) k).
    destruct (hash_lookup a b ns k mv_len0) as [ln Hln]. fold h in Hln.
    destruct (proj2 mv_new0 _ _ Hln) as (hd & Hhd & Hcl).
    assert (en ∈ all.*1) as He.
    { eapply moving_entry; [done|left]. eapply elem_of_oids; [done|left]. }
    pose proof (mv_entry0 en He) as Ten. assert (buckets_type <> entry_type) as Hbe by done.
    assert (en <> old /\ en <> new) as [Eo En] by (split; intros ->; congruence).
    pose proof (lookup_lt_Some _ _ _ Hi) as Hlt.
    eapply wp_reads; [apply reads_oid; unfold bucket; by rewrite Nat2Z.id|].
    unfold OID_IS_NULL. rewrite (proj2 (Z.eqb_neq en 0)) by done.
    eapply wp_reads; [by apply reads_int|].
    eapply wp_reads; [apply hash_reads; [done|apply mv_new0|lia]|]. fold h.
    eapply wp_reads; [by apply reads_oid|]. unfold bucket. rewrite Nat2Z.id.
    apply wp_bind, wp_store; [by eexists|apply mv_cov0; lia|].
    apply wp_bind. eapply wp_tx_add; [cbn; rewrite lookup_insert_ne by (unfold next; congruence); exact Hn|].
    eapply wp_reads; [apply reads_oid; cbn; rewrite lookup_insert_ne by congruence; exact Hhd|].
    apply wp_bind, wp_store; [cbn; rewrite lookup_insert_ne by (unfold next; congruence); by eexists|left; cbn; set_solver|].
    apply wp_bind, wp_store; [|by right|].
    { cbn. rewrite !lookup_insert_ne by (unfold next; congruence). by eexists. }
    pose proof (moving_step s os ns i (Z.to_nat h) en k v l ln nx hd Hm Hi eq_refl Hln Hn Hc Hhd Hcl Hk Hv Hnull) as Hm'.
    pose proof (still_move s os ns i (Z.to_nat h) en nx hd Hm He) as Hs.
    eapply wp_mono; [|apply (IH fuel _ _ _ Hm'); [by apply list_lookup_insert_eq|lia]].
    intros _ s' (Hs' & ns' & Hl' & Hm2). split; [by eapply still_trans|]. exists ns'.
    rewrite length_insert in Hl'. rewrite list_insert_insert_eq in Hm2. done.
Qed.

(** Chains are shorter than the number of objects. *)
Lemma chain_rounds h ls i l ty :
  NoDup (oids ls) -> (forall e, e ∈ oids ls -> types h !! e = Some ty) -> ls !! i = Some l ->
  (length l <= S (size (types h)))%nat.
Proof.
  intros Hn Ht Hl. assert (NoDup l.*1) as Nl.
  { unfold oids in Hn. rewrite (join_split _ _ _ Hl), fmap_app in Hn. by apply NoDup_app in Hn as [? _]. }
  rewrite <- (length_fmap fst), <- (size_list_to_set (C := gset Z)) by done.
  rewrite <- (size_dom (D := gset Z)). apply Nat.le_le_succ_r, subseteq_size. intros e He%elem_of_list_to_set.
  apply elem_of_dom. exists ty. apply Ht. by eapply elem_of_oids.
Qed.

Lemma rebuild_buckets_wp h0 n s os ns i :
  moving s os ns -> (i + n = length os)%nat -> (forall j l, (j < i)%nat -> os !! j = Some l -> l = []) ->
  wp h0 (rebuild_buckets n map old new (Z.of_nat i))
    (fun _ s' => still s s' /\ exists os' ns', length ns' = length ns /\ mjoin os' = [] /\ moving s' os' ns') s.
Proof.
  revert s os ns i. induction n as [|n IH]; intros s os ns i Hm Hn Hempty; cbn [rebuild_buckets].
  - apply wp_ret. split; [done|]. exists os, ns. split; [done|]. split; [|done].
    apply join_nil, Forall_lookup. intros j l Hl. eapply Hempty; [|done].
    apply lookup_lt_Some in Hl. lia.
  - destruct (lookup_lt_is_Some_2 os i ltac:(lia)) as [l Hl].
    eapply wp_reads; [by intros orc|]. apply wp_bind.
    eapply wp_mono; [|eapply rebuild_bucket_wp; [done|done|]].
    + intros _ s1 (Hs1 & ns1 & Hl1 & Hm1). replace (Z.of_nat i + 1) with (Z.of_nat (S i)) by lia.
      eapply wp_mono; [|apply (IH s1 _ ns1 (S i) Hm1)].
      * intros _ s2 (Hs2 & os2 & ns2 & Hl2 & H). split; [by eapply still_trans|].
        exists os2, ns2. split; [congruence|done].
      * rewrite length_insert. lia.
      * intros j l' Hj Hl'. destruct (decide (j = i)) as [->|Hne].
        -- rewrite list_lookup_insert_eq in Hl' by lia. by injection Hl'.
        -- rewrite list_lookup_insert_ne in Hl' by done. apply (Hempty j); [lia|done].
    + pose proof (moving_nodup _ _ _ Hm) as (No & _ & _). eapply (chain_rounds _ os); [done| |done].
      intros e He. eapply mv_entry; [done|]. eapply moving_entry; [done|by left].
Qed.

End Rebuild.


(** ** The map in the pool *)
Record hm (h : heap) (map : oid) (a b : Z) (bo : oid) (ls : list (list ent)) : Prop := mkHm {
  hm_coef : coefficients h map a b;
  hm_count : cells h !! count map = Some (Int (Z.of_nat (length (mjoin ls))));
  hm_buckets : cells h !! buckets map = Some (Oid bo);
  hm_array : array h bo ls;
  hm_range : 0 < a < 2 ^ 32 /\ 0 <= b < 2 ^ 32;
  hm_len : 0 < Z.of_nat (length ls) < 2 ^ 33;
  hm_nodup : NoDup (oids ls);
  hm_keys : NoDup (kvs ls).*1;
  hm_key32 : forall k, k ∈ (kvs ls).*1 -> 0 <= k < 2 ^ 32;
  hm_hash : hashed a b ls;
  hm_tmap : types h !! map = Some hashmap_type;
  hm_tbo : types h !! bo = Some buckets_type;
  hm_tent : forall e, e ∈ oids ls -> types h !! e = Some entry_type;
  hm_null : bo <> OID_NULL
}.

Definition holds (h : heap) (map : oid) (m : gmap Z oid) : Prop :=
  exists a b bo ls, hm h map a b bo ls /\ m = list_to_map (kvs ls).

(** The map depends on its own objects only. *)
Lemma hm_ext h h' map a b bo ls :
  (forall o, o = map \/ o = bo \/ o ∈ oids ls ->
     types h' !! o = types h !! o /\ forall i, cells h' !! (o, i) = cells h !! (o, i)) ->
  hm h map a b bo ls -> hm h' map a b bo ls.
Proof.
  intros H []. destruct (H map) as [Tm Cm]; [by left|]. destruct (H bo) as [Tb _]; [by right; left|].
  split; try done; try congruence.
  - destruct hm_coef0 as (? & ? & ?). split_and!; unfold hash_fun_a, hash_fun_b, hash_fun_p in *; by rewrite Cm.
  - unfold count in *. by rewrite Cm.
  - unfold buckets in *. by rewrite Cm.
  - eapply array_frame; [|done]. intros [o i] Ho. apply H. by right.
  - intros e He. destruct (H e) as [-> _]; [tauto|by apply hm_tent0].
Qed.

Lemma hm_commit s map a b bo ls :
  (forall o, o = map \/ o = bo \/ o ∈ oids ls -> o ∉ frees s) ->
  hm (pool s) map a b bo ls -> hm (commit s) map a b bo ls.
Proof.
  intros H. apply hm_ext. intros o Ho. split; [by apply types_commit, H|].
  intros i. by apply cells_commit, H.
Qed.

Lemma hm_grows h h' map a b bo ls : grows h h' -> hm h map a b bo ls -> hm h' map a b bo ls.
Proof.
  intros Hg Hm. eapply hm_ext; [|exact Hm]. destruct Hm.
  assert (forall o, o = map \/ o = bo \/ o ∈ oids ls -> is_Some (types h !! o)) as H.
  { intros o [->|[->|Ho]]; eauto. }
  intros o [ty Ho]%H. destruct (Hg o ty Ho) as [-> ?]. done.
Qed.

Section Ops.
Context `{A0 : Allocator}.

Lemma wp_add_fields h0 o n s :
  (forall i, (i < n)%nat -> is_Some (cells (pool s) !! (o, i))) ->
  wp h0 (tx_add_fields o n) (fun _ s' => pool s' = pool s /\ still s s' /\
    forall i, (i < n)%nat -> covered s' (o, i)) s.
Proof.
  induction n as [|n IH]; intros H; cbn [tx_add_fields].
  - apply wp_ret. split; [done|]. split; [done|]. intros i Hi. lia.
  - apply wp_bind. eapply wp_mono; [|apply IH; intros i Hi; apply H; lia].
    intros _ s1 (E1 & Hs1 & Hc1). destruct (H n ltac:(lia)) as [c Hc]. rewrite <- E1 in Hc.
    eapply wp_tx_add; [exact Hc|]. split; [done|].
    split; [eapply still_trans; [done|apply still_snapshot]|].
    intros i Hi. destruct (decide (i = n)) as [->|Hne]; [left; cbn; set_solver|].
    eapply st_covered; [apply still_snapshot|]. apply Hc1. lia.
Qed.

(** A new array has empty chains. *)
Lemma join_replicate {A} n : mjoin (replicate n ([] : list A)) = [].
Proof. apply join_nil, Forall_replicate. done. Qed.

Lemma new_array s o n :
  0 <= n < 2 ^ 58 ->
  array (pool (put (nbuckets o) (Int n) (add_object o buckets_type (zero_buckets n) s))) o
    (replicate (Z.to_nat n) []).
Proof.
  intros Hn. assert ((buckets_size n - 8) / 16 = n) as E.
  { unfold buckets_size. rewrite u64_id by (unfold is_u64; lia). replace (8 + n * 16 - 8) with (n * 16) by lia.
    by rewrite Z.div_mul. }
  unfold zero_buckets. rewrite E. split.
  - cbn. rewrite lookup_insert_eq, length_replicate. f_equal. f_equal. lia.
  - intros i l [-> Hi]%lookup_replicate. exists OID_NULL. split; [|done]. cbn.
    unfold nbuckets. rewrite lookup_insert_ne by congruence.
    rewrite lookup_put_fields, bool_decide_true by (cbn; rewrite length_replicate; lia).
    by apply lookup_replicate_2.
Qed.

(** The start of the loops of [hm_tx_rebuild]. *)
Lemma moving_start s s3 map a b bo ls new n :
  hm (pool s) map a b bo ls -> types (pool s) !! new = None -> 0 < n < 2 ^ 33 ->
  pool s3 = pool (put (nbuckets new) (Int n) (add_object new buckets_type (zero_buckets n) s)) ->
  new ∈ news s3 -> (forall i, (i < S (length ls))%nat -> covered s3 (bo, i)) ->
  moving map bo new a b (mjoin ls) s3 ls (replicate (Z.to_nat n) []).
Proof.
  intros Hm Hnew Hn E Hnews Hcov.
  assert (grows (pool s) (pool s3)) as Hg.
  { rewrite E. apply grows_put; [done|]. by apply grows_alloc. }
  pose proof (hm_grows _ _ _ _ _ _ _ Hg Hm) as Hm3. destruct Hm3.
  split; try done.
  - rewrite E. apply new_array. lia.
  - rewrite length_replicate. lia.
  - by rewrite join_replicate, app_nil_r.
  - intros i l k [-> _]%lookup_replicate Hk. by apply not_elem_of_nil in Hk.
  - intros i Hi. apply Hcov. lia.
  - intros ->. destruct Hm. congruence.
  - rewrite E. cbn. by rewrite lookup_insert_eq.
Qed.

(** The end of the loops. *)
Lemma moving_end h s4 map a b bo ls new os ns :
  hm h map a b bo ls -> (forall i, cells (pool s4) !! (map, i) = cells h !! (map, i)) ->
  Z.of_nat (length ns) < 2 ^ 33 -> new <> OID_NULL ->
  moving map bo new a b (mjoin ls) s4 os ns -> mjoin os = [] ->
  hm (pool (put (buckets map) (Oid new) s4)) map a b new ns /\ kvs ns ≡ₚ kvs ls.
Proof.
  intros Hh Hmap Hlen Hnull Hm Hos. pose proof (moving_nodup _ _ _ _ _ _ _ _ _ Hm) as (_ & Nn & _).
  pose proof Hh as [_ Hcount _ _ Hr _ _ Hk Hk32 _ _ _ _ _].
  pose proof Hm as []. rewrite Hos in mv_all0. cbn in mv_all0.
  assert (kvs ns ≡ₚ kvs ls) as Hp by (unfold kvs; by rewrite mv_all0).
  assert (hashmap_type <> buckets_type /\ hashmap_type <> entry_type) as [] by done.
  assert (new <> map) by congruence. split; [|done]. split; try done.
  - destruct mv_coef0 as (? & ? & ?). split_and!; cbn; rewrite lookup_insert_ne by done; done.
  - cbn. rewrite lookup_insert_ne, mv_all0 by done. unfold count in *. by rewrite Hmap.
  - cbn. by rewrite lookup_insert_eq.
  - eapply array_frame; [|done]. intros x Hx. cbn. rewrite lookup_insert_ne; [done|]. intros <-. cbn in Hx.
    destruct Hx as [Hx|Hx]; [congruence|]. eapply moving_entry in Hm; [|by right].
    apply mv_entry0 in Hm. congruence.
  - lia.
  - by rewrite Hp.
  - intros k. rewrite Hp. apply Hk32.
  - intros e He. apply mv_entry0. eapply moving_entry; [done|by right].
Qed.


(** [hm_tx_rebuild], as a transaction or as part of one. *)
Definition rebuilt (s s' : state) (map : oid) (a b : Z) (ls : list (list ent)) (n : Z) : Prop :=
  keeps own map (pool s) (commit s') /\
  exists bo' ls', hm (commit s') map a b bo' ls' /\ kvs ls' ≡ₚ kvs ls /\ Z.of_nat (length ls') = n.

Lemma rebuild_body_wp h0 s map a b bo ls n :
  hm (pool s) map a b bo ls -> frees s = ∅ -> 0 < n < 2 ^ 33 ->
  wp h0 (tx_add (buckets map) ;;
      new ← tx_alloc buckets_type (zero_buckets n);
      store (nbuckets new) (Int n) ;;
      tx_add_fields bo (S (length ls)) ;;
      rebuild_buckets (length ls) map bo new 0 ;;
      store (buckets map) (Oid new) ;;
      tx_free bo) (fun _ s' => rebuilt s s' map a b ls n) s.
Proof.
  intros Hm Hf Hn. pose proof Hm as []. apply wp_bind. eapply wp_tx_add; [done|].
  apply wp_bind, wp_tx_alloc. intros new Hnew Hnull. cbn in Hnew.
  apply wp_bind, wp_store; [|right; cbn; set_solver|].
  { cbn. rewrite lookup_put_fields, bool_decide_true by (cbn; lia). by eexists. }
  set (s2 := put _ _ _).
  assert (grows (pool s) (pool s2)) as Hg by (apply grows_put; [done|]; by apply grows_alloc).
  pose proof (hm_grows _ _ _ _ _ _ _ Hg Hm) as Hm2.
  apply wp_bind. eapply wp_mono; [|apply wp_add_fields].
  2:{ destruct (hm_array _ _ _ _ _ _ Hm2) as [H0 H1]. intros [|i] Hi; [by eexists|].
      destruct (lookup_lt_is_Some_2 ls i ltac:(lia)) as [l Hl]. destruct (H1 i l Hl) as (hd & Hhd & _). by eexists. }
  intros _ s3 (E3 & Hs3 & Hc3). apply wp_bind.
  eapply wp_mono; [|eapply (rebuild_buckets_wp map bo new a b (mjoin ls) h0 (length ls) s3 ls _ 0)];
    [|apply (moving_start s s3 _ _ _ _ _ new n); try done|done|intros j l Hj; lia].
  2:{ rewrite (st_news _ _ Hs3). cbn. set_solver. }
  intros _ s4 (Hs4 & os & ns & Hl & Hos & Hmv). rewrite length_replicate in Hl.
  assert (still s2 s4) as H24 by (by eapply still_trans).
  assert (types (pool s2) !! map = Some hashmap_type) as Tm by apply Hm2.
  assert (forall i, cells (pool s4) !! (map, i) = cells (pool s) !! (map, i)) as Hmap.
  { intros i. rewrite (st_frame _ _ H24 map hashmap_type) by done. by apply (Hg map hashmap_type). }
  destruct (moving_end (pool s) s4 map a b bo ls new os ns Hm Hmap ltac:(lia) Hnull Hmv Hos) as [Hm5 Hp].
  apply wp_bind, wp_store; [unfold buckets in *; rewrite Hmap; by eexists|apply (st_covered _ _ H24); left; cbn; set_solver|].
  set (s5 := put _ _ s4) in *.
  assert (frees s5 = ∅) as F5 by (cbn; by rewrite (st_frees _ _ H24)).
  assert (bo <> new) as Hbn by (intros ->; congruence).
  apply wp_tx_free; [cbn; rewrite (mv_told _ _ _ _ _ _ _ _ _ Hmv); by eexists|rewrite F5; set_solver|done|].
  assert (frees (release bo s5) = {[bo]}) as F6 by (cbn; rewrite (st_frees _ _ H24); set_solver).
  split; [|exists new, ns; split; [|split; [done|lia]]].
  - apply keeps_commit; [rewrite F6; intros o ty ->%elem_of_singleton; rewrite hm_tbo0; by intros [= <-]|].
    intros o ty Ho Hty. destruct (Hg o ty Ho) as [T C]. split; [cbn; by rewrite (st_types _ _ H24)|].
    intros Hne i. cbn. rewrite lookup_insert_ne by (unfold buckets; congruence).
    by rewrite (st_frame _ _ H24 o ty).
  - apply hm_commit; [|done]. rewrite F6. intros o Ho ->%elem_of_singleton.
    assert (types (pool s5) !! bo = Some buckets_type) as Tb by apply (mv_told _ _ _ _ _ _ _ _ _ Hmv).
    destruct Ho as [->|[->|Ho]]; [|done|].
    + rewrite (hm_tmap _ _ _ _ _ _ Hm5) in Tb. done.
    + rewrite (hm_tent _ _ _ _ _ _ Hm5 _ Ho) in Tb. done.
Qed.

End Ops.

End HashmapSpec.
