(* ===== verification/HashmapOps.v ===== *)
(** * The operations of the transactional hash map

    Every operation of [HashmapTx] on a pool that holds a map, up to the claims: the
    operations are those of a finite map, all or nothing, and the table stays
    within its bounds. *)

From S2P Require Import Prelude PmemTx HashmapTx HashmapSpec.

Module HashmapOps.
Import HashmapTx HashmapSpec.

(** *** Rebuilding *)
Section Ops.
Context `{A0 : Allocator}.

Definition new_length (ls : list (list ent)) (n : Z) : Z :=
  if n =? 0 then Z.of_nat (length ls) else n.

Lemma rebuild_reads s map a b bo ls :
  hm (pool s) map a b bo ls ->
  reads s (load_oid (buckets map)) bo /\ reads s (load_int (nbuckets bo)) (Z.of_nat (length ls)).
Proof. intros []. split; [by apply reads_oid|apply reads_int, hm_array0]. Qed.

Lemma rebuild_wp h0 s map a b bo ls n :
  hm (pool s) map a b bo ls -> frees s = ∅ -> 0 <= n < 2 ^ 33 ->
  wp h0 (hm_tx_rebuild map n) (fun _ s' => rebuilt s s' map a b ls (new_length ls n)) s.
Proof.
  intros Hm Hf Hn. destruct (rebuild_reads _ _ _ _ _ _ Hm) as [R1 R2]. unfold hm_tx_rebuild.
  eapply wp_reads; [exact R1|]. eapply wp_reads; [exact R2|]. rewrite Nat2Z.id. apply wp_TX.
  apply rebuild_body_wp; [done|done|]. destruct Hm. unfold new_length. destruct (Z.eqb_spec n 0); lia.
Qed.

Lemma rebuild_atomic h map a b bo ls n :
  wf_heap h -> hm h map a b bo ls -> 0 <= n < 2 ^ 33 ->
  atomic h (hm_tx_rebuild map n) tt (fun _ h' => wf_heap h' /\ keeps own map h h' /\
    exists bo' ls', hm h' map a b bo' ls' /\ kvs ls' ≡ₚ kvs ls /\ Z.of_nat (length ls') = new_length ls n).
Proof.
  intros Hwf Hm Hn. destruct (rebuild_reads (idle h) _ _ _ _ _ Hm) as [R1 R2]. unfold hm_tx_rebuild.
  eapply atomic_reads; [exact R1|]. eapply atomic_reads; [exact R2|]. rewrite Nat2Z.id.
  apply atomic_TX; [done|]. eapply wp_mono; [|apply rebuild_body_wp; [done|done|]].
  - intros ? s' [Hk H] Hc. done.
  - destruct Hm. unfold new_length. destruct (Z.eqb_spec n 0); lia.
Qed.

(** *** Insertion *)

(** The chain of a key, as the operations find it. *)
Definition slot (a b : Z) (ls : list (list ent)) (k : Z) : nat :=
  Z.to_nat (hash_of a b (Z.of_nat (length ls)) k).

Lemma find_chain s map a b bo ls k :
  hm (pool s) map a b bo ls ->
  exists l hd, ls !! slot a b ls k = Some l /\ chain (pool s) hd l /\
    reads s (load_oid (buckets map)) bo /\
    reads s (hash map bo k) (hash_of a b (Z.of_nat (length ls)) k) /\
    reads s (load_oid (bucket bo (hash_of a b (Z.of_nat (length ls)) k))) hd /\
    (length l <= S (size (types (pool s))))%nat.
Proof.
  intros []. destruct (hash_lookup a b ls k ltac:(lia)) as [l Hl]. destruct (proj2 hm_array0 _ _ Hl) as (hd & Hhd & Hc).
  exists l, hd. split; [done|]. split; [done|]. split; [by apply reads_oid|].
  split; [apply hash_reads; [done|apply hm_array0|lia]|]. split; [by apply reads_oid|].
  by eapply (chain_rounds _ ls).
Qed.

Lemma elem_of_keys (x : ent) l : x ∈ l -> x.2.1 ∈ l.*2.*1.
Proof. intros Hx. apply list_elem_of_fmap_2, list_elem_of_fmap_2. done. Qed.

Lemma chain_keys ls i (l : list ent) k : ls !! i = Some l -> k ∈ l.*2.*1 -> k ∈ (kvs ls).*1.
Proof. intros Hl Hk. unfold kvs. rewrite (join_split _ _ _ Hl), !fmap_app, elem_of_app. by left. Qed.

(** A key of the map is in the chain of its bucket. *)
Lemma key_in_chain h map a b bo ls k l :
  hm h map a b bo ls -> ls !! slot a b ls k = Some l -> (k ∈ (kvs ls).*1 <-> k ∈ l.*2.*1).
Proof.
  intros [] Hl. unfold kvs. split.
  - intros (kv & -> & (x & -> & Hx)%list_elem_of_fmap)%list_elem_of_fmap.
    apply list_elem_of_join in Hx as (l' & Hx & Hl'). apply list_elem_of_lookup in Hl' as [i Hi].
    pose proof (hm_hash0 i l' _ Hi (elem_of_keys x l' Hx)) as Hh. unfold slot in Hl. rewrite Hh, Nat2Z.id in Hl.
    assert (l' = l) as <- by congruence. by apply elem_of_keys.
  - apply (chain_keys _ _ _ _ Hl).
Qed.

Lemma map_lookup_chain h map a b bo ls k l :
  hm h map a b bo ls -> ls !! slot a b ls k = Some l ->
  (list_to_map (kvs ls) : gmap Z oid) !! k = (list_to_map l.*2 : gmap Z oid) !! k.
Proof.
  intros Hm Hl. assert (list_to_map (kvs ls) = (list_to_map (l.*2 ++ (others (slot a b ls k) ls).*2) : gmap Z oid)) as ->.
  { apply list_to_map_proper; [apply Hm|]. rewrite <- fmap_app. unfold kvs. by rewrite (join_split _ _ _ Hl). }
  rewrite list_to_map_app. destruct ((list_to_map l.*2 : gmap Z oid) !! k) as [v|] eqn:E.
  - by apply lookup_union_Some_l.
  - rewrite lookup_union_r by done. apply not_elem_of_list_to_map_1. intros Hin.
    apply not_elem_of_list_to_map_2 in E. apply E, (key_in_chain h map a b bo ls k l Hm Hl).
    unfold kvs. rewrite (join_split _ _ _ Hl), !fmap_app, elem_of_app. by right.
Qed.

(** Replacing the chain of one bucket. *)
Lemma hm_replace h h' map a b bo ls i l0 l :
  hm h map a b bo ls -> ls !! i = Some l0 ->
  (forall o ty, types h !! o = Some ty -> types h' !! o = Some ty) ->
  (forall j, j <> 4%nat -> cells h' !! (map, j) = cells h !! (map, j)) ->
  cells h' !! count map = Some (Int (Z.of_nat (length (l ++ others i ls)))) ->
  array h' bo (<[i := l]> ls) ->
  NoDup (l ++ others i ls).*1 -> NoDup (l ++ others i ls).*2.*1 ->
  (forall k, k ∈ l.*2.*1 -> 0 <= k < 2 ^ 32 /\ hash_of a b (Z.of_nat (length ls)) k = Z.of_nat i) ->
  (forall e, e ∈ l.*1 -> types h' !! e = Some entry_type) ->
  hm h' map a b bo (<[i := l]> ls).
Proof.
  intros [] Hi Ht Hmap Hcount Harr Hn Hk Hl He.
  pose proof (join_insert ls i l l0 Hi) as Hp.
  assert (forall x, x ∈ others i ls -> x ∈ mjoin ls) as Ho.
  { intros x Hx. rewrite (join_split _ _ _ Hi). apply elem_of_app. by right. }
  split; try done; try by auto.
  - destruct hm_coef0 as (? & ? & ?). split_and!; unfold hash_fun_a, hash_fun_b, hash_fun_p in *; by rewrite Hmap.
  - by rewrite Hp.
  - unfold buckets in *. by rewrite Hmap.
  - by rewrite length_insert.
  - unfold oids. by rewrite Hp.
  - unfold kvs. by rewrite Hp.
  - intros k. unfold kvs. rewrite Hp, !fmap_app, elem_of_app. intros [Hin|Hin]; [by apply Hl|].
    apply hm_key33. apply list_elem_of_fmap in Hin as (kv & -> & (x & -> & Hx)%list_elem_of_fmap).
    by apply (elem_of_keys x), Ho.
  - intros j l' k Hj Hkk. rewrite length_insert. destruct (decide (j = i)) as [->|Hne].
    + rewrite list_lookup_insert_eq in Hj by (by eapply lookup_lt_Some). injection Hj as <-. by apply Hl.
    + rewrite list_lookup_insert_ne in Hj by done. by eapply hm_hash0.
  - intros e. unfold oids. rewrite Hp, fmap_app, elem_of_app. intros [Hin|Hin]; [by apply He|].
    apply Ht, hm_tent0. unfold oids. apply list_elem_of_fmap in Hin as (x & -> & Hx).
    apply list_elem_of_fmap. eauto.
Qed.

(** What [insert_entry] writes, and the map after it. *)
Definition inserted (s : state) (map bo e : oid) (h k v hd c : Z) : state :=
  put (count map) (Int c) (put (bucket bo h) (Oid e)
    (put (next e) (Oid hd) (put (value e) (Oid v) (put (key e) (Int k)
      (add_object e entry_type [Junk; Junk; Junk] s))))).

(** The objects of a map are different ones. *)
Lemma hm_apart h map a b bo ls :
  hm h map a b bo ls -> map <> bo /\ forall x, x ∈ oids ls -> x <> map /\ x <> bo.
Proof.
  intros []. split.
  - intros ->. rewrite hm_tmap0 in hm_tbo0. done.
  - intros x Hx%hm_tent0. split; intros ->; [rewrite hm_tmap0 in Hx|rewrite hm_tbo0 in Hx]; done.
Qed.

Lemma inserted_frame s map bo e h k v hd c o i :
  o <> e -> (o, i) <> count map -> (o, i) <> bucket bo h ->
  cells (pool (inserted s map bo e h k v hd c)) !! (o, i) = cells (pool s) !! (o, i).
Proof.
  intros H1 H2 H3. cbn. rewrite !lookup_insert_ne by (unfold next, value, key; congruence).
  by rewrite lookup_put_fields, bool_decide_false by (cbn; tauto).
Qed.

Lemma inserted_chain s map bo e h k v hd c l :
  e <> map -> e <> bo -> e <> OID_NULL -> e ∉ l.*1 -> map ∉ l.*1 -> bo ∉ l.*1 -> chain (pool s) hd l ->
  chain (pool (inserted s map bo e h k v hd c)) e ((e, (k, v)) :: l).
Proof.
  intros H1 H2 H3 Hl1 Hl2 Hl3 Hc. cbn [chain]. split; [done|]. split; [done|]. cbn.
  unfold key, value, next, count, bucket.
  repeat (rewrite lookup_insert_eq || rewrite lookup_insert_ne by congruence).
  split; [done|]. split; [done|]. exists hd. split; [done|]. eapply chain_frame; [|done].
  intros [x i] Hx. cbn in Hx. apply inserted_frame; unfold count, bucket; congruence.
Qed.

Lemma inserted_hm s map a b bo ls k v e l hd :
  hm (pool s) map a b bo ls -> types (pool s) !! e = None -> e <> OID_NULL ->
  0 <= k < 2 ^ 32 -> k ∉ (kvs ls).*1 -> ls !! slot a b ls k = Some l ->
  cells (pool s) !! bucket bo (hash_of a b (Z.of_nat (length ls)) k) = Some (Oid hd) -> chain (pool s) hd l ->
  let s' := inserted s map bo e (hash_of a b (Z.of_nat (length ls)) k) k v hd (Z.of_nat (S (length (mjoin ls)))) in
  keeps own map (pool s) (pool s') /\
  hm (pool s') map a b bo (<[slot a b ls k := (e, (k, v)) :: l]> ls).
Proof.
  intros Hm He Hnull Hk Hnk Hl Hhd Hc s'. pose proof Hm as [].
  destruct (hm_apart _ _ _ _ _ _ Hm) as [E3 Hap].
  assert (e <> map /\ e <> bo) as (E1 & E2) by (split; congruence).
  assert (e ∉ oids ls) as Hee by (intros Hin%hm_tent0; congruence).
  assert (forall o i, o <> e -> (o, i) <> count map -> (o, i) <> (bo, S (slot a b ls k)) ->
    cells (pool s') !! (o, i) = cells (pool s) !! (o, i)) as Hfr by (intros; by apply inserted_frame).
  assert (forall l' x i, l' ∈ ls -> x ∈ l'.*1 -> cells (pool s') !! (x, i) = cells (pool s) !! (x, i)) as Hent.
  { intros l' x i [j Hj]%list_elem_of_lookup Hx. pose proof (elem_of_oids _ _ _ _ Hj Hx) as Hin.
    destruct (Hap x Hin). apply Hfr; unfold count; congruence. }
  split.
  - intros o ty Ho Hty. cbn. rewrite lookup_insert_ne by congruence. split; [done|]. intros Hne i.
    apply (Hfr o i); [congruence|unfold count; congruence|]. intros [= -> ->].
    rewrite hm_tbo0 in Ho. by injection Ho as <-.
  - assert (mjoin ls ≡ₚ l ++ others (slot a b ls k) ls) as Hp by (by apply join_split).
    eapply (hm_replace (pool s)); try done.
    + intros o ty Ho. cbn. rewrite lookup_insert_ne by congruence. done.
    + intros j Hj. apply Hfr; [congruence|unfold count; congruence|congruence].
    + cbn. rewrite lookup_insert_eq. rewrite Hp. done.
    + eapply array_update; [done|done| | | |].
      * intros j Hj. apply Hfr; unfold count; congruence.
      * cbn. rewrite lookup_insert_ne by (unfold count, bucket; congruence). by rewrite lookup_insert_eq.
      * apply inserted_chain; try done; intros Hin; pose proof (elem_of_oids _ _ _ _ Hl Hin) as Hin';
          [done|by destruct (Hap map Hin')|by destruct (Hap bo Hin')].
      * intros j l' Hj Hl' [x i] Hx. apply (Hent l'); [by eapply list_elem_of_lookup_2|done].
    + cbn. apply NoDup_cons. split; [by rewrite <- Hp|]. rewrite <- Hp. done.
    + cbn. apply NoDup_cons. split; [by rewrite <- Hp|]. rewrite <- Hp. done.
    + cbn. unfold slot. rewrite Z2Nat.id by (apply hash_of_nonneg; lia).
      intros k' [->|Hin]%elem_of_cons; [done|]. split.
      * by apply hm_key33, (chain_keys _ _ _ _ Hl).
      * rewrite (hm_hash0 _ _ _ Hl Hin). unfold slot. rewrite Z2Nat.id; [done|apply hash_of_nonneg; lia].
    + intros x [->|Hin]%elem_of_cons; cbn; [by rewrite lookup_insert_eq|].
      pose proof (elem_of_oids _ _ _ _ Hl Hin). rewrite lookup_insert_ne by congruence. by apply hm_tent0.
Qed.


Lemma hm_count_bound h map a b bo ls : hm h map a b bo ls -> Z.of_nat (length (mjoin ls)) <= 2 ^ 32.
Proof.
  intros []. replace (length (mjoin ls)) with (length (kvs ls).*1) by (unfold kvs; by rewrite !length_fmap).
  by apply bounded_length.
Qed.

Lemma insert_entry_wp h0 s map a b bo ls k v l :
  hm (pool s) map a b bo ls -> 0 <= k < 2 ^ 32 -> k ∉ (kvs ls).*1 -> ls !! slot a b ls k = Some l ->
  wp h0 (insert_entry map bo (hash_of a b (Z.of_nat (length ls)) k) k v)
    (fun r s' => r = 0 /\ frees s' = frees s /\ keeps own map (pool s) (pool s') /\
      exists e, hm (pool s') map a b bo (<[slot a b ls k := (e, (k, v)) :: l]> ls)) s.
Proof.
  intros Hm Hk Hnk Hl. pose proof Hm as []. destruct (hm_apart _ _ _ _ _ _ Hm) as [Hne _].
  destruct (proj2 hm_array0 _ _ Hl) as (hd & Hhd & Hc).
  set (h := hash_of a b (Z.of_nat (length ls)) k) in *. change (bo, S (slot a b ls k)) with (bucket bo h) in Hhd.
  unfold insert_entry. eapply wp_reads; [by apply reads_oid|].
  apply wp_bind. eapply wp_tx_add; [done|]. apply wp_bind. eapply wp_tx_add; [done|].
  apply wp_bind, wp_tx_alloc. intros e He Hnull. cbn in He.
  assert (e <> map /\ e <> bo) as [E1 E2] by (split; congruence).
  set (s1 := add_object e entry_type _ _).
  assert (forall j, (j < 3)%nat -> is_Some (cells (pool s1) !! (e, j))) as Hnew.
  { intros j Hj. cbn. rewrite lookup_put_fields, bool_decide_true by (cbn; lia). cbn.
    apply lookup_lt_is_Some. cbn. lia. }
  assert (forall x, x.1 <> e -> cells (pool s1) !! x = cells (pool s) !! x) as Hold.
  { intros x Hx. cbn. by rewrite lookup_put_fields, bool_decide_false by tauto. }
  apply wp_bind, wp_store; [by apply Hnew; lia|right; cbn; set_solver|].
  apply wp_bind, wp_store; [cbn [pool put cells with_cells]; rewrite lookup_insert_ne by (unfold key, value; congruence); apply Hnew; lia|right; cbn; set_solver|].
  eapply wp_reads.
  { apply reads_oid. cbn [pool put cells with_cells]. unfold key, value, bucket. rewrite !lookup_insert_ne by congruence.
    rewrite Hold by (cbn; congruence). exact Hhd. }
  apply wp_bind, wp_store.
  { cbn [pool put cells with_cells]. rewrite !lookup_insert_ne by (unfold key, value, next; congruence). apply Hnew. lia. }
  { right. cbn. set_solver. }
  apply wp_bind, wp_store.
  { cbn [pool put cells with_cells]. unfold key, value, next, bucket. rewrite !lookup_insert_ne by congruence.
    rewrite Hold by (cbn; congruence). by eexists. }
  { left. cbn. set_solver. }
  assert (cells (pool (put (bucket bo h) (Oid e) (put (next e) (Oid hd) (put (value e) (Oid v)
    (put (key e) (Int k) s1))))) !! count map = Some (Int (Z.of_nat (length (mjoin ls))))) as Hcnt.
  { cbn [pool put cells with_cells]. unfold key, value, next, bucket, count in *. rewrite !lookup_insert_ne by congruence.
    by rewrite Hold by (cbn; congruence). }
  eapply wp_reads; [apply reads_int, Hcnt|].
  apply wp_bind, wp_store; [by eexists|left; cbn; set_solver|]. apply wp_ret.
  pose proof (hm_count_bound _ _ _ _ _ _ Hm). rewrite u64_id by (unfold is_u64; lia).
  replace (Z.of_nat (length (mjoin ls)) + 1) with (Z.of_nat (S (length (mjoin ls)))) by lia.
  destruct (inserted_hm s map a b bo ls k v e l hd Hm He Hnull Hk Hnk Hl Hhd Hc) as [Hkeep Hm'].
  split; [done|]. split; [done|]. split; [exact Hkeep|]. exists e. exact Hm'.
Qed.


(** The number of buckets is doubled only while it is small. *)
Definition grow (num c n : Z) : bool :=
  (MAX_HASHSET_THRESHOLD <? num) || ((MIN_HASHSET_THRESHOLD <? num) && (u64 (2 * n) <? c)).

Lemma grow_bound h map a b bo ls i l :
  hm h map a b bo ls -> ls !! i = Some l ->
  grow (Z.of_nat (length l)) (Z.of_nat (length (mjoin ls))) (Z.of_nat (length ls)) = true ->
  2 * Z.of_nat (length ls) < 2 ^ 33.
Proof.
  intros Hm Hl Hg. pose proof (hm_count_bound _ _ _ _ _ _ Hm). destruct Hm.
  unfold grow in Hg. apply orb_prop in Hg as [Hg|[_ Hg]%andb_prop]; apply Z.ltb_lt in Hg.
  - unfold MAX_HASHSET_THRESHOLD in Hg.
    pose proof (bucket_length a b (Z.of_nat (length ls)) (Z.of_nat i) l.*2.*1) as H1.
    rewrite !length_fmap in H1. unfold kvs in *. rewrite (join_split _ _ _ Hl), !fmap_app in hm_keys0.
    assert ((Z.of_nat (length l) - 1) * Z.of_nat (length ls) < HASH_FUNC_COEFF_P) as H2.
    { apply H1; [tauto|tauto|tauto|by apply NoDup_app in hm_keys0 as [? _]| |intros k; by apply hm_hash0].
      intros k Hk. by apply hm_key33, (chain_keys _ _ _ _ Hl). }
    unfold HASH_FUNC_COEFF_P in H2. nia.
  - rewrite u64_id in Hg by (unfold is_u64; lia). lia.
Qed.

(** The two outcomes of the search of [hm_tx_insert]. *)
Lemma insert_present s map a b bo ls k v :
  hm (pool s) map a b bo ls -> k ∈ (kvs ls).*1 -> reads s (hm_tx_insert map k v) 1.
Proof.
  intros Hm Hk. destruct (find_chain s map a b bo ls k Hm) as (l & hd & Hl & Hc & R1 & R2 & R3 & Hf).
  unfold hm_tx_insert. eapply reads_bind; [exact R1|]. eapply reads_bind; [exact R2|].
  eapply reads_bind; [exact R3|]. eapply reads_bind; [by intros orc|].
  eapply reads_bind; [by eapply insert_scan_reads|].
  rewrite decide_True by (by rewrite <- (key_in_chain _ _ _ _ _ _ _ _ Hm Hl)). apply reads_ret.
Qed.

Definition insert_rest (map bo : oid) (h k : Z) (v : oid) (num : Z) : tx Z :=
  ret ← TX (insert_entry map bo h k v) (-1);
  if negb (ret =? 0) then mret ret else
  c ← load_int (count map);
  n ← load_int (nbuckets bo);
  (if grow (num + 1) c n then hm_tx_rebuild map (u64 (n * 2)) else mret tt) ;;
  mret 0.

Lemma insert_absent s map a b bo ls k v :
  hm (pool s) map a b bo ls -> k ∉ (kvs ls).*1 ->
  exists l, ls !! slot a b ls k = Some l /\ forall orc,
    hm_tx_insert map k v orc s =
    insert_rest map bo (hash_of a b (Z.of_nat (length ls)) k) k v (Z.of_nat (length l)) orc s.
Proof.
  intros Hm Hk. destruct (find_chain s map a b bo ls k Hm) as (l & hd & Hl & Hc & R1 & R2 & R3 & Hf).
  exists l. split; [done|]. intros orc. unfold hm_tx_insert.
  rewrite (run_reads _ _ bo) by done. rewrite (run_reads _ _ _ _ _ R2), (run_reads _ _ _ _ _ R3).
  rewrite (run_reads _ _ (S (size (types (pool s))))) by (by intros ?).
  rewrite (run_reads _ _ _ _ _ (insert_scan_reads s hd l _ k 0 Hc Hf)).
  rewrite decide_False by (by rewrite <- (key_in_chain _ _ _ _ _ _ _ _ Hm Hl)). done.
Qed.

(** The map of [ls] with one more entry. *)
Lemma kvs_cons ls i e k v (l : list ent) :
  ls !! i = Some l -> kvs (<[i := (e, (k, v)) :: l]> ls) ≡ₚ (k, v) :: kvs ls.
Proof.
  intros Hl. unfold kvs. rewrite (join_insert _ _ _ _ Hl), (join_split _ _ _ Hl). done.
Qed.

Lemma commit_hm s map a b bo ls : frees s = ∅ -> hm (pool s) map a b bo ls -> hm (commit s) map a b bo ls.
Proof. intros Hf. apply hm_commit. rewrite Hf. set_solver. Qed.

Lemma commit_keeps h s map : frees s = ∅ -> keeps own map h (pool s) -> keeps own map h (commit s).
Proof. intros Hf. apply keeps_commit. rewrite Hf. set_solver. Qed.


(** [hm_tx_insert] of a new key inside a transaction. *)
Lemma hm_insert_wp h0 s map a b bo ls k v :
  hm (pool s) map a b bo ls -> frees s = ∅ -> 0 <= k < 2 ^ 32 -> k ∉ (kvs ls).*1 ->
  wp h0 (hm_tx_insert map k v) (fun r s' => r = 0 /\ keeps own map (pool s) (commit s') /\
    exists bo' ls', hm (commit s') map a b bo' ls' /\ kvs ls' ≡ₚ (k, v) :: kvs ls) s.
Proof.
  intros Hm Hf Hk Hnk. destruct (insert_absent s map a b bo ls k v Hm Hnk) as (l & Hl & E).
  intros orc. rewrite E. revert orc. apply wp_bind, wp_TX.
  eapply wp_mono; [|by apply insert_entry_wp]. intros r s1 (-> & Hf1 & Hkeep & e & Hm1). cbn [Z.eqb negb].
  rewrite Hf in Hf1. pose proof (kvs_cons ls _ e k v l Hl) as Hp. set (ls1 := <[_ := _]> ls) in *.
  eapply wp_reads; [apply reads_int, (hm_count _ _ _ _ _ _ Hm1)|].
  eapply wp_reads; [apply reads_int, (hm_array _ _ _ _ _ _ Hm1)|].
  assert (ls1 !! slot a b ls k = Some ((e, (k, v)) :: l)) as Hl1.
  { apply list_lookup_insert_eq. by eapply lookup_lt_Some. }
  pose proof (grow_bound _ _ _ _ _ _ _ _ Hm1 Hl1) as Hg. cbn [length] in Hg.
  replace (Z.of_nat (S (length l))) with (Z.of_nat (length l) + 1) in Hg by lia.
  destruct (grow _ _ _).
  - specialize (Hg eq_refl). rewrite u64_id by (unfold is_u64; lia).
    apply wp_bind. eapply wp_mono; [|apply (rebuild_wp h0 s1 map a b bo ls1); [done|done|lia]].
    intros _ s2 (Hk2 & bo' & ls' & Hm2 & Hp2 & _). apply wp_ret. split; [done|].
    split; [by eapply keeps_trans|]. exists bo', ls'. split; [done|]. by rewrite Hp2.
  - apply wp_ret. split; [done|]. split; [by apply commit_keeps|]. exists bo, ls1.
    split; [by apply commit_hm|done].
Qed.

(** [hm_tx_insert] of a new key outside a transaction: two transactions when the
    table grows.  The abort of the second one leaves the table as it is. *)
Lemma insert_attempt h map a b bo ls k v :
  wf_heap h -> hm h map a b bo ls -> 0 <= k < 2 ^ 32 -> k ∉ (kvs ls).*1 ->
  let added h' := wf_heap h' /\ keeps own map h h' /\
    exists bo' ls', hm h' map a b bo' ls' /\ kvs ls' ≡ₚ (k, v) :: kvs ls in
  attempt h (hm_tx_insert map k v) (fun r h' => r = 0 /\ added h') (fun r h' => r = -1 /\ h' = h)
    (fun h' => h' = h \/ added h').
Proof.
  intros Hwf Hm Hk Hnk added. destruct (insert_absent (idle h) map a b bo ls k v Hm Hnk) as (l & Hl & E).
  intros orc. rewrite E. revert orc. eapply (attempt_bind _ _ _ (fun r h' => r = 0 /\ wf_heap h' /\ keeps own map h h' /\
    exists e, hm h' map a b bo (<[slot a b ls k := (e, (k, v)) :: l]> ls))).
  { eapply atomic_attempt; [apply atomic_TX; [done|]|by left]. eapply wp_mono; [|by apply (insert_entry_wp h (begin h))].
    intros r s1 (-> & Hf1 & Hkeep & e & Hm1) Hc. split; [reflexivity|]. split; [exact Hc|].
    split; [by apply commit_keeps|]. exists e. by apply commit_hm. }
  2:{ intros r h' [-> ->]. apply attempt_ret. by right. }
  intros r h1 (-> & Hwf1 & Hkeep & e & Hm1). cbn [Z.eqb negb].
  pose proof (kvs_cons ls _ e k v l Hl) as Hp. set (ls1 := <[_ := _]> ls) in *.
  assert (added h1) as Ha by (split; [done|]; split; [done|]; by exists bo, ls1).
  eapply attempt_reads; [apply reads_int, (hm_count _ _ _ _ _ _ Hm1)|].
  eapply attempt_reads; [apply reads_int, (hm_array _ _ _ _ _ _ Hm1)|].
  assert (ls1 !! slot a b ls k = Some ((e, (k, v)) :: l)) as Hl1.
  { apply list_lookup_insert_eq. by eapply lookup_lt_Some. }
  pose proof (grow_bound _ _ _ _ _ _ _ _ Hm1 Hl1) as Hg. cbn [length] in Hg.
  replace (Z.of_nat (S (length l))) with (Z.of_nat (length l) + 1) in Hg by lia.
  destruct (grow _ _ _).
  - specialize (Hg eq_refl). rewrite u64_id by (unfold is_u64; lia). eapply attempt_bind.
    + eapply atomic_attempt; [apply (rebuild_atomic h1 map a b bo ls1); [done|done|lia]|by right].
    + intros _ h2 (Hwf2 & Hk2 & bo' & ls' & Hm2 & Hp2 & _). apply attempt_ret. split; [done|].
      split; [done|]. split; [by eapply keeps_trans|]. exists bo', ls'. split; [done|]. by rewrite Hp2.
    + intros _ h2 [_ ->]. apply attempt_ret. by left.
  - eapply attempt_reads; [by apply reads_ret|]. by apply attempt_ret.
Qed.


(** *** Removal *)

(** The field that points at the entry after [l1] in bucket [i]. *)
Definition link (bo : oid) (i : nat) (l1 : list ent) : ptr :=
  match last l1.*1 with None => (bo, S i) | Some p => next p end.

Lemma chain_not_null h o l e : chain h o l -> e ∈ l.*1 -> e <> OID_NULL.
Proof.
  revert o. induction l as [|[x [k v]] l IH]; intros o Hc; cbn; [intros H; by apply not_elem_of_nil in H|].
  destruct Hc as (_ & Hx & _ & _ & nx & _ & Hc). intros [->|Hin]%elem_of_cons; [done|by eapply IH].
Qed.

Lemma chain_split h o l1 e k v l2 :
  chain h o (l1 ++ (e, (k, v)) :: l2) ->
  exists nx, cells h !! next e = Some (Oid nx) /\ cells h !! value e = Some (Oid v) /\ chain h nx l2 /\
    match last l1.*1 with None => o = e | Some p => is_Some (cells h !! next p) end.
Proof.
  revert o. induction l1 as [|[x [k' v']] l1 IH]; intros o; cbn [app chain].
  - intros (-> & _ & _ & Hv & nx & Hn & Hc). exists nx. done.
  - intros (-> & _ & _ & _ & nx & Hn & Hc). destruct (IH nx Hc) as (nx' & H1 & H2 & H3 & H4).
    exists nx'. split; [done|]. split; [done|]. split; [done|]. cbn. rewrite last_cons.
    destruct (last l1.*1); [done|by eexists].
Qed.

Lemma chain_unlink h h' o l1 e k v l2 p nx :
  chain h o (l1 ++ (e, (k, v)) :: l2) -> last l1.*1 = Some p -> NoDup (l1 ++ (e, (k, v)) :: l2).*1 ->
  cells h !! next e = Some (Oid nx) -> cells h' !! next p = Some (Oid nx) ->
  (forall x, x.1 ∈ (l1 ++ l2).*1 -> x <> next p -> cells h' !! x = cells h !! x) -> chain h' o (l1 ++ l2).
Proof.
  revert o. induction l1 as [|[x [k' v']] l1 IH]; intros o Hc Hl Hn Hnx Hp Hf; [done|].
  cbn [app chain] in *. destruct Hc as (-> & Hnull & Hk & Hv & nx0 & Hn0 & Hc). cbn in Hn.
  apply NoDup_cons in Hn as [Hx Hn]. cbn in Hl. rewrite last_cons in Hl.
  split; [done|]. split; [done|]. unfold key, value in *.
  rewrite !Hf by (done || (cbn; left) || (unfold next; congruence)). split; [done|]. split; [done|].
  destruct (last l1.*1) as [p'|] eqn:El.
  - injection Hl as ->. assert (x <> p) as Hxp.
    { intros ->. apply Hx. rewrite fmap_app, elem_of_app. left. by apply last_Some_elem_of. }
    exists nx0. rewrite Hf by ((cbn; left) || (unfold next; congruence)). split; [done|].
    apply IH; try done. intros y Hy. apply Hf. cbn. by right.
  - injection Hl as ->. apply last_None, fmap_nil_inv in El. subst l1. cbn [app chain] in *.
    destruct Hc as (-> & _ & _ & _ & nx1 & Hn1 & Hc). exists nx. split; [done|].
    assert (nx1 = nx) as -> by congruence. eapply chain_frame; [|exact Hc]. intros y Hy.
    apply Hf; [cbn; by right|]. intros ->. apply Hx. cbn. by right.
Qed.


(** The writes of [remove_entry]. *)
Definition unlinked (s : state) (map : oid) (p : ptr) (nx c : Z) : state :=
  put (count map) (Int c) (put p (Oid nx) s).

Lemma link_object h map a b bo ls i l1 e k v l2 :
  hm h map a b bo ls -> ls !! i = Some (l1 ++ (e, (k, v)) :: l2) ->
  is_Some (cells h !! link bo i l1) /\
  exists ty, types h !! (link bo i l1).1 = Some ty /\ own ty = true.
Proof.
  intros [] Hi. destruct (proj2 hm_array0 _ _ Hi) as (hd & Hhd & Hc).
  destruct (chain_split _ _ _ _ _ _ _ Hc) as (nx & _ & _ & _ & Hl). unfold link.
  destruct (last l1.*1) as [p|] eqn:E.
  - split; [done|]. exists entry_type. split; [|done]. apply hm_tent0. eapply elem_of_oids; [done|].
    rewrite fmap_app, elem_of_app. left. by apply last_Some_elem_of.
  - split; [by eexists|]. by exists buckets_type.
Qed.

Lemma unlinked_array s map a b bo ls i l1 e k v l2 nx c :
  hm (pool s) map a b bo ls -> ls !! i = Some (l1 ++ (e, (k, v)) :: l2) ->
  cells (pool s) !! next e = Some (Oid nx) ->
  array (pool (unlinked s map (link bo i l1) nx c)) bo (<[i := l1 ++ l2]> ls).
Proof.
  intros Hm Hi Hnx. pose proof Hm as []. destruct (hm_apart _ _ _ _ _ _ Hm) as [Hne Hap].
  destruct (proj2 hm_array0 _ _ Hi) as (hd & Hhd & Hc).
  destruct (chain_split _ _ _ _ _ _ _ Hc) as (nx' & Hn' & _ & Hc2 & Hl).
  assert (nx' = nx) as -> by congruence. clear Hn'.
  assert (forall x, x.1 <> map -> x <> link bo i l1 ->
    cells (pool (unlinked s map (link bo i l1) nx c)) !! x = cells (pool s) !! x) as Hfr.
  { intros x H1 H2. cbn. rewrite !lookup_insert_ne; [done|done|]. by intros <-. }
  assert (forall j l' x, ls !! j = Some l' -> x ∈ l'.*1 -> x <> map /\ x <> bo) as Hent.
  { intros j l' x Hj Hx. by apply Hap, (elem_of_oids ls j l'). }
  assert (NoDup (l1 ++ (e, (k, v)) :: l2).*1) as Hnd.
  { unfold oids in hm_nodup0. rewrite (join_split _ _ _ Hi), fmap_app in hm_nodup0. by apply NoDup_app in hm_nodup0 as [? _]. }
  assert (forall x, x ∈ (l1 ++ l2).*1 -> x ∈ (l1 ++ (e, (k, v)) :: l2).*1) as Hsub.
  { intros x. rewrite !fmap_app, !elem_of_app. cbn. rewrite elem_of_cons. tauto. }
  assert (cells (pool (unlinked s map (link bo i l1) nx c)) !! link bo i l1 = Some (Oid nx)) as Hlk.
  { destruct (link_object _ _ _ _ _ _ _ _ _ _ _ _ Hm Hi) as (_ & ty & Ht & Hty). cbn.
    rewrite lookup_insert_ne, lookup_insert_eq; [done|]. intros E. rewrite <- E in Ht. cbn in Ht.
    rewrite hm_tmap0 in Ht. by injection Ht as <-. }
  unfold link in *. destruct (last l1.*1) as [p|] eqn:El.
  - assert (p ∈ (l1 ++ (e, (k, v)) :: l2).*1) as Hp.
    { rewrite fmap_app, elem_of_app. left. by apply last_Some_elem_of. }
    eapply array_update; [done|done| | | |].
    + intros j Hj. apply Hfr; [done|]. destruct (Hent i _ p Hi Hp). unfold next. congruence.
    + rewrite Hfr; [done|done|]. destruct (Hent i _ p Hi Hp). unfold next. congruence.
    + eapply (chain_unlink (pool s)); try done. intros x Hx Hne'. apply Hfr; [|done].
      apply (Hent i _ _ Hi). by apply Hsub.
    + intros j l' Hj Hl' x Hx. destruct (Hent j _ _ Hl' Hx). apply Hfr; [done|]. intros ->. cbn in Hx.
      by apply (others_disjoint ls i j _ l' p hm_nodup0 Hi Hl' Hj).
  - apply last_None, fmap_nil_inv in El. subst l1. eapply array_update; [done|done| |done| |].
    + intros j Hj. apply Hfr; [done|]. congruence.
    + eapply chain_frame; [|exact Hc2]. intros x Hx. apply Hsub in Hx. destruct (Hent i _ _ Hi Hx).
      apply Hfr; [done|]. by intros ->.
    + intros j l' Hj Hl' x Hx. destruct (Hent j _ _ Hl' Hx). apply Hfr; [done|]. by intros ->.
Qed.


Lemma unlinked_hm s map a b bo ls i l1 e k v l2 nx :
  hm (pool s) map a b bo ls -> ls !! i = Some (l1 ++ (e, (k, v)) :: l2) ->
  cells (pool s) !! next e = Some (Oid nx) ->
  let s' := unlinked s map (link bo i l1) nx (Z.of_nat (length (mjoin ls)) - 1) in
  keeps own map (pool s) (pool s') /\ hm (pool s') map a b bo (<[i := l1 ++ l2]> ls) /\
  e ∉ oids (<[i := l1 ++ l2]> ls).
Proof.
  intros Hm Hi Hnx s'. pose proof Hm as [].
  destruct (link_object _ _ _ _ _ _ _ _ _ _ _ _ Hm Hi) as (_ & ty & Ht & Hty).
  assert ((link bo i l1).1 <> map) as Hlm.
  { intros E. rewrite E, hm_tmap0 in Ht. by injection Ht as <-. }
  assert (mjoin ls ≡ₚ (e, (k, v)) :: (l1 ++ l2) ++ others i ls) as Hp.
  { rewrite (join_split _ _ _ Hi), <- !app_assoc. cbn. symmetry. apply Permutation_middle. }
  unfold oids in hm_nodup0. unfold kvs in hm_keys0. pose proof hm_nodup0 as Hn1. pose proof hm_keys0 as Hk1.
  rewrite Hp in Hn1, Hk1. cbn in Hn1, Hk1. apply NoDup_cons in Hn1 as [He Hn1], Hk1 as [_ Hk1].
  assert (forall x, x ∈ l1 ++ l2 -> x ∈ l1 ++ (e, (k, v)) :: l2) as Hsub.
  { intros x. rewrite !elem_of_app, elem_of_cons. tauto. }
  split; [|split].
  - apply keeps_put; [by left|]. apply keeps_put; [right; by rewrite Ht|done].
  - eapply (hm_replace (pool s)); try done.
    + intros j Hj. cbn. unfold count. rewrite !lookup_insert_ne; [done| |congruence]. by intros E; rewrite E in Hlm.
    + cbn. rewrite lookup_insert_eq, Hp. cbn [length]. f_equal. f_equal. lia.
    + by eapply unlinked_array.
    + intros k' (kv & -> & (x & -> & Hx)%list_elem_of_fmap)%list_elem_of_fmap. split.
      * by apply hm_key33, (chain_keys _ _ _ _ Hi), elem_of_keys, Hsub.
      * by apply (hm_hash0 _ _ _ Hi), elem_of_keys, Hsub.
    + intros x Hx%list_elem_of_fmap. destruct Hx as (y & -> & Hy). apply hm_tent0.
      eapply elem_of_oids; [done|]. apply list_elem_of_fmap. eauto.
  - unfold oids. by rewrite (join_insert _ _ _ _ Hi).
Qed.

(** [remove_entry] for the field that points at the entry. *)
Definition remove_at (map : oid) (p : ptr) (e : oid) : tx Z :=
  tx_add p ;; tx_add (count map) ;;
  nx ← load_oid (next e);
  store p (Oid nx) ;;
  c ← load_int (count map);
  store (count map) (Int (u64 (c - 1))) ;;
  tx_free e ;;
  mret 0.

Lemma remove_entry_at s map a b bo ls h l1 e k v l2 orc :
  hm (pool s) map a b bo ls -> ls !! Z.to_nat h = Some (l1 ++ (e, (k, v)) :: l2) ->
  remove_entry map bo h e (last_oid OID_NULL l1) orc s = remove_at map (link bo (Z.to_nat h) l1) e orc s.
Proof.
  intros [] Hi. destruct (proj2 hm_array0 _ _ Hi) as (hd & Hhd & Hc).
  unfold remove_entry, remove_at, last_oid, link. destruct (last l1.*1) as [p|] eqn:E.
  - change (default OID_NULL (Some p)) with p. unfold OID_IS_NULL. rewrite (proj2 (Z.eqb_neq p 0)); [done|]. apply (chain_not_null _ _ _ p Hc).
    rewrite fmap_app, elem_of_app. left. by apply last_Some_elem_of.
  - change (default OID_NULL None) with OID_NULL. unfold mbind at 1, tx_bind at 1. cbn [OID_IS_NULL OID_NULL Z.eqb].
    by rewrite (run_reads _ _ bo) by (by apply reads_oid).
Qed.

Lemma remove_entry_wp h0 s map a b bo ls h l1 e k v l2 :
  hm (pool s) map a b bo ls -> frees s = ∅ -> ls !! Z.to_nat h = Some (l1 ++ (e, (k, v)) :: l2) ->
  wp h0 (remove_entry map bo h e (last_oid OID_NULL l1))
    (fun r s' => r = 0 /\ keeps own map (pool s) (commit s') /\
       hm (commit s') map a b bo (<[Z.to_nat h := l1 ++ l2]> ls)) s.
Proof.
  intros Hm Hf Hi orc. rewrite (remove_entry_at s _ _ _ _ _ _ _ _ _ _ _ orc Hm Hi). revert orc. pose proof Hm as [].
  destruct (proj2 hm_array0 _ _ Hi) as (hd & Hhd & Hc). pose proof (chain_split _ _ _ _ _ _ _ Hc) as (nx & Hnx & _ & _ & _).
  assert (e ∈ (l1 ++ (e, (k, v)) :: l2).*1) as Hin by (rewrite fmap_app, elem_of_app; right; left).
  pose proof (hm_tent0 e (elem_of_oids _ _ _ _ Hi Hin)) as Te.
  destruct (link_object _ _ _ _ _ _ _ _ _ _ _ _ Hm Hi) as ([c Hlk] & ty & Ht & Hty).
  destruct (unlinked_hm s map a b bo ls _ l1 e k v l2 nx Hm Hi Hnx) as (Hk' & Hm' & He').
  set (p := link bo (Z.to_nat h) l1) in *.
  assert (p <> count map) as Hpm by (intros E; rewrite E in Ht; cbn in Ht; rewrite hm_tmap0 in Ht; by injection Ht as <-).
  apply wp_bind. eapply wp_tx_add; [done|]. apply wp_bind. eapply wp_tx_add; [done|].
  eapply wp_reads; [by apply reads_oid|]. apply wp_bind, wp_store; [by eexists|left; cbn; set_solver|].
  eapply wp_reads; [apply reads_int; cbn; rewrite lookup_insert_ne by done; exact hm_count0|].
  apply wp_bind, wp_store; [cbn; rewrite lookup_insert_ne by done; by eexists|left; cbn; set_solver|].
  assert (0 < Z.of_nat (length (mjoin ls))) as Hpos.
  { rewrite (join_split _ _ _ Hi), !length_app. cbn. lia. }
  pose proof (hm_count_bound _ _ _ _ _ _ Hm). rewrite u64_id by (unfold is_u64; lia).
  apply wp_bind, wp_tx_free; [by eexists|cbn; rewrite Hf; set_solver|by apply (chain_not_null _ _ _ _ Hc)|].
  apply wp_ret. split; [done|]. cbn [frees release put with_cells]. split.
  - apply keeps_commit; [|exact Hk']. cbn. rewrite Hf. intros o ty' Ho Ho'.
    assert (o = e) as -> by set_solver. rewrite Te in Ho'. by injection Ho' as <-.
  - apply hm_commit; [|exact Hm']. cbn. rewrite Hf. intros o Ho Ho'. assert (o = e) as -> by set_solver.
    destruct Ho as [->|[->|Ho]]; [rewrite hm_tmap0 in Te; done|rewrite hm_tbo0 in Te; done|done].
Qed.


(** The shrinking of the table. *)
Lemma remove_attempt h map a b bo ls k :
  wf_heap h -> hm h map a b bo ls ->
  (k ∉ (kvs ls).*1 /\ reads (idle h) (hm_tx_remove map k) OID_NULL) \/
  exists v,
    let gone h' := wf_heap h' /\ keeps own map h h' /\
      exists bo' ls', hm h' map a b bo' ls' /\ (k, v) :: kvs ls' ≡ₚ kvs ls in
    attempt h (hm_tx_remove map k) (fun r h' => r = v /\ gone h') (fun r h' => r = OID_NULL /\ h' = h)
      (fun h' => h' = h \/ gone h').
Proof.
  intros Hwf Hm. destruct (find_chain (idle h) map a b bo ls k Hm) as (l & hd & Hl & Hc & R1 & R2 & R3 & Hf).
  set (hk := hash_of a b (Z.of_nat (length ls)) k) in *.
  destruct (remove_scan_reads (idle h) hd l (S (size (types h))) k OID_NULL Hc Hf)
    as [(Hnk & p & Hr)|(l1 & e & v & l2 & -> & Hnk & Hr)].
  - left. split; [by rewrite (key_in_chain _ _ _ _ _ _ _ _ Hm Hl)|]. unfold hm_tx_remove.
    eapply reads_bind; [exact R1|]. eapply reads_bind; [exact R2|]. eapply reads_bind; [exact R3|].
    eapply reads_bind; [by intros orc|]. eapply reads_bind; [exact Hr|]. apply reads_ret.
  - right. exists v. intros gone. destruct (chain_split _ _ _ _ _ _ _ Hc) as (nx & _ & Hv & _ & _).
    assert (e <> OID_NULL) as Hnull.
    { eapply chain_not_null; [exact Hc|]. rewrite fmap_app, elem_of_app. right. left. }
    assert ((k, v) :: kvs (<[slot a b ls k := l1 ++ l2]> ls) ≡ₚ kvs ls) as Hp.
    { unfold kvs. rewrite (join_insert _ _ _ _ Hl), (join_split _ _ _ Hl), !fmap_app. cbn.
      rewrite <- !app_assoc. apply Permutation_middle. }
    set (ls1 := <[_ := _]> ls) in *. unfold hm_tx_remove.
    eapply attempt_reads; [exact R1|]. eapply attempt_reads; [exact R2|]. eapply attempt_reads; [exact R3|].
    eapply (attempt_reads _ rounds); [by intros orc|]. eapply attempt_reads; [exact Hr|]. cbn [fst snd].
    unfold OID_IS_NULL at 1. rewrite (proj2 (Z.eqb_neq e 0)) by done.
    eapply attempt_reads; [by apply reads_oid|].
    eapply (attempt_bind _ _ _ (fun r h' => r = 0 /\ wf_heap h' /\ keeps own map h h' /\ hm h' map a b bo ls1)).
    { eapply atomic_attempt; [apply atomic_TX; [done|]|by left].
      eapply wp_mono; [|by eapply (remove_entry_wp h (begin h))]. intros r s1 (-> & Hk1 & Hm1) Hc1. done. }
    2:{ intros r h' [-> ->]. apply attempt_ret. by right. }
    intros r h1 (-> & Hwf1 & Hk1 & Hm1). cbn [Z.eqb negb].
    assert (gone h1) as Hg by (split; [done|]; split; [done|]; by exists bo, ls1).
    eapply attempt_reads; [apply reads_int, (hm_count _ _ _ _ _ _ Hm1)|].
    eapply attempt_reads; [apply reads_int, (hm_array _ _ _ _ _ _ Hm1)|].
    pose proof (hm_len _ _ _ _ _ _ Hm1) as Hlen. destruct (_ <? _).
    + eapply attempt_bind.
      * eapply atomic_attempt; [apply (rebuild_atomic h1 map a b bo ls1); [done|done|]|by right].
        split; [apply Z.div_pos; lia|]. apply (Z.le_lt_trans _ (Z.of_nat (length ls1))); [|lia].
        apply Z.div_le_upper_bound; lia.
      * intros _ h2 (Hwf2 & Hk2 & bo' & ls' & Hm2 & Hp2 & _). apply attempt_ret. split; [done|]. split; [done|].
        split; [by eapply keeps_trans|]. exists bo', ls'. split; [done|]. by rewrite Hp2.
      * intros _ h2 [_ ->]. apply attempt_ret. by left.
    + eapply attempt_reads; [by apply reads_ret|]. by apply attempt_ret.
Qed.

End Ops.
End HashmapOps.
