(* ===== verification/HashmapMap.v ===== *)
(** * The transactional hash map is a map

    Creation, look-ups and traversal of the hash map, and the theorems: the
    operations of [hashmap_tx.c] implement a finite map with failure atomicity, and
    a rebuild keeps every entry. *)

From S2P Require Import Prelude PmemTx HashmapTx HashmapSpec HashmapOps.

Module HashmapMap.
Import HashmapTx HashmapSpec HashmapOps.

(** *** Maps of entries *)
Lemma map_of_insert ls ls' k v :
  NoDup (kvs ls').*1 -> kvs ls' ≡ₚ (k, v) :: kvs ls ->
  (list_to_map (kvs ls') : gmap Z oid) = <[k := v]> (list_to_map (kvs ls)).
Proof. intros Hn Hp. by rewrite (list_to_map_proper _ _ Hn Hp). Qed.

Lemma map_of_delete ls ls' k v :
  NoDup (kvs ls).*1 -> (k, v) :: kvs ls' ≡ₚ kvs ls ->
  (list_to_map (kvs ls') : gmap Z oid) = delete k (list_to_map (kvs ls)) /\
  (list_to_map (kvs ls) : gmap Z oid) !! k = Some v.
Proof.
  intros Hn Hp. symmetry in Hp. pose proof Hn as Hn'. rewrite Hp in Hn'. cbn in Hn'. apply NoDup_cons in Hn' as [Hk _].
  rewrite (list_to_map_proper _ _ Hn Hp). cbn. rewrite lookup_insert_eq. split; [|done].
  rewrite delete_insert_id; [done|]. by apply not_elem_of_list_to_map_1.
Qed.

Lemma map_of_rebuilt ls ls' :
  NoDup (kvs ls).*1 -> kvs ls' ≡ₚ kvs ls -> (list_to_map (kvs ls') : gmap Z oid) = list_to_map (kvs ls).
Proof. intros Hn Hp. symmetry in Hp. by rewrite (list_to_map_proper _ _ Hn Hp). Qed.

(** A key that the map does not have. *)
Lemma map_of_absent ls k : (list_to_map (kvs ls) : gmap Z oid) !! k = None <-> k ∉ (kvs ls).*1.
Proof. split; [apply not_elem_of_list_to_map_2|apply not_elem_of_list_to_map_1]. Qed.

Section Ops.
Context `{A0 : Allocator}.

(** *** Look-up *)
Lemma scan_reads s map m k : holds (pool s) map m -> reads s (scan_map map k) (m !! k).
Proof.
  intros (a & b & bo & ls & Hm & ->).
  destruct (find_chain s map a b bo ls k Hm) as (l & hd & Hl & Hc & R1 & R2 & R3 & Hf). unfold scan_map.
  eapply reads_bind; [exact R1|]. eapply reads_bind; [exact R2|]. eapply reads_bind; [exact R3|].
  eapply reads_bind; [by intros orc|]. rewrite (map_lookup_chain _ _ _ _ _ _ _ _ Hm Hl). by apply get_scan_reads.
Qed.

Lemma hm_get_reads s map m k : holds (pool s) map m -> reads s (hm_tx_get map k) (default OID_NULL (m !! k)).
Proof. intros Hm. eapply reads_bind; [by eapply scan_reads|]. apply reads_ret. Qed.

Lemma hm_lookup_reads s map m k :
  holds (pool s) map m -> reads s (hm_tx_lookup map k) (if m !! k then 1 else 0).
Proof.
  intros Hm. eapply reads_bind; [by eapply scan_reads|]. destruct (m !! k); apply reads_ret.
Qed.

Lemma hm_count_reads s map m : holds (pool s) map m -> reads s (hm_tx_count map) (Z.of_nat (size m)).
Proof.
  intros (a & b & bo & ls & [] & ->). apply reads_int. rewrite hm_count0. do 3 f_equal.
  rewrite <- length_map_to_list, map_to_list_to_map by done. unfold kvs. by rewrite length_fmap.
Qed.

(** *** Traversal *)
Lemma foreach_buckets_reads {S} s map a b bo ls (cb : Z -> oid -> S -> Z * S) n i acc :
  hm (pool s) map a b bo ls -> (forall k v a, (cb k v a).1 = 0) -> (i + n = length ls)%nat ->
  reads s (foreach_buckets n bo (Z.of_nat i) cb (0, acc))
    (0, foldl (fun a kv => (cb kv.1 kv.2 a).2) acc (kvs (drop i ls))).
Proof.
  intros Hm Hcb. pose proof Hm as []. revert i acc. induction n as [|n IH]; intros i acc Hi; cbn [foreach_buckets].
  - rewrite drop_ge by lia. apply reads_ret.
  - destruct (lookup_lt_is_Some_2 ls i ltac:(lia)) as [l Hl].
    destruct (proj2 hm_array0 _ _ Hl) as (hd & Hhd & Hc).
    eapply reads_bind; [apply reads_oid; unfold bucket; by rewrite Nat2Z.id|].
    eapply reads_bind; [by intros orc|].
    eapply reads_bind; [apply foreach_chain_reads; [done|done|by eapply (chain_rounds _ ls)]|].
    replace (Z.of_nat i + 1) with (Z.of_nat (Datatypes.S i)) by lia.
    rewrite (drop_S ls l i Hl). unfold kvs at 1. cbn [mjoin list_join]. rewrite fmap_app, foldl_app.
    apply IH. lia.
Qed.

Lemma hm_foreach_reads {S} s map m (cb : Z -> oid -> S -> Z * S) acc :
  holds (pool s) map m -> (forall k v a, (cb k v a).1 = 0) ->
  exists l, l ≡ₚ map_to_list m /\
    reads s (hm_tx_foreach map cb acc) (0, foldl (fun a kv => (cb kv.1 kv.2 a).2) acc l).
Proof.
  intros (a & b & bo & ls & Hm & ->) Hcb. exists (kvs ls). pose proof Hm as []. split.
  - symmetry. by apply map_to_list_to_map.
  - unfold hm_tx_foreach. eapply reads_bind; [by apply reads_oid|]. eapply reads_bind; [apply reads_int, hm_array0|].
    rewrite Nat2Z.id. exact (foreach_buckets_reads s map a b bo ls cb (length ls) 0 acc Hm Hcb eq_refl).
Qed.

(** *** Creation *)

(** The coefficients that the numbers of [rand] give: the first that is not 0 as a
    [uint32_t], and the one after it. *)
Fixpoint draws (rands : list Z) : option (Z * Z) :=
  match rands with
  | [] => None
  | r :: rs =>
      if u32 r =? 0 then draws rs else
      match rs with [] => None | r' :: _ => Some (u32 r, u32 r') end
  end.

Lemma draws_range rands a b : draws rands = Some (a, b) -> 0 < a < 2 ^ 32 /\ 0 <= b < 2 ^ 32.
Proof.
  induction rands as [|r rs IH]; [done|]. cbn. destruct (Z.eqb_spec (u32 r) 0) as [E|E]; [done|].
  destruct rs as [|r' rs]; [done|]. intros [= <- <-].
  pose proof (u32_range r). pose proof (u32_range r'). unfold is_u32 in *. lia.
Qed.

Lemma put_put p c c' s : put p c (put p c' s) = put p c s.
Proof. unfold put, with_cells. cbn. by rewrite insert_insert_eq. Qed.

Lemma draw_a_wp h0 s map rands a b :
  is_Some (cells (pool s) !! hash_fun_a map) -> covered s (hash_fun_a map) -> draws rands = Some (a, b) ->
  wp h0 (draw_a map rands) (fun rs s' => s' = put (hash_fun_a map) (Int a) s /\
    exists r rest, rs = r :: rest /\ u32 r = b) s.
Proof.
  revert s. induction rands as [|r rs IH]; intros s Hc Hcov; [done|]. cbn [draw_a draws].
  intros Hd. apply wp_bind, wp_store; [done|done|].
  eapply wp_reads; [apply reads_int; cbn; by rewrite lookup_insert_eq|].
  destruct (Z.eqb_spec (u32 r) 0) as [E|E].
  - eapply wp_mono; [|apply IH; [cbn; rewrite lookup_insert_eq; by eexists|exact Hcov|done]].
    intros rs' s' [-> H]. by rewrite put_put.
  - apply wp_ret. destruct rs as [|r' rs]; [done|]. injection Hd as <- <-. eauto.
Qed.

(** What [create_hashmap] writes, and the empty map after it. *)
Definition created (s : state) (map bo : oid) (sd a b : Z) : state :=
  put (nbuckets bo) (Int INIT_BUCKETS_NUM) (put (buckets map) (Oid bo)
    (add_object bo buckets_type (zero_buckets INIT_BUCKETS_NUM)
      (put (hash_fun_p map) (Int HASH_FUNC_COEFF_P) (put (hash_fun_b map) (Int b)
        (put (hash_fun_a map) (Int a) (put (seed map) (Int sd) s)))))).

Lemma created_frame s map bo sd a b o i :
  o <> map -> o <> bo -> cells (pool (created s map bo sd a b)) !! (o, i) = cells (pool s) !! (o, i).
Proof.
  intros H1 H2. cbn. unfold nbuckets, buckets, hash_fun_p, hash_fun_a, hash_fun_b, seed.
  rewrite !lookup_insert_ne by congruence. rewrite lookup_put_fields, bool_decide_false by (cbn; tauto).
  by rewrite !lookup_insert_ne by congruence.
Qed.

Lemma created_map s map bo sd a b i :
  map <> bo -> cells (pool (created s map bo sd a b)) !! (map, i) =
    if decide (i = 5%nat) then Some (Oid bo) else if decide (i = 3%nat) then Some (Int HASH_FUNC_COEFF_P) else
    if decide (i = 2%nat) then Some (Int b) else if decide (i = 1%nat) then Some (Int a) else
    if decide (i = 0%nat) then Some (Int sd) else cells (pool s) !! (map, i).
Proof.
  intros H. cbn. unfold nbuckets, buckets, hash_fun_p, hash_fun_a, hash_fun_b, seed.
  rewrite lookup_insert_ne by congruence. rewrite lookup_insert.
  rewrite lookup_put_fields, bool_decide_false by (cbn; naive_solver). rewrite !lookup_insert.
  repeat case_decide; congruence.
Qed.

Lemma created_hm s map bo sd a b :
  types (pool s) !! map = Some hashmap_type -> types (pool s) !! bo = None -> bo <> OID_NULL ->
  0 < a < 2 ^ 32 /\ 0 <= b < 2 ^ 32 -> cells (pool s) !! count map = Some (Int 0) ->
  hm (pool (created s map bo sd a b)) map a b bo (replicate 10 []).
Proof.
  intros Hmap Hbo Hnull Hr Hc. assert (map <> bo) as Hne by congruence.
  split; try done.
  - split_and!; unfold hash_fun_a, hash_fun_b, hash_fun_p; rewrite created_map by done; done.
  - unfold count in *. rewrite created_map by done. done.
  - unfold buckets. rewrite created_map by done. done.
  - eapply array_frame; [|apply (new_array (put (hash_fun_p map) (Int HASH_FUNC_COEFF_P) (put (hash_fun_b map) (Int b)
        (put (hash_fun_a map) (Int a) (put (seed map) (Int sd) s)))) bo 10); lia].
    intros [o i] [Ho|Ho]; [|by apply not_elem_of_nil in Ho]. cbn in Ho. subst o. cbn. unfold nbuckets, buckets.
    rewrite !lookup_insert. repeat case_decide; congruence || reflexivity.
  - cbn. apply NoDup_nil_2.
  - cbn. apply NoDup_nil_2.
  - intros k Hk. by apply not_elem_of_nil in Hk.
  - intros i l k [-> _]%lookup_replicate Hk. by apply not_elem_of_nil in Hk.
  - cbn. by rewrite lookup_insert_ne.
  - cbn. by rewrite lookup_insert_eq.
  - intros e He. by apply not_elem_of_nil in He.
Qed.


Lemma wpn_die {A} h0 (c : tx A) Q s : wpn h0 c Q s -> wpn h0 (die_on_abort c) Q s.
Proof.
  intros H orc Ho Hr. specialize (H orc Ho Hr). unfold die_on_abort. by destruct (c orc s).
Qed.

Lemma create_hashmap_wpn h0 s map sd rands a b :
  types (pool s) !! map = Some hashmap_type -> map ∈ news s -> draws rands = Some (a, b) ->
  (forall i, (i < 6)%nat -> is_Some (cells (pool s) !! (map, i))) ->
  wpn h0 (create_hashmap map sd rands) (fun _ s' => exists bo s1, s' = created s1 map bo sd a b /\
    pool s1 = pool s /\ frees s1 = frees s /\ types (pool s) !! bo = None /\ bo <> OID_NULL) s.
Proof.
  intros Hmap Hnew Hd Hc. apply wpn_die, wp_wpn, wp_TX. apply wp_bind.
  eapply wp_mono; [|by apply wp_add_fields]. intros _ s1 (E1 & Hs1 & _).
  assert (map ∈ news s1) as Hn1 by (by rewrite (st_news _ _ Hs1)). rewrite <- E1 in *.
  apply wp_bind, wp_store; [apply (Hc 0%nat); lia|by right|].
  apply wp_bind. eapply wp_mono; [|apply (draw_a_wp _ _ _ rands a b); [|by right|done]].
  2:{ cbn. rewrite lookup_insert_ne by done. apply (Hc 1%nat). lia. }
  intros rs s2 (-> & r & rest & -> & Hb). eapply wp_reads; [apply reads_ret|]. cbn [fst].
  apply wp_bind, wp_store; [cbn; rewrite !lookup_insert_ne by done; apply (Hc 2%nat); lia|by right|].
  apply wp_bind, wp_store; [cbn; rewrite !lookup_insert_ne by done; apply (Hc 3%nat); lia|by right|].
  apply wp_bind, wp_tx_alloc. intros bo Hbo Hnull. cbn in Hbo. assert (map <> bo) as Hne by congruence.
  apply wp_bind, wp_store; [|by right; cbn; set_solver|].
  { cbn. rewrite lookup_put_fields, bool_decide_false by (cbn; tauto).
    rewrite !lookup_insert_ne by done. apply (Hc 5%nat). lia. }
  eapply wp_reads; [apply reads_oid; cbn; by rewrite lookup_insert_eq|].
  apply wp_store; [|right; cbn; set_solver|].
  { cbn. rewrite lookup_insert_ne by (unfold buckets, nbuckets; congruence).
    rewrite lookup_put_fields, bool_decide_true by (cbn; lia). by eexists. }
  exists bo, s1. split; [by rewrite Hb|]. split; [done|]. split; [by rewrite (st_frees _ _ Hs1)|]. done.
Qed.

(** [hm_tx_create] makes an empty map, in a new object. *)
Lemma hm_create_call h p sd rands a b :
  wf_heap h -> is_Some (cells h !! p) -> draws rands = Some (a, b) ->
  call h (hm_tx_create p sd rands) (fun r h' => r = 0 /\ wf_heap h' /\ exists map,
      cells h' !! p = Some (Oid map) /\ types h !! map = None /\ holds h' map ∅ /\
      forall o ty, types h !! o = Some ty -> types h' !! o = Some ty /\
        forall i, (o, i) <> p -> cells h' !! (o, i) = cells h !! (o, i))
    (fun h' => h' = h).
Proof.
  intros Hwf [c Hp] Hd. apply call_TX; [done|]. apply wpn_bind, wp_wpn. eapply wp_tx_add; [done|].
  apply wpn_bind, wp_wpn, wp_tx_alloc. intros map Hmap Hnull. cbn in Hmap.
  assert (p.1 <> map) as Hpm by (destruct (Hwf _ _ Hp); congruence).
  assert (put_fields map 0 zero_hashmap (cells h) !! p = Some c) as Hp'.
  { rewrite lookup_put_fields, bool_decide_false by (cbn; intros [? _]; congruence). done. }
  apply wpn_bind, wp_wpn, wp_store; [cbn; eauto|left; cbn; set_solver|]. set (s3 := put p _ _).
  eapply wpn_reads; [apply reads_oid; cbn; by rewrite lookup_insert_eq|].
  assert (forall i, (i < 6)%nat -> cells (pool s3) !! (map, i) = zero_hashmap !! i) as Hz.
  { intros i Hi. cbn. rewrite lookup_insert_ne by (by intros ->).
    rewrite lookup_put_fields, bool_decide_true by (cbn; lia). by rewrite Nat.sub_0_r. }
  assert (types (pool s3) !! map = Some hashmap_type) as Tm by (cbn; by rewrite lookup_insert_eq).
  assert (forall o ty, types h !! o = Some ty -> types (pool s3) !! o = Some ty /\ o <> map /\
    forall i, (o, i) <> p -> cells (pool s3) !! (o, i) = cells h !! (o, i)) as Hold.
  { intros o ty Ho. assert (o <> map) by congruence. cbn. rewrite lookup_insert_ne by done.
    split; [done|]. split; [done|]. intros i Hi. rewrite lookup_insert_ne by done.
    by rewrite lookup_put_fields, bool_decide_false by (cbn; tauto). }
  apply wpn_bind. eapply wpn_mono; [|apply (create_hashmap_wpn _ _ _ _ _ a b); [done|cbn; set_solver|done|]].
  2:{ intros i Hi. rewrite Hz by done. by apply lookup_lt_is_Some. }
  intros _ s' (bo & s1 & -> & E1 & F1 & Hbo & Hbn). apply wp_wpn, wp_ret. intros Hc. split; [done|]. split; [done|].
  exists map. assert (frees (created s1 map bo sd a b) = ∅) as Hf by (cbn; by rewrite F1).
  assert (p.1 <> bo) as Hpb.
  { destruct (Hwf _ _ Hp) as [ty Hty]. destruct (Hold _ _ Hty) as [H _]. congruence. }
  rewrite cells_commit by (rewrite Hf; set_solver). split; [|split; [done|split]].
  - rewrite (surjective_pairing p), created_frame, <- surjective_pairing, E1 by done. cbn. by rewrite lookup_insert_eq.
  - exists a, b, bo, (replicate 10 []). split; [|done]. apply commit_hm; [done|].
    apply created_hm; rewrite ?E1; try done; [by eapply draws_range|by apply (Hz 4%nat); lia].
  - intros o ty Ho. destruct (Hold o ty Ho) as (To & Hom & Hco). assert (o <> bo) by congruence.
    rewrite types_commit by (rewrite Hf; set_solver). split.
    + cbn. rewrite lookup_insert_ne, E1 by done. done.
    + intros i Hi. rewrite cells_commit by (rewrite Hf; set_solver). rewrite created_frame, E1 by done. by apply Hco.
Qed.


(** ** The theorems *)

(** A pool that holds the map [m], with everything else as in [h]. *)
Definition now (h : heap) (map : oid) (m : gmap Z oid) (h' : heap) : Prop :=
  wf_heap h' /\ holds h' map m /\ keeps own map h h'.

Lemma hm_insert_attempt h map m k v :
  wf_heap h -> holds h map m -> 0 <= k < 2 ^ 32 -> m !! k = None ->
  attempt h (hm_tx_insert map k v) (fun r h' => r = 0 /\ now h map (<[k := v]> m) h')
    (fun r h' => r = -1 /\ h' = h)
    (fun h' => now h map m h' \/ now h map (<[k := v]> m) h').
Proof.
  intros Hwf (a & b & bo & ls & Hm & ->) Hk Hnone. rewrite map_of_absent in Hnone.
  assert (forall h', wf_heap h' /\ keeps own map h h' /\ (exists bo' ls', hm h' map a b bo' ls' /\
    kvs ls' ≡ₚ (k, v) :: kvs ls) -> now h map (<[k := v]> (list_to_map (kvs ls))) h') as H.
  { intros h' (H1 & H2 & bo' & ls' & Hm' & Hp). split; [done|]. split; [|done].
    exists a, b, bo', ls'. split; [done|]. symmetry. apply map_of_insert; [apply Hm'|done]. }
  eapply attempt_mono; [| | |by apply (insert_attempt h map a b bo ls k v)].
  - intros r h' [-> Ha]. split; [done|]. by apply H.
  - done.
  - intros h' [->|Ha]; [left|right; by apply H]. split; [done|]. split; [|done]. by exists a, b, bo, ls.
Qed.

Lemma hm_remove_attempt h map m k :
  wf_heap h -> holds h map m ->
  attempt h (hm_tx_remove map k) (fun r h' => r = default OID_NULL (m !! k) /\ now h map (delete k m) h')
    (fun r h' => r = OID_NULL /\ h' = h)
    (fun h' => now h map m h' \/ now h map (delete k m) h').
Proof.
  intros Hwf Hh. pose proof Hh as (a & b & bo & ls & Hm & ->). destruct (remove_attempt h map a b bo ls k Hwf Hm) as [[Hk Hr]|[v Hc]].
  - apply map_of_absent in Hk. rewrite Hk, delete_id by done. intros orc. rewrite (Hr orc).
    split; [done|]. exists h. split; [done|]. by left.
  - assert (forall h', wf_heap h' /\ keeps own map h h' /\ (exists bo' ls', hm h' map a b bo' ls' /\
      (k, v) :: kvs ls' ≡ₚ kvs ls) -> v = default OID_NULL ((list_to_map (kvs ls) : gmap Z oid) !! k) /\
      now h map (delete k (list_to_map (kvs ls))) h') as H.
    { intros h' (H1 & H2 & bo' & ls' & Hm' & Hp). destruct (map_of_delete ls ls' k v (hm_keys _ _ _ _ _ _ Hm) Hp) as [E ->].
      split; [done|]. split; [done|]. split; [|done]. by exists a, b, bo', ls'. }
    eapply attempt_mono; [| | |exact Hc].
    + intros r h' [-> Ha]. by apply H.
    + done.
    + intros h' [->|Ha]; [by left|right; by apply H].
Qed.

(** C16: [hashmap_tx.c] implements a finite map.  On a pool that
    holds [m], with any 32-bit key: an insertion of a new key stores it and returns
    0; one of a key that is there returns 1 and changes nothing; a removal returns
    the value and takes the key out; the look-ups and the counter agree with [m].
    Nothing of this is undefined and the objects of other types stay as they were.
    When the transaction that changes the chain aborts, the insertion returns -1,
    the removal OID_NULL, and the pool is exactly as before; the abort of the one
    that rebuilds the table changes no result.  A power failure at any point, also
    between the two, leaves the map before or after the operation. *)
Theorem hashmap_refines_map h map m k v :
  wf_heap h -> holds h map m -> 0 <= k < 2 ^ 32 ->
  (m !! k = None ->
     attempt h (hm_tx_insert map k v) (fun r h' => r = 0 /\ now h map (<[k := v]> m) h')
       (fun r h' => r = -1 /\ h' = h)
       (fun h' => now h map m h' \/ now h map (<[k := v]> m) h')) /\
  (is_Some (m !! k) -> reads (idle h) (hm_tx_insert map k v) 1) /\
  attempt h (hm_tx_remove map k) (fun r h' => r = default OID_NULL (m !! k) /\ now h map (delete k m) h')
    (fun r h' => r = OID_NULL /\ h' = h)
    (fun h' => now h map m h' \/ now h map (delete k m) h') /\
  reads (idle h) (hm_tx_get map k) (default OID_NULL (m !! k)) /\
  reads (idle h) (hm_tx_lookup map k) (if m !! k then 1 else 0) /\
  reads (idle h) (hm_tx_count map) (Z.of_nat (size m)).
Proof.
  intros Hwf Hm Hk. split; [intros H; by apply hm_insert_attempt|]. split.
  { destruct Hm as (a & b & bo & ls & Hm & ->). intros [v' Hv]. eapply insert_present; [done|].
    apply elem_of_list_to_map_2 in Hv. apply list_elem_of_fmap. by exists (k, v'). }
  split; [by apply hm_remove_attempt|]. split; [by apply hm_get_reads|]. split; [by apply hm_lookup_reads|by apply hm_count_reads].
Qed.

(** C17: [hm_tx_rebuild] with up to 2^33 buckets moves every
    entry into the bucket of its hash in a table of the requested length, 0 standing
    for the old one, and the map stays the same; if the transaction is aborted or
    the power fails, the pool is exactly as before. *)
Theorem hashmap_rebuild_keeps h map m n :
  wf_heap h -> holds h map m -> 0 <= n < 2 ^ 33 ->
  exists len, cells h !! buckets map = Some (Oid len.1) /\ cells h !! nbuckets len.1 = Some (Int len.2) /\
  atomic h (hm_tx_rebuild map n) tt (fun _ h' => now h map m h' /\
    exists bo', cells h' !! buckets map = Some (Oid bo') /\
      cells h' !! nbuckets bo' = Some (Int (if n =? 0 then len.2 else n))).
Proof.
  intros Hwf (a & b & bo & ls & Hm & ->) Hn. pose proof Hm as []. exists (bo, Z.of_nat (length ls)).
  split; [done|]. split; [apply hm_array0|].
  eapply atomic_mono; [|by apply (rebuild_atomic h map a b bo ls)].
  intros _ h' (Hwf' & Hk & bo' & ls' & Hm' & Hp & Hl). split.
  - split; [done|]. split; [|done]. exists a, b, bo', ls'. split; [done|]. symmetry. by apply map_of_rebuilt.
  - exists bo'. unfold new_length in Hl. cbn [snd]. rewrite <- Hl. split; [apply Hm'|apply (hm_array _ _ _ _ _ _ Hm')].
Qed.

End Ops.

(** A pool with an empty map, made by [hm_tx_create]. *)
Lemma sample_map : exists h map, wf_heap h /\ holds h map ∅.
Proof.
  set (h0 := mkHeap {[(1, 0%nat) := Oid OID_NULL]} {[1 := 0]}).
  assert (wf_heap h0) as Hwf.
  { intros p c H. cbn in H. apply lookup_singleton_Some in H as [<- _]. by eexists. }
  destruct (call_run _ _ _ _ (hm_create_call (A0 := bump_allocator) h0 (1, 0%nat) 0 [0; 7; 3] 7 3 Hwf ltac:(by eexists) eq_refl))
    as (x & orc & h & _ & _ & Hw & map & _ & _ & Hm & _).
  by exists h, map.
Qed.

Lemma hashmap_refines_map_witness :
  exists h map, attempt h (@hm_tx_insert bump_allocator map 5 9)
      (fun r h' => r = 0 /\ now h map {[5 := 9]} h')
      (fun r h' => r = -1 /\ h' = h)
      (fun h' => now h map ∅ h' \/ now h map {[5 := 9]} h') /\
    reads (idle h) (hm_tx_lookup map 5) 0.
Proof.
  destruct sample_map as (h & map & Hwf & Hm). exists h, map.
  destruct (@hashmap_refines_map bump_allocator h map ∅ 5 9 Hwf Hm ltac:(lia)) as (H1 & _ & _ & _ & H2 & _).
  split; [|exact H2]. by apply H1.
Defined.

Lemma hashmap_rebuild_keeps_witness :
  exists h map, atomic h (@hm_tx_rebuild bump_allocator map 20) tt (fun _ h' => now h map ∅ h').
Proof.
  destruct sample_map as (h & map & Hwf & Hm). exists h, map.
  destruct (@hashmap_rebuild_keeps bump_allocator h map ∅ 20 Hwf Hm ltac:(lia)) as (len & _ & _ & H).
  eapply atomic_mono; [|exact H]. by intros x h' [? _].
Defined.

End HashmapMap.
