(* ===== verification/MapApi.v ===== *)
(** * The map interface and its client

    Models [pmdk/src/examples/libpmemobj/map/map.h] and [map.c], the table of
    operations through which the workloads use a persistent map, and
    [map/data_store.c], the program that fills one.  The class [MapImpl] states
    what an implementation promises; the theorems on [data_store] hold for every
    implementation that keeps the promises. *)

From S2P Require Import Prelude PmemTx.

(** [struct map_ops]; a member that an implementation leaves out is a null
    function pointer. *)
Record map_ops : Type := mkOps {
  op_check : option (oid -> tx Z);
  op_create : option (ptr -> tx Z);
  op_destroy : option (ptr -> tx Z);
  op_init : option (oid -> tx Z);
  op_insert : option (oid -> Z -> oid -> tx Z);
  op_insert_new : option (oid -> Z -> Z -> Z -> (oid -> tx unit) -> tx Z);
  op_remove : option (oid -> Z -> tx oid);
  op_remove_free : option (oid -> Z -> tx Z);
  op_clear : option (oid -> tx Z);
  op_get : option (oid -> Z -> tx oid);
  op_lookup : option (oid -> Z -> tx Z);
  op_foreach : option (forall S : Type, oid -> (Z -> oid -> S -> Z * S) -> S -> tx (Z * S));
  op_is_empty : option (oid -> tx Z);
  op_count : option (oid -> tx Z);
  op_cmd : option (oid -> Z -> Z -> tx Z)
}.

(** [struct map_ctx], [None] after [map_ctx_free]. *)
Definition map_ctx : Type := option map_ops.

Definition map_ctx_init (ops : option map_ops) : option map_ctx :=
  match ops with None => None | Some ops => Some (Some ops) end.

(** The member of the operations that a call uses, after the check of
    [ABORT_NOT_IMPLEMENTED], which ends the program. *)
Definition member {A} (mapc : map_ctx) (f : map_ops -> option A) : tx A :=
  match mapc with
  | None => fail Undefined
  | Some ops => match f ops with None => fail Panic | Some op => mret op end
  end.

Definition map_create (mapc : map_ctx) (map : ptr) : tx Z :=
  f ← member mapc op_create; f map.
Definition map_destroy (mapc : map_ctx) (map : ptr) : tx Z :=
  f ← member mapc op_destroy; f map.
Definition map_init (mapc : map_ctx) (map : oid) : tx Z :=
  f ← member mapc op_init; f map.
Definition map_check (mapc : map_ctx) (map : oid) : tx Z :=
  f ← member mapc op_check; f map.
Definition map_insert (mapc : map_ctx) (map : oid) (key : Z) (value : oid) : tx Z :=
  f ← member mapc op_insert; f map key value.
Definition map_insert_new (mapc : map_ctx) (map : oid) (key size type_num : Z)
    (constructor : oid -> tx unit) : tx Z :=
  f ← member mapc op_insert_new; f map key size type_num constructor.
Definition map_remove (mapc : map_ctx) (map : oid) (key : Z) : tx oid :=
  f ← member mapc op_remove; f map key.
Definition map_remove_free (mapc : map_ctx) (map : oid) (key : Z) : tx Z :=
  f ← member mapc op_remove_free; f map key.
Definition map_clear (mapc : map_ctx) (map : oid) : tx Z :=
  f ← member mapc op_clear; f map.
Definition map_get (mapc : map_ctx) (map : oid) (key : Z) : tx oid :=
  f ← member mapc op_get; f map key.
Definition map_lookup (mapc : map_ctx) (map : oid) (key : Z) : tx Z :=
  f ← member mapc op_lookup; f map key.
Definition map_foreach (mapc : map_ctx) {S} (map : oid) (cb : Z -> oid -> S -> Z * S) (acc : S) :
    tx (Z * S) :=
  f ← member mapc op_foreach; f S map cb acc.
Definition map_is_empty (mapc : map_ctx) (map : oid) : tx Z :=
  f ← member mapc op_is_empty; f map.
Definition map_count (mapc : map_ctx) (map : oid) : tx Z :=
  f ← member mapc op_count; f map.
Definition map_cmd (mapc : map_ctx) (map : oid) (cmd arg : Z) : tx Z :=
  f ← member mapc op_cmd; f map cmd arg.

(** ** The program [data_store] *)
Module DataStore.
(** The type numbers of the layout: the root object and the items. *)
Definition store_root_type : Z := 0.
Definition store_item_type : Z := 1.
Definition MAX_INSERTS : nat := 5000%nat.

(** [D_RW(root)->map] and [D_RW(item)->item_data] *)
Definition map_field (root : oid) : ptr := (root, 0%nat).
Definition item_data (item : oid) : ptr := (item, 0%nat).

Section Program.
Context `{A0 : Allocator}.

(** [new_store_item]; [data] is what [rand] returns. *)
Definition new_store_item (data : Z) : tx oid :=
  item ← tx_alloc store_item_type [Junk];
  store (item_data item) (Int data) ;; mret item.

(** The transaction of one round: [val] is the key that [rand] returns. *)
Definition insert_item (mapc : map_ctx) (root : oid) (val data : Z) : tx unit :=
  item ← new_store_item data;
  map ← load_oid (map_field root);
  map_insert mapc map val item ;; mret tt.

(** The loop over [nops] rounds, with the numbers of [rand] for each.  An abort
    frees the context, and the loop goes on. *)
Fixpoint insert_items (rands : list (Z * Z)) (root : oid) (mapc : map_ctx) (aborted : bool) :
    tx (map_ctx * bool) :=
  match rands with
  | [] => mret (mapc, aborted)
  | (val, data) :: rands =>
      stopped ← TX (insert_item mapc root val data ;; mret false) true;
      if stopped : bool then
        match mapc with
        | None => fail Undefined
        | Some _ => insert_items rands root None true
        end
      else insert_items rands root mapc aborted
  end.

(** [get_keys] and [dec_keys]; the array [keys] and its length [nkeys]. *)
Definition get_keys (key : Z) (value : oid) (keys : list Z) : Z * list Z := (0, keys ++ [key]).
Definition dec_keys (key : Z) (value : oid) (nkeys : Z) : Z * Z := (0, u64 (nkeys - 1)).

Definition check (b : bool) : tx unit := if b then mret tt else fail AssertFailure.

Fixpoint remove_keys (keys : list Z) (root : oid) (mapc : map_ctx) : tx unit :=
  match keys with
  | [] => mret tt
  | key :: keys =>
      map ← load_oid (map_field root);
      item ← map_remove mapc map key;
      check (negb (OID_IS_NULL item)) ;;
      b ← OID_INSTANCEOF item store_item_type;
      check b ;;
      remove_keys keys root mapc
  end.

(** The second half of [main]: count the items, remove them, count again. *)
Definition drain (mapc : map_ctx) (root : oid) : tx Z :=
  map ← load_oid (map_field root);
  ks ← map_foreach mapc map get_keys [];
  (if (MAX_INSERTS <? length ks.2)%nat then fail Undefined else mret tt) ;;
  remove_keys ks.2 root mapc ;;
  map ← load_oid (map_field root);
  n ← map_foreach mapc map dec_keys (Z.of_nat (length ks.2));
  check (Z.of_nat (length ks.2) =? n.2) ;;
  mret 0.

(** [main] after its arguments were parsed and the pool opened: [gem5] tells
    whether the program was built for the simulator, where it ends after the
    insertions. *)
Definition main (gem5 : bool) (ops : map_ops) (root : oid) (rands : list (Z * Z)) : tx Z :=
  let mapc : map_ctx := Some ops in
  map_create mapc (map_field root) ;;
  st ← insert_items rands root mapc false;
  if gem5 then mret 0 else
  if st.2 : bool then mret (-1) else drain st.1 root.
End Program.
End DataStore.

(** ** What an implementation promises *)
Class MapImpl `{A0 : Allocator} (ops : map_ops) := {
  (** the types of the objects an implementation uses besides the map object *)
  mi_own : Z -> bool;
  (** the keys it supports *)
  mi_key : Z -> Prop;
  (** the pool holds a finite map in a map object *)
  mi_rep : heap -> oid -> gmap Z oid -> Prop;
  mi_object : forall h map m, mi_rep h map m ->
    exists ty, types h !! map = Some ty /\ mi_own ty = false;
  mi_grows : forall h h' map m, grows h h' -> mi_rep h map m -> mi_rep h' map m;
  mi_create : exists f, op_create ops = Some f /\
    forall h p, wf_heap h -> is_Some (cells h !! p) ->
    call h (f p) (fun _ h' => wf_heap h' /\ exists map,
        cells h' !! p = Some (Oid map) /\ types h !! map = None /\ mi_rep h' map ∅ /\
        forall o ty, types h !! o = Some ty -> types h' !! o = Some ty /\
          forall i, (o, i) <> p -> cells h' !! (o, i) = cells h !! (o, i))
      (fun h' => h' = h);
  mi_insert : exists f, op_insert ops = Some f /\
    forall h0 s map m k v ty, frees s = ∅ -> mi_rep (pool s) map m -> m !! k = None -> mi_key k ->
    v <> OID_NULL -> types (pool s) !! v = Some ty -> mi_own ty = false -> v <> map ->
    wp h0 (f map k v) (fun _ s' =>
      keeps mi_own map (pool s) (commit s') /\ mi_rep (commit s') map (<[k := v]> m)) s;
  mi_remove : exists f, op_remove ops = Some f /\
    forall h map m k, wf_heap h -> mi_rep h map m -> mi_key k ->
    call h (f map k) (fun r h' => r = default OID_NULL (m !! k) /\ wf_heap h' /\
        mi_rep h' map (delete k m) /\ keeps mi_own map h h')
      (fun h' => wf_heap h' /\ keeps mi_own map h h' /\
        (mi_rep h' map m \/ mi_rep h' map (delete k m)));
  mi_foreach : exists f, op_foreach ops = Some f /\
    forall S h map m (cb : Z -> oid -> S -> Z * S) acc, mi_rep h map m ->
    (forall k v a, (cb k v a).1 = 0) ->
    exists l, l ≡ₚ map_to_list m /\
      reads (idle h) (f S map cb acc) (0, foldl (fun a kv => (cb kv.1 kv.2 a).2) acc l)
}.

(** ** Correctness of [data_store] *)
Module DataStoreSpec.
Import DataStore.

Section Client.
Context `{A0 : Allocator} {ops : map_ops} {I : MapImpl ops}.
(** The types of the program are none of the implementation's. *)
Context (root_not_own : mi_own store_root_type = false).
Context (item_not_own : mi_own store_item_type = false).

(** [v] is an item of the store with the given data. *)
Definition is_item (h : heap) (map v : oid) (d : Z) : Prop :=
  v <> OID_NULL /\ v <> map /\ types h !! v = Some store_item_type /\
  cells h !! item_data v = Some (Int d).

(** The map of the root object holds exactly the keys of [ps], each with an item
    that has the data of its key. *)
Definition stores (h : heap) (root : oid) (ps : list (Z * Z)) : Prop :=
  wf_heap h /\ types h !! root = Some store_root_type /\
  exists map m, cells h !! map_field root = Some (Oid map) /\ root <> map /\ mi_rep h map m /\
    (forall k, is_Some (m !! k) -> k ∈ ps.*1) /\
    (forall k d, (k, d) ∈ ps -> exists v, m !! k = Some v /\ is_item h map v d).

Lemma is_item_keeps h h' map v d : keeps mi_own map h h' -> is_item h map v d -> is_item h' map v d.
Proof.
  intros Hk (H1 & H2 & H3 & H4). destruct (Hk v store_item_type H3 item_not_own) as [T C].
  split; [done|]. split; [done|]. split; [done|]. unfold item_data. by rewrite C.
Qed.

(** One round. *)
Lemma insert_item_wp h root ps val data :
  stores h root ps -> val ∉ ps.*1 -> mi_key val ->
  wp h (insert_item (Some ops) root val data)
    (fun _ s' => wf_heap (commit s') -> stores (commit s') root (ps ++ [(val, data)])) (begin h).
Proof.
  intros (Hwf & Hroot & map & m & Hmap & Hne & Hrep & Hdom & Hitems) Hval Hkey.
  destruct mi_insert as (f & Ef & Hins). destruct (mi_object _ _ _ Hrep) as (ty & Hty & _).
  unfold insert_item, new_store_item. apply wp_bind, wp_bind, wp_tx_alloc. intros o Ho Hnull.
  cbn in Ho. apply wp_bind, wp_store.
  { cbn. unfold item_data. rewrite lookup_put_fields, bool_decide_true by (cbn; lia). cbn. eauto. }
  { right. cbn. set_solver. }
  apply wp_ret. set (s2 := put (item_data o) _ _).
  assert (grows h (pool s2)) as Hg by (apply grows_put, grows_alloc; done).
  destruct (Hg root _ Hroot) as [Troot Croot].
  eapply wp_reads; [apply reads_oid; unfold map_field; by rewrite Croot|].
  unfold map_insert, member. rewrite Ef. apply wp_bind. eapply wp_reads; [by apply reads_ret|].
  assert (m !! val = None) as Hnone.
  { apply eq_None_not_Some. intros H%Hdom. done. }
  eapply wp_mono; [|apply (Hins h s2 map m val o store_item_type); try done].
  - intros r s' [Hk Hrep']. apply wp_ret. intros Hwf'. split; [done|].
    split; [by apply (Hk root)|]. exists map, (<[val := o]> m).
    destruct (Hk root _ Troot root_not_own) as [_ Croot'].
    split; [unfold map_field; by rewrite Croot', Croot|]. split; [done|]. split; [done|].
    rewrite fmap_app. split.
    + intros k. rewrite elem_of_app, lookup_insert_is_Some. cbn. intros [->|[_ H]]; [set_solver|].
      left. by apply Hdom.
    + intros k d [Hin|Hin]%elem_of_app.
      * destruct (Hitems k d Hin) as (v & Hv & Hi). exists v.
        assert (k <> val) by (intros ->; apply Hval; apply list_elem_of_fmap; by exists (val, d)).
        rewrite lookup_insert_ne by done. split; [done|]. apply (is_item_keeps (pool s2)); [done|].
        destruct Hi as (H1 & H2 & H3 & H4). destruct (Hg v _ H3) as [T C].
        split; [done|]. split; [done|]. split; [done|]. unfold item_data. by rewrite C.
      * apply list_elem_of_singleton in Hin as [= -> ->]. exists o. rewrite lookup_insert_eq.
        split; [done|]. apply (is_item_keeps (pool s2)); [done|].
        split; [done|]. split; [congruence|]. split; cbn; by rewrite lookup_insert_eq.
  - by apply (mi_grows h).
  - cbn. by rewrite lookup_insert_eq.
  - congruence.
Qed.

Lemma insert_items_call h root ps rands :
  stores h root ps -> NoDup (ps ++ rands).*1 -> Forall mi_key rands.*1 ->
  call h (insert_items rands root (Some ops) false)
    (fun st h' => st = (Some ops, false) /\ stores h' root (ps ++ rands))
    (fun h' => exists j, stores h' root (ps ++ take j rands)).
Proof.
  revert h ps. induction rands as [|[val data] rands IH]; intros h ps Hs Hn Hk.
  { apply call_ret. by rewrite app_nil_r. }
  rewrite fmap_app in Hn. cbn in Hn, Hk. apply Forall_cons in Hk as [Hkv Hk].
  assert (val ∉ ps.*1) as Hval.
  { apply NoDup_app in Hn as (_ & Hd & _). intros Hin. apply (Hd _ Hin). set_solver. }
  cbn [insert_items]. eapply call_bind.
  - eapply atomic_call; [|exists O; by rewrite app_nil_r].
    apply (atomic_TX h _ true (fun b h' => b = false /\ stores h' root (ps ++ [(val, data)]))).
    { apply Hs. }
    apply wp_bind. eapply wp_mono; [|by apply insert_item_wp]. intros ? s' H. apply wp_ret.
    intros Hwf. split; [done|]. by apply H.
  - intros b h' [-> Hs']. eapply call_mono; [| |apply (IH h' (ps ++ [(val, data)]))]; try done.
    + intros st h2. by rewrite <- app_assoc.
    + intros h2 [j Hj]. exists (S j). rewrite <- app_assoc in Hj. done.
    + rewrite <- app_assoc, fmap_app. cbn. done.
Qed.

Lemma stores_delete h h' root ps map m key v :
  stores h root ps -> cells h !! map_field root = Some (Oid map) -> mi_rep h map m ->
  (forall k, is_Some (m !! k) -> k ∈ ps.*1) ->
  (forall k d, (k, d) ∈ ps -> exists v, m !! k = Some v /\ is_item h map v d) ->
  root <> map -> wf_heap h' -> keeps mi_own map h h' -> mi_rep h' map (delete key m) ->
  m !! key = Some v ->
  stores h' root (filter (fun p => p.1 <> key) ps) /\ types h' !! v = Some store_item_type.
Proof.
  intros (Hwf & Hroot & _) Hmap Hrep Hdom Hitems Hne Hwf' Hk Hrep' Hv.
  destruct (Hk root _ Hroot root_not_own) as [Troot Croot]. split.
  - split; [done|]. split; [done|]. exists map, (delete key m).
    split; [unfold map_field; by rewrite Croot|]. split; [done|]. split; [done|]. split.
    + intros k [v' [Hne' Hv']%lookup_delete_Some].
      assert (k ∈ ps.*1) as Hin by (apply Hdom; eauto). apply list_elem_of_fmap in Hin as ([k' d] & -> & Hin).
      apply list_elem_of_fmap. exists (k', d). split; [done|]. apply list_elem_of_filter. done.
    + intros k d [Hne' Hin]%list_elem_of_filter. cbn in Hne'.
      destruct (Hitems k d Hin) as (v' & Hv' & Hi). exists v'. rewrite lookup_delete_ne by done.
      split; [done|]. by apply (is_item_keeps h).
  - assert (key ∈ ps.*1) as Hin by (apply Hdom; eauto). apply list_elem_of_fmap in Hin as ([k' d] & -> & Hin).
    destruct (Hitems k' d Hin) as (v' & Hv' & Hi). cbn in Hv. assert (v' = v) as -> by congruence.
    apply Hk; [apply Hi|done].
Qed.

Lemma remove_keys_call h root ps keys :
  stores h root ps -> NoDup keys -> (forall k, k ∈ keys <-> k ∈ ps.*1) -> Forall mi_key keys ->
  call h (remove_keys keys root (Some ops))
    (fun _ h' => stores h' root [])
    (fun h' => exists ps', ps' ⊆ ps /\ stores h' root ps').
Proof.
  revert h ps. induction keys as [|key keys IH]; intros h ps Hs Hn Hkeys Hk.
  { apply call_ret. destruct ps as [|[k d] ps]; [done|].
    specialize (Hkeys k). cbn in Hkeys. set_solver. }
  apply NoDup_cons in Hn as [Hnk Hn]. apply Forall_cons in Hk as [Hkk Hk].
  pose proof Hs as (Hwf & Hroot & map & m & Hmap & Hne & Hrep & Hdom & Hitems).
  destruct mi_remove as (f & Ef & Hrem). cbn [remove_keys].
  eapply call_reads; [by apply reads_oid|]. unfold map_remove, member. rewrite Ef.
  assert (exists v, m !! key = Some v) as [v Hv].
  { assert (key ∈ ps.*1) as Hin by (apply Hkeys; set_solver).
    apply list_elem_of_fmap in Hin as ([k d] & -> & Hin). destruct (Hitems k d Hin) as (v & Hv & _). eauto. }
  assert (v <> OID_NULL) as Hnull.
  { assert (key ∈ ps.*1) as Hin by (apply Hdom; eauto). apply list_elem_of_fmap in Hin as ([k d] & -> & Hin).
    destruct (Hitems k d Hin) as (v' & Hv' & Hi & _). cbn in Hv. congruence. }
  eapply call_bind.
  - eapply call_reads; [by apply reads_ret|]. eapply call_mono; [| |by apply Hrem].
    + intros r h' H. exact H.
    + intros h' (Hwf' & Hkp & [Hr|Hr]).
      * exists ps. split; [done|]. destruct (Hkp root _ Hroot root_not_own) as [Troot Croot].
        split; [done|]. split; [done|]. exists map, m. split; [unfold map_field; by rewrite Croot|].
        split; [done|]. split; [done|]. split; [done|]. intros k d Hin.
        destruct (Hitems k d Hin) as (v' & Hv' & Hi). exists v'. split; [done|].
        by apply (is_item_keeps h).
      * exists (filter (fun p => p.1 <> key) ps). split; [intros x; rewrite list_elem_of_filter; tauto|].
        by eapply stores_delete.
  - intros r h' (-> & Hwf' & Hr & Hkp). rewrite Hv. change (default OID_NULL (Some v)) with v.
    destruct (stores_delete h h' root ps map m key v) as [Hs' Tv]; try done.
    eapply (call_reads _ _ _ tt).
    { unfold OID_IS_NULL. by rewrite (proj2 (Z.eqb_neq v 0)). }
    eapply call_reads; [by apply reads_instanceof|]. rewrite Z.eqb_refl.
    eapply call_reads; [by apply reads_ret|].
    eapply call_mono; [| |apply (IH h' (filter (fun p => p.1 <> key) ps))]; try done.
    + intros h2 (ps' & Hsub & H). exists ps'. split; [|done]. etrans; [done|].
      intros x. rewrite list_elem_of_filter. tauto.
    + intros k. specialize (Hkeys k). rewrite elem_of_cons in Hkeys. split.
      * intros Hin. assert (k ∈ ps.*1) as Hin' by tauto.
        apply list_elem_of_fmap in Hin' as (p & -> & Hin'). apply list_elem_of_fmap. exists p.
        split; [done|]. apply list_elem_of_filter. split; [|done]. intros E. rewrite E in Hin. done.
      * intros Hin. apply list_elem_of_fmap in Hin as (p & -> & [Hne' Hin]%list_elem_of_filter).
        assert (p.1 ∈ ps.*1) as Hp by (apply list_elem_of_fmap; eauto). tauto.
Qed.

(** A pool whose root object is ready for the program. *)
Definition pool_ready (h : heap) (root : oid) : Prop :=
  wf_heap h /\ types h !! root = Some store_root_type /\ is_Some (cells h !! map_field root).

Lemma map_create_call h root :
  pool_ready h root ->
  call h (map_create (Some ops) (map_field root)) (fun _ h' => stores h' root []) (fun h' => h' = h).
Proof.
  intros (Hwf & Hroot & Hf). destruct mi_create as (f & Ef & Hc). unfold map_create, member. rewrite Ef.
  eapply call_reads; [by apply reads_ret|]. eapply call_mono; [| |by apply Hc]; [|done].
  intros r h' (Hwf' & map & Hmap & Hnew & Hrep & Hkeep). split; [done|].
  split; [by apply (Hkeep root)|]. exists map, ∅. split; [done|]. split; [congruence|]. split; [done|].
  split; [intros k [v Hv]; by rewrite lookup_empty in Hv|]. intros k d Hin. by apply not_elem_of_nil in Hin.
Qed.

Lemma collect_keys (l : list (Z * oid)) acc :
  foldl (fun a kv => (get_keys kv.1 kv.2 a).2) acc l = acc ++ l.*1.
Proof.
  revert acc. induction l as [|[k v] l IH]; intros acc; cbn; [by rewrite app_nil_r|].
  rewrite IH. by rewrite <- app_assoc.
Qed.


Lemma drain_call h root rands :
  stores h root rands -> NoDup rands.*1 -> Forall mi_key rands.*1 -> (length rands <= MAX_INSERTS)%nat ->
  call h (drain (Some ops) root) (fun r h' => r = 0 /\ stores h' root [])
    (fun h' => exists ps, ps ⊆ rands /\ stores h' root ps).
Proof.
  intros Hs Hn Hk Hlen. pose proof Hs as (Hwf & Hroot & map & m & Hmap & Hne & Hrep & Hdom & Hitems).
  destruct mi_foreach as (f & Ef & Hfor). unfold drain.
  eapply call_reads; [by apply reads_oid|]. unfold map_foreach, member. rewrite Ef.
  destruct (Hfor _ h map m get_keys [] Hrep) as (l & Hl & Hr); [done|].
  eapply call_reads; [eapply reads_bind; [by apply reads_ret|exact Hr]|].
  rewrite collect_keys. cbn [app snd].
  assert (NoDup l.*1) as Nl by (rewrite Hl; apply NoDup_fst_map_to_list).
  assert (forall k, k ∈ l.*1 <-> k ∈ rands.*1) as Hin.
  { intros k. rewrite Hl, list_elem_of_fmap. split.
    - intros ([k' v] & -> & Hkv%elem_of_map_to_list). apply Hdom. eauto.
    - intros ([k' d] & -> & Hkd)%list_elem_of_fmap. destruct (Hitems k' d Hkd) as (v & Hv & _).
      exists (k', v). split; [done|]. by apply elem_of_map_to_list. }
  assert (length l.*1 = length rands) as Hll.
  { rewrite <- (length_fmap fst rands). apply Permutation_length. by apply NoDup_Permutation. }
  rewrite Hll, (proj2 (Nat.ltb_ge MAX_INSERTS (length rands))) by done.
  eapply call_reads; [by apply reads_ret|]. eapply call_bind.
  { apply (remove_keys_call h root rands l.*1); try done.
    rewrite Forall_forall in Hk |- *. intros k Hkl. by apply Hk, Hin. }
  intros r3 h3 Hs3. cbn beta in Hs3.
  pose proof Hs3 as (_ & _ & map3 & m3 & Hmap3 & _ & Hrep3 & Hdom3 & _).
  eapply call_reads; [by apply reads_oid|].
  destruct (Hfor _ h3 map3 m3 dec_keys (Z.of_nat (length rands)) Hrep3) as (l3 & Hl3 & Hr3); [done|].
  assert (m3 = ∅) as E3.
  { apply map_eq. intros k. rewrite lookup_empty. apply eq_None_not_Some. intros H%Hdom3.
    by apply not_elem_of_nil in H. }
  rewrite E3, map_to_list_empty in Hl3. apply Permutation_nil_r in Hl3. subst l3.
  eapply call_reads; [eapply reads_bind; [by apply reads_ret|exact Hr3]|]. cbn [foldl snd].
  rewrite Z.eqb_refl. eapply call_reads; [by apply reads_ret|]. by apply call_ret.
Qed.

(** C14: with distinct keys that the map supports, and no more of them than
    [MAX_INSERTS], and as long as no transaction is aborted, the program
    runs without undefined behaviour, without a failed
    assertion and without overflowing its array of keys, whatever implementation
    of the interface it uses.  Built for the simulator it ends with exactly the
    keys in the map, each with an item that holds its number; otherwise it removes
    every key again and ends with an empty map.  When the power fails, at whatever
    store or library call, the recovered pool has no map yet, or a complete one:
    in the first case with the keys of the rounds that were finished, in the
    second with some of the keys. *)
Theorem data_store_correct h root rands :
  pool_ready h root -> NoDup rands.*1 -> Forall mi_key rands.*1 -> (length rands <= MAX_INSERTS)%nat ->
  call h (main true ops root rands)
    (fun r h' => r = 0 /\ stores h' root rands)
    (fun h' => h' = h \/ exists j, stores h' root (take j rands)) /\
  call h (main false ops root rands)
    (fun r h' => r = 0 /\ stores h' root [])
    (fun h' => h' = h \/ exists ps, ps ⊆ rands /\ stores h' root ps).
Proof.
  intros Hp Hn Hk Hlen. split; unfold main; (eapply call_bind; [eapply call_mono; [| |by apply map_create_call]; [done|by left]|]);
    intros r1 h1 Hs1; cbn beta in Hs1.
  - eapply call_bind; [eapply call_mono; [| |by apply (insert_items_call h1 root [] rands)]; [done|by right]|].
    intros st h2 [-> Hs2]. by apply call_ret.
  - eapply call_bind.
    { eapply call_mono; [| |by apply (insert_items_call h1 root [] rands)]; [done|].
      intros h' [j Hj]. right. exists (take j rands). split; [|done]. intros x. apply subseteq_take. }
    intros st h2 [-> Hs2]. cbn [fst snd]. eapply call_mono; [| |by apply (drain_call h2 root rands)]; [done|].
    intros h' H. by right.
Qed.
End Client.

(** C25: when the transaction of a round aborts, the handler frees the context
    of the map, but the loop goes on: the next round uses the freed context (or
    frees it a second time), which is undefined behaviour, unless the power
    fails first. *)
Theorem data_store_abort `{A0 : Allocator} ops h root map val data val' data' rands orc orc' :
  cells h !! map_field root = Some (Oid map) -> is_Some (types h !! root) ->
  TX (insert_item (Some ops) root val data ;; mret false) true orc (idle h) =
    Done true orc' (idle h) ->
  PowerLoss ∉ orc' ->
  insert_items ((val, data) :: (val', data') :: rands) root (Some ops) false orc (idle h) =
    Wrong Undefined.
Proof.
  intros Hmap [ty Hty] Hab Hp. cbn [insert_items]. rewrite (run_bind _ _ _ _ _ _ _ Hab).
  set (o := new_oid (types h)). assert (types h !! o = None) as Ho by apply new_oid_unused.
  set (s1 := put (item_data o) (Int data') (add_object o store_item_type [Junk] (begin h))).
  assert (forall orc2, (map0 ← load_oid (map_field root); map_insert None map0 val' o ;; mret tt)
    orc2 s1 = Wrong Undefined) as Hw.
  { intros orc2. erewrite run_reads; [|apply reads_oid].
    2: { cbn. unfold map_field, item_data. rewrite lookup_insert_ne by congruence.
         rewrite lookup_put_fields, bool_decide_false by (cbn; intros [? _]; congruence). exact Hmap. }
    done. }
  assert (forall orc2, PowerLoss ∉ orc2 ->
    (store (item_data o) (Int data') ;; mret o) orc2 (add_object o store_item_type [Junk] (begin h)) =
      Done o (tail orc2) s1) as Hst.
  { intros orc2 Ho2. unfold store, mbind, tx_bind, load. cbn. unfold item_data.
    rewrite lookup_put_fields, bool_decide_true by (cbn; lia). cbn.
    destruct orc2 as [|[] orc2]; try done. set_solver. }
  unfold mbind at 1, tx_bind at 1, TX. cbn [active idle pool].
  unfold insert_item at 1, new_store_item, tx_alloc. cbn [pool begin]. fold o.
  destruct orc' as [|[] orc'].
  - unfold mbind, tx_bind in Hw, Hst |- *. cbn. rewrite Hst by done. cbn. by rewrite Hw.
  - unfold mbind, tx_bind in Hw, Hst |- *. cbn. rewrite Hst by set_solver. cbn. by rewrite Hw.
  - done.
  - set_solver.
Qed.
End DataStoreSpec.
