(* ===== verification/MapInstances.v ===== *)
(** * The maps behind the interface

    The tables of operations of [map/map_ctree.c] and [map/map_hashmap_tx.c] with
    the proofs that the crit-bit tree and the hash map keep the promises of
    [MapImpl], so that the theorems on [data_store] hold for the programs that the
    simulator runs. *)

From S2P Require Import Prelude PmemTx CtreeMap CtreeSpec HashmapTx HashmapSpec HashmapOps HashmapMap MapApi.

Module CtreeInstance.
Import Ctree CtreeSpec.

Section Instance_.
Context `{A0 : Allocator}.

(** [ctree_map_ops]: the wrappers only convert the types of the identifiers. *)
Definition ctree_map_ops : map_ops := {|
  op_check := Some ctree_map_check;
  op_create := Some ctree_map_create;
  op_destroy := Some ctree_map_destroy;
  op_init := None;
  op_insert := Some ctree_map_insert;
  op_insert_new := Some ctree_map_insert_new;
  op_remove := Some ctree_map_remove;
  op_remove_free := Some ctree_map_remove_free;
  op_clear := Some ctree_map_clear;
  op_get := Some ctree_map_get;
  op_lookup := Some ctree_map_lookup;
  op_foreach := Some (fun S => @ctree_map_foreach S);
  op_is_empty := Some ctree_map_is_empty;
  op_count := None;
  op_cmd := None
|}.

Lemma holds_grows h h' map m : grows h h' -> holds h map m -> holds h' map m.
Proof.
  intros Hg (Hmap & t & Ht & Hm). split; [by apply Hg|]. exists t. split; [|done].
  destruct (Hg map _ Hmap) as [_ Cm]. destruct t as [t|]; cbn [represents] in *.
  - destruct Ht as (Hs & H). split; [|done]. apply (stored_extends h); [| |done].
    + intros [o i] [[= -> ->]|Ho]; [apply Cm|]. cbn in Ho.
      by apply (Hg o _ (stored_node _ _ _ _ Hs Ho)).
    + intros o ty Ho. by apply Hg.
  - unfold root in *. by rewrite Cm.
Qed.

Lemma create_atomic h p :
  wf_heap h -> is_Some (cells h !! p) ->
  atomic h (ctree_map_create p) 1 (fun r h' => wf_heap h' /\ exists map,
    cells h' !! p = Some (Oid map) /\ types h !! map = None /\ holds h' map ∅ /\
    forall o ty, types h !! o = Some ty -> types h' !! o = Some ty /\
      forall i, (o, i) <> p -> cells h' !! (o, i) = cells h !! (o, i)).
Proof.
  intros Hwf [c Hp]. apply atomic_TX; [done|]. apply wp_bind. eapply wp_tx_add; [done|].
  apply wp_bind, wp_tx_alloc. intros o Ho Hnull. cbn in Ho.
  assert (p.1 <> o) as Hpo by (destruct (Hwf _ _ Hp); congruence).
  assert (put_fields o 0 [Item 0 OID_NULL] (cells h) !! p = Some c) as Hp'.
  { rewrite lookup_put_fields, bool_decide_false by (cbn; intros [? _]; congruence). done. }
  apply wp_bind, wp_store; [cbn; eauto|left; cbn; set_solver|]. apply wp_ret. intros Hwf'.
  split; [done|]. exists o. set (s := put p _ _) in *.
  assert (frees s = ∅) as Hf by done.
  split; [rewrite cells_commit by (rewrite Hf; set_solver); cbn; by rewrite lookup_insert_eq|].
  split; [done|]. split.
  - split; [rewrite types_commit by (rewrite Hf; set_solver); cbn; by rewrite lookup_insert_eq|].
    exists None. split; [|done]. cbn [represents].
    rewrite cells_commit by (rewrite Hf; set_solver). cbn. unfold root.
    rewrite lookup_insert_ne by (intros ->; done).
    by rewrite lookup_put_fields, bool_decide_true by (cbn; lia).
  - intros o' ty' Ho'. assert (o' <> o) by congruence.
    split; [rewrite types_commit by (rewrite Hf; set_solver); cbn; by rewrite lookup_insert_ne|].
    intros i Hi. rewrite cells_commit by (rewrite Hf; set_solver). cbn.
    rewrite lookup_insert_ne by done.
    by rewrite lookup_put_fields, bool_decide_false by (cbn; intros [? _]; congruence).
Qed.

#[export] Instance ctree_impl : MapImpl ctree_map_ops.
Proof.
  refine {| mi_own := own; mi_key := fun k => 0 < k < 2 ^ 64; mi_rep := holds |}.
  - intros h map m [Hmap _]. by exists map_type.
  - apply holds_grows.
  - exists ctree_map_create. split; [done|]. intros h p Hwf Hp.
    eapply atomic_call; [by apply create_atomic|done].
  - exists ctree_map_insert. split; [done|].
    intros h0 s map m k v ty Hf Hrep _ Hk Hv Hty Hown _. destruct Hrep as (Hmap & t & Ht & <-).
    eapply wp_reads; [by apply best_match_map|]. apply wp_TX.
    eapply wp_mono; [|apply insert_at_wp; try done].
    + intros r s' [_ Hi]. destruct (inserted_commit _ _ _ _ _ Hf Hmap Ht Hi) as [Hs Hh].
      split; [by apply (inner_keeps _ _ _ _ Ht)|done].
    + split; [done|]. exists ty. split; [done|]. by apply Z.eqb_neq.
  - exists ctree_map_remove. split; [done|]. intros h map m k Hwf (Hmap & t & Ht & <-) Hk.
    eapply atomic_call.
    + eapply atomic_mono; [|apply remove_atomic; done || lia]. intros r h' (-> & (? & ?) & Hs).
      apply (inner_keeps _ _ _ _ Ht) in Hs. done.
    + split; [done|]. split; [done|]. left. split; [done|]. eauto.
  - eexists. split; [done|]. intros S h map m cb acc (Hmap & t & Ht & <-) Hcb.
    destruct (foreach_reads h map t cb acc Ht Hcb) as (l & H1 & _ & H3). eauto.
Defined.
End Instance_.

(** A new pool: the root object, whose field is null. *)
Definition sample_store : heap := mkHeap {[(1, 0%nat) := Oid OID_NULL]} {[1 := DataStore.store_root_type]}.

Lemma store_ready : DataStoreSpec.pool_ready sample_store 1.
Proof.
  split; [|by split; [|eexists]]. intros p c H. cbn in H.
  apply lookup_singleton_Some in H as [<- _]. by eexists.
Qed.

Lemma data_store_correct_witness :
  exists orc h', @DataStore.main bump_allocator true (@ctree_map_ops bump_allocator) 1 [(5, 70); (9, 80)] [] (idle sample_store) =
      Done 0 orc (idle h') /\
    DataStoreSpec.stores (I := @ctree_impl bump_allocator) h' 1 [(5, 70); (9, 80)].
Proof.
  destruct (DataStoreSpec.data_store_correct (I := @ctree_impl bump_allocator) eq_refl eq_refl
    sample_store 1 [(5, 70); (9, 80)]) as [H _].
  - exact store_ready.
  - cbn. apply NoDup_cons. split; [set_solver|apply NoDup_singleton].
  - cbn. repeat constructor; lia.
  - cbn. unfold DataStore.MAX_INSERTS. lia.
  - destruct (call_run _ _ _ _ H) as (r & orc & h' & E & -> & Hs). by exists orc, h'.
Defined.

Lemma data_store_abort_witness :
  let h := mkHeap {[(1, 0%nat) := Oid 2; (2, 0%nat) := Item 0 OID_NULL]}
                  {[1 := DataStore.store_root_type; 2 := map_type]} in
  @DataStore.insert_items bump_allocator [(5, 70); (9, 80)] 1 (Some (@ctree_map_ops bump_allocator)) false [AbortTx] (idle h) =
    Wrong Undefined.
Proof.
  intros h. apply (@DataStoreSpec.data_store_abort bump_allocator (@ctree_map_ops bump_allocator) h 1 2 5 70 9 80 [] [AbortTx] []).
  - done.
  - by eexists.
  - vm_compute. reflexivity.
  - set_solver.
Defined.

End CtreeInstance.

Module HashmapInstance.
Import HashmapTx HashmapSpec HashmapOps HashmapMap.

Section Instance_.
Context `{A0 : Allocator}.

(** [hashmap_tx_ops]; [data_store] passes no arguments to [map_create], so the seed
    is 0, and [rands] is what [rand] returns. *)
Definition hashmap_tx_ops (rands : list Z) : map_ops := {|
  op_check := Some hm_tx_check;
  op_create := Some (fun map => hm_tx_create map 0 rands);
  op_destroy := None;
  op_init := Some hm_tx_init;
  op_insert := Some hm_tx_insert;
  op_insert_new := None;
  op_remove := Some hm_tx_remove;
  op_remove_free := None;
  op_clear := None;
  op_get := Some hm_tx_get;
  op_lookup := Some hm_tx_lookup;
  op_foreach := Some (fun S => @hm_tx_foreach S);
  op_is_empty := None;
  op_count := Some hm_tx_count;
  op_cmd := Some hm_tx_cmd
|}.

Definition hashmap_impl (rands : list Z) (a b : Z) (Hd : draws rands = Some (a, b)) :
  MapImpl (hashmap_tx_ops rands).
Proof.
  refine {| mi_own := own; mi_key := fun k => 0 <= k < 2 ^ 32; mi_rep := holds |}.
  - intros h map m (? & ? & ? & ? & Hm & _). exists hashmap_type. split; [apply Hm|done].
  - intros h h' map m Hg (a' & b' & bo & ls & Hm & ->). exists a', b', bo, ls. split; [|done].
    by apply (hm_grows h).
  - eexists. split; [done|]. intros h p Hwf Hp.
    eapply call_mono; [| |by eapply (hm_create_call h p 0 rands a b)]; [|done]. by intros r h' [_ H].
  - exists hm_tx_insert. split; [done|].
    intros h0 s map m k v ty Hf (a' & b' & bo & ls & Hm & ->) Hnone Hk _ _ _ _.
    rewrite map_of_absent in Hnone. eapply wp_mono; [|by eapply hm_insert_wp].
    intros r s' (_ & Hkeep & bo' & ls' & Hm' & Hp). split; [done|]. exists a', b', bo', ls'.
    split; [done|]. symmetry. apply map_of_insert; [apply Hm'|done].
  - exists hm_tx_remove. split; [done|]. intros h map m k Hwf Hm _.
    eapply call_mono; [| |by eapply attempt_call, (hm_remove_attempt h map m k)].
    + intros r h' (-> & ? & ? & ?). done.
    + intros h' [(? & ? & ?)|(? & ? & ?)]; eauto.
  - eexists. split; [done|]. intros S h map m cb acc Hm Hcb. by apply (hm_foreach_reads (idle h)).
Defined.
End Instance_.
End HashmapInstance.
